(* ===== verification/_CoqProject ===== *)
-Q . S2P
Prelude.v
Words.v
Messages.v
MagicHeader.v
Buffer.v
Replay.v
Imitate.v
Sha256.v
Aes.v
Qinit.v
Chacha.v
Poly1305.v
Donna64.v
Donna32.v
Memneq.v
ChachaPoly.v
Blake2s.v
Junk.v
IpBits.v
Trie.v
AllowedIps.v
AllowedIpsSpec.v
Ratelimiter.v
PeerLookup.v
Noise.v
Keypairs.v
Queueing.v
PtrRing.v
Pipeline.v
Cookie.v
Config.v
Dispatch.v
Wire.v
Timers.v
Socket.v
Peer.v
Netlink.v
Dump.v
Evolve.v
DumpSafe.v
Handshake.v
Transport.v
Device.v
