(* ===== verification/Prelude.v ===== *)
(** * AmneziaWG kernel module: a verification library (root file)

    AmneziaWG is WireGuard with an obfuscation layer: message types become
    ranges of headers, every message may carry a prefix of junk, and junk and
    signature packets that look like other protocols precede a handshake.
    This library models the module in [src/] and proves that its parts, and
    the parts put together, do what they are for.  File names below without a
    directory are under [src/src/].

    ** How the program is modelled

    A function of the source is a function here, with every early return and
    everything it leaves behind on it.  Words are [Z] and each truncation is
    written out ([u8] ... [u64], [s32], [s64]); bytes are a [list Z]; a store
    outside a buffer, an access to an address that is not allocated, a double
    free and a shift that C leaves undefined make the operation [None], so
    that a theorem that says an operation returns is also one about memory
    safety.  Error numbers are the values the source returns.  What is not
    under [src/] (allocation, random numbers, clocks, parsing of attributes,
    routes, the keyed hash) is an argument; where the code relies on a
    property of it, that property is a named hypothesis and a witness shows
    it can hold.  A call runs under the locks of the source and is atomic,
    except where a step relation says otherwise ([Queueing], [Pipeline],
    [Peer], [DumpSafe]).  Calls into a part that has a model of its own are
    calls of that model, or, where the caller does not look at the result,
    a list of effects in the order of the calls.

    ** Files

    Foundations: [Prelude] (integers, lists, the step and error idioms,
    tactics), [Words] (little-endian words), [Buffer] (writers that fail
    outside their buffer).

    Formats: [Messages] and [Wire] (messages.h: constants, structures and
    their bytes), [MagicHeader] (magic_header.c).

    Obfuscation: [Imitate] (imitate.c), [Sha256] and [Aes] (crypto/sha256.c,
    crypto/aes.c), [Qinit] (qinit.c), [Junk] (junk.c), [Config]
    (the obfuscation parameters in device.c and netlink.c), [Dispatch]
    (recognition of a datagram in receive.c).

    Cryptography under crypto/zinc: [Chacha], [Poly1305] with its back ends
    [Donna64] and [Donna32], [ChachaPoly], [Blake2s]; [Memneq]
    (compat/memneq/memneq.c).

    Tables: [IpBits], [Trie], [AllowedIps], [AllowedIpsSpec] (allowedips.c),
    [PeerLookup] (peerlookup.c), [Ratelimiter] (ratelimiter.c).

    Sessions: [Noise] and [Keypairs] (noise.c), [Cookie] (cookie.c),
    [Replay] (counter_validate in receive.c), [Timers] (timers.c).

    Packets: [Queueing] (queueing.c, queueing.h), [PtrRing] (the ring in
    compat/ptr_ring), [Pipeline] (the two queues and the workers of send.c and
    receive.c), [Socket] (socket.c).

    Devices and peers: [Peer] (peer.c), [Netlink], [Dump], [Evolve] and
    [DumpSafe] (netlink.c: requests that set, requests that get, and both
    interleaved), [Device] (device.c: up, down, transmission and
    notifications, on the peers of [Transport], [Timers] and [Socket]).

    Composition: [Handshake] (handshake messages in send.c and receive.c from
    the configuration string to the session) and [Transport] (data packets
    in send.c and receive.c).

    ** Theorems

    End to end.  [handshake_end_to_end]: two configured devices complete a
    handshake over datagrams with junk and end with sessions that belong
    together.  [transport_end_to_end]: a packet arrives unchanged.
    [transport_delivery_sound]: what is delivered was authenticated, is no
    replay and comes from an allowed address.  [transport_nonces_unique]: no
    nonce is used twice.  [handshake_load_bound]: under load the expensive
    operations are limited for each source.

    Refinements of an abstract specification: the table of allowed addresses
    is a map with longest-prefix match ([allowedips_trace]); a sequence of
    requests acts as on an abstract configuration ([netlink_refines]); a dump
    returns exactly that configuration ([dump_roundtrip]); the index table is
    a map ([index_hashtable_refines]); the replay bitmap is a sliding window
    ([counter_validate_refines_window]); the ring is a bounded queue
    ([ptr_ring_fifo]); a signature packet is its tags
    ([jp_spec_packet_is_tags]); encryption in pieces is RFC 8439
    ([chacha20poly1305_sg]).

    Invariants of every reachable state, by induction over steps:
    [prev_queue_fifo] and [pipeline_safe] (packets in order, once),
    [keypairs_safe], [peer_lifecycle], [removed_peers_freed] and [dump_safe]
    (no use of freed memory, exact reference counts), [endpoint_roaming],
    [set_device_consistent].

    Equivalences with standards: [aes128_encrypt_block_fips],
    [blake2s_streaming], [chacha20poly1305_rfc], [qinit_build_readable].

    Time: [handshake_given_up], [keepalive_owed], [ratelimiter_rate_bound],
    [timers_bounded], [socket_init_safe].

    The interface: [xmit_routes] (a packet goes to the peer of the longest
    prefix), [device_stop_silent], [suspend_forgets_keys], [vm_fork_no_reuse]
    and [netns_exit_cuts_off] (what is left of keys, timers, packets and
    sockets after each of these events).

    Behaviour that is probably not meant: [dump_bogus_endless],
    [response_taken_for_initiation], [rejected_request_short_handshake],
    [keepalive_counted_as_data], [jp_spec_setup_negative_size].

    ** Bounds and fuel

    Loops over data are structural.  Where a loop is not, the function takes
    fuel and a theorem gives an amount that is enough: the depth of a trie is
    at most 129 nodes for a walk ([AllowedIps]); the freeing loops of the trie
    run at most as often as there are nodes, with a stack of 128; the search
    for a free index ends with the first random number that is not in use
    ([PeerLookup] takes the numbers as a list); a dump takes one message for
    every peer and address and one more ([dump_roundtrip]); opening the
    sockets retries 100 times ([Socket]).  Counters are unbounded where the
    source would need 2^64 operations to wrap, which is then a hypothesis
    ([dump_safe]) or noted at the definition.  The loops of the ciphers and
    hashes take a block from their input each time, so that the length of the
    input is enough; the parser of tags consumes a character each time.  The
    generic ChaCha20 takes its length as 32 bits: its theorems hold for lists of
    any length, of which only those below 2^32 are calls of the code.

    The laws of [NoiseCrypto] hold for lists of any length in the statement;
    the code only uses them at the lengths of its arrays.

    ** Not modelled

    - Curve25519 (crypto/zinc/curve25519): machine-generated field
      arithmetic; the handshake uses it through the laws of [NoiseCrypto].
    - Assembly and the code that chooses it: outside what a shallow embedding
      of C can translate; the generic code is modelled.
    - Self tests (selftest, crypto/zinc/selftest): test vectors, run once in
      debugging builds; the scenarios of selftest/counter.c are in [Replay].
    - The compatibility layer (compat), apart from ptr_ring.h and memneq.c:
      stand-ins for functions of newer kernels, whose documented behaviour is
      an argument here.
    - main.c, the registration with generic netlink, [lookup_interface] and
      [wg_genl_mcast_peer_unknown]: calls of the kernel in a fixed order.
    - [wg_newlink], [wg_destruct] and the creation of the device queues in
      queueing.c: allocation and release of kernel objects; the peers, sockets
      and limiter they create and release are modelled on their own.
    - [ptr_ring_resize_multiple], which the module does not call; the loop of
      the receiving worker; statistics that nothing reads back.
    - Timing side channels, weak memory orderings (the queue is modelled under
      sequential consistency) and the content of kernel log messages. *)

From Stdlib Require Export ZArith Lia String Ascii.
From stdpp Require Export base list option numbers.

#[global] Open Scope Z_scope.
#[global] Open Scope list_scope.

(** ** Machine integers

    C's unsigned arithmetic is arithmetic modulo [2 ^ w].  Values are [Z];
    every place where the source truncates is an explicit [u8], [u16], [u32]
    or [u64]. *)

Definition u8 (z : Z) : Z := z mod 2 ^ 8.
Definition u16 (z : Z) : Z := z mod 2 ^ 16.
Definition u32 (z : Z) : Z := z mod 2 ^ 32.
Definition u64 (z : Z) : Z := z mod 2 ^ 64.

(** Two's complement reinterpretation, for the [(s64)] casts and [int]. *)
Definition s32 (z : Z) : Z := (z + 2 ^ 31) mod 2 ^ 32 - 2 ^ 31.
Definition s64 (z : Z) : Z := (z + 2 ^ 63) mod 2 ^ 64 - 2 ^ 63.

Definition U64_MAX : Z := 2 ^ 64 - 1.
Definition NSEC_PER_SEC : Z := 1000000000.

(** ** Error numbers (the kernel's [errno] values) *)

Definition EPERM : Z := 1.
Definition ENOMEM : Z := 12.
Definition EINVAL : Z := 22.
Definition ERANGE : Z := 34.

(** Results of fallible calls: a value, or a negative error number. *)
Inductive res (A : Type) : Type :=
| Ok (a : A)
| Err (e : Z).
Arguments Ok {A} a.
Arguments Err {A} e.

Definition res_bind {A B} (r : res A) (k : A -> res B) : res B :=
  match r with
  | Ok a => k a
  | Err e => Err e
  end.

(** Splits the conjunctions of a goal, without unfolding definitions. *)
Ltac ands := repeat match goal with |- _ /\ _ => split end.

Declare Scope awg_scope.
Delimit Scope awg_scope with awg.
#[global] Open Scope awg_scope.

Notation "'let?' x ':=' r 'in' k" := (res_bind r (fun x => k))
  (at level 10, x pattern, r at level 100, k at level 200) : awg_scope.

(** ** Byte strings

    Buffers and C strings are lists of byte values.  A C string is such a
    list without its terminating NUL; [NULL] is [None] where a pointer may be
    null. *)

Abbreviation bytes := (list Z) (only parsing).

Definition len {A} (l : list A) : Z := Z.of_nat (length l).

(** The bytes of a string literal of the source. *)
Fixpoint B (s : string) : list Z :=
  match s with
  | EmptyString => []
  | String c s' => Z.of_N (N_of_ascii c) :: B s'
  end.

Definition is_byte (z : Z) : Prop := 0 <= z < 256.
Abbreviation all_bytes := (Forall is_byte).

(** [strsep(&s, "c")]: the token up to the first [c] and the rest after it;
    the rest is [NULL] when [c] does not occur. *)
Fixpoint split_at_char (c : Z) (s : list Z) : list Z * option (list Z) :=
  match s with
  | [] => ([], None)
  | x :: s' =>
      if x =? c then ([], Some s')
      else let '(tok, rest) := split_at_char c s' in (x :: tok, rest)
  end.

Definition strsep (c : Z) (s : option (list Z)) : option (list Z) * option (list Z) :=
  match s with
  | None => (None, None)
  | Some s => let '(tok, rest) := split_at_char c s in (Some tok, rest)
  end.

(** Decimal rendering, the ["%u"] conversion. *)
Fixpoint dec_fuel (fuel : nat) (n : Z) : list Z :=
  match fuel with
  | O => [48 + n mod 10]
  | S f => if n <? 10 then [48 + n] else dec_fuel f (n / 10) ++ [48 + n mod 10]
  end.

Definition dec (n : Z) : list Z := dec_fuel 20 n.
#[global] Arguments dec : simpl never.
#[global] Arguments B : simpl never.

(** The ["%d"] conversion. *)
Definition sdec (n : Z) : list Z := if n <? 0 then 45 :: dec (- n) else dec n.

(** [scnprintf(buf, size, ...)]: the bytes stored before the NUL; the return
    value is their number. *)
Definition scnprintf (size : Z) (s : list Z) : list Z :=
  firstn (Z.to_nat (size - 1)) s.

(** A byte as a bit string, most significant bit first. *)
Definition byte_bits (b : Z) : list bool := map (Z.testbit b) [7; 6; 5; 4; 3; 2; 1; 0].

(** ** Kernel string-to-integer conversion

    [kstrtouint], [kstrtoint] and [kstrtou8] belong to the kernel's library,
    not to this repository: they are operations of an interface, and what the
    code relies on is the interface's law class. *)

Class Kstrto := {
  kstrtouint10 : list Z -> res Z;   (* kstrtouint(s, 10, &r) *)
  kstrtoint10 : list Z -> res Z;    (* kstrtoint(s, 10, &r)  *)
  kstrtou8_16 : list Z -> res Z     (* kstrtou8(s, 16, &r)   *)
}.

(** Lower-case hexadecimal digits, as a configuration tool prints them. *)
Definition hex_digit (d : Z) : Z := if d <? 10 then 48 + d else 87 + d.
Definition hex_byte (b : Z) : list Z := [hex_digit (b / 16); hex_digit (b mod 16)].

(** Documented behaviour (lib/kstrtox.c kernel-doc): a decimal numeral that
    fits the type converts to its value, a result always fits the type, and
    failures are negative error numbers. *)
Class KstrtoLaws `(K : Kstrto) : Prop := {
  kstrtouint10_dec : forall n, 0 <= n < 2 ^ 32 -> kstrtouint10 (dec n) = Ok n;
  kstrtouint10_range : forall s n, kstrtouint10 s = Ok n -> 0 <= n < 2 ^ 32;
  kstrtouint10_err : forall s e, kstrtouint10 s = Err e -> e < 0;
  kstrtoint10_sdec : forall n, - 2 ^ 31 <= n < 2 ^ 31 -> kstrtoint10 (sdec n) = Ok n;
  kstrtoint10_range : forall s n, kstrtoint10 s = Ok n -> - 2 ^ 31 <= n < 2 ^ 31;
  kstrtou8_16_hex : forall b, is_byte b -> kstrtou8_16 (hex_byte b) = Ok b;
  kstrtou8_16_range : forall s n, kstrtou8_16 s = Ok n -> is_byte n
}.

(** A reference converter that satisfies the laws; witnesses run with it.  It
    accepts an optional sign, decimal (hexadecimal) digits and one trailing
    newline. *)
Module KstrtoRef.

Definition digit10 (c : Z) : option Z :=
  if (48 <=? c) && (c <=? 57) then Some (c - 48) else None.

Definition digit16 (c : Z) : option Z :=
  if (48 <=? c) && (c <=? 57) then Some (c - 48)
  else if (97 <=? c) && (c <=? 102) then Some (c - 87)
  else if (65 <=? c) && (c <=? 70) then Some (c - 55)
  else None.

Fixpoint digits (base : Z) (dig : Z -> option Z) (acc : Z) (s : list Z) : option Z :=
  match s with
  | [] => Some acc
  | c :: s' =>
      match dig c with
      | Some d => digits base dig (acc * base + d) s'
      | None => match s' with [] => if c =? 10 then Some acc else None | _ => None end
      end
  end.

Definition number (base : Z) (dig : Z -> option Z) (s : list Z) : option Z :=
  match s with
  | [] => None
  | c :: _ => match dig c with Some _ => digits base dig 0 s | None => None end
  end.

Definition unsign (s : list Z) : list Z :=
  match s with
  | 43 :: s' => s'
  | _ => s
  end.

Definition in_range (lo hi : Z) (o : option Z) : res Z :=
  match o with
  | None => Err (- EINVAL)
  | Some n => if (lo <=? n) && (n <? hi) then Ok n else Err (- ERANGE)
  end.

Definition kstrtouint10 (s : list Z) : res Z :=
  in_range 0 (2 ^ 32) (number 10 digit10 (unsign s)).

Definition kstrtoint10 (s : list Z) : res Z :=
  match s with
  | 45 :: s' => in_range (- 2 ^ 31) (2 ^ 31) (Z.opp <$> number 10 digit10 s')
  | _ => in_range (- 2 ^ 31) (2 ^ 31) (number 10 digit10 (unsign s))
  end.

Definition kstrtou8_16 (s : list Z) : res Z :=
  in_range 0 256 (number 16 digit16 (unsign s)).

Definition ops : Kstrto :=
  {| Prelude.kstrtouint10 := kstrtouint10;
     Prelude.kstrtoint10 := kstrtoint10;
     Prelude.kstrtou8_16 := kstrtou8_16 |}.

End KstrtoRef.

(** ** Tactics and hints *)

(** [lia] reasons about division and remainder by constants. *)
Ltac Zify.zify_post_hook ::= Z.to_euclidean_division_equations.

Create HintDb awg.
Create Rewrite HintDb awg.

(** Split the boolean tests of the translated code and turn them into facts
    about [Z]. *)
Ltac bool_cases :=
  repeat match goal with
  | |- context [if ?b then _ else _] => destruct b eqn:?
  | H : context [if ?b then _ else _] |- _ => destruct b eqn:?
  end.

Ltac zbool :=
  repeat match goal with
  | H : (_ && _) = true |- _ => apply andb_true_iff in H; destruct H
  | H : (_ && _) = false |- _ => apply andb_false_iff in H
  | H : (_ || _) = true |- _ => apply orb_true_iff in H
  | H : (_ || _) = false |- _ => apply orb_false_iff in H; destruct H
  | H : negb _ = true |- _ => apply negb_true_iff in H
  | H : negb _ = false |- _ => apply negb_false_iff in H
  | H : (_ =? _) = true |- _ => apply Z.eqb_eq in H
  | H : (_ =? _) = false |- _ => apply Z.eqb_neq in H
  | H : (_ <=? _) = true |- _ => apply Z.leb_le in H
  | H : (_ <=? _) = false |- _ => apply Z.leb_gt in H
  | H : (_ <? _) = true |- _ => apply Z.ltb_lt in H
  | H : (_ <? _) = false |- _ => apply Z.ltb_ge in H
  | H : (_ >=? _) = _ |- _ => rewrite Z.geb_leb in H
  | H : (_ >? _) = _ |- _ => rewrite Z.gtb_ltb in H
  end.

(** ** Integers *)

Lemma u8_range z : 0 <= u8 z < 256.
Proof. unfold u8. apply Z.mod_pos_bound. lia. Qed.

Lemma u16_range z : 0 <= u16 z < 65536.
Proof. unfold u16. apply Z.mod_pos_bound. lia. Qed.

Lemma u32_range z : 0 <= u32 z < 2 ^ 32.
Proof. apply Z.mod_pos_bound. lia. Qed.

Lemma u64_range z : 0 <= u64 z < 2 ^ 64.
Proof. apply Z.mod_pos_bound. lia. Qed.

Lemma u8_small z : 0 <= z < 256 -> u8 z = z.
Proof. intros. apply Z.mod_small. lia. Qed.

Lemma u16_small z : 0 <= z < 65536 -> u16 z = z.
Proof. intros. apply Z.mod_small. lia. Qed.

Lemma u32_small z : 0 <= z < 2 ^ 32 -> u32 z = z.
Proof. intros. apply Z.mod_small. lia. Qed.

Lemma u64_small z : 0 <= z < 2 ^ 64 -> u64 z = z.
Proof. intros. apply Z.mod_small. lia. Qed.

Lemma is_byte_u8 z : is_byte (u8 z).
Proof. apply u8_range. Qed.

#[export] Hint Resolve u8_range u16_range u32_range u64_range is_byte_u8 : awg.

(** ** Lists *)

(** A property of every byte, by evaluation on all 256 of them. *)
Lemma all_bytes_check (f : Z -> bool) :
  forallb f (map Z.of_nat (seq 0 256)) = true -> forall b, is_byte b -> f b = true.
Proof.
  intros H b Hb. rewrite forallb_forall in H. apply H, in_map_iff.
  exists (Z.to_nat b). unfold is_byte in Hb. split; [lia|]. apply in_seq. lia.
Qed.

Lemma byte_eq_check (f g : Z -> Z) :
  forallb (fun b => f b =? g b) (map Z.of_nat (seq 0 256)) = true -> forall b, is_byte b -> f b = g b.
Proof. intros H b Hb. apply Z.eqb_eq. exact (all_bytes_check _ H b Hb). Qed.

(** Bit operations stay within a width. *)
Lemma mask_small n a : 0 <= n -> 0 <= a < 2 ^ n -> Z.land a (Z.ones n) = a.
Proof. intros. rewrite Z.land_ones by lia. by apply Z.mod_small. Qed.

Lemma mask_range n a : 0 <= n -> 0 <= Z.land a (Z.ones n) < 2 ^ n.
Proof. intros. rewrite Z.land_ones by lia. apply Z.mod_pos_bound. lia. Qed.

Lemma lxor_range n a b : 0 <= n -> 0 <= a < 2 ^ n -> 0 <= b < 2 ^ n -> 0 <= Z.lxor a b < 2 ^ n.
Proof.
  intros Hn Ha Hb. replace (Z.lxor a b) with (Z.land (Z.lxor a b) (Z.ones n)); [by apply mask_range|].
  rewrite <- (mask_small n a), <- (mask_small n b) by done. apply Z.bits_inj. intros i.
  rewrite ?Z.land_spec, ?Z.lxor_spec, ?Z.land_spec. by destruct (Z.testbit a i), (Z.testbit b i), (Z.testbit (Z.ones n) i).
Qed.

Lemma lor_range n a b : 0 <= n -> 0 <= a < 2 ^ n -> 0 <= b < 2 ^ n -> 0 <= Z.lor a b < 2 ^ n.
Proof.
  intros Hn Ha Hb. replace (Z.lor a b) with (Z.land (Z.lor a b) (Z.ones n)); [by apply mask_range|].
  rewrite <- (mask_small n a), <- (mask_small n b) by done. apply Z.bits_inj. intros i.
  rewrite ?Z.land_spec, ?Z.lor_spec, ?Z.land_spec. by destruct (Z.testbit a i), (Z.testbit b i), (Z.testbit (Z.ones n) i).
Qed.

Lemma is_byte_lxor a b : is_byte a -> is_byte b -> is_byte (Z.lxor a b).
Proof. apply (lxor_range 8); lia. Qed.

#[export] Hint Resolve is_byte_lxor : awg.

Lemma len_app {A} (l1 l2 : list A) : len (l1 ++ l2) = len l1 + len l2.
Proof. unfold len. rewrite length_app. lia. Qed.

Lemma len_cons {A} (x : A) l : len (x :: l) = 1 + len l.
Proof. unfold len. simpl length. lia. Qed.

Lemma len_nil {A} : len (@nil A) = 0.
Proof. reflexivity. Qed.

Lemma len_nonneg {A} (l : list A) : 0 <= len l.
Proof. unfold len. lia. Qed.

Lemma len_replicate {A} n (x : A) : len (replicate n x) = Z.of_nat n.
Proof. unfold len. by rewrite length_replicate. Qed.

(** Zeroed memory. *)
Definition zeros (n : Z) : list Z := replicate (Z.to_nat n) 0.

Lemma len_zeros n : 0 <= n -> len (zeros n) = n.
Proof. intros. unfold zeros. rewrite len_replicate. lia. Qed.
Lemma all_bytes_zeros n : all_bytes (zeros n).
Proof. apply Forall_replicate. unfold is_byte. lia. Qed.

Lemma len_take {A} n (l : list A) : 0 <= n <= len l -> len (take (Z.to_nat n) l) = n.
Proof. unfold len. intros. rewrite length_take. lia. Qed.

Lemma len_drop {A} n (l : list A) : 0 <= n <= len l -> len (drop (Z.to_nat n) l) = len l - n.
Proof. unfold len. intros. rewrite length_drop. lia. Qed.

#[export] Hint Rewrite @len_app @len_cons @len_nil @len_replicate : awg.
#[export] Hint Resolve len_nonneg : awg.

Lemma B_bytes s : all_bytes (B s).
Proof.
  induction s as [|c s IH]; constructor; [|exact IH].
  pose proof (N_ascii_bounded c). unfold is_byte. lia.
Qed.

(** ** Decimal numerals *)

Lemma dec_fuel_length f n : 0 <= n < 10 ^ Z.of_nat (S f) ->
  (1 <= length (dec_fuel f n) <= S f)%nat.
Proof.
  revert n. induction f as [|f IH]; intros n Hn; simpl; [lia|].
  destruct (Z.ltb_spec n 10); simpl; [lia|].
  rewrite length_app. simpl.
  assert (0 <= n / 10 < 10 ^ Z.of_nat (S f)).
  { split; [apply Z.div_pos; lia|]. apply Z.div_lt_upper_bound; [lia|].
    rewrite (Nat2Z.inj_succ (S f)) in Hn. rewrite Z.pow_succ_r in Hn by lia. lia. }
  specialize (IH _ H0). lia.
Qed.

Lemma dec_fuel_more f g n : (f <= g)%nat -> 0 <= n < 10 ^ Z.of_nat (S f) ->
  dec_fuel f n = dec_fuel g n.
Proof.
  revert g n. induction f as [|f IH]; intros g n Hg Hn.
  - change (10 ^ Z.of_nat 1) with 10 in Hn. cbn.
    destruct g; [done|]. cbn [dec_fuel]. rewrite (proj2 (Z.ltb_lt n 10)) by lia.
    rewrite Z.mod_small by lia. done.
  - destruct g as [|g]; [lia|]. cbn [dec_fuel].
    destruct (Z.ltb_spec n 10); [done|]. f_equal. apply IH; [lia|].
    rewrite (Nat2Z.inj_succ (S f)), Z.pow_succ_r in Hn by lia.
    split; [apply Z.div_pos; lia|apply Z.div_lt_upper_bound; lia].
Qed.

Lemma dec_fuel_Forall f n : 0 <= n ->
  Forall (fun c => 48 <= c <= 57) (dec_fuel f n).
Proof.
  revert n. induction f as [|f IH]; intros n Hn; simpl.
  - repeat constructor; pose proof (Z.mod_pos_bound n 10); lia.
  - destruct (Z.ltb_spec n 10); [repeat constructor; lia|].
    apply Forall_app. split; [apply IH, Z.div_pos; lia|].
    repeat constructor; pose proof (Z.mod_pos_bound n 10); lia.
Qed.

Lemma dec_Forall n : 0 <= n -> Forall (fun c => 48 <= c <= 57) (dec n).
Proof. apply dec_fuel_Forall. Qed.

Lemma split_at_char_app c (s t : list Z) :
  Forall (fun x => x <> c) s -> split_at_char c (s ++ c :: t) = (s, Some t).
Proof.
  induction 1 as [|x s Hx Hs IH]; simpl.
  - by rewrite Z.eqb_refl.
  - apply Z.eqb_neq in Hx. by rewrite Hx, IH.
Qed.

Lemma split_at_char_none c (s : list Z) :
  Forall (fun x => x <> c) s -> split_at_char c s = (s, None).
Proof.
  induction 1 as [|x s Hx Hs IH]; simpl; [done|].
  apply Z.eqb_neq in Hx. by rewrite Hx, IH.
Qed.

(** ** The reference converter satisfies the laws *)

Module KstrtoRefFacts.
Import KstrtoRef.

Definition value10 (acc : Z) (s : list Z) : Z :=
  fold_left (fun a c => a * 10 + (c - 48)) s acc.

Lemma value10_dec_fuel f n : 0 <= n < 10 ^ Z.of_nat (S f) ->
  value10 0 (dec_fuel f n) = n.
Proof.
  revert n. induction f as [|f IH]; intros n Hn.
  - change (10 ^ Z.of_nat 1) with 10 in Hn. cbn. rewrite Z.mod_small; lia.
  - cbn [dec_fuel]. destruct (Z.ltb_spec n 10); [cbn; lia|].
    unfold value10 in *. rewrite fold_left_app, IH.
    + cbn. pose proof (Z.div_mod n 10). lia.
    + rewrite (Nat2Z.inj_succ (S f)), Z.pow_succ_r in Hn by lia.
      split; [apply Z.div_pos; lia|apply Z.div_lt_upper_bound; lia].
Qed.

Lemma digits10_value s acc : Forall (fun c => 48 <= c <= 57) s ->
  digits 10 digit10 acc s = Some (value10 acc s).
Proof.
  intros H. revert acc. induction H as [|c s Hc Hs IH]; intros acc; [done|].
  cbn [digits]. unfold digit10 at 1.
  rewrite (proj2 (Z.leb_le 48 c)), (proj2 (Z.leb_le c 57)) by lia. apply IH.
Qed.

Lemma dec_fuel_nonnil f n : dec_fuel f n <> [].
Proof.
  destruct f; cbn [dec_fuel]; [done|]. destruct (n <? 10); [done|].
  intros E. apply app_eq_nil in E as [_ E]. done.
Qed.

Lemma dec_head n : 0 <= n -> exists c s, dec n = c :: s /\ 48 <= c <= 57.
Proof.
  intros Hn. pose proof (dec_Forall n Hn) as HF.
  destruct (dec n) as [|c s] eqn:E.
  - exfalso. by apply (dec_fuel_nonnil 20 n).
  - inversion HF; eauto.
Qed.

Lemma unsign_dec n : 0 <= n -> unsign (dec n) = dec n.
Proof.
  intros Hn. destruct (dec_head n Hn) as (c & s & -> & Hc).
  assert (c <> 43) by lia. unfold unsign.
  destruct c as [|p|p]; try lia. do 6 (destruct p; try lia; try done).
Qed.

Lemma number_dec n : 0 <= n < 2 ^ 64 -> number 10 digit10 (dec n) = Some n.
Proof.
  intros Hn. destruct (dec_head n) as (c & s & E & Hc); [lia|].
  unfold number. rewrite E. unfold digit10 at 1.
  rewrite (proj2 (Z.leb_le 48 c)), (proj2 (Z.leb_le c 57)) by lia. cbn [andb].
  rewrite <- E, digits10_value by (apply dec_Forall; lia).
  unfold dec. rewrite value10_dec_fuel; [done|].
  split; [lia|]. apply Z.lt_le_trans with (2 ^ 64); [lia|]. by vm_compute.
Qed.

Lemma in_range_ok lo hi n : lo <= n < hi -> in_range lo hi (Some n) = Ok n.
Proof.
  intros. unfold in_range. by rewrite (proj2 (Z.leb_le lo n)), (proj2 (Z.ltb_lt n hi)) by lia.
Qed.

Lemma in_range_inv lo hi o n : in_range lo hi o = Ok n -> lo <= n < hi.
Proof. unfold in_range. destruct o; [|done]. bool_cases; intros; simplify_eq. zbool. lia. Qed.

Lemma in_range_err lo hi o e : in_range lo hi o = Err e -> e < 0.
Proof.
  unfold in_range, EINVAL, ERANGE. destruct o; [bool_cases|]; intros; simplify_eq; lia.
Qed.

Lemma kstrtoint10_pos n : 0 <= n < 2 ^ 31 -> kstrtoint10 (dec n) = Ok n.
Proof.
  intros Hn. pose proof (unsign_dec n ltac:(lia)) as Hu.
  pose proof (number_dec n ltac:(lia)) as Hv.
  destruct (dec_head n) as (c & s & E & Hc); [lia|]. unfold kstrtoint10.
  rewrite Hu, Hv, in_range_ok by lia. rewrite E.
  destruct c as [|p|p]; try lia. do 6 (destruct p; try lia; try done).
Qed.

Lemma kstrtou8_16_ok b : is_byte b -> kstrtou8_16 (hex_byte b) = Ok b.
Proof.
  intros Hb.
  pose proof (all_bytes_check
    (fun b => match kstrtou8_16 (hex_byte b) with Ok v => v =? b | Err _ => false end)
    ltac:(by vm_compute) b Hb) as H.
  cbv beta in H. destruct (kstrtou8_16 (hex_byte b)); [|done].
  apply Z.eqb_eq in H. by f_equal.
Qed.

#[export] Instance laws : KstrtoLaws ops.
Proof.
  split.
  - intros n Hn. change (kstrtouint10 (dec n) = Ok n). unfold kstrtouint10. rewrite unsign_dec, number_dec by lia. by apply in_range_ok.
  - intros s n H. by apply in_range_inv in H.
  - intros s e H. by apply in_range_err in H.
  - intros n Hn. change (kstrtoint10 (sdec n) = Ok n). unfold sdec. destruct (Z.ltb_spec n 0); [|apply kstrtoint10_pos; lia].
    unfold kstrtoint10. rewrite number_dec by lia. cbn [fmap option_fmap option_map].
    rewrite in_range_ok by lia. f_equal; lia.
  - intros s n H. change (kstrtoint10 s = Ok n) in H. unfold kstrtoint10 in H. repeat case_match; by apply in_range_inv in H.
  - exact kstrtou8_16_ok.
  - intros s n H. by apply in_range_inv in H.
Qed.

End KstrtoRefFacts.
