(* ===== verification/Words.v ===== *)
(** * Bytes and words

    Little-endian words in memory, fields of a byte string, rotations, and
    the stores of [memcpy] and [memset] into a buffer; shared by the wire formats
    and the cryptographic primitives. *)

From S2P Require Import Prelude.
From stdpp Require Import list.
#[local] Open Scope Z_scope.

(** ** Little-endian words *)

(** The value of a little-endian byte string. *)
Definition le_word (l : list Z) : Z := fold_right (fun b acc => b + 256 * acc) 0 l.

(** [cpu_to_le32] and [cpu_to_le64] in memory. *)
Fixpoint le_bytes (n : nat) (x : Z) : list Z :=
  match n with O => [] | S n' => x mod 256 :: le_bytes n' (x / 256) end.

(** The [n] bytes at offset [off]. *)
Definition field (off n : Z) (b : list Z) : list Z := firstn (Z.to_nat n) (skipn (Z.to_nat off) b).

Definition get_unaligned_le32 (off : Z) (p : list Z) : Z := le_word (field off 4 p).
Definition get_unaligned_le64 (off : Z) (p : list Z) : Z := le_word (field off 8 p).

Lemma le_word_cons a l : le_word (a :: l) = a + 256 * le_word l.
Proof. done. Qed.

Lemma len_le_bytes n x : len (le_bytes n x) = Z.of_nat n.
Proof. revert x. induction n as [|n IH]; intros x; [done|]. cbn [le_bytes]. rewrite len_cons, IH. lia. Qed.

Lemma length_le_bytes n x : length (le_bytes n x) = n.
Proof. pose proof (len_le_bytes n x). unfold len in *. lia. Qed.

Lemma le_bytes_bytes n x : all_bytes (le_bytes n x).
Proof. revert x. induction n as [|n IH]; intros x; cbn [le_bytes]; constructor; [unfold is_byte; lia|done]. Qed.

Lemma le_word_bytes n x : 0 <= x < 256 ^ Z.of_nat n -> le_word (le_bytes n x) = x.
Proof.
  revert x. induction n as [|n IH]; intros x Hx; [cbn in *; lia|]. cbn [le_bytes]. rewrite le_word_cons, IH; [lia|].
  rewrite Nat2Z.inj_succ, Z.pow_succ_r in Hx by lia. split; [apply Z.div_pos; lia|apply Z.div_lt_upper_bound; lia].
Qed.

Lemma le_bytes_word l : all_bytes l -> le_bytes (length l) (le_word l) = l.
Proof.
  induction 1 as [|b l Hb Hl IH]; [done|]. cbn [length le_bytes]. rewrite le_word_cons. unfold is_byte in Hb.
  replace ((b + 256 * le_word l) mod 256) with b by lia. replace ((b + 256 * le_word l) / 256) with (le_word l) by lia. by rewrite IH.
Qed.

Lemma le_word_range l : all_bytes l -> 0 <= le_word l < 256 ^ len l.
Proof.
  induction 1 as [|b l Hb Hl IH]; [done|]. rewrite le_word_cons, len_cons. unfold is_byte in Hb. pose proof (len_nonneg l).
  rewrite Z.pow_add_r by lia. lia.
Qed.

Lemma le_word_app a b : le_word (a ++ b) = le_word a + 256 ^ len a * le_word b.
Proof.
  induction a as [|x a IH]; [change (len (@nil Z)) with 0; change (le_word []) with 0; cbn [app]; lia|]. cbn [app]. rewrite !le_word_cons, IH, len_cons. pose proof (len_nonneg a).
  rewrite Z.pow_add_r by lia. lia.
Qed.

Lemma le_bytes_mod n x : le_bytes n (x mod 256 ^ Z.of_nat n) = le_bytes n x.
Proof.
  revert x. induction n as [|n IH]; intros x; [done|]. cbn [le_bytes]. rewrite Nat2Z.inj_succ, Z.pow_succ_r by lia. rewrite Z.rem_mul_r by lia.
  f_equal; [lia|]. rewrite <- (IH (x / 256)). f_equal. lia.
Qed.

Lemma le_bytes_app n m x y : 0 <= x < 256 ^ Z.of_nat n -> le_bytes n x ++ le_bytes m y = le_bytes (n + m) (x + 256 ^ Z.of_nat n * y).
Proof.
  revert x. induction n as [|n IH]; intros x Hx; [change (256 ^ Z.of_nat 0) with 1 in *; cbn [le_bytes app Nat.add]; f_equal; lia|].
  rewrite Nat2Z.inj_succ, Z.pow_succ_r in * by lia. cbn [le_bytes app Nat.add]. f_equal; [lia|]. rewrite IH by lia. f_equal. lia.
Qed.

Lemma le_word_zeros n : le_word (replicate n 0) = 0.
Proof. induction n as [|n IH]; [done|]. cbn [replicate]. rewrite le_word_cons, IH. done. Qed.

(** Reading a field at its offset. *)
Lemma field_here (a b : list Z) n : len a = n -> field 0 n (a ++ b) = a.
Proof. intros <-. unfold field, len. rewrite Nat2Z.id. apply take_app_length. Qed.

Lemma field_end (a : list Z) n : len a = n -> field 0 n a = a.
Proof. intros <-. unfold field, len. rewrite Nat2Z.id. change (Z.to_nat 0) with O. apply take_ge. done. Qed.

Lemma field_skip off (a b : list Z) n : len a <= off -> field off n (a ++ b) = field (off - len a) n b.
Proof.
  intros H. unfold field. f_equal. rewrite drop_app_ge by (unfold len in H; lia). f_equal. unfold len in *. lia.
Qed.

Lemma field_in_prefix off n (a b : list Z) : 0 <= off -> 0 <= n -> off + n <= len a -> field off n (a ++ b) = field off n a.
Proof. intros. unfold field, len in *. rewrite drop_app_le, take_app_le; [done|rewrite length_drop; lia|lia]. Qed.

Lemma len_field off n l : 0 <= off -> 0 <= n -> off + n <= len l -> len (field off n l) = n.
Proof. intros. unfold field, len in *. rewrite length_take, length_drop. lia. Qed.

Lemma field_bytes off n l : all_bytes l -> all_bytes (field off n l).
Proof. intros. by apply Forall_take, Forall_drop. Qed.

Lemma get_le32_range off p : all_bytes p -> 0 <= get_unaligned_le32 off p < 2 ^ 32.
Proof.
  intros Hp. pose proof (le_word_range _ (field_bytes off 4 p Hp)) as [H0 H1]. split; [done|]. eapply Z.lt_le_trans; [exact H1|].
  change (2 ^ 32) with (256 ^ 4). apply Z.pow_le_mono_r; [lia|]. unfold field, len. rewrite length_take. lia.
Qed.

Lemma get_le64_range off p : all_bytes p -> 0 <= get_unaligned_le64 off p < 2 ^ 64.
Proof.
  intros Hp. pose proof (le_word_range _ (field_bytes off 8 p Hp)) as [H0 H1]. split; [done|]. eapply Z.lt_le_trans; [exact H1|].
  change (2 ^ 64) with (256 ^ 8). apply Z.pow_le_mono_r; [lia|]. unfold field, len. rewrite length_take. lia.
Qed.

Lemma field_prefix off k n (l : list Z) : 0 <= off -> 0 <= k -> off + k <= n -> field off k (field 0 n l) = field off k l.
Proof. intros Ho Hk Hn. unfold field. change (Z.to_nat 0) with 0%nat. rewrite drop_0, skipn_firstn_comm, firstn_firstn. f_equal. lia. Qed.

Lemma le32_prefix off n l : 0 <= off -> off + 4 <= n -> get_unaligned_le32 off (field 0 n l) = get_unaligned_le32 off l.
Proof. intros. unfold get_unaligned_le32. by rewrite field_prefix by lia. Qed.
Lemma le64_prefix off n l : 0 <= off -> off + 8 <= n -> get_unaligned_le64 off (field 0 n l) = get_unaligned_le64 off l.
Proof. intros. unfold get_unaligned_le64. by rewrite field_prefix by lia. Qed.

(** ** Rotations *)

Definition rol32 (x n : Z) : Z := Z.lor (u32 (Z.shiftl x n)) (Z.shiftr x (32 - n)).
Definition ror32 (x n : Z) : Z := Z.lor (Z.shiftr x n) (u32 (Z.shiftl x (32 - n))).
Definition rol64 (x n : Z) : Z := Z.lor (u64 (Z.shiftl x n)) (Z.shiftr x (64 - n)).

Lemma rol32_range x n : 0 <= n <= 32 -> 0 <= x < 2 ^ 32 -> 0 <= rol32 x n < 2 ^ 32.
Proof.
  intros Hn Hx. apply lor_range; [lia|apply u32_range|]. rewrite Z.shiftr_div_pow2 by lia. split; [apply Z.div_pos; lia|].
  apply Z.div_lt_upper_bound; [lia|]. pose proof (Z.pow_pos_nonneg 2 (32 - n)). nia.
Qed.

(** ** Buffers *)

(** [memcpy]/[memset] into the buffer at [off]. *)
Definition buf_set (buf : list Z) (off : Z) (src : list Z) : list Z :=
  firstn (Z.to_nat off) buf ++ src ++ skipn (Z.to_nat off + length src) buf.

Lemma buf_set_length buf off src : 0 <= off -> off + len src <= len buf ->
  length (buf_set buf off src) = length buf.
Proof.
  unfold buf_set, len. intros. rewrite !length_app, length_take, length_drop. lia.
Qed.

Lemma buf_set_take buf off src : 0 <= off -> off + len src <= len buf ->
  firstn (Z.to_nat (off + len src)) (buf_set buf off src) = firstn (Z.to_nat off) buf ++ src.
Proof.
  unfold buf_set, len. intros. rewrite app_assoc, take_app_le by (rewrite length_app, length_take; lia).
  apply firstn_all2. rewrite length_app, length_take. lia.
Qed.

Lemma buf_set_app buf off a b : 0 <= off -> off + len a + len b <= len buf ->
  buf_set (buf_set buf off a) (off + len a) b = buf_set buf off (a ++ b).
Proof.
  intros. pose proof (len_nonneg b). unfold buf_set at 1. rewrite buf_set_take by lia.
  unfold buf_set at 1 2. unfold len in *. rewrite length_app.
  rewrite (app_assoc (firstn _ _) a), drop_app_ge by (rewrite length_app, length_take; lia).
  rewrite length_app, length_take, drop_drop, <- !app_assoc.
  do 4 f_equal. lia.
Qed.

(** Writing behind a prefix, and across the end of one. *)
Lemma buf_set_skip a b off src : len a <= off -> buf_set (a ++ b) off src = a ++ buf_set b (off - len a) src.
Proof.
  intros Ho. pose proof (len_nonneg a). pose proof (len_nonneg src). unfold buf_set, len in *. rewrite firstn_app, skipn_app, take_ge, skipn_all2 by lia. rewrite <- app_assoc. cbn [app].
  do 2 f_equal; [f_equal; lia|]. do 2 f_equal. lia.
Qed.

Lemma buf_set_across a b off x y : 0 <= off -> off + len x <= len a -> y = [] \/ off + len x = len a ->
  buf_set a off x ++ buf_set b 0 y = buf_set (a ++ b) off (x ++ y).
Proof.
  intros Ho Hl Hy. unfold buf_set, len in *. change (Z.to_nat 0) with 0%nat. rewrite take_0, length_app, take_app_le by lia. cbn [app Nat.add]. rewrite <- !app_assoc. do 2 f_equal.
  destruct Hy as [-> |Hy].
  - cbn [length app]. rewrite Nat.add_0_r, drop_0, drop_app_le by lia. done.
  - rewrite (drop_ge a) by lia. rewrite drop_app_ge by lia. cbn [app]. do 2 f_equal. lia.
Qed.

(** Filling the buffer up to its end. *)
Lemma buf_set_full buf off src : 0 <= off -> off + len src = len buf -> buf_set buf off src = firstn (Z.to_nat off) buf ++ src.
Proof. intros. unfold buf_set, len in *. rewrite drop_ge by lia. by rewrite app_nil_r. Qed.

(** [crypto_xor_cpy(dst, a, b, n)] on strings of the same length. *)
Definition xor_bytes (a b : list Z) : list Z := zip_with Z.lxor a b.

Lemma xor_bytes_bytes a b : all_bytes a -> all_bytes b -> all_bytes (xor_bytes a b).
Proof.
  intros Ha. revert b. induction Ha as [|x a Hx Ha IH]; intros b Hb; [constructor|]. destruct Hb as [|y b Hy Hb]; [constructor|].
  cbn. constructor; [by apply is_byte_lxor|by apply IH].
Qed.

Lemma len_xor_bytes a b : len a <= len b -> len (xor_bytes a b) = len a.
Proof. intros H. unfold xor_bytes, len in *. rewrite length_zip_with. lia. Qed.

Lemma xor_bytes_twice a k : len a <= len k -> xor_bytes (xor_bytes a k) k = a.
Proof.
  revert k. induction a as [|x a IH]; intros k Hl; [done|]. destruct k as [|y k]; [rewrite len_cons, len_nil in Hl; pose proof (len_nonneg a); lia|].
  cbn. rewrite Z.lxor_assoc, Z.lxor_nilpotent, Z.lxor_0_r. f_equal. apply IH. rewrite !len_cons in Hl. lia.
Qed.

Lemma xor_bytes_app a b k l : length a = length k -> xor_bytes (a ++ b) (k ++ l) = xor_bytes a k ++ xor_bytes b l.
Proof. intros. unfold xor_bytes. by apply zip_with_app. Qed.

(** Only as much of the key as there is text matters. *)
Lemma xor_bytes_take a k : xor_bytes a (firstn (length a) k) = xor_bytes a k.
Proof. revert k. induction a as [|x a IH]; intros [|y k]; cbn; try done. unfold xor_bytes in *. by rewrite IH. Qed.

Lemma xor_bytes_zeros n k : (length k <= n)%nat -> xor_bytes (replicate n 0) k = k.
Proof. revert k. induction n as [|n IH]; intros [|y k] Hk; cbn in *; try done; [lia|]. unfold xor_bytes. cbn [zip_with replicate]. f_equal. apply IH. lia. Qed.

(** ** Words in parts *)

(** The high bits of a small number. *)
Lemma testbit_small a n m : 0 <= n <= m -> 0 <= a < 2 ^ n -> Z.testbit a m = false.
Proof. intros Hn Ha. rewrite <- (Z.mod_small a (2 ^ n)) by done. apply Z.mod_pow2_bits_high. lia. Qed.

Lemma land_shift_0 a b n : 0 <= n -> 0 <= a < 2 ^ n -> Z.land a (Z.shiftl b n) = 0.
Proof.
  intros Hn Ha. apply Z.bits_inj'. intros m Hm. rewrite Z.land_spec, Z.bits_0. destruct (Z.ltb_spec m n).
  - rewrite Z.shiftl_spec_low, andb_false_r by lia. done.
  - by rewrite (testbit_small a n m) by lia.
Qed.

(** [a | b << n] when [a] has [n] bits. *)
Lemma lor_shift a b n : 0 <= n -> 0 <= a < 2 ^ n -> Z.lor a (Z.shiftl b n) = a + b * 2 ^ n.
Proof. intros Hn Ha. pose proof (Z.add_lor_land a (Z.shiftl b n)) as E. rewrite land_shift_0 in E by done. rewrite Z.shiftl_mul_pow2 in * by done. lia. Qed.

Lemma land_range a b n : 0 <= n -> 0 <= a < 2 ^ n -> 0 <= Z.land a b < 2 ^ n.
Proof.
  intros Hn Ha. assert (Z.land a b = Z.land (Z.land a b) (Z.ones n)) as ->; [|by apply mask_range].
  rewrite (Z.land_comm a b), <- Z.land_assoc. by rewrite mask_small.
Qed.

(** A mask of [n] bits only sees [n] bits. *)
Lemma land_mod a m n : 0 <= n -> 0 <= m < 2 ^ n -> Z.land a m = Z.land (a mod 2 ^ n) m.
Proof. intros Hn Hm. rewrite <- Z.land_ones, <- Z.land_assoc by done. f_equal. rewrite Z.land_comm. by rewrite mask_small. Qed.

(** Masks act on the parts of a word. *)
Lemma land_parts a b c d n : 0 <= n -> 0 <= a < 2 ^ n -> 0 <= c < 2 ^ n -> Z.land (a + b * 2 ^ n) (c + d * 2 ^ n) = Z.land a c + Z.land b d * 2 ^ n.
Proof.
  intros Hn Ha Hc. pose proof (land_range a c n Hn Ha) as Hac. rewrite <- !lor_shift by done. apply Z.bits_inj'. intros m Hm. rewrite Z.land_spec, !Z.lor_spec, Z.land_spec.
  destruct (Z.ltb_spec m n).
  - rewrite !Z.shiftl_spec_low by lia. by rewrite !orb_false_r.
  - rewrite (testbit_small a n m), (testbit_small c n m), !Z.shiftl_spec, Z.land_spec by lia. done.
Qed.

Lemma shr x n : 0 <= n -> Z.shiftr x n = x / 2 ^ n.
Proof. apply Z.shiftr_div_pow2. Qed.

Lemma mod_mod_pow x n m : 0 <= n <= m -> (x mod 2 ^ m) mod 2 ^ n = x mod 2 ^ n.
Proof.
  intros Hn. replace (2 ^ m) with (2 ^ n * 2 ^ (m - n)) by (rewrite <- Z.pow_add_r by lia; f_equal; lia).
  rewrite Z.rem_mul_r by lia. rewrite (Z.mul_comm (2 ^ n) (_ mod _)), Z_mod_plus_full, Zmod_mod. done.
Qed.

(** The bits from [n] on, and those below. *)
Lemma split_at x n m : 0 <= n <= m -> 0 <= x < 2 ^ m ->
  exists q, x / 2 ^ n = q /\ x mod 2 ^ n = x - q * 2 ^ n /\ 0 <= q < 2 ^ (m - n) /\ 0 <= x - q * 2 ^ n < 2 ^ n.
Proof.
  intros Hn Hx. assert (P : 0 < 2 ^ n) by (apply Z.pow_pos_nonneg; lia). exists (x / 2 ^ n). split; [done|]. split; [rewrite Z.mod_eq by lia; lia|]. split.
  - split; [apply Z.div_pos; lia|]. apply Z.div_lt_upper_bound; [done|]. rewrite <- Z.pow_add_r by lia. replace (n + (m - n)) with m by lia. lia.
  - pose proof (Z.mod_pos_bound x (2 ^ n) P). rewrite Z.mod_eq in * by lia. lia.
Qed.

(** A carry of one. *)
Lemma div_once x n : 0 <= n -> 2 ^ n <= x < 2 * 2 ^ n -> x / 2 ^ n = 1 /\ x mod 2 ^ n = x - 2 ^ n.
Proof. intros Hn H. split; [symmetry; apply (Z.div_unique_pos _ _ _ (x - 2 ^ n)); lia|symmetry; apply (Z.mod_unique_pos _ _ 1); lia]. Qed.

(** ** Selection by a mask made from the sign bit *)

Lemma sign_mask w x : 0 < w -> - 2 ^ (w - 1) <= x < 2 ^ (w - 1) -> (x mod 2 ^ w / 2 ^ (w - 1) - 1) mod 2 ^ w = if x <? 0 then 0 else 2 ^ w - 1.
Proof.
  intros Hw Hx. assert (E : 2 ^ w = 2 * 2 ^ (w - 1)) by (rewrite <- Z.pow_succ_r by lia; f_equal; lia). destruct (Z.ltb_spec x 0).
  - replace (x mod 2 ^ w) with (x + 2 ^ w) by (apply (Z.mod_unique_pos _ _ (-1)); lia). replace ((x + 2 ^ w) / 2 ^ (w - 1)) with 1; [done|].
    apply (Z.div_unique_pos _ _ _ (x + 2 ^ (w - 1))); lia.
  - rewrite (Z.mod_small x), Z.div_small by lia. symmetry. apply (Z.mod_unique_pos _ _ (-1)); lia.
Qed.

Lemma land_all w x : 0 <= w -> 0 <= x < 2 ^ w -> Z.land x (2 ^ w - 1) = x.
Proof. intros Hw Hx. replace (2 ^ w - 1) with (Z.ones w) by (rewrite Z.ones_equiv; lia). rewrite Z.land_ones by done. by apply Z.mod_small. Qed.

(** [(h & ~c) | (g & c)]. *)
Lemma choose_mask w (b : bool) h g : 0 <= w -> 0 <= h < 2 ^ w -> 0 <= g < 2 ^ w ->
  Z.lor (Z.land h (Z.lnot (if b then 0 else 2 ^ w - 1) mod 2 ^ w)) (Z.land g (if b then 0 else 2 ^ w - 1)) = if b then h else g.
Proof.
  intros Hw Hh Hg. assert (P : 0 < 2 ^ w) by lia. destruct b.
  - replace (Z.lnot 0 mod 2 ^ w) with (2 ^ w - 1) by (apply (Z.mod_unique_pos _ _ (-1)); unfold Z.lnot; lia). rewrite Z.land_0_r, Z.lor_0_r. by apply land_all.
  - replace (Z.lnot (2 ^ w - 1) mod 2 ^ w) with 0 by (apply (Z.mod_unique_pos _ _ (-1)); unfold Z.lnot; lia). rewrite Z.land_0_r, Z.lor_0_l. by apply land_all.
Qed.

(** ** A word inside a longer number *)

Lemma word_at x a w b c : 0 <= a -> 0 <= b -> 0 <= c -> b + c <= w -> (x / 2 ^ a) mod 2 ^ w / 2 ^ b mod 2 ^ c = x / 2 ^ (a + b) mod 2 ^ c.
Proof.
  intros Ha Hb Hc Hw. rewrite <- !Z.shiftr_div_pow2, <- !Z.land_ones by lia. apply Z.bits_inj'. intros i Hi.
  rewrite !Z.land_spec, !Z.shiftr_spec, Z.land_spec, Z.shiftr_spec, !Z.testbit_ones by lia. replace (i + b + a) with (i + (a + b)) by lia.
  destruct (Z.ltb_spec i c), (Z.ltb_spec (i + b) w), (Z.leb_spec 0 i), (Z.leb_spec 0 (i + b)); try lia; by rewrite ?andb_false_r, ?andb_true_r.
Qed.

Lemma next_limb x a n : 0 <= a -> 0 <= n -> x / 2 ^ a = x / 2 ^ a mod 2 ^ n + x / 2 ^ (a + n) * 2 ^ n.
Proof. intros Ha Hn. rewrite Z.pow_add_r, <- Z.div_div by lia. pose proof (Z.div_mod (x / 2 ^ a) (2 ^ n)). lia. Qed.

Lemma le_word_slice l off n : all_bytes l -> (off + n <= length l)%nat ->
  le_word (firstn n (skipn off l)) = le_word l / 256 ^ Z.of_nat off mod 256 ^ Z.of_nat n.
Proof.
  intros Hb Hl. pose proof (le_word_app (firstn off l) (skipn off l)) as E. rewrite take_drop in E.
  pose proof (le_word_app (firstn n (skipn off l)) (skipn n (skipn off l))) as E'. rewrite take_drop in E'.
  pose proof (le_word_range (firstn off l)) as R. pose proof (le_word_range (firstn n (skipn off l))) as R'.
  unfold len in *. rewrite !length_take, ?length_drop in *. rewrite !Nat.min_l in * by lia.
  apply (Z.mod_unique_pos _ _ (le_word (skipn n (skipn off l)))); [apply R'; apply Forall_take; by apply Forall_drop|].
  symmetry. apply (Z.div_unique_pos _ _ _ (le_word (firstn off l))); [by apply R, Forall_take|]. rewrite E, E'. lia.
Qed.

Lemma mul_range a b x y : 0 <= a < x -> 0 <= b < y -> 0 <= a * b < x * y.
Proof. intros. nia. Qed.

(** Introduces the value that a program binds next, with its equation: the goal
    is a predicate on the rest of the program. *)
Ltac step_let :=
  lazymatch goal with
  | |- ?Q (let x := ?v in @?b x) =>
      let y := fresh x in let E := fresh "E" in let H := fresh "H" in
      cut (forall y, y = v -> Q (b y)); [intros H; exact (H v eq_refl) | intros y E; cbv beta]
  end.
