(* ===== verification/Messages.v ===== *)
(** * Message formats and protocol constants ([src/messages.h])

    Sizes, limits and the byte layout of the four message types.  The
    structures are records whose [le32]/[le64] fields hold the host value;
    their bytes are the subject of [Wire]. *)

From S2P Require Import Prelude.

(** [enum noise_lengths] *)
Definition NOISE_PUBLIC_KEY_LEN : Z := 32.
Definition NOISE_SYMMETRIC_KEY_LEN : Z := 32.
Definition NOISE_TIMESTAMP_LEN : Z := 8 + 4.
Definition NOISE_AUTHTAG_LEN : Z := 16.
Definition NOISE_HASH_LEN : Z := 32.

Definition noise_encrypted_len (plain_len : Z) : Z := plain_len + NOISE_AUTHTAG_LEN.

(** [enum cookie_values] *)
Definition COOKIE_SECRET_MAX_AGE : Z := 2 * 60.
Definition COOKIE_SECRET_LATENCY : Z := 5.
Definition COOKIE_NONCE_LEN : Z := 24.
Definition COOKIE_LEN : Z := 16.

(** [enum counter_values], on a 64-bit kernel *)
Definition BITS_PER_LONG : Z := 64.
Definition COUNTER_BITS_TOTAL : Z := 8192.
Definition COUNTER_REDUNDANT_BITS : Z := BITS_PER_LONG.
Definition COUNTER_WINDOW_SIZE : Z := COUNTER_BITS_TOTAL - COUNTER_REDUNDANT_BITS.

(** [enum limits] *)
Definition REKEY_AFTER_MESSAGES : Z := 2 ^ 60.
Definition REJECT_AFTER_MESSAGES : Z := U64_MAX - COUNTER_WINDOW_SIZE - 1.
Definition REKEY_TIMEOUT : Z := 5.
Definition REKEY_AFTER_TIME : Z := 120.
Definition REJECT_AFTER_TIME : Z := 180.
Definition INITIATIONS_PER_SECOND : Z := 50.
Definition MAX_PEERS_PER_DEVICE : Z := 2 ^ 20.
Definition KEEPALIVE_TIMEOUT : Z := 10.
Definition MAX_TIMER_HANDSHAKES : Z := 90 / REKEY_TIMEOUT.
Definition MAX_QUEUED_INCOMING_HANDSHAKES : Z := 4096.
Definition MAX_STAGED_PACKETS : Z := 128.
Definition MAX_QUEUED_PACKETS : Z := 1024.

(** [enum message_type] and [enum message_index] *)
Definition MESSAGE_HANDSHAKE_INITIATION : Z := 1.
Definition MESSAGE_HANDSHAKE_RESPONSE : Z := 2.
Definition MESSAGE_HANDSHAKE_COOKIE : Z := 3.
Definition MESSAGE_DATA : Z := 4.

Definition MSGIDX_HANDSHAKE_INIT : nat := 0.
Definition MSGIDX_HANDSHAKE_RESPONSE : nat := 1.
Definition MSGIDX_HANDSHAKE_COOKIE : nat := 2.
Definition MSGIDX_TRANSPORT : nat := 3.

(** ** Structures *)

Record message_macs := { mac1 : list Z; mac2 : list Z }.

Record message_handshake_initiation := {
  mi_type : Z;
  mi_sender_index : Z;
  mi_unencrypted_ephemeral : list Z;
  mi_encrypted_static : list Z;
  mi_encrypted_timestamp : list Z;
  mi_macs : message_macs
}.

Record message_handshake_response := {
  mr_type : Z;
  mr_sender_index : Z;
  mr_receiver_index : Z;
  mr_unencrypted_ephemeral : list Z;
  mr_encrypted_nothing : list Z;
  mr_macs : message_macs
}.

Record message_handshake_cookie := {
  mc_type : Z;
  mc_receiver_index : Z;
  mc_nonce : list Z;
  mc_encrypted_cookie : list Z
}.

Record message_data := {
  md_type : Z;
  md_key_idx : Z;
  md_counter : Z;
  md_encrypted_data : list Z
}.

(** [enum message_size]: the [sizeof] of the structures, from their fields. *)
Definition sizeof_header : Z := 4.
Definition sizeof_macs : Z := COOKIE_LEN + COOKIE_LEN.
Definition MESSAGE_INITIATION_SIZE : Z :=
  sizeof_header + 4 + NOISE_PUBLIC_KEY_LEN + noise_encrypted_len NOISE_PUBLIC_KEY_LEN +
  noise_encrypted_len NOISE_TIMESTAMP_LEN + sizeof_macs.
Definition MESSAGE_RESPONSE_SIZE : Z :=
  sizeof_header + 4 + 4 + NOISE_PUBLIC_KEY_LEN + noise_encrypted_len 0 + sizeof_macs.
Definition MESSAGE_COOKIE_REPLY_SIZE : Z :=
  sizeof_header + 4 + COOKIE_NONCE_LEN + noise_encrypted_len COOKIE_LEN.
Definition MESSAGE_TRANSPORT_SIZE : Z := sizeof_header + 4 + 8.
Definition MESSAGE_MAX_SIZE : Z := 65535.

Definition message_data_len (plain_len : Z) : Z :=
  noise_encrypted_len plain_len + MESSAGE_TRANSPORT_SIZE.

(** [enum message_alignments] *)
Definition MESSAGE_PADDING_MULTIPLE : Z := 16.
Definition MESSAGE_MINIMUM_LENGTH : Z := message_data_len 0.

(** [wg_birthdate_has_expired] of [src/timers.h], at the coarse boot time [now]:
    both sides are compared as [s64]. *)
Definition wg_birthdate_has_expired (birthday_nanoseconds expiration_seconds now : Z) : bool :=
  s64 (u64 (birthday_nanoseconds + expiration_seconds * NSEC_PER_SEC)) <=? s64 now.

Lemma birthdate_expired b e now : 0 <= b -> 0 <= e -> b + e * NSEC_PER_SEC < 2 ^ 63 -> 0 <= now < 2 ^ 63 ->
  wg_birthdate_has_expired b e now = (b + e * NSEC_PER_SEC <=? now).
Proof.
  intros Hb He Hs Hn. unfold wg_birthdate_has_expired, NSEC_PER_SEC in *. rewrite u64_small by lia. unfold s64.
  rewrite !Z.mod_small by lia. f_equal; lia.
Qed.

Example message_sizes :
  (MESSAGE_INITIATION_SIZE, MESSAGE_RESPONSE_SIZE, MESSAGE_COOKIE_REPLY_SIZE,
   MESSAGE_TRANSPORT_SIZE, MESSAGE_MINIMUM_LENGTH) = (148, 92, 64, 16, 32).
Proof. reflexivity. Qed.
