(* ===== verification/MagicHeader.v ===== *)
(** * Magic headers ([src/magic_header.c])

    AmneziaWG replaces WireGuard's fixed message types by ranges of 32-bit
    values.  This file models the range, its textual form and the two
    operations of the data path: choosing a header for an outgoing message
    and testing the header of an incoming one. *)

From S2P Require Import Prelude.

(** [struct magic_header] *)
Record magic_header := MagicHdr { mh_start : Z; mh_end : Z }.

#[global] Instance magic_header_eq_dec : EqDecision magic_header.
Proof. solve_decision. Defined.

Definition DASH : Z := 45.

(** [mh_parse]: the two numbers are stored into [*mh] as they are read, and
    the order of the bounds is tested last; the result is the error number
    and the structure as the call leaves it. *)
Definition mh_parse `{Kstrto} (mh : magic_header) (desc : option (list Z)) : Z * magic_header :=
  let '(val, desc) := strsep DASH desc in
  match val with
  | None => (- EINVAL, mh)
  | Some val =>
      match kstrtouint10 val with
      | Err err => (err, mh)
      | Ok s =>
          let mh := MagicHdr s (mh_end mh) in
          let check mh := if mh_start mh >? mh_end mh then (- EINVAL, mh) else (0, mh) in
          match desc with
          | Some desc =>
              match kstrtouint10 desc with
              | Err err => (err, mh)
              | Ok e => check (MagicHdr (mh_start mh) e)
              end
          | None => check (MagicHdr (mh_start mh) (mh_start mh))
          end
      end
  end.

(** [mh_genspec]: the bytes left in [buf] (the return value is their number). *)
Definition mh_genspec (mh : magic_header) (buflen : Z) : list Z :=
  if mh_start mh =? mh_end mh then scnprintf buflen (dec (mh_start mh))
  else scnprintf buflen (dec (mh_start mh) ++ DASH :: dec (mh_end mh)).

(** [mh_validate]; [received] is the value after [le32_to_cpu]. *)
Definition mh_validate (received : Z) (mh : magic_header) : bool :=
  (received >=? mh_start mh) && (received <=? mh_end mh).

(** [mh_genheader]: [get_random_u32_inclusive] is the kernel's random source,
    an argument of the model. *)
Definition mh_genheader (rnd_inclusive : Z -> Z -> Z) (mh : magic_header) : Z :=
  rnd_inclusive (mh_start mh) (mh_end mh).

(** ** Properties *)

(** A header range as the device may hold it: two [u32] bounds in order. *)
Definition mh_wf (mh : magic_header) : Prop :=
  0 <= mh_start mh <= mh_end mh /\ mh_end mh < 2 ^ 32.

(** What the kernel documents of its bounded random generator. *)
Definition rnd_inclusive_ok (rnd : Z -> Z -> Z) : Prop :=
  forall lo hi, lo <= hi -> lo <= rnd lo hi <= hi.

Lemma mh_validate_spec r mh : mh_validate r mh = true <-> mh_start mh <= r <= mh_end mh.
Proof.
  unfold mh_validate. rewrite Z.geb_leb, andb_true_iff, !Z.leb_le. lia.
Qed.

Lemma dec_no_dash n : 0 <= n -> Forall (fun c => c <> DASH) (dec n).
Proof.
  intros Hn. refine (Forall_impl _ _ (dec_Forall n Hn)).
  intros c Hc. unfold DASH. simpl in Hc. lia.
Qed.

Lemma dec_u32_length n : 0 <= n < 2 ^ 32 -> (length (dec n) <= 10)%nat.
Proof.
  intros Hn. unfold dec. rewrite <- (dec_fuel_more 9 20) by lia.
  pose proof (dec_fuel_length 9 n). lia.
Qed.

Lemma scnprintf_fits size s : len s < size -> scnprintf size s = s.
Proof. unfold scnprintf, len. intros. apply firstn_all2. lia. Qed.

Lemma mh_genspec_32 mh : mh_wf mh -> mh_genspec mh 32 =
  if mh_start mh =? mh_end mh then dec (mh_start mh)
  else dec (mh_start mh) ++ DASH :: dec (mh_end mh).
Proof.
  intros [Hs He]. unfold mh_genspec.
  pose proof (dec_u32_length (mh_start mh) ltac:(lia)).
  pose proof (dec_u32_length (mh_end mh) ltac:(lia)).
  destruct (_ =? _); apply scnprintf_fits; autorewrite with awg; unfold len; lia.
Qed.

Section MagicHeaderProofs.
Context `{KL : KstrtoLaws}.

(** The header text the device reports is accepted back and restores the
    same range, whatever the structure held before: [mh_parse] inverts
    [mh_genspec] (at the 32-byte buffer of [wg_get_device_dump]). *)
Theorem mh_parse_genspec mh0 mh : mh_wf mh ->
  mh_parse mh0 (Some (mh_genspec mh 32)) = (0, mh).
Proof.
  intros Hwf. rewrite mh_genspec_32 by done. destruct Hwf as [Hs He], mh as [s e]; cbn in *.
  unfold mh_parse, strsep. destruct (Z.eqb_spec s e) as [->|].
  - rewrite split_at_char_none by (apply dec_no_dash; lia).
    cbn. rewrite kstrtouint10_dec by lia. cbn.
    by rewrite Z.gtb_ltb, Z.ltb_irrefl.
  - rewrite split_at_char_app by (apply dec_no_dash; lia).
    cbn. rewrite !kstrtouint10_dec by lia. cbn.
    rewrite Z.gtb_ltb, (proj2 (Z.ltb_ge e s)) by lia. done.
Qed.

(** A range that [mh_parse] accepts is well formed, and a rejected text is
    reported with a negative error number. *)
Theorem mh_parse_sound mh0 desc :
  let '(err, mh) := mh_parse mh0 desc in (err = 0 /\ mh_wf mh) \/ err < 0.
Proof.
  unfold mh_parse. destruct (strsep DASH desc) as [[v|] d]; [|right; by vm_compute].
  destruct (kstrtouint10 v) as [s|e] eqn:Es; [|right; by apply kstrtouint10_err in Es].
  apply kstrtouint10_range in Es. cbn. destruct d as [d|].
  - destruct (kstrtouint10 d) as [x|e] eqn:Ed; cbn; [|right; by apply kstrtouint10_err in Ed].
    apply kstrtouint10_range in Ed.
    destruct (s >? x) eqn:E; zbool; [right; by vm_compute|left].
    unfold mh_wf; cbn; lia.
  - rewrite Z.gtb_ltb, Z.ltb_irrefl. left. unfold mh_wf; cbn; lia.
Qed.

End MagicHeaderProofs.

(** A header generated from a well-formed range always passes the
    receiver's test for that range, and is a 32-bit value. *)
Theorem mh_genheader_validates rnd mh : rnd_inclusive_ok rnd -> mh_wf mh ->
  mh_validate (mh_genheader rnd mh) mh = true /\ 0 <= mh_genheader rnd mh < 2 ^ 32.
Proof.
  intros Hr [Hs He]. unfold mh_genheader. specialize (Hr (mh_start mh) (mh_end mh)).
  rewrite mh_validate_spec. lia.
Qed.

(** ** Witnesses *)

Definition mh_quic_like : magic_header := MagicHdr 1234567 7654321.

Lemma mh_quic_like_wf : mh_wf mh_quic_like.
Proof. unfold mh_wf; cbn; lia. Qed.

Lemma mh_parse_genspec_witness :
  @mh_parse KstrtoRef.ops (MagicHdr 1 1) (Some (mh_genspec mh_quic_like 32)) = (0, mh_quic_like).
Proof. apply (mh_parse_genspec (KL := KstrtoRefFacts.laws)). exact mh_quic_like_wf. Defined.

Lemma mh_parse_sound_witness :
  let '(err, mh) := @mh_parse KstrtoRef.ops (MagicHdr 1 1) (Some (B "5-3")) in
  (err = 0 /\ mh_wf mh) \/ err < 0.
Proof. apply (mh_parse_sound (KL := KstrtoRefFacts.laws)). Defined.

Lemma mh_genheader_validates_witness :
  mh_validate (mh_genheader (fun lo hi => hi) mh_quic_like) mh_quic_like = true /\
  0 <= mh_genheader (fun lo hi => hi) mh_quic_like < 2 ^ 32.
Proof.
  apply mh_genheader_validates; [|exact mh_quic_like_wf].
  unfold rnd_inclusive_ok; lia.
Defined.
