(* ===== verification/Buffer.v ===== *)
(** * Byte buffers written through pointers

    The code that formats packets stores bytes through [u8 *] pointers.  A
    writer is a function on the buffer that fails ([None]) on a store outside
    it, so that "the writer succeeds" is memory safety.  [fills off l f] says
    that [f] stores exactly the bytes [l] at [off]: it neither depends on what
    was there nor touches anything else. *)

From S2P Require Import Prelude.

Definition writer : Type := list Z -> option (list Z).

Definition wskip : writer := fun m => Some m.

Definition wseq (f g : writer) : writer := fun m => m' ← f m; g m'.

Notation "f ';;' g" := (wseq f g) (at level 100, g at level 200, right associativity) : awg_scope.

(** [buf[i] = (u8)v] *)
Definition st (i v : Z) : writer := fun m =>
  if (0 <=? i) && (i <? len m) then Some (<[Z.to_nat i := u8 v]> m) else None.

(** [memcpy(buf + off, src, n)] *)
Fixpoint put (off : Z) (src : list Z) : writer :=
  match src with
  | [] => wskip
  | b :: src' => st off b ;; put (off + 1) src'
  end.

(** [for (i = from; i < to; i++) buf[i] = v] *)
Definition fill_range (from to v : Z) : writer :=
  put from (replicate (Z.to_nat (to - from)) v).

(** [buf[i]] as an rvalue. *)
Definition ld (m : list Z) (i : Z) : option Z :=
  if 0 <=? i then m !! Z.to_nat i else None.

(** ** Exact effect of a writer *)

Definition fills (off : Z) (l : list Z) (f : writer) : Prop :=
  forall pre mid post, len pre = off -> length mid = length l ->
    f (pre ++ mid ++ post) = Some (pre ++ l ++ post).

Lemma fills_skip off : fills off [] wskip.
Proof. intros pre mid post Hp Hm. by destruct mid. Qed.

Lemma fills_st i v : fills i [u8 v] (st i v).
Proof.
  intros pre [|x [|]] post Hp Hm; try done. unfold st, len in *.
  rewrite !length_app. cbn [length app].
  rewrite (proj2 (Z.leb_le 0 i)), (proj2 (Z.ltb_lt i _)) by lia. cbn.
  subst i. rewrite Nat2Z.id, insert_app_r_alt, Nat.sub_diag by lia. done.
Qed.

Lemma fills_seq off l1 l2 f g :
  fills off l1 f -> fills (off + len l1) l2 g -> fills off (l1 ++ l2) (f ;; g).
Proof.
  intros Hf Hg pre mid post Hp Hm. rewrite length_app in Hm. unfold wseq.
  rewrite <- (take_drop (length l1) mid), <- !app_assoc.
  rewrite (Hf pre) by (rewrite ?length_take; lia). cbn.
  rewrite app_assoc, (Hg (pre ++ l1)).
  - by rewrite <- !app_assoc.
  - rewrite len_app. lia.
  - rewrite length_drop. lia.
Qed.

(** The same with the offsets and the bytes up to equality. *)
Lemma fills_then off l1 off2 l2 l f g :
  fills off l1 f -> fills off2 l2 g -> off2 = off + len l1 -> l = l1 ++ l2 -> fills off l (f ;; g).
Proof. intros ? ? -> ->. by apply fills_seq. Qed.

(** The later part of the region first. *)
Lemma fills_seq_rev off l1 l2 f g :
  fills (off + len l1) l2 f -> fills off l1 g -> fills off (l1 ++ l2) (f ;; g).
Proof.
  intros Hf Hg pre mid post Hp Hm. rewrite length_app in Hm. unfold wseq.
  rewrite <- (take_drop (length l1) mid), <- !app_assoc.
  rewrite (app_assoc pre), (Hf (pre ++ _)).
  - cbn. rewrite <- app_assoc. apply Hg; [done|]. rewrite length_take. lia.
  - rewrite len_app. unfold len in *. rewrite length_take. lia.
  - rewrite length_drop. lia.
Qed.

(** A later store into the middle of a region already written. *)
Lemma fills_over off l1 l2 l2' l3 f g :
  fills off (l1 ++ l2 ++ l3) f -> fills (off + len l1) l2' g -> length l2 = length l2' ->
  fills off (l1 ++ l2' ++ l3) (f ;; g).
Proof.
  intros Hf Hg Hl pre mid post Hp Hm. unfold wseq.
  rewrite Hf by (rewrite ?length_app in *; lia). cbn.
  rewrite <- !app_assoc, app_assoc, Hg by (rewrite ?len_app; lia).
  by rewrite <- !app_assoc.
Qed.

Lemma fills_put off src : fills off (map u8 src) (put off src).
Proof.
  revert off. induction src as [|b src IH]; intros off; cbn [put map]; [apply fills_skip|].
  apply (fills_seq off [u8 b]); [apply fills_st|apply IH].
Qed.

Lemma map_u8_id l : all_bytes l -> map u8 l = l.
Proof.
  induction 1 as [|b l Hb Hl IH]; cbn; [done|]. rewrite IH, u8_small by apply Hb. done.
Qed.

Lemma fills_put_bytes off src : all_bytes src -> fills off src (put off src).
Proof. intros H. rewrite <- (map_u8_id src H) at 1. apply fills_put. Qed.

Lemma map_u8_bytes l : all_bytes (map u8 l).
Proof. apply Forall_map, Forall_true. intros x. apply is_byte_u8. Qed.

Lemma fills_ext off l f g : (forall m, f m = g m) -> fills off l f -> fills off l g.
Proof. intros E H pre mid post Hp Hm. rewrite <- E. by apply H. Qed.

Lemma wseq_assoc f g h m : ((f ;; g) ;; h) m = (f ;; g ;; h) m.
Proof. unfold wseq. by destruct (f m). Qed.

Lemma wskip_l f m : (wskip ;; f) m = f m.
Proof. done. Qed.

(** The whole effect on a buffer that starts with the region. *)
Lemma fills_0 l f m : fills 0 l f -> (length l <= length m)%nat ->
  f m = Some (l ++ drop (length l) m).
Proof.
  intros Hf Hm. rewrite <- (take_drop (length l) m) at 1.
  apply (Hf [] _ _ eq_refl). rewrite length_take. lia.
Qed.

#[export] Hint Resolve fills_skip fills_st fills_put map_u8_bytes : awg.

(** ** Effect of a writer, up to the bytes written

    [fillsn off n f]: [f] overwrites exactly the [n] bytes at [off], with bytes
    that do not depend on the buffer. *)

Definition fillsn (off n : Z) (f : writer) : Prop :=
  exists l, len l = n /\ all_bytes l /\ fills off l f.

Lemma fillsn_ext off n f g : (forall m, f m = g m) -> fillsn off n f -> fillsn off n g.
Proof. intros E (l & Hl & Hb & H). exists l. eauto using fills_ext. Qed.

Lemma fillsn_skip off : fillsn off 0 wskip.
Proof. exists []. split; [done|]. split; [done|apply fills_skip]. Qed.

Lemma fillsn_st i v : fillsn i 1 (st i v).
Proof.
  exists [u8 v]. split; [done|]. split; [|apply fills_st].
  repeat constructor; apply is_byte_u8.
Qed.

Lemma fillsn_put off src : fillsn off (len src) (put off src).
Proof.
  exists (map u8 src). split; [unfold len; by rewrite length_map|].
  split; [apply map_u8_bytes|apply fills_put].
Qed.

Lemma fillsn_range from to v : from <= to -> fillsn from (to - from) (fill_range from to v).
Proof.
  intros. unfold fill_range. replace (to - from) with (len (replicate (Z.to_nat (to - from)) v)) at 1.
  - apply fillsn_put.
  - unfold len. rewrite length_replicate. lia.
Qed.

Lemma fillsn_range_empty off from to v : to <= from -> fillsn off 0 (fill_range from to v).
Proof.
  intros. unfold fill_range. replace (Z.to_nat (to - from)) with O by lia. apply fillsn_skip.
Qed.

Lemma fillsn_seq off n1 off2 n2 n f g :
  fillsn off n1 f -> fillsn off2 n2 g -> off2 = off + n1 -> n = n1 + n2 -> fillsn off n (f ;; g).
Proof.
  intros (l1 & <- & B1 & F1) (l2 & <- & B2 & F2) -> ->. exists (l1 ++ l2).
  split; [apply len_app|]. split; [by apply Forall_app|by apply fills_seq].
Qed.

Lemma fillsn_seq_rev off n1 off2 n2 n f g :
  fillsn off2 n2 f -> fillsn off n1 g -> off2 = off + n1 -> n = n1 + n2 -> fillsn off n (f ;; g).
Proof.
  intros (l2 & <- & B2 & F2) (l1 & <- & B1 & F1) -> ->. exists (l1 ++ l2).
  split; [apply len_app|]. split; [by apply Forall_app|by apply fills_seq_rev].
Qed.

Lemma fillsn_over off n off2 n2 f g :
  fillsn off n f -> fillsn off2 n2 g -> off <= off2 -> off2 + n2 <= off + n -> fillsn off n (f ;; g).
Proof.
  intros (l & <- & HB & F) (l2 & <- & HB2 & F2) Ho Hn.
  pose proof (len_nonneg l2). unfold len in *.
  set (a := Z.to_nat (off2 - off)). set (b := (a + length l2)%nat).
  exists (take a l ++ l2 ++ drop b l). split; [|split].
  - unfold len. rewrite !length_app, length_take, length_drop. lia.
  - apply Forall_app; split; [by apply Forall_take|]. apply Forall_app; split; [done|by apply Forall_drop].
  - apply (fills_over off (take a l) (take (length l2) (drop a l)) l2 (drop b l)).
    + unfold b. rewrite <- drop_drop, take_drop, take_drop. done.
    + replace (off + _) with off2; [done|]. unfold len. rewrite length_take. lia.
    + rewrite length_take, length_drop. lia.
Qed.

(** A writer that fills a whole prefix: it succeeds on every buffer that is
    long enough, and its filler is the same for all of them. *)
Lemma fillsn_prefix n f : fillsn 0 n f ->
  exists l, len l = n /\ all_bytes l /\
    forall m, n <= len m -> f m = Some (l ++ drop (Z.to_nat n) m).
Proof.
  intros (l & <- & HB & F). exists l. split; [done|]. split; [done|].
  intros m Hm. unfold len in *. rewrite Nat2Z.id. apply fills_0; [done|lia].
Qed.

(** Proves [fillsn] goals of straight-line code. *)
Ltac fillsn_auto :=
  repeat match goal with
  | |- fillsn _ _ (st _ _) => eapply fillsn_st
  | |- fillsn _ _ (put _ _) => eapply fillsn_put
  | |- fillsn _ _ wskip => eapply fillsn_skip
  | |- fillsn _ _ (fill_range _ _ _) => eapply fillsn_range
  | |- fillsn _ _ (_ ;; _) => eapply fillsn_seq
  end.

(** The side conditions of [fillsn_auto]: lengths still open are computed. *)
Ltac fillsn_lia := first [reflexivity | lia | autorewrite with awg; lia].
