(* ===== verification/Replay.v ===== *)
(** * The replay window ([counter_validate] of [src/receive.c])

    The RFC 6479 bitmap: a ring of 128 words of 64 bits indexed by the packet
    counter, plus the greatest counter seen.  The bitmap is shown to implement
    a set of accepted counters with a sliding window. *)

From S2P Require Import Prelude Messages.

(** ** Model *)

Definition BACKTRACK_WORDS : Z := COUNTER_BITS_TOTAL / BITS_PER_LONG.

(** [struct noise_replay_counter] *)
Record noise_replay_counter := ReplayCounter {
  rc_counter : Z;
  rc_backtrack : list Z
}.

(** [for (i = 1; i <= top; ++i) backtrack[(i + index_current) & 127] = 0] *)
Fixpoint clear_words (n : nat) (i index_current : Z) (bt : list Z) : list Z :=
  match n with
  | O => bt
  | S n' =>
      clear_words n' (i + 1) index_current
        (<[Z.to_nat (Z.land (i + index_current) (BACKTRACK_WORDS - 1)) := 0]> bt)
  end.

(** [test_and_set_bit(nr, &backtrack[index])] *)
Definition test_and_set_bit (nr : Z) (index : Z) (bt : list Z) : bool * list Z :=
  let w := default 0 (bt !! Z.to_nat index) in
  (Z.testbit w nr, <[Z.to_nat index := Z.lor w (Z.shiftl 1 nr)]> bt).

Definition counter_validate (counter : noise_replay_counter) (their_counter : Z)
  : bool * noise_replay_counter :=
  if (rc_counter counter >=? u64 (REJECT_AFTER_MESSAGES + 1))
     || (their_counter >=? REJECT_AFTER_MESSAGES)
  then (false, counter)
  else
    let their_counter := u64 (their_counter + 1) in
    if u64 (COUNTER_WINDOW_SIZE + their_counter) <? rc_counter counter
    then (false, counter)
    else
      let index := Z.shiftr their_counter 6 in
      let counter :=
        if their_counter >? rc_counter counter then
          let index_current := Z.shiftr (rc_counter counter) 6 in
          let top := Z.min (u64 (index - index_current)) BACKTRACK_WORDS in
          ReplayCounter their_counter
            (clear_words (Z.to_nat top) 1 index_current (rc_backtrack counter))
        else counter in
      let index := Z.land index (BACKTRACK_WORDS - 1) in
      let '(old, bt) :=
        test_and_set_bit (Z.land their_counter (BITS_PER_LONG - 1)) index (rc_backtrack counter) in
      (negb old, ReplayCounter (rc_counter counter) bt).

(** The zeroed counter of a fresh keypair. *)
Definition replay_init : noise_replay_counter :=
  ReplayCounter 0 (replicate (Z.to_nat BACKTRACK_WORDS) 0).

Fixpoint validate_all (c : noise_replay_counter) (l : list Z) : list bool :=
  match l with
  | [] => []
  | n :: l' => let '(b, c') := counter_validate c n in b :: validate_all c' l'
  end.

(** ** Specification

    The history is the list of counters accepted so far.  A counter is
    accepted when it is below the rejection limit, not older than the window
    allows, and new. *)

Fixpoint next_expected (hist : list Z) : Z :=
  match hist with
  | [] => 0
  | n :: hist' => Z.max (n + 1) (next_expected hist')
  end.

Definition window_accepts (hist : list Z) (n : Z) : bool :=
  (n <? REJECT_AFTER_MESSAGES)
  && (next_expected hist <=? n + 1 + COUNTER_WINDOW_SIZE)
  && bool_decide (n ∉ hist).

Fixpoint spec_all (hist : list Z) (l : list Z) : list bool :=
  match l with
  | [] => []
  | n :: l' =>
      let b := window_accepts hist n in
      b :: spec_all (if b then n :: hist else hist) l'
  end.

(** ** The bitmap implements the window *)

(** The bit of value [v] in the ring. *)
Definition ring_bit (bt : list Z) (v : Z) : bool :=
  Z.testbit (default 0 (bt !! Z.to_nat (v / 64 mod 128))) (v mod 64).

(** Values whose block is still represented in the ring. *)
Definition in_ring (m v : Z) : Prop := m / 64 - 128 < v / 64 <= m / 64.

(** Simulation relation between a history and a counter. *)
Record replay_rel (hist : list Z) (c : noise_replay_counter) : Prop := {
  rr_len : length (rc_backtrack c) = 128%nat;
  rr_counter : rc_counter c = next_expected hist;
  rr_hist : Forall (fun n => 0 <= n < REJECT_AFTER_MESSAGES) hist;
  rr_bits : forall v, 0 <= v -> in_ring (rc_counter c) v ->
    ring_bit (rc_backtrack c) v = bool_decide (v - 1 ∈ hist)
}.

Lemma shiftr_6 z : Z.shiftr z 6 = z / 64.
Proof. by rewrite Z.shiftr_div_pow2 by lia. Qed.

Lemma land_127 z : Z.land z (BACKTRACK_WORDS - 1) = z mod 128.
Proof. change (BACKTRACK_WORDS - 1) with (Z.ones 7). by rewrite Z.land_ones by lia. Qed.

Lemma land_63 z : Z.land z (BITS_PER_LONG - 1) = z mod 64.
Proof. change (BITS_PER_LONG - 1) with (Z.ones 6). by rewrite Z.land_ones by lia. Qed.

Lemma REJECT_value : REJECT_AFTER_MESSAGES = 18446744073709543486.
Proof. reflexivity. Qed.

Lemma next_expected_bounds hist : Forall (fun n => 0 <= n < REJECT_AFTER_MESSAGES) hist ->
  0 <= next_expected hist <= REJECT_AFTER_MESSAGES.
Proof.
  rewrite REJECT_value. induction 1 as [|n h Hn Hh IH]; cbn; lia.
Qed.

Lemma next_expected_in hist n : n ∈ hist -> n + 1 <= next_expected hist.
Proof.
  induction 1 as [|n m h Hn IH]; cbn; lia.
Qed.

Lemma clear_words_length n i cur bt : length (clear_words n i cur bt) = length bt.
Proof.
  revert i bt. induction n as [|n IH]; intros; cbn; [done|].
  by rewrite IH, length_insert.
Qed.

(** The words the clearing loop does not visit keep their value, *)
Lemma clear_words_kept n i cur bt k : 0 <= k < 128 ->
  (forall j, i <= j < i + Z.of_nat n -> (j + cur) mod 128 <> k) ->
  clear_words n i cur bt !! Z.to_nat k = bt !! Z.to_nat k.
Proof.
  intros Hk. revert i bt. induction n as [|n IH]; intros i bt Hj; cbn [clear_words]; [done|].
  rewrite IH by (intros j Hj'; apply Hj; lia).
  rewrite land_127. apply list_lookup_insert_ne. specialize (Hj i ltac:(lia)). lia.
Qed.

(** and those it visits become zero. *)
Lemma clear_words_cleared n i cur bt j : length bt = 128%nat ->
  i <= j < i + Z.of_nat n ->
  clear_words n i cur bt !! Z.to_nat ((j + cur) mod 128) = Some 0.
Proof.
  revert i bt. induction n as [|n IH]; intros i bt Hl Hj; [lia|]. cbn [clear_words].
  rewrite land_127. destruct (decide (i + 1 <= j)).
  - apply IH; [by rewrite length_insert|lia].
  - assert (j = i) as -> by lia.
    assert (Hc : forall n i' bt, bt !! Z.to_nat ((i + cur) mod 128) = Some 0 ->
      clear_words n i' cur bt !! Z.to_nat ((i + cur) mod 128) = Some 0).
    { clear. intros n. induction n as [|n IH]; intros i' bt Hb; cbn [clear_words]; [done|].
      apply IH. rewrite list_lookup_insert, Hb. by case_decide. }
    apply Hc, list_lookup_insert_eq. rewrite Hl. lia.
Qed.

Lemma ring_bit_set bt nv v :
  length bt = 128%nat -> 0 <= v -> 0 <= nv ->
  ring_bit (test_and_set_bit (nv mod 64) (nv / 64 mod 128) bt).2 v =
  (bool_decide (v mod 64 = nv mod 64 /\ v / 64 mod 128 = nv / 64 mod 128) || ring_bit bt v).
Proof.
  intros Hl Hv Hnv. unfold ring_bit, test_and_set_bit. cbn [snd].
  rewrite list_lookup_insert. case_decide as H.
  - destruct H as [H _]. apply Z2Nat.inj in H; [|lia..]. rewrite <- H. cbn.
    change (Z.lor ?w (Z.shiftl 1 ?n)) with (Z.setbit w n).
    rewrite Z.setbit_eqb by lia. f_equal.
    case_bool_decide as Hb; [apply Z.eqb_eq; lia|apply Z.eqb_neq; lia].
  - rewrite bool_decide_false; [done|]. intros [_ E]. apply H. split; [by rewrite E|].
    rewrite Hl. lia.
Qed.

Lemma window_accepts_in hist n : n ∈ hist -> window_accepts hist n = false.
Proof.
  intros H. unfold window_accepts. rewrite bool_decide_false by (intros ?; done).
  apply andb_false_r.
Qed.

(** The bits of the ring after the counter moved forward to [nv]. *)
Lemma ring_bit_advance hist c nv v :
  replay_rel hist c -> rc_counter c < nv -> 0 <= v -> in_ring nv v ->
  ring_bit (clear_words (Z.to_nat (Z.min (nv / 64 - rc_counter c / 64) 128)) 1
              (rc_counter c / 64) (rc_backtrack c)) v = bool_decide (v - 1 ∈ hist).
Proof.
  intros [Hl Hc Hh Hb] Hlt Hv Hr. set (m := rc_counter c) in *.
  assert (0 <= m) by (rewrite Hc; by apply next_expected_bounds).
  unfold in_ring in *. destruct (Z.le_gt_cases (v / 64) (m / 64)) as [Hle|Hgt].
  - rewrite <- Hb by lia. unfold ring_bit. by rewrite clear_words_kept by lia.
  - rewrite bool_decide_false.
    2:{ intros Hin%next_expected_in. lia. }
    unfold ring_bit. set (d := v / 64 - m / 64).
    replace (v / 64 mod 128) with ((1 + (d - 1) mod 128 + m / 64) mod 128) by lia.
    rewrite clear_words_cleared by lia. apply Z.testbit_0_l.
Qed.

(** The counter after moving the window, before the bit is tested. *)
Definition advanced (c : noise_replay_counter) (nv : Z) : noise_replay_counter :=
  if nv >? rc_counter c then
    ReplayCounter nv
      (clear_words (Z.to_nat (Z.min (u64 (Z.shiftr nv 6 - Z.shiftr (rc_counter c) 6)) BACKTRACK_WORDS))
         1 (Z.shiftr (rc_counter c) 6) (rc_backtrack c))
  else c.

Lemma advanced_spec hist c nv :
  replay_rel hist c -> 0 <= nv < 2 ^ 64 ->
  length (rc_backtrack (advanced c nv)) = 128%nat /\
  rc_counter (advanced c nv) = Z.max nv (next_expected hist) /\
  (forall v, 0 <= v -> in_ring (rc_counter (advanced c nv)) v ->
    ring_bit (rc_backtrack (advanced c nv)) v = bool_decide (v - 1 ∈ hist)).
Proof.
  intros HR Hnv. pose proof (next_expected_bounds _ (rr_hist _ _ HR)) as Hm.
  pose proof (rr_counter _ _ HR) as Hc. unfold advanced.
  destruct (nv >? rc_counter c) eqn:E; zbool.
  - rewrite !shiftr_6, u64_small by lia. change BACKTRACK_WORDS with 128. cbn.
    split; [rewrite clear_words_length; apply HR|]. split; [lia|].
    intros v Hv Hr. by apply ring_bit_advance.
  - split; [apply HR|]. split; [lia|]. apply HR.
Qed.

Lemma replay_set_new hist c nv :
  length (rc_backtrack c) = 128%nat -> Forall (fun n => 0 <= n < REJECT_AFTER_MESSAGES) hist ->
  rc_counter c = Z.max nv (next_expected hist) ->
  (forall v, 0 <= v -> in_ring (rc_counter c) v ->
    ring_bit (rc_backtrack c) v = bool_decide (v - 1 ∈ hist)) ->
  0 <= nv - 1 < REJECT_AFTER_MESSAGES -> in_ring (rc_counter c) nv ->
  let bt := (test_and_set_bit (nv mod 64) (nv / 64 mod 128) (rc_backtrack c)).2 in
  (nv - 1 ∉ hist -> replay_rel ((nv - 1) :: hist) (ReplayCounter (rc_counter c) bt)) /\
  (nv - 1 ∈ hist -> replay_rel hist (ReplayCounter (rc_counter c) bt)).
Proof.
  intros Hl Hh Hc Hb Hn Hr bt.
  assert (Hset : forall v, 0 <= v -> in_ring (rc_counter c) v ->
    ring_bit bt v = bool_decide (v - 1 = nv - 1) || bool_decide (v - 1 ∈ hist)).
  { intros v Hv Hrv. unfold bt. rewrite ring_bit_set, Hb by (try lia; done). f_equal.
    unfold in_ring in *. apply bool_decide_ext. lia. }
  assert (Hlen : length bt = 128%nat) by (unfold bt, test_and_set_bit; cbn; by rewrite length_insert).
  split; intros Hin; split; cbn; try done.
  - rewrite Hc. f_equal. lia.
  - by constructor.
  - intros v Hv Hrv. rewrite Hset by done. rewrite <- bool_decide_or.
    apply bool_decide_ext. by rewrite elem_of_cons.
  - pose proof (next_expected_in _ _ Hin). lia.
  - intros v Hv Hrv. rewrite Hset, <- bool_decide_or by done.
    apply bool_decide_ext. split; [intros [->|]; done|by right].
Qed.

(** One step of the code and one step of the specification agree. *)
Lemma counter_validate_step hist c n :
  replay_rel hist c -> 0 <= n < 2 ^ 64 ->
  let '(b, c') := counter_validate c n in
  b = window_accepts hist n /\ replay_rel (if b then n :: hist else hist) c'.
Proof.
  intros HR Hn. pose proof (next_expected_bounds _ (rr_hist _ _ HR)) as Hm.
  pose proof (rr_counter _ _ HR) as Hc. pose proof REJECT_value as HRJ.
  unfold counter_validate. rewrite (u64_small (REJECT_AFTER_MESSAGES + 1)) by lia.
  destruct ((rc_counter c >=? REJECT_AFTER_MESSAGES + 1) || (n >=? REJECT_AFTER_MESSAGES)) eqn:E1.
  { apply orb_true_iff in E1. rewrite !Z.geb_leb, !Z.leb_le in E1.
    assert (window_accepts hist n = false) as ->; [|by split].
    unfold window_accepts. rewrite (proj2 (Z.ltb_ge n _)) by lia. done. }
  zbool. change COUNTER_WINDOW_SIZE with 8128.
  rewrite (u64_small (n + 1)), (u64_small (8128 + _)) by lia.
  destruct (8128 + (n + 1) <? rc_counter c) eqn:E2; zbool.
  { assert (window_accepts hist n = false) as ->; [|by split].
    unfold window_accepts. change COUNTER_WINDOW_SIZE with 8128.
    rewrite (proj2 (Z.leb_gt _ (n + 1 + 8128))) by lia. by rewrite andb_false_r. }
  fold (advanced c (n + 1)). destruct (advanced_spec hist c (n + 1) HR ltac:(lia)) as (Al & Ac & Ab).
  rewrite land_127, land_63, shiftr_6.
  assert (Hring : in_ring (rc_counter (advanced c (n + 1))) (n + 1)) by (unfold in_ring; lia).
  pose proof (replay_set_new hist _ (n + 1) Al (rr_hist _ _ HR) Ac Ab ltac:(lia) Hring) as [Hnew Hold].
  pose proof (Ab (n + 1) ltac:(lia) Hring) as Hbit.
  replace (n + 1 - 1) with n in * by lia. unfold ring_bit in Hbit.
  unfold test_and_set_bit in *. cbn [fst snd] in *. rewrite Hbit.
  assert (window_accepts hist n = bool_decide (n ∉ hist)) as ->.
  { unfold window_accepts. change COUNTER_WINDOW_SIZE with 8128.
    by rewrite (proj2 (Z.ltb_lt n _)), (proj2 (Z.leb_le _ (n + 1 + 8128))) by lia. }
  rewrite bool_decide_not. split; [done|].
  destruct (bool_decide_reflect (n ∈ hist)); cbn; auto.
Qed.

Lemma validate_all_spec hist c l :
  replay_rel hist c -> Forall (fun n => 0 <= n < 2 ^ 64) l ->
  validate_all c l = spec_all hist l.
Proof.
  intros HR Hl. revert hist c HR. induction Hl as [|n l Hn Hl IH]; intros hist c HR; cbn; [done|].
  pose proof (counter_validate_step hist c n HR Hn) as Hs.
  destruct (counter_validate c n) as [b c']. destruct Hs as [<- HR']. f_equal. by apply IH.
Qed.

Lemma replay_init_rel : replay_rel [] replay_init.
Proof.
  split; try done. intros v Hv Hr. unfold ring_bit.
  change (rc_backtrack replay_init) with (replicate 128 0).
  rewrite lookup_replicate_2 by lia. cbn. apply Z.testbit_0_l.
Qed.

Lemma spec_all_seen hist l j n : n ∈ hist -> l !! j = Some n ->
  spec_all hist l !! j = Some false.
Proof.
  revert hist j. induction l as [|m l IH]; intros hist j Hin Hj; [done|]. cbn.
  destruct j as [|j]; cbn in *; [simplify_eq; by rewrite window_accepts_in|].
  apply IH; [|done]. destruct (window_accepts hist m); [by right|done].
Qed.

Lemma spec_all_twice hist l i j n : (i < j)%nat -> l !! i = Some n -> l !! j = Some n ->
  spec_all hist l !! i = Some true -> spec_all hist l !! j = Some false.
Proof.
  revert hist i j. induction l as [|m l IH]; intros hist i j Hij Hi Hj Ht; [done|].
  destruct j as [|j]; [lia|]. cbn in *. destruct i as [|i]; cbn in *; simplify_eq.
  - rewrite Ht. eapply spec_all_seen; [by left|done].
  - apply (IH _ i j); eauto with lia.
Qed.

(** C16: on every sequence of 64-bit packet counters the bitmap of
    [counter_validate] gives exactly the answers of the sliding-window
    specification: accept a counter when it is below
    [REJECT_AFTER_MESSAGES], at most [COUNTER_WINDOW_SIZE] behind the
    greatest accepted one, and has not been accepted before. *)
Theorem counter_validate_refines_window l :
  Forall (fun n => 0 <= n < 2 ^ 64) l ->
  validate_all replay_init l = spec_all [] l.
Proof. apply validate_all_spec, replay_init_rel. Qed.

(** No counter value is accepted twice, in whatever order the packets
    arrive. *)
Theorem counter_validate_no_replay l i j n :
  Forall (fun n => 0 <= n < 2 ^ 64) l -> (i < j)%nat ->
  l !! i = Some n -> l !! j = Some n ->
  validate_all replay_init l !! i = Some true ->
  validate_all replay_init l !! j = Some false.
Proof.
  intros Hl. rewrite (validate_all_spec [] replay_init l replay_init_rel Hl).
  intros. by eapply spec_all_twice.
Qed.

(** ** Witnesses: the vectors of [selftest/counter.c] *)

Definition T_LIM : Z := COUNTER_WINDOW_SIZE + 1.

Definition selftest_counters : list Z :=
  [0; 1; 1; 9; 8; 7; 7; T_LIM; T_LIM - 1; T_LIM - 1; T_LIM - 2; 2; 2; T_LIM + 16; 3; T_LIM + 16;
   T_LIM * 4; T_LIM * 4 - (T_LIM - 1); 10; T_LIM * 4 - T_LIM; T_LIM * 4 - (T_LIM + 1);
   T_LIM * 4 - (T_LIM - 2); T_LIM * 4 + 1 - T_LIM; 0; REJECT_AFTER_MESSAGES;
   REJECT_AFTER_MESSAGES - 1; REJECT_AFTER_MESSAGES; REJECT_AFTER_MESSAGES - 1;
   REJECT_AFTER_MESSAGES - 2; REJECT_AFTER_MESSAGES + 1; REJECT_AFTER_MESSAGES + 2;
   REJECT_AFTER_MESSAGES - 2; REJECT_AFTER_MESSAGES - 3; 0].

Definition selftest_expected : list bool :=
  [true; true; false; true; true; true; false; true; true; false; true; true; false; true; false;
   false; true; true; false; false; false; true; false; false; false; true; false; false; true;
   false; false; false; true; false].

Example counter_selftest : validate_all replay_init selftest_counters = selftest_expected.
Proof. vm_compute. reflexivity. Qed.

Lemma selftest_counters_u64 : Forall (fun n => 0 <= n < 2 ^ 64) selftest_counters.
Proof. unfold selftest_counters. repeat constructor; by vm_compute. Qed.

Lemma counter_validate_refines_window_witness :
  validate_all replay_init selftest_counters = spec_all [] selftest_counters.
Proof. apply counter_validate_refines_window. exact selftest_counters_u64. Defined.

Lemma counter_validate_no_replay_witness :
  validate_all replay_init selftest_counters !! 2%nat = Some false.
Proof.
  apply (counter_validate_no_replay selftest_counters 1 2 1);
    [exact selftest_counters_u64|lia|reflexivity..].
Defined.
