(* ===== verification/Imitate.v ===== *)
(** * Traffic imitation ([src/imitate.c], [src/imitate.h])

    The padding in front of a message and the junk packets are filled with
    bytes shaped like QUIC, DNS, STUN or SIP.  Every C function is translated
    to a writer of [Buffer]; [int] lengths are [Z] (they are at most 65535, so
    no [int] arithmetic of this file overflows), the pseudo-random state is a
    32-bit value and wraps. *)

From S2P Require Import Prelude Buffer.

(** [enum imitate_proto] *)
Inductive imitate_proto :=
| IMITATE_NONE | IMITATE_QUIC | IMITATE_DNS | IMITATE_STUN | IMITATE_SIP.

#[global] Instance imitate_proto_eq_dec : EqDecision imitate_proto.
Proof. solve_decision. Defined.

(** ** Generators and byte order *)

Definition lcg_step (s : Z) : Z := u32 (s * 1103515245 + 12345).

(** [next_lcg(&state)]: the value and the new state. *)
Definition next_lcg (state : Z) : Z * Z := (state, lcg_step state).

Definition put_be16 (p v : Z) : writer :=
  st p (Z.shiftr v 8) ;; st (p + 1) v.

Definition put_be32 (p v : Z) : writer :=
  st p (Z.shiftr v 24) ;; st (p + 1) (Z.shiftr v 16) ;;
  st (p + 2) (Z.shiftr v 8) ;; st (p + 3) v.

Fixpoint fnv1a (state : Z) (payload : list Z) : Z :=
  match payload with
  | [] => state
  | b :: payload' => fnv1a (u32 (Z.lxor state b * 0x01000193)) payload'
  end.

Definition imitate_fnv1a_seed (payload : list Z) : Z :=
  let n := if len payload >? 64 then 64 else len payload in
  fnv1a 0x811c9dc5 (firstn (Z.to_nat n) payload).

Definition imitate_junk_seed (counter : Z) : Z :=
  imitate_fnv1a_seed (map (fun i => u8 (Z.shiftr counter (8 * i))) [0; 1; 2; 3; 4; 5; 6; 7]).

(** ** Protocol names *)

Definition imitate_proto_parse (s : option (list Z)) : imitate_proto :=
  match s with
  | None | Some [] => IMITATE_NONE
  | Some s =>
      if bool_decide (s = B "none") then IMITATE_NONE
      else if bool_decide (s = B "quic") then IMITATE_QUIC
      else if bool_decide (s = B "dns") then IMITATE_DNS
      else if bool_decide (s = B "stun") then IMITATE_STUN
      else if bool_decide (s = B "sip") then IMITATE_SIP
      else IMITATE_NONE
  end.

Definition imitate_proto_name (p : imitate_proto) : list Z :=
  match p with
  | IMITATE_QUIC => B "quic"
  | IMITATE_DNS => B "dns"
  | IMITATE_STUN => B "stun"
  | IMITATE_SIP => B "sip"
  | IMITATE_NONE => B "none"
  end.

Definition clamp_u16 (v : Z) : Z :=
  if v <? 0 then 0 else if v >? 0xFFFF then 0xFFFF else u16 v.

(** ** DNS *)

Definition write_dns_opt_response (total padding : Z) (txid0 txid1 : Z) : writer :=
  let opt_off := 12 + 5 in
  let rdlength := clamp_u16 (total - (opt_off + 11)) in
  let opt_len := clamp_u16 (total - (opt_off + 11 + 4)) in
  st 0 txid0 ;; st 1 txid1 ;;
  st 2 0x81 ;; st 3 0x80 ;;
  st 4 0x00 ;; st 5 0x01 ;;
  st 6 0x00 ;; st 7 0x00 ;;
  st 8 0x00 ;; st 9 0x00 ;;
  st 10 0x00 ;; st 11 0x01 ;;
  st 12 0x00 ;; st 13 0x00 ;; st 14 0x01 ;; st 15 0x00 ;; st 16 0x01 ;;
  st (opt_off + 0) 0x00 ;;
  st (opt_off + 1) 0x00 ;; st (opt_off + 2) 0x29 ;;
  st (opt_off + 3) (Z.shiftr 1232 8) ;; st (opt_off + 4) (Z.land 1232 0xFF) ;;
  st (opt_off + 5) 0x00 ;; st (opt_off + 6) 0x00 ;;
  st (opt_off + 7) 0x00 ;; st (opt_off + 8) 0x00 ;;
  st (opt_off + 9) (Z.shiftr rdlength 8) ;; st (opt_off + 10) rdlength ;;
  st (opt_off + 11) (Z.shiftr 0xFDE9 8) ;; st (opt_off + 12) (Z.land 0xFDE9 0xFF) ;;
  st (opt_off + 13) (Z.shiftr opt_len 8) ;; st (opt_off + 14) opt_len ;;
  fill_range (opt_off + 15) padding 0x00.

Definition write_dns_null (total padding : Z) (txid0 txid1 : Z) : writer :=
  if padding <=? 0 then wskip
  else
    let qdcount := if padding >=? 17 then 1 else 0 in
    let ancount := if padding >=? 28 then 1 else 0 in
    let rdlength := clamp_u16 (total - 28) in
    let fixed :=
      [txid0; txid1; 0x81; 0x80; 0x00; qdcount; 0x00; ancount; 0x00; 0x00; 0x00; 0x00; 0x00;
       0x00; 0x01; 0x00; 0x01; 0x00; 0x00; 0x0a; 0x00; 0x01; 0x00; 0x00; 0x00; 0x3c;
       u8 (Z.shiftr rdlength 8); u8 rdlength] in
    let advertised := if padding >=? 28 then 28 else if padding >=? 17 then 17 else 12 in
    let copy_len := if padding <? advertised then padding else advertised in
    put 0 (firstn (Z.to_nat copy_len) fixed) ;;
    fill_range copy_len padding 0x00.

Definition write_dns_msg (total padding : Z) (txid0 txid1 : Z) : writer :=
  if padding <? 32 then write_dns_null total padding txid0 txid1
  else write_dns_opt_response total padding txid0 txid1.

(** ** QUIC *)

(** [for (i = 1; i < padding; i++) { buf[i] = (u8)(state >> 16); state = lcg_step(state); }] *)
Fixpoint quic_body (n : nat) (i state : Z) : writer :=
  match n with
  | O => wskip
  | S n' => st i (Z.shiftr state 16) ;; quic_body n' (i + 1) (lcg_step state)
  end.

Definition write_quic_short (padding seed : Z) : writer :=
  if padding <=? 0 then wskip
  else
    let state := seed in
    let spin := Z.land (u8 (Z.shiftr state 8)) 0x01 in
    let state := lcg_step state in
    let key_phase := Z.land (u8 (Z.shiftr state 8)) 0x01 in
    let state := lcg_step state in
    let pn_len_bits := Z.land (u8 state) 0x03 in
    let state := lcg_step state in
    st 0 (Z.lor (Z.lor (Z.lor 0x40 (Z.shiftl spin 5)) (Z.shiftl key_phase 2)) pn_len_bits) ;;
    quic_body (Z.to_nat (padding - 1)) 1 state.

(** ** STUN *)

Definition be16 (v : Z) : list Z := [u8 (Z.shiftr v 8); u8 v].
Definition be32 (v : Z) : list Z :=
  [u8 (Z.shiftr v 24); u8 (Z.shiftr v 16); u8 (Z.shiftr v 8); u8 v].

(** [for (j = 0; j < vlen; j++) buf[off + j] = 0x20 + (u8)(next_lcg(&state) % 0x5F)] *)
Fixpoint stun_software (n : nat) (off state : Z) : writer :=
  match n with
  | O => wskip
  | S n' =>
      let '(v, state) := next_lcg state in
      st off (0x20 + u8 (v mod 0x5F)) ;; stun_software n' (off + 1) state
  end.

(** The stores into [buf] happen in the order of the source: the attributes,
    then the header that carries their total length, then the zero tail. *)
Definition write_stun (padding seed : Z) : writer :=
  if padding <=? 0 then wskip
  else
    let cookie := 0x2112A442 in
    let '(t0, state) := next_lcg seed in
    let '(t1, state) := next_lcg state in
    let '(t2, state) := next_lcg state in
    let txn := be32 t0 ++ be32 t1 ++ be32 t2 in
    let body := if padding >? 20 then Z.land (padding - 20) (Z.lnot 0x3) else 0 in
    let written := 0 in
    let '(wr_addr, written, state) :=
      if body - written >=? 12 then
        let '(p, state) := next_lcg state in
        let port := u16 (Z.shiftr p 16) in
        let '(addr, state) := next_lcg state in
        let xport := Z.lxor port (u16 (Z.shiftr cookie 16)) in
        let xaddr := Z.lxor addr cookie in
        let off := 20 + written in
        (put_be16 off 0x0020 ;; put_be16 (off + 2) 8 ;;
         st (off + 4) 0x00 ;; st (off + 5) 0x01 ;;
         put_be16 (off + 6) xport ;; put_be32 (off + 8) xaddr, written + 12, state)
      else (wskip, written, state) in
    let remaining := body - written in
    let '(wr_soft, written) :=
      if remaining >=? 4 then
        let vlen := if remaining - 4 >? 124 then 124 else remaining - 4 in
        let off := 20 + written in
        (put_be16 off 0x8022 ;; put_be16 (off + 2) (u16 vlen) ;;
         stun_software (Z.to_nat vlen) (off + 4) state, written + (4 + vlen))
      else (wskip, written) in
    let header := be16 0x0101 ++ be16 (u16 written) ++ be32 cookie ++ txn in
    let copy_len := if padding <? 20 then padding else 20 in
    wr_addr ;; wr_soft ;;
    put 0 (firstn (Z.to_nat copy_len) header) ;;
    fill_range (20 + written) padding 0x00.

(** ** SIP *)

(** [decimal_digits]; ten rounds are enough for an [int]. *)
Fixpoint decimal_digits_fuel (fuel : nat) (value digits : Z) : Z :=
  match fuel with
  | O => digits
  | S f => if value >=? 10 then decimal_digits_fuel f (value / 10) (digits + 1) else digits
  end.

Definition decimal_digits (value : Z) : Z := decimal_digits_fuel 10 value 1.

(** The ["%08x"] conversion of a 32-bit value. *)
Definition hex8 (v : Z) : list Z :=
  map (fun k => hex_digit (Z.shiftr v (4 * k) mod 16)) [7; 6; 5; 4; 3; 2; 1; 0].

Definition CRLF : list Z := [13; 10].
Definition SP : Z := 32.

(** [sip_putline(buf, &pos, length, line, n)]: whether the line fits with the
    closing blank line, the store, and the new position. *)
Definition sip_putline (pos length : Z) (line : list Z) : bool * writer * Z :=
  if pos + len line + 2 <=? length then (true, put pos line, pos + len line)
  else (false, wskip, pos).

Definition sip_status (k : Z) : list Z :=
  if k =? 0 then B "100 Trying" else if k =? 1 then B "180 Ringing" else B "200 OK".
Definition sip_hosts (k : Z) : list Z :=
  if k =? 0 then B "sip.example.com" else if k =? 1 then B "pbx.example.net"
  else B "voip.example.org".
Definition sip_methods (k : Z) : list Z :=
  if k =? 0 then B "INVITE" else if k =? 1 then B "OPTIONS" else B "REGISTER".

Definition sip_status_line (idx : Z) : list Z := B "SIP/2.0 " ++ sip_status idx ++ CRLF.

(** The lines are formatted into [char tmp[160]]. *)
Definition SIP_TMP : Z := 160.

(** The status line: the first of the three rotations that fits. *)
Fixpoint sip_try_status (ks : list Z) (status_idx length : Z) : option (writer * Z) :=
  match ks with
  | [] => None
  | k :: ks' =>
      let '(ok, w, pos) :=
        sip_putline 0 length (scnprintf SIP_TMP (sip_status_line ((status_idx + k) mod 3))) in
      if ok : bool then Some (w, pos) else sip_try_status ks' status_idx length
  end.

(** The mandatory lines, until one does not fit. *)
Fixpoint sip_lines (lines : list (list Z)) (pos length : Z) : bool * writer * Z :=
  match lines with
  | [] => (true, wskip, pos)
  | line :: lines' =>
      let '(ok, w, pos) := sip_putline pos length (scnprintf SIP_TMP line) in
      if ok : bool then
        let '(ok', w', pos') := sip_lines lines' pos length in (ok', w ;; w', pos')
      else (false, w, pos)
  end.

(** The inner loop over the number of digits of the Content-Length value: the
    end of the header block for which the value has that many digits. *)
Fixpoint sip_cl_digits (n : nat) (digits sws pos length total : Z) : option Z :=
  match n with
  | O => None
  | S n' =>
      let header_end := pos + 15 + sws + digits + 4 in
      if header_end >? length then None
      else if decimal_digits (total - header_end) =? digits then Some header_end
      else sip_cl_digits n' (digits + 1) sws pos length total
  end.

(** The Content-Length line of the outer loop ([sws] spaces after the colon),
    when a consistent value exists. *)
Definition sip_content_length (pos length total : Z) : option (list Z) :=
  let dd := Z.to_nat (decimal_digits total) in
  match sip_cl_digits dd 1 1 pos length total with
  | Some header_end => Some (B "Content-Length: " ++ sdec (total - header_end) ++ CRLF)
  | None =>
      match sip_cl_digits dd 1 2 pos length total with
      | Some header_end => Some (B "Content-Length:  " ++ sdec (total - header_end) ++ CRLF)
      | None => None
      end
  end.

(** Closing blank line and spaces up to the end of the padding. *)
Definition sip_finish (pos length : Z) : writer :=
  if pos + 2 <=? length then st pos 13 ;; st (pos + 1) 10 ;; fill_range (pos + 2) length SP
  else fill_range pos length SP.

(** No status line fits: a truncated one, blanks, and a line end. *)
Definition sip_fragment (length : Z) : writer :=
  let frag := B "SIP/2.0 100 Trying" ++ CRLF in
  let take := if len frag >? length then length else len frag in
  put 0 (firstn (Z.to_nat take) frag) ;;
  fill_range take length SP ;;
  (if length >=? 2 then st (length - 2) 13 ;; st (length - 1) 10 else wskip).

Definition write_sip (total padding seed : Z) : writer :=
  let length := padding in
  if padding <=? 0 then wskip
  else
    let '(v, st) := next_lcg seed in
    let status_idx := v mod 3 in
    let '(v, st) := next_lcg st in
    let host := sip_hosts (v mod 3) in
    let '(v, st) := next_lcg st in
    let method := sip_methods (v mod 3) in
    let '(branch, st) := next_lcg st in
    let '(from_tag, st) := next_lcg st in
    let '(to_tag, st) := next_lcg st in
    let '(call_id, st) := next_lcg st in
    let cseq := 1 + st mod 100000 in
    match sip_try_status [0; 1; 2] status_idx length with
    | None => sip_fragment length
    | Some (w_status, pos) =>
        let '(all_mandatory, w_lines, pos) :=
          sip_lines
            [B "Via: SIP/2.0/UDP " ++ host ++ B ":5060;branch=z9hG4bK" ++ hex8 branch ++ B ";rport" ++ CRLF;
             B "From: <sip:caller@" ++ host ++ B ">;tag=" ++ hex8 from_tag ++ CRLF;
             B "To: <sip:callee@" ++ host ++ B ">;tag=" ++ hex8 to_tag ++ CRLF;
             B "Call-ID: " ++ hex8 call_id ++ B "@" ++ host ++ CRLF;
             B "CSeq: " ++ dec cseq ++ B " " ++ method ++ CRLF] pos length in
        let '(w_cl, pos) :=
          match (if all_mandatory : bool then sip_content_length pos length total else None) with
          | Some line =>
              let '(_, w, pos) := sip_putline pos length (scnprintf SIP_TMP line) in (w, pos)
          | None => (wskip, pos)
          end in
        w_status ;; w_lines ;; w_cl ;; sip_finish pos length
    end.

(** ** Entry points *)

(** [imitate_fill_prefix(buf, total_len, padding, p)]; reading the payload
    past the end of the buffer fails. *)
Definition imitate_fill_prefix (total_len padding : Z) (p : imitate_proto) : writer := fun buf =>
  if (padding =? 0) || (padding >=? total_len) then Some buf
  else if total_len >? len buf then None
  else
    let payload := firstn (Z.to_nat (total_len - padding)) (skipn (Z.to_nat padding) buf) in
    let seed := imitate_fnv1a_seed payload in
    match p with
    | IMITATE_QUIC => write_quic_short padding seed buf
    | IMITATE_DNS =>
        let txid0 := if total_len - padding >? 0 then default 0 (ld buf padding) else 0 in
        let txid1 := if total_len - padding >? 1 then default 0 (ld buf (padding + 1)) else 0 in
        write_dns_msg total_len padding txid0 txid1 buf
    | IMITATE_STUN => write_stun padding seed buf
    | IMITATE_SIP => write_sip total_len padding seed buf
    | IMITATE_NONE => Some buf
    end.

Definition imitate_fill_whole (length seed : Z) (p : imitate_proto) : writer :=
  if length <=? 0 then wskip
  else
    match p with
    | IMITATE_QUIC => write_quic_short length seed
    | IMITATE_DNS => write_dns_msg length length (u8 (Z.shiftr seed 8)) (u8 seed)
    | IMITATE_STUN => write_stun length seed
    | IMITATE_SIP => write_sip length length seed
    | IMITATE_NONE => wskip
    end.

(** [wg_fill_padding] and [wg_fill_junk]: [rnd n] are the bytes that
    [get_random_bytes] delivers for a request of [n]. *)
Definition wg_fill_padding (proto : imitate_proto) (rnd : Z -> list Z) (total_len padding : Z) : writer :=
  if decide (proto = IMITATE_NONE) then put 0 (rnd padding)
  else imitate_fill_prefix total_len padding proto.

(** The junk writer and the device's [imitate_junk_counter] after the call. *)
Definition wg_fill_junk (proto : imitate_proto) (rnd : Z -> list Z) (junk_counter length : Z)
  : writer * Z :=
  if decide (proto = IMITATE_NONE) then (put 0 (rnd length), junk_counter)
  else
    let junk_counter := u64 (junk_counter + 1) in
    (imitate_fill_whole length (imitate_junk_seed junk_counter) proto, junk_counter).

(** ** Every writer fills its region

    Whatever the seed, each writer stores [padding] bytes at the start of the
    buffer, all of them, and nothing else. *)

Lemma fillsn_be16 p v : fillsn p 2 (put_be16 p v).
Proof. unfold put_be16. fillsn_auto; fillsn_lia. Qed.

Lemma fillsn_be32 p v : fillsn p 4 (put_be32 p v).
Proof. unfold put_be32. fillsn_auto; fillsn_lia. Qed.

Lemma fillsn_quic_body n i state : fillsn i (Z.of_nat n) (quic_body n i state).
Proof.
  revert i state. induction n as [|n IH]; intros i state; cbn [quic_body]; [apply fillsn_skip|].
  eapply fillsn_seq; [apply fillsn_st|apply IH|lia|lia].
Qed.

Lemma fillsn_quic padding seed : 0 < padding -> fillsn 0 padding (write_quic_short padding seed).
Proof.
  intros. unfold write_quic_short. destruct (Z.leb_spec padding 0); [lia|]. cbv zeta.
  eapply fillsn_seq; [apply fillsn_st|apply fillsn_quic_body|lia|lia].
Qed.

Lemma fillsn_dns total padding t0 t1 : 0 < padding ->
  fillsn 0 padding (write_dns_msg total padding t0 t1).
Proof.
  intros. unfold write_dns_msg, write_dns_null, write_dns_opt_response. cbv zeta.
  destruct (Z.ltb_spec padding 32).
  - destruct (Z.leb_spec padding 0); [lia|].
    match goal with |- context [fill_range ?n _ _] =>
      assert (0 <= n <= padding /\ n <= 28) as [??] by
        (repeat case_match; lia); generalize dependent n end.
    intros n ? ?. eapply fillsn_seq; [apply fillsn_put|apply fillsn_range| |];
      rewrite ?len_take by (unfold len; cbn [length]; lia); lia.
  - fillsn_auto; fillsn_lia.
Qed.

Lemma fillsn_stun_software n off state : fillsn off (Z.of_nat n) (stun_software n off state).
Proof.
  revert off state. induction n as [|n IH]; intros off state; cbn [stun_software]; [apply fillsn_skip|].
  cbn. eapply fillsn_seq; [apply fillsn_st|apply IH|lia|lia].
Qed.

Lemma sip_putline_fills pos length line ok w pos' : 0 <= pos <= length ->
  sip_putline pos length line = (ok, w, pos') ->
  fillsn pos (pos' - pos) w /\ pos <= pos' <= length.
Proof.
  unfold sip_putline. pose proof (len_nonneg line).
  intros ? E. destruct (Z.leb_spec (pos + len line + 2) length); simplify_eq.
  - split; [|lia]. replace (pos + len line - pos) with (len line) by lia. apply fillsn_put.
  - split; [|lia]. rewrite Z.sub_diag. apply fillsn_skip.
Qed.

Lemma sip_try_status_fills ks idx length w pos : 0 <= length ->
  sip_try_status ks idx length = Some (w, pos) -> fillsn 0 pos w /\ 0 <= pos <= length.
Proof.
  intros ?. induction ks as [|k ks IH]; cbn [sip_try_status]; [done|].
  destruct (sip_putline 0 length _) as [[ok w'] pos'] eqn:E.
  apply sip_putline_fills in E; [|lia]. rewrite Z.sub_0_r in E.
  destruct ok; intros; simplify_eq; auto.
Qed.

Lemma sip_lines_fills lines pos length ok w pos' : 0 <= pos <= length ->
  sip_lines lines pos length = (ok, w, pos') ->
  fillsn pos (pos' - pos) w /\ pos <= pos' <= length.
Proof.
  revert pos ok w pos'. induction lines as [|line lines IH]; intros pos ok w pos' ?; cbn [sip_lines].
  { intros. simplify_eq. split; [|lia]. rewrite Z.sub_diag. apply fillsn_skip. }
  destruct (sip_putline pos length _) as [[ok1 w1] pos1] eqn:E1.
  apply sip_putline_fills in E1 as [? ?]; [|lia].
  destruct ok1; [|intros; by simplify_eq].
  destruct (sip_lines lines pos1 length) as [[ok2 w2] pos2] eqn:E2.
  apply IH in E2 as [? ?]; [|lia]. intros. simplify_eq. split; [|lia].
  eapply fillsn_seq; [done..|lia|lia].
Qed.

Lemma sip_finish_fills pos length : 0 <= pos <= length -> fillsn pos (length - pos) (sip_finish pos length).
Proof. intros. unfold sip_finish. destruct (Z.leb_spec (pos + 2) length); fillsn_auto; fillsn_lia. Qed.

Lemma sip_fragment_fills length : 0 < length -> fillsn 0 length (sip_fragment length).
Proof.
  intros. unfold sip_fragment. cbv zeta. eapply fillsn_ext; [intros; apply wseq_assoc|].
  assert (len (B "SIP/2.0 100 Trying" ++ CRLF) = 20) as HL by done.
  destruct (Z.gtb_spec (len (B "SIP/2.0 100 Trying" ++ CRLF)) length).
  all: destruct (Z.geb_spec length 2).
  all: eapply fillsn_over; [eapply fillsn_seq; [apply fillsn_put|apply fillsn_range| |]|fillsn_auto| |];
    rewrite ?len_take by lia; fillsn_lia.
Qed.

Lemma fillsn_sip total padding seed : 0 < padding -> fillsn 0 padding (write_sip total padding seed).
Proof.
  intros. unfold write_sip. destruct (Z.leb_spec padding 0); [lia|]. cbn -[sip_lines sip_try_status].
  destruct (sip_try_status _ _ _) as [[w0 p0]|] eqn:E0; [|by apply sip_fragment_fills].
  apply sip_try_status_fills in E0 as [? ?]; [|lia].
  match goal with |- context [sip_lines ?lines _ _] => generalize lines; intros ls end.
  destruct (sip_lines ls p0 padding) as [[ok w1] p1] eqn:E1.
  apply sip_lines_fills in E1 as [? ?]; [|lia].
  match goal with |- context [let '(_, _) := ?c in _] => destruct c as [w2 p2] eqn:E2 end.
  assert (fillsn p1 (p2 - p1) w2 /\ p1 <= p2 <= padding) as [? ?].
  { destruct (if ok then _ else None) as [line|].
    - destruct (sip_putline p1 _ _) as [[ok3 w3] p3] eqn:E3. simplify_eq.
      by apply sip_putline_fills in E3; [|lia].
    - simplify_eq. split; [|lia]. rewrite Z.sub_diag. apply fillsn_skip. }
  repeat (eapply fillsn_seq; [eassumption| | |]); [apply sip_finish_fills; lia|fillsn_lia..].
Qed.

(** *** STUN, with the bytes stored *)

(** The XOR-MAPPED-ADDRESS attribute. *)
Definition stun_addr_attr (xport xaddr : Z) : list Z :=
  be16 0x0020 ++ be16 8 ++ [0; 1] ++ be16 xport ++ be32 xaddr.

Fixpoint stun_text (n : nat) (state : Z) : list Z :=
  match n with
  | O => []
  | S n' => (0x20 + u8 (state mod 0x5F)) :: stun_text n' (lcg_step state)
  end.

(** The SOFTWARE attribute. *)
Definition stun_soft_attr (vlen state : Z) : list Z :=
  be16 0x8022 ++ be16 vlen ++ stun_text (Z.to_nat vlen) state.

Lemma stun_text_length n state : length (stun_text n state) = n.
Proof. revert state. induction n; cbn; auto. Qed.

Lemma be16_bytes v : all_bytes (be16 v).
Proof. repeat constructor; apply is_byte_u8. Qed.

Lemma be32_bytes v : all_bytes (be32 v).
Proof. repeat constructor; apply is_byte_u8. Qed.

Lemma stun_char_byte v : 0x20 <= 0x20 + u8 (v mod 0x5F) < 0x7F.
Proof.
  rewrite u8_small; [|]; assert (0 <= v mod 0x5F < 0x5F) by (apply Z.mod_pos_bound; lia); lia.
Qed.

Lemma stun_text_bytes n state : all_bytes (stun_text n state).
Proof.
  revert state. induction n as [|n IH]; intros state; cbn; constructor; [|apply IH].
  pose proof (stun_char_byte state). unfold is_byte. lia.
Qed.

Lemma fills_be16 p v : fills p (be16 v) (put_be16 p v).
Proof. eapply fills_then; [apply fills_st..|done|done]. Qed.

Lemma fills_be32 p v : fills p (be32 v) (put_be32 p v).
Proof. repeat (eapply fills_then; [apply fills_st| | |]); try apply fills_st; fillsn_lia. Qed.

Lemma len_be16 v : len (be16 v) = 2.
Proof. done. Qed.

Lemma len_be32 v : len (be32 v) = 4.
Proof. done. Qed.

#[local] Hint Rewrite len_be16 len_be32 : awg.
#[local] Hint Resolve be16_bytes be32_bytes stun_text_bytes : awg.

Lemma fills_stun_text n off state : fills off (stun_text n state) (stun_software n off state).
Proof.
  revert off state. induction n as [|n IH]; intros off state; cbn [stun_software stun_text].
  { apply fills_skip. }
  cbn. pose proof (stun_char_byte state).
  eapply fills_then; [apply fills_st|apply IH|done|]. rewrite (u8_small (0x20 + _)) by lia. done.
Qed.

(** A reader of the attribute list of RFC 5389: type, length, value padded to
    a multiple of four; [Some] of the types when the list is exactly covered. *)
Fixpoint stun_attrs (fuel : nat) (l : list Z) : option (list Z) :=
  match fuel, l with
  | _, [] => Some []
  | S f, t1 :: t0 :: n1 :: n0 :: rest =>
      let n := (n1 * 256 + n0 + 3) / 4 * 4 in
      if n <=? len rest then
        (fun ts => t1 * 256 + t0 :: ts) <$> stun_attrs f (skipn (Z.to_nat n) rest)
      else None
  | _, _ => None
  end.

Lemma be16_value v : 0 <= v < 65536 -> u8 (Z.shiftr v 8) * 256 + u8 v = v.
Proof. intros. unfold u8. rewrite Z.shiftr_div_pow2 by lia. change (2 ^ 8) with 256. lia. Qed.

Lemma stun_attrs_step f t n v rest : 0 <= t < 65536 -> 0 <= n < 65536 -> n mod 4 = 0 -> len v = n ->
  stun_attrs (S f) (be16 t ++ be16 n ++ v ++ rest) = (cons t) <$> stun_attrs f rest.
Proof.
  intros ? ? ? Hv. cbn [app be16 stun_attrs]. rewrite !be16_value by done.
  replace ((n + 3) / 4 * 4) with n by lia. rewrite len_app.
  pose proof (len_nonneg rest). destruct (Z.leb_spec n (len v + len rest)); [|lia].
  rewrite <- Hv. unfold len. rewrite Nat2Z.id, drop_app_length. done.
Qed.

#[local] Opaque put_be16 put_be32.

Lemma stun_addr_fills off xport xaddr :
  fills off (stun_addr_attr xport xaddr)
    (put_be16 off 0x0020 ;; put_be16 (off + 2) 8 ;; st (off + 4) 0x00 ;; st (off + 5) 0x01 ;;
     put_be16 (off + 6) xport ;; put_be32 (off + 8) xaddr).
Proof.
  unfold stun_addr_attr.
  repeat (eapply fills_then; [first [apply fills_be16 | apply fills_st]| | |]);
    [apply fills_be32|fillsn_lia..].
Qed.

Lemma stun_soft_fills off vlen state : 0 <= vlen < 65536 ->
  fills off (stun_soft_attr vlen state)
    (put_be16 off 0x8022 ;; put_be16 (off + 2) (u16 vlen) ;;
     stun_software (Z.to_nat vlen) (off + 4) state).
Proof.
  intros. unfold stun_soft_attr. rewrite u16_small by lia.
  repeat (eapply fills_then; [apply fills_be16| | |]); [apply fills_stun_text|fillsn_lia..].
Qed.

(** The STUN message as its receiver sees it: the header announces exactly the
    attributes that follow, zeros fill the rest of the padding. *)
Definition stun_message (padding : Z) (l : list Z) : Prop :=
  exists txn attrs zeros,
    l = be16 0x0101 ++ be16 (len attrs) ++ be32 0x2112A442 ++ txn ++ attrs ++ replicate zeros 0 /\
    len txn = 12 /\ len attrs mod 4 = 0 /\ len attrs < 65536 /\ 20 + len attrs + Z.of_nat zeros = padding /\
    stun_attrs 2 attrs = Some (if len attrs >=? 16 then [0x0020; 0x8022]
                               else if len attrs >=? 12 then [0x0020]
                               else if len attrs >=? 4 then [0x8022] else []).

Lemma fills_tail from padding l f : fills 0 l f -> from = len l -> from <= padding ->
  fills 0 (l ++ replicate (Z.to_nat (padding - from)) 0) (f ;; fill_range from padding 0).
Proof.
  intros. eapply fills_then; [done|apply fills_put_bytes| |done]; [|done].
  apply Forall_replicate. unfold is_byte. lia.
Qed.

(** Header and tail around the attributes already stored. *)
Lemma stun_finish padding written txn attrs wA wS :
  fills 20 attrs (wA ;; wS) -> len txn = 12 -> all_bytes txn -> written = len attrs ->
  20 + written <= padding -> written < 65536 ->
  fills 0 (be16 0x0101 ++ be16 written ++ be32 0x2112A442 ++ txn ++ attrs ++
           replicate (Z.to_nat (padding - (20 + written))) 0)
    (wA ;; wS ;; put 0 (firstn (Z.to_nat 20) (be16 0x0101 ++ be16 (u16 written) ++ be32 0x2112A442 ++ txn)) ;;
     fill_range (20 + written) padding 0).
Proof.
  intros Ha Ht Hb Hw ? ?. pose proof (len_nonneg attrs). rewrite u16_small by lia.
  set (h := be16 0x0101 ++ be16 written ++ be32 0x2112A442 ++ txn).
  assert (len h = 20) as Hh by (unfold h; autorewrite with awg; lia).
  assert (all_bytes h) by (unfold h; repeat (apply Forall_app; split); auto with awg).
  replace (be16 0x0101 ++ be16 written ++ be32 0x2112A442 ++ txn ++ attrs ++ replicate _ 0)
    with ((h ++ attrs) ++ replicate (Z.to_nat (padding - (20 + written))) 0)
    by (unfold h; by rewrite <- !app_assoc).
  rewrite firstn_all2 by (unfold len in Hh; lia).
  apply (fills_ext _ _ (((wA ;; wS) ;; put 0 h) ;; fill_range (20 + written) padding 0)).
  { intros m. by rewrite !wseq_assoc. }
  apply fills_tail; [|autorewrite with awg; lia|lia].
  apply fills_seq_rev; [by rewrite Hh|by apply fills_put_bytes].
Qed.

Lemma stun_body_bounds padding : 20 <= padding ->
  let body := if padding >? 20 then Z.land (padding - 20) (Z.lnot 0x3) else 0 in
  0 <= body <= padding - 20 /\ body mod 4 = 0.
Proof.
  intros ? body. subst body. destruct (Z.gtb_spec padding 20); [|split; [lia|done]].
  change (Z.lnot 3) with (Z.lnot (Z.ones 2)). rewrite <- Z.ldiff_land, Z.ldiff_ones_r by lia.
  rewrite Z.shiftl_mul_pow2, Z.shiftr_div_pow2 by lia. change (2 ^ 2) with 4. lia.
Qed.

Lemma stun_soft_attrs vlen state f : 0 <= vlen < 65536 -> vlen mod 4 = 0 ->
  len (stun_soft_attr vlen state) = 4 + vlen /\ all_bytes (stun_soft_attr vlen state) /\
  stun_attrs (S f) (stun_soft_attr vlen state) = Some [0x8022].
Proof.
  intros. assert (len (stun_text (Z.to_nat vlen) state) = vlen).
  { unfold len. rewrite stun_text_length. lia. }
  unfold stun_soft_attr. split; [autorewrite with awg; lia|]. split.
  - repeat (apply Forall_app; split); auto with awg.
  - rewrite <- (app_nil_r (stun_text _ _)), stun_attrs_step by done. by destruct f.
Qed.

Lemma stun_addr_attrs xport xaddr rest f :
  len (stun_addr_attr xport xaddr) = 12 /\ all_bytes (stun_addr_attr xport xaddr) /\
  stun_attrs (S f) (stun_addr_attr xport xaddr ++ rest) = cons 0x0020 <$> stun_attrs f rest.
Proof.
  unfold stun_addr_attr. split; [done|]. split.
  - repeat (apply Forall_app; split); auto with awg.
    repeat (constructor; [unfold is_byte; lia|]). constructor.
  - rewrite <- !app_assoc. rewrite (app_assoc (be16 xport)), (app_assoc [0; 1]).
    by rewrite stun_attrs_step by done.
Qed.

(** The SOFTWARE step: what it stores after [written] attribute bytes. *)
Lemma stun_soft_step r written state : 0 <= r -> r mod 4 = 0 ->
  let vlen := if r - 4 >? 124 then 124 else r - 4 in
  exists attrs w,
    (if r >=? 4 then
       (put_be16 (20 + written) 0x8022 ;; put_be16 (20 + written + 2) (u16 vlen) ;;
        stun_software (Z.to_nat vlen) (20 + written + 4) state, written + (4 + vlen))
     else (wskip, written)) = (w, written + len attrs) /\
    fills (20 + written) attrs w /\ all_bytes attrs /\
    len attrs <= r /\ len attrs <= 128 /\ len attrs mod 4 = 0 /\
    (forall f, stun_attrs (S f) attrs = Some (if len attrs >=? 4 then [0x8022] else [])).
Proof.
  intros ? ? vlen. destruct (Z.geb_spec r 4).
  - assert (0 <= vlen <= 124 /\ vlen mod 4 = 0 /\ vlen <= r - 4) as (? & ? & ?).
    { subst vlen. destruct (Z.gtb_spec (r - 4) 124); lia. }
    clearbody vlen. exists (stun_soft_attr vlen state). eexists.
    destruct (stun_soft_attrs vlen state 0) as (Hl & Hb & _); [lia..|]. rewrite Hl.
    do 2 (split; [reflexivity || (apply stun_soft_fills; lia)|]).
    repeat split; [done|lia..|]. intros f. destruct (Z.geb_spec (4 + vlen) 4); [|lia].
    apply stun_soft_attrs; lia.
  - exists [], wskip. rewrite len_nil, Z.add_0_r. split; [done|]. split; [apply fills_skip|].
    repeat split; [done|lia..].
Qed.

Lemma stun_wrap padding txn attrs wA wS written :
  fills 20 attrs (wA ;; wS) -> all_bytes attrs -> written = len attrs ->
  20 + written <= padding -> written < 65536 -> written mod 4 = 0 -> len txn = 12 -> all_bytes txn ->
  stun_attrs 2 attrs = Some (if written >=? 16 then [0x0020; 0x8022]
                             else if written >=? 12 then [0x0020]
                             else if written >=? 4 then [0x8022] else []) ->
  exists l, stun_message padding l /\ all_bytes l /\
    fills 0 l
      (wA ;; wS ;; put 0 (firstn (Z.to_nat 20) (be16 0x0101 ++ be16 (u16 written) ++ be32 0x2112A442 ++ txn)) ;;
       fill_range (20 + written) padding 0).
Proof.
  intros Hf Hb Hw ? ? ? ? ? Ha. eexists. split; [|split; [|by apply stun_finish]].
  - exists txn, attrs, (Z.to_nat (padding - (20 + written))). rewrite <- Hw.
    split; [done|]. repeat split; [done..|lia|done].
  - repeat (apply Forall_app; split); auto with awg. apply Forall_replicate. unfold is_byte. lia.
Qed.

Lemma stun_fills padding seed : 20 <= padding ->
  exists l, stun_message padding l /\ all_bytes l /\ fills 0 l (write_stun padding seed).
Proof.
  intros Hp. unfold write_stun. destruct (Z.leb_spec padding 0); [lia|].
  cbn -[Z.land Z.lnot be16 be32 lcg_step put firstn]. rewrite !Z.sub_0_r.
  destruct (stun_body_bounds padding Hp) as [? ?].
  set (body := if padding >? 20 then _ else 0) in *. clearbody body.
  set (txn := be32 _ ++ be32 _ ++ be32 _).
  assert (len txn = 12 /\ all_bytes txn) as [? ?].
  { split; [done|]. unfold txn. repeat (apply Forall_app; split); auto with awg. }
  clearbody txn. destruct (Z.ltb_spec padding 20); [lia|].
  destruct (Z.geb_spec body 12).
  - edestruct (stun_soft_step (body - (0 + 12)) (0 + 12)) as (attrs & w & E & ? & ? & ? & ? & ? & Ha);
      [lia..|]; rewrite E; clear E.
    match goal with |- context [put_be16 (20 + 0 + 6) ?xp] => match goal with |- context [put_be32 _ ?xa] =>
      destruct (stun_addr_attrs xp xa attrs 1) as (Hl & ? & Hs) end end.
    eapply stun_wrap with (attrs := stun_addr_attr _ _ ++ attrs); try done;
      rewrite ?len_app, ?Hl; try lia.
    + eapply fills_then; [apply stun_addr_fills|done|..|done]; lia.
    + by apply Forall_app.
    + rewrite Hs, Ha. pose proof (len_nonneg attrs). repeat case_match; try done; lia.
  - edestruct (stun_soft_step (body - 0) 0) as (attrs & w & E & ? & ? & ? & ? & ? & Ha); [lia..|].
    rewrite E. clear E.
    eapply stun_wrap; try done; try lia.
    rewrite Ha. repeat case_match; try done; lia.
Qed.

Lemma stun_message_len padding l : stun_message padding l -> len l = padding.
Proof.
  intros (txn & attrs & zeros & -> & ? & ? & ? & <- & _). autorewrite with awg. lia.
Qed.

Lemma fillsn_stun padding seed : 0 < padding -> fillsn 0 padding (write_stun padding seed).
Proof.
  intros. destruct (Z.le_gt_cases 20 padding) as [Hp|Hp].
  { destruct (stun_fills padding seed Hp) as (l & Hm & ? & ?). exists l.
    eauto using stun_message_len. }
  unfold write_stun. destruct (Z.leb_spec padding 0); [lia|].
  destruct (Z.gtb_spec padding 20); [lia|]. destruct (Z.ltb_spec padding 20); [|lia].
  cbn -[Z.land Z.lnot be16 be32 lcg_step put firstn].
  change (0 - 0 >=? 12) with false. cbv beta iota. change (0 - 0 >=? 4) with false. cbv beta iota.
  do 2 (eapply fillsn_seq; [apply fillsn_skip| |reflexivity|reflexivity]).
  eapply fillsn_seq; [apply fillsn_put|apply fillsn_range_empty; lia|reflexivity|].
  rewrite len_take; [lia|]. autorewrite with awg; lia.
Qed.

(** *** The other formats, with the bytes stored *)

(** The DNS reply with an OPT record (RFC 6891): one question for the root,
    one additional record whose data runs to the end of the datagram. *)
Definition dns_opt_message (total padding t0 t1 : Z) : list Z :=
  [u8 t0; u8 t1; 0x81; 0x80] ++ be16 1 ++ be16 0 ++ be16 0 ++ be16 1 ++
  [0] ++ be16 1 ++ be16 1 ++
  [0] ++ be16 41 ++ be16 1232 ++ [0; 0; 0; 0] ++ be16 (total - 28) ++
  be16 0xFDE9 ++ be16 (total - 32) ++ replicate (Z.to_nat (padding - 32)) 0.

Lemma clamp_u16_small v : 0 <= v <= 0xFFFF -> clamp_u16 v = v.
Proof.
  intros. unfold clamp_u16. destruct (Z.ltb_spec v 0); [lia|]. destruct (Z.gtb_spec v 0xFFFF); [lia|].
  apply u16_small; lia.
Qed.

Lemma dns_opt_fills total padding t0 t1 : 32 <= padding <= total -> total <= 0xFFFF ->
  fills 0 (dns_opt_message total padding t0 t1) (write_dns_msg total padding t0 t1).
Proof.
  intros. unfold write_dns_msg. destruct (Z.ltb_spec padding 32); [lia|].
  unfold write_dns_opt_response. cbv zeta. rewrite !clamp_u16_small by lia.
  repeat (eapply fills_then; [apply fills_st| | |]);
    [apply fills_put_bytes; apply Forall_replicate; unfold is_byte; lia|fillsn_lia..].
Qed.

(** The first byte of a QUIC short header: form bit clear, fixed bit set, the
    reserved bits clear. *)
Definition quic_short_header (b : Z) : Prop := Z.land b 0xD8 = 0x40.

Lemma quic_fills padding seed : 0 < padding ->
  exists b body, quic_short_header b /\ len body = padding - 1 /\ all_bytes (b :: body) /\
    fills 0 (b :: body) (write_quic_short padding seed).
Proof.
  intros. unfold write_quic_short. destruct (Z.leb_spec padding 0); [lia|]. cbv zeta.
  set (spin := Z.land (u8 (Z.shiftr seed 8)) 1). set (kp := Z.land (u8 (Z.shiftr (lcg_step seed) 8)) 1).
  set (pn := Z.land _ 3).
  assert (spin = 0 \/ spin = 1) as Hs by (subst spin; rewrite Z.land_ones with (n := 1) by lia; lia).
  assert (kp = 0 \/ kp = 1) as Hk by (subst kp; rewrite Z.land_ones with (n := 1) by lia; lia).
  assert (pn = 0 \/ pn = 1 \/ pn = 2 \/ pn = 3) as Hn
    by (subst pn; rewrite Z.land_ones with (n := 2) by lia; lia).
  destruct (fillsn_quic_body (Z.to_nat (padding - 1)) 1 (lcg_step (lcg_step (lcg_step seed))))
    as (body & Hl & Hb & Hf).
  eexists _, body. split; [|split; [|split]]; [| |constructor; [apply is_byte_u8|done]|
    eapply fills_then; [apply fills_st|apply Hf|done|done]].
  - clearbody spin kp pn. destruct Hs as [-> | ->], Hk as [-> | ->], Hn as [-> | [-> | [-> | ->]]]; done.
  - lia.
Qed.

(** *** The SIP Content-Length *)

Lemma decimal_digits_fuel_spec f g v d : (f <= g)%nat -> 0 <= v < 10 ^ Z.of_nat (S f) ->
  decimal_digits_fuel f v d = d - 1 + len (dec_fuel g v).
Proof.
  revert g v d. induction f as [|f IH]; intros g v d Hg Hv; cbn [decimal_digits_fuel].
  { destruct g; cbn [dec_fuel]; [|destruct (Z.ltb_spec v 10); [|cbn in Hv; lia]];
      autorewrite with awg; lia. }
  destruct g as [|g]; [lia|]. cbn [dec_fuel].
  destruct (Z.geb_spec v 10), (Z.ltb_spec v 10); try lia; [|autorewrite with awg; lia].
  rewrite Nat2Z.inj_succ, Z.pow_succ_r in Hv by lia.
  rewrite (IH g) by lia. autorewrite with awg. lia.
Qed.

Lemma decimal_digits_fuel_ge f v d : d <= decimal_digits_fuel f v d.
Proof.
  revert v d. induction f as [|f IH]; intros v d; cbn [decimal_digits_fuel]; [lia|].
  destruct (v >=? 10); [|lia]. specialize (IH (v / 10) (d + 1)). lia.
Qed.

Lemma decimal_digits_len v : 0 <= v < 10 ^ 11 -> decimal_digits v = len (dec v).
Proof. intros. unfold decimal_digits, dec. rewrite (decimal_digits_fuel_spec 10 20) by (cbn; lia). lia. Qed.

Lemma sip_cl_digits_spec n digits sws pos length total e :
  sip_cl_digits n digits sws pos length total = Some e ->
  exists d, e = pos + 15 + sws + d + 4 /\ decimal_digits (total - e) = d /\ e <= length.
Proof.
  revert digits. induction n as [|n IH]; intros digits; cbn [sip_cl_digits]; [done|].
  destruct (Z.gtb_spec (pos + 15 + sws + digits + 4) length); [done|].
  destruct (Z.eqb_spec (decimal_digits (total - (pos + 15 + sws + digits + 4))) digits); [|apply IH].
  intros. simplify_eq. eauto.
Qed.

(** The value line with [sws] spaces. *)
Definition sip_cl_line (sws : nat) (value : Z) : list Z :=
  B "Content-Length:" ++ replicate sws SP ++ dec value ++ CRLF.

Lemma sip_content_length_line pos length total line :
  0 <= pos -> length <= total -> total <= 65535 ->
  sip_content_length pos length total = Some line ->
  exists sws value, (sws = 1 \/ sws = 2)%nat /\ line = sip_cl_line sws value /\
    0 <= value /\ value = total - (pos + len line + 2) /\ pos + len line + 2 <= length.
Proof.
  intros ? ? ?. unfold sip_content_length.
  assert (forall sws e, sip_cl_digits (Z.to_nat (decimal_digits total)) 1 (Z.of_nat sws) pos length total = Some e ->
    sdec (total - e) = dec (total - e) /\ 0 <= total - e /\ e <= length /\
    pos + len (sip_cl_line sws (total - e)) + 2 = e) as Hsub.
  { intros sws e (d & He & Hd & ?)%sip_cl_digits_spec.
    assert (sdec (total - e) = dec (total - e)) as -> by (unfold sdec; destruct (Z.ltb_spec (total - e) 0); [lia|done]).
    split; [done|]. split; [lia|]. split; [done|].
    pose proof (decimal_digits_fuel_ge 10 (total - e) 1).
    unfold sip_cl_line. autorewrite with awg. rewrite <- (decimal_digits_len (total - e)) by (unfold decimal_digits in Hd; lia).
    change (len (B "Content-Length:")) with 15. change (len CRLF) with 2. lia. }
  destruct (sip_cl_digits _ _ 1 _ _ _) as [e|] eqn:E1.
  { apply (Hsub 1%nat) in E1 as (-> & ? & ? & E). intros <-%(inj Some). exists 1%nat, (total - e).
    change (B "Content-Length: " ++ _) with (sip_cl_line 1 (total - e)). split; [auto|]. split; [done|]. lia. }
  destruct (sip_cl_digits _ _ 2 _ _ _) as [e|] eqn:E2; [|done].
  apply (Hsub 2%nat) in E2 as (-> & ? & ? & E). intros <-%(inj Some). exists 2%nat, (total - e).
  change (B "Content-Length:  " ++ _) with (sip_cl_line 2 (total - e)). split; [auto|]. split; [done|]. lia.
Qed.

(** ** Entry points *)

Definition random_ok (rnd : Z -> list Z) : Prop :=
  forall n, 0 <= n -> len (rnd n) = n /\ all_bytes (rnd n).

Lemma fillsn_frame padding payload f : fillsn 0 padding f ->
  exists l, len l = padding /\ all_bytes l /\
    forall pre, len pre = padding -> f (pre ++ payload) = Some (l ++ payload).
Proof.
  intros (l & Hl & Hb & Hf). exists l. split; [done|]. split; [done|]. intros pre Hpre.
  apply (Hf [] pre payload); [done|]. unfold len in *. lia.
Qed.

Lemma ld_app_r (pre payload : list Z) i : 0 <= i -> ld (pre ++ payload) (len pre + i) = ld payload i.
Proof.
  intros. unfold ld. rewrite lookup_app_r by (unfold len; lia).
  replace (Z.to_nat (len pre + i) - length pre)%nat with (Z.to_nat i) by (unfold len; lia).
  pose proof (len_nonneg pre).
  by destruct (Z.leb_spec 0 i), (Z.leb_spec 0 (len pre + i)); try lia.
Qed.

Lemma imitate_fill_prefix_writer total padding p payload : p <> IMITATE_NONE ->
  0 < padding < total -> total <= padding + len payload ->
  exists w, fillsn 0 padding w /\
    forall pre, len pre = padding -> imitate_fill_prefix total padding p (pre ++ payload) = w (pre ++ payload).
Proof.
  intros Hp ? ?.
  set (seed := imitate_fnv1a_seed (firstn (Z.to_nat (total - padding)) payload)).
  set (t0 := if total - padding >? 0 then default 0 (ld payload 0) else 0).
  set (t1 := if total - padding >? 1 then default 0 (ld payload 1) else 0).
  exists (match p with
          | IMITATE_QUIC => write_quic_short padding seed
          | IMITATE_DNS => write_dns_msg total padding t0 t1
          | IMITATE_STUN => write_stun padding seed
          | IMITATE_SIP => write_sip total padding seed
          | IMITATE_NONE => wskip end). split.
  { destruct p; [done|apply fillsn_quic|apply fillsn_dns|apply fillsn_stun|apply fillsn_sip]; lia. }
  intros pre Hpre. unfold imitate_fill_prefix. destruct (Z.eqb_spec padding 0); [lia|].
  destruct (Z.geb_spec padding total); [lia|]. cbn [orb]. rewrite len_app.
  destruct (Z.gtb_spec total (len pre + len payload)); [lia|].
  assert (skipn (Z.to_nat padding) (pre ++ payload) = payload) as ->.
  { rewrite <- Hpre. unfold len. by rewrite Nat2Z.id, drop_app_length. }
  destruct p; [done..| |done|done]. subst t0 t1.
  by rewrite <- (ld_app_r pre payload 0), <- (ld_app_r pre payload 1), Hpre, Z.add_0_r by lia.
Qed.

Lemma fillsn_fill_whole n seed p : p <> IMITATE_NONE -> 0 <= n -> fillsn 0 n (imitate_fill_whole n seed p).
Proof.
  intros Hp Hn. unfold imitate_fill_whole. destruct (Z.leb_spec n 0).
  { replace n with 0 by lia. apply fillsn_skip. }
  destruct p; [done|apply fillsn_quic|apply fillsn_dns|apply fillsn_stun|apply fillsn_sip]; done.
Qed.

Lemma fill_padding_frame proto rnd total padding payload :
  random_ok rnd -> 0 < padding < total -> total <= padding + len payload ->
  exists l, len l = padding /\ all_bytes l /\
    forall pre, len pre = padding ->
      wg_fill_padding proto rnd total padding (pre ++ payload) = Some (l ++ payload).
Proof.
  intros Hr Hp Ht. unfold wg_fill_padding. destruct (decide (proto = IMITATE_NONE)) as [|Hn].
  - destruct (Hr padding) as [Hl Hb]; [lia|]. apply fillsn_frame. rewrite <- Hl at 1. apply fillsn_put.
  - destruct (imitate_fill_prefix_writer total padding proto payload Hn Hp Ht) as (w & Hw & E).
    destruct (fillsn_frame padding payload w Hw) as (l & ? & ? & Hf). exists l.
    split; [done|]. split; [done|]. intros pre Hpre. rewrite E by done. by apply Hf.
Qed.

(** Filling the padding of an outgoing message is memory safe and exact
    for every protocol, also when none is configured: with a padding strictly
    inside a buffer of at least [total] bytes, [wg_fill_padding] stores a byte
    into every position of the padding, leaves the message that follows
    untouched, never accesses anything outside, and what it stores does not
    depend on the previous contents of the padding. *)
Theorem wg_fill_padding_frame proto rnd total padding payload :
  random_ok rnd -> 0 < padding < total -> total <= padding + len payload ->
  exists l, len l = padding /\ all_bytes l /\
    forall pre, len pre = padding ->
      wg_fill_padding proto rnd total padding (pre ++ payload) = Some (l ++ payload).
Proof. apply fill_padding_frame. Qed.

(** A source of random bytes for the witnesses. *)
Definition rnd_zero (n : Z) : list Z := replicate (Z.to_nat n) 0.

Lemma rnd_zero_ok : random_ok rnd_zero.
Proof.
  intros n Hn. split; [unfold rnd_zero; rewrite len_replicate; lia|].
  apply Forall_replicate. unfold is_byte. lia.
Qed.

Lemma wg_fill_padding_frame_witness :
  exists l, len l = 45 /\ all_bytes l /\
    forall pre, len pre = 45 ->
      wg_fill_padding IMITATE_SIP rnd_zero 49 45 (pre ++ [1; 2; 3; 4]) = Some (l ++ [1; 2; 3; 4]).
Proof. apply (wg_fill_padding_frame _ _ 49 45 [1; 2; 3; 4] rnd_zero_ok); unfold len; cbn; lia. Defined.

(** A junk packet is filled completely: whatever the protocol and the
    junk counter, [wg_fill_junk] on a packet of its own length stores every
    byte, independently of what the allocation held, and advances the
    device's counter exactly when an imitation seed was drawn from it. *)
Theorem wg_fill_junk_fills proto rnd counter length :
  random_ok rnd -> 0 <= length ->
  let '(w, counter') := wg_fill_junk proto rnd counter length in
  (exists l, len l = length /\ all_bytes l /\ forall m, len m = length -> w m = Some l) /\
  counter' = (if decide (proto = IMITATE_NONE) then counter else u64 (counter + 1)).
Proof.
  intros Hr Hl. unfold wg_fill_junk.
  assert (forall w, fillsn 0 length w -> exists l, len l = length /\ all_bytes l /\
    forall m, len m = length -> w m = Some l) as Hfr.
  { intros w (l & ? & ? & Hf)%(fillsn_frame _ []). exists l. rewrite app_nil_r in Hf.
    split; [done|]. split; [done|]. intros m Hm. rewrite <- (app_nil_r m). auto. }
  destruct (decide (proto = IMITATE_NONE)).
  - split; [|done]. apply Hfr. destruct (Hr length) as [E _]; [done|]. rewrite <- E at 1. apply fillsn_put.
  - split; [|done]. apply Hfr. by apply fillsn_fill_whole.
Qed.

Lemma wg_fill_junk_fills_witness :
  let '(w, counter') := wg_fill_junk IMITATE_DNS rnd_zero 7 40 in
  (exists l, len l = 40 /\ all_bytes l /\ forall m, len m = 40 -> w m = Some l) /\ counter' = 8.
Proof. apply (wg_fill_junk_fills IMITATE_DNS rnd_zero 7 40 rnd_zero_ok). lia. Defined.

(** A STUN filler of at least a header is a message its receiver can
    parse: the header announces the length of the attributes that follow, a
    multiple of four; reading the attributes by type and length covers them
    exactly; zeros follow up to the end of the padding. *)
Theorem write_stun_parses padding seed pre payload : 20 <= padding -> len pre = padding ->
  exists l, stun_message padding l /\ write_stun padding seed (pre ++ payload) = Some (l ++ payload).
Proof.
  intros Hp Hpre. destruct (stun_fills padding seed Hp) as (l & Hm & _ & Hf). exists l. split; [done|].
  apply (Hf [] pre payload eq_refl). pose proof (stun_message_len _ _ Hm). unfold len in *. lia.
Qed.

Lemma write_stun_parses_witness :
  exists l, stun_message 70 l /\
    write_stun 70 12345 (replicate 70 9 ++ [1; 2]) = Some (l ++ [1; 2]).
Proof. apply (write_stun_parses 70 12345 (replicate 70 9) [1; 2]); [lia|reflexivity]. Defined.

(** The DNS filler with an OPT record is the header of a message that
    spans the whole datagram: the record's RDLENGTH counts the bytes from the
    option to the end of the datagram and the option's length those after its
    own header, so the real packet is the option's data. *)
Theorem write_dns_spans_datagram total padding t0 t1 pre payload :
  32 <= padding <= total -> total <= 0xFFFF -> len pre = padding -> len payload = total - padding ->
  write_dns_msg total padding t0 t1 (pre ++ payload) = Some (dns_opt_message total padding t0 t1 ++ payload) /\
  len (dns_opt_message total padding t0 t1 ++ payload) = 28 + (total - 28) /\
  drop 28 (dns_opt_message total padding t0 t1 ++ payload) =
    be16 0xFDE9 ++ be16 (total - 32) ++ replicate (Z.to_nat (padding - 32)) 0 ++ payload.
Proof.
  intros ? ? Hpre Hpay.
  assert (len (dns_opt_message total padding t0 t1) = padding) as Hl.
  { unfold dns_opt_message. autorewrite with awg. lia. }
  split; [|split; [rewrite len_app; lia|]].
  - apply (dns_opt_fills total padding t0 t1 ltac:(lia) ltac:(lia) [] pre payload eq_refl).
    unfold len in *. lia.
  - unfold dns_opt_message. rewrite <- !app_assoc. done.
Qed.

Lemma write_dns_spans_datagram_witness :
  write_dns_msg 42 40 7 9 (replicate 40 5 ++ [1; 2]) = Some (dns_opt_message 42 40 7 9 ++ [1; 2]) /\
  len (dns_opt_message 42 40 7 9 ++ [1; 2]) = 42 /\
  drop 28 (dns_opt_message 42 40 7 9 ++ [1; 2]) =
    be16 0xFDE9 ++ be16 10 ++ replicate (Z.to_nat 8) 0 ++ [1; 2].
Proof. apply (write_dns_spans_datagram 42 40 7 9 (replicate 40 5) [1; 2]); [lia|lia|reflexivity..]. Defined.

(** The Content-Length of a SIP filler is consistent.  Whenever the
    search over digit counts finds a line for a datagram of [total] bytes, the
    line fits with the closing blank line, it is stored without truncation,
    and its value is the number of bytes of the datagram after the blank
    line. *)
Theorem sip_content_length_consistent pos length total line :
  0 <= pos -> length <= total -> total <= 65535 ->
  sip_content_length pos length total = Some line ->
  exists sws value, line = sip_cl_line sws value /\
    value = total - (pos + len line + len CRLF) /\
    sip_putline pos length (scnprintf SIP_TMP line) = (true, put pos line, pos + len line).
Proof.
  intros Hp Hl Ht (sws & value & Hs & Eline & Hv & Ev & Hfit)%sip_content_length_line; [|done..].
  exists sws, value. split; [done|]. split; [done|]. unfold sip_putline, scnprintf.
  assert (len line <= 30).
  { rewrite Eline. unfold sip_cl_line. autorewrite with awg.
    change (len (B "Content-Length:")) with 15. change (len CRLF) with 2.
    assert (len (dec value) <= 5); [|lia]. pose proof (len_nonneg line).
    unfold len, dec. rewrite <- (dec_fuel_more 4) by (cbn; lia).
    pose proof (dec_fuel_length 4 value). cbn in *. lia. }
  rewrite firstn_all2 by (unfold len, SIP_TMP in *; lia).
  destruct (Z.leb_spec (pos + len line + 2) length); [done|lia].
Qed.

Lemma sip_content_length_consistent_witness :
  exists sws value, B "Content-Length: 178" ++ CRLF = sip_cl_line sws value /\
    value = 500 - (299 + len (B "Content-Length: 178" ++ CRLF) + len CRLF) /\
    sip_putline 299 400 (scnprintf SIP_TMP (B "Content-Length: 178" ++ CRLF)) =
      (true, put 299 (B "Content-Length: 178" ++ CRLF), 299 + len (B "Content-Length: 178" ++ CRLF)).
Proof.
  apply (sip_content_length_consistent 299 400 500); [lia..|vm_compute; reflexivity].
Defined.

(** Every QUIC filler starts with the first byte of a short header: form
    bit clear, fixed bit set, reserved bits clear. *)
Theorem write_quic_short_header padding seed pre payload : 0 < padding -> len pre = padding ->
  exists b body, quic_short_header b /\
    write_quic_short padding seed (pre ++ payload) = Some (b :: body ++ payload).
Proof.
  intros Hp Hpre. destruct (quic_fills padding seed Hp) as (b & body & ? & Hl & _ & Hf).
  exists b, body. split; [done|]. apply (Hf [] pre payload eq_refl). unfold len in *. cbn. lia.
Qed.

Lemma write_quic_short_header_witness :
  exists b body, quic_short_header b /\
    write_quic_short 4 99 ([0; 0; 0; 0] ++ [1]) = Some (b :: body ++ [1]).
Proof. apply (write_quic_short_header 4 99 [0; 0; 0; 0] [1]); [lia|reflexivity]. Defined.

Lemma imitate_proto_name_parse p : imitate_proto_parse (Some (imitate_proto_name p)) = p.
Proof. by destruct p. Qed.
