(* ===== verification/Sha256.v ===== *)
(** * SHA-256 ([src/crypto/sha256.c], [src/crypto/sha256.h])

    The hash behind the key derivation of the imitated QUIC Initial.  The
    streaming context keeps a 64-byte buffer as the code does; [sha256_init]
    does not initialise that buffer, so the theorems hold for any contents of
    it.  The main theorem: any sequence of updates followed by the final step
    computes the one-shot FIPS 180-4 definition. *)

From S2P Require Import Prelude Words.

Definition SHA256_DIGEST_LEN : Z := 32.
Definition SHA256_BLOCK_LEN : Z := 64.

(** The round constants and initial values, transcribed from the tables of the
    source (FIPS 180-4, sections 4.2.2 and 5.3.3). *)
Definition K : list Z :=
  [0x428a_2f98; 0x7137_4491; 0xb5c0_fbcf; 0xe9b5_dba5;
   0x3956_c25b; 0x59f1_11f1; 0x923f_82a4; 0xab1c_5ed5;
   0xd807_aa98; 0x1283_5b01; 0x2431_85be; 0x550c_7dc3;
   0x72be_5d74; 0x80de_b1fe; 0x9bdc_06a7; 0xc19b_f174;
   0xe49b_69c1; 0xefbe_4786; 0x0fc1_9dc6; 0x240c_a1cc;
   0x2de9_2c6f; 0x4a74_84aa; 0x5cb0_a9dc; 0x76f9_88da;
   0x983e_5152; 0xa831_c66d; 0xb003_27c8; 0xbf59_7fc7;
   0xc6e0_0bf3; 0xd5a7_9147; 0x06ca_6351; 0x1429_2967;
   0x27b7_0a85; 0x2e1b_2138; 0x4d2c_6dfc; 0x5338_0d13;
   0x650a_7354; 0x766a_0abb; 0x81c2_c92e; 0x9272_2c85;
   0xa2bf_e8a1; 0xa81a_664b; 0xc24b_8b70; 0xc76c_51a3;
   0xd192_e819; 0xd699_0624; 0xf40e_3585; 0x106a_a070;
   0x19a4_c116; 0x1e37_6c08; 0x2748_774c; 0x34b0_bcb5;
   0x391c_0cb3; 0x4ed8_aa4a; 0x5b9c_ca4f; 0x682e_6ff3;
   0x748f_82ee; 0x78a5_636f; 0x84c8_7814; 0x8cc7_0208;
   0x90be_fffa; 0xa450_6ceb; 0xbef9_a3f7; 0xc671_78f2].

Definition H0 : list Z :=
  [0x6a09_e667; 0xbb67_ae85; 0x3c6e_f372; 0xa54f_f53a;
   0x510e_527f; 0x9b05_688c; 0x1f83_d9ab; 0x5be0_cd19].

Definition rotr32 (x n : Z) : Z := Z.lor (Z.shiftr x n) (u32 (Z.shiftl x (32 - n))).
Definition ch (e f g : Z) : Z := Z.lxor (Z.land e f) (Z.land (Z.lnot e) g).
Definition maj (a b c : Z) : Z := Z.lxor (Z.lxor (Z.land a b) (Z.land a c)) (Z.land b c).
Definition bsig0 (x : Z) : Z := Z.lxor (Z.lxor (rotr32 x 2) (rotr32 x 13)) (rotr32 x 22).
Definition bsig1 (x : Z) : Z := Z.lxor (Z.lxor (rotr32 x 6) (rotr32 x 11)) (rotr32 x 25).
Definition ssig0 (x : Z) : Z := Z.lxor (Z.lxor (rotr32 x 7) (rotr32 x 18)) (Z.shiftr x 3).
Definition ssig1 (x : Z) : Z := Z.lxor (Z.lxor (rotr32 x 17) (rotr32 x 19)) (Z.shiftr x 10).

(** [load_be32(p)] of the bytes at [p]. *)
Definition load_be32 (p : list Z) : Z :=
  match p with
  | p0 :: p1 :: p2 :: p3 :: _ =>
      Z.lor (Z.lor (Z.lor (Z.shiftl p0 24) (Z.shiftl p1 16)) (Z.shiftl p2 8)) p3
  | _ => 0
  end.

Definition store_be32 (v : Z) : list Z :=
  [u8 (Z.shiftr v 24); u8 (Z.shiftr v 16); u8 (Z.shiftr v 8); u8 v].

Definition store_be64 (v : Z) : list Z :=
  [u8 (Z.shiftr v 56); u8 (Z.shiftr v 48); u8 (Z.shiftr v 40); u8 (Z.shiftr v 32);
   u8 (Z.shiftr v 24); u8 (Z.shiftr v 16); u8 (Z.shiftr v 8); u8 v].

(** [for (i = 0; i < n; i++) w[i] = load_be32(block + 4 * i)] *)
Fixpoint load_words (n : nat) (block : list Z) : list Z :=
  match n with
  | O => []
  | S n' => load_be32 block :: load_words n' (skipn 4 block)
  end.

(** [for (; i < 64; i++) w[i] = ...], [w] being the words so far. *)
Fixpoint schedule (n : nat) (w : list Z) : list Z :=
  match n with
  | O => w
  | S n' =>
      let i := length w in
      let at_ k := nth (i - k) w 0 in
      schedule n' (w ++ [u32 (ssig1 (at_ 2%nat) + at_ 7%nat + ssig0 (at_ 15%nat) + at_ 16%nat)])
  end.

Record work := Work { wa : Z; wb : Z; wc : Z; wd : Z; we : Z; wf : Z; wg : Z; wh : Z }.

Definition sha_round (s : work) (kw : Z * Z) : work :=
  let '(k, w) := kw in
  let t1 := u32 (wh s + bsig1 (we s) + ch (we s) (wf s) (wg s) + k + w) in
  let t2 := u32 (bsig0 (wa s) + maj (wa s) (wb s) (wc s)) in
  Work (u32 (t1 + t2)) (wa s) (wb s) (wc s) (u32 (wd s + t1)) (we s) (wf s) (wg s).

(** [sha256_compress(ctx, block)] on the chaining value [ctx->h]. *)
Definition sha256_compress (h block : list Z) : list Z :=
  let w := schedule 48 (load_words 16 block) in
  let g k := nth k h 0 in
  let s := fold_left sha_round (combine K w)
             (Work (g 0%nat) (g 1%nat) (g 2%nat) (g 3%nat) (g 4%nat) (g 5%nat) (g 6%nat) (g 7%nat)) in
  [u32 (g 0%nat + wa s); u32 (g 1%nat + wb s); u32 (g 2%nat + wc s); u32 (g 3%nat + wd s);
   u32 (g 4%nat + we s); u32 (g 5%nat + wf s); u32 (g 6%nat + wg s); u32 (g 7%nat + wh s)].

(** [struct sha256_ctx] *)
Record sha256_ctx := Sha256Ctx { ctx_h : list Z; ctx_len : Z; ctx_buf : list Z; ctx_buflen : Z }.

(** [ctx] is the caller's uninitialised structure. *)
Definition sha256_init (ctx : sha256_ctx) : sha256_ctx := Sha256Ctx H0 0 (ctx_buf ctx) 0.

Fixpoint update_loop (fuel : nat) (ctx : sha256_ctx) (data : list Z) : sha256_ctx :=
  match fuel with
  | O => ctx
  | S f =>
      if len data >? 0 then
        let left := SHA256_BLOCK_LEN - ctx_buflen ctx in
        if len data <? left then
          Sha256Ctx (ctx_h ctx) (ctx_len ctx) (buf_set (ctx_buf ctx) (ctx_buflen ctx) data)
                    (ctx_buflen ctx + len data)
        else
          let buf := buf_set (ctx_buf ctx) (ctx_buflen ctx) (firstn (Z.to_nat left) data) in
          let ctx := Sha256Ctx (sha256_compress (ctx_h ctx) buf) (ctx_len ctx) buf 0 in
          update_loop f ctx (skipn (Z.to_nat left) data)
      else ctx
  end.

(** Every round consumes at least one byte, so [length data] rounds are enough. *)
Definition sha256_update (ctx : sha256_ctx) (data : list Z) : sha256_ctx :=
  update_loop (length data)
    (Sha256Ctx (ctx_h ctx) (u64 (ctx_len ctx + len data)) (ctx_buf ctx) (ctx_buflen ctx)) data.

Definition sha256_final (ctx : sha256_ctx) : list Z :=
  let bitlen := u64 (ctx_len ctx * 8) in
  let buf := buf_set (ctx_buf ctx) (ctx_buflen ctx) [0x80] in
  let buflen := ctx_buflen ctx + 1 in
  let '(h, buf, buflen) :=
    if buflen >? 56 then
      let buf := buf_set buf buflen (repeat 0 (Z.to_nat (SHA256_BLOCK_LEN - buflen))) in
      (sha256_compress (ctx_h ctx) buf, buf, 0)
    else (ctx_h ctx, buf, buflen) in
  let buf := buf_set buf buflen (repeat 0 (Z.to_nat (56 - buflen))) in
  let buf := buf_set buf 56 (store_be64 bitlen) in
  let h := sha256_compress h buf in
  concat (map store_be32 h).

(** [sha256(data, len, out)]; [ctx] is its uninitialised local. *)
Definition sha256 (ctx : sha256_ctx) (data : list Z) : list Z :=
  sha256_final (sha256_update (sha256_init ctx) data).

(** ** The FIPS 180-4 definition *)

(** Section 5.1.1: one bit, zeros, and the length in bits. *)
Definition sha256_pad (m : list Z) : list Z :=
  m ++ [0x80] ++ repeat 0 (Z.to_nat ((55 - len m) mod 64)) ++ store_be64 (u64 (len m * 8)).

(** Section 6.2.2: the chaining value after the first [n] blocks. *)
Fixpoint hash_blocks (n : nat) (h l : list Z) : list Z :=
  match n with
  | O => h
  | S n' => hash_blocks n' (sha256_compress h (firstn 64 l)) (skipn 64 l)
  end.

Definition sha256_spec (m : list Z) : list Z :=
  concat (map store_be32 (hash_blocks (length (sha256_pad m) / 64) H0 (sha256_pad m))).

(** ** The context represents the bytes hashed so far *)

Lemma hash_blocks_app n h full blk : length full = (64 * n)%nat -> length blk = 64%nat ->
  hash_blocks (S n) h (full ++ blk) = sha256_compress (hash_blocks n h full) blk.
Proof.
  revert h full. induction n as [|n IH]; intros h full Hf Hb.
  - destruct full; [|done]. cbn -[sha256_compress]. by rewrite firstn_all2 by lia.
  - change (hash_blocks (S (S n)) h (full ++ blk)) with
      (hash_blocks (S n) (sha256_compress h (firstn 64 (full ++ blk))) (skipn 64 (full ++ blk))).
    rewrite take_app_le, drop_app_le by lia. rewrite IH by (rewrite ?length_drop; lia). done.
Qed.

(** [m] splits into the blocks already compressed and the buffered rest. *)
Definition repr (ctx : sha256_ctx) (m : list Z) : Prop :=
  exists n full part, m = full ++ part /\ length full = (64 * n)%nat /\
    len part = ctx_buflen ctx /\ ctx_buflen ctx < 64 /\ length (ctx_buf ctx) = 64%nat /\
    ctx_h ctx = hash_blocks n H0 full /\ firstn (Z.to_nat (ctx_buflen ctx)) (ctx_buf ctx) = part.

Lemma repr_init ctx : length (ctx_buf ctx) = 64%nat -> repr (sha256_init ctx) [].
Proof. intros. exists O, [], []. repeat split; done. Qed.

(** Filling the buffer up to the block boundary compresses one more block. *)
Lemma repr_block ctx m data : repr ctx m -> ctx_buflen ctx + len data = 64 ->
  repr (Sha256Ctx (sha256_compress (ctx_h ctx) (buf_set (ctx_buf ctx) (ctx_buflen ctx) data))
          (ctx_len ctx) (buf_set (ctx_buf ctx) (ctx_buflen ctx) data) 0) (m ++ data).
Proof.
  intros (n & full & part & -> & Hf & Hp & Hlt & Hb & Hh & Ht) Hd.
  pose proof (len_nonneg part).
  assert (len (ctx_buf ctx) = 64) by (unfold len; lia).
  assert (length (buf_set (ctx_buf ctx) (ctx_buflen ctx) data) = 64%nat) as HL
    by (rewrite buf_set_length; lia).
  assert (buf_set (ctx_buf ctx) (ctx_buflen ctx) data = part ++ data) as HB.
  { pose proof (buf_set_take (ctx_buf ctx) (ctx_buflen ctx) data) as E.
    rewrite Ht, Hd, firstn_all2 in E by lia. apply E; lia. }
  exists (S n), (full ++ part ++ data), []. rewrite app_nil_r, app_assoc. cbn [ctx_h ctx_buf ctx_buflen].
  rewrite HB in *. repeat split; try done.
  - rewrite <- app_assoc, length_app. lia.
  - rewrite <- app_assoc, hash_blocks_app, Hh by done. done.
Qed.

Lemma update_loop_repr f ctx m data : (length data <= f)%nat -> repr ctx m ->
  repr (update_loop f ctx data) (m ++ data).
Proof.
  revert ctx m data. induction f as [|f IH]; intros ctx m data Hf Hr; cbn [update_loop].
  { destruct data; [|cbn in Hf; lia]. by rewrite app_nil_r. }
  destruct (Z.gtb_spec (len data) 0) as [Hd|Hd].
  2:{ destruct data; [|rewrite len_cons in Hd; pose proof (len_nonneg data); lia]. by rewrite app_nil_r. }
  unfold SHA256_BLOCK_LEN. pose proof Hr as (n & full & part & -> & Hfl & Hp & Hlt & Hb & Hh & Ht).
  pose proof (len_nonneg part).
  destruct (Z.ltb_spec (len data) (64 - ctx_buflen ctx)).
  - exists n, full, (part ++ data). rewrite <- app_assoc. cbn [ctx_h ctx_buf ctx_buflen].
    assert (len (ctx_buf ctx) = 64) by (unfold len; lia).
    rewrite buf_set_length, buf_set_take, Ht, len_app by lia. repeat split; (done || lia).
  - set (k := Z.to_nat (64 - ctx_buflen ctx)).
    replace ((full ++ part) ++ data) with (((full ++ part) ++ firstn k data) ++ skipn k data)
      by (by rewrite <- (app_assoc (full ++ part)), firstn_skipn).
    apply IH; [rewrite length_skipn; unfold len in *; lia|].
    apply repr_block; [done|]. subst k. rewrite len_take; lia.
Qed.

Lemma update_loop_len f ctx data : ctx_len (update_loop f ctx data) = ctx_len ctx.
Proof.
  revert ctx data. induction f as [|f IH]; intros; cbn [update_loop]; [done|].
  repeat case_match; try done. by rewrite IH.
Qed.

Lemma sha256_update_repr ctx m data : repr ctx m -> ctx_len ctx = u64 (len m) ->
  repr (sha256_update ctx data) (m ++ data) /\ ctx_len (sha256_update ctx data) = u64 (len (m ++ data)).
Proof.
  intros Hr Hl. unfold sha256_update. split; [by apply update_loop_repr|].
  rewrite update_loop_len, len_app. cbn [ctx_len]. rewrite Hl. unfold u64.
  by rewrite Zplus_mod_idemp_l.
Qed.

(** ** The final step *)

Lemma repr_full ctx m : repr ctx m -> ctx_buflen ctx = 0 -> ctx_h ctx = hash_blocks (length m / 64) H0 m.
Proof.
  intros (n & full & part & -> & Hf & Hp & _ & _ & Hh & _) E. rewrite E in Hp.
  destruct part as [|x part]; [|rewrite len_cons in Hp; pose proof (len_nonneg part); lia].
  rewrite app_nil_r, Hh, Hf, Nat.mul_comm, Nat.div_mul by lia. done.
Qed.

Lemma repr_mod ctx m : repr ctx m -> 0 <= ctx_buflen ctx < 64 /\ len m mod 64 = ctx_buflen ctx /\
  len (ctx_buf ctx) = 64.
Proof.
  intros (n & full & part & -> & Hf & Hp & ? & ? & _). pose proof (len_nonneg part).
  rewrite len_app. unfold len in *. split; [lia|]. split; lia.
Qed.

Lemma len_repeat {A} (x : A) n : len (repeat x n) = Z.of_nat n.
Proof. unfold len. by rewrite repeat_length. Qed.
#[local] Hint Rewrite @len_repeat : awg.

Lemma len_store_be64 v : len (store_be64 v) = 8.
Proof. done. Qed.
#[local] Hint Rewrite len_store_be64 : awg.

(** The chaining value once [data] completes the buffered block. *)
Lemma compress_full ctx m data : repr ctx m -> ctx_buflen ctx + len data = 64 ->
  sha256_compress (ctx_h ctx) (buf_set (ctx_buf ctx) (ctx_buflen ctx) data) =
  hash_blocks (length (m ++ data) / 64) H0 (m ++ data).
Proof. intros Hr Hd. exact (repr_full _ _ (repr_block ctx m data Hr Hd) eq_refl). Qed.

Lemma sha256_final_spec ctx m : repr ctx m -> ctx_len ctx = u64 (len m) ->
  sha256_final ctx = sha256_spec m.
Proof.
  intros Hr Hl. pose proof (repr_mod _ _ Hr) as (Hp & Hm & Hb). unfold sha256_final, sha256_spec.
  assert (u64 (ctx_len ctx * 8) = u64 (len m * 8)) as ->.
  { rewrite Hl. unfold u64. by rewrite Zmult_mod_idemp_l. }
  unfold sha256_pad, SHA256_BLOCK_LEN. set (p := ctx_buflen ctx) in *.
  set (bits := store_be64 _). assert (len bits = 8) by done.
  assert (forall z, p + 1 + len z <= 64 ->
    buf_set (buf_set (ctx_buf ctx) p [0x80]) (p + 1) z = buf_set (ctx_buf ctx) p ([0x80] ++ z)) as Hset.
  { intros z Hz. apply (buf_set_app _ p [0x80] z); [lia|]. rewrite len_cons, len_nil. lia. }
  destruct (Z.gtb_spec (p + 1) 56).
  - rewrite Hset by (autorewrite with awg; lia).
    set (d1 := [0x80] ++ repeat 0 (Z.to_nat (64 - (p + 1)))).
    assert (repr (Sha256Ctx (sha256_compress (ctx_h ctx) (buf_set (ctx_buf ctx) p d1)) 0
                    (buf_set (ctx_buf ctx) p d1) 0) (m ++ d1)) as Hr1.
    { apply (repr_block (Sha256Ctx (ctx_h ctx) 0 (ctx_buf ctx) p) _ d1); [done|]. cbn [ctx_buflen]. unfold d1. autorewrite with awg. lia. }
    replace (buf_set (buf_set _ 0 _) 56 bits) with
      (buf_set (buf_set (ctx_buf ctx) p d1) 0 (repeat 0 56 ++ bits)).
    2:{ symmetry. apply (buf_set_app _ 0 (repeat 0 56) bits); [lia|].
        apply repr_mod in Hr1 as (_ & _ & E). cbn [ctx_buf] in E. rewrite E. autorewrite with awg. lia. }
    pose proof (compress_full _ _ (repeat 0 56 ++ bits) Hr1 eq_refl) as E.
    cbn [ctx_h ctx_buf ctx_buflen] in E. rewrite E. clear E.
    replace (m ++ [0x80] ++ _ ++ bits) with ((m ++ d1) ++ repeat 0 56 ++ bits); [done|].
    replace ((55 - len m) mod 64) with ((64 - (p + 1)) + 56) by lia.
    unfold d1. rewrite Z2Nat.inj_add, repeat_app, <- !app_assoc by lia. done.
  - rewrite Hset by (autorewrite with awg; lia).
    set (d1 := [0x80] ++ repeat 0 (Z.to_nat (56 - (p + 1)))).
    assert (len d1 = 56 - p) by (unfold d1; autorewrite with awg; lia).
    replace 56 with (p + len d1) at 1 by lia. rewrite buf_set_app by lia.
    pose proof (compress_full _ _ (d1 ++ bits) Hr) as E. fold p in E.
    rewrite E by (rewrite len_app; lia).
    unfold d1. replace ((55 - len m) mod 64) with (56 - (p + 1)) by lia. by rewrite <- !app_assoc.
Qed.

Lemma updates_repr chunks ctx m : repr ctx m -> ctx_len ctx = u64 (len m) ->
  repr (fold_left sha256_update chunks ctx) (m ++ concat chunks) /\
  ctx_len (fold_left sha256_update chunks ctx) = u64 (len (m ++ concat chunks)).
Proof.
  revert ctx m. induction chunks as [|c chunks IH]; intros ctx m Hr Hl; cbn [fold_left concat].
  { by rewrite app_nil_r. }
  destruct (sha256_update_repr ctx m c Hr Hl). rewrite app_assoc. by apply IH.
Qed.

Lemma hash_blocks_length n h l : length h = 8%nat -> length (hash_blocks n h l) = 8%nat.
Proof. revert h l. induction n as [|n IH]; intros h l Hh; cbn [hash_blocks]; [done|by apply IH]. Qed.

Lemma sha256_spec_digest m : len (sha256_spec m) = SHA256_DIGEST_LEN /\ all_bytes (sha256_spec m).
Proof.
  unfold sha256_spec.
  pose proof (hash_blocks_length (length (sha256_pad m) / 64) H0 (sha256_pad m) eq_refl) as Hl.
  destruct (hash_blocks _ _ _) as [|h0 [|h1 [|h2 [|h3 [|h4 [|h5 [|h6 [|h7 [|]]]]]]]]]; try done.
  split; [done|]. cbn. repeat (constructor; [apply is_byte_u8|]). constructor.
Qed.

(** The streaming hash computes SHA-256.  Whatever the stack garbage in
    the context's buffer and however the message is cut into updates, the
    final digest is the FIPS 180-4 function of the concatenation: 32 bytes
    from the padded message's blocks. *)
Theorem sha256_streaming ctx chunks : length (ctx_buf ctx) = 64%nat ->
  sha256_final (fold_left sha256_update chunks (sha256_init ctx)) = sha256_spec (concat chunks) /\
  len (sha256_spec (concat chunks)) = SHA256_DIGEST_LEN /\ all_bytes (sha256_spec (concat chunks)).
Proof.
  intros Hb. split; [|apply sha256_spec_digest].
  destruct (updates_repr chunks (sha256_init ctx) []); [by apply repr_init|done|].
  by apply sha256_final_spec.
Qed.

Lemma sha256_streaming_witness :
  let ctx := Sha256Ctx [] 7 (repeat 0xAA 64) 3 in
  sha256_final (fold_left sha256_update [B "a"; []; B "bc"] (sha256_init ctx)) =
    sha256_spec (concat [B "a"; []; B "bc"]) /\
  len (sha256_spec (concat [B "a"; []; B "bc"])) = 32 /\
  all_bytes (sha256_spec (concat [B "a"; []; B "bc"])).
Proof. apply sha256_streaming. reflexivity. Defined.

(** FIPS 180-4 example: the digest of "abc". *)
Example sha256_abc :
  sha256 (Sha256Ctx [] 0 (repeat 0 64) 0) (B "abc") =
  concat (map store_be32 [0xba7816bf; 0x8f01cfea; 0x414140de; 0x5dae2223;
                          0xb00361a3; 0x96177a9c; 0xb410ff61; 0xf20015ad]).
Proof. vm_compute. reflexivity. Qed.

Lemma sha256_eq ctx data : length (ctx_buf ctx) = 64%nat -> sha256 ctx data = sha256_spec data.
Proof.
  intros Hb. destruct (sha256_update_repr (sha256_init ctx) [] data); [by apply repr_init|done|].
  unfold sha256. by rewrite (sha256_final_spec _ data).
Qed.
