(* ===== verification/Aes.v ===== *)
(** * AES-128 block encryption ([src/crypto/aes.c], [src/crypto/aes.h])

    The cipher of the imitated QUIC Initial.  The state is the flat
    column-major array of the code.  The main theorem: the table-driven rounds
    compute the FIPS 197 cipher, whose SubBytes and MixColumns are defined by
    arithmetic in GF(2^8). *)

From S2P Require Import Prelude Sha256.

Definition sbox : list Z :=
  [0x63; 0x7c; 0x77; 0x7b; 0xf2; 0x6b; 0x6f; 0xc5; 0x30; 0x01; 0x67; 0x2b; 0xfe; 0xd7; 0xab; 0x76;
   0xca; 0x82; 0xc9; 0x7d; 0xfa; 0x59; 0x47; 0xf0; 0xad; 0xd4; 0xa2; 0xaf; 0x9c; 0xa4; 0x72; 0xc0;
   0xb7; 0xfd; 0x93; 0x26; 0x36; 0x3f; 0xf7; 0xcc; 0x34; 0xa5; 0xe5; 0xf1; 0x71; 0xd8; 0x31; 0x15;
   0x04; 0xc7; 0x23; 0xc3; 0x18; 0x96; 0x05; 0x9a; 0x07; 0x12; 0x80; 0xe2; 0xeb; 0x27; 0xb2; 0x75;
   0x09; 0x83; 0x2c; 0x1a; 0x1b; 0x6e; 0x5a; 0xa0; 0x52; 0x3b; 0xd6; 0xb3; 0x29; 0xe3; 0x2f; 0x84;
   0x53; 0xd1; 0x00; 0xed; 0x20; 0xfc; 0xb1; 0x5b; 0x6a; 0xcb; 0xbe; 0x39; 0x4a; 0x4c; 0x58; 0xcf;
   0xd0; 0xef; 0xaa; 0xfb; 0x43; 0x4d; 0x33; 0x85; 0x45; 0xf9; 0x02; 0x7f; 0x50; 0x3c; 0x9f; 0xa8;
   0x51; 0xa3; 0x40; 0x8f; 0x92; 0x9d; 0x38; 0xf5; 0xbc; 0xb6; 0xda; 0x21; 0x10; 0xff; 0xf3; 0xd2;
   0xcd; 0x0c; 0x13; 0xec; 0x5f; 0x97; 0x44; 0x17; 0xc4; 0xa7; 0x7e; 0x3d; 0x64; 0x5d; 0x19; 0x73;
   0x60; 0x81; 0x4f; 0xdc; 0x22; 0x2a; 0x90; 0x88; 0x46; 0xee; 0xb8; 0x14; 0xde; 0x5e; 0x0b; 0xdb;
   0xe0; 0x32; 0x3a; 0x0a; 0x49; 0x06; 0x24; 0x5c; 0xc2; 0xd3; 0xac; 0x62; 0x91; 0x95; 0xe4; 0x79;
   0xe7; 0xc8; 0x37; 0x6d; 0x8d; 0xd5; 0x4e; 0xa9; 0x6c; 0x56; 0xf4; 0xea; 0x65; 0x7a; 0xae; 0x08;
   0xba; 0x78; 0x25; 0x2e; 0x1c; 0xa6; 0xb4; 0xc6; 0xe8; 0xdd; 0x74; 0x1f; 0x4b; 0xbd; 0x8b; 0x8a;
   0x70; 0x3e; 0xb5; 0x66; 0x48; 0x03; 0xf6; 0x0e; 0x61; 0x35; 0x57; 0xb9; 0x86; 0xc1; 0x1d; 0x9e;
   0xe1; 0xf8; 0x98; 0x11; 0x69; 0xd9; 0x8e; 0x94; 0x9b; 0x1e; 0x87; 0xe9; 0xce; 0x55; 0x28; 0xdf;
   0x8c; 0xa1; 0x89; 0x0d; 0xbf; 0xe6; 0x42; 0x68; 0x41; 0x99; 0x2d; 0x0f; 0xb0; 0x54; 0xbb; 0x16].

Definition rcon : list Z :=
  [0x01; 0x02; 0x04; 0x08; 0x10; 0x20; 0x40; 0x80; 0x1b; 0x36].

Definition sbox_at (b : Z) : Z := nth (Z.to_nat b) sbox 0.

Definition sub_word (w : Z) : Z :=
  Z.lor (Z.lor (Z.lor (Z.shiftl (sbox_at (Z.land (Z.shiftr w 24) 0xff)) 24)
                      (Z.shiftl (sbox_at (Z.land (Z.shiftr w 16) 0xff)) 16))
               (Z.shiftl (sbox_at (Z.land (Z.shiftr w 8) 0xff)) 8))
        (sbox_at (Z.land w 0xff)).

Definition rot_word (w : Z) : Z := Z.lor (u32 (Z.shiftl w 8)) (Z.shiftr w 24).

(** [for (; i < 44; i++) rk[i] = ...], [rk] being the words so far. *)
Fixpoint expand_key (n : nat) (rk : list Z) : list Z :=
  match n with
  | O => rk
  | S n' =>
      let i := length rk in
      let temp := nth (i - 1) rk 0 in
      let temp :=
        if (i mod 4 =? 0)%nat then
          Z.lxor (sub_word (rot_word temp)) (Z.shiftl (nth (i / 4 - 1) rcon 0) 24)
        else temp in
      expand_key n' (rk ++ [Z.lxor (nth (i - 4) rk 0) temp])
  end.

(** The round keys [ctx->rk] of a 16-byte key. *)
Definition aes128_set_encrypt_key (key : list Z) : list Z := expand_key 40 (load_words 4 key).

Definition xtime (b : Z) : Z :=
  u8 (Z.lxor (Z.shiftl b 1) (if Z.shiftr b 7 =? 0 then 0x00 else 0x1b)).

Definition shift_rows (s : list Z) : list Z :=
  match s with
  | [s0; s1; s2; s3; s4; s5; s6; s7; s8; s9; s10; s11; s12; s13; s14; s15] =>
      (* row 1 *)
      let tmp := s1 in let s1 := s5 in let s5 := s9 in let s9 := s13 in let s13 := tmp in
      (* row 2 *)
      let tmp := s2 in let s2 := s10 in let s10 := tmp in
      let tmp := s6 in let s6 := s14 in let s14 := tmp in
      (* row 3 *)
      let tmp := s15 in let s15 := s11 in let s11 := s7 in let s7 := s3 in let s3 := tmp in
      [s0; s1; s2; s3; s4; s5; s6; s7; s8; s9; s10; s11; s12; s13; s14; s15]
  | _ => s
  end.

Definition add_round_key (s rk : list Z) (base : nat) : list Z :=
  concat (map (fun col =>
    let w := nth (base + col) rk 0 in
    [Z.lxor (nth (4 * col) s 0) (u8 (Z.shiftr w 24));
     Z.lxor (nth (4 * col + 1) s 0) (u8 (Z.shiftr w 16));
     Z.lxor (nth (4 * col + 2) s 0) (u8 (Z.shiftr w 8));
     Z.lxor (nth (4 * col + 3) s 0) (u8 w)]) [0; 1; 2; 3]%nat).

(** The MixColumns loop of [aes128_encrypt_block]. *)
Definition mix_columns (s : list Z) : list Z :=
  concat (map (fun col =>
    let a := nth (4 * col) s 0 in
    let b := nth (4 * col + 1) s 0 in
    let c := nth (4 * col + 2) s 0 in
    let d := nth (4 * col + 3) s 0 in
    [Z.lxor (Z.lxor (Z.lxor (xtime a) (Z.lxor (xtime b) b)) c) d;
     Z.lxor (Z.lxor (Z.lxor a (xtime b)) (Z.lxor (xtime c) c)) d;
     Z.lxor (Z.lxor (Z.lxor a b) (xtime c)) (Z.lxor (xtime d) d);
     Z.lxor (Z.lxor (Z.lxor (Z.lxor (xtime a) a) b) c) (xtime d)]) [0; 1; 2; 3]%nat).

Definition sub_bytes (s : list Z) : list Z := map sbox_at s.

(** [aes128_encrypt_block(ctx, in, out)] *)
Definition aes128_encrypt_block (rk block : list Z) : list Z :=
  let s := add_round_key block rk 0 in
  let s :=
    fold_left (fun s round => add_round_key (mix_columns (shift_rows (sub_bytes s))) rk (round * 4))
      [1; 2; 3; 4; 5; 6; 7; 8; 9]%nat s in
  add_round_key (shift_rows (sub_bytes s)) rk 40.

(** ** FIPS 197 *)

(** Section 4.2: multiplication in GF(2^8) modulo x^8 + x^4 + x^3 + x + 1,
    by the bits of the second factor. *)
Definition gf_double (a : Z) : Z :=
  let d := 2 * a in if d <? 256 then d else Z.lxor d 0x11b.

Fixpoint gf_mul_bits (n : nat) (a b : Z) : Z :=
  match n with
  | O => 0
  | S n' => Z.lxor (if Z.odd b then a else 0) (gf_mul_bits n' (gf_double a) (Z.div2 b))
  end.

Definition gf_mul (a b : Z) : Z := gf_mul_bits 8 a b.

(** The inverse is the 254th power; zero maps to zero. *)
Fixpoint gf_pow (a : Z) (n : nat) : Z :=
  match n with O => 1 | S n' => gf_mul a (gf_pow a n') end.

Definition gf_inv (a : Z) : Z := gf_pow a 254.

(** Section 5.1.1: the affine map of the S-box, bit by bit. *)
Definition affine (b : Z) : Z :=
  let bit i := Z.b2z (Z.testbit b (i mod 8)) in
  let row i := Z.lxor (Z.lxor (Z.lxor (Z.lxor (bit i) (bit (i + 4))) (bit (i + 5)))
                 (Z.lxor (bit (i + 6)) (bit (i + 7)))) (Z.b2z (Z.testbit 0x63 i)) in
  fold_right (fun i acc => Z.shiftl (row i) i + acc) 0 [0; 1; 2; 3; 4; 5; 6; 7].

Definition fips_sub_bytes (s : list Z) : list Z := map (fun b => affine (gf_inv b)) s.

(** Section 5.1.2: row [r] of the state rotates by [r] columns. *)
Definition fips_shift_rows (s : list Z) : list Z :=
  concat (map (fun c => map (fun r => nth (4 * ((c + r) mod 4) + r) s 0) [0; 1; 2; 3]%nat) [0; 1; 2; 3]%nat).

(** Section 5.1.3: multiplication of every column by the circulant matrix. *)
Definition fips_matrix : list (list Z) := [[2; 3; 1; 1]; [1; 2; 3; 1]; [1; 1; 2; 3]; [3; 1; 1; 2]].

Definition fips_mix_columns (s : list Z) : list Z :=
  concat (map (fun c => map (fun row =>
    fold_right (fun r acc => Z.lxor (gf_mul (nth r row 0) (nth (4 * c + r) s 0)) acc) 0 [0; 1; 2; 3]%nat)
    fips_matrix) [0; 1; 2; 3]%nat).

(** Section 5.1: the cipher. *)
Definition fips_cipher (rk block : list Z) : list Z :=
  let s := add_round_key block rk 0 in
  let s :=
    fold_left (fun s round => add_round_key (fips_mix_columns (fips_shift_rows (fips_sub_bytes s))) rk (round * 4))
      [1; 2; 3; 4; 5; 6; 7; 8; 9]%nat s in
  add_round_key (fips_shift_rows (fips_sub_bytes s)) rk 40.

(** ** The code computes the cipher *)

Definition block16 (s : list Z) : Prop := length s = 16%nat /\ all_bytes s.

Lemma sbox_fips b : is_byte b -> sbox_at b = affine (gf_inv b).
Proof. revert b. apply byte_eq_check. vm_compute. reflexivity. Qed.

Lemma sbox_byte b : is_byte b -> is_byte (sbox_at b).
Proof.
  intros Hb. pose proof (all_bytes_check (fun b => (0 <=? sbox_at b) && (sbox_at b <? 256))
    ltac:(vm_compute; reflexivity) b Hb) as H. cbv beta in H. unfold is_byte. lia.
Qed.

Lemma xtime_gf b : is_byte b -> xtime b = gf_mul 2 b.
Proof. revert b. apply byte_eq_check. vm_compute. reflexivity. Qed.

Lemma xtime_gf3 b : is_byte b -> Z.lxor (xtime b) b = gf_mul 3 b.
Proof. revert b. apply byte_eq_check. vm_compute. reflexivity. Qed.

Lemma gf_mul_1 b : is_byte b -> gf_mul 1 b = b.
Proof. revert b. apply byte_eq_check. vm_compute. reflexivity. Qed.

(** A state is its sixteen bytes. *)
Lemma block16_inv s : block16 s -> exists s0 s1 s2 s3 s4 s5 s6 s7 s8 s9 s10 s11 s12 s13 s14 s15,
  s = [s0; s1; s2; s3; s4; s5; s6; s7; s8; s9; s10; s11; s12; s13; s14; s15].
Proof.
  intros [Hl _]. do 16 (destruct s as [|? s]; [done|]). destruct s; [|done]. by repeat eexists.
Qed.

Ltac bytes_list :=
  repeat match goal with
  | |- all_bytes (_ :: _) => constructor
  | |- all_bytes [] => constructor
  end.

Lemma sub_bytes_fips s : all_bytes s -> sub_bytes s = fips_sub_bytes s.
Proof. intros H. apply map_ext_Forall. revert H. apply Forall_impl. exact sbox_fips. Qed.

Lemma sub_bytes_block s : block16 s -> block16 (sub_bytes s).
Proof.
  intros [Hl Hb]. split; [by unfold sub_bytes; rewrite length_map|].
  apply Forall_map. revert Hb. apply Forall_impl. exact sbox_byte.
Qed.

Lemma shift_rows_fips s : length s = 16%nat -> shift_rows s = fips_shift_rows s.
Proof. intros Hl. do 16 (destruct s as [|? s]; [done|]). by destruct s. Qed.

Lemma shift_rows_block s : block16 s -> block16 (shift_rows s).
Proof.
  intros H. destruct (block16_inv s H) as (?&?&?&?&?&?&?&?&?&?&?&?&?&?&?&?&->).
  split; [done|]. destruct H as [_ H]. repeat (apply Forall_cons_1 in H as [? H]).
  cbn [shift_rows]. by bytes_list.
Qed.

Lemma add_round_key_block s rk base : block16 s -> block16 (add_round_key s rk base).
Proof.
  intros H. destruct (block16_inv s H) as (?&?&?&?&?&?&?&?&?&?&?&?&?&?&?&?&->).
  split; [done|]. destruct H as [_ H]. repeat (apply Forall_cons_1 in H as [? H]).
  cbn [add_round_key map concat nth app Nat.mul Nat.add]. bytes_list; auto with awg.
Qed.

Lemma mix_column_fips a b c d : is_byte a -> is_byte b -> is_byte c -> is_byte d ->
  [Z.lxor (Z.lxor (Z.lxor (xtime a) (Z.lxor (xtime b) b)) c) d;
   Z.lxor (Z.lxor (Z.lxor a (xtime b)) (Z.lxor (xtime c) c)) d;
   Z.lxor (Z.lxor (Z.lxor a b) (xtime c)) (Z.lxor (xtime d) d);
   Z.lxor (Z.lxor (Z.lxor (Z.lxor (xtime a) a) b) c) (xtime d)] =
  map (fun row => fold_right (fun r acc => Z.lxor (gf_mul (nth r row 0) (nth r [a; b; c; d] 0)) acc) 0
                    [0; 1; 2; 3]%nat) fips_matrix.
Proof.
  intros. cbn [map fips_matrix fold_right nth]. rewrite !gf_mul_1 by done.
  rewrite <- !xtime_gf3, <- !xtime_gf by done. rewrite !Z.lxor_0_r, !Z.lxor_assoc. done.
Qed.

Lemma mix_columns_fips s : block16 s -> mix_columns s = fips_mix_columns s.
Proof.
  intros H. destruct (block16_inv s H) as (?&?&?&?&?&?&?&?&?&?&?&?&?&?&?&?&->).
  destruct H as [_ H]. repeat (apply Forall_cons_1 in H as [? H]).
  unfold mix_columns, fips_mix_columns. f_equal.
  repeat (apply (f_equal2 cons); [by apply mix_column_fips|]). done.
Qed.

Lemma xtime_byte b : is_byte (xtime b).
Proof. apply is_byte_u8. Qed.
#[local] Hint Resolve xtime_byte : awg.

Lemma mix_columns_block s : block16 s -> block16 (mix_columns s).
Proof.
  intros H. destruct (block16_inv s H) as (?&?&?&?&?&?&?&?&?&?&?&?&?&?&?&?&->).
  split; [done|]. destruct H as [_ H]. repeat (apply Forall_cons_1 in H as [? H]).
  cbn [mix_columns map concat nth app Nat.mul Nat.add]. bytes_list; auto 8 with awg.
Qed.

#[local] Hint Resolve sub_bytes_block shift_rows_block add_round_key_block mix_columns_block : awg.

Lemma rounds_fips rounds rk s : block16 s ->
  fold_left (fun s round => add_round_key (mix_columns (shift_rows (sub_bytes s))) rk (round * 4)) rounds s =
  fold_left (fun s round => add_round_key (fips_mix_columns (fips_shift_rows (fips_sub_bytes s))) rk (round * 4)) rounds s /\
  block16 (fold_left (fun s round => add_round_key (mix_columns (shift_rows (sub_bytes s))) rk (round * 4)) rounds s).
Proof.
  revert s. induction rounds as [|r rounds IH]; intros s Hs; cbn [fold_left]; [done|].
  rewrite <- sub_bytes_fips, <- shift_rows_fips, <- mix_columns_fips by (apply Hs || auto with awg || (apply sub_bytes_block; done)).
  apply IH. auto with awg.
Qed.

Lemma encrypt_block_fips rk block : block16 block ->
  aes128_encrypt_block rk block = fips_cipher rk block /\ block16 (aes128_encrypt_block rk block).
Proof.
  intros Hb. unfold aes128_encrypt_block, fips_cipher.
  destruct (rounds_fips [1; 2; 3; 4; 5; 6; 7; 8; 9]%nat rk (add_round_key block rk 0)) as [E Hr];
    [auto with awg|].
  rewrite <- E, <- sub_bytes_fips, <- shift_rows_fips by (apply Hr || apply sub_bytes_block, Hr).
  auto with awg.
Qed.

(** The table-driven encryption is the FIPS 197 cipher: for every block
    of sixteen bytes and every round-key array, [aes128_encrypt_block] computes
    the rounds whose SubBytes is inversion in GF(2^8) with the affine map and
    whose MixColumns is the matrix product over that field, and its result is
    again sixteen bytes. *)
Theorem aes128_encrypt_block_fips rk block : length block = 16%nat -> all_bytes block ->
  aes128_encrypt_block rk block = fips_cipher rk block /\
  length (aes128_encrypt_block rk block) = 16%nat /\ all_bytes (aes128_encrypt_block rk block).
Proof. intros. by apply encrypt_block_fips. Qed.

Lemma aes128_encrypt_block_fips_witness :
  let rk := aes128_set_encrypt_key [0; 1; 2; 3; 4; 5; 6; 7; 8; 9; 10; 11; 12; 13; 14; 15] in
  aes128_encrypt_block rk (repeat 17 16) = fips_cipher rk (repeat 17 16) /\
  length (aes128_encrypt_block rk (repeat 17 16)) = 16%nat /\
  all_bytes (aes128_encrypt_block rk (repeat 17 16)).
Proof.
  apply aes128_encrypt_block_fips; [reflexivity|].
  repeat (constructor; [unfold is_byte; lia|]). constructor.
Defined.

(** FIPS 197, appendix C.1. *)
Example aes128_fips_c1 :
  aes128_encrypt_block
    (aes128_set_encrypt_key [0; 1; 2; 3; 4; 5; 6; 7; 8; 9; 10; 11; 12; 13; 14; 15])
    [0x00; 0x11; 0x22; 0x33; 0x44; 0x55; 0x66; 0x77; 0x88; 0x99; 0xaa; 0xbb; 0xcc; 0xdd; 0xee; 0xff] =
  [0x69; 0xc4; 0xe0; 0xd8; 0x6a; 0x7b; 0x04; 0x30; 0xd8; 0xcd; 0xb7; 0x80; 0x70; 0xb4; 0xc5; 0x5a].
Proof. vm_compute. reflexivity. Qed.
