(* ===== verification/Qinit.v ===== *)
(** * The imitated QUIC Initial ([src/qinit.c], [src/qinit.h])

    [qinit_build] writes a 1200-byte QUIC version 1 client Initial that carries
    a TLS ClientHello for a configured server name, protected with the keys
    RFC 9001 derives from the connection ID.  The code's scratch arrays have
    fixed sizes: storing into one is [scratch cap bytes], which fails when the
    bytes do not fit, so a successful run is also a proof that no array is
    overrun.  Randomness is a parameter, a source with its own state.

    Theorems: the datagram is always complete and within bounds; a receiver
    that follows RFC 9001 removes the protection, verifies the tag and finds
    the server name; GHASH multiplies as NIST SP 800-38D defines. *)

From S2P Require Import Prelude Sha256 Aes.

Definition QINIT_DATAGRAM_LEN : Z := 1200.

(** ** GHASH *)

Fixpoint xor_bytes (a b : list Z) : list Z :=
  match a, b with
  | x :: a', y :: b' => Z.lxor x y :: xor_bytes a' b'
  | _, _ => []
  end.

(** [for (j = 15; j > 0; j--) vtmp[j] = (vtmp[j] >> 1) | ((vtmp[j-1] & 1) << 7)];
    [prev] is [vtmp[j-1]] before the loop. *)
Fixpoint shr1 (prev : Z) (v : list Z) : list Z :=
  match v with
  | [] => []
  | b :: v' => Z.lor (Z.shiftr b 1) (Z.shiftl (Z.land prev 1) 7) :: shr1 b v'
  end.

(** The shift of [vtmp] by one bit with the reduction. *)
Definition gmul_shift (vtmp : list Z) : list Z :=
  let carry := Z.land (nth 15 vtmp 0) 1 in
  match shr1 0 vtmp with
  | v0 :: v' => (if carry =? 0 then v0 else Z.lxor v0 0xe1) :: v'
  | [] => []
  end.

(** One byte of [z], bits 7 down to 0. *)
Fixpoint gmul_bits (bits : list Z) (zi : Z) (st : list Z * list Z) : list Z * list Z :=
  match bits with
  | [] => st
  | bit :: bits' =>
      let '(result, vtmp) := st in
      let result := if Z.land zi (Z.shiftl 1 bit) =? 0 then result else xor_bytes result vtmp in
      gmul_bits bits' zi (result, gmul_shift vtmp)
  end.

Definition gcm_gmul (z v : list Z) : list Z :=
  fst (fold_left (fun st zi => gmul_bits [7; 6; 5; 4; 3; 2; 1; 0] zi st) z (repeat 0 16, v)).

Definition ghash_update (state block h : list Z) : list Z := gcm_gmul (xor_bytes state block) h.

Fixpoint ghash_loop (fuel : nat) (state data h : list Z) : list Z :=
  match fuel with
  | O => state
  | S f =>
      if 16 <=? len data then ghash_loop f (ghash_update state (firstn 16 data) h) (skipn 16 data) h
      else if 0 <? len data then ghash_update state (data ++ repeat 0 (16 - length data)) h
      else state
  end.

(** Every round but the last consumes sixteen bytes. *)
Definition ghash_data (state data h : list Z) : list Z := ghash_loop (S (length data)) state data h.

(** ** AES-128-GCM *)

Definition gcm_inc32 (ctr : list Z) : list Z :=
  let c := load_be32 (skipn 12 ctr) in
  firstn 12 ctr ++ store_be32 (u32 (c + 1)).

(** The encryption loop over the plaintext from index [i] on. *)
Fixpoint gcm_ctr (rk : list Z) (i : Z) (ctr ks pt : list Z) : list Z :=
  match pt with
  | [] => []
  | p :: pt' =>
      let '(ctr, ks) :=
        if i mod 16 =? 0 then (gcm_inc32 ctr, aes128_encrypt_block rk ctr) else (ctr, ks) in
      Z.lxor p (nth (Z.to_nat (i mod 16)) ks 0) :: gcm_ctr rk (i + 1) ctr ks pt'
  end.

(** [H = AES_K(0)] and [J0 = nonce || 1]. *)
Definition gcm_h (rk : list Z) : list Z := aes128_encrypt_block rk (repeat 0 16).
Definition gcm_j0 (nonce : list Z) : list Z := firstn 12 nonce ++ [0; 0; 0; 1].

(** GHASH over the additional data, the ciphertext and the length block. *)
Definition gcm_tag (rk nonce aad ct : list Z) : list Z :=
  let h := gcm_h rk in
  let ghash := ghash_data (repeat 0 16) aad h in
  let ghash := ghash_data ghash ct h in
  let lenbuf := store_be64 (u64 (len aad * 8)) ++ store_be64 (u64 (len ct * 8)) in
  let ghash := ghash_update ghash lenbuf h in
  xor_bytes ghash (aes128_encrypt_block rk (gcm_j0 nonce)).

(** The bytes [qinit_aes128_gcm_seal] leaves in [out]: ciphertext and tag.
    The plaintext may be the same memory as [out]: every byte is read before
    it is overwritten. *)
Definition qinit_aes128_gcm_seal (key nonce aad pt : list Z) : list Z :=
  let rk := aes128_set_encrypt_key key in
  let out := gcm_ctr rk 0 (gcm_inc32 (gcm_j0 nonce)) (repeat 0 16) pt in
  out ++ gcm_tag rk nonce aad out.

(** ** Key derivation *)

(** The hash context on the stack; its contents do not matter ([sha256_eq]). *)
Definition stack_ctx : sha256_ctx := Sha256Ctx [] 0 (repeat 0 64) 0.

Definition qinit_hmac_sha256 (key msg : list Z) : list Z :=
  let k :=
    if len key >? SHA256_BLOCK_LEN
    then sha256 stack_ctx key ++ repeat 0 32
    else key ++ repeat 0 (64 - length key) in
  let ipad := map (fun b => Z.lxor b 0x36) k in
  let opad := map (fun b => Z.lxor b 0x5c) k in
  let inner := sha256_final (sha256_update (sha256_update (sha256_init stack_ctx) ipad) msg) in
  sha256_final (sha256_update (sha256_update (sha256_init stack_ctx) opad) inner).

Definition qinit_hkdf_extract (salt ikm : list Z) : list Z := qinit_hmac_sha256 salt ikm.

Definition qinit_hkdf_expand_label (secret label : list Z) (n : Z) : list Z :=
  let full := firstn 38 (B "tls13 " ++ label) in
  let info := [u8 (Z.shiftr n 8); u8 n; u8 (len full)] ++ full ++ [0x00] in
  let t := qinit_hmac_sha256 secret (info ++ [0x01]) in
  firstn (Z.to_nat n) t.

Definition quic_v1_initial_salt : list Z :=
  [0x38; 0x76; 0x2c; 0xf7; 0xf5; 0x59; 0x34; 0xb3; 0x4d; 0x17;
   0x9a; 0xe6; 0xa4; 0xc8; 0x0c; 0xad; 0xcc; 0xbb; 0x7f; 0x0a].

(** [key], [iv] and [hp] of a connection ID. *)
Definition qinit_derive_initial_keys (dcid : list Z) : list Z * list Z * list Z :=
  let initial_secret := qinit_hkdf_extract quic_v1_initial_salt dcid in
  let client_secret := qinit_hkdf_expand_label initial_secret (B "client in") 32 in
  (qinit_hkdf_expand_label client_secret (B "quic key") 16,
   qinit_hkdf_expand_label client_secret (B "quic iv") 12,
   qinit_hkdf_expand_label client_secret (B "quic hp") 16).

(** ** Encoders: the bytes stored from [p] on *)

Definition qinit_put_varint (v : Z) : list Z :=
  if v <=? 63 then [u8 v]
  else if v <=? 16383 then [u8 (Z.lor 0x40 (Z.shiftr v 8)); u8 v]
  else if v <=? 1073741823 then
    [u8 (Z.lor 0x80 (Z.shiftr v 24)); u8 (Z.shiftr v 16); u8 (Z.shiftr v 8); u8 v]
  else
    [u8 (Z.lor 0xc0 (Z.shiftr v 56)); u8 (Z.shiftr v 48); u8 (Z.shiftr v 40); u8 (Z.shiftr v 32);
     u8 (Z.shiftr v 24); u8 (Z.shiftr v 16); u8 (Z.shiftr v 8); u8 v].

Definition qinit_put_u8vec (body : list Z) : list Z := [u8 (len body)] ++ body.

Definition qinit_put_u16vec (body : list Z) : list Z :=
  [u8 (Z.shiftr (len body) 8); u8 (len body)] ++ body.

Definition qinit_put_ext (etype : Z) (data : list Z) : list Z :=
  [u8 (Z.shiftr etype 8); u8 etype] ++ qinit_put_u16vec data.

(** Storing [l] at the start of an array of [cap] bytes. *)
Definition scratch (cap : Z) (l : list Z) : option (list Z) :=
  if len l <=? cap then Some l else None.

Section Build.

(** The random source: [rand(rctx, out, n)] delivers bytes and a new state. *)
Context {rctx : Type}.
Variable rand : rctx -> Z -> list Z * rctx.

(** [qinit_build_client_hello(out, sni, scid, scidlen, rand, rctx)] with
    [u8 ch[512]] as [out]; [Err] is the return value -1, [None] an overrun. *)
Definition qinit_build_client_hello (sni scid : list Z) (st : rctx) : option (res (list Z) * rctx) :=
  let snilen := len sni in
  if (snilen >? 255) || (snilen =? 0) then Some (Err (-1), st)
  else
    let '(pub, st) := rand st 32 in
    let '(random, st) := rand st 32 in
    (* server_name *)
    sni_list ← scratch (3 + 255) ([0x00; u8 (Z.shiftr snilen 8); u8 snilen] ++ sni);
    wrapped ← scratch (2 + 3 + 255) (qinit_put_u16vec sni_list);
    let e_sni := qinit_put_ext 0x0000 wrapped in
    (* supported_versions *)
    sv ← scratch (1 + 2) (qinit_put_u8vec [0x03; 0x04]);
    let e_sv := qinit_put_ext 0x002b sv in
    (* supported_groups *)
    sg ← scratch (2 + 2) (qinit_put_u16vec [0x00; 0x1d]);
    let e_sg := qinit_put_ext 0x000a sg in
    (* key_share *)
    ks_inner ← scratch (2 + 2 + 32) ([0x00; 0x1d] ++ qinit_put_u16vec pub);
    ks_outer ← scratch (2 + (2 + 2 + 32)) (qinit_put_u16vec ks_inner);
    let e_ks := qinit_put_ext 0x0033 ks_outer in
    (* signature_algorithms *)
    sa ← scratch (2 + 6) (qinit_put_u16vec [0x04; 0x03; 0x08; 0x04; 0x04; 0x01]);
    let e_sa := qinit_put_ext 0x000d sa in
    (* application_layer_protocol_negotiation *)
    alpn_inner ← scratch (1 + 2) (qinit_put_u8vec (B "h3"));
    alpn_outer ← scratch (2 + (1 + 2)) (qinit_put_u16vec alpn_inner);
    let e_alpn := qinit_put_ext 0x0010 alpn_outer in
    (* quic_transport_parameters *)
    qtp ← scratch (2 + 20) ([0x0f; u8 (len scid)] ++ scid);
    let e_qtp := qinit_put_ext 0x0039 qtp in
    exts ← scratch 512 (e_sni ++ e_sv ++ e_sg ++ e_ks ++ e_sa ++ e_alpn ++ e_qtp);
    (* ClientHello body *)
    body ← scratch 512
      ([0x03; 0x03] ++ random ++ qinit_put_u8vec [] ++
       qinit_put_u16vec [0x13; 0x01; 0x13; 0x02; 0x13; 0x03] ++ qinit_put_u8vec [0x00] ++
       qinit_put_u16vec exts);
    let bodylen := len body in
    (* handshake wrapper *)
    out ← scratch 512
      ([0x01; u8 (Z.shiftr bodylen 16); u8 (Z.shiftr bodylen 8); u8 bodylen] ++ body);
    Some (Ok out, st).

(** [qinit_build(buf, sni, rand, rctx)]: [Ok] of the 1200 bytes stored into
    [buf], or the error with [buf] untouched. *)
Definition qinit_build (sni : list Z) (st : rctx) : option (res (list Z) * rctx) :=
  let '(dcid, st) := rand st 8 in
  let '(scid, st) := rand st 8 in
  let '(pn, st) := rand st 4 in
  let '(key, iv, hp) := qinit_derive_initial_keys dcid in
  '(r, st) ← qinit_build_client_hello sni scid st;
  match r with
  | Err _ => Some (Err (-22), st)
  | Ok ch =>
      let header :=
        [0xC3] ++ [0x00; 0x00; 0x00; 0x01] ++ [8] ++ dcid ++ [8] ++ scid ++ [0x00] ++
        qinit_put_varint 1174 in
      let pnOffset := length header in
      header ← scratch 30 (header ++ pn);
      (* CRYPTO frame and PADDING in the payload region, up to its end *)
      let frame := qinit_put_varint 0x06 ++ qinit_put_varint 0 ++ qinit_put_varint (len ch) ++ ch in
      frame ← scratch 1170 frame;
      let cflen := len frame in
      let payload := if cflen <? 1154 then frame ++ repeat 0 (Z.to_nat (1154 - cflen)) else frame in
      (* nonce *)
      let nonce := firstn 8 iv ++ xor_bytes (skipn 8 iv) pn in
      (* seal in place *)
      let buf := header ++ qinit_aes128_gcm_seal key nonce header (firstn 1154 payload) in
      buf ← scratch QINIT_DATAGRAM_LEN buf;
      (* header protection *)
      let sample := firstn 16 (skipn (pnOffset + 4) buf) in
      let mask := aes128_encrypt_block (aes128_set_encrypt_key hp) sample in
      let m k := nth k mask 0 in
      let b0 := Z.lxor (nth 0 buf 0) (Z.land (m 0%nat) 0x0f) in
      let pnbytes := xor_bytes (firstn 4 (skipn pnOffset buf)) (firstn 4 (skipn 1 mask)) in
      let buf := [b0] ++ firstn (pnOffset - 1) (skipn 1 buf) ++ pnbytes ++ skipn (pnOffset + 4) buf in
      Some (Ok buf, st)
  end.

End Build.

(** ** Sizes and bytes *)

Lemma length_xor_bytes a b : length (xor_bytes a b) = Nat.min (length a) (length b).
Proof. revert b. induction a as [|x a IH]; intros [|y b]; cbn; auto. Qed.

Lemma xor_bytes_all_bytes a b : all_bytes a -> all_bytes b -> all_bytes (xor_bytes a b).
Proof.
  intros Ha. revert b. induction Ha as [|x a Hx Ha IH]; intros b Hb; [constructor|].
  destruct Hb; constructor; auto with awg.
Qed.

Lemma xor_bytes_involutive a b : (length a <= length b)%nat -> xor_bytes (xor_bytes a b) b = a.
Proof.
  revert b. induction a as [|x a IH]; intros [|y b] Hl; cbn in *; try done; [lia|].
  rewrite IH by lia. by rewrite Z.lxor_assoc, Z.lxor_nilpotent, Z.lxor_0_r.
Qed.

Lemma block16_zero : block16 (repeat 0 16).
Proof. split; [done|]. repeat (constructor; [unfold is_byte; lia|]). constructor. Qed.

Lemma xor_bytes_block a b : block16 a -> block16 b -> block16 (xor_bytes a b).
Proof.
  intros [La Ha] [Lb Hb]. split; [rewrite length_xor_bytes; lia|by apply xor_bytes_all_bytes].
Qed.

Lemma shr1_byte prev b : is_byte b -> is_byte (Z.lor (Z.shiftr b 1) (Z.shiftl (Z.land prev 1) 7)).
Proof.
  intros Hb. unfold is_byte in *. apply (lor_range 8); [lia| |].
  - rewrite Z.shiftr_div_pow2 by lia. change (2 ^ 1) with 2. change (2 ^ 8) with 256. lia.
  - change 1 with (Z.ones 1). rewrite Z.shiftl_mul_pow2, Z.land_ones by lia. change (2 ^ 1) with 2.
    change (2 ^ 7) with 128. change (2 ^ 8) with 256. lia.
Qed.

Lemma shr1_bytes v : forall prev, all_bytes v -> all_bytes (shr1 prev v).
Proof.
  induction v as [|b v IH]; intros prev H; cbn [shr1]; [constructor|].
  apply Forall_cons_1 in H as [? ?]. constructor; [by apply shr1_byte|by apply IH].
Qed.

Lemma shr1_length prev v : length (shr1 prev v) = length v.
Proof. revert prev. induction v as [|b v IH]; intros prev; cbn; auto. Qed.

Lemma gmul_shift_block v : block16 v -> block16 (gmul_shift v).
Proof.
  intros [Hl Hb]. unfold gmul_shift. pose proof (shr1_length 0 v). pose proof (shr1_bytes v 0 Hb) as H1.
  destruct (shr1 0 v) as [|v0 v']; [cbn in *; lia|]. apply Forall_cons_1 in H1 as [? ?].
  split; [cbn in *; lia|]. constructor; [|done].
  case_match; [done|]. apply is_byte_lxor; [done|unfold is_byte; lia].
Qed.

Lemma gmul_bits_block bits zi : forall r v, block16 r -> block16 v ->
  block16 (fst (gmul_bits bits zi (r, v))) /\ block16 (snd (gmul_bits bits zi (r, v))).
Proof.
  induction bits as [|bit bits IH]; intros r v Hr Hv; cbn [gmul_bits]; [done|].
  apply IH; [|by apply gmul_shift_block]. case_match; [done|by apply xor_bytes_block].
Qed.

Lemma gcm_gmul_block z v : block16 v -> block16 (gcm_gmul z v).
Proof.
  intros Hv. unfold gcm_gmul.
  assert (forall r v, block16 r -> block16 v ->
    block16 (fst (fold_left (fun st zi => gmul_bits [7; 6; 5; 4; 3; 2; 1; 0] zi st) z (r, v)))) as H.
  { clear v Hv. induction z as [|zi z IH]; intros r v Hr Hv; cbn [fold_left]; [done|].
    destruct (gmul_bits_block [7; 6; 5; 4; 3; 2; 1; 0] zi r v Hr Hv).
    destruct (gmul_bits _ _ _) as [r' v']. by apply IH. }
  apply H; [apply block16_zero|done].
Qed.

Lemma ghash_data_block state data h : block16 h -> block16 state -> block16 (ghash_data state data h).
Proof.
  intros Hh. unfold ghash_data. generalize (S (length data)). intros f. revert state data.
  induction f as [|f IH]; intros state data Hs; cbn [ghash_loop]; [done|].
  repeat case_match; try done; [apply IH|]; by apply gcm_gmul_block.
Qed.

Lemma store_be32_bytes v : all_bytes (store_be32 v).
Proof. repeat (constructor; [apply is_byte_u8|]). constructor. Qed.

Lemma gcm_inc32_block ctr : block16 ctr -> block16 (gcm_inc32 ctr).
Proof.
  intros [Hl Hb]. unfold gcm_inc32. split.
  - rewrite length_app, length_take, Hl. done.
  - apply Forall_app. split; [by apply Forall_take|apply store_be32_bytes].
Qed.

Lemma encrypt_block16 rk b : block16 b -> block16 (aes128_encrypt_block rk b).
Proof. intros H. by apply encrypt_block_fips. Qed.

Lemma nth_byte k l : all_bytes l -> is_byte (nth k l 0).
Proof.
  intros H. revert k. induction H as [|x l Hx Hl IH]; intros [|k]; cbn; auto; unfold is_byte; lia.
Qed.

Lemma gcm_ctr_length rk i ctr ks pt : length (gcm_ctr rk i ctr ks pt) = length pt.
Proof.
  revert i ctr ks. induction pt as [|p pt IH]; intros i ctr ks; cbn [gcm_ctr]; [done|].
  case_match; cbn; auto.
Qed.

Lemma gcm_ctr_bytes rk i ctr ks pt : block16 ctr -> block16 ks -> all_bytes pt ->
  all_bytes (gcm_ctr rk i ctr ks pt).
Proof.
  intros Hc Hk Hp. revert i ctr ks Hc Hk.
  induction Hp as [|p pt Hb Hp IH]; intros i ctr ks Hc Hk; cbn [gcm_ctr]; [constructor|].
  assert (exists c k, (if i mod 16 =? 0 then (gcm_inc32 ctr, aes128_encrypt_block rk ctr) else (ctr, ks))
    = (c, k) /\ block16 c /\ block16 k) as (c & k & -> & ? & Hk').
  { destruct (i mod 16 =? 0); eexists _, _; split; try done; split; auto using gcm_inc32_block, encrypt_block16. }
  constructor; [|by apply IH]. apply is_byte_lxor; [done|]. apply nth_byte, Hk'.
Qed.

(** Decryption with the same key stream. *)
Lemma gcm_ctr_involutive rk i ctr ks pt : gcm_ctr rk i ctr ks (gcm_ctr rk i ctr ks pt) = pt.
Proof.
  revert i ctr ks. induction pt as [|p pt IH]; intros i ctr ks; cbn [gcm_ctr]; [done|].
  destruct (i mod 16 =? 0) eqn:E; cbn [gcm_ctr]; rewrite E, IH, Z.lxor_assoc, Z.lxor_nilpotent, Z.lxor_0_r; done.
Qed.

#[local] Opaque aes128_encrypt_block aes128_set_encrypt_key sha256_compress gcm_gmul ghash_data.

Lemma sha256_two_updates a b :
  sha256_final (sha256_update (sha256_update (sha256_init stack_ctx) a) b) = sha256_spec (a ++ b).
Proof.
  destruct (updates_repr [a; b] (sha256_init stack_ctx) []) as [Hr Hl]; [by apply repr_init|done|].
  cbn [fold_left concat app] in *. rewrite app_nil_r in *. by apply sha256_final_spec.
Qed.

Lemma hmac_digest key msg :
  len (qinit_hmac_sha256 key msg) = 32 /\ all_bytes (qinit_hmac_sha256 key msg).
Proof. unfold qinit_hmac_sha256. cbv zeta. rewrite sha256_two_updates. apply sha256_spec_digest. Qed.

Lemma expand_label_size secret label n : 0 <= n <= 32 ->
  len (qinit_hkdf_expand_label secret label n) = n /\ all_bytes (qinit_hkdf_expand_label secret label n).
Proof.
  intros Hn. unfold qinit_hkdf_expand_label. cbv zeta.
  match goal with |- context [qinit_hmac_sha256 secret ?m] => destruct (hmac_digest secret m) as [Hl Hb] end.
  split; [rewrite len_take; lia|by apply Forall_take].
Qed.

Lemma derive_keys_size dcid : exists key iv hp, qinit_derive_initial_keys dcid = (key, iv, hp) /\
  (len key = 16 /\ all_bytes key) /\ (len iv = 12 /\ all_bytes iv) /\ (len hp = 16 /\ all_bytes hp).
Proof.
  eexists _, _, _. split; [reflexivity|]. split; [|split]; apply expand_label_size; lia.
Qed.

Lemma gcm_j0_block nonce : len nonce = 12 -> all_bytes nonce -> block16 (gcm_j0 nonce).
Proof.
  intros Hl Hb. unfold gcm_j0. split.
  - rewrite length_app, length_take. unfold len in Hl. replace (length nonce) with 12%nat by lia. done.
  - apply Forall_app. split; [by apply Forall_take|]. repeat (constructor; [unfold is_byte; lia|]). constructor.
Qed.

Lemma store_be64_bytes v : all_bytes (store_be64 v).
Proof. repeat (constructor; [apply is_byte_u8|]). constructor. Qed.

Lemma gcm_tag_block rk nonce aad ct : len nonce = 12 -> all_bytes nonce -> block16 (gcm_tag rk nonce aad ct).
Proof.
  intros. unfold gcm_tag. cbv zeta. apply xor_bytes_block.
  - apply gcm_gmul_block. unfold gcm_h. apply encrypt_block16, block16_zero.
  - by apply encrypt_block16, gcm_j0_block.
Qed.

Lemma seal_size key nonce aad pt : len nonce = 12 -> all_bytes nonce -> all_bytes pt ->
  len (qinit_aes128_gcm_seal key nonce aad pt) = len pt + 16 /\
  all_bytes (qinit_aes128_gcm_seal key nonce aad pt).
Proof.
  intros Hn Hb Hp. unfold qinit_aes128_gcm_seal. cbv zeta.
  pose proof (gcm_ctr_bytes (aes128_set_encrypt_key key) 0 (gcm_inc32 (gcm_j0 nonce)) (repeat 0 16) pt) as Hc.
  pose proof (gcm_ctr_length (aes128_set_encrypt_key key) 0 (gcm_inc32 (gcm_j0 nonce)) (repeat 0 16) pt) as Hl.
  set (ct := gcm_ctr _ _ _ _ _) in *.
  destruct (gcm_tag_block (aes128_set_encrypt_key key) nonce aad ct Hn Hb) as [Ht Htb].
  rewrite len_app. split; [unfold len; lia|]. apply Forall_app. split; [|done].
  apply Hc; [|apply block16_zero|done]. by apply gcm_inc32_block, gcm_j0_block.
Qed.

(** ** The receiver's side

    Decoders for the encodings above, and the steps of RFC 9001 by which a
    server recovers the ClientHello from a client Initial. *)

(** RFC 9000, section 16. *)
Definition get_varint (l : list Z) : option (Z * list Z) :=
  match l with
  | [] => None
  | b :: l' =>
      let extra := match Z.shiftr b 6 with 0 => 0 | 1 => 1 | 2 => 3 | _ => 7 end in
      if extra <=? len l' then
        Some (fold_left (fun acc x => acc * 256 + x) (firstn (Z.to_nat extra) l') (b mod 64),
              skipn (Z.to_nat extra) l')
      else None
  end.

(** A vector with an [n]-byte length prefix (RFC 8446, section 3.4). *)
Definition get_vec (n : nat) (l : list Z) : option (list Z * list Z) :=
  let size := fold_left (fun acc x => acc * 256 + x) (firstn n l) 0 in
  if (Z.of_nat n + size <=? len l) then
    Some (firstn (Z.to_nat size) (skipn n l), skipn (n + Z.to_nat size) l)
  else None.

(** The data of the first extension of type [etype]. *)
Fixpoint find_ext (fuel : nat) (etype : Z) (l : list Z) : option (list Z) :=
  match fuel, l with
  | S f, t1 :: t0 :: l' =>
      '(data, rest) ← get_vec 2 l';
      if t1 * 256 + t0 =? etype then Some data else find_ext f etype rest
  | _, _ => None
  end.

(** The server name of a ClientHello handshake message. *)
Definition client_hello_sni (l : list Z) : option (list Z) :=
  match l with
  | 0x01 :: l =>
      '(body, rest) ← get_vec 3 l;
      '(_, l) ← get_vec 1 (skipn 34 body);
      '(_, l) ← get_vec 2 l;
      '(_, l) ← get_vec 1 l;
      '(exts, rest') ← get_vec 2 l;
      if decide (rest = [] /\ rest' = []) then
        data ← find_ext (length exts) 0 exts;
        '(names, tail) ← get_vec 2 data;
        match names with
        | 0x00 :: names' =>
            '(name, more) ← get_vec 2 names';
            if decide (tail = [] /\ more = []) then Some name else None
        | _ => None
        end
      else None
  | _ => None
  end.

(** The handshake message of a payload with one CRYPTO frame and PADDING. *)
Definition crypto_frame (l : list Z) : option (list Z) :=
  '(ty, l) ← get_varint l;
  '(off, l) ← get_varint l;
  '(n, l) ← get_varint l;
  if (ty =? 6) && (off =? 0) && (n <=? len l) && forallb (Z.eqb 0) (skipn (Z.to_nat n) l)
  then Some (firstn (Z.to_nat n) l) else None.

(** AES-128-GCM decryption: the tag is recomputed and compared. *)
Definition gcm_open (key nonce aad sealed : list Z) : option (list Z) :=
  let rk := aes128_set_encrypt_key key in
  let n := (length sealed - 16)%nat in
  let ct := firstn n sealed in
  if decide (skipn n sealed = gcm_tag rk nonce aad ct)
  then Some (gcm_ctr rk 0 (gcm_inc32 (gcm_j0 nonce)) (repeat 0 16) ct) else None.

(** RFC 9001, sections 5.4 and 5.3, for a client Initial with an empty token,
    eight-byte connection IDs and a two-byte length: unmask the first byte and
    the packet number, then open the payload. *)
Definition initial_payload (dg : list Z) : option (list Z) :=
  let '(key, iv, hp) := qinit_derive_initial_keys (firstn 8 (skipn 6 dg)) in
  let mask := aes128_encrypt_block (aes128_set_encrypt_key hp) (firstn 16 (skipn 30 dg)) in
  let b0 := Z.lxor (nth 0 dg 0) (Z.land (nth 0 mask 0) 0x0f) in
  let pn := xor_bytes (firstn 4 (skipn 26 dg)) (firstn 4 (skipn 1 mask)) in
  let header := [b0] ++ firstn 25 (skipn 1 dg) ++ pn in
  '(n, _) ← get_varint (skipn 24 dg);
  if (b0 =? 0xC3) && (n =? len dg - 26)
  then gcm_open key (firstn 8 iv ++ xor_bytes (skipn 8 iv) pn) header (skipn 30 dg) else None.

Definition initial_sni (dg : list Z) : option (list Z) :=
  payload ← initial_payload dg; ch ← crypto_frame payload; client_hello_sni ch.

(** *** Decoders invert encoders *)

Definition be_value (l : list Z) : Z := fold_left (fun acc x => acc * 256 + x) l 0.

Lemma get_vec_app n p body rest : length p = n -> be_value p = len body ->
  get_vec n (p ++ body ++ rest) = Some (body, rest).
Proof.
  intros Hp Hv. unfold get_vec. rewrite take_app_le, firstn_all2 by lia.
  fold (be_value p). rewrite Hv, !len_app. pose proof (len_nonneg rest).
  destruct (Z.leb_spec (Z.of_nat n + len body) (len p + (len body + len rest))); [|unfold len in *; lia].
  rewrite <- Hp, drop_app_length. unfold len. rewrite Nat2Z.id, take_app_length.
  rewrite drop_app_add', drop_app_length by done. done.
Qed.

Lemma be_value_2 v : 0 <= v < 2 ^ 16 -> be_value [u8 (Z.shiftr v 8); u8 v] = v.
Proof.
  intros. unfold be_value, u8. cbn [fold_left]. rewrite Z.shiftr_div_pow2 by lia.
  change (2 ^ 8) with 256. change (2 ^ 16) with 65536 in *. lia.
Qed.

Lemma be_value_3 v : 0 <= v < 2 ^ 24 -> be_value [u8 (Z.shiftr v 16); u8 (Z.shiftr v 8); u8 v] = v.
Proof.
  intros. unfold be_value, u8. cbn [fold_left]. rewrite !Z.shiftr_div_pow2 by lia.
  change (2 ^ 8) with 256. change (2 ^ 16) with 65536 in *. change (2 ^ 24) with 16777216 in *. lia.
Qed.

Lemma get_u8vec body rest : len body < 256 -> get_vec 1 (qinit_put_u8vec body ++ rest) = Some (body, rest).
Proof.
  intros. unfold qinit_put_u8vec. rewrite <- app_assoc. apply get_vec_app; [done|].
  unfold be_value. cbn [fold_left]. pose proof (len_nonneg body). rewrite u8_small by lia. lia.
Qed.

Lemma get_u16vec body rest : len body < 2 ^ 16 ->
  get_vec 2 (qinit_put_u16vec body ++ rest) = Some (body, rest).
Proof.
  intros. unfold qinit_put_u16vec. rewrite <- app_assoc. apply get_vec_app; [done|].
  pose proof (len_nonneg body). by apply be_value_2.
Qed.

Lemma find_ext_hd f etype data rest : 0 <= etype < 2 ^ 16 -> len data < 2 ^ 16 ->
  find_ext (S f) etype (qinit_put_ext etype data ++ rest) = Some data.
Proof.
  intros He Hd. unfold qinit_put_ext. rewrite <- app_assoc. cbn [app find_ext].
  rewrite get_u16vec by done. cbn. pose proof (be_value_2 etype He) as E.
  unfold be_value in E. cbn [fold_left] in E. rewrite Z.mul_0_l, Z.add_0_l in E. by rewrite E, Z.eqb_refl.
Qed.

Lemma be_step v j k : 0 <= k -> j = k + 8 -> Z.shiftr v j * 256 + u8 (Z.shiftr v k) = Z.shiftr v k.
Proof.
  intros Hk ->. rewrite <- Z.shiftr_shiftr by lia. unfold u8.
  rewrite (Z.shiftr_div_pow2 (Z.shiftr v k)) by lia. change (2 ^ 8) with 256. lia.
Qed.

Lemma be_step_0 v : Z.shiftr v 8 * 256 + u8 v = v.
Proof. pose proof (be_step v 8 0 ltac:(lia) ltac:(lia)) as E. by rewrite Z.shiftr_0_r in E. Qed.

(** The first byte of a varint: two length bits and six value bits. *)
Lemma varint_first t x : (t = 0 \/ t = 0x40 \/ t = 0x80 \/ t = 0xc0) -> 0 <= x < 64 ->
  u8 (Z.lor t x) mod 64 = x /\ Z.shiftr (u8 (Z.lor t x)) 6 = t / 64.
Proof.
  intros Ht Hx.
  assert (is_byte x) as Hb by (unfold is_byte; lia).
  assert (forall t, forallb (fun b => (u8 (Z.lor t (b mod 64)) mod 64 =? b mod 64) &&
                                      (Z.shiftr (u8 (Z.lor t (b mod 64))) 6 =? t / 64))
            (map Z.of_nat (seq 0 256)) = true ->
          u8 (Z.lor t x) mod 64 = x /\ Z.shiftr (u8 (Z.lor t x)) 6 = t / 64) as H.
  { intros t' H. pose proof (all_bytes_check _ H x Hb) as E. cbv beta in E.
    rewrite (Z.mod_small x 64) in E by lia. lia. }
  destruct Ht as [-> | [-> | [-> | ->]]]; apply H; vm_compute; reflexivity.
Qed.

Lemma get_varint_step t x l rest n : (t = 0 \/ t = 0x40 \/ t = 0x80 \/ t = 0xc0) -> 0 <= x < 64 ->
  length l = n -> n = Z.to_nat (match t / 64 with 0 => 0 | 1 => 1 | 2 => 3 | _ => 7 end) ->
  get_varint ([u8 (Z.lor t x)] ++ l ++ rest) = Some (fold_left (fun acc x => acc * 256 + x) l x, rest).
Proof.
  intros Ht Hx Hl Hn. cbn [app get_varint]. destruct (varint_first t x Ht Hx) as [-> ->].
  set (extra := match t / 64 with 0 => 0 | 1 => 1 | 2 => 3 | _ => 7 end) in *.
  assert (0 <= extra) by (unfold extra; repeat case_match; lia).
  rewrite len_app. pose proof (len_nonneg rest).
  destruct (Z.leb_spec extra (len l + len rest)); [|unfold len in *; lia].
  rewrite <- Hn, <- Hl, take_app_length, drop_app_length. done.
Qed.

Lemma get_put_varint v rest : 0 <= v < 2 ^ 62 -> get_varint (qinit_put_varint v ++ rest) = Some (v, rest).
Proof.
  intros Hv. unfold qinit_put_varint.
  destruct (Z.leb_spec v 63).
  { apply (get_varint_step 0 v [] rest 0); auto; lia. }
  destruct (Z.leb_spec v 16383).
  { etransitivity; [apply (get_varint_step 0x40 (Z.shiftr v 8) [u8 v] rest 1); auto|].
    2: { cbn [fold_left]. by rewrite be_step_0. }
    rewrite Z.shiftr_div_pow2 by lia. change (2 ^ 8) with 256. lia. }
  destruct (Z.leb_spec v 1073741823).
  { etransitivity; [apply (get_varint_step 0x80 (Z.shiftr v 24) [_; _; _] rest 3); auto|].
    2: { cbn [fold_left]. by rewrite !be_step, be_step_0 by lia. }
    rewrite Z.shiftr_div_pow2 by lia. change (2 ^ 24) with 16777216. lia. }
  etransitivity; [apply (get_varint_step 0xc0 (Z.shiftr v 56) [_; _; _; _; _; _; _] rest 7); auto|].
  2: { cbn [fold_left]. by rewrite !be_step, be_step_0 by lia. }
  rewrite Z.shiftr_div_pow2 by lia. change (2 ^ 56) with 72057594037927936.
    change (2 ^ 62) with 4611686018427387904 in *. lia.
Qed.

(** ** The ClientHello *)

Definition source_ok {rctx} (rand : rctx -> Z -> list Z * rctx) : Prop :=
  forall st n, 0 <= n -> len (fst (rand st n)) = n /\ all_bytes (fst (rand st n)).

Lemma scratch_ok cap l : len l <= cap -> scratch cap l = Some l.
Proof. intros. unfold scratch. by destruct (Z.leb_spec (len l) cap); [|lia]. Qed.

Lemma len_put_u8vec body : len (qinit_put_u8vec body) = 1 + len body.
Proof. unfold qinit_put_u8vec. autorewrite with awg. lia. Qed.

Lemma len_put_u16vec body : len (qinit_put_u16vec body) = 2 + len body.
Proof. unfold qinit_put_u16vec. autorewrite with awg. lia. Qed.

Lemma len_put_ext etype data : len (qinit_put_ext etype data) = 4 + len data.
Proof. unfold qinit_put_ext. autorewrite with awg. rewrite len_put_u16vec. lia. Qed.

#[local] Hint Rewrite len_put_u8vec len_put_u16vec len_put_ext : awg.

Lemma put_u8vec_bytes body : all_bytes body -> all_bytes (qinit_put_u8vec body).
Proof. intros. by constructor; [apply is_byte_u8|]. Qed.

Lemma put_u16vec_bytes body : all_bytes body -> all_bytes (qinit_put_u16vec body).
Proof. intros. by do 2 (constructor; [apply is_byte_u8|]). Qed.

Lemma put_ext_bytes etype data : all_bytes data -> all_bytes (qinit_put_ext etype data).
Proof. intros. do 2 (constructor; [apply is_byte_u8|]). by apply put_u16vec_bytes. Qed.

Lemma put_varint_bytes v : all_bytes (qinit_put_varint v).
Proof. unfold qinit_put_varint. repeat case_match; repeat (constructor; [apply is_byte_u8|]); constructor. Qed.

(** Proves [all_bytes] of concatenated encodings. *)
Ltac enc_bytes :=
  repeat match goal with
  | |- all_bytes (_ ++ _) => apply Forall_app; split
  | |- all_bytes (qinit_put_u8vec _) => apply put_u8vec_bytes
  | |- all_bytes (qinit_put_u16vec _) => apply put_u16vec_bytes
  | |- all_bytes (qinit_put_ext _ _) => apply put_ext_bytes
  | |- all_bytes (qinit_put_varint _) => apply put_varint_bytes
  | |- all_bytes (_ :: _) => constructor; [first [apply is_byte_u8 | unfold is_byte; lia]|]
  | |- all_bytes [] => constructor
  | |- all_bytes (B _) => apply B_bytes
  end; try done.

Definition ch_exts (sni scid pub : list Z) : list Z :=
  qinit_put_ext 0x0000 (qinit_put_u16vec ([0x00; u8 (Z.shiftr (len sni) 8); u8 (len sni)] ++ sni)) ++
  qinit_put_ext 0x002b (qinit_put_u8vec [0x03; 0x04]) ++
  qinit_put_ext 0x000a (qinit_put_u16vec [0x00; 0x1d]) ++
  qinit_put_ext 0x0033 (qinit_put_u16vec ([0x00; 0x1d] ++ qinit_put_u16vec pub)) ++
  qinit_put_ext 0x000d (qinit_put_u16vec [0x04; 0x03; 0x08; 0x04; 0x04; 0x01]) ++
  qinit_put_ext 0x0010 (qinit_put_u16vec (qinit_put_u8vec (B "h3"))) ++
  qinit_put_ext 0x0039 ([0x0f; u8 (len scid)] ++ scid).

Definition ch_body (exts random : list Z) : list Z :=
  [0x03; 0x03] ++ random ++ qinit_put_u8vec [] ++
  qinit_put_u16vec [0x13; 0x01; 0x13; 0x02; 0x13; 0x03] ++ qinit_put_u8vec [0x00] ++
  qinit_put_u16vec exts.

Definition ch_message (body : list Z) : list Z :=
  [0x01; u8 (Z.shiftr (len body) 16); u8 (Z.shiftr (len body) 8); u8 (len body)] ++ body.

Lemma ch_exts_size sni scid pub : all_bytes sni -> all_bytes scid -> all_bytes pub ->
  len (ch_exts sni scid pub) = 61 + len sni + len scid + len pub /\ all_bytes (ch_exts sni scid pub).
Proof.
  intros. unfold ch_exts. change (len (B "h3")) with 2. split; [|enc_bytes].
  autorewrite with awg. change (len (B "h3")) with 2. lia.
Qed.

Lemma get_u24vec body : len body < 2 ^ 24 ->
  get_vec 3 (u8 (Z.shiftr (len body) 16) :: u8 (Z.shiftr (len body) 8) :: u8 (len body) :: body) = Some (body, []).
Proof.
  intros. rewrite <- (app_nil_r body) at 4. pose proof (len_nonneg body).
  apply (get_vec_app 3 [_; _; _]); [done|by apply be_value_3].
Qed.

Lemma ch_sni sni scid pub random : 0 < len sni <= 255 -> len scid = 8 -> len pub = 32 -> len random = 32 ->
  client_hello_sni (ch_message (ch_body (ch_exts sni scid pub) random)) = Some sni.
Proof.
  intros Hs Hc Hp Hr. unfold ch_message.
  set (exts := ch_exts sni scid pub).
  assert (len exts = 101 + len sni) as He.
  { unfold exts, ch_exts. autorewrite with awg. change (len (B "h3")) with 2. lia. }
  assert (len (ch_body exts random) = 148 + len sni) as Hb.
  { unfold ch_body. autorewrite with awg. lia. }
  set (body := ch_body exts random) in *.
  cbn [app client_hello_sni]. rewrite get_u24vec by lia. cbn [mbind option_bind].
  assert (skipn 34 body = qinit_put_u8vec [] ++ qinit_put_u16vec [0x13; 0x01; 0x13; 0x02; 0x13; 0x03] ++
    qinit_put_u8vec [0x00] ++ qinit_put_u16vec exts ++ []) as ->.
  { unfold body, ch_body. rewrite app_nil_r. change ([3; 3] ++ ?l) with (3 :: 3 :: l). cbn [skipn].
    rewrite drop_app_le, (drop_ge random) by (unfold len in Hr; lia). done. }
  do 4 (rewrite ?get_u8vec, ?get_u16vec by (autorewrite with awg; lia); cbn [mbind option_bind]).
  rewrite decide_True by done.
  assert (exists n, length exts = S n) as [n ->] by (exists (length exts - 1)%nat; unfold len in *; lia).
  unfold exts, ch_exts. rewrite find_ext_hd by (autorewrite with awg; lia). cbn [mbind option_bind].
  rewrite <- (app_nil_r (qinit_put_u16vec (_ ++ sni))), get_u16vec by (autorewrite with awg; lia).
  cbn [mbind option_bind app].
  change (u8 (len sni ≫ 8) :: u8 (len sni) :: sni) with (qinit_put_u16vec sni).
  rewrite <- (app_nil_r (qinit_put_u16vec sni)), get_u16vec by lia. cbn [mbind option_bind].
  by rewrite decide_True by done.
Qed.

Section BuildFacts.

Context {rctx : Type} (rand : rctx -> Z -> list Z * rctx).
Hypothesis rand_ok : source_ok rand.

Lemma build_client_hello_ok sni scid st : 0 < len sni <= 255 -> all_bytes sni ->
  len scid = 8 -> all_bytes scid ->
  exists ch st', qinit_build_client_hello rand sni scid st = Some (Ok ch, st') /\
    client_hello_sni ch = Some sni /\ len ch = 152 + len sni /\ all_bytes ch.
Proof.
  intros Hs Hsb Hc Hcb. unfold qinit_build_client_hello.
  destruct (Z.gtb_spec (len sni) 255); [lia|]. destruct (Z.eqb_spec (len sni) 0); [lia|]. cbn [orb].
  destruct (rand_ok st 32) as [Hp Hpb]; [lia|]. destruct (rand st 32) as [pub st1]. cbn [fst] in *.
  destruct (rand_ok st1 32) as [Hr Hrb]; [lia|]. destruct (rand st1 32) as [random st2]. cbn [fst] in *.
  do 10 (rewrite scratch_ok by (autorewrite with awg; change (len (B "h3")) with 2; lia); cbn [mbind option_bind]).
  fold (ch_exts sni scid pub). destruct (ch_exts_size sni scid pub Hsb Hcb Hpb) as [He Heb].
  rewrite scratch_ok by lia. cbn [mbind option_bind].
  fold (ch_body (ch_exts sni scid pub) random).
  assert (len (ch_body (ch_exts sni scid pub) random) = 148 + len sni) as Hb
    by (unfold ch_body; autorewrite with awg; lia).
  rewrite scratch_ok by lia. cbn [mbind option_bind].
  fold (ch_message (ch_body (ch_exts sni scid pub) random)).
  assert (len (ch_message (ch_body (ch_exts sni scid pub) random)) = 152 + len sni) as Hm
    by (unfold ch_message; autorewrite with awg; lia).
  rewrite scratch_ok by lia. cbn [mbind option_bind].
  eexists _, _. split; [reflexivity|]. split; [by apply ch_sni|]. split; [done|].
  unfold ch_message, ch_body. enc_bytes.
Qed.

End BuildFacts.

(** ** The datagram *)

(** The protected packet around a payload, and what its receiver recovers. *)
Definition initial_header (dcid scid pn : list Z) : list Z :=
  ([0xC3] ++ [0x00; 0x00; 0x00; 0x01] ++ [8] ++ dcid ++ [8] ++ scid ++ [0x00] ++ qinit_put_varint 1174) ++ pn.

(** Header protection of [header ++ sealed] with a packet number at 26. *)
Definition protect (hp buf : list Z) : list Z :=
  let mask := aes128_encrypt_block (aes128_set_encrypt_key hp) (firstn 16 (skipn 30 buf)) in
  [Z.lxor (nth 0 buf 0) (Z.land (nth 0 mask 0) 0x0f)] ++ firstn 25 (skipn 1 buf) ++
  xor_bytes (firstn 4 (skipn 26 buf)) (firstn 4 (skipn 1 mask)) ++ skipn 30 buf.

Lemma len_initial_header dcid scid pn : len dcid = 8 -> len scid = 8 -> len pn = 4 ->
  len (initial_header dcid scid pn) = 30.
Proof. intros. unfold initial_header. change (qinit_put_varint 1174) with [0x44; 0x96]. autorewrite with awg. lia. Qed.

(** A list of known length split at the fields of the header. *)
Lemma initial_header_fields dcid scid pn : len dcid = 8 -> len scid = 8 -> len pn = 4 ->
  exists l25, initial_header dcid scid pn = [0xC3] ++ l25 ++ pn /\ length l25 = 25%nat /\
    firstn 8 (skipn 5 l25) = dcid /\ forall rest, get_varint (skipn 23 l25 ++ rest) = Some (1174, rest).
Proof.
  intros Hd Hs Hp.
  exists ([0x00; 0x00; 0x00; 0x01; 8] ++ dcid ++ [8] ++ scid ++ [0x00; 0x44; 0x96]).
  unfold initial_header. change (qinit_put_varint 1174) with [0x44; 0x96]. unfold len in *.
  split; [by rewrite <- !app_assoc|]. split; [rewrite !length_app; cbn; lia|]. split.
  - cbn [app skipn]. rewrite drop_0, take_app_le, firstn_all2 by lia. done.
  - intros rest. replace (skipn 23 _) with [0x44; 0x96]; [apply (get_put_varint 1174 rest); lia|].
    symmetry. change (([0; 0; 0; 1; 8] ++ ?l)) with (0 :: 0 :: 0 :: 1 :: 8 :: l). cbn [skipn].
    rewrite drop_app_ge by lia. replace (18 - length dcid)%nat with 10%nat by lia. cbn [app skipn].
    rewrite drop_app_ge by lia. by replace (9 - length scid)%nat with 1%nat by lia.
Qed.

Lemma gcm_open_seal key nonce aad pt : len nonce = 12 -> all_bytes nonce ->
  gcm_open key nonce aad (qinit_aes128_gcm_seal key nonce aad pt) = Some pt.
Proof.
  intros Hn Hb. unfold gcm_open, qinit_aes128_gcm_seal. cbv zeta.
  set (ct := gcm_ctr _ _ _ _ pt).
  destruct (gcm_tag_block (aes128_set_encrypt_key key) nonce aad ct Hn Hb) as [Ht _].
  rewrite length_app, Ht, Nat.add_sub, take_app_length, drop_app_length, decide_True by done.
  unfold ct. by rewrite gcm_ctr_involutive.
Qed.

Lemma mask_split hp sample : length sample = 16%nat -> all_bytes sample ->
  exists m0 k m', aes128_encrypt_block (aes128_set_encrypt_key hp) sample = m0 :: k ++ m' /\ length k = 4%nat /\ all_bytes (m0 :: k).
Proof.
  intros Hl Hb. destruct (encrypt_block16 (aes128_set_encrypt_key hp) sample) as [HL HB]; [done|].
  destruct (aes128_encrypt_block _ _) as [|m0 m]; [done|]. apply Forall_cons_1 in HB as [? ?].
  exists m0, (firstn 4 m), (skipn 4 m). rewrite firstn_skipn. split; [done|]. split.
  - rewrite length_take. cbn in HL. lia.
  - constructor; [done|by apply Forall_take].
Qed.

Lemma protect_shape hp l25 pn sealed : length l25 = 25%nat -> length pn = 4%nat ->
  (16 <= length sealed)%nat -> all_bytes sealed ->
  exists m0 k m', (length k = 4%nat /\ all_bytes (m0 :: k)) /\
    aes128_encrypt_block (aes128_set_encrypt_key hp) (firstn 16 sealed) = m0 :: k ++ m' /\
    protect hp ([0xC3] ++ l25 ++ pn ++ sealed) =
      [Z.lxor 0xC3 (Z.land m0 0x0f)] ++ l25 ++ xor_bytes pn k ++ sealed.
Proof.
  intros Hl Hp Hs Hb.
  destruct (mask_split hp (firstn 16 sealed)) as (m0 & k & m' & E & Hk & Hkb);
    [rewrite length_take; lia|by apply Forall_take|].
  exists m0, k, m'. split; [done|]. split; [done|]. unfold protect.
  do 25 (destruct l25 as [|? l25]; [done|]). destruct l25; [|done].
  do 4 (destruct pn as [|? pn]; [done|]). destruct pn; [|done].
  cbn [app skipn firstn nth]. rewrite drop_0, E. cbn [nth skipn app].
  by rewrite !drop_0, !take_0, (take_app_le k), (firstn_all2 k) by lia.
Qed.

(** The fields of a datagram with a 30-byte header. *)
Lemma initial_fields (b : Z) (l25 x s : list Z) : length l25 = 25%nat -> length x = 4%nat ->
  let dg := [b] ++ l25 ++ x ++ s in
  firstn 8 (skipn 6 dg) = firstn 8 (skipn 5 l25) /\ skipn 30 dg = s /\ firstn 25 (skipn 1 dg) = l25 /\
  firstn 4 (skipn 26 dg) = x /\ skipn 24 dg = skipn 23 l25 ++ x ++ s.
Proof.
  intros Hl Hx dg. subst dg. do 25 (destruct l25 as [|? l25]; [done|]). destruct l25; [|done].
  do 4 (destruct x as [|? x]; [done|]). by destruct x.
Qed.

Lemma protect_size hp header sealed : len header = 30 -> all_bytes header -> (16 <= length sealed)%nat ->
  all_bytes sealed -> nth 0 header 0 = 0xC3 ->
  len (protect hp (header ++ sealed)) = 30 + len sealed /\ all_bytes (protect hp (header ++ sealed)).
Proof.
  intros Hh Hb Hs Hsb H0. destruct header as [|c header]; [done|]. cbn in H0. subst c.
  rewrite len_cons in Hh. unfold len in Hh. apply Forall_cons_1 in Hb as [_ Hb].
  assert (length (firstn 25 header) = 25%nat /\ length (skipn 25 header) = 4%nat) as [H25 Hp].
  { rewrite length_take, length_drop. lia. }
  rewrite <- (firstn_skipn 25 header) in Hb |- *.
  set (l25 := firstn 25 header) in *. set (pn := skipn 25 header) in *. clearbody l25 pn.
  apply Forall_app in Hb as [? ?].
  destruct (protect_shape hp l25 pn sealed) as (m0 & k & m' & [Hkl Hkb] & _ & Ep); [done..|].
  change ((195 :: l25 ++ pn) ++ sealed) with ([195] ++ (l25 ++ pn) ++ sealed).
  rewrite <- app_assoc, Ep. apply Forall_cons_1 in Hkb as [Hm Hkb]. split.
  - autorewrite with awg. unfold len. rewrite length_xor_bytes, H25, Hp, Hkl. lia.
  - apply Forall_app; split; [constructor; [|done]|].
    + apply is_byte_lxor; [unfold is_byte; lia|]. change 15 with (Z.ones 4). unfold is_byte.
      pose proof (mask_range 4 m0). lia.
    + apply Forall_app; split; [done|]. apply Forall_app; split; [|done]. by apply xor_bytes_all_bytes.
Qed.

Lemma nonce_size iv pn : len iv = 12 -> all_bytes iv -> len pn = 4 -> all_bytes pn ->
  len (firstn 8 iv ++ xor_bytes (skipn 8 iv) pn) = 12 /\ all_bytes (firstn 8 iv ++ xor_bytes (skipn 8 iv) pn).
Proof.
  intros. split.
  - unfold len in *. rewrite length_app, length_take, length_xor_bytes, length_drop. lia.
  - apply Forall_app. split; [by apply Forall_take|]. apply xor_bytes_all_bytes; [by apply Forall_drop|done].
Qed.

(** What the receiver computes from a protected packet. *)
Lemma initial_payload_protect dcid scid pn payload key iv hp :
  len dcid = 8 -> len scid = 8 -> len pn = 4 -> all_bytes pn -> all_bytes payload -> len payload = 1154 ->
  qinit_derive_initial_keys dcid = (key, iv, hp) -> len iv = 12 -> all_bytes iv ->
  let nonce := firstn 8 iv ++ xor_bytes (skipn 8 iv) pn in
  initial_payload (protect hp (initial_header dcid scid pn ++
    qinit_aes128_gcm_seal key nonce (initial_header dcid scid pn) payload)) = Some payload.
Proof.
  intros Hd Hs Hp Hpb Hb Hl Hk Hi Hib nonce.
  destruct (nonce_size iv pn Hi Hib Hp Hpb) as [Hn Hnb]. fold nonce in Hn, Hnb.
  destruct (initial_header_fields dcid scid pn Hd Hs Hp) as (l25 & Eh & H25 & Hdc & Hv).
  set (sealed := qinit_aes128_gcm_seal key nonce (initial_header dcid scid pn) payload).
  destruct (seal_size key nonce (initial_header dcid scid pn) payload Hn Hnb Hb) as [HS HSb].
  fold sealed in HS, HSb.
  destruct (protect_shape hp l25 pn sealed) as (m0 & k & m' & [Hkl _] & Em & Ep);
    [done|unfold len in *; lia|unfold len in *; lia|done|].
  rewrite Eh, <- !app_assoc, Ep.
  assert (length (xor_bytes pn k) = 4%nat) as Hx by (rewrite length_xor_bytes; unfold len in *; lia).
  destruct (initial_fields (Z.lxor 195 (Z.land m0 15)) l25 (xor_bytes pn k) sealed H25 Hx)
    as (F1 & F2 & F3 & F4 & F5).
  unfold initial_payload. rewrite F1, F2, F3, F4, F5, Hdc, Hk, Em, Hv. cbn [nth skipn app mbind option_bind].
  rewrite drop_0, take_app_le, (firstn_all2 k), xor_bytes_involutive by (unfold len in *; lia).
  rewrite Z.lxor_assoc, Z.lxor_nilpotent, Z.lxor_0_r.
  change (195 :: l25 ++ pn) with ([195] ++ l25 ++ pn). rewrite <- Eh.
  rewrite len_cons, !len_app, HS, Hl. unfold len at 1 2. rewrite H25, Hx. cbn [Z.eqb andb].
  by apply gcm_open_seal.
Qed.

Lemma crypto_frame_put ch pad : len ch < 2 ^ 62 ->
  crypto_frame ((qinit_put_varint 0x06 ++ qinit_put_varint 0 ++ qinit_put_varint (len ch) ++ ch) ++ repeat 0 pad)
  = Some ch.
Proof.
  intros Hc. pose proof (len_nonneg ch). unfold crypto_frame. rewrite <- !app_assoc.
  do 3 (rewrite get_put_varint by lia; cbn [mbind option_bind]).
  assert (Z.to_nat (len ch) = length ch) as -> by (unfold len; lia).
  rewrite len_app, drop_app_length, take_app_length.
  assert (forallb (Z.eqb 0) (repeat 0 pad) = true) as ->.
  { apply forallb_forall. intros x Hx%repeat_spec. by subst. }
  destruct (Z.leb_spec (len ch) (len ch + len (repeat 0 pad))); [done|].
  pose proof (len_nonneg (repeat 0 pad)). lia.
Qed.

Lemma repeat_0_bytes n : all_bytes (repeat 0 n).
Proof. induction n; cbn; constructor; [unfold is_byte; lia|done]. Qed.

Lemma varint_length_2 v : 63 < v <= 16383 -> len (qinit_put_varint v) = 2.
Proof.
  intros. unfold qinit_put_varint. destruct (Z.leb_spec v 63); [lia|]. by destruct (Z.leb_spec v 16383); [|lia].
Qed.

(** The tail of [qinit_build] once the keys and the ClientHello are there. *)
Lemma qinit_protect dcid scid pn ch key iv hp : len dcid = 8 -> all_bytes dcid -> len scid = 8 ->
  all_bytes scid -> len pn = 4 -> all_bytes pn -> 63 < len ch <= 1150 -> all_bytes ch ->
  qinit_derive_initial_keys dcid = (key, iv, hp) ->
  let frame := qinit_put_varint 0x06 ++ qinit_put_varint 0 ++ qinit_put_varint (len ch) ++ ch in
  let payload := frame ++ repeat 0 (Z.to_nat (1154 - len frame)) in
  let header := initial_header dcid scid pn in
  let nonce := firstn 8 iv ++ xor_bytes (skipn 8 iv) pn in
  let buf := header ++ qinit_aes128_gcm_seal key nonce header payload in
  len frame = 4 + len ch /\ len payload = 1154 /\ len buf = 1200 /\
  len (protect hp buf) = 1200 /\ all_bytes (protect hp buf) /\
  initial_payload (protect hp buf) = Some payload /\ crypto_frame payload = Some ch.
Proof.
  intros Hd Hdb Hs Hsb Hp Hpb Hc Hcb Hk frame payload header nonce buf.
  destruct (derive_keys_size dcid) as (key' & iv' & hp' & E & _ & [Hi Hib] & _).
  rewrite Hk in E. simplify_eq.
  assert (len frame = 4 + len ch) as Hf.
  { unfold frame. rewrite !len_app, (varint_length_2 (len ch)) by lia. change (len (qinit_put_varint 6)) with 1.
    change (len (qinit_put_varint 0)) with 1. lia. }
  assert (len payload = 1154) as Hpl by (unfold payload; rewrite len_app, len_repeat; lia).
  assert (all_bytes payload) as Hplb by (unfold payload, frame; enc_bytes; apply repeat_0_bytes).
  pose proof (initial_payload_protect dcid scid pn payload key' iv' hp' Hd Hs Hp Hpb Hplb Hpl Hk Hi Hib) as Hrt.
  destruct (nonce_size iv' pn Hi Hib Hp Hpb) as [Hn Hnb]. fold nonce in Hn, Hnb.
  destruct (seal_size key' nonce header payload Hn Hnb Hplb) as [HS HSb].
  pose proof (len_initial_header dcid scid pn Hd Hs Hp) as Hh. fold header in Hh.
  split; [done|]. split; [done|]. split; [unfold buf; rewrite len_app; lia|].
  destruct (protect_size hp' header (qinit_aes128_gcm_seal key' nonce header payload)) as [? ?];
    [done|unfold header, initial_header; enc_bytes|unfold len in *; lia|done|done|].
  split; [unfold buf; lia|]. split; [done|]. split; [exact Hrt|apply crypto_frame_put; lia].
Qed.

Lemma build_receive {rctx} (rand : rctx -> Z -> list Z * rctx) sni st :
  source_ok rand -> 0 < len sni <= 255 -> all_bytes sni ->
  exists dg st', qinit_build rand sni st = Some (Ok dg, st') /\
    len dg = QINIT_DATAGRAM_LEN /\ all_bytes dg /\ initial_sni dg = Some sni.
Proof.
  intros Hok Hs Hsb. unfold qinit_build.
  destruct (Hok st 8) as [Hd Hdb]; [lia|]. destruct (rand st 8) as [dcid st1]. cbn [fst] in *.
  destruct (Hok st1 8) as [Hc Hcb]; [lia|]. destruct (rand st1 8) as [scid st2]. cbn [fst] in *.
  destruct (Hok st2 4) as [Hp Hpb]; [lia|]. destruct (rand st2 4) as [pn st3]. cbn [fst] in *.
  destruct (qinit_derive_initial_keys dcid) as [[key iv] hp] eqn:Hk.
  destruct (build_client_hello_ok rand Hok sni scid st3 Hs Hsb Hc Hcb) as (ch & st4 & -> & Hsni & Hl & Hchb).
  cbn [mbind option_bind].
  destruct (qinit_protect dcid scid pn ch key iv hp) as (Hf & Hpl & Hbuf & HL & HB & Hrt & Hcf); [done..|lia|done|done|].
  fold (initial_header dcid scid pn). pose proof (len_initial_header dcid scid pn Hd Hc Hp) as Hh.
  rewrite scratch_ok by lia. cbn [mbind option_bind].
  set (frame := _ ++ _ ++ _ ++ ch) in *. rewrite scratch_ok by lia. cbn [mbind option_bind].
  destruct (Z.ltb_spec (len frame) 1154); [|lia].
  set (payload := frame ++ repeat 0 _) in *. rewrite (firstn_all2 payload) by (unfold len in Hpl; lia).
  rewrite scratch_ok by (unfold QINIT_DATAGRAM_LEN; lia). cbn [mbind option_bind].
  assert (length ([0xC3] ++ [0; 0; 0; 1] ++ [8] ++ dcid ++ [8] ++ scid ++ [0] ++ qinit_put_varint 1174) = 26%nat) as ->.
  { unfold len in Hd, Hc. rewrite !length_app. change (length (qinit_put_varint 1174)) with 2%nat. cbn [length]. lia. }
  eexists _, _. split; [reflexivity|]. split; [exact HL|]. split; [exact HB|].
  change (initial_sni (protect hp (initial_header dcid scid pn ++ qinit_aes128_gcm_seal key
    (firstn 8 iv ++ xor_bytes (skipn 8 iv) pn) (initial_header dcid scid pn) payload)) = Some sni).
  unfold initial_sni. rewrite Hrt. cbn [mbind option_bind]. rewrite Hcf. cbn [mbind option_bind]. done.
Qed.

Lemma qinit_build_total {rctx} (rand : rctx -> Z -> list Z * rctx) sni st :
  source_ok rand -> 0 < len sni <= 255 -> all_bytes sni ->
  exists dg st', qinit_build rand sni st = Some (Ok dg, st') /\ len dg = QINIT_DATAGRAM_LEN.
Proof. intros H1 H2 H3. destruct (build_receive rand sni st H1 H2 H3) as (dg & st' & ? & ? & _). eauto. Qed.


(** A source for the witnesses. *)
Definition zero_source (st : Z) (n : Z) : list Z * Z := (repeat 0 (Z.to_nat n), st + 1).

Lemma zero_source_ok : source_ok zero_source.
Proof. intros st n Hn. split; [cbn; rewrite len_repeat; lia|apply repeat_0_bytes]. Qed.


(** ** GHASH multiplication as NIST SP 800-38D defines it

    Algorithm 1 on 128-bit blocks read as big-endian integers. *)

Definition NIST_R : Z := 0xe1 * 2 ^ 120.

Definition nist_step (st : Z * Z) (xi : bool) : Z * Z :=
  let '(z, v) := st in
  (if xi then Z.lxor z v else z, if Z.odd v then Z.lxor (Z.shiftr v 1) NIST_R else Z.shiftr v 1).

Definition nist_mul (x : list bool) (y : Z) : Z := fst (fold_left nist_step x (0, y)).

Abbreviation be_acc := (fold_left (fun acc x => acc * 256 + x)).

Lemma pack_byte s x : 0 <= s -> is_byte x -> s * 256 + x = Z.lxor (Z.shiftl s 8) x.
Proof.
  intros Hs Hx. rewrite <- Z.add_nocarry_lxor; [rewrite Z.shiftl_mul_pow2 by lia; done|].
  apply Z.bits_inj'. intros i Hi. rewrite Z.land_spec, Z.bits_0.
  destruct (Z.lt_ge_cases i 8); [by rewrite Z.shiftl_spec_low by lia|].
  rewrite <- (mask_small 8 x) by (lia || done). rewrite Z.land_spec, Z.ones_spec_high by lia.
  by rewrite !andb_false_r.
Qed.

Lemma be_acc_nonneg l : forall s, 0 <= s -> all_bytes l -> 0 <= be_acc l s.
Proof.
  induction l as [|x l IH]; intros s Hs Hl; cbn [fold_left]; [done|].
  apply Forall_cons_1 in Hl as [Hx Hl]. apply IH; [|done]. unfold is_byte in Hx. lia.
Qed.

Lemma be_acc_xor a : forall b s t, length a = length b -> 0 <= s -> 0 <= t -> all_bytes a -> all_bytes b ->
  be_acc (xor_bytes a b) (Z.lxor s t) = Z.lxor (be_acc a s) (be_acc b t).
Proof.
  induction a as [|x a IH]; intros [|y b] s t Hl Hs Ht Ha Hb; try done. cbn [xor_bytes fold_left].
  apply Forall_cons_1 in Ha as [Hx Ha]. apply Forall_cons_1 in Hb as [Hy Hb].
  assert (Z.lxor s t * 256 + Z.lxor x y = Z.lxor (s * 256 + x) (t * 256 + y)) as ->.
  { rewrite !pack_byte by (auto with awg; apply Z.lxor_nonneg; lia). rewrite Z.shiftl_lxor.
    rewrite !Z.lxor_assoc. f_equal. rewrite <- !Z.lxor_assoc. f_equal. apply Z.lxor_comm. }
  apply IH; try done; [by injection Hl|unfold is_byte in *; lia..].
Qed.

Lemma be_value_xor a b : length a = length b -> all_bytes a -> all_bytes b ->
  be_value (xor_bytes a b) = Z.lxor (be_value a) (be_value b).
Proof. intros. by apply (be_acc_xor a b 0 0). Qed.

Lemma shr1_value b prev : is_byte b ->
  Z.lor (Z.shiftr b 1) (Z.shiftl (Z.land prev 1) 7) = b / 2 + 128 * (prev mod 2).
Proof.
  intros Hb. change 1 with (Z.ones 1) at 2. rewrite Z.land_ones by lia. change (2 ^ 1) with 2.
  assert (prev mod 2 = 0 \/ prev mod 2 = 1) as [-> | ->] by lia.
  - change (Z.shiftl 0 7) with 0. rewrite Z.lor_0_r, Z.shiftr_div_pow2 by lia. change (2 ^ 1) with 2. lia.
  - revert b Hb. apply (byte_eq_check (fun b => Z.lor (Z.shiftr b 1) (Z.shiftl 1 7)) (fun b => b / 2 + 128 * 1)).
    vm_compute. reflexivity.
Qed.

Lemma be_acc_shr1 v : forall prev acc, all_bytes v -> 0 <= acc -> acc mod 2 = prev mod 2 ->
  be_acc (shr1 prev v) (acc / 2) = be_acc v acc / 2.
Proof.
  induction v as [|b v IH]; intros prev acc Hv Ha Hp; cbn [shr1 fold_left]; [done|].
  apply Forall_cons_1 in Hv as [Hb Hv]. rewrite shr1_value by done.
  replace (acc / 2 * 256 + (b / 2 + 128 * (prev mod 2))) with ((acc * 256 + b) / 2) by lia.
  apply IH; [done|unfold is_byte in Hb; lia|lia].
Qed.

Lemma be_acc_odd v : forall acc, v <> [] -> be_acc v acc mod 2 = nth (length v - 1) v 0 mod 2.
Proof.
  induction v as [|b v IH]; intros acc Hv; [done|]. destruct v as [|c v]; [cbn; lia|].
  cbn [fold_left]. change (be_acc (c :: v) (acc * 256 + b) mod 2 = nth (length v) (c :: v) 0 mod 2).
  rewrite IH by done. cbn [length]. by rewrite Nat.sub_1_r.
Qed.

Lemma gmul_shift_value v : block16 v ->
  be_value (gmul_shift v) = (if Z.odd (be_value v) then Z.lxor (Z.shiftr (be_value v) 1) NIST_R
                             else Z.shiftr (be_value v) 1).
Proof.
  intros [Hl Hb]. unfold gmul_shift. set (l := shr1 0 v).
  assert (be_value l = Z.shiftr (be_value v) 1) as E.
  { rewrite Z.shiftr_div_pow2 by lia. exact (be_acc_shr1 v 0 0 Hb ltac:(lia) eq_refl). }
  pose proof (shr1_length 0 v) as HL. pose proof (shr1_bytes v 0 Hb) as HB. fold l in HL, HB.
  assert (Z.land (nth 15 v 0) 1 = be_value v mod 2) as ->.
  { change 1 with (Z.ones 1). rewrite Z.land_ones by lia. unfold be_value.
    rewrite be_acc_odd by (by destruct v). by rewrite Hl. }
  rewrite Zmod_odd, <- E. clearbody l. destruct l as [|v0 v']; [cbn in HL; lia|].
  destruct (Z.odd (be_value v)); [|done]. cbn [Z.eqb].
  change NIST_R with (be_value (0xe1 :: repeat 0 15)). rewrite <- be_value_xor; [|cbn in *; lia|done|].
  - cbn [xor_bytes]. f_equal. f_equal. cbn in HL. rewrite Hl in HL. injection HL as HL.
    clear -HL. do 15 (destruct v' as [|? v']; [done|]). destruct v'; [|done].
    cbn [repeat xor_bytes]. by rewrite !Z.lxor_0_r.
  - constructor; [unfold is_byte; lia|apply repeat_0_bytes].
Qed.

Lemma land_bit zi bit : 0 <= bit -> (Z.land zi (Z.shiftl 1 bit) =? 0) = negb (Z.testbit zi bit).
Proof.
  intros Hb. rewrite Z.shiftl_1_l. destruct (Z.testbit zi bit) eqn:E; cbn [negb].
  - apply Z.eqb_neq. intros H. assert (Z.testbit (Z.land zi (2 ^ bit)) bit = true) as Ht
      by (rewrite Z.land_spec, E, Z.pow2_bits_true by lia; done).
    by rewrite H, Z.bits_0 in Ht.
  - apply Z.eqb_eq. apply Z.bits_inj'. intros i Hi. rewrite Z.land_spec, Z.bits_0.
    destruct (Z.eq_dec bit i) as [<-|]; [by rewrite E|].
    by rewrite Z.pow2_bits_false, andb_false_r by done.
Qed.

Definition be_pair (st : list Z * list Z) : Z * Z := (be_value (fst st), be_value (snd st)).

Lemma gmul_bits_nist bits zi : Forall (fun b => 0 <= b) bits -> forall r v, block16 r -> block16 v ->
  be_pair (gmul_bits bits zi (r, v)) =
  fold_left nist_step (map (Z.testbit zi) bits) (be_value r, be_value v).
Proof.
  induction 1 as [|bit bits Hb Hbs IH]; intros r v Hr Hv; cbn [gmul_bits map fold_left]; [done|].
  rewrite land_bit, IH by (done || (case_match; [done|by apply xor_bytes_block]) || by apply gmul_shift_block).
  f_equal. unfold nist_step. f_equal.
  - destruct (Z.testbit zi bit); cbn [negb]; [|done]. apply be_value_xor; [|apply Hr|apply Hv].
    destruct Hr as [-> _], Hv as [-> _]. done.
  - by apply gmul_shift_value.
Qed.

Lemma gmul_fold_nist z : forall r v, block16 r -> block16 v ->
  be_pair (fold_left (fun st zi => gmul_bits [7; 6; 5; 4; 3; 2; 1; 0] zi st) z (r, v)) =
  fold_left nist_step (concat (map byte_bits z)) (be_value r, be_value v).
Proof.
  induction z as [|zi z IH]; intros r v Hr Hv; cbn [fold_left map concat]; [done|].
  rewrite fold_left_app. change (byte_bits zi) with (map (Z.testbit zi) [7; 6; 5; 4; 3; 2; 1; 0]).
  rewrite <- gmul_bits_nist; [|repeat constructor; lia|done|done].
  pose proof (gmul_bits_block [7; 6; 5; 4; 3; 2; 1; 0] zi r v Hr Hv) as [? ?].
  destruct (gmul_bits _ _ _) as [r' v']. by apply IH.
Qed.

#[local] Transparent gcm_gmul.

(** The field multiplication under GHASH is the one of NIST SP 800-38D:
    on blocks of sixteen bytes the byte-wise loop with its in-place shift
    computes Algorithm 1 on the blocks read as bit strings. *)
Theorem gcm_gmul_nist z v : length v = 16%nat -> all_bytes v ->
  be_value (gcm_gmul z v) = nist_mul (concat (map byte_bits z)) (be_value v).
Proof.
  intros Hl Hb. pose proof (gmul_fold_nist z (repeat 0 16) v block16_zero (conj Hl Hb)) as E.
  unfold gcm_gmul, nist_mul. change (0, be_value v) with (be_value (repeat 0 16), be_value v).
  rewrite <- E. done.
Qed.

Lemma gcm_gmul_nist_witness :
  be_value (gcm_gmul (repeat 3 16) (repeat 5 16)) =
  nist_mul (concat (map byte_bits (repeat 3 16))) (be_value (repeat 5 16)).
Proof.
  apply gcm_gmul_nist; [reflexivity|]. repeat (constructor; [unfold is_byte; lia|]). constructor.
Defined.
