(* ===== verification/Chacha.v ===== *)
(** * ChaCha20 ([src/crypto/zinc/chacha20/chacha20.c], [src/crypto/include/zinc/chacha20.h])

    The generic implementation: the state of sixteen words, the rounds as
    assignments to its elements, and the loop over the blocks of a message.
    It is shown to be the stream cipher of RFC 8439 with a counter of 32 bits
    and a nonce of 64 bits, and the rounds to be the column and diagonal rounds on a
    matrix.  The assembly variants are selected by the build; they are
    not part of this model. *)

From S2P Require Import Prelude Words.
From stdpp Require Import list.
From Stdlib Require Import ZifyNat.
#[local] Open Scope Z_scope.

Definition CHACHA20_BLOCK_SIZE : Z := 64.
Definition CHACHA20_CONSTANT : list Z := [0x61707865; 0x3320646e; 0x79622d32; 0x6b206574].

(** ** The code *)

(** [x[i]] *)
Definition word (x : list Z) (i : nat) : Z := nth i x 0.

(** [x[a] += x[b], x[d] = rol32((x[d] ^ x[a]), n)] *)
Definition half_step (x : list Z) (a b d : nat) (n : Z) : list Z :=
  let x := <[a := u32 (word x a + word x b)]> x in
  <[d := rol32 (Z.lxor (word x d) (word x a)) n]> x.

Definition QUARTER_ROUND (x : list Z) (a b c d : nat) : list Z :=
  let x := half_step x a b d 16 in
  let x := half_step x c d b 12 in
  let x := half_step x a b d 8 in
  half_step x c d b 7.

Definition CELL (i j : nat) : nat := (i * 4 + j)%nat.

Definition DOUBLE_ROUND (x : list Z) : list Z :=
  let x := QUARTER_ROUND x (CELL 0 0) (CELL 1 0) (CELL 2 0) (CELL 3 0) in
  let x := QUARTER_ROUND x (CELL 0 1) (CELL 1 1) (CELL 2 1) (CELL 3 1) in
  let x := QUARTER_ROUND x (CELL 0 2) (CELL 1 2) (CELL 2 2) (CELL 3 2) in
  let x := QUARTER_ROUND x (CELL 0 3) (CELL 1 3) (CELL 2 3) (CELL 3 3) in
  let x := QUARTER_ROUND x (CELL 0 0) (CELL 1 1) (CELL 2 2) (CELL 3 3) in
  let x := QUARTER_ROUND x (CELL 0 1) (CELL 1 2) (CELL 2 3) (CELL 3 0) in
  let x := QUARTER_ROUND x (CELL 0 2) (CELL 1 3) (CELL 2 0) (CELL 3 1) in
  QUARTER_ROUND x (CELL 0 3) (CELL 1 0) (CELL 2 1) (CELL 3 2).

Definition TWENTY_ROUNDS (x : list Z) : list Z := Nat.iter 10 DOUBLE_ROUND x.

(** [struct chacha20_ctx] is its sixteen words: four constants, the key and
    [counter[4]]. *)
Definition chacha20_init (key : list Z) (nonce : Z) : list Z :=
  CHACHA20_CONSTANT ++ map (fun i => get_unaligned_le32 (4 * i) key) [0; 1; 2; 3; 4; 5; 6; 7] ++ [0; 0; Z.land nonce (2 ^ 32 - 1); Z.shiftr nonce 32].

(** The bytes of [stream] and the context. *)
Definition chacha20_block_generic (ctx : list Z) : list Z * list Z :=
  let x := TWENTY_ROUNDS ctx in
  (concat (map (fun ij => le_bytes 4 (u32 (ij.1 + ij.2))) (combine x ctx)), <[12%nat := u32 (word ctx 12 + 1)]> ctx).

(** [while (len >= CHACHA20_BLOCK_SIZE) ...] and the last block: every round
    consumes a block, so there are at most [length src / 64 + 1]. *)
Fixpoint chacha20_loop (fuel : nat) (ctx : list Z) (src : list Z) : list Z * list Z :=
  match fuel with
  | O => ([], ctx)
  | S f =>
      if len src >=? CHACHA20_BLOCK_SIZE then
        let '(buf, ctx) := chacha20_block_generic ctx in
        let '(out, ctx) := chacha20_loop f ctx (skipn 64 src) in
        (xor_bytes (firstn 64 src) buf ++ out, ctx)
      else if negb (len src =? 0) then
        let '(buf, ctx) := chacha20_block_generic ctx in (xor_bytes src (firstn (length src) buf), ctx)
      else ([], ctx)
  end.

(** [chacha20_generic]: what is stored in [dst] and the context. *)
Definition chacha20 (ctx : list Z) (src : list Z) : list Z * list Z := chacha20_loop (length src / 64 + 1) ctx src.

(** The eight words of the derived key. *)
Definition hchacha20 (nonce key : list Z) : list Z :=
  let x := CHACHA20_CONSTANT ++ map (fun i => get_unaligned_le32 (4 * i) key) [0; 1; 2; 3; 4; 5; 6; 7] ++ map (fun i => get_unaligned_le32 (4 * i) nonce) [0; 1; 2; 3] in
  let x := TWENTY_ROUNDS x in
  firstn 4 x ++ firstn 4 (skipn 12 x).

(** ** RFC 8439 *)

(** Section 2.1. *)
Definition quarter (s : Z * Z * Z * Z) : Z * Z * Z * Z :=
  let '(a, b, c, d) := s in
  let a := u32 (a + b) in let d := rol32 (Z.lxor d a) 16 in
  let c := u32 (c + d) in let b := rol32 (Z.lxor b c) 12 in
  let a := u32 (a + b) in let d := rol32 (Z.lxor d a) 8 in
  let c := u32 (c + d) in let b := rol32 (Z.lxor b c) 7 in
  (a, b, c, d).

(** The state as a matrix of four rows. *)
Record matrix := Matrix { row0 : list Z; row1 : list Z; row2 : list Z; row3 : list Z }.
Definition flatten (m : matrix) : list Z := row0 m ++ row1 m ++ row2 m ++ row3 m.

Definition column_round (m : matrix) : matrix :=
  let q := map quarter (combine (combine (combine (row0 m) (row1 m)) (row2 m)) (row3 m)) in
  Matrix (map (fun x => x.1.1.1) q) (map (fun x => x.1.1.2) q) (map (fun x => x.1.2) q) (map snd q).

(** Shifting the rows turns the diagonals into columns. *)
Definition rotate (n : nat) (r : list Z) : list Z := skipn n r ++ firstn n r.
Definition diagonal_round (m : matrix) : matrix :=
  let m := column_round (Matrix (row0 m) (rotate 1 (row1 m)) (rotate 2 (row2 m)) (rotate 3 (row3 m))) in
  Matrix (row0 m) (rotate 3 (row1 m)) (rotate 2 (row2 m)) (rotate 1 (row3 m)).

(** Sections 2.3 and 2.4: the block with the number [n] of the state, and the stream from its counter on. *)
Definition block_spec (m : matrix) : list Z :=
  let m' := Nat.iter 10 (fun m => diagonal_round (column_round m)) m in
  concat (map (fun ij => le_bytes 4 (u32 (ij.1 + ij.2))) (combine (flatten m') (flatten m))).

Definition with_counter (n : Z) (m : matrix) : matrix := Matrix (row0 m) (row1 m) (row2 m) (<[0%nat := n]> (row3 m)).
Definition counter_of (m : matrix) : Z := nth 0 (row3 m) 0.

Definition keystream (m : matrix) (n : nat) : list Z := concat (map (fun i => block_spec (with_counter (u32 (counter_of m + Z.of_nat i)) m)) (seq 0 n)).

(** * The rounds *)

(** A matrix of four times four words. *)
Definition square (m : matrix) : Prop := length (row0 m) = 4%nat /\ length (row1 m) = 4%nat /\ length (row2 m) = 4%nat /\ length (row3 m) = 4%nat.

(** The four assignments at once. *)
Definition quarter_at (x : list Z) (a b c d : nat) : list Z :=
  let '(a', b', c', d') := quarter (word x a, word x b, word x c, word x d) in <[a := a']> (<[b := b']> (<[c := c']> (<[d := d']> x))).

Lemma list4 {A} (l : list A) : length l = 4%nat -> exists a b c d, l = [a; b; c; d].
Proof. destruct l as [|a [|b [|c [|d [|]]]]]; try done. by exists a, b, c, d. Qed.

Lemma word_insert_eq x i v : (i < length x)%nat -> word (<[i := v]> x) i = v.
Proof. intros H. unfold word. apply nth_lookup_Some. by apply list_lookup_insert_eq. Qed.
Lemma word_insert_ne x i j v : i <> j -> word (<[i := v]> x) j = word x j.
Proof. intros H. unfold word. by rewrite !nth_lookup, list_lookup_insert_ne. Qed.

Lemma half_step_words x a b d n : a <> d -> a <> b -> (a < length x)%nat -> (d < length x)%nat ->
  let a' := u32 (word x a + word x b) in
  length (half_step x a b d n) = length x /\
  word (half_step x a b d n) a = a' /\ word (half_step x a b d n) d = rol32 (Z.lxor (word x d) a') n /\
  forall i, i <> a -> i <> d -> word (half_step x a b d n) i = word x i.
Proof.
  intros Dad Dab La Ld. cbv zeta. unfold half_step. rewrite (word_insert_ne x a d), (word_insert_eq x a) by done.
  split; [by rewrite !length_insert|]. split; [by rewrite word_insert_ne, word_insert_eq|]. split; [by rewrite word_insert_eq by (by rewrite length_insert)|].
  intros i Da Dd. by rewrite !word_insert_ne.
Qed.

Lemma QUARTER_ROUND_at x a b c d : a <> b -> a <> c -> a <> d -> b <> c -> b <> d -> c <> d ->
  (a < length x)%nat -> (b < length x)%nat -> (c < length x)%nat -> (d < length x)%nat -> QUARTER_ROUND x a b c d = quarter_at x a b c d.
Proof.
  intros Dab Dac Dad Dbc Dbd Dcd La Lb Lc Ld. unfold QUARTER_ROUND, quarter_at, quarter. cbv zeta.
  destruct (half_step_words x a b d 16) as (L1 & A1 & D1 & W1); [done..|]. set (x1 := half_step x a b d 16) in *.
  destruct (half_step_words x1 c d b 12) as (L2 & C2 & B2 & W2); [done|done|lia|lia|]. set (x2 := half_step x1 c d b 12) in *.
  destruct (half_step_words x2 a b d 8) as (L3 & A3 & D3 & W3); [done|done|lia|lia|]. set (x3 := half_step x2 a b d 8) in *.
  destruct (half_step_words x3 c d b 7) as (L4 & C4 & B4 & W4); [done|done|lia|lia|]. set (x4 := half_step x3 c d b 7) in *.
  rewrite (W1 c), D1 in C2 by done. rewrite (W1 b), (W1 c), D1 in B2 by done. rewrite (W2 a), A1, B2 in A3 by done. rewrite (W2 d), (W2 a), A1, D1, B2 in D3 by done.
  rewrite (W3 c), C2, D3 in C4 by done. rewrite (W3 b), (W3 c), B2, C2, D3 in B4 by done.
  apply (nth_ext _ _ 0 0); [rewrite !length_insert; congruence|]. intros i _. change (nth i ?l 0) with (word l i).
  destruct (decide (i = a)) as [->|Da]; [|destruct (decide (i = b)) as [->|Db]; [|destruct (decide (i = c)) as [->|Dc]; [|destruct (decide (i = d)) as [->|Dd]]]].
  - rewrite (W4 a) by done. rewrite A3, word_insert_eq by (rewrite !length_insert; lia). done.
  - rewrite B4, word_insert_ne, word_insert_eq by (done || (rewrite !length_insert; lia)). done.
  - rewrite C4, !word_insert_ne, word_insert_eq by (done || (rewrite !length_insert; lia)). done.
  - rewrite (W4 d) by done. rewrite D3, !word_insert_ne, word_insert_eq by (done || (rewrite !length_insert; lia)). done.
  - rewrite (W4 i), (W3 i), (W2 i), (W1 i), !word_insert_ne by done. done.
Qed.

(** Replaces the next quarter round on a state of sixteen variables. *)
Ltac quarter_step :=
  match goal with |- context [QUARTER_ROUND ?x ?a ?b ?c ?d] =>
    lazymatch x with context [QUARTER_ROUND] => fail | _ => idtac end;
    rewrite (QUARTER_ROUND_at x a b c d) by (cbn; lia); unfold quarter_at; cbn [word nth CELL Nat.add Nat.mul];
    match goal with |- context [quarter ?q] => let E := fresh "E" in destruct (quarter q) as [[[? ?] ?] ?] eqn:E end;
    cbn [insert list_insert]
  end.

Lemma DOUBLE_ROUND_spec m : square m -> DOUBLE_ROUND (flatten m) = flatten (diagonal_round (column_round m)) /\ square (diagonal_round (column_round m)).
Proof.
  destruct m as [r0 r1 r2 r3]. intros (H0 & H1 & H2 & H3). cbn [row0 row1 row2 row3] in *.
  destruct (list4 r0 H0) as (x0 & x1 & x2 & x3 & ->). destruct (list4 r1 H1) as (x4 & x5 & x6 & x7 & ->).
  destruct (list4 r2 H2) as (x8 & x9 & x10 & x11 & ->). destruct (list4 r3 H3) as (x12 & x13 & x14 & x15 & ->).
  split; [|done]. unfold DOUBLE_ROUND, flatten. cbn [row0 row1 row2 row3 app]. cbv zeta. do 8 quarter_step.
  unfold diagonal_round, column_round. cbn [row0 row1 row2 row3 combine map fst snd rotate skipn firstn app].
  repeat match goal with E : quarter _ = _ |- _ => rewrite E; clear E; cbn [fst snd] end. done.
Qed.

Lemma TWENTY_ROUNDS_spec m : square m ->
  let m' := Nat.iter 10 (fun m => diagonal_round (column_round m)) m in TWENTY_ROUNDS (flatten m) = flatten m' /\ square m'.
Proof.
  intros Hm. cbv zeta. unfold TWENTY_ROUNDS. generalize 10%nat as n. induction n as [|n IH]; [done|]. change (Nat.iter (S n) ?f ?x) with (f (Nat.iter n f x)). destruct IH as [-> Hs]. by apply DOUBLE_ROUND_spec.
Qed.

(** * The stream *)

Lemma length_flatten m : square m -> length (flatten m) = 16%nat.
Proof. intros (H0 & H1 & H2 & H3). unfold flatten. rewrite !length_app. lia. Qed.

Lemma length_words (l : list (Z * Z)) : length (concat (map (fun ij => le_bytes 4 (u32 (ij.1 + ij.2))) l)) = (4 * length l)%nat.
Proof. induction l as [|x l IH]; [done|]. cbn [map concat length]. rewrite length_app, length_le_bytes, IH. lia. Qed.

Lemma length_block_spec m : square m -> length (block_spec m) = 64%nat.
Proof.
  intros Hm. unfold block_spec. rewrite length_words, length_combine, (length_flatten m Hm). destruct (TWENTY_ROUNDS_spec m Hm) as [_ Hs]. rewrite (length_flatten _ Hs). done.
Qed.

Lemma block_spec_bytes m : all_bytes (block_spec m).
Proof.
  unfold block_spec. set (l := combine _ _). clearbody l. induction l as [|x l IH]; [constructor|]. cbn [map concat]. apply Forall_app. split; [apply le_bytes_bytes|done].
Qed.

Lemma square_with_counter n m : square m -> square (with_counter n m).
Proof. intros (H0 & H1 & H2 & H3). unfold square, with_counter. cbn. by rewrite length_insert. Qed.

Lemma counter_with_counter n m : square m -> counter_of (with_counter n m) = n.
Proof. intros (_ & _ & _ & H3). destruct (list4 _ H3) as (a & b & c & d & E). unfold counter_of, with_counter. cbn. by rewrite E. Qed.

Lemma with_counter_twice n k m : with_counter n (with_counter k m) = with_counter n m.
Proof. unfold with_counter. cbn. by rewrite list_insert_insert_eq. Qed.

Lemma with_counter_self m : square m -> with_counter (counter_of m) m = m.
Proof. intros (_ & _ & _ & H3). destruct (list4 _ H3) as (a & b & c & d & E). destruct m as [r0 r1 r2 r3]. cbn in *. subst r3. done. Qed.

Lemma block_generic_spec m : square m -> chacha20_block_generic (flatten m) = (block_spec m, flatten (with_counter (u32 (counter_of m + 1)) m)).
Proof.
  intros Hm. unfold chacha20_block_generic, block_spec. destruct (TWENTY_ROUNDS_spec m Hm) as [-> _]. f_equal. destruct m as [r0 r1 r2 r3], Hm as (H0 & H1 & H2 & H3). cbn [row0 row1 row2 row3] in *.
  destruct (list4 r0 H0) as (? & ? & ? & ? & ->). destruct (list4 r1 H1) as (? & ? & ? & ? & ->). destruct (list4 r2 H2) as (? & ? & ? & ? & ->). destruct (list4 r3 H3) as (? & ? & ? & ? & ->). done.
Qed.

Lemma keystream_succ m n : square m -> 0 <= counter_of m < 2 ^ 32 -> keystream m (S n) = block_spec m ++ keystream (with_counter (u32 (counter_of m + 1)) m) n.
Proof.
  intros Hm Hc. unfold keystream. cbn [seq map concat]. rewrite Z.add_0_r, u32_small, with_counter_self by done. f_equal. rewrite <- seq_shift, map_map. f_equal. apply map_ext. intros i.
  rewrite with_counter_twice, counter_with_counter by done. do 2 f_equal. unfold u32. rewrite Zplus_mod_idemp_l. f_equal. lia.
Qed.

Lemma length_keystream m n : square m -> length (keystream m n) = (64 * n)%nat.
Proof.
  intros Hm. unfold keystream. rewrite <- (length_seq n 0) at 2. generalize (seq 0 n). intros l. induction l as [|i l IH]; [done|].
  cbn [map concat length]. rewrite length_app, IH, length_block_spec by (by apply square_with_counter). lia.
Qed.

Lemma keystream_bytes m n : all_bytes (keystream m n).
Proof. unfold keystream. generalize (seq 0 n). intros l. induction l as [|i l IH]; [constructor|]. cbn [map concat]. apply Forall_app. split; [apply block_spec_bytes|done]. Qed.

(** The blocks of a message of [n] bytes. *)
Definition blocks_of (n : nat) : nat := ((n + 63) / 64)%nat.

Lemma chacha20_loop_spec fuel : forall m src, square m -> 0 <= counter_of m < 2 ^ 32 -> (length src / 64 < fuel)%nat ->
  chacha20_loop fuel (flatten m) src =
    (xor_bytes src (keystream m (blocks_of (length src))), flatten (with_counter (u32 (counter_of m + Z.of_nat (blocks_of (length src)))) m)).
Proof.
  induction fuel as [|f IH]; intros m src Hm Hc Hf; [lia|]. cbn [chacha20_loop]. unfold CHACHA20_BLOCK_SIZE, blocks_of.
  destruct (Z.geb_spec (len src) 64) as [H64|H64].
  - rewrite block_generic_spec by done. unfold len in H64. assert (Hl : length (skipn 64 src) = (length src - 64)%nat) by apply length_drop.
    rewrite IH; [|by apply square_with_counter|rewrite counter_with_counter by done; apply u32_range|rewrite Hl; lia].
    rewrite Hl. unfold blocks_of. replace ((length src + 63) / 64)%nat with (S ((length src - 64 + 63) / 64))%nat by lia. set (k := ((length src - 64 + 63) / 64)%nat).
    rewrite keystream_succ by done. rewrite with_counter_twice, counter_with_counter by done. f_equal.
    + rewrite <- (firstn_skipn 64 src) at 3. rewrite xor_bytes_app; [done|]. rewrite length_take, length_block_spec by done. lia.
    + do 2 f_equal. unfold u32. rewrite Zplus_mod_idemp_l. f_equal. lia.
  - unfold len in H64. destruct (Z.eqb_spec (len src) 0) as [E|E]; cbn [negb].
    + destruct src; [|rewrite len_cons in E; pose proof (len_nonneg src); lia]. change (blocks_of (length [])) with 0%nat. cbn [xor_bytes zip_with]. rewrite Z.add_0_r, u32_small, with_counter_self by done. done.
    + unfold len in E. rewrite block_generic_spec by done. replace ((length src + 63) / 64)%nat with 1%nat by lia. rewrite keystream_succ by done. unfold keystream. cbn [seq map concat].
      rewrite app_nil_r, xor_bytes_take. done.
Qed.

(** The matrix of a key and a nonce. *)
Definition chacha_matrix (key : list Z) (nonce : Z) : matrix :=
  Matrix CHACHA20_CONSTANT (map (fun i => get_unaligned_le32 (4 * i) key) [0; 1; 2; 3]) (map (fun i => get_unaligned_le32 (4 * i) key) [4; 5; 6; 7])
    [0; 0; nonce mod 2 ^ 32; nonce / 2 ^ 32].

Lemma chacha20_init_spec key nonce : chacha20_init key nonce = flatten (chacha_matrix key nonce) /\ square (chacha_matrix key nonce) /\ counter_of (chacha_matrix key nonce) = 0.
Proof.
  split; [|done]. unfold chacha20_init, flatten, chacha_matrix. cbn [row0 row1 row2 row3 map app]. change (2 ^ 32 - 1) with (Z.ones 32). by rewrite Z.land_ones, Z.shiftr_div_pow2 by lia.
Qed.

Lemma chacha20_spec m src : square m -> 0 <= counter_of m < 2 ^ 32 ->
  chacha20 (flatten m) src = (xor_bytes src (keystream m (blocks_of (length src))), flatten (with_counter (u32 (counter_of m + Z.of_nat (blocks_of (length src)))) m)).
Proof. intros. apply chacha20_loop_spec; [done|done|lia]. Qed.

Lemma hchacha20_spec nonce key :
  let m := Matrix CHACHA20_CONSTANT (map (fun i => get_unaligned_le32 (4 * i) key) [0; 1; 2; 3]) (map (fun i => get_unaligned_le32 (4 * i) key) [4; 5; 6; 7])
             (map (fun i => get_unaligned_le32 (4 * i) nonce) [0; 1; 2; 3]) in
  let m' := Nat.iter 10 (fun m => diagonal_round (column_round m)) m in hchacha20 nonce key = row0 m' ++ row3 m' /\ length (hchacha20 nonce key) = 8%nat.
Proof.
  cbv zeta. unfold hchacha20. set (m := Matrix _ _ _ _). set (x := CHACHA20_CONSTANT ++ _). change x with (flatten m). assert (Hm : square m) by done. destruct (TWENTY_ROUNDS_spec m Hm) as [-> Hs].
  set (m' := Nat.iter _ _ _) in *. clearbody m'. destruct Hs as (H0 & H1 & H2 & H3), m' as [r0 r1 r2 r3]. cbn [row0 row1 row2 row3] in *. unfold flatten. cbn [row0 row1 row2 row3].
  destruct (list4 r0 H0) as (? & ? & ? & ? & ->). destruct (list4 r1 H1) as (? & ? & ? & ? & ->). destruct (list4 r2 H2) as (? & ? & ? & ? & ->). destruct (list4 r3 H3) as (? & ? & ? & ? & ->). done.
Qed.

(** A message in two parts, the first of them of full blocks. *)
Lemma keystream_app m a b : square m -> 0 <= counter_of m < 2 ^ 32 -> keystream m (a + b) = keystream m a ++ keystream (with_counter (u32 (counter_of m + Z.of_nat a)) m) b.
Proof.
  revert m. induction a as [|a IH]; intros m Hm Hc.
  - rewrite Z.add_0_r, u32_small, with_counter_self by done. done.
  - cbn [Nat.add]. rewrite !keystream_succ, IH, <- app_assoc by (done || (by apply square_with_counter) || (rewrite counter_with_counter by done; apply u32_range)).
    rewrite with_counter_twice, counter_with_counter by done. do 4 f_equal. unfold u32. rewrite Zplus_mod_idemp_l. f_equal. lia.
Qed.

Lemma xor_keystream_prefix m a n k : square m -> (length a <= 64 * n)%nat -> (n <= k)%nat -> 0 <= counter_of m < 2 ^ 32 -> xor_bytes a (keystream m n) = xor_bytes a (keystream m k).
Proof.
  intros Hm Ha Hk Hc. replace k with (n + (k - n))%nat by lia. rewrite keystream_app by done.
  rewrite <- (xor_bytes_take a (keystream m n ++ _)), take_app_le by (rewrite length_keystream by done; lia). by rewrite xor_bytes_take.
Qed.

Lemma chacha20_app m a b : square m -> 0 <= counter_of m < 2 ^ 32 -> (length a mod 64 = 0)%nat ->
  chacha20 (flatten m) (a ++ b) = (let '(x, ctx) := chacha20 (flatten m) a in let '(y, ctx) := chacha20 ctx b in (x ++ y, ctx)).
Proof.
  intros Hm Hc Ha. rewrite (chacha20_spec m a), (chacha20_spec m (a ++ b)) by done.
  rewrite chacha20_spec by ((by apply square_with_counter) || (rewrite counter_with_counter by done; apply u32_range)).
  rewrite with_counter_twice, counter_with_counter, length_app by done. assert (E : blocks_of (length a + length b) = (blocks_of (length a) + blocks_of (length b))%nat) by (unfold blocks_of; lia).
  rewrite E, keystream_app, xor_bytes_app by (done || (rewrite length_keystream by done; unfold blocks_of; lia)). do 3 f_equal.
  unfold u32. rewrite Zplus_mod_idemp_l. f_equal. lia.
Qed.

(** ChaCha20 is the stream cipher of RFC 8439 (with a nonce of 64 bits):
    the rounds of the code are the column and diagonal rounds on the matrix
    of the state, each block of the message is combined with the
    key stream of its number, full blocks may be encrypted in separate calls, and a
    second application decrypts. *)
Theorem chacha20_stream key nonce src : 
  let m := chacha_matrix key nonce in
  (chacha20 (chacha20_init key nonce) src).1 = xor_bytes src (keystream m (blocks_of (length src))) /\
  length (keystream m (blocks_of (length src))) = (64 * blocks_of (length src))%nat /\
  (chacha20 (chacha20_init key nonce) (chacha20 (chacha20_init key nonce) src).1).1 = src /\
  forall a b, src = a ++ b -> (length a mod 64 = 0)%nat ->
    (chacha20 (chacha20_init key nonce) src).1 = (chacha20 (chacha20_init key nonce) a).1 ++ (chacha20 (chacha20 (chacha20_init key nonce) a).2 b).1.
Proof.
  cbv zeta. destruct (chacha20_init_spec key nonce) as (-> & Hm & H0). set (m := chacha_matrix key nonce) in *. assert (Hc : 0 <= counter_of m < 2 ^ 32) by (rewrite H0; lia).
  assert (L : length (keystream m (blocks_of (length src))) = (64 * blocks_of (length src))%nat) by (by apply length_keystream).
  assert (Hle : len src <= len (keystream m (blocks_of (length src)))) by (unfold len; rewrite L; unfold blocks_of; lia).
  ands; [by rewrite chacha20_spec|done| |].
  - rewrite (chacha20_spec m src) by done. cbn [fst]. rewrite chacha20_spec by done. cbn [fst].
    assert (length (xor_bytes src (keystream m (blocks_of (length src)))) = length src) as -> by (pose proof (len_xor_bytes _ _ Hle) as X; unfold len in X; lia). by apply xor_bytes_twice.
  - intros a b -> Ha. rewrite chacha20_app by done. destruct (chacha20 (flatten m) a) as [x ctx]. cbn [fst snd]. by destruct (chacha20 ctx b).
Qed.

(** The example of RFC 8439, section 2.3.2. *)
Example chacha20_block_rfc :
  (chacha20_block_generic (CHACHA20_CONSTANT ++ map (fun i => get_unaligned_le32 (4 * i) (map Z.of_nat (seq 0 32))) [0; 1; 2; 3; 4; 5; 6; 7] ++ [1; 0x09000000; 0x4a000000; 0])).1 =
  [0x10; 0xf1; 0xe7; 0xe4; 0xd1; 0x3b; 0x59; 0x15; 0x50; 0x0f; 0xdd; 0x1f; 0xa3; 0x20; 0x71; 0xc4;
   0xc7; 0xd1; 0xf4; 0xc7; 0x33; 0xc0; 0x68; 0x03; 0x04; 0x22; 0xaa; 0x9a; 0xc3; 0xd4; 0x6c; 0x4e;
   0xd2; 0x82; 0x64; 0x46; 0x07; 0x9f; 0xaa; 0x09; 0x14; 0xc2; 0xd7; 0x05; 0xd9; 0x8b; 0x02; 0xa2;
   0xb5; 0x12; 0x9c; 0xd1; 0xde; 0x16; 0x4e; 0xb9; 0xcb; 0xd0; 0x83; 0xe8; 0xa2; 0x50; 0x3c; 0x4e].
Proof. vm_compute. reflexivity. Qed.
