(* ===== verification/Poly1305.v ===== *)
(** * Poly1305 ([src/crypto/zinc/poly1305/poly1305.c], [src/crypto/include/zinc/poly1305.h])

    The one-time authenticator over its two arithmetic back ends.  A back end is
    an interface: initialisation from a key, absorbing blocks, and the
    final tag; its law says that its limbs represent a number modulo 2^130 - 5.
    [Donna64] and [Donna32] implement the interface.  The streaming functions are
    shown, for every back end, to compute the authenticator of RFC 8439 on the
    concatenation of the updates. *)

From S2P Require Import Prelude Words.
From stdpp Require Import list.
From Stdlib Require Import ZifyNat.
#[local] Open Scope Z_scope.

Definition POLY1305_BLOCK_SIZE : Z := 16.

(** ** The authenticator of RFC 8439, section 2.5 *)

Definition p1305 : Z := 2 ^ 130 - 5.
Definition clamp (r : Z) : Z := Z.land r 0x0ffffffc0ffffffc0ffffffc0fffffff.

(** The polynomial in [r] after [n] full blocks. *)
Fixpoint absorb (r : Z) (n : nat) (h : Z) (l : list Z) : Z :=
  match n with O => h | S n' => absorb r n' ((h + (le_word (firstn 16 l) + 2 ^ 128)) * r) (skipn 16 l) end.

Definition poly1305_spec (key msg : list Z) : list Z :=
  let r := clamp (le_word (field 0 16 key)) in
  let s := le_word (field 16 16 key) in
  let n := (length msg / 16)%nat in
  let h := absorb r n 0 msg in
  let rest := skipn (16 * n) msg in
  let h := match rest with [] => h | _ => (h + le_word (rest ++ [1])) * r end in
  le_bytes 16 (h mod p1305 + s).

(** ** The interface of a back end *)

Class PolyBackend (I : Type) := {
  poly1305_init_generic : list Z -> I;
  poly1305_blocks_generic : I -> list Z -> Z -> I;
  poly1305_emit_generic : I -> list Z -> list Z
}.

(** [rep st r h]: the back end has the multiplier [r] and holds a number equal
    to [h] modulo 2^130 - 5. *)
Class PolyBackendLaws (I : Type) `{PolyBackend I} := {
  poly_rep : I -> Z -> Z -> Prop;
  rep_init key : all_bytes key -> 16 <= len key -> poly_rep (poly1305_init_generic key) (clamp (le_word (field 0 16 key))) 0;
  rep_none st padbit input : len input < 16 -> poly1305_blocks_generic st input padbit = st;
  rep_block st r h blk rest padbit : poly_rep st r h -> all_bytes blk -> length blk = 16%nat -> padbit = 0 \/ padbit = 1 ->
    exists st', poly_rep st' r ((h + (le_word blk + padbit * 2 ^ 128)) * r) /\ poly1305_blocks_generic st (blk ++ rest) padbit = poly1305_blocks_generic st' rest padbit;
  rep_emit st r h nonce : poly_rep st r h -> length nonce = 4%nat -> Forall (fun w => 0 <= w < 2 ^ 32) nonce ->
    poly1305_emit_generic st nonce = le_bytes 16 (h mod p1305 + fold_right (fun w acc => w + 2 ^ 32 * acc) 0 nonce)
}.

(** [while (len >= POLY1305_BLOCK_SIZE)] around the body [blk]; every round consumes a block. *)
Fixpoint blocks_loop {I} (blk : I -> list Z -> I) (fuel : nat) (st : I) (input : list Z) : I :=
  match fuel with
  | O => st
  | S f => if len input >=? POLY1305_BLOCK_SIZE then blocks_loop blk f (blk st (firstn 16 input)) (skipn 16 input) else st
  end.

Lemma blocks_loop_fuel {I} (blk : I -> list Z -> I) f g st input : (length input / 16 <= f)%nat -> (length input / 16 <= g)%nat -> blocks_loop blk f st input = blocks_loop blk g st input.
Proof.
  revert g st input. induction f as [|f IH]; intros g st input Hf Hg; destruct g as [|g]; cbn [blocks_loop]; try done; unfold POLY1305_BLOCK_SIZE; destruct (Z.geb_spec (len input) 16) as [L|L]; try done; unfold len in L.
  - lia.
  - lia.
  - apply IH; rewrite length_drop; lia.
Qed.

Lemma blocks_loop_none {I} (blk : I -> list Z -> I) st input : len input < 16 -> blocks_loop blk (length input / 16) st input = st.
Proof. unfold len. intros Hl. by replace (length input / 16)%nat with 0%nat by lia. Qed.

Lemma blocks_loop_cons {I} (blk : I -> list Z -> I) st b rest : length b = 16%nat ->
  blocks_loop blk (length (b ++ rest) / 16) st (b ++ rest) = blocks_loop blk (length rest / 16) (blk st b) rest.
Proof.
  intros Hl. rewrite length_app, Hl. replace ((16 + length rest) / 16)%nat with (S (length rest / 16)) by lia. cbn [blocks_loop]. unfold POLY1305_BLOCK_SIZE, len.
  rewrite length_app, Hl. rewrite (proj2 (Z.geb_le _ _)) by lia. by rewrite take_app_length', drop_app_length' by done.
Qed.

(** ** The code *)

Section Poly1305.

Context {I : Type} `{PolyBackend I}.

Record poly1305_ctx := PolyCtx { opaque : I; pc_nonce : list Z; pc_data : list Z; num : Z }.

(** [ctx] is the caller's uninitialised structure. *)
Definition poly1305_init (ctx : poly1305_ctx) (key : list Z) : poly1305_ctx :=
  PolyCtx (poly1305_init_generic key) (map (fun off => get_unaligned_le32 off key) [16; 20; 24; 28]) (pc_data ctx) 0.

(** From [rem = len % POLY1305_BLOCK_SIZE] on. *)
Definition update_rest (ctx : poly1305_ctx) (input : list Z) : poly1305_ctx :=
  let rem := len input mod POLY1305_BLOCK_SIZE in
  let l := len input - rem in
  let opaque := if l >=? POLY1305_BLOCK_SIZE then poly1305_blocks_generic (opaque ctx) (firstn (Z.to_nat l) input) 1 else opaque ctx in
  let input := if l >=? POLY1305_BLOCK_SIZE then skipn (Z.to_nat l) input else input in
  PolyCtx opaque (pc_nonce ctx) (if negb (rem =? 0) then buf_set (pc_data ctx) 0 (firstn (Z.to_nat rem) input) else pc_data ctx) rem.

Definition poly1305_update (ctx : poly1305_ctx) (input : list Z) : poly1305_ctx :=
  if negb (num ctx =? 0) then
    let rem := POLY1305_BLOCK_SIZE - num ctx in
    if len input <? rem then PolyCtx (opaque ctx) (pc_nonce ctx) (buf_set (pc_data ctx) (num ctx) input) (num ctx + len input)
    else
      let data := buf_set (pc_data ctx) (num ctx) (firstn (Z.to_nat rem) input) in
      update_rest (PolyCtx (poly1305_blocks_generic (opaque ctx) data 1) (pc_nonce ctx) data (num ctx)) (skipn (Z.to_nat rem) input)
  else update_rest ctx input.

(** The tag; the context is zeroed afterwards. *)
Definition poly1305_final (ctx : poly1305_ctx) : list Z :=
  let opaque :=
    if negb (num ctx =? 0) then
      let data := buf_set (buf_set (pc_data ctx) (num ctx) [1]) (num ctx + 1) (zeros (POLY1305_BLOCK_SIZE - (num ctx + 1))) in
      poly1305_blocks_generic (opaque ctx) data 0
    else opaque ctx in
  poly1305_emit_generic opaque (pc_nonce ctx).

End Poly1305.
Arguments poly1305_ctx : clear implicits.

(** * Streaming *)

Lemma absorb_app r n k h a b : length a = (16 * n)%nat -> absorb r (n + k) h (a ++ b) = absorb r k (absorb r n h a) b.
Proof.
  revert h a. induction n as [|n IH]; intros h a Ha; [destruct a; [done|cbn in Ha; lia]|]. cbn [Nat.add absorb].
  rewrite take_app_le, drop_app_le by lia. apply IH. rewrite length_drop. lia.
Qed.

Section Streaming.

Context {I : Type} `{PL : PolyBackendLaws I}.

Lemma blocks_rep n : forall st r h l, poly_rep st r h -> all_bytes l -> length l = (16 * n)%nat -> poly_rep (poly1305_blocks_generic st l 1) r (absorb r n h l).
Proof.
  induction n as [|n IH]; intros st r h l Hr Hb Hl.
  - destruct l; [|cbn in Hl; lia]. by rewrite rep_none.
  - assert (E : l = firstn 16 l ++ skipn 16 l) by (by rewrite take_drop).
    destruct (rep_block st r h (firstn 16 l) (skipn 16 l) 1 Hr) as (st' & Hr' & E'); [by apply Forall_take|rewrite length_take; lia|by right|].
    rewrite E at 1. rewrite E'. cbn [absorb]. replace (1 * 2 ^ 128) with (2 ^ 128) in Hr' by lia. apply IH; [done|by apply Forall_drop|rewrite length_drop; lia].
Qed.

(** One block alone. *)
Lemma block_rep st r h blk padbit : poly_rep st r h -> all_bytes blk -> length blk = 16%nat -> padbit = 0 \/ padbit = 1 ->
  poly_rep (poly1305_blocks_generic st blk padbit) r ((h + (le_word blk + padbit * 2 ^ 128)) * r).
Proof.
  intros Hr Hb Hl Hp. destruct (rep_block st r h blk [] padbit Hr Hb Hl Hp) as (st' & Hr' & E). rewrite app_nil_r in E. rewrite E, rep_none by done. done.
Qed.

(** The context after [msg]: the full blocks are absorbed and the rest waits. *)
Definition poly_repr (ctx : poly1305_ctx I) (key msg : list Z) : Prop :=
  exists n full part, msg = full ++ part /\ length full = (16 * n)%nat /\ all_bytes full /\ all_bytes part /\ len part = num ctx /\ num ctx < 16 /\ length (pc_data ctx) = 16%nat /\
    firstn (Z.to_nat (num ctx)) (pc_data ctx) = part /\ pc_nonce ctx = map (fun off => get_unaligned_le32 off key) [16; 20; 24; 28] /\
    poly_rep (opaque ctx) (clamp (le_word (field 0 16 key))) (absorb (clamp (le_word (field 0 16 key))) n 0 full).

Lemma poly_repr_init ctx key : all_bytes key -> 16 <= len key -> length (pc_data ctx) = 16%nat -> poly_repr (poly1305_init ctx key) key [].
Proof. intros Hk Hl Hd. exists O, [], []. cbn [poly1305_init num pc_data pc_nonce opaque]. ands; try done. by apply rep_init. Qed.

Lemma update_rest_repr ctx key msg input : poly_repr ctx key msg -> num ctx = 0 -> all_bytes input -> poly_repr (update_rest ctx input) key (msg ++ input).
Proof.
  intros (n & full & part & -> & Hf & Hfb & Hpb & Hp & Hlt & Hd & Ht & Hn & Hr) E Hb. rewrite E in *.
  destruct part as [|x part]; [|rewrite len_cons in Hp; pose proof (len_nonneg part); lia]. rewrite app_nil_r.
  unfold update_rest, POLY1305_BLOCK_SIZE. set (rem := len input mod 16). set (l := len input - rem). pose proof (len_nonneg input) as Hi.
  assert (Hl : 0 <= l /\ l mod 16 = 0 /\ l <= len input) by (unfold l, rem; lia). assert (Hrem : 0 <= rem < 16) by (unfold rem; lia).
  set (k := (Z.to_nat l / 16)%nat). assert (Hk : Z.to_nat l = (16 * k)%nat) by (unfold k; lia).
  assert (Hbl : length (firstn (Z.to_nat l) input) = (16 * k)%nat) by (rewrite length_take; unfold len in *; lia).
  assert (Hin : (if l >=? 16 then skipn (Z.to_nat l) input else input) = skipn (Z.to_nat l) input).
  { destruct (Z.geb_spec l 16); [done|]. replace (Z.to_nat l) with O by lia. done. }
  assert (Hop : (if l >=? 16 then poly1305_blocks_generic (opaque ctx) (firstn (Z.to_nat l) input) 1 else opaque ctx) = poly1305_blocks_generic (opaque ctx) (firstn (Z.to_nat l) input) 1).
  { destruct (Z.geb_spec l 16); [done|]. replace (Z.to_nat l) with O by lia. cbn [firstn]. by rewrite rep_none. }
  assert (Hsk : len (skipn (Z.to_nat l) input) = rem) by (rewrite len_drop by lia; unfold l; lia).
  assert (Hfn : firstn (Z.to_nat rem) (skipn (Z.to_nat l) input) = skipn (Z.to_nat l) input) by (apply take_ge; unfold len in Hsk; lia).
  rewrite Hin, Hop, Hfn. exists (n + k)%nat, (full ++ firstn (Z.to_nat l) input), (skipn (Z.to_nat l) input). cbn [num pc_data pc_nonce opaque].
  ands; try done; try lia.
  - by rewrite <- app_assoc, take_drop.
  - rewrite length_app. lia.
  - apply Forall_app. split; [done|by apply Forall_take].
  - by apply Forall_drop.
  - destruct (Z.eqb_spec rem 0); cbn [negb]; [done|]. rewrite buf_set_length by (unfold len in *; lia). done.
  - destruct (Z.eqb_spec rem 0) as [E0|E0]; cbn [negb].
    + rewrite E0 in Hsk. destruct (skipn (Z.to_nat l) input); [|rewrite len_cons in Hsk; pose proof (len_nonneg l0); lia]. by rewrite E0.
    + pose proof (buf_set_take (pc_data ctx) 0 (skipn (Z.to_nat l) input)) as T. rewrite Hsk in T. change (0 + rem) with rem in T. rewrite T by (unfold len in *; lia). done.
  - rewrite absorb_app by done. apply blocks_rep; [done|by apply Forall_take|done].
Qed.

Lemma poly1305_update_repr ctx key msg input : poly_repr ctx key msg -> all_bytes input -> poly_repr (poly1305_update ctx input) key (msg ++ input).
Proof.
  intros Hr Hb. pose proof Hr as (n & full & part & -> & Hf & Hfb & Hpb & Hp & Hlt & Hd & Ht & Hn & Ho). unfold poly1305_update, POLY1305_BLOCK_SIZE.
  destruct (Z.eqb_spec (num ctx) 0) as [E|E]; cbn [negb]; [by apply update_rest_repr|]. pose proof (len_nonneg part) as Hp0. pose proof (len_nonneg input) as Hi.
  assert (Hd' : len (pc_data ctx) = 16) by (unfold len; lia).
  destruct (Z.ltb_spec (len input) (16 - num ctx)) as [L|L].
  - exists n, full, (part ++ input). cbn [num pc_data pc_nonce opaque]. rewrite <- app_assoc. ands; try done; try lia.
    + by apply Forall_app.
    + rewrite len_app. lia.
    + rewrite buf_set_length; lia.
    + rewrite buf_set_take, Ht by lia. done.
  - set (k := Z.to_nat (16 - num ctx)). assert (Hk : len (firstn k input) = 16 - num ctx) by (unfold k; rewrite len_take; lia).
    assert (Hbuf : buf_set (pc_data ctx) (num ctx) (firstn k input) = part ++ firstn k input) by (rewrite buf_set_full, Ht by lia; done).
    replace ((full ++ part) ++ input) with ((full ++ part ++ firstn k input) ++ skipn k input) by (rewrite <- !app_assoc, take_drop; done).
    assert (B16 : length (part ++ firstn k input) = 16%nat) by (rewrite length_app; unfold len in *; lia).
    assert (Hbb : all_bytes (part ++ firstn k input)) by (apply Forall_app; split; [done|by apply Forall_take]).
    rewrite Hbuf. set (ctx0 := PolyCtx _ _ _ (num ctx)).
    assert (R : poly_repr (PolyCtx (opaque ctx0) (pc_nonce ctx0) (pc_data ctx0) 0) key (full ++ part ++ firstn k input)).
    { exists (n + 1)%nat, (full ++ part ++ firstn k input), []. cbn [num pc_data pc_nonce opaque ctx0]. rewrite app_nil_r. ands; try done.
      - rewrite length_app, B16. lia.
      - by apply Forall_app.
      - rewrite absorb_app by done. cbn [absorb]. rewrite (take_ge (part ++ firstn k input) 16) by lia. pose proof (block_rep _ _ _ (part ++ firstn k input) 1 Ho Hbb B16 (or_intror eq_refl)) as P. by rewrite Z.mul_1_l in P. }
    change (update_rest ctx0 (skipn k input)) with (update_rest (PolyCtx (opaque ctx0) (pc_nonce ctx0) (pc_data ctx0) 0) (skipn k input)).
    apply update_rest_repr; [done|done|by apply Forall_drop].
Qed.

Lemma nonce_words key : all_bytes key -> 32 <= len key ->
  let nonce := map (fun off => get_unaligned_le32 off key) [16; 20; 24; 28] in
  Forall (fun w => 0 <= w < 2 ^ 32) nonce /\ fold_right (fun w acc => w + 2 ^ 32 * acc) 0 nonce = le_word (field 16 16 key).
Proof.
  intros Hb Hl. cbv zeta. split; [repeat constructor; by apply get_le32_range|]. cbn [map fold_right]. unfold get_unaligned_le32.
  assert (F : forall off a b, 0 <= off -> 0 <= a -> 0 <= b -> off + a + b <= len key -> le_word (field off (a + b) key) = le_word (field off a key) + 256 ^ a * le_word (field (off + a) b key)).
  { intros off a b Ho Ha Hb' Hs. replace (256 ^ a) with (256 ^ len (field off a key)) by (by rewrite len_field by lia). rewrite <- le_word_app. f_equal. unfold field.
    rewrite !Z2Nat.inj_add by lia. rewrite <- drop_drop, <- (take_take_drop (skipn (Z.to_nat off) key) (Z.to_nat a)). done. }
  pose proof (F 16 4 12) as F1. pose proof (F 20 4 8) as F2. pose proof (F 24 4 4) as F3. change (4 + 12) with 16 in F1. change (16 + 4) with 20 in F1. change (4 + 8) with 12 in F2. change (20 + 4) with 24 in F2. change (4 + 4) with 8 in F3. change (24 + 4) with 28 in F3. rewrite F1, F2, F3 by lia. change (256 ^ 4) with (2 ^ 32). ring.
Qed.

Lemma poly1305_final_spec ctx key msg : poly_repr ctx key msg -> all_bytes key -> 32 <= len key -> poly1305_final ctx = poly1305_spec key msg.
Proof.
  intros (n & full & part & -> & Hf & Hfb & Hpb & Hp & Hlt & Hd & Ht & Hn & Ho) Hk Hl. destruct (nonce_words key Hk Hl) as [Hw Hv]. rewrite <- Hn in Hw, Hv.
  unfold poly1305_final, poly1305_spec, POLY1305_BLOCK_SIZE. set (r := clamp _) in *. pose proof (len_nonneg part) as Hp0. assert (Hd' : len (pc_data ctx) = 16) by (unfold len; lia).
  assert (Hnum : (length (full ++ part) / 16 = n)%nat) by (rewrite length_app; unfold len in Hp; lia). rewrite Hnum.
  assert (Hrest : skipn (16 * n) (full ++ part) = part) by (by rewrite <- Hf, drop_app_length). rewrite Hrest.
  assert (Ha : absorb r n 0 (full ++ part) = absorb r n 0 full) by (rewrite <- (Nat.add_0_r n) at 1; by rewrite absorb_app). rewrite Ha.
  destruct (Z.eqb_spec (num ctx) 0) as [E|E]; cbn [negb].
  - destruct part as [|y part]; [|rewrite len_cons in Hp; pose proof (len_nonneg part); lia]. rewrite (rep_emit _ _ _ _ Ho), Hv by (exact Hw || by rewrite Hn). done.
  - destruct part as [|y part']; [rewrite len_nil in Hp; lia|]. set (part := y :: part') in *.
    set (pad := zeros (16 - (num ctx + 1))). assert (Lp : len pad = 16 - (num ctx + 1)) by (apply len_zeros; lia).
    assert (Hbuf : buf_set (buf_set (pc_data ctx) (num ctx) [1]) (num ctx + 1) pad = part ++ [1] ++ pad).
    { pose proof (buf_set_app (pc_data ctx) (num ctx) [1] pad) as X. change (len [1]) with 1 in X. rewrite X, buf_set_full, Ht by (rewrite ?len_app; change (len [1]) with 1; lia). done. }
    rewrite Hbuf. assert (B16 : length (part ++ [1] ++ pad) = 16%nat) by (rewrite !length_app; unfold len in *; cbn [length]; lia).
    assert (Hbb : all_bytes (part ++ [1] ++ pad)) by (apply Forall_app; split; [done|constructor; [unfold is_byte; lia|apply all_bytes_zeros]]).
    pose proof (block_rep _ _ _ _ 0 Ho Hbb B16 (or_introl eq_refl)) as R. rewrite (rep_emit _ _ _ _ R), Hv by (exact Hw || by rewrite Hn). cbn [part]. do 5 f_equal.
    rewrite (app_assoc part [1] pad), le_word_app. unfold pad, zeros. rewrite le_word_zeros. change (y :: part') with part. lia.
Qed.

Lemma updates_poly_repr chunks : forall ctx key msg, poly_repr ctx key msg -> Forall all_bytes chunks -> poly_repr (fold_left poly1305_update chunks ctx) key (msg ++ concat chunks).
Proof.
  induction chunks as [|c chunks IH]; intros ctx key msg Hr Hb; cbn [fold_left concat]; [by rewrite app_nil_r|]. inversion Hb; subst. rewrite app_assoc. apply IH; [|done]. by apply poly1305_update_repr.
Qed.

Lemma poly1305_stream ctx key chunks : length (pc_data ctx) = 16%nat -> all_bytes key -> 32 <= len key -> Forall all_bytes chunks ->
  poly1305_final (fold_left poly1305_update chunks (poly1305_init ctx key)) = poly1305_spec key (concat chunks).
Proof.
  intros Hd Hk Hl Hc. apply poly1305_final_spec; [|done|done]. apply (updates_poly_repr chunks _ key []); [apply poly_repr_init; [done|lia|done]|done].
Qed.

End Streaming.
