(* ===== verification/Donna64.v ===== *)
(** * Poly1305 with 64-bit limbs ([src/crypto/zinc/poly1305/poly1305-donna64.c])

    Three limbs of 44, 44 and 42 bits, products of 128 bits, and carries that
    are postponed to the end of a block.  Every operation is kept at its
    machine width; the bounds on the limbs show that nothing is lost.  The back end
    satisfies the interface of [Poly1305]. *)

From S2P Require Import Prelude Words Poly1305.
From stdpp Require Import list.
From Stdlib Require Import ZifyNat.
#[local] Open Scope Z_scope.

Definition u128 (z : Z) : Z := z mod 2 ^ 128.

(** ** The code *)

Record poly1305_internal := Internal { r0 : Z; r1 : Z; r2 : Z; h0 : Z; h1 : Z; h2 : Z; s1 : Z; s2 : Z }.

Definition init64 (key : list Z) : poly1305_internal :=
  let t0 := get_unaligned_le64 0 key in
  let t1 := get_unaligned_le64 8 key in
  let r0 := Z.land t0 0xffc0fffffff in
  let r1 := Z.land (Z.lor (Z.shiftr t0 44) (u64 (Z.shiftl t1 20))) 0xfffffc0ffff in
  let r2 := Z.land (Z.shiftr t1 24) 0x00ffffffc0f in
  Internal r0 r1 r2 0 0 0 (u64 (r1 * 20)) (u64 (r2 * 20)).

(** [h += m[i]] and [h *= r]. *)
Definition products64 (st : poly1305_internal) (input : list Z) (hibit : Z) : Z * Z * Z :=
  let '(Internal r0 r1 r2 h0 h1 h2 s1 s2) := st in
  let t0 := get_unaligned_le64 0 input in
  let t1 := get_unaligned_le64 8 input in
  let h0 := u64 (h0 + Z.land t0 0xfffffffffff) in
  let h1 := u64 (h1 + Z.land (Z.lor (Z.shiftr t0 44) (u64 (Z.shiftl t1 20))) 0xfffffffffff) in
  let h2 := u64 (h2 + Z.lor (Z.land (Z.shiftr t1 24) 0x3ffffffffff) hibit) in
  let d0 := u128 (h0 * r0) in
  let d := u128 (h1 * s2) in
  let d0 := u128 (d0 + d) in
  let d := u128 (h2 * s1) in
  let d0 := u128 (d0 + d) in
  let d1 := u128 (h0 * r1) in
  let d := u128 (h1 * r0) in
  let d1 := u128 (d1 + d) in
  let d := u128 (h2 * s2) in
  let d1 := u128 (d1 + d) in
  let d2 := u128 (h0 * r2) in
  let d := u128 (h1 * r1) in
  let d2 := u128 (d2 + d) in
  let d := u128 (h2 * r0) in
  let d2 := u128 (d2 + d) in
  (d0, d1, d2).

(** [(partial) h %= p]. *)
Definition reduce64 (d0 d1 d2 : Z) : Z * Z * Z :=
  let c := u64 (Z.shiftr d0 44) in
  let h0 := Z.land (u64 d0) 0xfffffffffff in
  let d1 := u128 (d1 + c) in
  let c := u64 (Z.shiftr d1 44) in
  let h1 := Z.land (u64 d1) 0xfffffffffff in
  let d2 := u128 (d2 + c) in
  let c := u64 (Z.shiftr d2 42) in
  let h2 := Z.land (u64 d2) 0x3ffffffffff in
  let h0 := u64 (h0 + u64 (c * 5)) in
  let c := Z.shiftr h0 44 in
  let h0 := Z.land h0 0xfffffffffff in
  let h1 := u64 (h1 + c) in
  (h0, h1, h2).

(** The body of the loop. *)
Definition block64 (padbit : Z) (st : poly1305_internal) (input : list Z) : poly1305_internal :=
  let hibit := u64 (Z.shiftl padbit 40) in
  let '(d0, d1, d2) := products64 st input hibit in
  let '(h0, h1, h2) := reduce64 d0 d1 d2 in
  Internal (r0 st) (r1 st) (r2 st) h0 h1 h2 (s1 st) (s2 st).

Definition blocks64 (st : poly1305_internal) (input : list Z) (padbit : Z) : poly1305_internal :=
  blocks_loop (block64 padbit) (length input / 16) st input.

(** The carries of [poly1305_emit_generic]. *)
Definition carry64 (h0 h1 h2 : Z) : Z * Z * Z :=
  let c := Z.shiftr h1 44 in
  let h1 := Z.land h1 0xfffffffffff in
  let h2 := u64 (h2 + c) in
  let c := Z.shiftr h2 42 in
  let h2 := Z.land h2 0x3ffffffffff in
  let h0 := u64 (h0 + u64 (c * 5)) in
  let c := Z.shiftr h0 44 in
  let h0 := Z.land h0 0xfffffffffff in
  let h1 := u64 (h1 + c) in
  let c := Z.shiftr h1 44 in
  let h1 := Z.land h1 0xfffffffffff in
  let h2 := u64 (h2 + c) in
  let c := Z.shiftr h2 42 in
  let h2 := Z.land h2 0x3ffffffffff in
  let h0 := u64 (h0 + u64 (c * 5)) in
  let c := Z.shiftr h0 44 in
  let h0 := Z.land h0 0xfffffffffff in
  let h1 := u64 (h1 + c) in
  (h0, h1, h2).

(** [h + -p], and the selection by masks. *)
Definition select64 (h0 h1 h2 : Z) : Z * Z * Z :=
  let g0 := u64 (h0 + 5) in
  let c := Z.shiftr g0 44 in
  let g0 := Z.land g0 0xfffffffffff in
  let g1 := u64 (h1 + c) in
  let c := Z.shiftr g1 44 in
  let g1 := Z.land g1 0xfffffffffff in
  let g2 := u64 (h2 + c - Z.shiftl 1 42) in
  let c := u64 (Z.shiftr g2 63 - 1) in
  let g0 := Z.land g0 c in
  let g1 := Z.land g1 c in
  let g2 := Z.land g2 c in
  let c := u64 (Z.lnot c) in
  (Z.lor (Z.land h0 c) g0, Z.lor (Z.land h1 c) g1, Z.lor (Z.land h2 c) g2).

(** [h = (h + nonce)] and the bytes of the tag. *)
Definition add_nonce64 (h0 h1 h2 : Z) (nonce : list Z) : list Z :=
  let n i := nth i nonce 0 in
  let t0 := Z.lor (u64 (Z.shiftl (n 1%nat) 32)) (n 0%nat) in
  let t1 := Z.lor (u64 (Z.shiftl (n 3%nat) 32)) (n 2%nat) in
  let h0 := u64 (h0 + Z.land t0 0xfffffffffff) in
  let c := Z.shiftr h0 44 in
  let h0 := Z.land h0 0xfffffffffff in
  let h1 := u64 (h1 + (Z.land (Z.lor (Z.shiftr t0 44) (u64 (Z.shiftl t1 20))) 0xfffffffffff + c)) in
  let c := Z.shiftr h1 44 in
  let h1 := Z.land h1 0xfffffffffff in
  let h2 := u64 (h2 + (Z.land (Z.shiftr t1 24) 0x3ffffffffff + c)) in
  let h2 := Z.land h2 0x3ffffffffff in
  let h0' := Z.lor h0 (u64 (Z.shiftl h1 44)) in
  let h1' := Z.lor (Z.shiftr h1 20) (u64 (Z.shiftl h2 24)) in
  le_bytes 8 h0' ++ le_bytes 8 h1'.

Definition emit64 (st : poly1305_internal) (nonce : list Z) : list Z :=
  let '(h0, h1, h2) := carry64 (h0 st) (h1 st) (h2 st) in
  let '(h0, h1, h2) := select64 h0 h1 h2 in
  add_nonce64 h0 h1 h2 nonce.

#[export] Instance donna64 : PolyBackend poly1305_internal :=
  {| poly1305_init_generic := init64; poly1305_blocks_generic := blocks64; poly1305_emit_generic := emit64 |}.

(** * The limbs *)

(** The number that limbs of 44 bits stand for. *)
Definition value64 (a b c : Z) : Z := a + b * 2 ^ 44 + c * 2 ^ 88.

Lemma u128_small z : 0 <= z < 2 ^ 128 -> u128 z = z.
Proof. intros. unfold u128. by apply Z.mod_small. Qed.

(** Masks as remainders. *)
Lemma mask44 x : Z.land x 0xfffffffffff = x mod 2 ^ 44.
Proof. change 0xfffffffffff with (Z.ones 44). by apply Z.land_ones. Qed.
Lemma mask42 x : Z.land x 0x3ffffffffff = x mod 2 ^ 42.
Proof. change 0x3ffffffffff with (Z.ones 42). by apply Z.land_ones. Qed.

(** The next two assignments: the carry out of [x], and what is left of [x]. *)
Ltac limb_pair n x m :=
  let q := fresh "q" in let Eq := fresh "Eq" in let Er := fresh "Er" in let R := fresh "R" in
  destruct (split_at x n m) as (q & Eq & Er & R); [lia|lia|];
  step_let; lazymatch goal with E : ?c = _ |- _ => rewrite shr, Eq in E by done; subst c end;
  step_let; lazymatch goal with E : ?h = _ |- _ => rewrite ?mask44, ?mask42, Er in E; subst h end; clear Eq Er.

(** The middle limb of two words. *)
Lemma middle_limb t0 t1 : 0 <= t0 < 2 ^ 64 -> 0 <= t1 < 2 ^ 64 ->
  Z.lor (Z.shiftr t0 44) (u64 (Z.shiftl t1 20)) = t0 / 2 ^ 44 + (t1 mod 2 ^ 44) * 2 ^ 20.
Proof.
  intros H0 H1. rewrite shr by lia. unfold u64. assert ((Z.shiftl t1 20) mod 2 ^ 64 = Z.shiftl (t1 mod 2 ^ 44) 20) as ->.
  { rewrite !Z.shiftl_mul_pow2 by lia. lia. }
  apply lor_shift; [lia|]. lia.
Qed.

(** The limbs of two words. *)
Lemma limbs64 t0 t1 padbit : 0 <= t0 < 2 ^ 64 -> 0 <= t1 < 2 ^ 64 -> padbit = 0 \/ padbit = 1 ->
  exists m0 m1 m2, Z.land t0 0xfffffffffff = m0 /\ Z.land (Z.lor (Z.shiftr t0 44) (u64 (Z.shiftl t1 20))) 0xfffffffffff = m1 /\
    Z.lor (Z.land (Z.shiftr t1 24) 0x3ffffffffff) (u64 (Z.shiftl padbit 40)) = m2 + padbit * 2 ^ 40 /\ Z.land (Z.shiftr t1 24) 0x3ffffffffff = m2 /\
    0 <= m0 < 2 ^ 44 /\ 0 <= m1 < 2 ^ 44 /\ 0 <= m2 < 2 ^ 40 /\ value64 m0 m1 m2 = t0 + t1 * 2 ^ 64.
Proof.
  intros H0 H1 Hp. rewrite middle_limb by done. rewrite !mask44, mask42, shr by done.
  exists (t0 mod 2 ^ 44), ((t0 / 2 ^ 44 + t1 mod 2 ^ 44 * 2 ^ 20) mod 2 ^ 44), (t1 / 2 ^ 24). rewrite (Z.mod_small (t1 / 2 ^ 24)) by lia.
  split; [done|]. split; [done|]. split; [|unfold value64; lia].
  rewrite u64_small by (rewrite Z.shiftl_mul_pow2 by lia; lia). apply lor_shift; lia.
Qed.

Lemma block_words blk : all_bytes blk -> length blk = 16%nat ->
  0 <= get_unaligned_le64 0 blk < 2 ^ 64 /\ 0 <= get_unaligned_le64 8 blk < 2 ^ 64 /\ le_word blk = get_unaligned_le64 0 blk + get_unaligned_le64 8 blk * 2 ^ 64.
Proof.
  intros Hb Hl. split; [by apply get_le64_range|]. split; [by apply get_le64_range|]. unfold get_unaligned_le64, field. change (Z.to_nat 0) with 0%nat. change (Z.to_nat 8) with 8%nat. cbn [skipn].
  rewrite (take_ge (skipn 8 blk)) by (rewrite length_drop; lia). pose proof (le_word_app (firstn 8 blk) (skipn 8 blk)) as E. rewrite take_drop in E. rewrite E.
  unfold len. rewrite length_take. replace (8 `min` length blk)%nat with 8%nat by lia. change (256 ^ Z.of_nat 8) with (2 ^ 64). change (Pos.to_nat 8) with 8%nat.
  rewrite drop_0. lia.
Qed.

(** ** A block *)

Lemma low_bits d n : 0 <= n <= 64 -> u64 d mod 2 ^ n = d mod 2 ^ n.
Proof. intros. unfold u64. by apply mod_mod_pow. Qed.

Lemma reduce64_value (Q : Z * Z * Z -> Prop) d0 d1 d2 : 0 <= d0 < 2 ^ 93 -> 0 <= d1 < 2 ^ 93 -> 0 <= d2 < 2 ^ 93 ->
  (forall a b c k, 0 <= a < 2 ^ 44 -> 0 <= b < 2 ^ 44 + 2 ^ 12 -> 0 <= c < 2 ^ 42 -> value64 a b c = value64 d0 d1 d2 - k * p1305 -> Q (a, b, c)) ->
  Q (reduce64 d0 d1 d2).
Proof.
  intros H0 H1 H2 K. cbv beta delta [reduce64]. do 12 step_let. rewrite ?mask44, ?mask42, ?shr, ?low_bits in * by done.
  destruct (split_at d0 44 93 ltac:(lia) H0) as (q0 & Eq0 & Er0 & R0). rewrite Eq0, ?Er0 in *. clear Eq0 Er0.
  rewrite u64_small in E by lia. subst c. rewrite u128_small in E1 by lia.
  destruct (split_at d3 44 94 ltac:(lia) ltac:(lia)) as (q1 & Eq1 & Er1 & R1). rewrite Eq1, ?Er1 in *. clear Eq1 Er1.
  rewrite u64_small in E2 by lia. subst c0. rewrite u128_small in E4 by lia.
  destruct (split_at d4 42 94 ltac:(lia) ltac:(lia)) as (q2 & Eq2 & Er2 & R2). rewrite Eq2, ?Er2 in *. clear Eq2 Er2.
  rewrite u64_small in E5 by lia. subst c1. rewrite (u64_small (q2 * 5)) in E7 by lia. rewrite u64_small in E7 by lia.
  destruct (split_at h6 44 56 ltac:(lia) ltac:(lia)) as (q3 & Eq3 & Er3 & R3). rewrite Eq3, ?Er3 in *. clear Eq3 Er3.
  subst c2. rewrite u64_small in E10 by lia. apply (K _ _ _ q2); unfold value64, p1305; lia.
Qed.

Lemma products64_value (Q : Z * Z * Z -> Prop) r0 r1 r2 h0 h1 h2 s1 s2 blk padbit : 0 <= r0 < 2 ^ 44 -> 0 <= r1 < 2 ^ 44 -> 0 <= r2 < 2 ^ 40 -> s1 = r1 * 20 -> s2 = r2 * 20 ->
  0 <= h0 < 2 ^ 44 -> 0 <= h1 < 2 ^ 44 + 2 ^ 12 -> 0 <= h2 < 2 ^ 42 -> all_bytes blk -> length blk = 16%nat -> padbit = 0 \/ padbit = 1 ->
  (forall d0 d1 d2 k, 0 <= d0 < 2 ^ 93 -> 0 <= d1 < 2 ^ 93 -> 0 <= d2 < 2 ^ 93 ->
    value64 d0 d1 d2 = (value64 h0 h1 h2 + (le_word blk + padbit * 2 ^ 128)) * value64 r0 r1 r2 - k * p1305 -> Q (d0, d1, d2)) ->
  Q (products64 (Internal r0 r1 r2 h0 h1 h2 s1 s2) blk (u64 (Z.shiftl padbit 40))).
Proof.
  intros R0 R1 R2 -> -> H0 H1 H2 Hb Hl Hp K. cbv beta iota delta [products64]. do 2 step_let. subst t0 t1.
  destruct (block_words blk Hb Hl) as (T0 & T1 & EB). rewrite EB in K.
  destruct (limbs64 _ _ padbit T0 T1 Hp) as (m0 & m1 & m2 & -> & -> & -> & _ & M0 & M1 & M2 & EM). rewrite <- EM in K. clear EB EM T0 T1 Hb.
  do 3 step_let. rewrite !u64_small in * by lia.
  assert (A0 : 0 <= h3 < 2 ^ 45) by lia. assert (A1 : 0 <= h4 < 2 ^ 46) by lia. assert (A2 : 0 <= h5 < 2 ^ 43) by lia.
  pose proof (mul_range _ _ _ _ A0 R0). pose proof (mul_range _ _ _ _ A0 R1). pose proof (mul_range _ _ _ _ A0 R2).
  pose proof (mul_range _ _ _ _ A1 R0). pose proof (mul_range _ _ _ _ A1 R1). pose proof (mul_range _ _ _ _ A1 R2).
  pose proof (mul_range _ _ _ _ A2 R0). pose proof (mul_range _ _ _ _ A2 R1). pose proof (mul_range _ _ _ _ A2 R2).
  assert (EH : value64 h3 h4 h5 = value64 h0 h1 h2 + (value64 m0 m1 m2 + padbit * 2 ^ 128)) by (subst; unfold value64; lia). rewrite <- EH in K.
  clear EH E E0 E1 H0 H1 H2 M0 M1 M2 Hp. clear A0 A1 A2 R0 R1 R2. cbv zeta.
  repeat match goal with |- context [u128 ?z] => lazymatch z with context [u128 _] => fail | _ => rewrite (u128_small z) by lia end end.
  apply (K _ _ _ (4 * (h4 * r2 + h5 * r1 + 2 ^ 44 * (h5 * r2)))); [lia..|]. unfold value64, p1305. ring.
Qed.

(** ** The final reduction *)

Lemma carry64_value (Q : Z * Z * Z -> Prop) h0 h1 h2 : 0 <= h0 < 2 ^ 44 -> 0 <= h1 < 2 ^ 44 + 2 ^ 12 -> 0 <= h2 < 2 ^ 42 ->
  (forall a b c k, 0 <= a < 2 ^ 44 -> 0 <= b < 2 ^ 44 -> 0 <= c < 2 ^ 42 -> value64 a b c = value64 h0 h1 h2 - k * p1305 -> Q (a, b, c)) ->
  Q (carry64 h0 h1 h2).
Proof.
  intros H0 H1 H2 K. cbv beta delta [carry64].
  limb_pair 44 h1 45. step_let. rewrite u64_small in E by lia.
  limb_pair 42 h3 43. step_let. rewrite (u64_small (q0 * 5)) in E0 by lia. rewrite u64_small in E0 by lia.
  limb_pair 44 h4 45. step_let. rewrite u64_small in E1 by lia.
  limb_pair 44 h5 45. step_let. rewrite u64_small in E2 by lia.
  limb_pair 42 h6 43. step_let. rewrite (u64_small (q3 * 5)) in E3 by lia. rewrite u64_small in E3 by lia.
  limb_pair 44 h7 45. step_let. rewrite u64_small in E4 by lia.
  apply (K _ _ _ (q0 + q3)); unfold value64, p1305; lia.
Qed.

Lemma sign_mask64 x : - 2 ^ 42 <= x < 2 ^ 42 -> u64 (u64 x / 2 ^ 63 - 1) = if x <? 0 then 0 else 2 ^ 64 - 1.
Proof. intros Hx. apply (sign_mask 64); [done|]. change (2 ^ (64 - 1)) with (2 ^ 63). lia. Qed.

(** The masks choose the reduced number exactly when there is something to reduce. *)
Lemma select64_value (Q : Z * Z * Z -> Prop) h0 h1 h2 : 0 <= h0 < 2 ^ 44 -> 0 <= h1 < 2 ^ 44 -> 0 <= h2 < 2 ^ 42 ->
  (forall a b c, 0 <= a < 2 ^ 44 -> 0 <= b < 2 ^ 44 -> 0 <= c < 2 ^ 42 -> value64 a b c = value64 h0 h1 h2 mod p1305 -> Q (a, b, c)) ->
  Q (select64 h0 h1 h2).
Proof.
  intros H0 H1 H2 K. cbv beta delta [select64]. do 7 step_let. rewrite ?mask44, ?shr in * by done. change (Z.shiftl 1 42) with (2 ^ 42) in *.
  rewrite u64_small in E by lia. subst g0.
  destruct (split_at (h0 + 5) 44 45 ltac:(lia) ltac:(lia)) as (q0 & Eq0 & Er0 & R0). rewrite Eq0, Er0 in *. clear Eq0 Er0. subst c g1. rewrite u64_small in E2 by lia. subst g2.
  destruct (split_at (h1 + q0) 44 45 ltac:(lia) ltac:(lia)) as (q1 & Eq1 & Er1 & R1). rewrite Eq1, Er1 in *. clear Eq1 Er1. subst c0 g3.
  subst g4. rewrite sign_mask64 by lia. cbv zeta. unfold u64 at 1 2 3. rewrite !choose_mask by first [lia | apply u64_range].
  assert (EV : value64 h0 h1 h2 + 5 = value64 (h0 + 5 - q0 * 2 ^ 44) (h1 + q0 - q1 * 2 ^ 44) (h2 + q1)) by (unfold value64; lia). unfold value64 in EV.
  destruct (Z.ltb_spec (h2 + q1 - 2 ^ 42) 0).
  - apply K; [done..|]. symmetry. apply Z.mod_small. unfold value64, p1305. lia.
  - rewrite u64_small by lia. apply K; [lia..|]. apply (Z.mod_unique_pos _ _ 1); unfold value64, p1305; lia.
Qed.

(** ** The tag *)

Lemma nonce_word a b : 0 <= a < 2 ^ 32 -> 0 <= b < 2 ^ 32 -> Z.lor (u64 (Z.shiftl b 32)) a = a + 2 ^ 32 * b.
Proof. intros Ha Hb. rewrite u64_small by (rewrite Z.shiftl_mul_pow2 by lia; lia). rewrite Z.lor_comm, lor_shift by lia. lia. Qed.

(** The limbs as two words. *)
Lemma words64 x0 x1 x2 : 0 <= x0 < 2 ^ 44 -> 0 <= x1 < 2 ^ 44 -> 0 <= x2 < 2 ^ 42 ->
  le_bytes 8 (Z.lor x0 (u64 (Z.shiftl x1 44))) ++ le_bytes 8 (Z.lor (x1 / 2 ^ 20) (u64 (Z.shiftl x2 24))) = le_bytes 16 (value64 x0 x1 x2).
Proof.
  intros H0 H1 H2. unfold u64. replace (Z.shiftl x1 44 mod 2 ^ 64) with (Z.shiftl (x1 mod 2 ^ 20) 44) by (rewrite !Z.shiftl_mul_pow2 by lia; lia).
  replace (Z.shiftl x2 24 mod 2 ^ 64) with (Z.shiftl (x2 mod 2 ^ 40) 24) by (rewrite !Z.shiftl_mul_pow2 by lia; lia).
  rewrite !lor_shift by lia. rewrite <- (le_bytes_mod 16). unfold value64. change (256 ^ Z.of_nat 16) with (2 ^ 64 * 2 ^ 64).
  rewrite (le_bytes_app 8 8) by lia. f_equal. lia.
Qed.

Lemma add_nonce64_value h0 h1 h2 n0 n1 n2 n3 : 0 <= h0 < 2 ^ 44 -> 0 <= h1 < 2 ^ 44 -> 0 <= h2 < 2 ^ 42 -> Forall (fun w => 0 <= w < 2 ^ 32) [n0; n1; n2; n3] ->
  add_nonce64 h0 h1 h2 [n0; n1; n2; n3] = le_bytes 16 (value64 h0 h1 h2 + fold_right (fun w acc => w + 2 ^ 32 * acc) 0 [n0; n1; n2; n3]).
Proof.
  intros H0 H1 H2 HN. rewrite !Forall_cons in HN. destruct HN as (N0 & N1 & N2 & N3 & _).
  set (Q l := l = le_bytes 16 (value64 h0 h1 h2 + fold_right (fun w acc => w + 2 ^ 32 * acc) 0 [n0; n1; n2; n3])). change (Q (add_nonce64 h0 h1 h2 [n0; n1; n2; n3])).
  cbv beta delta [add_nonce64]. do 3 step_let. subst n. cbn [nth] in E0, E1. rewrite nonce_word in E0, E1 by done.
  destruct (limbs64 t0 t1 0) as (m0 & m1 & m2 & -> & -> & _ & -> & M0 & M1 & M2 & EM); [lia|lia|by left|].
  do 8 step_let. rewrite ?mask44, ?mask42, ?shr in * by done. rewrite u64_small in E by lia.
  destruct (split_at h3 44 45 ltac:(lia) ltac:(lia)) as (q0 & Eq0 & Er0 & R0). rewrite Eq0, Er0 in *. clear Eq0 Er0. subst c. rewrite u64_small in E4 by lia.
  destruct (split_at h5 44 46 ltac:(lia) ltac:(lia)) as (q1 & Eq1 & Er1 & R1). rewrite Eq1, Er1 in *. clear Eq1 Er1. subst c0. rewrite u64_small in E7 by lia.
  destruct (split_at h7 42 44 ltac:(lia) ltac:(lia)) as (q2 & Eq2 & Er2 & R2). rewrite Er2 in *. clear Eq2 Er2.
  cbv zeta. unfold Q. rewrite words64 by lia. rewrite <- (le_bytes_mod 16), <- (le_bytes_mod 16 (_ + _)). f_equal. change (256 ^ Z.of_nat 16) with (2 ^ 128).
  cbn [fold_right]. unfold value64 in *. rewrite <- (Z_mod_plus_full _ (q2 * 4)). f_equal. lia.
Qed.

(** * The interface *)

Definition rep64 (st : poly1305_internal) (r h : Z) : Prop :=
  let '(Internal r0 r1 r2 h0 h1 h2 s1 s2) := st in
  0 <= r0 < 2 ^ 44 /\ 0 <= r1 < 2 ^ 44 /\ 0 <= r2 < 2 ^ 40 /\ s1 = r1 * 20 /\ s2 = r2 * 20 /\ r = value64 r0 r1 r2 /\
  0 <= h0 < 2 ^ 44 /\ 0 <= h1 < 2 ^ 44 + 2 ^ 12 /\ 0 <= h2 < 2 ^ 42 /\ exists k, value64 h0 h1 h2 = h - k * p1305.

Lemma init64_rep key : all_bytes key -> 16 <= len key -> rep64 (init64 key) (clamp (le_word (field 0 16 key))) 0.
Proof.
  intros Hb Hl. set (t0 := get_unaligned_le64 0 key). set (t1 := get_unaligned_le64 8 key).
  pose proof (get_le64_range 0 key Hb) as T0. pose proof (get_le64_range 8 key Hb) as T1. fold t0 in T0. fold t1 in T1.
  destruct (limbs64 t0 t1 0 T0 T1) as (m0 & m1 & m2 & L0 & L1 & _ & L2 & M0 & M1 & M2 & EM); [by left|]. rewrite mask44 in L0, L1. rewrite mask42 in L2.
  destruct (block_words (field 0 16 key)) as (_ & _ & EK); [by apply field_bytes|pose proof (len_field 0 16 key); unfold len in *; lia|].
  rewrite !le64_prefix in EK by lia. fold t0 t1 in EK. unfold init64. fold t0 t1.
  rewrite (land_mod t0 _ 44), (land_mod (Z.lor _ _) _ 44), (land_mod (Z.shiftr t1 24) _ 42), L0, L1, L2 by done. unfold rep64.
  pose proof (land_range m0 0xffc0fffffff 44 ltac:(lia) M0). pose proof (land_range m1 0xfffffc0ffff 44 ltac:(lia) M1). pose proof (land_range m2 0xffffffc0f 40 ltac:(lia) M2).
  rewrite !u64_small by lia. do 5 (split; [done|]). split; [|do 3 (split; [lia|]); by exists 0].
  rewrite EK, <- EM. unfold clamp, value64. replace (m0 + m1 * 2 ^ 44 + m2 * 2 ^ 88) with (m0 + (m1 + m2 * 2 ^ 44) * 2 ^ 44) by lia.
  change 0x0ffffffc0ffffffc0ffffffc0fffffff with (0xffc0fffffff + (0xfffffc0ffff + 0xffffffc0f * 2 ^ 44) * 2 ^ 44). rewrite !land_parts by lia. lia.
Qed.

Lemma block64_rep st r h blk padbit : rep64 st r h -> all_bytes blk -> length blk = 16%nat -> padbit = 0 \/ padbit = 1 ->
  rep64 (block64 padbit st blk) r ((h + (le_word blk + padbit * 2 ^ 128)) * r).
Proof.
  destruct st as [r0 r1 r2 h0 h1 h2 s1 s2]. intros (R0 & R1 & R2 & S1 & S2 & -> & H0 & H1 & H2 & k & EH) Hb Hl Hp. unfold block64. cbv zeta.
  apply (products64_value (fun d => rep64 (let '(d0, d1, d2) := d in let '(h0, h1, h2) := reduce64 d0 d1 d2 in _) _ _)); [done..|]. intros d0 d1 d2 k1 D0 D1 D2 ED.
  apply (reduce64_value (fun h => rep64 (let '(h0, h1, h2) := h in _) _ _)); [done..|]. intros a b c k2 A B C EC.
  cbn. do 9 (split; [done|]). exists (k * value64 r0 r1 r2 + k1 + k2). rewrite EC, ED, EH. ring.
Qed.

Lemma emit64_rep st r h nonce : rep64 st r h -> length nonce = 4%nat -> Forall (fun w => 0 <= w < 2 ^ 32) nonce ->
  emit64 st nonce = le_bytes 16 (h mod p1305 + fold_right (fun w acc => w + 2 ^ 32 * acc) 0 nonce).
Proof.
  destruct st as [r0 r1 r2 h0 h1 h2 s1 s2]. intros (_ & _ & _ & _ & _ & _ & H0 & H1 & H2 & k & EH) Hl HN. destruct nonce as [|n0 [|n1 [|n2 [|n3 [|? ?]]]]]; try done. unfold emit64. cbn [Donna64.h0 Donna64.h1 Donna64.h2].
  apply (carry64_value (fun h => (let '(h0, h1, h2) := h in let '(h0, h1, h2) := select64 h0 h1 h2 in _) = _)); [done..|]. intros a b c k1 A B C EC.
  apply (select64_value (fun h => (let '(h0, h1, h2) := h in _) = _)); [done..|]. intros a' b' c' A' B' C' EC'. rewrite add_nonce64_value by done. f_equal. f_equal.
  rewrite EC', EC, EH. replace (h - k * p1305 - k1 * p1305) with (h + (- k - k1) * p1305) by ring. apply Z_mod_plus_full.
Qed.

#[export] Instance donna64_laws : PolyBackendLaws poly1305_internal.
Proof.
  refine {| poly_rep := rep64 |}.
  - exact init64_rep.
  - intros st padbit input Hl. by apply blocks_loop_none.
  - intros st r h blk rest padbit Hr Hb Hl Hp. exists (block64 padbit st blk). split; [by apply block64_rep|by apply blocks_loop_cons].
  - exact emit64_rep.
Qed.
