(* ===== verification/Donna32.v ===== *)
(** * Poly1305 with 32-bit limbs ([src/crypto/zinc/poly1305/poly1305-donna32.c])

    The same authenticator for machines without 128-bit products: five limbs of
    26 bits and products of 64 bits.  The sums of products of a block stay below
    2^58, so that their carries still fit 32 bits; the proof keeps every width.
    The back end satisfies the interface of [Poly1305], hence computes what
    [Donna64] computes. *)

From S2P Require Import Prelude Words Poly1305.
From stdpp Require Import list.
From Stdlib Require Import ZifyNat.
#[local] Open Scope Z_scope.

(** ** The code *)

(** Five limbs: the arrays [h[5]] and [r[5]]. *)
Record limbs32 := Limbs { l0 : Z; l1 : Z; l2 : Z; l3 : Z; l4 : Z }.

Record poly1305_internal32 := Internal32 { hs : limbs32; rs : limbs32; ss : Z * Z * Z * Z }.

Definition init32 (key : list Z) : poly1305_internal32 :=
  let r0 := Z.land (get_unaligned_le32 0 key) 0x3ffffff in
  let r1 := Z.land (Z.shiftr (get_unaligned_le32 3 key) 2) 0x3ffff03 in
  let r2 := Z.land (Z.shiftr (get_unaligned_le32 6 key) 4) 0x3ffc0ff in
  let r3 := Z.land (Z.shiftr (get_unaligned_le32 9 key) 6) 0x3f03fff in
  let r4 := Z.land (Z.shiftr (get_unaligned_le32 12 key) 8) 0x00fffff in
  Internal32 (Limbs 0 0 0 0 0) (Limbs r0 r1 r2 r3 r4) (u32 (r1 * 5), u32 (r2 * 5), u32 (r3 * 5), u32 (r4 * 5)).

(** [h += m[i]]. *)
Definition add_block32 (h : limbs32) (input : list Z) (hibit : Z) : limbs32 :=
  let '(Limbs h0 h1 h2 h3 h4) := h in
  Limbs (u32 (h0 + Z.land (get_unaligned_le32 0 input) 0x3ffffff))
        (u32 (h1 + Z.land (Z.shiftr (get_unaligned_le32 3 input) 2) 0x3ffffff))
        (u32 (h2 + Z.land (Z.shiftr (get_unaligned_le32 6 input) 4) 0x3ffffff))
        (u32 (h3 + Z.land (Z.shiftr (get_unaligned_le32 9 input) 6) 0x3ffffff))
        (u32 (h4 + Z.lor (Z.shiftr (get_unaligned_le32 12 input) 8) hibit)).

(** A sum of five 64-bit products. *)
Definition dot32 (a0 b0 a1 b1 a2 b2 a3 b3 a4 b4 : Z) : Z :=
  u64 (u64 (u64 (u64 (u64 (a0 * b0) + u64 (a1 * b1)) + u64 (a2 * b2)) + u64 (a3 * b3)) + u64 (a4 * b4)).

(** [h *= r]. *)
Definition products32 (h r : limbs32) (s : Z * Z * Z * Z) : limbs32 :=
  let '(Limbs h0 h1 h2 h3 h4) := h in
  let '(Limbs r0 r1 r2 r3 r4) := r in
  let '(s1, s2, s3, s4) := s in
  Limbs (dot32 h0 r0 h1 s4 h2 s3 h3 s2 h4 s1)
        (dot32 h0 r1 h1 r0 h2 s4 h3 s3 h4 s2)
        (dot32 h0 r2 h1 r1 h2 r0 h3 s4 h4 s3)
        (dot32 h0 r3 h1 r2 h2 r1 h3 r0 h4 s4)
        (dot32 h0 r4 h1 r3 h2 r2 h3 r1 h4 r0).

(** [(partial) h %= p]. *)
Definition reduce32 (d : limbs32) : limbs32 :=
  let '(Limbs d0 d1 d2 d3 d4) := d in
  let c := u32 (Z.shiftr d0 26) in
  let h0 := Z.land (u32 d0) 0x3ffffff in
  let d1 := u64 (d1 + c) in
  let c := u32 (Z.shiftr d1 26) in
  let h1 := Z.land (u32 d1) 0x3ffffff in
  let d2 := u64 (d2 + c) in
  let c := u32 (Z.shiftr d2 26) in
  let h2 := Z.land (u32 d2) 0x3ffffff in
  let d3 := u64 (d3 + c) in
  let c := u32 (Z.shiftr d3 26) in
  let h3 := Z.land (u32 d3) 0x3ffffff in
  let d4 := u64 (d4 + c) in
  let c := u32 (Z.shiftr d4 26) in
  let h4 := Z.land (u32 d4) 0x3ffffff in
  let h0 := u32 (h0 + u32 (c * 5)) in
  let c := Z.shiftr h0 26 in
  let h0 := Z.land h0 0x3ffffff in
  let h1 := u32 (h1 + c) in
  Limbs h0 h1 h2 h3 h4.

(** The body of the loop. *)
Definition block32 (padbit : Z) (st : poly1305_internal32) (input : list Z) : poly1305_internal32 :=
  let hibit := u32 (Z.shiftl padbit 24) in
  Internal32 (reduce32 (products32 (add_block32 (hs st) input hibit) (rs st) (ss st))) (rs st) (ss st).

Definition blocks32 (st : poly1305_internal32) (input : list Z) (padbit : Z) : poly1305_internal32 :=
  blocks_loop (block32 padbit) (length input / 16) st input.

(** The carries of [poly1305_emit_generic]. *)
Definition carry32 (h : limbs32) : limbs32 :=
  let '(Limbs h0 h1 h2 h3 h4) := h in
  let c := Z.shiftr h1 26 in
  let h1 := Z.land h1 0x3ffffff in
  let h2 := u32 (h2 + c) in
  let c := Z.shiftr h2 26 in
  let h2 := Z.land h2 0x3ffffff in
  let h3 := u32 (h3 + c) in
  let c := Z.shiftr h3 26 in
  let h3 := Z.land h3 0x3ffffff in
  let h4 := u32 (h4 + c) in
  let c := Z.shiftr h4 26 in
  let h4 := Z.land h4 0x3ffffff in
  let h0 := u32 (h0 + u32 (c * 5)) in
  let c := Z.shiftr h0 26 in
  let h0 := Z.land h0 0x3ffffff in
  let h1 := u32 (h1 + c) in
  Limbs h0 h1 h2 h3 h4.

(** [h + -p], and the selection by masks. *)
Definition select32 (h : limbs32) : limbs32 :=
  let '(Limbs h0 h1 h2 h3 h4) := h in
  let g0 := u32 (h0 + 5) in
  let c := Z.shiftr g0 26 in
  let g0 := Z.land g0 0x3ffffff in
  let g1 := u32 (h1 + c) in
  let c := Z.shiftr g1 26 in
  let g1 := Z.land g1 0x3ffffff in
  let g2 := u32 (h2 + c) in
  let c := Z.shiftr g2 26 in
  let g2 := Z.land g2 0x3ffffff in
  let g3 := u32 (h3 + c) in
  let c := Z.shiftr g3 26 in
  let g3 := Z.land g3 0x3ffffff in
  let g4 := u32 (h4 + c - Z.shiftl 1 26) in
  let mask := u32 (Z.shiftr g4 31 - 1) in
  let g0 := Z.land g0 mask in
  let g1 := Z.land g1 mask in
  let g2 := Z.land g2 mask in
  let g3 := Z.land g3 mask in
  let g4 := Z.land g4 mask in
  let mask := u32 (Z.lnot mask) in
  Limbs (Z.lor (Z.land h0 mask) g0) (Z.lor (Z.land h1 mask) g1) (Z.lor (Z.land h2 mask) g2) (Z.lor (Z.land h3 mask) g3) (Z.lor (Z.land h4 mask) g4).

(** [h = h % (2^128)], as four words. *)
Definition words32 (h : limbs32) : Z * Z * Z * Z :=
  let '(Limbs h0 h1 h2 h3 h4) := h in
  (Z.land (Z.lor h0 (u32 (Z.shiftl h1 26))) 0xffffffff,
   Z.land (Z.lor (Z.shiftr h1 6) (u32 (Z.shiftl h2 20))) 0xffffffff,
   Z.land (Z.lor (Z.shiftr h2 12) (u32 (Z.shiftl h3 14))) 0xffffffff,
   Z.land (Z.lor (Z.shiftr h3 18) (u32 (Z.shiftl h4 8))) 0xffffffff).

(** [mac = (h + nonce) % (2^128)]. *)
Definition add_nonce32 (h : Z * Z * Z * Z) (nonce : list Z) : list Z :=
  let '(h0, h1, h2, h3) := h in
  let n i := nth i nonce 0 in
  let f := u64 (h0 + n 0%nat) in
  let h0 := u32 f in
  let f := u64 (u64 (h1 + n 1%nat) + Z.shiftr f 32) in
  let h1 := u32 f in
  let f := u64 (u64 (h2 + n 2%nat) + Z.shiftr f 32) in
  let h2 := u32 f in
  let f := u64 (u64 (h3 + n 3%nat) + Z.shiftr f 32) in
  let h3 := u32 f in
  le_bytes 4 h0 ++ le_bytes 4 h1 ++ le_bytes 4 h2 ++ le_bytes 4 h3.

Definition emit32 (st : poly1305_internal32) (nonce : list Z) : list Z :=
  add_nonce32 (words32 (select32 (carry32 (hs st)))) nonce.

#[export] Instance donna32 : PolyBackend poly1305_internal32 :=
  {| poly1305_init_generic := init32; poly1305_blocks_generic := blocks32; poly1305_emit_generic := emit32 |}.

(** * The limbs *)

(** The number that five limbs stand for. *)
Definition value32 (x : limbs32) : Z := l0 x + l1 x * 2 ^ 26 + l2 x * 2 ^ 52 + l3 x * 2 ^ 78 + l4 x * 2 ^ 104.

Definition small_limbs (x : limbs32) : Prop :=
  0 <= l0 x < 2 ^ 26 /\ 0 <= l1 x < 2 ^ 26 /\ 0 <= l2 x < 2 ^ 26 /\ 0 <= l3 x < 2 ^ 26 /\ 0 <= l4 x < 2 ^ 26.

Lemma mask26 x : Z.land x 0x3ffffff = x mod 2 ^ 26.
Proof. change 0x3ffffff with (Z.ones 26). by apply Z.land_ones. Qed.

(** A word of a block, shifted. *)
Lemma word32 blk off b : all_bytes blk -> len blk = 16 -> 0 <= off <= 12 -> 0 <= b -> b + 26 <= 32 ->
  Z.shiftr (get_unaligned_le32 off blk) b mod 2 ^ 26 = le_word blk / 2 ^ (8 * off + b) mod 2 ^ 26.
Proof.
  intros Hb Hl Ho Hb0 Hb1. unfold get_unaligned_le32, field. rewrite le_word_slice by first [done | unfold len in *; lia]. rewrite Z2Nat.id by lia. change (256 ^ Z.of_nat (Z.to_nat 4)) with (2 ^ 32).
  rewrite shr by done. change 256 with (2 ^ 8). rewrite <- Z.pow_mul_r by lia. apply word_at; lia.
Qed.

Lemma limbs_of x : value32 (Limbs (x mod 2 ^ 26) (x / 2 ^ 26 mod 2 ^ 26) (x / 2 ^ 52 mod 2 ^ 26) (x / 2 ^ 78 mod 2 ^ 26) (x / 2 ^ 104)) = x.
Proof.
  unfold value32. cbn [l0 l1 l2 l3 l4]. pose proof (next_limb x 0 26 ltac:(lia) ltac:(lia)) as A. rewrite Z.pow_0_r, Z.div_1_r in A. revert A.
  generalize (next_limb x 26 26 ltac:(lia) ltac:(lia)), (next_limb x 52 26 ltac:(lia) ltac:(lia)), (next_limb x 78 26 ltac:(lia) ltac:(lia)).
  change (0 + 26) with 26. change (26 + 26) with 52. change (52 + 26) with 78. change (78 + 26) with 104.
  generalize (x mod 2 ^ 26), (x / 2 ^ 26 mod 2 ^ 26), (x / 2 ^ 52 mod 2 ^ 26), (x / 2 ^ 78 mod 2 ^ 26). generalize (x / 2 ^ 26), (x / 2 ^ 52), (x / 2 ^ 78), (x / 2 ^ 104). lia.
Qed.

(** The limbs of a block. *)
Lemma block_limbs32 blk : all_bytes blk -> len blk = 16 ->
  exists m, small_limbs m /\ l4 m < 2 ^ 24 /\ value32 m = le_word blk /\
    get_unaligned_le32 0 blk mod 2 ^ 26 = l0 m /\ Z.shiftr (get_unaligned_le32 3 blk) 2 mod 2 ^ 26 = l1 m /\ Z.shiftr (get_unaligned_le32 6 blk) 4 mod 2 ^ 26 = l2 m /\
    Z.shiftr (get_unaligned_le32 9 blk) 6 mod 2 ^ 26 = l3 m /\ Z.shiftr (get_unaligned_le32 12 blk) 8 = l4 m.
Proof.
  intros Hb Hl. set (x := le_word blk). pose proof (le_word_range blk Hb) as R. rewrite Hl in R. change (256 ^ 16) with (2 ^ 128) in R. fold x in R.
  pose proof (word32 blk 0 0 Hb Hl ltac:(lia) ltac:(lia) ltac:(lia)) as E0. change (8 * 0 + 0) with 0 in E0. rewrite Z.shiftr_0_r, Z.pow_0_r, Z.div_1_r in E0.
  rewrite E0, !word32 by first [done | lia]. change (8 * 3 + 2) with 26. change (8 * 6 + 4) with 52. change (8 * 9 + 6) with 78. fold x.
  exists (Limbs (x mod 2 ^ 26) (x / 2 ^ 26 mod 2 ^ 26) (x / 2 ^ 52 mod 2 ^ 26) (x / 2 ^ 78 mod 2 ^ 26) (x / 2 ^ 104)). rewrite limbs_of. unfold small_limbs. cbn [l0 l1 l2 l3 l4].
  assert (T : 0 <= x / 2 ^ 104 < 2 ^ 24) by (split; [apply Z.div_pos; lia|apply Z.div_lt_upper_bound; lia]).
  assert (M : forall y, 0 <= y mod 2 ^ 26 < 2 ^ 26) by (intros; apply Z.mod_pos_bound; done).
  assert (E4 : Z.shiftr (get_unaligned_le32 12 blk) 8 = x / 2 ^ 104); [|rewrite E4; repeat split; solve [apply M | lia]].
  unfold get_unaligned_le32, field. rewrite le_word_slice by first [done | unfold len in *; lia]. rewrite shr by done. fold x.
  change (256 ^ Z.of_nat (Z.to_nat 12)) with (2 ^ 96). change (256 ^ Z.of_nat (Z.to_nat 4)) with (2 ^ 32).
  assert (T' : 0 <= x / 2 ^ 96 < 2 ^ 32) by (split; [apply Z.div_pos; lia|apply Z.div_lt_upper_bound; lia]). rewrite (Z.mod_small _ _ T'), Z.div_div by done. done.
Qed.

Lemma low_bits32 d n : 0 <= n <= 32 -> u32 d mod 2 ^ n = d mod 2 ^ n.
Proof. intros. unfold u32. by apply mod_mod_pow. Qed.

(** The next two assignments: the carry out of [x], and what is left of [x]. *)
Ltac limb_pair x m :=
  let q := fresh "q" in let Eq := fresh "Eq" in let Er := fresh "Er" in let R := fresh "R" in
  destruct (split_at x 26 m) as (q & Eq & Er & R); [lia|lia|];
  step_let; lazymatch goal with E : ?c = _ |- _ => rewrite ?shr, Eq in E by done; rewrite ?u32_small in E by lia; subst c end;
  step_let; lazymatch goal with E : ?h = _ |- _ => rewrite mask26, ?low_bits32, Er in E by done; subst h end; clear Eq Er.

Lemma reduce32_value (Q : limbs32 -> Prop) d0 d1 d2 d3 d4 :
  0 <= d0 < 2 ^ 58 - 2 ^ 33 -> 0 <= d1 < 2 ^ 58 - 2 ^ 33 -> 0 <= d2 < 2 ^ 58 - 2 ^ 33 -> 0 <= d3 < 2 ^ 58 - 2 ^ 33 -> 0 <= d4 < 6 * 2 ^ 53 ->
  (forall a b c d e k, 0 <= a < 2 ^ 26 -> 0 <= b < 2 ^ 26 + 2 ^ 7 -> 0 <= c < 2 ^ 26 -> 0 <= d < 2 ^ 26 -> 0 <= e < 2 ^ 26 ->
    value32 (Limbs a b c d e) = value32 (Limbs d0 d1 d2 d3 d4) - k * p1305 -> Q (Limbs a b c d e)) ->
  Q (reduce32 (Limbs d0 d1 d2 d3 d4)).
Proof.
  intros H0 H1 H2 H3 H4 K. cbv beta iota delta [reduce32].
  limb_pair d0 58. step_let. rewrite u64_small in E by lia.
  limb_pair d5 58. step_let. rewrite u64_small in E0 by lia.
  limb_pair d6 58. step_let. rewrite u64_small in E1 by lia.
  limb_pair d7 58. step_let. rewrite u64_small in E2 by lia.
  limb_pair d8 56. step_let. rewrite (u32_small (q3 * 5)) in E3 by lia. rewrite u32_small in E3 by lia.
  limb_pair h0 32. step_let. rewrite u32_small in E4 by lia. subst h0.
  apply (K _ _ _ _ _ q3); [lia..|]. unfold value32, p1305. cbn [l0 l1 l2 l3 l4]. lia.
Qed.

(** A sum of products does not overflow. *)
Lemma dot32_range A B0 B1 B2 B3 B4 a0 b0 a1 b1 a2 b2 a3 b3 a4 b4 :
  0 <= a0 < A -> 0 <= a1 < A -> 0 <= a2 < A -> 0 <= a3 < A -> 0 <= a4 < A ->
  0 <= b0 < B0 -> 0 <= b1 < B1 -> 0 <= b2 < B2 -> 0 <= b3 < B3 -> 0 <= b4 < B4 -> A * B0 + A * B1 + A * B2 + A * B3 + A * B4 <= 2 ^ 64 ->
  dot32 a0 b0 a1 b1 a2 b2 a3 b3 a4 b4 = a0 * b0 + a1 * b1 + a2 * b2 + a3 * b3 + a4 * b4 /\
  0 <= a0 * b0 + a1 * b1 + a2 * b2 + a3 * b3 + a4 * b4 < A * B0 + A * B1 + A * B2 + A * B3 + A * B4.
Proof.
  intros HA0 HA1 HA2 HA3 HA4 HB0 HB1 HB2 HB3 HB4 HM.
  pose proof (mul_range _ _ _ _ HA0 HB0) as P0. pose proof (mul_range _ _ _ _ HA1 HB1) as P1. pose proof (mul_range _ _ _ _ HA2 HB2) as P2.
  pose proof (mul_range _ _ _ _ HA3 HB3) as P3. pose proof (mul_range _ _ _ _ HA4 HB4) as P4. clear HA0 HA1 HA2 HA3 HA4 HB0 HB1 HB2 HB3 HB4.
  unfold dot32. revert P0 P1 P2 P3 P4 HM. generalize (a0 * b0), (a1 * b1), (a2 * b2), (a3 * b3), (a4 * b4), (A * B0), (A * B1), (A * B2), (A * B3), (A * B4).
  intros. rewrite (u64_small z), (u64_small z0), (u64_small z1), (u64_small z2), (u64_small z3) by lia. rewrite (u64_small (z + z0)) by lia. rewrite (u64_small (z + z0 + z1)) by lia.
  rewrite (u64_small (z + z0 + z1 + z2)) by lia. rewrite u64_small by lia. lia.
Qed.

(** The invariant of the limbs between blocks. *)
Definition loose_limbs (x : limbs32) : Prop :=
  0 <= l0 x < 2 ^ 26 /\ 0 <= l1 x < 2 ^ 26 + 2 ^ 7 /\ 0 <= l2 x < 2 ^ 26 /\ 0 <= l3 x < 2 ^ 26 /\ 0 <= l4 x < 2 ^ 26.

Lemma add_block32_value h blk padbit : loose_limbs h -> all_bytes blk -> len blk = 16 -> padbit = 0 \/ padbit = 1 ->
  let x := add_block32 h blk (u32 (Z.shiftl padbit 24)) in
  (forall l, In l [l0; l1; l2; l3; l4] -> 0 <= l x < 2 ^ 27 + 2 ^ 7) /\ value32 x = value32 h + (le_word blk + padbit * 2 ^ 128).
Proof.
  intros Hh Hb Hl Hp. destruct h as [h0 h1 h2 h3 h4]. destruct (block_limbs32 blk Hb Hl) as (m & M & M4 & <- & E0 & E1 & E2 & E3 & E4).
  unfold loose_limbs, small_limbs, value32, add_block32 in *. cbn [l0 l1 l2 l3 l4] in *. rewrite !mask26, E0, E1, E2, E3, E4.
  rewrite (u32_small (Z.shiftl padbit 24)) by (rewrite Z.shiftl_mul_pow2 by lia; lia). rewrite lor_shift by lia. rewrite !u32_small by lia.
  split; [|lia]. cbn [In]. intros l [<-|[<-|[<-|[<-|[<-|[]]]]]]; cbn [l0 l1 l2 l3 l4]; lia.
Qed.

Lemma products32_value (Q : limbs32 -> Prop) h r : (forall l, In l [l0; l1; l2; l3; l4] -> 0 <= l h < 2 ^ 27 + 2 ^ 7) -> small_limbs r ->
  (forall d0 d1 d2 d3 d4 k, 0 <= d0 < 2 ^ 58 - 2 ^ 33 -> 0 <= d1 < 2 ^ 58 - 2 ^ 33 -> 0 <= d2 < 2 ^ 58 - 2 ^ 33 -> 0 <= d3 < 2 ^ 58 - 2 ^ 33 -> 0 <= d4 < 6 * 2 ^ 53 ->
    value32 (Limbs d0 d1 d2 d3 d4) = value32 h * value32 r - k * p1305 -> Q (Limbs d0 d1 d2 d3 d4)) ->
  Q (products32 h r (l1 r * 5, l2 r * 5, l3 r * 5, l4 r * 5)).
Proof.
  intros Hh (R0 & R1 & R2 & R3 & R4) K. pose proof (Hh l0 ltac:(cbn; tauto)) as H0. pose proof (Hh l1 ltac:(cbn; tauto)) as H1. pose proof (Hh l2 ltac:(cbn; tauto)) as H2.
  pose proof (Hh l3 ltac:(cbn; tauto)) as H3. pose proof (Hh l4 ltac:(cbn; tauto)) as H4. clear Hh. destruct h as [h0 h1 h2 h3 h4], r as [r0 r1 r2 r3 r4]. cbn [products32 l0 l1 l2 l3 l4] in *.
  assert (S1 : 0 <= r1 * 5 < 5 * 2 ^ 26) by lia. assert (S2 : 0 <= r2 * 5 < 5 * 2 ^ 26) by lia. assert (S3 : 0 <= r3 * 5 < 5 * 2 ^ 26) by lia. assert (S4 : 0 <= r4 * 5 < 5 * 2 ^ 26) by lia.
  destruct (dot32_range _ _ _ _ _ _ _ _ _ _ _ _ _ _ _ _ H0 H1 H2 H3 H4 R0 S4 S3 S2 S1) as [E0 D0]; [done|].
  destruct (dot32_range _ _ _ _ _ _ _ _ _ _ _ _ _ _ _ _ H0 H1 H2 H3 H4 R1 R0 S4 S3 S2) as [E1 D1]; [done|].
  destruct (dot32_range _ _ _ _ _ _ _ _ _ _ _ _ _ _ _ _ H0 H1 H2 H3 H4 R2 R1 R0 S4 S3) as [E2 D2]; [done|].
  destruct (dot32_range _ _ _ _ _ _ _ _ _ _ _ _ _ _ _ _ H0 H1 H2 H3 H4 R3 R2 R1 R0 S4) as [E3 D3]; [done|].
  destruct (dot32_range _ _ _ _ _ _ _ _ _ _ _ _ _ _ _ _ H0 H1 H2 H3 H4 R4 R3 R2 R1 R0) as [E4 D4]; [done|].
  rewrite E0, E1, E2, E3, E4. clear H0 H1 H2 H3 H4 R0 R1 R2 R3 R4 S1 S2 S3 S4 E0 E1 E2 E3 E4.
  apply (K _ _ _ _ _ (h1 * r4 + h2 * r3 + h3 * r2 + h4 * r1 + 2 ^ 26 * (h2 * r4 + h3 * r3 + h4 * r2) + 2 ^ 52 * (h3 * r4 + h4 * r3) + 2 ^ 78 * (h4 * r4))).
  1-5: split; [apply D0 || apply D1 || apply D2 || apply D3 || apply D4|eapply Z.lt_le_trans; [apply D0 || apply D1 || apply D2 || apply D3 || apply D4|done]].
  unfold value32, p1305. cbn [l0 l1 l2 l3 l4]. ring.
Qed.

(** ** The final reduction *)

Lemma carry32_value (Q : limbs32 -> Prop) h : loose_limbs h -> (forall x k, small_limbs x -> value32 x = value32 h - k * p1305 -> Q x) -> Q (carry32 h).
Proof.
  destruct h as [h0 h1 h2 h3 h4]. intros H K. unfold loose_limbs in H. cbn [l0 l1 l2 l3 l4] in H. destruct H as (H0 & H1 & H2 & H3 & H4). cbv beta iota delta [carry32].
  limb_pair h1 27. step_let. rewrite u32_small in E by lia.
  limb_pair h5 27. step_let. rewrite u32_small in E0 by lia.
  limb_pair h6 27. step_let. rewrite u32_small in E1 by lia.
  limb_pair h7 27. step_let. rewrite (u32_small (q2 * 5)) in E2 by lia. rewrite u32_small in E2 by lia.
  limb_pair h8 27. step_let. rewrite u32_small in E3 by lia.
  apply (K _ q2); [unfold small_limbs|unfold value32, p1305]; cbn [l0 l1 l2 l3 l4]; lia.
Qed.

Lemma sign_mask32 x : - 2 ^ 26 <= x < 2 ^ 26 -> u32 (u32 x / 2 ^ 31 - 1) = if x <? 0 then 0 else 2 ^ 32 - 1.
Proof. intros Hx. apply (sign_mask 32); [done|]. change (2 ^ (32 - 1)) with (2 ^ 31). lia. Qed.

(** The masks choose the reduced number exactly when there is something to reduce. *)
Lemma select32_value (Q : limbs32 -> Prop) h : small_limbs h -> (forall x, small_limbs x -> value32 x = value32 h mod p1305 -> Q x) -> Q (select32 h).
Proof.
  destruct h as [h0 h1 h2 h3 h4]. intros H K. unfold small_limbs in H. cbn [l0 l1 l2 l3 l4] in H. destruct H as (H0 & H1 & H2 & H3 & H4). cbv beta iota delta [select32].
  step_let. rewrite u32_small in E by lia. limb_pair g0 27. step_let. rewrite u32_small in E0 by lia.
  limb_pair g1 27. step_let. rewrite u32_small in E1 by lia.
  limb_pair g2 27. step_let. rewrite u32_small in E2 by lia.
  limb_pair g3 27. step_let. change (Z.shiftl 1 26) with (2 ^ 26) in *. rewrite shr by done. subst g4.
  rewrite sign_mask32 by lia. cbv zeta. unfold u32 at 1 2 3 4 5. rewrite !choose_mask by first [lia | apply u32_range].
  assert (EV : value32 (Limbs h0 h1 h2 h3 h4) + 5 = value32 (Limbs (g0 - q * 2 ^ 26) (g1 - q0 * 2 ^ 26) (g2 - q1 * 2 ^ 26) (g3 - q2 * 2 ^ 26) (h4 + q2))) by (unfold value32; cbn [l0 l1 l2 l3 l4]; lia).
  unfold value32 in EV. cbn [l0 l1 l2 l3 l4] in EV. destruct (Z.ltb_spec (h4 + q2 - 2 ^ 26) 0).
  - apply K; [done|]. symmetry. apply Z.mod_small. unfold value32, p1305. cbn [l0 l1 l2 l3 l4]. lia.
  - rewrite u32_small by lia. apply K; [unfold small_limbs; cbn [l0 l1 l2 l3 l4]; lia|]. apply (Z.mod_unique_pos _ _ 1); unfold value32, p1305; cbn [l0 l1 l2 l3 l4]; lia.
Qed.

(** ** The tag *)

(** Limbs as words of 32 bits: what is left of one limb and the low bits of the next. *)
Lemma join32 a b n : 0 <= a < 2 ^ n -> 0 <= n <= 32 -> Z.land (Z.lor a (u32 (Z.shiftl b n))) 0xffffffff = a + (b mod 2 ^ (32 - n)) * 2 ^ n.
Proof.
  intros Ha Hn. assert (E : u32 (Z.shiftl b n) = Z.shiftl (b mod 2 ^ (32 - n)) n).
  { unfold u32. rewrite !Z.shiftl_mul_pow2 by lia. replace (2 ^ 32) with (2 ^ (32 - n) * 2 ^ n) by (rewrite <- Z.pow_add_r by lia; f_equal; lia). rewrite Z.mul_mod_distr_r by lia. done. }
  rewrite E, lor_shift by lia. change 0xffffffff with (2 ^ 32 - 1). apply land_all; [lia|].
  pose proof (Z.mod_pos_bound b (2 ^ (32 - n)) ltac:(lia)). replace (2 ^ 32) with (2 ^ (32 - n) * 2 ^ n) by (rewrite <- Z.pow_add_r by lia; f_equal; lia). nia.
Qed.

Lemma words32_value h : small_limbs h -> exists w0 w1 w2 w3, words32 h = (w0, w1, w2, w3) /\
  0 <= w0 < 2 ^ 32 /\ 0 <= w1 < 2 ^ 32 /\ 0 <= w2 < 2 ^ 32 /\ 0 <= w3 < 2 ^ 32 /\ exists k, value32 h = w0 + 2 ^ 32 * (w1 + 2 ^ 32 * (w2 + 2 ^ 32 * w3)) + k * 2 ^ 128.
Proof.
  destruct h as [h0 h1 h2 h3 h4]. intros H. unfold small_limbs in H. cbn [l0 l1 l2 l3 l4] in H. destruct H as (H0 & H1 & H2 & H3 & H4).
  unfold words32. rewrite !shr, !join32 by lia. eexists _, _, _, _. split; [done|].
  change (2 ^ (32 - 26)) with (2 ^ 6). change (2 ^ (32 - 20)) with (2 ^ 12). change (2 ^ (32 - 14)) with (2 ^ 18). change (2 ^ (32 - 8)) with (2 ^ 24).
  destruct (split_at h1 6 26) as (q1 & -> & -> & R1); [lia|lia|]. destruct (split_at h2 12 26) as (q2 & -> & -> & R2); [lia|lia|].
  destruct (split_at h3 18 26) as (q3 & -> & -> & R3); [lia|lia|]. destruct (split_at h4 24 26) as (q4 & _ & -> & R4); [lia|lia|].
  do 4 (split; [lia|]). exists q4. unfold value32. cbn [l0 l1 l2 l3 l4]. lia.
Qed.

Lemma add_nonce32_value w0 w1 w2 w3 n0 n1 n2 n3 : 0 <= w0 < 2 ^ 32 -> 0 <= w1 < 2 ^ 32 -> 0 <= w2 < 2 ^ 32 -> 0 <= w3 < 2 ^ 32 -> Forall (fun w => 0 <= w < 2 ^ 32) [n0; n1; n2; n3] ->
  add_nonce32 (w0, w1, w2, w3) [n0; n1; n2; n3] =
  le_bytes 16 (w0 + 2 ^ 32 * (w1 + 2 ^ 32 * (w2 + 2 ^ 32 * w3)) + fold_right (fun w acc => w + 2 ^ 32 * acc) 0 [n0; n1; n2; n3]).
Proof.
  intros H0 H1 H2 H3 HN. rewrite !Forall_cons in HN. destruct HN as (N0 & N1 & N2 & N3 & _). unfold add_nonce32. cbn [nth]. rewrite !shr by done. unfold u32.
  rewrite (u64_small (w0 + n0)), (u64_small (w1 + n1)), (u64_small (w2 + n2)), (u64_small (w3 + n3)) by lia.
  destruct (split_at (w0 + n0) 32 33) as (q0 & -> & -> & R0); [lia|lia|]. rewrite (u64_small (w1 + n1 + q0)) by lia.
  destruct (split_at (w1 + n1 + q0) 32 34) as (q1 & -> & -> & R1); [lia|lia|]. rewrite (u64_small (w2 + n2 + q1)) by lia.
  destruct (split_at (w2 + n2 + q1) 32 34) as (q2 & -> & -> & R2); [lia|lia|]. rewrite (u64_small (w3 + n3 + q2)) by lia.
  destruct (split_at (w3 + n3 + q2) 32 34) as (q3 & _ & -> & R3); [lia|lia|].
  rewrite !le_bytes_app by (change (256 ^ Z.of_nat 4) with (2 ^ 32); lia). cbn [Nat.add]. change (256 ^ Z.of_nat 4) with (2 ^ 32).
  rewrite <- (le_bytes_mod 16), <- (le_bytes_mod 16 (_ + _ + _)). f_equal. change (256 ^ Z.of_nat 16) with (2 ^ 128). rewrite <- (Z_mod_plus_full _ q3). f_equal. cbn [fold_right]. lia.
Qed.

(** * The interface *)

Definition rep32 (st : poly1305_internal32) (r h : Z) : Prop :=
  small_limbs (rs st) /\ ss st = (l1 (rs st) * 5, l2 (rs st) * 5, l3 (rs st) * 5, l4 (rs st) * 5) /\ r = value32 (rs st) /\
  loose_limbs (hs st) /\ exists k, value32 (hs st) = h - k * p1305.

Lemma init32_rep key : all_bytes key -> 16 <= len key -> rep32 (init32 key) (clamp (le_word (field 0 16 key))) 0.
Proof.
  intros Hb Hl. destruct (block_limbs32 (field 0 16 key)) as (m & M & M4 & <- & E0 & E1 & E2 & E3 & E4); [by apply field_bytes|by rewrite len_field by lia|].
  rewrite !le32_prefix in * by lia. unfold init32. rewrite E4.
  rewrite (land_mod (get_unaligned_le32 0 key) _ 26), (land_mod (Z.shiftr (get_unaligned_le32 3 key) 2) _ 26), (land_mod (Z.shiftr (get_unaligned_le32 6 key) 4) _ 26), (land_mod (Z.shiftr (get_unaligned_le32 9 key) 6) _ 26), E0, E1, E2, E3 by done.
  destruct m as [m0 m1 m2 m3 m4]. unfold small_limbs in M. cbn [l0 l1 l2 l3 l4] in *. destruct M as (M0 & M1 & M2 & M3 & _).
  assert (B : 0 <= m4 < 2 ^ 24) by (rewrite <- E4; pose proof (get_le32_range 12 key Hb); rewrite shr by done; lia).
  pose proof (land_range m0 0x3ffffff 26 ltac:(lia) M0). pose proof (land_range m1 0x3ffff03 26 ltac:(lia) M1). pose proof (land_range m2 0x3ffc0ff 26 ltac:(lia) M2).
  pose proof (land_range m3 0x3f03fff 26 ltac:(lia) M3). pose proof (land_range m4 0x00fffff 24 ltac:(lia) B).
  unfold rep32, small_limbs, loose_limbs. cbn [hs rs ss l0 l1 l2 l3 l4]. rewrite !u32_small by lia. split; [lia|]. split; [done|]. split; [|split; [lia|by exists 0]].
  unfold clamp, value32. cbn [l0 l1 l2 l3 l4]. replace (m0 + m1 * 2 ^ 26 + m2 * 2 ^ 52 + m3 * 2 ^ 78 + m4 * 2 ^ 104) with (m0 + (m1 + (m2 + (m3 + m4 * 2 ^ 26) * 2 ^ 26) * 2 ^ 26) * 2 ^ 26) by lia.
  change 0x0ffffffc0ffffffc0ffffffc0fffffff with (0x3ffffff + (0x3ffff03 + (0x3ffc0ff + (0x3f03fff + 0x00fffff * 2 ^ 26) * 2 ^ 26) * 2 ^ 26) * 2 ^ 26). rewrite !land_parts by lia. lia.
Qed.

Lemma block32_rep st r h blk padbit : rep32 st r h -> all_bytes blk -> length blk = 16%nat -> padbit = 0 \/ padbit = 1 ->
  rep32 (block32 padbit st blk) r ((h + (le_word blk + padbit * 2 ^ 128)) * r).
Proof.
  destruct st as [hh rr ss0]. unfold rep32. cbn [hs rs ss]. intros (R & -> & -> & H & k & EH) Hb Hl Hp. unfold block32. cbn [hs rs ss].
  destruct (add_block32_value hh blk padbit H Hb ltac:(unfold len; lia) Hp) as [A EA].
  do 3 (split; [done|]). apply products32_value; [done..|]. intros d0 d1 d2 d3 d4 k1 D0 D1 D2 D3 D4 ED.
  apply reduce32_value; [done..|]. intros a b c d e k2 Ha Hb' Hc Hd He EC. split; [done|]. exists (k * value32 rr + k1 + k2). rewrite EC, ED, EA, EH. ring.
Qed.

Lemma emit32_rep st r h nonce : rep32 st r h -> length nonce = 4%nat -> Forall (fun w => 0 <= w < 2 ^ 32) nonce ->
  emit32 st nonce = le_bytes 16 (h mod p1305 + fold_right (fun w acc => w + 2 ^ 32 * acc) 0 nonce).
Proof.
  intros (_ & _ & _ & H & k & EH) Hl HN. destruct nonce as [|n0 [|n1 [|n2 [|n3 [|? ?]]]]]; try done. unfold emit32.
  apply carry32_value; [done|]. intros x k1 X EX. apply select32_value; [done|]. intros y Y EY.
  destruct (words32_value y Y) as (w0 & w1 & w2 & w3 & -> & W0 & W1 & W2 & W3 & k2 & EW). rewrite add_nonce32_value by done.
  rewrite <- (le_bytes_mod 16), <- (le_bytes_mod 16 (_ mod _ + _)). f_equal. change (256 ^ Z.of_nat 16) with (2 ^ 128). rewrite <- (Z_mod_plus_full _ k2). f_equal.
  replace (h mod p1305) with (value32 y); [rewrite EW; ring|]. rewrite EY, EX, EH. replace (h - k * p1305 - k1 * p1305) with (h + (- k - k1) * p1305) by ring. apply Z_mod_plus_full.
Qed.

#[export] Instance donna32_laws : PolyBackendLaws poly1305_internal32.
Proof.
  refine {| poly_rep := rep32 |}.
  - exact init32_rep.
  - intros st padbit input Hl. by apply blocks_loop_none.
  - intros st r h blk rest padbit Hr Hb Hl Hp. exists (block32 padbit st blk). split; [by apply block32_rep|by apply blocks_loop_cons].
  - exact emit32_rep.
Qed.
