(* ===== verification/Memneq.v ===== *)
(** * Comparison in constant time ([src/compat/memneq/memneq.c])

    [__crypto_memneq] collects the differences of two areas without a branch on
    their contents: word by word where the machine reads unaligned words
    efficiently, byte by byte otherwise, and unrolled for sixteen
    bytes.  All variants decide equality. *)

From S2P Require Import Prelude Words.
From stdpp Require Import list.
#[local] Open Scope Z_scope.

(** ** The code *)

Section Memneq.

(** [CONFIG_HAVE_EFFICIENT_UNALIGNED_ACCESS], and whether [unsigned long] has
    eight bytes (four otherwise).  The order of the bytes in a word does not matter here. *)
Context (unaligned long8 : bool).

Definition sizeof_long : nat := if long8 then 8 else 4.

(** [neq |= *a ^ *b] for the words of [n] bytes at [off]. *)
Definition diff (neq : Z) (a b : list Z) (n off : Z) : Z := Z.lor neq (Z.lxor (le_word (field off n a)) (le_word (field off n b))).

(** [while (size >= sizeof(unsigned long))]: [neq] and what is left. *)
Fixpoint words_loop (fuel : nat) (neq : Z) (a b : list Z) (size : nat) : Z * list Z * list Z * nat :=
  match fuel with
  | O => (neq, a, b, size)
  | S f =>
      if (sizeof_long <=? size)%nat then
        words_loop f (diff neq a b (Z.of_nat sizeof_long) 0) (skipn sizeof_long a) (skipn sizeof_long b) (size - sizeof_long)
      else (neq, a, b, size)
  end.

(** [while (size > 0)]. *)
Fixpoint bytes_loop (neq : Z) (a b : list Z) (size : nat) : Z :=
  match size with
  | O => neq
  | S n => bytes_loop (diff neq a b 1 0) (skipn 1 a) (skipn 1 b) n
  end.

Definition crypto_memneq_generic (a b : list Z) (size : nat) : Z :=
  let '(neq, a, b, size) := if unaligned then words_loop size 0 a b size else (0, a, b, size) in
  bytes_loop neq a b size.

Definition crypto_memneq_16 (a b : list Z) : Z :=
  if unaligned then
    if long8 then diff (diff 0 a b 8 0) a b 8 8
    else diff (diff (diff (diff 0 a b 4 0) a b 4 4) a b 4 8) a b 4 12
  else fold_left (fun neq off => diff neq a b 1 off) [0; 1; 2; 3; 4; 5; 6; 7; 8; 9; 10; 11; 12; 13; 14; 15] 0.

Definition crypto_memneq (a b : list Z) (size : nat) : Z :=
  match size with
  | 16%nat => crypto_memneq_16 a b
  | _ => crypto_memneq_generic a b size
  end.

(** ** Equality *)

Lemma le_word_inj a b : all_bytes a -> all_bytes b -> length a = length b -> le_word a = le_word b -> a = b.
Proof. intros Ha Hb Hl E. rewrite <- (le_bytes_word a), <- (le_bytes_word b) by done. by rewrite E, Hl. Qed.

(** A difference of words is a difference of their bytes. *)
Lemma diff_zero neq a b n off : all_bytes a -> all_bytes b -> 0 <= off -> 0 <= n -> off + n <= len a -> off + n <= len b ->
  diff neq a b n off = 0 <-> neq = 0 /\ field off n a = field off n b.
Proof.
  intros Ha Hb Ho Hn La Lb. unfold diff. rewrite Z.lor_eq_0_iff, Z.lxor_eq_0_iff. split; intros [E F]; (split; [done|]); [|by rewrite F].
  apply le_word_inj; [by apply field_bytes..| |done]. pose proof (len_field off n a Ho Hn La). pose proof (len_field off n b Ho Hn Lb). unfold len in *. lia.
Qed.

Lemma firstn_split {A} (a b : list A) n m : (n <= m)%nat -> (m <= length a)%nat -> (m <= length b)%nat ->
  firstn m a = firstn m b <-> firstn n a = firstn n b /\ firstn (m - n) (skipn n a) = firstn (m - n) (skipn n b).
Proof.
  intros Hn Ha Hb. pose proof (take_take_drop a n (m - n)) as Ea. pose proof (take_take_drop b n (m - n)) as Eb. replace (n + (m - n))%nat with m in Ea, Eb by lia.
  rewrite <- Ea, <- Eb. split; [|by intros [-> ->]]. intros E. apply app_inj_1 in E; [done|]. rewrite !length_take. lia.
Qed.

Lemma words_loop_spec fuel : forall neq a b size, all_bytes a -> all_bytes b -> (size <= length a)%nat -> (size <= length b)%nat ->
  let '(neq', a', b', size') := words_loop fuel neq a b size in
  all_bytes a' /\ all_bytes b' /\ (size' <= length a')%nat /\ (size' <= length b')%nat /\
  ((neq' = 0 /\ firstn size' a' = firstn size' b') <-> (neq = 0 /\ firstn size a = firstn size b)).
Proof.
  induction fuel as [|f IH]; intros neq a b size Ha Hb La Lb; cbn [words_loop]; [done|]. destruct (Nat.leb_spec sizeof_long size) as [L|L]; [|done].
  specialize (IH (diff neq a b (Z.of_nat sizeof_long) 0) (skipn sizeof_long a) (skipn sizeof_long b) (size - sizeof_long)%nat).
  destruct (words_loop f _ _ _ _) as [[[neq' a'] b'] size']. destruct IH as (A & B & C & D & E); [by apply Forall_drop|by apply Forall_drop|rewrite length_drop; lia..|].
  ands; try done. rewrite E, diff_zero by (done || unfold len; lia). unfold field. rewrite Nat2Z.id. change (Z.to_nat 0) with 0%nat. rewrite !drop_0.
  rewrite (firstn_split a b sizeof_long size) by done. tauto.
Qed.

Lemma bytes_loop_zero size : forall neq a b, all_bytes a -> all_bytes b -> (size <= length a)%nat -> (size <= length b)%nat ->
  bytes_loop neq a b size = 0 <-> neq = 0 /\ firstn size a = firstn size b.
Proof.
  induction size as [|n IH]; intros neq a b Ha Hb La Lb; cbn [bytes_loop]; [firstorder|].
  rewrite IH by (by apply Forall_drop || (rewrite length_drop; lia)). rewrite diff_zero by (done || unfold len; lia). unfold field. change (Z.to_nat 0) with 0%nat. change (Z.to_nat 1) with 1%nat. rewrite !drop_0.
  rewrite (firstn_split a b 1 (S n)) by lia. replace (S n - 1)%nat with n by lia. tauto.
Qed.

Lemma crypto_memneq_16_zero a b : all_bytes a -> all_bytes b -> (16 <= length a)%nat -> (16 <= length b)%nat -> crypto_memneq_16 a b = 0 <-> firstn 16 a = firstn 16 b.
Proof.
  intros Ha Hb La Lb. unfold crypto_memneq_16. destruct unaligned; [destruct long8|]; cbn [fold_left]; rewrite !diff_zero by (done || unfold len; lia); unfold field.
  - rewrite (firstn_split a b 8 16) by lia. cbn. tauto.
  - rewrite (firstn_split a b 12 16), (firstn_split a b 8 12), (firstn_split a b 4 8) by lia. cbn. tauto.
  - do 16 (destruct a as [|? a]; [cbn in La; lia|]). do 16 (destruct b as [|? b]; [cbn in Lb; lia|]). cbn. split; [intros; ands|]; naive_solver.
Qed.

(** Zero exactly for equal areas. *)
Lemma crypto_memneq_zero a b size : all_bytes a -> all_bytes b -> (size <= length a)%nat -> (size <= length b)%nat -> crypto_memneq a b size = 0 <-> firstn size a = firstn size b.
Proof.
  intros Ha Hb La Lb. assert (G : crypto_memneq_generic a b size = 0 <-> firstn size a = firstn size b).
  { unfold crypto_memneq_generic. destruct unaligned; [|rewrite bytes_loop_zero by done; tauto].
    pose proof (words_loop_spec size 0 a b size Ha Hb La Lb) as W. destruct (words_loop size 0 a b size) as [[[neq' a'] b'] size']. destruct W as (A & B & C & D & E). rewrite bytes_loop_zero, E by done. tauto. }
  unfold crypto_memneq. do 17 (destruct size as [|size]; [exact G || by apply crypto_memneq_16_zero|]). exact G.
Qed.

End Memneq.
