(* ===== verification/ChachaPoly.v ===== *)
(** * ChaCha20-Poly1305 ([src/crypto/zinc/chacha20poly1305.c])

    The authenticated encryption of the module: on a flat buffer (handshakes),
    in place on a scatter list (packets), and with the extended nonce of 24 bytes
    (cookies).  The code is composed of the stream cipher of [Chacha] and the
    authenticator of [Poly1305], for every back end of the latter and every
    variant of [Memneq].

    The in-place functions meet the pieces of a packet at arbitrary
    boundaries.  They keep the key stream of a block that is split between
    two pieces; the theorems show that the result does not depend on the
    boundaries and is the construction of RFC 8439. *)

From S2P Require Import Prelude Words Chacha Poly1305 Memneq Donna64 Donna32.
From stdpp Require Import list.
From Stdlib Require Import ZifyNat.
#[local] Open Scope Z_scope.

Definition POLY1305_MAC_SIZE : Z := 16.
Definition POLY1305_KEY_SIZE : Z := 32.
Definition INT_MAX : Z := 2 ^ 31 - 1.

(** ** The code *)

Section AEAD.

Context {I : Type} `{PolyBackend I}.

(** [uninit] is the uninitialised [poly1305_state] on the stack; the other two
    arguments are the configuration of the comparison. *)
Context (uninit : poly1305_ctx I) (unaligned long8 : bool).

(** [(0x10 - n) & 0xf] bytes of [pad0]. *)
Definition pad16 (n : Z) : list Z := zeros (Z.land (u64 (0x10 - n)) 0xf).

(** From [chacha20_init] to the padding of the associated data. *)
Definition aead_begin (key : list Z) (nonce : Z) (ad : list Z) : list Z * poly1305_ctx I :=
  let st := chacha20_init key nonce in
  let '(block0, st) := chacha20 st (zeros POLY1305_KEY_SIZE) in
  let p := poly1305_init uninit block0 in
  let p := poly1305_update p ad in
  let p := poly1305_update p (pad16 (len ad)) in
  (st, p).

(** From the padding of the text to the tag. *)
Definition aead_end (p : poly1305_ctx I) (ad_len text_len : Z) : list Z :=
  let p := poly1305_update p (pad16 text_len) in
  let p := poly1305_update p (le_bytes 8 ad_len ++ le_bytes 8 text_len) in
  poly1305_final p.

(** [__chacha20poly1305_encrypt]: the [src_len + 16] bytes at [dst].  [chacha20]
    takes a length of 32 bits; what it does not reach keeps the old contents of [dst]. *)
Definition chacha20poly1305_encrypt (dst src ad : list Z) (nonce : Z) (key : list Z) : list Z :=
  let '(st, p) := aead_begin key nonce ad in
  let '(out, _) := chacha20 st (firstn (Z.to_nat (u32 (len src))) src) in
  let ct := out ++ skipn (length out) (firstn (length src) dst) in
  let p := poly1305_update p ct in
  ct ++ aead_end p (len ad) (len src).

(** [__chacha20poly1305_decrypt]: the result and the bytes at [dst]. *)
Definition chacha20poly1305_decrypt (dst src ad : list Z) (nonce : Z) (key : list Z) : bool * list Z :=
  if len src <? POLY1305_MAC_SIZE then (false, dst)
  else
    let '(st, p) := aead_begin key nonce ad in
    let dst_len := len src - POLY1305_MAC_SIZE in
    let text := firstn (Z.to_nat dst_len) src in
    let p := poly1305_update p text in
    let mac := aead_end p (len ad) dst_len in
    let ret := crypto_memneq unaligned long8 mac (skipn (Z.to_nat dst_len) src) 16 in
    if ret =? 0 then
      let '(out, _) := chacha20 st (firstn (Z.to_nat (u32 dst_len)) text) in (true, out ++ skipn (length out) dst)
    else (false, dst).

Definition xchacha20poly1305_encrypt (dst src ad nonce key : list Z) : list Z :=
  let derived_key := concat (map (le_bytes 4) (hchacha20 nonce key)) in
  chacha20poly1305_encrypt dst src ad (get_unaligned_le64 16 nonce) derived_key.

Definition xchacha20poly1305_decrypt (dst src ad nonce key : list Z) : bool * list Z :=
  let derived_key := concat (map (le_bytes 4) (hchacha20 nonce key)) in
  chacha20poly1305_decrypt dst src ad (get_unaligned_le64 16 nonce) derived_key.

(** *** In place on a scatter list *)

(** The cipher between two pieces: its context, [b.chacha20_stream] and [partial]. *)
Record stream_state := Stream { chacha20_state : list Z; chacha20_stream : list Z; partial : Z }.

(** The part of a piece that completes a block begun in an earlier piece. *)
Definition crypt_partial (w : stream_state) (data : list Z) : list Z * list Z * Z :=
  if negb (partial w =? 0) then
    let l := Z.min (len data) (CHACHA20_BLOCK_SIZE - partial w) in
    (xor_bytes (firstn (Z.to_nat l) data) (skipn (Z.to_nat (partial w)) (chacha20_stream w)), skipn (Z.to_nat l) data,
     Z.land (partial w + l) (CHACHA20_BLOCK_SIZE - 1))
  else ([], data, partial w).

(** The full blocks, and everything of the last piece. *)
Definition crypt_blocks (st : list Z) (sl : Z) (data : list Z) : list Z * list Z * list Z :=
  if (len data >=? CHACHA20_BLOCK_SIZE) || (len data =? sl) then
    let l := if len data <? sl then Z.land (len data) (Z.lnot (CHACHA20_BLOCK_SIZE - 1)) else len data in
    let '(out, st) := chacha20 st (firstn (Z.to_nat l) data) in
    (out, skipn (Z.to_nat l) data, st)
  else ([], data, st).

(** The body of the loop, for the [length] bytes of a piece; [sl] bytes are left of the message. *)
Definition crypt_piece (w : stream_state) (sl : Z) (data : list Z) : list Z * stream_state :=
  let '(out1, data, partial) := crypt_partial w data in
  let '(out2, data, st) := crypt_blocks (chacha20_state w) sl data in
  if len data >? 0 then
    let '(stream, st) := chacha20 st (zeros CHACHA20_BLOCK_SIZE) in
    (out1 ++ out2 ++ xor_bytes data stream, Stream st stream (len data))
  else (out1 ++ out2, Stream st (chacha20_stream w) partial).

(** [for (sl = src_len; sl > 0 && sg_miter_next(&miter); sl -= miter.length)]:
    the pieces visited, those not visited, the authenticator and [sl]. *)
Fixpoint encrypt_walk (segs : list (list Z)) (sl : Z) (w : stream_state) (p : poly1305_ctx I) : list (list Z) * list (list Z) * poly1305_ctx I * Z :=
  match segs with
  | s :: rest =>
      if sl >? 0 then
        let length := Z.to_nat (Z.min sl (len s)) in
        let '(out, w) := crypt_piece w sl (firstn length s) in
        let s' := out ++ skipn length s in
        let p := poly1305_update p (firstn length s') in
        let '(seen, rest, p, sl) := encrypt_walk rest (sl - len s) w p in
        (s' :: seen, rest, p, sl)
      else ([], segs, p, sl)
  | [] => ([], [], p, sl)
  end.

(** The same loop of the decryption, which authenticates a piece before it decrypts it. *)
Fixpoint decrypt_walk (segs : list (list Z)) (sl : Z) (w : stream_state) (p : poly1305_ctx I) : list (list Z) * list (list Z) * poly1305_ctx I * Z :=
  match segs with
  | s :: rest =>
      if sl >? 0 then
        let length := Z.to_nat (Z.min sl (len s)) in
        let p := poly1305_update p (firstn length s) in
        let '(out, w) := crypt_piece w sl (firstn length s) in
        let '(seen, rest, p, sl) := decrypt_walk rest (sl - len s) w p in
        ((out ++ skipn length s) :: seen, rest, p, sl)
      else ([], segs, p, sl)
  | [] => ([], [], p, sl)
  end.

(** [scatterwalk_map_and_copy] to and from the list. *)
Fixpoint sg_write (segs : list (list Z)) (off : Z) (data : list Z) : list (list Z) :=
  match segs with
  | [] => []
  | s :: rest =>
      if len s <=? off then s :: sg_write rest (off - len s) data
      else let k := Z.to_nat (Z.min (len data) (len s - off)) in buf_set s off (firstn k data) :: sg_write rest 0 (skipn k data)
  end.
Definition sg_read (segs : list (list Z)) (off n : Z) : list Z := field off n (concat segs).

(** The piece visited last. *)
Fixpoint on_last {A} (f : A -> A) (l : list A) : list A :=
  match l with [] => [] | [x] => [f x] | x :: r => x :: on_last f r end.

Definition chacha20poly1305_encrypt_sg_inplace (segs : list (list Z)) (src_len : Z) (ad : list Z) (nonce : Z) (key : list Z) : bool * list (list Z) :=
  if src_len >? INT_MAX then (false, segs)
  else
    let '(st, p) := aead_begin key nonce ad in
    let '(seen, rest, p, sl) := encrypt_walk segs src_len (Stream st (zeros CHACHA20_BLOCK_SIZE) 0) p in
    let mac := aead_end p (len ad) src_len in
    if sl <=? - POLY1305_MAC_SIZE then (true, on_last (fun s => buf_set s (len s + sl) mac) seen ++ rest)
    else (true, sg_write (seen ++ rest) src_len mac).

Definition chacha20poly1305_decrypt_sg_inplace (segs : list (list Z)) (src_len : Z) (ad : list Z) (nonce : Z) (key : list Z) : bool * list (list Z) :=
  if (src_len <? POLY1305_MAC_SIZE) || (src_len >? INT_MAX) then (false, segs)
  else
    let src_len := src_len - POLY1305_MAC_SIZE in
    let '(st, p) := aead_begin key nonce ad in
    let '(seen, rest, p, sl) := decrypt_walk segs src_len (Stream st (zeros CHACHA20_BLOCK_SIZE) 0) p in
    let computed_mac := aead_end p (len ad) src_len in
    let read_mac := if sl <=? - POLY1305_MAC_SIZE then match last seen with Some s => field (len s + sl) POLY1305_MAC_SIZE s | None => [] end
                    else sg_read (seen ++ rest) src_len POLY1305_MAC_SIZE in
    (crypto_memneq unaligned long8 computed_mac read_mac 16 =? 0, seen ++ rest).

End AEAD.

(** ** RFC 8439, section 2.8 *)

Definition aead_otk (key : list Z) (nonce : Z) : list Z := firstn 32 (keystream (chacha_matrix key nonce) 1).

(** The text combined with the key stream from block 1 on. *)
Definition aead_crypt (key : list Z) (nonce : Z) (text : list Z) : list Z :=
  xor_bytes text (skipn 64 (keystream (chacha_matrix key nonce) (1 + blocks_of (length text)))).

Definition mac_data (ad ct : list Z) : list Z :=
  ad ++ zeros ((- len ad) mod 16) ++ ct ++ zeros ((- len ct) mod 16) ++ le_bytes 8 (len ad) ++ le_bytes 8 (len ct).

Definition aead_tag (key : list Z) (nonce : Z) (ad ct : list Z) : list Z := poly1305_spec (aead_otk key nonce) (mac_data ad ct).

Definition aead_encrypt (key : list Z) (nonce : Z) (ad text : list Z) : list Z :=
  let ct := aead_crypt key nonce text in ct ++ aead_tag key nonce ad ct.

Definition aead_decrypt (key : list Z) (nonce : Z) (ad msg : list Z) : option (list Z) :=
  if len msg <? 16 then None
  else
    let ct := firstn (length msg - 16) msg in
    if bool_decide (aead_tag key nonce ad ct = skipn (length msg - 16) msg) then Some (aead_crypt key nonce ct) else None.

(** * The key stream by position *)

Lemma land_block x : 0 <= x -> Z.land x 63 = x mod 64.
Proof. intros. change 63 with (Z.ones 6). by rewrite Z.land_ones. Qed.

Lemma land_not_block x : 0 <= x -> Z.land x (Z.lnot 63) = x - x mod 64.
Proof.
  intros Hx. change 63 with (Z.ones 6). change 64 with (2 ^ 6). rewrite <- Z.land_ones by done. rewrite <- Z.ldiff_land. pose proof (Z.sub_nocarry_ldiff x (Z.land x (Z.ones 6))) as E. rewrite E.
  - apply Z.bits_inj'. intros i Hi. rewrite !Z.ldiff_spec, Z.land_spec. by destruct (Z.testbit x i).
  - apply Z.bits_inj'. intros i Hi. rewrite Z.ldiff_spec, Z.land_spec, Z.bits_0. by destruct (Z.testbit x i), (Z.testbit (Z.ones 6) i).
Qed.

Section Positions.

Context (m : matrix) (Hm : square m) (Hc : 0 <= counter_of m < 2 ^ 32).

(** The block with the number [q], counted from the block of [m], and the state that produces it. *)
Definition state_at (q : nat) : matrix := with_counter (u32 (counter_of m + Z.of_nat q)) m.
Definition kbyte (i : nat) : Z := nth (i mod 64) (block_spec (state_at (i / 64))) 0.

(** [l] combined with the key stream from position [n] on. *)
Fixpoint xor_at (n : nat) (l : list Z) : list Z :=
  match l with [] => [] | b :: l' => Z.lxor b (kbyte n) :: xor_at (S n) l' end.

Lemma length_xor_at n l : length (xor_at n l) = length l.
Proof. revert n. induction l as [|b l IH]; intros n; cbn [xor_at length]; [done|by rewrite IH]. Qed.

Lemma xor_at_app n a b : xor_at n (a ++ b) = xor_at n a ++ xor_at (n + length a) b.
Proof.
  revert n. induction a as [|x a IH]; intros n; cbn [xor_at app length]; [by rewrite Nat.add_0_r|]. rewrite IH. by replace (n + S (length a))%nat with (S n + length a)%nat by lia.
Qed.

Lemma xor_at_twice n l : xor_at n (xor_at n l) = l.
Proof. revert n. induction l as [|b l IH]; intros n; cbn [xor_at]; [done|]. rewrite IH, Z.lxor_assoc, Z.lxor_nilpotent, Z.lxor_0_r. done. Qed.

Lemma state_at_square q : square (state_at q).
Proof. by apply square_with_counter. Qed.

Lemma counter_state_at q : counter_of (state_at q) = u32 (counter_of m + Z.of_nat q).
Proof. by apply counter_with_counter. Qed.

Lemma state_at_add q k : with_counter (u32 (counter_of (state_at q) + Z.of_nat k)) (state_at q) = state_at (q + k).
Proof. rewrite counter_state_at. unfold state_at. rewrite with_counter_twice. f_equal. unfold u32. rewrite Zplus_mod_idemp_l. f_equal. lia. Qed.

(** Inside a block. *)
Lemma xor_at_block q : forall a o, (o + length a <= 64)%nat -> xor_bytes a (skipn o (block_spec (state_at q))) = xor_at (64 * q + o) a.
Proof.
  induction a as [|b a IH]; intros o Ho; [done|]. cbn [length] in Ho. pose proof (length_block_spec (state_at q) (state_at_square q)) as L.
  destruct (lookup_lt_is_Some_2 (block_spec (state_at q)) o) as [y Ey]; [lia|]. rewrite (drop_S _ y) by done. cbn [xor_at]. unfold xor_bytes. cbn [zip_with]. f_equal.
  - unfold kbyte. replace ((64 * q + o) / 64)%nat with q by lia. replace ((64 * q + o) mod 64)%nat with o by lia. by erewrite nth_lookup_Some.
  - fold (xor_bytes a (skipn (S o) (block_spec (state_at q)))). rewrite IH by lia. f_equal. lia.
Qed.

Lemma xor_at_keystream k : forall q src, (length src <= 64 * k)%nat -> xor_bytes src (keystream (state_at q) k) = xor_at (64 * q) src.
Proof.
  induction k as [|k IH]; intros q src Hl; [destruct src; [done|cbn in Hl; lia]|].
  rewrite keystream_succ by (apply state_at_square || (rewrite counter_state_at; apply u32_range)). pose proof (length_block_spec (state_at q) (state_at_square q)) as L.
  replace (with_counter (u32 (counter_of (state_at q) + 1)) (state_at q)) with (state_at (q + 1)) by (symmetry; apply (state_at_add q 1)).
  destruct (Nat.le_gt_cases (length src) 64) as [L64|L64].
  - rewrite <- (xor_bytes_take src), take_app_le, xor_bytes_take by lia. rewrite <- (Nat.add_0_r (64 * q)), <- xor_at_block by lia. by rewrite drop_0.
  - pose proof (take_drop 64 src) as E. rewrite <- E. rewrite xor_at_app, xor_bytes_app by (rewrite length_take; lia). rewrite IH by (rewrite length_drop; lia).
    rewrite length_take. f_equal; [|f_equal; lia]. rewrite <- (Nat.add_0_r (64 * q)), <- xor_at_block by (rewrite length_take; lia). by rewrite drop_0.
Qed.

(** The cipher on the context of block [q]. *)
Lemma chacha20_at q src : chacha20 (flatten (state_at q)) src = (xor_at (64 * q) src, flatten (state_at (q + blocks_of (length src)))).
Proof.
  rewrite chacha20_spec by (apply state_at_square || (rewrite counter_state_at; apply u32_range)). rewrite xor_at_keystream by (unfold blocks_of; lia). by rewrite state_at_add.
Qed.

Lemma chacha20_zeros q : chacha20 (flatten (state_at q)) (zeros 64) = (block_spec (state_at q), flatten (state_at (q + 1))).
Proof.
  rewrite chacha20_at. change (length (zeros 64)) with 64%nat. change (blocks_of 64) with 1%nat. f_equal. rewrite <- (Nat.add_0_r (64 * q)), <- xor_at_block by (change (length (zeros 64)) with 64%nat; lia).
  rewrite drop_0. apply xor_bytes_zeros. rewrite length_block_spec by apply state_at_square. lia.
Qed.

(** ** A piece *)

(** The cipher has used [n] bytes of the stream. *)
Definition at_pos (n : nat) (w : stream_state) : Prop :=
  chacha20_state w = flatten (state_at (blocks_of n)) /\ partial w = Z.of_nat (n mod 64) /\
  ((n mod 64 <> 0)%nat -> chacha20_stream w = block_spec (state_at (n / 64))).

(** The completion of a block. *)
Lemma crypt_partial_spec n w data : at_pos n w ->
  exists a b, data = a ++ b /\ crypt_partial w data = (xor_at n a, b, Z.of_nat ((n + length a) mod 64)) /\
    chacha20_state w = flatten (state_at (blocks_of (n + length a))) /\ (b = [] \/ (n + length a) mod 64 = 0)%nat /\ ((n + length a) mod 64 <> 0 -> (n + length a) / 64 = n / 64 /\ n mod 64 <> 0 \/ a = [])%nat.
Proof.
  intros (Hst & Hp & Hs). unfold crypt_partial, CHACHA20_BLOCK_SIZE. rewrite Hp. destruct (Z.eqb_spec (Z.of_nat (n mod 64)) 0) as [E|E]; cbn [negb].
  - exists [], data. rewrite Nat.add_0_r. ands; try done; [right; lia|by right].
  - set (k := Z.to_nat (Z.min (len data) (64 - Z.of_nat (n mod 64)))). exists (firstn k data), (skipn k data). rewrite take_drop. split; [done|].
    assert (Hk : length (firstn k data) = k) by (rewrite length_take; unfold k, len; lia). assert (Hk' : (n mod 64 + k <= 64)%nat) by (unfold k; lia). rewrite Hk.
    split; [|split; [|split]].
    + rewrite Hs by lia. rewrite Nat2Z.id, xor_at_block by lia. replace (64 * (n / 64) + n mod 64)%nat with n by lia. f_equal. change (64 - 1) with 63. rewrite land_block by (unfold len; lia).
      replace (Z.min (len data) (64 - Z.of_nat (n mod 64))) with (Z.of_nat k) by (unfold k, len; lia). lia.
    + rewrite Hst. do 2 f_equal. unfold blocks_of. lia.
    + destruct (decide (k = length data)) as [->|Hne]; [left; by rewrite drop_all|right]. unfold k, len in *. lia.
    + intros Hnz. destruct (decide (k = 0)%nat) as [->|Hne]; [by right|left]. lia.
Qed.

(** The full blocks.  Where the message goes on after this piece, the cipher stops at
    a block boundary. *)
Lemma crypt_blocks_spec q sl data : len data <= sl ->
  exists a b, data = a ++ b /\ crypt_blocks (flatten (state_at q)) sl data = (xor_at (64 * q) a, b, flatten (state_at (q + blocks_of (length a)))) /\
    (length b < 64)%nat /\ (len data < sl -> (length a mod 64)%nat = 0%nat) /\ (len data = sl -> b = []).
Proof.
  intros Hsl. unfold crypt_blocks, CHACHA20_BLOCK_SIZE. destruct (_ || _) eqn:E.
  - set (l := if len data <? sl then Z.land (len data) (Z.lnot (64 - 1)) else len data). assert (Hl : 0 <= l <= len data /\ (len data < sl -> l mod 64 = 0 /\ len data - l < 64) /\ (len data = sl -> l = len data)).
    { pose proof (len_nonneg data). unfold l. change (64 - 1) with 63. rewrite land_not_block by lia. destruct (Z.ltb_spec (len data) sl); lia. }
    exists (firstn (Z.to_nat l) data), (skipn (Z.to_nat l) data). rewrite take_drop, chacha20_at. clearbody l. unfold len in *. rewrite length_take, length_drop. ands; try done; try lia.
    intros Hd. apply skipn_all2. lia.
  - apply orb_false_iff in E as [E1 E2]. rewrite Z.geb_leb in E1. zbool. exists [], data. unfold len in *. ands; try done; try lia.
    change (blocks_of (length [])) with 0%nat. by rewrite Nat.add_0_r.
Qed.

(** A piece is combined with its part of the key stream. *)
Lemma crypt_piece_spec n w sl data : at_pos n w -> 0 < sl -> len data <= sl ->
  exists w', crypt_piece w sl data = (xor_at n data, w') /\ (len data < sl -> at_pos (n + length data) w').
Proof.
  intros Hw Hs0 Hsl. pose proof Hw as (_ & _ & Hstr). destruct (crypt_partial_spec n w data Hw) as (a & b & -> & Ep & Est & Hb & Hpart). unfold crypt_piece. rewrite Ep.
  destruct (decide ((n + length a) mod 64 = 0)%nat) as [A|A].
  - assert (Hq : exists q, (n + length a = 64 * q)%nat) by (exists ((n + length a) / 64)%nat; lia). destruct Hq as [q Hq]. rewrite Hq in *.
    replace (blocks_of (64 * q)) with q in Est by (unfold blocks_of; lia). rewrite Est. pose proof (len_nonneg a). rewrite len_app in Hsl.
    destruct (crypt_blocks_spec q sl b ltac:(lia)) as (c & d & -> & -> & Hd & Hmod & Hall). pose proof (len_nonneg d). rewrite !len_app in *. destruct (Z.gtb_spec (len d) 0) as [D|D].
    + assert (Hlt : len c + len d < sl). { destruct (Z.eq_dec (len c + len d) sl) as [X|X]; [|lia]. rewrite Hall in D by done. done. }
      specialize (Hmod Hlt). replace (q + blocks_of (length c))%nat with (q + length c / 64)%nat by (unfold blocks_of; lia). unfold CHACHA20_BLOCK_SIZE. rewrite chacha20_zeros. eexists. split; [f_equal|].
      * rewrite !xor_at_app, Hq. f_equal. f_equal. rewrite <- (drop_0 (block_spec _)), xor_at_block by lia. f_equal. lia.
      * intros _. split; [|split]; cbn [chacha20_state chacha20_stream partial].
        -- do 2 f_equal. unfold blocks_of. rewrite !length_app. unfold len in *. lia.
        -- unfold len in *. rewrite !length_app. lia.
        -- intros _. do 2 f_equal. rewrite !length_app. unfold len in *. lia.
    + assert (d = []) as -> by (destruct d; [done|rewrite len_cons in D; pose proof (len_nonneg d); lia]). rewrite app_nil_r in *. eexists. split; [by rewrite xor_at_app, Hq|].
      intros Hlt. change (len []) with 0 in *. specialize (Hmod ltac:(lia)). split; [|split]; cbn [chacha20_state chacha20_stream partial]; rewrite ?length_app.
      * do 2 f_equal. unfold blocks_of. lia.
      * lia.
      * intros. lia.
  - destruct Hb as [-> |Hb]; [|done]. rewrite app_nil_r in *. unfold crypt_blocks, CHACHA20_BLOCK_SIZE. change (len []) with 0.
    rewrite (proj2 (Z.eqb_neq 0 sl)) by lia. cbn [orb Z.geb Z.compare Z.gtb]. eexists. split; [by rewrite app_nil_r|]. intros _. split; [|split]; cbn [chacha20_state chacha20_stream partial]; [done|done|].
    intros _. destruct (Hpart A) as [[E1 E2]| ->]; [by rewrite E1, Hstr|]. rewrite Nat.add_0_r in *. by apply Hstr.
Qed.

End Positions.

(** * The construction *)

Lemma kbyte_byte m i : is_byte (kbyte m i).
Proof.
  unfold kbyte. set (l := block_spec _). assert (Hl : all_bytes l) by apply block_spec_bytes. destruct (nth_in_or_default (i mod 64) l 0) as [H| ->]; [|unfold is_byte; lia].
  rewrite List.Forall_forall in Hl. by apply Hl.
Qed.

Lemma xor_at_bytes m n l : all_bytes l -> all_bytes (xor_at m n l).
Proof. intros H. revert n. induction H as [|b l Hb Hl IH]; intros n; cbn [xor_at]; constructor; [|apply IH]. pose proof (kbyte_byte m n). apply (lxor_range 8); done. Qed.

Lemma state_at_0 m : square m -> 0 <= counter_of m < 2 ^ 32 -> state_at m 0 = m.
Proof. intros Hm Hc. unfold state_at. rewrite Z.add_0_r, u32_small by done. by apply with_counter_self. Qed.

Section Matrix.

Context (key : list Z) (nonce : Z).
Abbreviation m := (chacha_matrix key nonce).

Lemma matrix_ok : square m /\ counter_of m = 0 /\ 0 <= counter_of m < 2 ^ 32.
Proof. destruct (chacha20_init_spec key nonce) as (_ & Hs & Hc). rewrite Hc. done. Qed.

Lemma first_block : chacha20 (chacha20_init key nonce) (zeros 32) = (aead_otk key nonce, flatten (state_at m 1)).
Proof.
  destruct matrix_ok as (Hs & H0 & Hc). destruct (chacha20_init_spec key nonce) as (-> & _ & _). rewrite chacha20_spec by done. change (blocks_of (length (zeros 32))) with 1%nat.
  refine (f_equal2 pair _ eq_refl). unfold aead_otk. rewrite <- xor_bytes_take. change (length (zeros 32)) with 32%nat. apply (xor_bytes_zeros 32). rewrite length_take. lia.
Qed.

Lemma aead_crypt_at text : aead_crypt key nonce text = xor_at m 64 text.
Proof.
  destruct matrix_ok as (Hs & H0 & Hc). unfold aead_crypt. rewrite (keystream_app m 1) by done. rewrite drop_app_length' by (by rewrite length_keystream).
  change (with_counter (u32 (counter_of m + Z.of_nat 1)) m) with (state_at m 1). rewrite xor_at_keystream by (done || unfold blocks_of; lia). done.
Qed.

Lemma otk_ok : all_bytes (aead_otk key nonce) /\ len (aead_otk key nonce) = 32.
Proof.
  destruct matrix_ok as (Hs & H0 & Hc). unfold aead_otk. split; [apply Forall_take, keystream_bytes|]. unfold len. rewrite length_take, length_keystream by done. lia.
Qed.

End Matrix.

Lemma pad16_spec n : 0 <= n < 2 ^ 64 -> pad16 n = zeros ((- n) mod 16).
Proof. intros Hn. unfold pad16. change 0xf with (Z.ones 4). rewrite Z.land_ones by done. f_equal. unfold u64. lia. Qed.

Lemma length_poly1305_spec key msg : length (poly1305_spec key msg) = 16%nat.
Proof. apply length_le_bytes. Qed.

Lemma length_aead_tag key nonce ad ct : length (aead_tag key nonce ad ct) = 16%nat.
Proof. apply length_poly1305_spec. Qed.

Lemma length_aead_crypt key nonce text : length (aead_crypt key nonce text) = length text.
Proof. rewrite aead_crypt_at. apply length_xor_at. Qed.

Lemma aead_crypt_twice key nonce text : aead_crypt key nonce (aead_crypt key nonce text) = text.
Proof. rewrite !aead_crypt_at. apply xor_at_twice. Qed.

Lemma aead_crypt_bytes key nonce text : all_bytes text -> all_bytes (aead_crypt key nonce text).
Proof. rewrite aead_crypt_at. apply xor_at_bytes. Qed.

(** Decryption accepts exactly the messages that encryption produces. *)
Lemma aead_decrypt_iff key nonce ad msg text : aead_decrypt key nonce ad msg = Some text <-> msg = aead_encrypt key nonce ad text.
Proof.
  unfold aead_decrypt, aead_encrypt. split.
  - destruct (Z.ltb_spec (len msg) 16); [done|]. case_bool_decide as E; [|done]. intros [= <-]. rewrite aead_crypt_twice, E, take_drop. done.
  - intros ->. set (ct := aead_crypt key nonce text). set (tag := aead_tag key nonce ad ct). assert (Ht : length tag = 16%nat) by apply length_poly1305_spec.
    rewrite (proj2 (Z.ltb_ge _ _)) by (rewrite len_app; unfold len; lia). rewrite length_app, Ht. replace (length ct + 16 - 16)%nat with (length ct) by lia.
    rewrite take_app_length, drop_app_length, bool_decide_true by done. unfold ct. by rewrite aead_crypt_twice.
Qed.

Section Construction.

Context {I : Type} `{PL : PolyBackendLaws I} (uninit : poly1305_ctx I) (unaligned long8 : bool).
Context (Hun : length (pc_data uninit) = 16%nat).

Lemma aead_begin_spec key nonce ad : len ad < 2 ^ 64 ->
  aead_begin uninit key nonce ad = (flatten (state_at (chacha_matrix key nonce) 1), fold_left poly1305_update [ad; zeros ((- len ad) mod 16)] (poly1305_init uninit (aead_otk key nonce))).
Proof. intros Ha. unfold aead_begin, POLY1305_KEY_SIZE. rewrite first_block. cbn [fold_left]. rewrite pad16_spec by (pose proof (len_nonneg ad); lia). done. Qed.

(** The tag, for every division of the text into updates. *)
Lemma aead_end_spec key nonce ad chunks p : len ad < 2 ^ 64 -> all_bytes ad -> Forall all_bytes chunks -> len (concat chunks) < 2 ^ 64 ->
  p = fold_left poly1305_update ([ad; zeros ((- len ad) mod 16)] ++ chunks) (poly1305_init uninit (aead_otk key nonce)) ->
  aead_end p (len ad) (len (concat chunks)) = aead_tag key nonce ad (concat chunks).
Proof.
  intros La Ha Hc Lc ->. pose proof (len_nonneg (concat chunks)). unfold aead_end. rewrite pad16_spec by lia. set (t := concat chunks) in *.
  change (poly1305_update (poly1305_update ?x ?a) ?b) with (fold_left poly1305_update [a; b] x). rewrite <- fold_left_app. destruct (otk_ok key nonce) as [Ho Hl].
  rewrite poly1305_stream; [|done|done|lia|].
  - unfold aead_tag, mac_data. apply (f_equal (poly1305_spec (aead_otk key nonce))). rewrite !concat_app. cbn [concat]. rewrite !app_nil_r, <- !app_assoc. done.
  - rewrite !Forall_app, !Forall_cons. split; [split; [|exact Hc]|].
    + split; [exact Ha|]. split; [apply all_bytes_zeros|constructor].
    + split; [apply all_bytes_zeros|]. split; [|constructor]. apply Forall_app; split; apply le_bytes_bytes.
Qed.

Lemma memneq_tag a b : all_bytes a -> all_bytes b -> length a = 16%nat -> length b = 16%nat -> (crypto_memneq unaligned long8 a b 16 =? 0) = bool_decide (a = b).
Proof.
  intros Ha Hb La Lb. pose proof (crypto_memneq_zero unaligned long8 a b 16 Ha Hb ltac:(lia) ltac:(lia)) as Hz. rewrite !take_ge in Hz by lia.
  destruct (Z.eqb_spec (crypto_memneq unaligned long8 a b 16) 0); case_bool_decide; tauto.
Qed.

(** ** On a flat buffer *)

Lemma encrypt_spec dst src ad nonce key : all_bytes src -> all_bytes ad -> len src < 2 ^ 32 -> len ad < 2 ^ 64 ->
  chacha20poly1305_encrypt uninit dst src ad nonce key = aead_encrypt key nonce ad src.
Proof.
  intros Hs Ha Ls La. unfold chacha20poly1305_encrypt. rewrite aead_begin_spec by done. destruct (matrix_ok key nonce) as (Hm & H0 & Hc). pose proof (len_nonneg src).
  rewrite u32_small, (take_ge src) by (unfold len in *; lia). rewrite chacha20_at by done. change (64 * 1)%nat with 64%nat. rewrite <- aead_crypt_at.
  rewrite skipn_all2, app_nil_r by (rewrite length_aead_crypt, length_take; lia). unfold aead_encrypt. f_equal.
  replace (len src) with (len (concat [aead_crypt key nonce src])) by (cbn [concat]; rewrite app_nil_r; unfold len; by rewrite length_aead_crypt).
  rewrite (aead_end_spec key nonce ad [aead_crypt key nonce src]); [by cbn [concat]; rewrite app_nil_r|done|done|by repeat constructor; apply aead_crypt_bytes| |done].
  cbn [concat]. rewrite app_nil_r. unfold len. rewrite length_aead_crypt. unfold len in *. lia.
Qed.

Lemma decrypt_spec dst src ad nonce key : all_bytes src -> all_bytes ad -> len src < 2 ^ 32 -> len ad < 2 ^ 64 ->
  chacha20poly1305_decrypt uninit unaligned long8 dst src ad nonce key =
    match aead_decrypt key nonce ad src with Some text => (true, text ++ skipn (length text) dst) | None => (false, dst) end.
Proof.
  intros Hs Ha Ls La. unfold chacha20poly1305_decrypt, aead_decrypt, POLY1305_MAC_SIZE. destruct (Z.ltb_spec (len src) 16) as [L|L]; [done|].
  rewrite aead_begin_spec by done. destruct (matrix_ok key nonce) as (Hm & H0 & Hc). replace (Z.to_nat (len src - 16)) with (length src - 16)%nat by (unfold len; lia).
  set (ct := firstn (length src - 16) src). assert (Lct : len ct = len src - 16) by (unfold ct, len; rewrite length_take; unfold len in *; lia). rewrite <- Lct.
  replace (len ct) with (len (concat [ct])) at 1 by (cbn [concat]; by rewrite app_nil_r).
  assert (Hct : all_bytes ct) by (by apply Forall_take).
  rewrite (aead_end_spec key nonce ad [ct]); [|done|done|by repeat constructor|cbn [concat]; rewrite app_nil_r; lia|done]. cbn [concat]. rewrite app_nil_r.
  rewrite memneq_tag; [|apply le_bytes_bytes|by apply Forall_drop|apply length_poly1305_spec|rewrite length_drop; unfold len in *; lia]. case_bool_decide; [|done].
  rewrite u32_small, (take_ge ct) by (unfold len in *; lia). rewrite chacha20_at by done. by rewrite aead_crypt_at.
Qed.

(** ** On a scatter list *)

(** What a walk over the pieces does: [text] is what it leaves in the first [sl]
    bytes, and [fed] what it authenticates. *)
Definition walk_post (segs : list (list Z)) (sl : Z) (text fed : list Z) (p : poly1305_ctx I) (res : list (list Z) * list (list Z) * poly1305_ctx I * Z) : Prop :=
  let '(seen, rest, p', sl') := res in
  concat (seen ++ rest) = text ++ skipn (Z.to_nat sl) (concat segs) /\ map length (seen ++ rest) = map length segs /\
  sl' = sl - len (concat seen) /\ sl' <= 0 /\ (forall init s, seen = init ++ [s] -> len (concat init) < sl) /\
  exists chunks, p' = fold_left poly1305_update chunks p /\ concat chunks = fed /\ Forall all_bytes chunks.

(** The walk stops after the piece that holds the end of the text. *)
Lemma walk_post_stop segs sl p : sl <= 0 -> walk_post segs sl [] [] p ([], segs, p, sl).
Proof. intros Hs. unfold walk_post. replace (Z.to_nat sl) with 0%nat by lia. ands; try done; [change (len (concat [])) with 0; lia|by intros [|? ?]|by exists []]. Qed.

Lemma walk_post_step s segs sl out fed text' fed' p seen rest p' sl' : let l := Z.to_nat (Z.min sl (len s)) in
  0 < sl -> length out = l -> all_bytes fed -> (sl <= len s -> text' = []) -> walk_post segs (sl - len s) text' fed' (poly1305_update p fed) (seen, rest, p', sl') ->
  walk_post (s :: segs) sl (out ++ text') (fed ++ fed') p ((out ++ skipn l s) :: seen, rest, p', sl').
Proof.
  cbv zeta. set (l := Z.to_nat (Z.min sl (len s))). intros Hs Ho Hf Hstop (C & M & E & L & N & chunks & P & F & B). pose proof (len_nonneg s) as Hl.
  assert (Lp : length (out ++ skipn l s) = length s) by (rewrite length_app, length_drop; unfold l, len in *; lia).
  unfold walk_post. cbn [concat app map]. ands.
  - rewrite C, skipn_app. destruct (Z.le_gt_cases sl (len s)) as [S|S].
    + rewrite Hstop by done. rewrite app_nil_r. replace (Z.to_nat (sl - len s)) with 0%nat by lia. unfold l. replace (Z.min sl (len s)) with sl by lia.
      replace (Z.to_nat sl - length s)%nat with 0%nat by (unfold len in *; lia). rewrite drop_0, <- app_assoc. done.
    + rewrite !(skipn_all2 s) by (unfold l, len in *; lia). rewrite app_nil_r, <- app_assoc. cbn [app]. do 3 f_equal. unfold len in *. lia.
  - by rewrite Lp, M.
  - rewrite len_app. replace (len (out ++ skipn l s)) with (len s) by (unfold len; lia). lia.
  - done.
  - intros [|x init] y [= Ex Ey]; [done|]. subst x. cbn [concat]. rewrite len_app. specialize (N init y Ey). unfold len in *. lia.
  - exists (fed :: chunks). cbn [fold_left concat]. ands; [done|by rewrite F|by constructor].
Qed.

Section Walk.

Context (m : matrix) (Hm : square m) (Hc : 0 <= counter_of m < 2 ^ 32).

(** The first [sl] bytes of the list, in the first piece and after it. *)
Lemma take_pieces (s : list Z) segs sl : 0 < sl ->
  firstn (Z.to_nat sl) (concat (s :: segs)) = firstn (Z.to_nat (Z.min sl (len s))) s ++ firstn (Z.to_nat (sl - len s)) (concat segs).
Proof.
  intros Hs. pose proof (len_nonneg s). cbn [concat]. rewrite firstn_app. replace (Z.to_nat (sl - len s)) with (Z.to_nat sl - length s)%nat by (unfold len; lia). f_equal.
  destruct (Z.le_gt_cases sl (len s)); [by replace (Z.min sl (len s)) with sl by lia|]. rewrite !take_ge by (unfold len in *; lia). done.
Qed.

Lemma piece_step (s : list Z) sl n w : 0 < sl -> at_pos m n w -> let l := Z.to_nat (Z.min sl (len s)) in
  exists w', crypt_piece w sl (firstn l s) = (xor_at m n (firstn l s), w') /\ length (firstn l s) = l /\ (0 < sl - len s -> at_pos m (n + l) w').
Proof.
  intros Hs Hw. cbv zeta. set (l := Z.to_nat (Z.min sl (len s))). pose proof (len_nonneg s). assert (Hl : length (firstn l s) = l) by (rewrite length_take; unfold l, len in *; lia).
  destruct (crypt_piece_spec m Hm Hc n w sl (firstn l s) Hw Hs) as (w' & E & P); [unfold len at 1; rewrite Hl; unfold l; lia|]. exists w'. ands; try done. intros Hlt. rewrite Hl in P. apply P. unfold len at 1. rewrite Hl. unfold l. lia.
Qed.

Lemma encrypt_walk_spec : forall segs n w sl p, (0 < sl -> at_pos m n w) -> Forall all_bytes segs -> sl <= len (concat segs) ->
  let text := xor_at m n (firstn (Z.to_nat sl) (concat segs)) in walk_post segs sl text text p (encrypt_walk segs sl w p).
Proof.
  induction segs as [|s segs IH]; intros n w sl p Hw Hb Hl; cbv zeta.
  - change (len (concat [])) with 0 in Hl. cbn [concat]. rewrite take_nil. cbn [encrypt_walk xor_at]. by apply walk_post_stop.
  - cbn [encrypt_walk]. destruct (Z.gtb_spec sl 0) as [S|S]; [|replace (Z.to_nat sl) with 0%nat by lia; cbn [firstn xor_at]; by apply walk_post_stop].
    destruct (piece_step s sl n w S (Hw S)) as (w' & -> & El & Hw'). set (l := Z.to_nat (Z.min sl (len s))) in *. inversion Hb as [|? ? Hs Hss]; subst.
    rewrite take_pieces, xor_at_app by done. fold l. rewrite El. assert (Lx : length (xor_at m n (firstn l s)) = l) by (by rewrite length_xor_at).
    rewrite take_app_length' by done. cbn [concat] in Hl. rewrite len_app in Hl.
    specialize (IH (n + l)%nat w' (sl - len s) (poly1305_update p (xor_at m n (firstn l s))) Hw' Hss ltac:(lia)). cbv zeta in IH.
    destruct (encrypt_walk segs (sl - len s) w' _) as [[[seen rest] p'] sl']. apply walk_post_step; [done|done|by apply xor_at_bytes, Forall_take| |done].
    intros Hle. by replace (Z.to_nat (sl - len s)) with 0%nat by lia.
Qed.

Lemma decrypt_walk_spec : forall segs n w sl p, (0 < sl -> at_pos m n w) -> Forall all_bytes segs -> sl <= len (concat segs) ->
  let ct := firstn (Z.to_nat sl) (concat segs) in walk_post segs sl (xor_at m n ct) ct p (decrypt_walk segs sl w p).
Proof.
  induction segs as [|s segs IH]; intros n w sl p Hw Hb Hl; cbv zeta.
  - change (len (concat [])) with 0 in Hl. cbn [concat]. rewrite take_nil. cbn [decrypt_walk xor_at]. by apply walk_post_stop.
  - cbn [decrypt_walk]. destruct (Z.gtb_spec sl 0) as [S|S]; [|replace (Z.to_nat sl) with 0%nat by lia; cbn [firstn xor_at]; by apply walk_post_stop].
    destruct (piece_step s sl n w S (Hw S)) as (w' & -> & El & Hw'). set (l := Z.to_nat (Z.min sl (len s))) in *. inversion Hb as [|? ? Hs Hss]; subst.
    rewrite take_pieces, xor_at_app by done. fold l. rewrite El. cbn [concat] in Hl. rewrite len_app in Hl.
    specialize (IH (n + l)%nat w' (sl - len s) (poly1305_update p (firstn l s)) Hw' Hss ltac:(lia)). cbv zeta in IH.
    destruct (decrypt_walk segs (sl - len s) w' _) as [[[seen rest] p'] sl']. apply walk_post_step; [done|by rewrite length_xor_at|by apply Forall_take| |done].
    intros Hle. by replace (Z.to_nat (sl - len s)) with 0%nat by lia.
Qed.

End Walk.

(** Writing across the pieces. *)
Lemma sg_write_spec : forall segs off data, 0 <= off -> off + len data <= len (concat segs) ->
  concat (sg_write segs off data) = buf_set (concat segs) off data /\ map length (sg_write segs off data) = map length segs.
Proof.
  induction segs as [|s segs IH]; intros off data Ho Hl; cbn [sg_write concat map] in *.
  - change (len []) with 0 in Hl. pose proof (len_nonneg data). destruct data; [|rewrite len_cons in Hl; pose proof (len_nonneg data); lia]. replace off with 0 by (change (len []) with 0 in Hl; lia). done.
  - rewrite len_app in Hl. pose proof (len_nonneg data). pose proof (len_nonneg s). destruct (Z.leb_spec (len s) off) as [L|L]; cbn [concat map].
    + destruct (IH (off - len s) data) as [-> ->]; [lia..|]. split; [|done]. by rewrite buf_set_skip.
    + set (k := Z.to_nat (Z.min (len data) (len s - off))). assert (Hk : len (firstn k data) = Z.min (len data) (len s - off)) by (unfold k, len; rewrite length_take; unfold len in *; lia).
      assert (Hd : len (skipn k data) = len data - Z.min (len data) (len s - off)) by (unfold k, len; rewrite length_drop; unfold len in *; lia).
      pose proof (len_nonneg (concat segs)). destruct (IH 0 (skipn k data)) as [-> ->]; [lia..|]. rewrite buf_set_length by lia. split; [|done]. rewrite buf_set_across, take_drop; [done|done|lia|].
      destruct (Z.le_gt_cases (len data) (len s - off)); [left; apply skipn_all2; unfold k, len in *; lia|right; lia].
Qed.

Lemma on_last_app {A} (f : A -> A) l x : on_last f (l ++ [x]) = l ++ [f x].
Proof. induction l as [|y l IH]; [done|]. cbn [app on_last]. rewrite IH. by destruct (l ++ [x]) eqn:E; [destruct l|]. Qed.

(** The walk from the beginning of the text. *)
Lemma start_pos key nonce : at_pos (chacha_matrix key nonce) 64 (Stream (flatten (state_at (chacha_matrix key nonce) 1)) (zeros CHACHA20_BLOCK_SIZE) 0).
Proof. split; [done|]. split; [done|]. done. Qed.

Lemma len_concat (a b : list (list Z)) : map length a = map length b -> len (concat a) = len (concat b).
Proof. revert b. induction a as [|x a IH]; intros [|y b] [=]; [done|]. cbn [concat]. rewrite !len_app. rewrite (IH b) by done. unfold len. lia. Qed.

(** The tag in the piece visited last, at its place in the whole. *)
Lemma on_last_spec seen rest src_len mac : seen <> [] -> (forall init s, seen = init ++ [s] -> len (concat init) < src_len) -> src_len + len mac <= len (concat seen) ->
  let segs' := on_last (fun s => buf_set s (len s + (src_len - len (concat seen))) mac) seen ++ rest in
  concat segs' = buf_set (concat (seen ++ rest)) src_len mac /\ map length segs' = map length (seen ++ rest).
Proof.
  intros Hne Hin Hl. cbv zeta. destruct (exists_last Hne) as (init & s & ->). specialize (Hin init s eq_refl). rewrite on_last_app. rewrite !concat_app in *. cbn [concat] in *. rewrite !app_nil_r, len_app in *.
  pose proof (len_nonneg mac). replace (len s + (src_len - (len (concat init) + len s))) with (src_len - len (concat init)) by lia. split.
  - rewrite <- !app_assoc, buf_set_skip by lia. f_equal. rewrite <- (app_nil_r mac) at 2. rewrite <- buf_set_across; [done|lia|lia|by left].
  - rewrite !map_app. cbn [map]. rewrite buf_set_length by lia. done.
Qed.

Lemma encrypt_sg_spec segs src_len ad nonce key : Forall all_bytes segs -> all_bytes ad -> len ad < 2 ^ 64 -> 0 <= src_len <= INT_MAX -> src_len + 16 <= len (concat segs) ->
  exists segs', chacha20poly1305_encrypt_sg_inplace uninit segs src_len ad nonce key = (true, segs') /\ map length segs' = map length segs /\
    concat segs' = aead_encrypt key nonce ad (firstn (Z.to_nat src_len) (concat segs)) ++ skipn (Z.to_nat (src_len + 16)) (concat segs).
Proof.
  intros Hb Ha La Hn Hl. unfold chacha20poly1305_encrypt_sg_inplace. rewrite Z.gtb_ltb, (proj2 (Z.ltb_ge _ _)) by lia. rewrite aead_begin_spec by done. destruct (matrix_ok key nonce) as (Hm & H0 & Hc).
  set (m := chacha_matrix key nonce) in *. pose proof (encrypt_walk_spec m Hm Hc segs 64 (Stream (flatten (state_at m 1)) (zeros CHACHA20_BLOCK_SIZE) 0) src_len
    (fold_left poly1305_update [ad; zeros ((- len ad) mod 16)] (poly1305_init uninit (aead_otk key nonce))) (fun _ => start_pos key nonce) Hb ltac:(lia)) as W. cbv zeta in W.
  destruct (encrypt_walk segs src_len _ _) as [[[seen rest] p] sl]. unfold m in W. rewrite <- aead_crypt_at in W. destruct W as (C & M & E & L & N & chunks & P & F & B).
  set (text := firstn (Z.to_nat src_len) (concat segs)) in *. set (ct := aead_crypt key nonce text) in *.
  assert (Lt : len ct = src_len) by (unfold ct, len; rewrite length_aead_crypt; unfold text; rewrite length_take; unfold len in *; lia).
  rewrite <- fold_left_app in P. replace (aead_end p (len ad) src_len) with (aead_tag key nonce ad ct) by (rewrite <- Lt, <- F; symmetry; apply aead_end_spec; [done|done|done|rewrite F; unfold INT_MAX in *; lia|done]).
  set (mac := aead_tag key nonce ad ct). assert (Lm : len mac = 16) by (unfold len, mac; by rewrite length_aead_tag). assert (Lc : len (concat (seen ++ rest)) = len (concat segs)) by (by apply len_concat).
  assert (EG : buf_set (concat (seen ++ rest)) src_len mac = aead_encrypt key nonce ad text ++ skipn (Z.to_nat (src_len + 16)) (concat segs)).
  { rewrite C. unfold buf_set. rewrite <- Lt at 1. unfold len. rewrite Nat2Z.id, take_app_length. unfold aead_encrypt. fold ct mac. rewrite <- !app_assoc. do 2 f_equal.
    rewrite drop_app_ge by (unfold len in *; lia). rewrite drop_drop. f_equal. unfold len in *. lia. }
  change (- POLY1305_MAC_SIZE) with (-16). destruct (Z.leb_spec sl (-16)) as [S|S]; eexists; (split; [reflexivity|]).
  - rewrite E. destruct (on_last_spec seen rest src_len mac) as [-> ->]; [intros ->; change (len (concat [])) with 0 in E; lia|done|lia|]. by rewrite EG, M.
  - destruct (sg_write_spec (seen ++ rest) src_len mac) as [-> ->]; [lia..|]. by rewrite EG, M.
Qed.


(** The tag of the message, wherever it lies. *)
Lemma read_mac_spec seen rest src_len : 0 <= src_len -> (forall init s, seen = init ++ [s] -> len (concat init) < src_len) -> src_len + 16 <= len (concat (seen ++ rest)) ->
  let sl := src_len - len (concat seen) in
  (if sl <=? - POLY1305_MAC_SIZE then match last seen with Some s => field (len s + sl) POLY1305_MAC_SIZE s | None => [] end else sg_read (seen ++ rest) src_len POLY1305_MAC_SIZE) =
  field src_len 16 (concat (seen ++ rest)).
Proof.
  intros H0 Hin Hl. cbv zeta. change (- POLY1305_MAC_SIZE) with (-16). destruct (Z.leb_spec (src_len - len (concat seen)) (-16)) as [S|S]; [|done].
  assert (Hne : seen <> []) by (intros ->; change (len (concat [])) with 0 in S; lia). destruct (exists_last Hne) as (init & s & ->). specialize (Hin init s eq_refl).
  rewrite last_snoc. rewrite !concat_app in *. cbn [concat] in *. rewrite !app_nil_r, !len_app in *. rewrite <- app_assoc, field_skip by lia. unfold POLY1305_MAC_SIZE.
  replace (len s + (src_len - (len (concat init) + len s))) with (src_len - len (concat init)) by lia. symmetry. apply field_in_prefix; lia.
Qed.

Lemma decrypt_sg_spec segs src_len ad nonce key : Forall all_bytes segs -> all_bytes ad -> len ad < 2 ^ 64 -> 16 <= src_len <= INT_MAX -> src_len <= len (concat segs) ->
  let msg := firstn (Z.to_nat src_len) (concat segs) in
  exists segs', chacha20poly1305_decrypt_sg_inplace uninit unaligned long8 segs src_len ad nonce key = (bool_decide (is_Some (aead_decrypt key nonce ad msg)), segs') /\
    map length segs' = map length segs /\ concat segs' = aead_crypt key nonce (firstn (Z.to_nat (src_len - 16)) msg) ++ skipn (Z.to_nat (src_len - 16)) (concat segs).
Proof.
  intros Hb Ha La Hn Hl msg. unfold chacha20poly1305_decrypt_sg_inplace. change (src_len - POLY1305_MAC_SIZE) with (src_len - 16). change (src_len <? POLY1305_MAC_SIZE) with (src_len <? 16). rewrite Z.gtb_ltb, (proj2 (Z.ltb_ge src_len 16)), (proj2 (Z.ltb_ge INT_MAX src_len)) by lia. cbn [orb].
  rewrite aead_begin_spec by done. destruct (matrix_ok key nonce) as (Hm & H0 & Hc). remember (src_len - 16) as n eqn:En.
  set (m := chacha_matrix key nonce) in *. pose proof (decrypt_walk_spec m Hm Hc segs 64 (Stream (flatten (state_at m 1)) (zeros CHACHA20_BLOCK_SIZE) 0) n
    (fold_left poly1305_update [ad; zeros ((- len ad) mod 16)] (poly1305_init uninit (aead_otk key nonce))) (fun _ => start_pos key nonce) Hb ltac:(lia)) as W. cbv zeta in W.
  destruct (decrypt_walk segs n _ _) as [[[seen rest] p] sl]. unfold m in W. rewrite <- aead_crypt_at in W. destruct W as (C & M & E & L & N & chunks & P & F & B).
  assert (Ect : firstn (Z.to_nat n) msg = firstn (Z.to_nat n) (concat segs)) by (unfold msg; rewrite firstn_firstn; f_equal; lia). rewrite Ect. set (ct := firstn (Z.to_nat n) (concat segs)) in *.
  assert (Lct : len ct = n) by (unfold ct, len; rewrite length_take; unfold len in *; lia).
  rewrite <- fold_left_app in P. replace (aead_end p (len ad) n) with (aead_tag key nonce ad ct) by (rewrite <- Lct, <- F; symmetry; apply aead_end_spec; [done|done|done|rewrite F; unfold INT_MAX in *; lia|done]).
  exists (seen ++ rest). ands; [|done|done]. f_equal. rewrite E, read_mac_spec by (done || rewrite ?(len_concat _ _ M); lia). rewrite C.
  assert (Lms : length msg = Z.to_nat src_len) by (unfold msg; rewrite length_take; unfold len in *; lia).
  assert (Etag : field n 16 (aead_crypt key nonce ct ++ skipn (Z.to_nat n) (concat segs)) = skipn (Z.to_nat n) msg).
  { unfold field. rewrite drop_app_length' by (rewrite length_aead_crypt; unfold len in *; lia). unfold msg. rewrite skipn_firstn_comm. f_equal. lia. }
  rewrite Etag. assert (Hmb : all_bytes msg) by (apply Forall_take, Forall_concat; done).
  rewrite memneq_tag; [|apply le_bytes_bytes|by apply Forall_drop|apply length_aead_tag|rewrite length_drop; lia]. unfold aead_decrypt. rewrite (proj2 (Z.ltb_ge (len msg) 16)) by (unfold len; lia).
  replace (length msg - 16)%nat with (Z.to_nat n) by lia. rewrite Ect. fold ct.
  set (b := bool_decide (aead_tag _ _ _ _ = _)). destruct b; symmetry; [by apply bool_decide_true|by apply bool_decide_false; intros [? ?]].
Qed.

End Construction.


(** * The theorems *)

(** Concrete uninitialised contexts. *)
Definition uninit64 : poly1305_ctx poly1305_internal := PolyCtx (Internal 0 0 0 0 0 0 0 0) [] (zeros 16) 0.
Definition uninit32 : poly1305_ctx poly1305_internal32 := PolyCtx (Internal32 (Limbs 0 0 0 0 0) (Limbs 0 0 0 0 0) (0, 0, 0, 0)) [] (zeros 16) 0.

(** Both arithmetic back ends of Poly1305 compute the authenticator of RFC
    8439, however the message is divided into updates: the limbs of 44
    and of 26 bits never overflow their words, and the final selection reduces
    modulo 2^130 - 5 exactly. *)
Theorem poly1305_backends_agree (c64 : poly1305_ctx poly1305_internal) (c32 : poly1305_ctx poly1305_internal32) key chunks :
  length (pc_data c64) = 16%nat -> length (pc_data c32) = 16%nat -> all_bytes key -> 32 <= len key -> Forall all_bytes chunks ->
  poly1305_final (fold_left poly1305_update chunks (poly1305_init c64 key)) = poly1305_spec key (concat chunks) /\
  poly1305_final (fold_left poly1305_update chunks (poly1305_init c32 key)) = poly1305_spec key (concat chunks).
Proof. intros. split; by apply poly1305_stream. Qed.

(** C35: Authenticated encryption on a flat buffer is the construction of RFC
    8439, for every back end.  Decryption of what encryption produced returns
    the text; decryption accepts nothing else, and leaves the destination alone
    when it rejects. *)
Theorem chacha20poly1305_rfc {I : Type} `{PL : PolyBackendLaws I} (uninit : poly1305_ctx I) unaligned long8 dst ad nonce key :
  length (pc_data uninit) = 16%nat -> all_bytes ad -> len ad < 2 ^ 64 ->
  (forall src, all_bytes src -> len src + 16 < 2 ^ 32 ->
    let msg := chacha20poly1305_encrypt uninit dst src ad nonce key in
    msg = aead_encrypt key nonce ad src /\ chacha20poly1305_decrypt uninit unaligned long8 dst msg ad nonce key = (true, src ++ skipn (length src) dst)) /\
  (forall msg, all_bytes msg -> len msg < 2 ^ 32 ->
    (exists src, msg = chacha20poly1305_encrypt uninit dst src ad nonce key /\ (chacha20poly1305_decrypt uninit unaligned long8 dst msg ad nonce key).1 = true) \/
    chacha20poly1305_decrypt uninit unaligned long8 dst msg ad nonce key = (false, dst)).
Proof.
  intros Hun Ha La. split.
  - intros src Hs Ls. cbv zeta. rewrite encrypt_spec by (done || lia). split; [done|]. rewrite decrypt_spec; [|done| |done| |done].
    + by rewrite (proj2 (aead_decrypt_iff key nonce ad _ src) eq_refl).
    + unfold aead_encrypt. apply Forall_app. split; [by apply aead_crypt_bytes|apply le_bytes_bytes].
    + unfold aead_encrypt. rewrite len_app. unfold len in *. rewrite length_aead_crypt, length_aead_tag. lia.
  - intros msg Hb Lm. rewrite decrypt_spec by done. destruct (aead_decrypt key nonce ad msg) as [text|] eqn:E; [left|by right]. exists text. split; [|done].
    pose proof E as E'. apply aead_decrypt_iff in E'. unfold aead_decrypt in E. destruct (Z.ltb_spec (len msg) 16); [done|]. case_bool_decide; [|done]. injection E as <-.
    rewrite encrypt_spec; [done|done| |done| |done]; [by apply aead_crypt_bytes, Forall_take|]. unfold len in *. rewrite length_aead_crypt, length_take. lia.
Qed.

Lemma poly1305_backends_agree_witness :
  poly1305_final (fold_left poly1305_update [[1; 2]; [3]] (poly1305_init uninit64 (zeros 32))) = poly1305_spec (zeros 32) [1; 2; 3] /\
  poly1305_final (fold_left poly1305_update [[1; 2]; [3]] (poly1305_init uninit32 (zeros 32))) = poly1305_spec (zeros 32) [1; 2; 3].
Proof. apply (poly1305_backends_agree uninit64 uninit32 (zeros 32) [[1; 2]; [3]]); try done; [apply all_bytes_zeros|repeat constructor; done]. Defined.

Lemma chacha20poly1305_rfc_witness :
  let msg := chacha20poly1305_encrypt uninit64 [0; 0; 0] [104; 105] [7] 5 (zeros 32) in
  msg = aead_encrypt (zeros 32) 5 [7] [104; 105] /\ chacha20poly1305_decrypt uninit64 true true [0; 0; 0] msg [7] 5 (zeros 32) = (true, [104; 105] ++ skipn 2 [0; 0; 0]).
Proof. apply (chacha20poly1305_rfc uninit64 true true [0; 0; 0] [7] 5 (zeros 32)); try done; repeat constructor; done. Defined.

(** C30: Encryption in place on a scatter list does not depend on how the packet
    is divided into pieces: the pieces keep their lengths, the text and the
    sixteen bytes behind it become the message of RFC 8439, and what follows is
    untouched.  Decryption of the message, in any other division, returns the text,
    and it succeeds for exactly the messages that encryption produces.
    Packets beyond the largest [int] are refused unchanged. *)
Theorem chacha20poly1305_sg {I : Type} `{PL : PolyBackendLaws I} (uninit : poly1305_ctx I) unaligned long8 segs ad nonce key n :
  length (pc_data uninit) = 16%nat -> all_bytes ad -> len ad < 2 ^ 64 -> Forall all_bytes segs -> 0 <= n ->
  let buf := concat segs in
  (n <= INT_MAX -> n + 16 <= len buf ->
    exists segs', chacha20poly1305_encrypt_sg_inplace uninit segs n ad nonce key = (true, segs') /\ map length segs' = map length segs /\
      concat segs' = aead_encrypt key nonce ad (firstn (Z.to_nat n) buf) ++ skipn (Z.to_nat (n + 16)) buf) /\
  (n + 16 <= INT_MAX -> n + 16 <= len buf ->
    exists segs', (chacha20poly1305_decrypt_sg_inplace uninit unaligned long8 segs (n + 16) ad nonce key).2 = segs' /\ map length segs' = map length segs /\
      skipn (Z.to_nat n) (concat segs') = skipn (Z.to_nat n) buf /\
      forall text, len text = n ->
        firstn (Z.to_nat (n + 16)) buf = aead_encrypt key nonce ad text <->
        ((chacha20poly1305_decrypt_sg_inplace uninit unaligned long8 segs (n + 16) ad nonce key).1 = true /\ firstn (Z.to_nat n) (concat segs') = text)) /\
  (INT_MAX < n -> chacha20poly1305_encrypt_sg_inplace uninit segs n ad nonce key = (false, segs) /\ chacha20poly1305_decrypt_sg_inplace uninit unaligned long8 segs n ad nonce key = (false, segs)).
Proof.
  intros Hun Ha La Hs H0 buf. unfold buf. split; [|split].
  - intros Hn Hl. by apply encrypt_sg_spec.
  - intros Hn Hl. destruct (decrypt_sg_spec uninit unaligned long8 Hun segs (n + 16) ad nonce key Hs Ha La ltac:(lia) Hl) as (segs' & -> & M & C). replace (n + 16 - 16) with n in C by lia. exists segs'.
    set (msg := firstn (Z.to_nat (n + 16)) (concat segs)) in *. assert (Lm : length msg = Z.to_nat (n + 16)) by (unfold msg; rewrite length_take; unfold len in *; lia).
    set (ct := firstn (Z.to_nat n) msg) in *. assert (Lc : length (aead_crypt key nonce ct) = Z.to_nat n) by (rewrite length_aead_crypt; unfold ct; rewrite length_take; lia).
    rewrite C, drop_app_length', take_app_length' by done. cbn [fst snd]. ands; try done. intros text Lt. rewrite <- aead_decrypt_iff. split.
    + intros E. split; [rewrite E; by apply bool_decide_true|]. unfold aead_decrypt in E. destruct (len msg <? 16); [done|]. case_bool_decide; [|done]. injection E as <-. do 2 f_equal. lia.
    + intros [E <-]. apply bool_decide_eq_true_1 in E as [t E]. rewrite E. f_equal. unfold aead_decrypt in E. destruct (len msg <? 16); [done|]. case_bool_decide; [|done]. injection E as <-. do 2 f_equal. lia.
  - intros Hn. unfold chacha20poly1305_encrypt_sg_inplace, chacha20poly1305_decrypt_sg_inplace. rewrite !Z.gtb_ltb, (proj2 (Z.ltb_lt _ _)) by lia. by rewrite orb_true_r.
Qed.

Lemma chacha20poly1305_sg_witness :
  exists segs', chacha20poly1305_encrypt_sg_inplace uninit32 [[1; 2]; zeros 20; [9]] 3 [] 5 (zeros 32) = (true, segs') /\ map length segs' = [2; 20; 1]%nat /\
    concat segs' = aead_encrypt (zeros 32) 5 [] [1; 2; 0] ++ [0; 0; 0; 9].
Proof.
  apply (chacha20poly1305_sg uninit32 true true [[1; 2]; zeros 20; [9]] [] 5 (zeros 32) 3); try done.
  rewrite !Forall_cons. split; [repeat constructor; done|]. split; [apply all_bytes_zeros|]. split; [repeat constructor; done|constructor].
Defined.
