(* ===== verification/Blake2s.v ===== *)
(** * BLAKE2s ([src/crypto/zinc/blake2s/blake2s.c], [src/crypto/include/zinc/blake2s.h])

    The hash and keyed hash of the handshake: the compression function with its
    message schedule, the counter in two words, the buffering of updates (which
    always keeps the last block back, since it is compressed with another flag) and
    HMAC.  The hash is shown to be that of RFC 7693 for every division of
    the message into updates. *)

From S2P Require Import Prelude Words.
From stdpp Require Import list.
From Stdlib Require Import ZifyNat.
#[local] Open Scope Z_scope.

Definition BLAKE2S_BLOCK_SIZE : Z := 64.
Definition BLAKE2S_HASH_SIZE : Z := 32.

(** ** The code *)

Definition blake2s_iv : list Z :=
  [0x6A09E667; 0xBB67AE85; 0x3C6EF372; 0xA54FF53A; 0x510E527F; 0x9B05688C; 0x1F83D9AB; 0x5BE0CD19].

Definition blake2s_sigma : list (list nat) :=
  [[0; 1; 2; 3; 4; 5; 6; 7; 8; 9; 10; 11; 12; 13; 14; 15];
   [14; 10; 4; 8; 9; 15; 13; 6; 1; 12; 0; 2; 11; 7; 5; 3];
   [11; 8; 12; 0; 5; 2; 15; 13; 10; 14; 3; 6; 7; 1; 9; 4];
   [7; 9; 3; 1; 13; 12; 11; 14; 2; 6; 5; 10; 4; 0; 15; 8];
   [9; 0; 5; 7; 2; 4; 10; 15; 14; 1; 11; 12; 6; 8; 3; 13];
   [2; 12; 6; 10; 0; 11; 8; 3; 4; 13; 7; 5; 15; 14; 1; 9];
   [12; 5; 1; 15; 14; 13; 4; 10; 0; 7; 6; 3; 9; 2; 8; 11];
   [13; 11; 7; 14; 12; 1; 3; 9; 5; 0; 15; 4; 8; 6; 2; 10];
   [6; 15; 14; 9; 11; 3; 0; 8; 12; 2; 13; 7; 1; 4; 10; 5];
   [10; 2; 8; 4; 7; 6; 1; 5; 15; 11; 9; 14; 3; 12; 13; 0]]%nat.

Record blake2s_state := BlakeState { bh : list Z; t0 : Z; t1 : Z; f0 : Z; f1 : Z; bbuf : list Z; bbuflen : Z; boutlen : Z }.

Definition blake2s_set_lastblock (s : blake2s_state) : blake2s_state :=
  BlakeState (bh s) (t0 s) (t1 s) (u32 (-1)) (f1 s) (bbuf s) (bbuflen s) (boutlen s).

Definition blake2s_increment_counter (s : blake2s_state) (inc : Z) : blake2s_state :=
  let t0' := u32 (t0 s + inc) in
  BlakeState (bh s) t0' (u32 (t1 s + (if t0' <? inc then 1 else 0))) (f0 s) (f1 s) (bbuf s) (bbuflen s) (boutlen s).

Definition blake2s_init_param (param : Z) : blake2s_state :=
  BlakeState (<[0%nat := Z.lxor (nth 0 blake2s_iv 0) param]> blake2s_iv) 0 0 0 0 (zeros BLAKE2S_BLOCK_SIZE) 0 0.

Definition blake2s_init (outlen : Z) : blake2s_state :=
  let s := blake2s_init_param (u32 (Z.lor 0x01010000 outlen)) in
  BlakeState (bh s) (t0 s) (t1 s) (f0 s) (f1 s) (bbuf s) (bbuflen s) (u32 outlen).

(** [a += b + m[...], d = ror32(d ^ a, n), c += d, b = ror32(b ^ c, k)]: half of [G]. *)
Definition half_G (v : list Z) (a b c d : nat) (mw n k : Z) : list Z :=
  let w (v : list Z) i := nth i v 0 in
  let v := <[a := u32 (w v a + (w v b + mw))]> v in
  let v := <[d := ror32 (Z.lxor (w v d) (w v a)) n]> v in
  let v := <[c := u32 (w v c + w v d)]> v in
  <[b := ror32 (Z.lxor (w v b) (w v c)) k]> v.

Definition G (m : list Z) (r i : nat) (v : list Z) (a b c d : nat) : list Z :=
  let word j := nth (nth j (nth r blake2s_sigma []) 0%nat) m 0 in
  let v := half_G v a b c d (word (2 * i)%nat) 16 12 in
  half_G v a b c d (word (2 * i + 1)%nat) 8 7.

Definition ROUND (m : list Z) (v : list Z) (r : nat) : list Z :=
  let v := G m r 0 v 0 4 8 12 in
  let v := G m r 1 v 1 5 9 13 in
  let v := G m r 2 v 2 6 10 14 in
  let v := G m r 3 v 3 7 11 15 in
  let v := G m r 4 v 0 5 10 15 in
  let v := G m r 5 v 1 6 11 12 in
  let v := G m r 6 v 2 7 8 13 in
  G m r 7 v 3 4 9 14.

(** The body of the loop over the blocks, after the counter. *)
Definition compress_rounds (h : list Z) (t0 t1 f0 f1 : Z) (block : list Z) : list Z :=
  let m := map (fun i => get_unaligned_le32 (4 * Z.of_nat i) block) (seq 0 16) in
  let iv i := nth i blake2s_iv 0 in
  let v := h ++ [iv 0%nat; iv 1%nat; iv 2%nat; iv 3%nat; Z.lxor (iv 4%nat) t0; Z.lxor (iv 5%nat) t1; Z.lxor (iv 6%nat) f0; Z.lxor (iv 7%nat) f1] in
  let v := fold_left (ROUND m) [0; 1; 2; 3; 4; 5; 6; 7; 8; 9]%nat v in
  map (fun i => Z.lxor (nth i h 0) (Z.lxor (nth i v 0) (nth (i + 8) v 0))) (seq 0 8).

Fixpoint blake2s_compress (s : blake2s_state) (block : list Z) (nblocks : nat) (inc : Z) : blake2s_state :=
  match nblocks with
  | O => s
  | S n =>
      let s := blake2s_increment_counter s inc in
      let h := compress_rounds (bh s) (t0 s) (t1 s) (f0 s) (f1 s) block in
      blake2s_compress (BlakeState h (t0 s) (t1 s) (f0 s) (f1 s) (bbuf s) (bbuflen s) (boutlen s)) (skipn 64 block) n inc
  end.

Definition set_buf (s : blake2s_state) (buf : list Z) (buflen : Z) : blake2s_state :=
  BlakeState (bh s) (t0 s) (t1 s) (f0 s) (f1 s) buf buflen (boutlen s).

(** [if (inlen > fill) { ... }]: the state and what is left of the input. *)
Definition update_fill (s : blake2s_state) (inp : list Z) : blake2s_state * list Z :=
  let fill := BLAKE2S_BLOCK_SIZE - bbuflen s in
  if len inp >? fill then
    let buf := buf_set (bbuf s) (bbuflen s) (firstn (Z.to_nat fill) inp) in
    let s := blake2s_compress (set_buf s buf (bbuflen s)) buf 1 BLAKE2S_BLOCK_SIZE in
    (set_buf s buf 0, skipn (Z.to_nat fill) inp)
  else (s, inp).

(** [if (inlen > BLAKE2S_BLOCK_SIZE) { ... }]: one less block than possible. *)
Definition update_blocks (s : blake2s_state) (inp : list Z) : blake2s_state * list Z :=
  if len inp >? BLAKE2S_BLOCK_SIZE then
    let nblocks := (len inp + (BLAKE2S_BLOCK_SIZE - 1)) / BLAKE2S_BLOCK_SIZE in
    (blake2s_compress s inp (Z.to_nat (nblocks - 1)) BLAKE2S_BLOCK_SIZE, skipn (Z.to_nat (BLAKE2S_BLOCK_SIZE * (nblocks - 1))) inp)
  else (s, inp).

Definition blake2s_update (s : blake2s_state) (inp : list Z) : blake2s_state :=
  if len inp =? 0 then s
  else
    let '(s, inp) := update_fill s inp in
    let '(s, inp) := update_blocks s inp in
    set_buf s (buf_set (bbuf s) (bbuflen s) inp) (bbuflen s + len inp).

(** The hash; the state is zeroed afterwards. *)
Definition blake2s_final (s : blake2s_state) : list Z :=
  let s := blake2s_set_lastblock s in
  let buf := buf_set (bbuf s) (bbuflen s) (zeros (BLAKE2S_BLOCK_SIZE - bbuflen s)) in
  let s := blake2s_compress (set_buf s buf (bbuflen s)) buf 1 (bbuflen s) in
  firstn (Z.to_nat (boutlen s)) (concat (map (le_bytes 4) (bh s))).

Definition blake2s_init_key (outlen : Z) (key : list Z) : blake2s_state :=
  let block := buf_set (zeros BLAKE2S_BLOCK_SIZE) 0 key in
  let s := blake2s_init_param (u32 (Z.lor (Z.lor 0x01010000 (Z.shiftl (len key) 8)) outlen)) in
  let s := BlakeState (bh s) (t0 s) (t1 s) (f0 s) (f1 s) (bbuf s) (bbuflen s) (u32 outlen) in
  blake2s_update s block.

Definition blake2s (inp key : list Z) (outlen : Z) : list Z :=
  let s := if negb (len key =? 0) then blake2s_init_key outlen key else blake2s_init outlen in
  blake2s_final (blake2s_update s inp).

Definition blake2s_hmac (inp key : list Z) (outlen : Z) : list Z :=
  let x_key := zeros BLAKE2S_BLOCK_SIZE in
  let x_key := if len key >? BLAKE2S_BLOCK_SIZE then buf_set x_key 0 (blake2s_final (blake2s_update (blake2s_init BLAKE2S_HASH_SIZE) key)) else buf_set x_key 0 key in
  let x_key := map (fun b => Z.lxor b 0x36) x_key in
  let i_hash := blake2s_final (blake2s_update (blake2s_update (blake2s_init BLAKE2S_HASH_SIZE) x_key) inp) in
  let x_key := map (fun b => Z.lxor b (Z.lxor 0x5c 0x36)) x_key in
  let i_hash := blake2s_final (blake2s_update (blake2s_update (blake2s_init BLAKE2S_HASH_SIZE) x_key) i_hash) in
  firstn (Z.to_nat outlen) i_hash.

(** ** RFC 7693 *)

(** Section 3.2: the compression of a block, with the offset counter [t] of 64
    bits and the flag of the last block. *)
Definition F (h block : list Z) (t : Z) (last : bool) : list Z :=
  compress_rounds h (t mod 2 ^ 32) (t / 2 ^ 32 mod 2 ^ 32) (if last then 2 ^ 32 - 1 else 0) 0 block.

(** Section 3.3: [n] blocks from the offset [t] on. *)
Fixpoint absorb_blocks (n : nat) (h : list Z) (t : Z) (l : list Z) : list Z :=
  match n with O => h | S n' => absorb_blocks n' (F h (firstn 64 l) (t + 64) false) (t + 64) (skipn 64 l) end.

(** The blocks of a message, of which the last may be partial but is empty only for
    the empty message. *)
Definition full_blocks (n : nat) : nat := ((n - 1) / 64)%nat.

Definition blake2s_spec (kk nn : Z) (data : list Z) : list Z :=
  let h := <[0%nat := Z.lxor (nth 0 blake2s_iv 0) (0x01010000 + kk * 256 + nn)]> blake2s_iv in
  let n := full_blocks (length data) in
  let last := skipn (64 * n) data in
  let h := F (absorb_blocks n h 0 data) (last ++ zeros (64 - len last)) (len data) true in
  firstn (Z.to_nat nn) (concat (map (le_bytes 4) h)).

(** The data of a keyed hash starts with the padded key. *)
Definition keyed (key msg : list Z) : list Z := if negb (len key =? 0) then key ++ zeros (64 - len key) ++ msg else msg.

Definition hmac_spec (H : list Z -> list Z) (key msg : list Z) : list Z :=
  let k := if 64 <? len key then H key else key in
  let k := k ++ zeros (64 - len k) in
  H (map (Z.lxor 0x5c) k ++ H (map (Z.lxor 0x36) k ++ msg)).

(** * Streaming *)

(** The two words of the counter. *)
Definition counter_is (s : blake2s_state) (t : Z) : Prop := t0 s = t mod 2 ^ 32 /\ t1 s = t / 2 ^ 32 mod 2 ^ 32.

Lemma increment_counter_spec s t inc : counter_is s t -> 0 <= t -> 0 <= inc <= 64 -> counter_is (blake2s_increment_counter s inc) (t + inc).
Proof.
  intros [E0 E1] Ht Hi. unfold counter_is, blake2s_increment_counter. cbn [t0 t1]. rewrite E0, E1. unfold u32. rewrite Zplus_mod_idemp_l. split; [done|].
  pose proof (Z.div_mod t (2 ^ 32) ltac:(lia)) as D. pose proof (Z.mod_pos_bound t (2 ^ 32) ltac:(lia)) as R. set (q := t / 2 ^ 32) in *. set (r := t mod 2 ^ 32) in *. clearbody q r.
  rewrite D, Zplus_mod_idemp_l. replace (2 ^ 32 * q + r + inc) with (r + inc + q * 2 ^ 32) by lia. rewrite Z_mod_plus_full, Z.div_add by lia.
  destruct (Z.lt_ge_cases (r + inc) (2 ^ 32)) as [L|L].
  - rewrite (Z.mod_small (r + inc)), (Z.div_small (r + inc)) by lia. destruct (Z.ltb_spec (r + inc) inc); [lia|]. f_equal. lia.
  - destruct (div_once (r + inc) 32) as [-> ->]; [lia|lia|]. destruct (Z.ltb_spec (r + inc - 2 ^ 32) inc); [|lia]. f_equal. lia.
Qed.

Lemma compress_prefix h a b c d block : compress_rounds h a b c d block = compress_rounds h a b c d (firstn 64 block).
Proof.
  unfold compress_rounds. assert (E : map (fun i => get_unaligned_le32 (4 * Z.of_nat i) block) (seq 0 16) = map (fun i => get_unaligned_le32 (4 * Z.of_nat i) (firstn 64 block)) (seq 0 16)); [|by rewrite E].
  apply map_ext_in. intros i Hi. apply in_seq in Hi. change (firstn 64 block) with (field 0 64 block). by rewrite le32_prefix by lia.
Qed.

#[local] Opaque compress_rounds.

(** Full blocks. *)
Lemma compress_blocks n : forall s t block, counter_is s t -> 0 <= t -> f0 s = 0 -> f1 s = 0 ->
  let s' := blake2s_compress s block n 64 in
  bh s' = absorb_blocks n (bh s) t block /\ counter_is s' (t + 64 * Z.of_nat n) /\ f0 s' = 0 /\ f1 s' = 0 /\ bbuf s' = bbuf s /\ bbuflen s' = bbuflen s /\ boutlen s' = boutlen s.
Proof.
  induction n as [|n IH]; intros s t block Hc Ht H0 H1; cbv zeta; cbn [blake2s_compress absorb_blocks]; [replace (t + 64 * Z.of_nat 0) with t by lia; ands; assumption || reflexivity|].
  pose proof (increment_counter_spec s t 64 Hc Ht ltac:(lia)) as Hc'. set (s1 := blake2s_increment_counter s 64) in *.
  destruct (IH (BlakeState (compress_rounds (bh s1) (t0 s1) (t1 s1) (f0 s1) (f1 s1) block) (t0 s1) (t1 s1) (f0 s1) (f1 s1) (bbuf s1) (bbuflen s1) (boutlen s1)) (t + 64) (skipn 64 block)) as (E & C & F0 & F1 & B & L & O);
    [exact Hc'|lia|done|done|]. cbn [bh t0 t1 f0 f1 bbuf bbuflen boutlen] in *. refine (conj _ (conj _ (conj F0 (conj F1 (conj B (conj L O)))))).
  - rewrite E. destruct Hc' as [-> ->]. unfold F. rewrite compress_prefix. change (f0 s1) with (f0 s). change (f1 s1) with (f1 s). rewrite H0, H1.
    change (bh s1) with (bh s). reflexivity.
  - replace (t + 64 * Z.of_nat (S n)) with (t + 64 + 64 * Z.of_nat n) by lia. done.
Qed.

Lemma absorb_blocks_app n k : forall h t a b, length a = (64 * n)%nat -> absorb_blocks (n + k) h t (a ++ b) = absorb_blocks k (absorb_blocks n h t a) (t + 64 * Z.of_nat n) b.
Proof.
  induction n as [|n IH]; intros h t a b Ha; [destruct a; [|cbn in Ha; lia]; cbn [Nat.add absorb_blocks app]; f_equal; lia|]. cbn [Nat.add absorb_blocks].
  rewrite take_app_le, drop_app_le by lia. rewrite IH by (rewrite length_drop; lia). f_equal. lia.
Qed.

(** The state after [msg]: full blocks are compressed and a part waits. *)
Definition blake_repr (h0 : list Z) (nn : Z) (s : blake2s_state) (msg : list Z) : Prop :=
  exists n full part, msg = full ++ part /\ length full = (64 * n)%nat /\ len part = bbuflen s /\ bbuflen s <= 64 /\
    length (bbuf s) = 64%nat /\ firstn (Z.to_nat (bbuflen s)) (bbuf s) = part /\ bh s = absorb_blocks n h0 0 full /\ counter_is s (64 * Z.of_nat n) /\
    f0 s = 0 /\ f1 s = 0 /\ boutlen s = nn.

(** Full blocks behind full blocks. *)
Lemma blocks_repr h0 nn s msg blocks k : blake_repr h0 nn s msg -> bbuflen s = 0 -> length blocks = (64 * k)%nat -> forall rest, blake_repr h0 nn (blake2s_compress s (blocks ++ rest) k 64) (msg ++ blocks).
Proof.
  intros (n & full & part & -> & Hf & Hp & Hle & Hd & Ht & Hh & Hc & H0 & H1 & Ho) Hz Hb rest. rewrite Hz in *. destruct part; [|rewrite len_cons in Hp; pose proof (len_nonneg part); lia]. rewrite app_nil_r.
  destruct (compress_blocks k s (64 * Z.of_nat n) (blocks ++ rest) Hc ltac:(lia) H0 H1) as (E & C & F0 & F1 & B & L & O).
  exists (n + k)%nat, (full ++ blocks), []. rewrite L, B, O, Hz, app_nil_r. ands; try done.
  - rewrite length_app. lia.
  - rewrite E, absorb_blocks_app, Hh by done. rewrite <- (Nat.add_0_r k) at 1. rewrite absorb_blocks_app by done. done.
  - by replace (64 * Z.of_nat (n + k)) with (64 * Z.of_nat n + 64 * Z.of_nat k) by lia.
Qed.

(** The rest goes into the buffer. *)
Lemma buffer_repr h0 nn s msg inp : blake_repr h0 nn s msg -> bbuflen s + len inp <= 64 -> blake_repr h0 nn (set_buf s (buf_set (bbuf s) (bbuflen s) inp) (bbuflen s + len inp)) (msg ++ inp).
Proof.
  intros (n & full & part & -> & Hf & Hp & Hle & Hd & Ht & Hh & Hc & H0 & H1 & Ho) Hl. pose proof (len_nonneg part). assert (Hd' : len (bbuf s) = 64) by (unfold len; lia).
  exists n, full, (part ++ inp). unfold set_buf. cbn [bh t0 t1 f0 f1 bbuf bbuflen boutlen]. rewrite <- app_assoc. ands; try done.
  - rewrite len_app. lia.
  - rewrite buf_set_length; lia.
  - rewrite buf_set_take, Ht by lia. done.
Qed.

(** A full buffer is compressed before more comes. *)
Lemma fill_repr h0 nn s msg inp : blake_repr h0 nn s msg -> let '(s', inp') := update_fill s inp in
  exists used, inp = used ++ inp' /\ blake_repr h0 nn s' (msg ++ used) /\ (used = [] /\ s' = s /\ bbuflen s + len inp <= 64 \/ bbuflen s' = 0 /\ inp' <> []).
Proof.
  intros R. pose proof R as (n & full & part & -> & Hf & Hp & Hle & Hd & Ht & Hh & Hc & H0 & H1 & Ho). unfold update_fill, BLAKE2S_BLOCK_SIZE. pose proof (len_nonneg part).
  assert (Hd' : len (bbuf s) = 64) by (unfold len; lia). destruct (Z.gtb_spec (len inp) (64 - bbuflen s)) as [L|L].
  - set (k := Z.to_nat (64 - bbuflen s)). assert (Hk : len (firstn k inp) = 64 - bbuflen s) by (unfold k; rewrite len_take; lia).
    exists (firstn k inp). rewrite take_drop. split; [done|]. split; [|right; split; [done|]; intros E; apply (f_equal length) in E; rewrite length_drop in E; unfold k, len in *; cbn [length] in E; lia].
    set (buf := buf_set (bbuf s) (bbuflen s) (firstn k inp)). assert (Eb : buf = part ++ firstn k inp) by (unfold buf; rewrite buf_set_full, Ht by lia; done).
    assert (Lb : length buf = 64%nat) by (unfold buf; rewrite buf_set_length by lia; done).
    assert (R0 : blake_repr h0 nn (set_buf s buf 0) full). { exists n, full, []. unfold set_buf. cbn [bh t0 t1 f0 f1 bbuf bbuflen boutlen]. rewrite app_nil_r. ands; try done. }
    pose proof (blocks_repr h0 nn (set_buf s buf 0) full buf 1 R0 eq_refl Lb []) as B. rewrite app_nil_r in B. rewrite <- app_assoc, <- Eb. exact B.
  - exists []. rewrite app_nil_r. split; [done|]. split; [done|]. left. ands; try done. lia.
Qed.

Lemma blake2s_update_repr h0 nn s msg inp : blake_repr h0 nn s msg -> blake_repr h0 nn (blake2s_update s inp) (msg ++ inp) /\ (bbuflen s <> 0 \/ inp <> [] -> bbuflen (blake2s_update s inp) <> 0).
Proof.
  intros R. unfold blake2s_update. pose proof (len_nonneg inp) as Hi. destruct (Z.eqb_spec (len inp) 0) as [E|E].
  { destruct inp; [|rewrite len_cons in E; pose proof (len_nonneg inp); lia]. rewrite app_nil_r. split; [done|]. by intros [?|?]. }
  pose proof (fill_repr h0 nn s msg inp R) as P. destruct (update_fill s inp) as [s1 inp1]. destruct P as (used & Eu & R1 & Hcase). pose proof (len_nonneg inp1) as Hi1. unfold update_blocks, BLAKE2S_BLOCK_SIZE.
  assert (B1 : 0 <= bbuflen s1) by (destruct R1 as (? & ? & part & ? & ? & Hp & _); pose proof (len_nonneg part); lia).
  destruct (Z.gtb_spec (len inp1) 64) as [L|L].
  - assert (Hz : bbuflen s1 = 0). { destruct Hcase as [(-> & -> & Hs)|[Hz _]]; [|done]. cbn [app] in Eu. subst inp1. lia. }
    change (64 - 1) with 63. set (k := (len inp1 + 63) / 64 - 1). assert (Hk : 0 <= k /\ 64 * k < len inp1 <= 64 * k + 64) by (unfold k; lia). clearbody k.
    pose proof (take_drop (Z.to_nat (64 * k)) inp1) as ED. assert (Lt : length (firstn (Z.to_nat (64 * k)) inp1) = (64 * Z.to_nat k)%nat) by (rewrite length_take; unfold len in *; lia).
    pose proof (blocks_repr h0 nn s1 (msg ++ used) _ (Z.to_nat k) R1 Hz Lt (skipn (Z.to_nat (64 * k)) inp1)) as R2. rewrite ED in R2. set (s2 := blake2s_compress s1 inp1 (Z.to_nat k) 64) in *.
    assert (Hz2 : bbuflen s2 = 0).
    { destruct R1 as (n & ? & ? & _ & _ & _ & _ & _ & _ & _ & Hc & H0 & H1 & _). destruct (compress_blocks (Z.to_nat k) s1 (64 * Z.of_nat n) inp1 Hc ltac:(lia) H0 H1) as (_ & _ & _ & _ & _ & E2 & _). unfold s2. by rewrite E2. }
    assert (Ld : len (skipn (Z.to_nat (64 * k)) inp1) = len inp1 - 64 * k) by (rewrite len_drop; lia).
    split; [|intros _; cbn [set_buf bbuflen]; lia].
    replace (msg ++ inp) with (((msg ++ used) ++ firstn (Z.to_nat (64 * k)) inp1) ++ skipn (Z.to_nat (64 * k)) inp1) by (rewrite Eu, <- !app_assoc, ED; done).
    apply buffer_repr; [done|lia].
  - split; [|intros _; cbn [set_buf bbuflen]; destruct Hcase as [(-> & -> & Hs)|[Hz Hn]]; [cbn [app] in Eu; subst inp1; lia|destruct inp1; [done|rewrite len_cons; pose proof (len_nonneg inp1); lia]]].
    rewrite Eu, app_assoc. apply buffer_repr; [done|]. destruct Hcase as [(-> & -> & Hs)|[Hz _]]; [cbn [app] in Eu; by subst inp1|lia].
Qed.

(** ** The hash *)

Lemma init_repr param nn : blake_repr (bh (blake2s_init_param param)) nn (BlakeState (bh (blake2s_init_param param)) 0 0 0 0 (zeros 64) 0 nn) [].
Proof. exists 0%nat, [], []. ands; try done. Qed.

Lemma blake_updates_repr h0 nn chunks : forall s msg, blake_repr h0 nn s msg -> (bbuflen s = 0 -> msg = []) ->
  let s' := fold_left blake2s_update chunks s in blake_repr h0 nn s' (msg ++ concat chunks) /\ (bbuflen s' = 0 -> msg ++ concat chunks = []).
Proof.
  induction chunks as [|c chunks IH]; intros s msg R Hz; cbv zeta; cbn [fold_left concat]; [by rewrite app_nil_r|]. destruct (blake2s_update_repr h0 nn s msg c R) as [R' N]. rewrite app_assoc. apply IH; [done|].
  intros E. destruct (decide (bbuflen s = 0)) as [Z|Z]; [|by destruct N; [left|]]. destruct c; [by rewrite Hz|by destruct N; [right|]].
Qed.

Lemma final_repr h0 nn s msg : blake_repr h0 nn s msg -> (bbuflen s = 0 -> msg = []) ->
  blake2s_final s = firstn (Z.to_nat nn) (concat (map (le_bytes 4)
    (let n := full_blocks (length msg) in let last := skipn (64 * n) msg in F (absorb_blocks n h0 0 msg) (last ++ zeros (64 - len last)) (len msg) true))).
Proof.
  intros (n & full & part & -> & Hf & Hp & Hle & Hd & Ht & Hh & Hc & H0 & H1 & Ho) Hz. pose proof (len_nonneg part) as Hp0. assert (Hd' : len (bbuf s) = 64) by (unfold len; lia).
  assert (Hn : full_blocks (length (full ++ part)) = n).
  { unfold full_blocks. rewrite length_app. destruct (Z.eq_dec (bbuflen s) 0) as [Z|Z]; [apply (f_equal length) in Hz; [|done]; rewrite length_app in Hz; cbn [length] in Hz; lia|unfold len in *; lia]. }
  cbv zeta. rewrite Hn. rewrite <- Hf at 1 2. rewrite drop_app_length. unfold blake2s_final, BLAKE2S_BLOCK_SIZE.
  change (bbuf (blake2s_set_lastblock s)) with (bbuf s). change (bbuflen (blake2s_set_lastblock s)) with (bbuflen s).
  rewrite buf_set_full by (rewrite ?len_zeros; lia). rewrite Ht, <- Hp. set (blk := part ++ zeros (64 - len part)). cbn [blake2s_compress]. set (s1 := set_buf (blake2s_set_lastblock s) blk (len part)).
  pose proof (increment_counter_spec s1 (64 * Z.of_nat n) (len part) Hc ltac:(lia) ltac:(lia)) as [C0 C1]. cbn [bh boutlen]. rewrite C0, C1. change (boutlen (blake2s_increment_counter s1 (len part))) with (boutlen s).
  change (bh (blake2s_increment_counter s1 (len part))) with (bh s). change (f0 (blake2s_increment_counter s1 (len part))) with (2 ^ 32 - 1). change (f1 (blake2s_increment_counter s1 (len part))) with (f1 s).
  rewrite Ho, H1, Hh. unfold F. replace (len (full ++ part)) with (64 * Z.of_nat n + len part) by (rewrite len_app; unfold len; lia).
  rewrite <- (Nat.add_0_r n) at 4. rewrite absorb_blocks_app by done. done.
Qed.

Lemma param_unkeyed nn : 0 <= nn <= 32 -> u32 (Z.lor 0x01010000 nn) = 0x01010000 + 0 * 256 + nn.
Proof. intros Hn. change 0x01010000 with (Z.shiftl 0x0101 16). rewrite Z.lor_comm, lor_shift by lia. change (Z.shiftl 0x0101 16) with 0x01010000. rewrite u32_small; lia. Qed.

Lemma param_keyed kk nn : 0 <= kk <= 32 -> 0 <= nn <= 32 -> u32 (Z.lor (Z.lor 0x01010000 (Z.shiftl kk 8)) nn) = 0x01010000 + kk * 256 + nn.
Proof.
  intros Hk Hn. change 0x01010000 with (Z.shiftl 0x0101 16) at 1. rewrite (Z.lor_comm (Z.shiftl _ 16)), lor_shift by (rewrite ?Z.shiftl_mul_pow2 by lia; lia).
  replace (Z.shiftl kk 8 + 257 * 2 ^ 16) with (Z.shiftl (kk + 257 * 2 ^ 8) 8) by (rewrite !Z.shiftl_mul_pow2 by lia; lia). rewrite Z.lor_comm, lor_shift by lia. rewrite u32_small; lia.
Qed.

Lemma hash_chunks nn chunks : 0 <= nn <= 32 -> blake2s_final (fold_left blake2s_update chunks (blake2s_init nn)) = blake2s_spec 0 nn (concat chunks).
Proof.
  intros Hn. unfold blake2s_init. rewrite param_unkeyed, (u32_small nn) by lia. set (param := 0x01010000 + 0 * 256 + nn).
  pose proof (init_repr param nn) as R. destruct (blake_updates_repr _ nn chunks _ [] R) as [R' Hz]; [done|]. cbn [app] in R', Hz.
  exact (final_repr _ _ _ _ R' Hz).
Qed.

Lemma key_block key : len key <= 64 -> buf_set (zeros 64) 0 key = key ++ zeros (64 - len key).
Proof. intros Hk. unfold buf_set, zeros. change (Z.to_nat 0) with 0%nat. rewrite take_0, drop_replicate. cbn [app Nat.add]. do 2 f_equal. unfold len in *. lia. Qed.

Lemma keyed_chunks key nn chunks : 0 < len key <= 32 -> 0 <= nn <= 32 ->
  blake2s_final (fold_left blake2s_update chunks (blake2s_init_key nn key)) = blake2s_spec (len key) nn (key ++ zeros (64 - len key) ++ concat chunks).
Proof.
  intros Hk Hn. unfold blake2s_init_key. cbv zeta. rewrite param_keyed, (u32_small nn) by lia. set (param := 0x01010000 + len key * 256 + nn). unfold BLAKE2S_BLOCK_SIZE. rewrite key_block by lia.
  set (block := key ++ zeros (64 - len key)). pose proof (init_repr param nn) as R. destruct (blake_updates_repr _ nn (block :: chunks) _ [] R) as [R' Hz]; [done|]. cbn [app concat fold_left] in R', Hz.
  rewrite app_assoc. fold block. exact (final_repr _ _ _ _ R' Hz).
Qed.

Lemma length_blake2s_spec kk data : length (blake2s_spec kk 32 data) = 32%nat.
Proof.
  unfold blake2s_spec. rewrite length_take. match goal with |- context [concat (map _ ?l)] => assert (E : length l = 8%nat) by done; revert E; generalize l end. intros l E.
  assert (C : length (concat (map (le_bytes 4) l)) = (4 * length l)%nat) by (clear E; induction l as [|x l IH]; cbn [map concat length]; [done|rewrite length_app, IH, length_le_bytes; lia]). rewrite C, E. done.
Qed.

Lemma hmac_chunks inp key nn : 0 <= nn <= 32 -> blake2s_hmac inp key nn = firstn (Z.to_nat nn) (hmac_spec (blake2s_spec 0 32) key inp).
Proof.
  intros Hn. unfold blake2s_hmac, BLAKE2S_HASH_SIZE. set (x_key := if len key >? BLAKE2S_BLOCK_SIZE then _ else _). set (k := if 64 <? len key then blake2s_spec 0 32 key else key).
  assert (Ek : x_key = k ++ zeros (64 - len k)).
  { unfold x_key, k, BLAKE2S_BLOCK_SIZE. rewrite Z.gtb_ltb. destruct (Z.ltb_spec 64 (len key)) as [L|L]; [|by apply key_block].
    pose proof (hash_chunks 32 [key] ltac:(lia)) as E. cbn [fold_left concat] in E. rewrite app_nil_r in E. rewrite E. apply key_block. unfold len. rewrite length_blake2s_spec. lia. }
  rewrite Ek. unfold hmac_spec. fold k. set (y := k ++ zeros (64 - len k)).
  assert (E1 : map (fun b => Z.lxor b 0x36) y = map (Z.lxor 0x36) y) by (apply map_ext; intros; apply Z.lxor_comm).
  assert (E2 : map (fun b => Z.lxor b (Z.lxor 0x5c 0x36)) (map (Z.lxor 0x36) y) = map (Z.lxor 0x5c) y).
  { rewrite map_map. apply map_ext. intros b. rewrite (Z.lxor_comm 0x36), Z.lxor_assoc. change (Z.lxor 0x36 (Z.lxor 0x5c 0x36)) with 0x5c. apply Z.lxor_comm. }
  rewrite E1, E2. pose proof (hash_chunks 32 [map (Z.lxor 0x36) y; inp] ltac:(lia)) as H1. cbn [fold_left concat] in H1. rewrite app_nil_r in H1. rewrite H1.
  pose proof (hash_chunks 32 [map (Z.lxor 0x5c) y; blake2s_spec 0 32 (map (Z.lxor 0x36) y ++ inp)] ltac:(lia)) as H2. cbn [fold_left concat] in H2. rewrite app_nil_r in H2. rewrite H2. done.
Qed.



(** The example of RFC 7693, appendix B. *)
Example blake2s_abc :
  blake2s [97; 98; 99] [] 32 =
  [0x50; 0x8C; 0x5E; 0x8C; 0x32; 0x7C; 0x14; 0xE2; 0xE1; 0xA7; 0x2B; 0xA3; 0x4E; 0xEB; 0x45; 0x2F;
   0x37; 0x45; 0x8B; 0x20; 0x9E; 0xD6; 0x3A; 0x29; 0x4D; 0x99; 0x9B; 0x4C; 0x86; 0x67; 0x59; 0x82].
Proof. vm_compute. reflexivity. Qed.
