(* ===== verification/Junk.v ===== *)
(** * Signature packets ([src/junk.c], [src/junk.h])

    The configuration strings I1..I5 describe packets by tags such as
    [<b 0xf6>], [<c>], [<r 16>] or [<qinit example.com>].  [jp_parse_tags]
    turns a string into tags, [jp_spec_setup] lays the tags out in one packet
    and keeps a modifier (a pointer into that packet) for each dynamic tag,
    [jp_spec_applymods] refreshes the dynamic parts before each use.

    Memory is explicit: the packet is the byte list of its allocation, a
    modifier holds an offset into it, and a store outside the allocation makes
    the whole operation [None].  Allocations take their outcome from a list of
    booleans, so the theorems cover every pattern of allocation failures. *)

From S2P Require Import Prelude Messages Buffer Imitate Sha256 Qinit.

(** ** Allocation *)

(** Computations that may allocate: the outcomes still to come are threaded;
    when the list is exhausted allocations succeed. *)
Definition alloc (A : Type) : Type := list bool -> A * list bool.

Definition kmalloc : alloc bool := fun a => match a with [] => (true, []) | b :: a' => (b, a') end.

(** A size that is negative as an [int] is a huge [size_t]: the request fails. *)
Definition kzalloc (size : Z) : alloc (option (list Z)) := fun a =>
  let '(ok, a) := kmalloc a in
  (if (ok : bool) && (0 <=? size) then Some (repeat 0 (Z.to_nat size)) else None, a).

(** ** Tags and modifiers *)

(** The modifier functions a [jp_modifier_func] pointer can refer to. *)
Inductive jp_modifier_func :=
| fn_pkt_counter | fn_unix_time | fn_random_byte
| fn_random_char | fn_random_digit
| fn_imitate_quic | fn_imitate_dns | fn_imitate_stun | fn_imitate_sip
| fn_qinit.

#[global] Instance jp_modifier_func_eq_dec : EqDecision jp_modifier_func.
Proof. solve_decision. Defined.

(** [struct jp_tag]; [NULL] pointers are [None]. *)
Record jp_tag := JpTag {
  tag_pkt : option (list Z); tag_func : option jp_modifier_func;
  tag_pkt_size : Z; tag_ctx : option (list Z)
}.

(** [struct jp_modifier]; [mod_buf] is the offset of [buf] in the packet. *)
Record jp_modifier := JpModifier {
  mod_func : jp_modifier_func; mod_buf : Z; mod_buf_len : Z; mod_ctx : option (list Z)
}.

(** [struct jp_spec]; [spec_mods] has [mods_size] entries. *)
Record jp_spec := JpSpec {
  spec_desc : option (list Z); spec_pkt : option (list Z);
  spec_mods : list jp_modifier; spec_pkt_size : Z
}.

Section Parse.

Context `{K : Kstrto}.

(** A tag allocated by [kzalloc] and added in front of the list. *)
Definition add_tag (t : jp_tag) (head : list jp_tag) : alloc (res (list jp_tag)) := fun a =>
  let '(ok, a) := kmalloc a in
  (if ok : bool then Ok (t :: head) else Err (- ENOMEM), a).

(** [for (i = len - 1; i >= 0; --i)]: digit pairs from the last to the first;
    each conversion sees two characters, a NUL having replaced the next pair. *)
Fixpoint b_loop (i : nat) (val pkt : list Z) : res (list Z) :=
  match i with
  | O => Ok pkt
  | S i' =>
      match kstrtou8_16 (firstn 2 (skipn (2 * i') val)) with
      | Ok b => b_loop i' val (b :: pkt)
      | Err _ => Err (- EINVAL)
      end
  end.

Definition parse_b_tag (val : option (list Z)) (head : list jp_tag) : alloc (res (list jp_tag)) := fun a =>
  match val with
  | None => (Err (- EINVAL), a)
  | Some val =>
      if negb (bool_decide (firstn 2 val = B "0x")) then (Err (- EINVAL), a)
      else
        let val := skipn 2 val in
        let n := len val in
        if (n =? 0) || negb (n mod 2 =? 0) then (Err (- EINVAL), a)
        else
          let n := n / 2 in
          let '(ok, a) := kmalloc a in
          if negb (ok : bool) then (Err (- ENOMEM), a)
          else
            match b_loop (Z.to_nat n) val [] with
            | Err e => (Err e, a)
            | Ok pkt => add_tag (JpTag (Some pkt) None n None) head a
            end
  end.

(** [parse_c_tag] and [parse_t_tag]: a 32-bit field, no value allowed. *)
Definition parse_field_tag (func : jp_modifier_func) (val : option (list Z)) (head : list jp_tag)
  : alloc (res (list jp_tag)) := fun a =>
  match val with
  | Some _ => (Err (- EINVAL), a)
  | None => add_tag (JpTag None (Some func) 4 None) head a
  end.

Definition parse_c_tag := parse_field_tag fn_pkt_counter.
Definition parse_t_tag := parse_field_tag fn_unix_time.

(** [parse_imitate_tag], also the body of [parse_r_tag], [parse_rc_tag] and
    [parse_rd_tag]: the value is the size. *)
Definition parse_imitate_tag (val : option (list Z)) (head : list jp_tag) (func : jp_modifier_func)
  : alloc (res (list jp_tag)) := fun a =>
  match val with
  | None => (Err (- EINVAL), a)
  | Some val =>
      match kstrtoint10 val with
      | Err _ => (Err (- EINVAL), a)
      | Ok n => add_tag (JpTag None (Some func) n None) head a
      end
  end.

Definition parse_r_tag val head := parse_imitate_tag val head fn_random_byte.
Definition parse_rc_tag val head := parse_imitate_tag val head fn_random_char.
Definition parse_rd_tag val head := parse_imitate_tag val head fn_random_digit.

(** [while ( *val == ' ') val++] and the loop that cuts trailing blanks. *)
Fixpoint trim_left (s : list Z) : list Z :=
  match s with
  | c :: s' => if c =? 32 then trim_left s' else s
  | [] => []
  end.

Definition trim (s : list Z) : list Z := rev (trim_left (rev (trim_left s))).

Definition parse_qinit_tag (val : option (list Z)) (head : list jp_tag) : alloc (res (list jp_tag)) := fun a =>
  match val with
  | None => (Err (- EINVAL), a)
  | Some val =>
      let val := trim val in
      if (len val =? 0) || (len val >? 255) then (Err (- EINVAL), a)
      else
        let '(ok, a) := kmalloc a in
        if negb (ok : bool) then (Err (- ENOMEM), a)
        else
          let '(ok, a) := kmalloc a in                    (* kstrdup(val) *)
          if negb (ok : bool) then (Err (- ENOMEM), a)
          else (Ok (JpTag None (Some fn_qinit) QINIT_DATAGRAM_LEN (Some val) :: head), a)
  end.

(** The dispatch on the tag's key. *)
Definition parse_tag (key : list Z) (val : option (list Z)) (head : list jp_tag)
  : alloc (res (list jp_tag)) := fun a =>
  if bool_decide (key = B "b") then parse_b_tag val head a
  else if bool_decide (key = B "c") then parse_c_tag val head a
  else if bool_decide (key = B "t") then parse_t_tag val head a
  else if bool_decide (key = B "r") then parse_r_tag val head a
  else if bool_decide (key = B "rc") then parse_rc_tag val head a
  else if bool_decide (key = B "rd") then parse_rd_tag val head a
  else if bool_decide (key = B "q") then parse_imitate_tag val head fn_imitate_quic a
  else if bool_decide (key = B "dns") then parse_imitate_tag val head fn_imitate_dns a
  else if bool_decide (key = B "stun") then parse_imitate_tag val head fn_imitate_stun a
  else if bool_decide (key = B "sip") then parse_imitate_tag val head fn_imitate_sip a
  else if bool_decide (key = B "qinit") then parse_qinit_tag val head a
  else (Err (- EINVAL), a).

(** The [while (true)] loop; [None] when the fuel is spent. *)
Fixpoint parse_loop (fuel : nat) (str : option (list Z)) (head : list jp_tag)
  : list bool -> option (res (list jp_tag) * list bool) := fun a =>
  match fuel with
  | O => None
  | S f =>
      let '(_, str) := strsep 60 str in                   (* '<' *)
      match strsep 62 str with                            (* '>' *)
      | (None, _) => Some (Ok head, a)
      | (Some val, str) =>
          let val := trim val in
          let '(key, val) := strsep 32 (Some val) in      (* ' ' *)
          match parse_tag (default [] key) val head a with
          | (Err e, a) => Some (Err e, a)
          | (Ok head, a) => parse_loop f str head a
          end
      end
  end.

(** [jp_parse_tags(str, head)] on an empty list.  Every round that continues
    consumes the character ['<'], so the fuel suffices ([parse_loop_total]). *)
Definition jp_parse_tags (str : list Z) : list bool -> option (res (list jp_tag) * list bool) :=
  parse_loop (S (length str)) (Some str) [].

(** ** Layout *)

(** [list_for_each_entry]: total size (in [int] arithmetic), number of tags
    with a modifier, number of tags, number of [qinit] tags. *)
Definition count_tag (acc : Z * Z * Z * Z) (t : jp_tag) : Z * Z * Z * Z :=
  let '(pkt_size, mods_size, ntags, nqinit) := acc in
  (s32 (pkt_size + tag_pkt_size t),
   (if decide (tag_func t = None) then mods_size else mods_size + 1),
   ntags + 1,
   (if decide (tag_func t = Some fn_qinit) then nqinit + 1 else nqinit)).

Definition count_tags (head : list jp_tag) : Z * Z * Z * Z := fold_left count_tag head (0, 0, 0, 0).

(** One round of [list_for_each_entry_reverse]: [Err] when the copy of the
    context cannot be allocated, [None] on a store outside the packet. *)
Definition layout_tag (t : jp_tag) (spec : jp_spec) (a : list bool)
  : option (res jp_spec * jp_spec * list bool) :=
  let off := spec_pkt_size spec in
  match (match tag_pkt t, spec_pkt spec with
         | Some bytes, Some pkt => Some <$> put off bytes pkt
         | _, p => Some p
         end) with
  | None => None
  | Some pkt =>
      let spec := JpSpec (spec_desc spec) pkt (spec_mods spec) off in
      match tag_func t with
      | None => Some (Ok (JpSpec (spec_desc spec) pkt (spec_mods spec) (s32 (off + tag_pkt_size t))), spec, a)
      | Some func =>
          let '(ok, a) := match tag_ctx t with Some _ => kmalloc a | None => (true, a) end in
          if (ok : bool) then
            Some (Ok (JpSpec (spec_desc spec) pkt
                        (spec_mods spec ++ [JpModifier func off (tag_pkt_size t) (tag_ctx t)])
                        (s32 (off + tag_pkt_size t))), spec, a)
          else Some (Err (- ENOMEM), spec, a)
      end
  end.

Fixpoint layout_loop (tags : list jp_tag) (spec : jp_spec) (a : list bool)
  : option (Z * jp_spec * list bool) :=
  match tags with
  | [] => Some (0, spec, a)
  | t :: tags' =>
      match layout_tag t spec a with
      | None => None
      | Some (Ok spec', _, a) => layout_loop tags' spec' a
      | Some (Err e, spec, a) => Some (e, spec, a)
      end
  end.

(** [jp_spec_setup(spec)]: the return value and the specification afterwards;
    [None] if a store went outside the packet. *)
Definition jp_spec_setup (spec : jp_spec) (a : list bool) : option (Z * jp_spec * list bool) :=
  let spec := JpSpec (spec_desc spec) None [] 0 in
  match spec_desc spec with
  | None => Some (0, spec, a)
  | Some desc =>
      let '(ok, a) := kmalloc a in                        (* kstrdup(desc) *)
      if negb (ok : bool) then Some (- ENOMEM, spec, a)
      else
        match jp_parse_tags desc a with
        | None => None
        | Some (Err e, a) => Some (e, spec, a)
        | Some (Ok head, a) =>
            let '(pkt_size, mods_size, ntags, nqinit) := count_tags head in
            if negb (nqinit =? 0) && negb (ntags =? 1) then Some (- EINVAL, spec, a)
            else if pkt_size >? MESSAGE_MAX_SIZE then Some (- EINVAL, spec, a)
            else
              let '(pkt, a) := kzalloc pkt_size a in
              let '(mods, a) := kmalloc a in
              let spec := JpSpec (Some desc) pkt [] 0 in
              if bool_decide (pkt = None) || negb mods then Some (- ENOMEM, spec, a)
              else layout_loop (rev head) spec a
        end
  end.

End Parse.

(** [jp_spec_free(spec)] *)
Definition jp_spec_free (spec : jp_spec) : jp_spec := JpSpec None None [] 0.

(** ** Modifiers *)

(** What the kernel delivers while one modifier runs: the peer's packet
    counter, the wall clock, random bytes, a sequence of random words, and the
    random source handed to [qinit_build]. *)
Record mod_env := ModEnv {
  env_counter : Z; env_seconds : Z; env_bytes : Z -> list Z; env_u32 : nat -> Z;
  env_qinit : nat -> Z -> list Z * nat
}.

(** The writer [w] on the memory from offset [off] on. *)
Definition at_off (off : Z) (w : writer) : writer := fun m =>
  if (0 <=? off) && (off <=? len m) then
    (fun m' => firstn (Z.to_nat off) m ++ m') <$> w (skipn (Z.to_nat off) m)
  else None.

Definition rand_letter (x : Z) : Z :=
  let byte := x mod 52 in if byte <? 26 then 97 + byte else 65 + byte - 26.

Definition rand_digit (x : Z) : Z := 48 + x mod 10.

Definition oob : writer := fun _ => None.

(** The modifier functions, on the memory at [buf]. *)
Definition pkt_counter_modifier (env : mod_env) : writer := put 0 (be32 (u32 (env_counter env))).

Definition unix_time_modifier (env : mod_env) : writer := put 0 (be32 (u32 (env_seconds env))).

Definition random_byte_modifier (env : mod_env) (n : Z) : writer :=
  if n <? 0 then oob else put 0 (env_bytes env n).

Definition random_char_modifier (env : mod_env) (n : Z) : writer :=
  put 0 (map (fun i => rand_letter (env_u32 env i)) (seq 0 (Z.to_nat n))).

Definition random_digit_modifier (env : mod_env) (n : Z) : writer :=
  put 0 (map (fun i => rand_digit (env_u32 env i)) (seq 0 (Z.to_nat n))).

(** The four [imitate_*_modifier] functions. *)
Definition imitate_modifier (env : mod_env) (n : Z) (p : imitate_proto) : writer :=
  imitate_fill_whole n (imitate_junk_seed (u32 (env_counter env))) p.

Definition qinit_modifier (env : mod_env) (ctx : option (list Z)) : writer :=
  match ctx with
  | None => oob
  | Some sni =>
      match qinit_build (env_qinit env) sni O with
      | Some (Ok dg, _) => put 0 dg
      | Some (Err _, _) => wskip
      | None => oob
      end
  end.

(** [mod->func(mod->buf, mod->buf_len, peer, mod->ctx)] *)
Definition run_modifier (env : mod_env) (func : jp_modifier_func) (n : Z) (ctx : option (list Z)) : writer :=
  match func with
  | fn_pkt_counter => pkt_counter_modifier env
  | fn_unix_time => unix_time_modifier env
  | fn_random_byte => random_byte_modifier env n
  | fn_random_char => random_char_modifier env n
  | fn_random_digit => random_digit_modifier env n
  | fn_imitate_quic => imitate_modifier env n IMITATE_QUIC
  | fn_imitate_dns => imitate_modifier env n IMITATE_DNS
  | fn_imitate_stun => imitate_modifier env n IMITATE_STUN
  | fn_imitate_sip => imitate_modifier env n IMITATE_SIP
  | fn_qinit => qinit_modifier env ctx
  end.

(** The loop of [jp_spec_applymods]; the [i]-th modifier runs in [envs i]. *)
Fixpoint apply_loop (envs : nat -> mod_env) (i : nat) (mods : list jp_modifier) : writer :=
  match mods with
  | [] => wskip
  | md :: mods' =>
      at_off (mod_buf md) (run_modifier (envs i) (mod_func md) (mod_buf_len md) (mod_ctx md)) ;;
      apply_loop envs (S i) mods'
  end.

Definition jp_spec_applymods (envs : nat -> mod_env) (spec : jp_spec) : option jp_spec :=
  match spec_pkt spec with
  | None => if decide (spec_mods spec = []) then Some spec else None
  | Some pkt =>
      (fun pkt => JpSpec (spec_desc spec) (Some pkt) (spec_mods spec) (spec_pkt_size spec)) <$>
        apply_loop envs 0 (spec_mods spec) pkt
  end.

(** ** Parsing *)

(** What the parser guarantees of a tag: a literal with its bytes, or a
    modifier with the size and context it needs. *)
Definition tag_ok (t : jp_tag) : Prop :=
  match tag_pkt t, tag_func t with
  | Some bytes, None => len bytes = tag_pkt_size t /\ all_bytes bytes
  | None, Some func =>
      match func with
      | fn_pkt_counter | fn_unix_time => tag_pkt_size t = 4
      | fn_qinit =>
          tag_pkt_size t = 1200 /\ exists sni, tag_ctx t = Some sni /\ 0 < len sni <= 255 /\ all_bytes sni
      | _ => - 2 ^ 31 <= tag_pkt_size t < 2 ^ 31
      end
  | _, _ => False
  end.

Section ParseFacts.

Context `{KL : KstrtoLaws}.

Lemma strsep_length c s tok rest : strsep c s = (Some tok, Some rest) ->
  exists s', s = Some s' /\ (length tok + length rest < length s')%nat.
Proof.
  destruct s as [s|]; [|done]. cbn. revert tok rest.
  induction s as [|x s IH]; intros tok rest; cbn; [done|].
  destruct (x =? c); [intros; simplify_eq; eexists; split; [done|]; cbn; lia|].
  destruct (split_at_char c s) as [tok' rest'] eqn:E. intros. simplify_eq.
  destruct (IH tok' rest) as (s' & ? & ?); [done|]. simplify_eq. eexists. split; [done|]. cbn. lia.
Qed.

(** The fuel of [jp_parse_tags] is enough: every string is parsed. *)
Lemma parse_loop_total f str head a :
  (match str with Some s => length s < f | None => 0 < f end)%nat ->
  exists r a', parse_loop f str head a = Some (r, a').
Proof.
  revert str head a. induction f as [|f IH]; intros str head a Hf; [destruct str; lia|].
  cbn [parse_loop]. destruct (strsep 60 str) as [t1 s1] eqn:E1.
  destruct (strsep 62 s1) as [[val|] s2] eqn:E2; [|by eauto].
  destruct (strsep 32 (Some (trim val))) as [key v].
  destruct (parse_tag (default [] key) v head a) as [[head'|e] a']; [|by eauto].
  apply IH. destruct s1 as [s1|]; [|done].
  assert (exists tok, strsep 60 str = (Some tok, Some s1)) as [tok E1'].
  { destruct str as [s|]; cbn in E1; [|done]. destruct (split_at_char 60 s) eqn:E. simplify_eq. cbn. rewrite E. eauto. }
  apply strsep_length in E1' as (s & -> & Hl1).
  destruct s2 as [s2|]; [|lia]. apply strsep_length in E2 as (? & ? & Hl2). simplify_eq. lia.
Qed.

Lemma b_loop_length i val pkt r : b_loop i val pkt = Ok r -> all_bytes pkt ->
  len r = Z.of_nat i + len pkt /\ all_bytes r.
Proof.
  revert pkt. induction i as [|i IH]; intros pkt; cbn [b_loop].
  { intros [= <-] ?. split; [lia|done]. }
  destruct (kstrtou8_16 _) as [b|] eqn:E; [|done]. intros H Hp.
  apply kstrtou8_16_range in E. apply IH in H as [-> ?]; [|by constructor].
  rewrite len_cons. split; [lia|done].
Qed.

Lemma add_tag_ok t head a r a' : tag_ok t -> Forall tag_ok head ->
  add_tag t head a = (Ok r, a') -> Forall tag_ok r.
Proof. unfold add_tag. intros. destruct (kmalloc a) as [[] ?]; simplify_eq. by constructor. Qed.

Lemma parse_imitate_tag_ok val head func a r a' : Forall tag_ok head ->
  func <> fn_pkt_counter -> func <> fn_unix_time -> func <> fn_qinit ->
  parse_imitate_tag val head func a = (Ok r, a') -> Forall tag_ok r.
Proof.
  unfold parse_imitate_tag. intros Hh ? ? ? E. destruct val as [val|]; [|done].
  destruct (kstrtoint10 val) as [n|] eqn:En; [|done]. apply kstrtoint10_range in En.
  eapply add_tag_ok; [|done..]. by destruct func.
Qed.

Lemma trim_left_bytes s : all_bytes s -> all_bytes (trim_left s).
Proof. induction 1; cbn; [constructor|]. case_match; [done|by constructor]. Qed.

Lemma trim_bytes s : all_bytes s -> all_bytes (trim s).
Proof. intros. unfold trim. by apply Forall_rev, trim_left_bytes, Forall_rev, trim_left_bytes. Qed.

Lemma parse_tag_ok key val head a r a' : Forall tag_ok head -> (forall v, val = Some v -> all_bytes v) ->
  parse_tag key val head a = (Ok r, a') -> Forall tag_ok r.
Proof.
  intros Hh Hv. unfold parse_tag, parse_r_tag, parse_rc_tag, parse_rd_tag.
  repeat (case_bool_decide; [try (by apply parse_imitate_tag_ok)|]); [..|done].
  - unfold parse_b_tag. intros E. destruct val as [val|]; [|done].
    case_bool_decide; cbn [negb] in E; [|done]. case_match; [done|].
    destruct (kmalloc a) as [[] a1]; cbn [negb] in E; [|done].
    destruct (b_loop _ _ _) as [pkt|] eqn:Eb; [|done]. apply b_loop_length in Eb as [Hl Hb]; [|constructor].
    eapply add_tag_ok; [|done..]. cbn. split; [|done]. rewrite Hl, len_nil.
    pose proof (len_nonneg (skipn 2 val)). lia.
  - unfold parse_c_tag, parse_field_tag. destruct val; [done|]. by apply add_tag_ok.
  - unfold parse_t_tag, parse_field_tag. destruct val; [done|]. by apply add_tag_ok.
  - unfold parse_qinit_tag. destruct val as [val|]; [|done]. specialize (Hv val eq_refl).
    apply trim_bytes in Hv. pose proof (len_nonneg (trim val)).
    destruct (Z.eqb_spec (len (trim val)) 0); [done|]. destruct (Z.gtb_spec (len (trim val)) 255); [done|]. cbn [orb].
    destruct (kmalloc a) as [[] a1]; [|done]. destruct (kmalloc a1) as [[] a2]; cbn; [|done].
    intros. simplify_eq. constructor; [|done]. cbn. split; [done|]. exists (trim val). split; [done|]. split; [lia|done].
Qed.

Lemma split_at_char_bytes c s : all_bytes s ->
  all_bytes (fst (split_at_char c s)) /\ forall r, snd (split_at_char c s) = Some r -> all_bytes r.
Proof.
  induction 1 as [|x s Hx Hs IH]; cbn; [split; [constructor|done]|].
  destruct (x =? c); cbn [fst snd]; [split; [constructor|by intros; simplify_eq]|].
  destruct (split_at_char c s) as [tok rest]. cbn [fst snd] in *. destruct IH. split; [by constructor|done].
Qed.

Definition opt_bytes (s : option (list Z)) : Prop := forall v, s = Some v -> all_bytes v.

Lemma strsep_bytes c s : opt_bytes s -> opt_bytes (fst (strsep c s)) /\ opt_bytes (snd (strsep c s)).
Proof.
  intros H. destruct s as [s|]; cbn; [|by split].
  destruct (split_at_char_bytes c s (H s eq_refl)) as [H1 H2].
  destruct (split_at_char c s). cbn in *. split; [by intros v [= <-]|done].
Qed.

Lemma parse_loop_ok f str head a r a' : opt_bytes str -> Forall tag_ok head ->
  parse_loop f str head a = Some (Ok r, a') -> Forall tag_ok r.
Proof.
  revert str head a. induction f as [|f IH]; intros str head a Hs Hh; cbn [parse_loop]; [done|].
  destruct (strsep_bytes 60 str Hs) as [_ H1]. destruct (strsep 60 str) as [t1 s1]. cbn [snd] in H1.
  destruct (strsep_bytes 62 s1 H1) as [Hval H2]. destruct (strsep 62 s1) as [[val|] s2]; [|by intros; simplify_eq].
  cbn [fst snd] in *. assert (opt_bytes (Some (trim val))) as Ht by (intros v [= <-]; apply trim_bytes; auto).
  destruct (strsep_bytes 32 _ Ht) as [_ H3]. destruct (strsep 32 (Some (trim val))) as [key v]. cbn [snd] in H3.
  destruct (parse_tag (default [] key) v head a) as [[head'|e] a1] eqn:E; [|done].
  apply parse_tag_ok in E; [|done..]. by apply IH.
Qed.

Lemma jp_parse_tags_ok desc a r a' : all_bytes desc -> jp_parse_tags desc a = Some (Ok r, a') -> Forall tag_ok r.
Proof. intros Hd. apply parse_loop_ok; [by intros v [= <-]|constructor]. Qed.

End ParseFacts.

(** ** Layout *)

(** The sizes of a tag list, and the packet they make. *)
Definition tags_size (ts : list jp_tag) : Z := fold_right (fun t acc => tag_pkt_size t + acc) 0 ts.

(** Sizes that a packet can have. *)
Definition sizes_ok (ts : list jp_tag) : Prop :=
  Forall (fun t => 0 <= tag_pkt_size t) ts /\ tags_size ts < 2 ^ 31.

Definition tag_static (t : jp_tag) : list Z :=
  match tag_pkt t with Some bytes => bytes | None => repeat 0 (Z.to_nat (tag_pkt_size t)) end.

(** The modifiers of consecutive tags from offset [off] on. *)
Fixpoint tag_mods (off : Z) (ts : list jp_tag) : list jp_modifier :=
  match ts with
  | [] => []
  | t :: ts' =>
      match tag_func t with
      | Some func => JpModifier func off (tag_pkt_size t) (tag_ctx t) :: tag_mods (off + tag_pkt_size t) ts'
      | None => tag_mods (off + tag_pkt_size t) ts'
      end
  end.

Lemma tags_size_nonneg ts : Forall (fun t => 0 <= tag_pkt_size t) ts -> 0 <= tags_size ts.
Proof. unfold tags_size. induction 1; cbn in *; lia. Qed.

Lemma tags_size_app ts us : tags_size (ts ++ us) = tags_size ts + tags_size us.
Proof. unfold tags_size. induction ts; cbn in *; lia. Qed.

Lemma tags_size_rev ts : tags_size (rev ts) = tags_size ts.
Proof. induction ts; [done|]. cbn [rev]. rewrite tags_size_app, IHts. unfold tags_size. cbn. lia. Qed.

Lemma sizes_ok_rev ts : sizes_ok ts -> sizes_ok (rev ts).
Proof. intros [? ?]. split; [by apply Forall_rev|by rewrite tags_size_rev]. Qed.

Lemma tag_static_len t : tag_ok t -> 0 <= tag_pkt_size t -> len (tag_static t) = tag_pkt_size t.
Proof.
  unfold tag_ok, tag_static. destruct (tag_pkt t); [destruct (tag_func t); [done|by intros [? ?]]|].
  intros. rewrite len_repeat. lia.
Qed.

Lemma s32_small z : - 2 ^ 31 <= z < 2 ^ 31 -> s32 z = z.
Proof. intros. unfold s32. rewrite Z.mod_small by lia. lia. Qed.

(** The number of tags with a property. *)
Definition count_where (P : jp_tag -> Prop) `{!forall t, Decision (P t)} (ts : list jp_tag) : Z :=
  Z.of_nat (length (filter P ts)).

Lemma count_tags_acc ts p m n q : 0 <= p -> Forall (fun t => 0 <= tag_pkt_size t) ts -> p + tags_size ts < 2 ^ 31 ->
  fold_left count_tag ts (p, m, n, q) =
  (p + tags_size ts, m + count_where (fun t => tag_func t <> None) ts, n + len ts,
   q + count_where (fun t => tag_func t = Some fn_qinit) ts).
Proof.
  revert p m n q. induction ts as [|t ts IH]; intros p m n q Hp Hts Hlt.
  { unfold len. cbn. by rewrite !Z.add_0_r. }
  apply Forall_cons_1 in Hts as [Ht Hts]. pose proof (tags_size_nonneg ts Hts).
  change (tags_size (t :: ts)) with (tag_pkt_size t + tags_size ts) in *.
  cbn [fold_left count_tag]. rewrite s32_small, IH by (done || lia). unfold count_where.
  rewrite !filter_cons, len_cons.
  apply f_equal2; [apply f_equal2; [apply f_equal2; [lia|]|lia]|].
  all: repeat case_decide; cbn [length]; (congruence || lia).
Qed.

Lemma count_tags_spec ts : sizes_ok ts ->
  count_tags ts = (tags_size ts, count_where (fun t => tag_func t <> None) ts, len ts,
                   count_where (fun t => tag_func t = Some fn_qinit) ts).
Proof. intros [? ?]. unfold count_tags. rewrite count_tags_acc by (done || lia). done. Qed.

Lemma repeat_split n k : 0 <= k <= n ->
  repeat 0 (Z.to_nat n) = repeat 0 (Z.to_nat k) ++ repeat 0 (Z.to_nat (n - k)).
Proof. intros. rewrite <- repeat_app. f_equal. lia. Qed.

(** One round: the tag's static bytes replace the zeros at its place. *)
Lemma layout_tag_spec t d pre rest mods a : tag_ok t -> 0 <= tag_pkt_size t -> len pre + tag_pkt_size t < 2 ^ 31 ->
  exists a',
    layout_tag t (JpSpec d (Some (pre ++ repeat 0 (Z.to_nat (tag_pkt_size t)) ++ rest)) mods (len pre)) a =
      Some (Ok (JpSpec d (Some (pre ++ tag_static t ++ rest)) (mods ++ tag_mods (len pre) [t])
                  (len pre + tag_pkt_size t)),
            JpSpec d (Some (pre ++ tag_static t ++ rest)) mods (len pre), a') \/
    layout_tag t (JpSpec d (Some (pre ++ repeat 0 (Z.to_nat (tag_pkt_size t)) ++ rest)) mods (len pre)) a =
      Some (Err (- ENOMEM), JpSpec d (Some (pre ++ tag_static t ++ rest)) mods (len pre), a').
Proof.
  intros Ht Hs Hlt. pose proof (len_nonneg pre). unfold layout_tag, tag_static. cbn [spec_pkt spec_pkt_size spec_desc spec_mods].
  unfold tag_ok in Ht. cbn [tag_mods]. rewrite s32_small by lia.
  destruct (tag_pkt t) as [bytes|].
  - destruct (tag_func t); [done|]. destruct Ht as [Hl Hb]. exists a. left.
    rewrite (fills_put_bytes (len pre) bytes Hb pre (repeat 0 _) rest);
      [|done|rewrite repeat_length; unfold len in *; lia].
    cbn. by rewrite app_nil_r.
  - destruct (tag_func t) as [func|]; [|done]. destruct (tag_ctx t) as [ctx|].
    + destruct (kmalloc a) as [[] a']; exists a'; [by left|by right].
    + exists a. by left.
Qed.

Lemma layout_loop_spec ts d pre mods a : Forall tag_ok ts -> Forall (fun t => 0 <= tag_pkt_size t) ts ->
  len pre + tags_size ts < 2 ^ 31 ->
  exists r spec' a',
    layout_loop ts (JpSpec d (Some (pre ++ repeat 0 (Z.to_nat (tags_size ts)))) mods (len pre)) a =
      Some (r, spec', a') /\
    ((r = 0 /\ spec' = JpSpec d (Some (pre ++ concat (map tag_static ts))) (mods ++ tag_mods (len pre) ts)
                         (len pre + tags_size ts)) \/
     (r = - ENOMEM /\ exists ts1 ts2 p, ts = ts1 ++ ts2 /\ len p = len pre + tags_size ts /\
        spec' = JpSpec d (Some p) (mods ++ tag_mods (len pre) ts1) (len pre + tags_size ts1))).
Proof.
  intros Hok Hsz. revert pre mods a. induction Hok as [|t ts Ht Hts IH]; intros pre mods a Hlt.
  { cbn. eexists _, _, _. split; [reflexivity|]. left. by rewrite !app_nil_r, Z.add_0_r. }
  apply Forall_cons_1 in Hsz as [Hs Hsz]. pose proof (tags_size_nonneg ts Hsz).
  change (tags_size (t :: ts)) with (tag_pkt_size t + tags_size ts) in *.
  rewrite (repeat_split _ (tag_pkt_size t)), Z.add_simpl_l by lia. cbn [layout_loop].
  pose proof (tag_static_len t Ht Hs) as Hl.
  destruct (layout_tag_spec t d pre (repeat 0 (Z.to_nat (tags_size ts))) mods a Ht Hs ltac:(lia)) as [a1 [-> | ->]].
  - replace (len pre + tag_pkt_size t) with (len (pre ++ tag_static t)) by (rewrite len_app; lia).
    rewrite app_assoc.
    destruct (IH Hsz (pre ++ tag_static t) (mods ++ tag_mods (len pre) [t]) a1) as (r & s' & a' & E & Hr);
      [rewrite len_app; lia|].
    assert (forall us, tag_mods (len pre) (t :: us) = tag_mods (len pre) [t] ++ tag_mods (len (pre ++ tag_static t)) us) as Hm.
    { intros us. rewrite len_app, Hl. cbn. by destruct (tag_func t). }
    rewrite E. eexists _, _, _. split; [reflexivity|]. destruct Hr as [[-> ->] | (-> & ts1 & ts2 & p & -> & Hp & ->)].
    + left. split; [done|]. rewrite (Hm ts). cbn [map concat]. rewrite <- !app_assoc, len_app. f_equal. lia.
    + right. split; [done|]. exists (t :: ts1), ts2, p. split; [done|]. rewrite (Hm ts1), <- app_assoc.
      rewrite len_app in *. split; [lia|]. f_equal.
      change (tags_size (t :: ts1)) with (tag_pkt_size t + tags_size ts1). lia.
  - eexists _, _, _. split; [reflexivity|]. right. split; [done|].
    exists [], (t :: ts), (pre ++ tag_static t ++ repeat 0 (Z.to_nat (tags_size ts))). split; [done|].
    split; [rewrite !len_app, len_repeat; lia|]. cbn. by rewrite app_nil_r, Z.add_0_r.
Qed.

(** ** Modifiers *)

(** What the kernel's sources deliver. *)
Definition env_ok (env : mod_env) : Prop :=
  (forall n, 0 <= n -> len (env_bytes env n) = n) /\ source_ok (env_qinit env).

(** A modifier inside a packet of [n] bytes, with the size its function writes. *)
Definition mod_fits (n : Z) (md : jp_modifier) : Prop :=
  0 <= mod_buf md /\ 0 <= mod_buf_len md /\ mod_buf md + mod_buf_len md <= n /\
  tag_ok (JpTag None (Some (mod_func md)) (mod_buf_len md) (mod_ctx md)).

Lemma fillsn_put_n off n src : len src = n -> fillsn off n (put off src).
Proof. intros <-. apply fillsn_put. Qed.

(** Every modifier overwrites exactly the bytes of its tag. *)
Lemma run_modifier_fills env func n ctx : env_ok env -> 0 <= n ->
  tag_ok (JpTag None (Some func) n ctx) -> fillsn 0 n (run_modifier env func n ctx).
Proof.
  intros [Hb Hq] Hn Ht. cbn in Ht. unfold run_modifier, pkt_counter_modifier, unix_time_modifier,
    random_byte_modifier, random_char_modifier, random_digit_modifier, imitate_modifier, qinit_modifier.
  destruct func; try (by apply fillsn_fill_whole); try (subst n; by apply fillsn_put_n).
  - destruct (Z.ltb_spec n 0); [lia|]. by apply fillsn_put_n, Hb.
  - apply fillsn_put_n. unfold len. rewrite length_map, length_seq. lia.
  - apply fillsn_put_n. unfold len. rewrite length_map, length_seq. lia.
  - destruct Ht as (-> & sni & -> & Hs & Hsb).
    destruct (qinit_build_total (env_qinit env) sni O Hq Hs Hsb) as (dg & st' & -> & Hl).
    by apply fillsn_put_n.
Qed.

(** The bytes a tag contributes; a dynamic tag, what its modifier writes. *)
Definition tag_output (env : mod_env) (t : jp_tag) : list Z :=
  match tag_func t with
  | None => tag_static t
  | Some func => default [] (run_modifier env func (tag_pkt_size t) (tag_ctx t)
                               (repeat 0 (Z.to_nat (tag_pkt_size t))))
  end.

(** The packet of a tag list: the outputs in textual order, the modifiers
    running in their own environments. *)
Fixpoint tag_outputs (envs : nat -> mod_env) (i : nat) (ts : list jp_tag) : list Z :=
  match ts with
  | [] => []
  | t :: ts' =>
      tag_output (envs i) t ++ tag_outputs envs (if tag_func t is Some _ then S i else i) ts'
  end.

Lemma at_off_fills off l w : 0 <= off -> fills 0 l w -> fills off l (at_off off w).
Proof.
  intros Ho Hw pre mid post Hp Hm. unfold at_off. rewrite len_app, Hp.
  pose proof (len_nonneg (mid ++ post)).
  destruct (Z.leb_spec 0 off); [|lia]. destruct (Z.leb_spec off (off + len (mid ++ post))); [|lia]. cbn [andb].
  assert (Z.to_nat off = length pre) as -> by (unfold len in Hp; lia).
  rewrite drop_app_length, take_app_length. pose proof (Hw [] mid post eq_refl Hm) as E. cbn [app] in E.
  by rewrite E.
Qed.

(** The output of a modifier replaces the tag's place, whatever was there. *)
Lemma run_modifier_at env t pre mid post : env_ok env -> tag_ok t -> 0 <= tag_pkt_size t ->
  len mid = tag_pkt_size t -> forall func, tag_func t = Some func ->
  at_off (len pre) (run_modifier env func (tag_pkt_size t) (tag_ctx t)) (pre ++ mid ++ post) =
  Some (pre ++ tag_output env t ++ post) /\ len (tag_output env t) = tag_pkt_size t /\
  all_bytes (tag_output env t).
Proof.
  intros He Ht Hs Hm func Hf. unfold tag_output. rewrite Hf.
  assert (tag_ok (JpTag None (Some func) (tag_pkt_size t) (tag_ctx t))) as Ht'.
  { unfold tag_ok in *. rewrite Hf in Ht. by destruct (tag_pkt t). }
  destruct (run_modifier_fills env func _ _ He Hs Ht') as (l & Hl & Hb & Hw).
  assert (run_modifier env func (tag_pkt_size t) (tag_ctx t) (repeat 0 (Z.to_nat (tag_pkt_size t))) = Some l) as ->.
  { rewrite <- (app_nil_r (repeat _ _)), <- (app_nil_r l). apply (Hw []); [done|].
    rewrite repeat_length. unfold len in Hl. lia. }
  cbn [default]. split; [|done]. apply (at_off_fills (len pre) l); [apply len_nonneg|done|done|].
  unfold len in *. lia.
Qed.

(** All modifiers of a laid-out tag list. *)
Lemma apply_loop_tags ts envs : (forall i, env_ok (envs i)) -> Forall tag_ok ts ->
  Forall (fun t => 0 <= tag_pkt_size t) ts -> forall i pre,
  apply_loop envs i (tag_mods (len pre) ts) (pre ++ concat (map tag_static ts)) =
    Some (pre ++ tag_outputs envs i ts) /\ len (tag_outputs envs i ts) = tags_size ts.
Proof.
  intros He Hok Hsz. induction Hok as [|t ts Ht Hts IH]; intros i pre; cbn [tag_mods map concat tag_outputs].
  { done. }
  apply Forall_cons_1 in Hsz as [Hs Hsz]. specialize (IH Hsz).
  pose proof (tag_static_len t Ht Hs) as Hl.
  change (tags_size (t :: ts)) with (tag_pkt_size t + tags_size ts). rewrite len_app.
  destruct (tag_func t) as [func|] eqn:Ef.
  - destruct (run_modifier_at (envs i) t pre (tag_static t) (concat (map tag_static ts)) (He i) Ht Hs Hl func Ef)
      as (E & Ho & _).
    cbn [apply_loop mod_buf mod_func mod_buf_len mod_ctx]. unfold wseq. rewrite E. cbn [mbind option_bind].
    replace (len pre + tag_pkt_size t) with (len (pre ++ tag_output (envs i) t)) by (rewrite len_app; lia).
    rewrite !app_assoc. destruct (IH (S i) (pre ++ tag_output (envs i) t)) as [-> ->]. by rewrite Ho.
  - unfold tag_output. rewrite Ef.
    replace (len pre + tag_pkt_size t) with (len (pre ++ tag_static t)) by (rewrite len_app; lia).
    rewrite !app_assoc. destruct (IH i (pre ++ tag_static t)) as [-> ->]. by rewrite Hl.
Qed.

(** ** The specification as a whole *)

(** A specification whose modifiers can run: they lie in the packet. *)
Definition spec_wf (spec : jp_spec) : Prop :=
  match spec_pkt spec with
  | None => spec_mods spec = [] /\ spec_pkt_size spec = 0
  | Some pkt => Forall (mod_fits (len pkt)) (spec_mods spec) /\ 0 <= spec_pkt_size spec <= len pkt
  end.

Lemma tag_mods_fit n off ts : 0 <= off -> Forall tag_ok ts -> Forall (fun t => 0 <= tag_pkt_size t) ts ->
  off + tags_size ts <= n -> Forall (mod_fits n) (tag_mods off ts).
Proof.
  intros Ho Hok. revert off Ho. induction Hok as [|t ts Ht Hts IH]; intros off Ho Hsz Hn; cbn [tag_mods]; [constructor|].
  apply Forall_cons_1 in Hsz as [Hs Hsz]. pose proof (tags_size_nonneg ts Hsz).
  change (tags_size (t :: ts)) with (tag_pkt_size t + tags_size ts) in Hn.
  assert (Forall (mod_fits n) (tag_mods (off + tag_pkt_size t) ts)) by (apply IH; (done || lia)).
  destruct (tag_func t) as [func|] eqn:Ef; [|done]. constructor; [|done].
  split; [done|]. split; [done|]. split; [cbn; lia|]. cbn [mod_func mod_buf_len mod_ctx].
  unfold tag_ok in *. rewrite Ef in Ht. by destruct (tag_pkt t).
Qed.

Lemma apply_loop_safe envs n : (forall i, env_ok (envs i)) -> forall mods i pkt, Forall (mod_fits n) mods -> len pkt = n ->
  exists pkt', apply_loop envs i mods pkt = Some pkt' /\ len pkt' = n.
Proof.
  intros He mods. induction mods as [|md mods IH]; intros i pkt Hm Hl; cbn [apply_loop]; [by eauto|].
  apply Forall_cons_1 in Hm as [(Ho & Hs & Hn & Ht) Hm].
  assert (exists pre mid post, pkt = pre ++ mid ++ post /\ len pre = mod_buf md /\ len mid = mod_buf_len md) as
    (pre & mid & post & -> & Hp & Hmid).
  { exists (firstn (Z.to_nat (mod_buf md)) pkt), (firstn (Z.to_nat (mod_buf_len md)) (skipn (Z.to_nat (mod_buf md)) pkt)),
      (skipn (Z.to_nat (mod_buf_len md)) (skipn (Z.to_nat (mod_buf md)) pkt)).
    rewrite !firstn_skipn. split; [done|]. rewrite !len_take; rewrite ?len_drop; lia. }
  destruct (run_modifier_at (envs i) _ pre mid post (He i) Ht Hs Hmid (mod_func md) eq_refl) as (E & Hlo & _).
  cbn [tag_pkt_size tag_ctx] in E, Hlo. unfold wseq. rewrite <- Hp, E. cbn [mbind option_bind].
  apply IH; [done|]. rewrite !len_app in *. lia.
Qed.

(** Parse errors are [-EINVAL] or [-ENOMEM]. *)
Definition parse_err (e : Z) : Prop := e = - EINVAL \/ e = - ENOMEM.

Lemma b_loop_err `{K : Kstrto} i val pkt e : b_loop i val pkt = Err e -> parse_err e.
Proof.
  revert pkt. induction i as [|i IH]; intros pkt; cbn [b_loop]; [done|].
  destruct (kstrtou8_16 _); [apply IH|]. intros [= <-]. by left.
Qed.

Lemma parse_tag_err `{K : Kstrto} key val head a e a' : parse_tag key val head a = (Err e, a') -> parse_err e.
Proof.
  unfold parse_tag, parse_r_tag, parse_rc_tag, parse_rd_tag, parse_c_tag, parse_t_tag, parse_field_tag,
    parse_imitate_tag, parse_b_tag, parse_qinit_tag, add_tag, parse_err.
  intros H. repeat (case_match; simplify_eq; try (by auto)); try (by apply b_loop_err in H4).
  all: match goal with E : b_loop _ _ _ = Err _ |- _ => by apply b_loop_err in E end.
Qed.

Lemma parse_loop_err `{K : Kstrto} f str head a e a' : parse_loop f str head a = Some (Err e, a') -> parse_err e.
Proof.
  revert str head a. induction f as [|f IH]; intros str head a; cbn [parse_loop]; [done|].
  destruct (strsep 60 str) as [t1 s1]. destruct (strsep 62 s1) as [[val|] s2]; [|done].
  destruct (strsep 32 (Some (trim val))) as [key v].
  destruct (parse_tag (default [] key) v head a) as [[head'|e'] a1] eqn:E; [apply IH|].
  intros. simplify_eq. by apply parse_tag_err in E.
Qed.

(** The part of [jp_spec_setup] after the allocations. *)
Lemma setup_layout desc head (okp okm : bool) a : Forall tag_ok head -> sizes_ok head ->
  exists r spec' a',
    (let pkt := if okp then Some (repeat 0 (Z.to_nat (tags_size head))) else None in
     if bool_decide (pkt = None) || negb okm then Some (- ENOMEM, JpSpec (Some desc) pkt [] 0, a)
     else layout_loop (rev head) (JpSpec (Some desc) pkt [] 0) a) = Some (r, spec', a') /\
    spec_desc spec' = Some desc /\ spec_wf spec' /\
    (r = 0 -> spec' = JpSpec (Some desc) (Some (concat (map tag_static (rev head)))) (tag_mods 0 (rev head))
                        (tags_size head)).
Proof.
  intros Hok Hsz. pose proof (tags_size_nonneg head (proj1 Hsz)).
  apply Forall_rev in Hok. apply sizes_ok_rev in Hsz as [Hs1 Hs2].
  rewrite <- (tags_size_rev head) in *. set (ts := rev head) in *. clearbody ts.
  destruct okp; cbn zeta; [|by eexists _, _, _].
  rewrite bool_decide_false by done. cbn [orb]. destruct okm; cbn [negb].
  2:{ eexists _, _, _. split; [reflexivity|]. split; [done|]. split; [|done]. split; [constructor|].
      cbn. rewrite len_repeat. lia. }
  destruct (layout_loop_spec ts (Some desc) [] [] a Hok Hs1) as (r & s' & a' & E & Hr); [rewrite len_nil; lia|].
  change (len []) with 0 in *. cbn [app] in E. rewrite E. eexists _, _, _. split; [reflexivity|].
  destruct Hr as [[-> ->] | (-> & ts1 & ts2 & p & -> & Hp & ->)].
  - split; [done|]. split; [|done].
    assert (len (concat (map tag_static ts)) = tags_size ts) as Hl.
    { clear E Hs2 H. induction Hok as [|t ts Ht Hts IH]; [done|]. apply Forall_cons_1 in Hs1 as [? ?].
      cbn [map concat]. rewrite len_app, tag_static_len, IH by done. done. }
    split; cbn; rewrite Hl; [|lia]. by apply tag_mods_fit.
  - split; [done|]. split; [|done]. apply Forall_app in Hok as [Hok1 _]. apply Forall_app in Hs1 as [Hs1 Hs3].
    pose proof (tags_size_nonneg ts1 Hs1). pose proof (tags_size_nonneg ts2 Hs3).
    rewrite tags_size_app in *. split; cbn; [|lia]. apply tag_mods_fit; (done || lia).
Qed.

Section SetupFacts.

Context `{KL : KstrtoLaws}.

(** A description all of whose sizes are non-negative with a sum that fits an
    [int]; the code does not check this (see [jp_spec_setup_negative_size]). *)
Definition desc_ok (desc : list Z) : Prop :=
  all_bytes desc /\ forall a head a', jp_parse_tags desc a = Some (Ok head, a') -> sizes_ok head.

(** The outcomes of [jp_spec_setup] for such a description. *)
Lemma setup_outcomes spec desc a : spec_desc spec = Some desc -> desc_ok desc ->
  exists r spec' a', jp_spec_setup spec a = Some (r, spec', a') /\ spec_desc spec' = Some desc /\ spec_wf spec' /\
    (r = 0 -> exists head a1 a2, jp_parse_tags desc a1 = Some (Ok head, a2) /\
       Forall tag_ok head /\ sizes_ok head /\ tags_size head <= MESSAGE_MAX_SIZE /\
       (count_where (fun t => tag_func t = Some fn_qinit) head = 0 \/ len head = 1) /\
       spec' = JpSpec (Some desc) (Some (concat (map tag_static (rev head)))) (tag_mods 0 (rev head)) (tags_size head)).
Proof.
  intros Hd [Hb Hdesc]. unfold jp_spec_setup. rewrite Hd. cbn [spec_desc].
  destruct (kmalloc a) as [ok a1] eqn:Ea. destruct ok; cbn [negb]; [|by eexists _, _, _].
  destruct (parse_loop_total (S (length desc)) (Some desc) [] a1) as (r & a2 & Ep); [lia|].
  change (parse_loop (S (length desc)) (Some desc) [] a1) with (jp_parse_tags desc a1) in Ep. rewrite Ep.
  destruct r as [head|e].
  2:{ eexists _, _, _. split; [reflexivity|]. split; [done|]. split; [done|].
      intros ->. apply parse_loop_err in Ep. by destruct Ep. }
  pose proof (jp_parse_tags_ok _ _ _ _ Hb Ep) as Hok. pose proof (Hdesc _ _ _ Ep) as Hsz.
  rewrite count_tags_spec by done.
  destruct (Z.eqb_spec (count_where (fun t => tag_func t = Some fn_qinit) head) 0) as [Eq|Eq];
    destruct (Z.eqb_spec (len head) 1) as [E1|E1]; cbn [negb andb]; try (by eexists _, _, _).
  all: destruct (Z.gtb_spec (tags_size head) MESSAGE_MAX_SIZE) as [Hm|Hm]; [by eexists _, _, _|].
  all: unfold kzalloc; destruct (kmalloc a2) as [okp a3]; destruct (kmalloc a3) as [okm a4].
  all: pose proof (tags_size_nonneg head (proj1 Hsz)).
  all: destruct (Z.leb_spec 0 (tags_size head)) as [H0|H0]; [|lia]; rewrite andb_true_r.
  all: destruct (setup_layout desc head okp okm a4 Hok Hsz) as (r & s' & a' & E & Hs' & Hwf & Hfin).
  all: cbv zeta in E; rewrite E; eexists _, _, _; split; [reflexivity|]; split; [done|]; split; [done|].
  all: intros Hr; exists head, a1, a2; repeat (split; [by auto|]); auto.
Qed.

End SetupFacts.

Lemma applymods_safe envs spec : (forall i, env_ok (envs i)) -> spec_wf spec ->
  exists spec', jp_spec_applymods envs spec = Some spec' /\ spec_wf spec' /\
    spec_pkt_size spec' = spec_pkt_size spec.
Proof.
  intros He Hw. unfold jp_spec_applymods, spec_wf in *. destruct (spec_pkt spec) as [pkt|] eqn:Ep.
  - destruct Hw as [Hm Hs].
    destruct (apply_loop_safe envs (len pkt) He (spec_mods spec) 0 pkt Hm eq_refl) as (pkt' & -> & Hl).
    eexists. split; [reflexivity|]. cbn. by rewrite Hl.
  - rewrite decide_True by apply Hw. exists spec. by rewrite Ep.
Qed.

(** Setting up and refreshing a signature packet is memory safe.  For
    every description whose sizes are non-negative with a sum that fits an
    [int], and whatever allocations fail, [jp_spec_setup] returns, with every
    modifier inside the packet's allocation; and [jp_spec_applymods] on the
    result never stores outside it and keeps the packet's size. *)
Theorem jp_spec_setup_safe `{KL : KstrtoLaws} spec desc a envs :
  spec_desc spec = Some desc -> desc_ok desc -> (forall i, env_ok (envs i)) ->
  exists r spec' a', jp_spec_setup spec a = Some (r, spec', a') /\ spec_wf spec' /\
    exists spec'', jp_spec_applymods envs spec' = Some spec'' /\ spec_wf spec'' /\
      spec_pkt_size spec'' = spec_pkt_size spec'.
Proof.
  intros Hd Hok He. destruct (setup_outcomes spec desc a Hd Hok) as (r & spec' & a' & E & _ & Hwf & _).
  exists r, spec', a'. split; [done|]. split; [done|]. by apply applymods_safe.
Qed.


(** *** Witnesses *)

#[local] Existing Instance KstrtoRef.ops.
#[local] Existing Instance KstrtoRefFacts.laws.

Definition env0 : mod_env :=
  ModEnv 7 1000 (fun n => repeat 9 (Z.to_nat n)) (fun i => Z.of_nat i) (fun st n => (repeat 0 (Z.to_nat n), st)).

Lemma env0_ok : env_ok env0.
Proof.
  split; [intros n Hn; cbn; rewrite len_repeat; lia|].
  intros st n Hn. cbn. split; [rewrite len_repeat; lia|apply repeat_0_bytes].
Qed.

Definition desc0 : list Z := B "<b 0xf601><c><r 3>".
Definition spec0 : jp_spec := JpSpec (Some desc0) None [] 0.

(** The tags of a description do not depend on the allocations. *)
Lemma desc0_ok : desc_ok desc0.
Proof.
  split; [apply B_bytes|]. intros a head a' E.
  assert (forall a, exists h a', jp_parse_tags desc0 a = Some (h, a') /\
    (h = Err (- ENOMEM) \/ h = Ok [JpTag None (Some fn_random_byte) 3 None;
                                   JpTag None (Some fn_pkt_counter) 4 None;
                                   JpTag (Some [0xf6; 0x01]) None 2 None])) as H.
  { clear. intros a. unfold jp_parse_tags, desc0.
    destruct a as [|[] [|[] [|[] [|[] a]]]]; vm_compute; eauto. }
  destruct (H a) as (h & b & E' & Hh). rewrite E in E'. simplify_eq.
  destruct Hh as [? | ?]; simplify_eq. split; [repeat constructor; cbn; lia|]. vm_compute. reflexivity.
Qed.

Lemma jp_spec_setup_safe_witness :
  exists r spec' a', jp_spec_setup spec0 [true; true; false] = Some (r, spec', a') /\ spec_wf spec' /\
    exists spec'', jp_spec_applymods (fun _ => env0) spec' = Some spec'' /\ spec_wf spec'' /\
      spec_pkt_size spec'' = spec_pkt_size spec'.
Proof. apply (jp_spec_setup_safe spec0 desc0); [reflexivity|exact desc0_ok|intros; exact env0_ok]. Defined.

Definition spec0_set : jp_spec :=
  JpSpec (Some desc0) (Some [0xf6; 0x01; 0; 0; 0; 0; 0; 0; 0])
    [JpModifier fn_pkt_counter 2 4 None; JpModifier fn_random_byte 6 3 None] 9.


(** The refreshed packet: literal, counter, random bytes. *)
Example jp_spec_packet_example :
  match jp_spec_applymods (fun _ => env0) spec0_set with
  | Some s => spec_pkt s | None => None
  end = Some [0xf6; 0x01; 0; 0; 0; 7; 9; 9; 9].
Proof. vm_compute. reflexivity. Qed.

(** ** Descriptions round trip *)

(** The text of a tag's key. *)
Definition func_key (func : jp_modifier_func) : list Z :=
  match func with
  | fn_pkt_counter => B "c" | fn_unix_time => B "t"
  | fn_random_byte => B "r" | fn_random_char => B "rc" | fn_random_digit => B "rd"
  | fn_imitate_quic => B "q" | fn_imitate_dns => B "dns"
  | fn_imitate_stun => B "stun" | fn_imitate_sip => B "sip"
  | fn_qinit => B "qinit"
  end.

(** The text between the brackets, as a configuration writes it. *)
Definition tag_text (t : jp_tag) : list Z :=
  match tag_pkt t, tag_func t with
  | Some bytes, _ => B "b 0x" ++ concat (map hex_byte bytes)
  | None, Some func =>
      match func with
      | fn_pkt_counter | fn_unix_time => func_key func
      | fn_qinit => func_key func ++ [32] ++ default [] (tag_ctx t)
      | _ => func_key func ++ [32] ++ sdec (tag_pkt_size t)
      end
  | None, None => []
  end.

Definition desc_text (ts : list jp_tag) : list Z := concat (map (fun t => [60] ++ tag_text t ++ [62]) ts).

(** A tag that has a text: what the parser produces, a literal with at least
    one byte, a server name the syntax can carry. *)
Definition tag_printable (t : jp_tag) : Prop :=
  tag_ok t /\
  match tag_pkt t, tag_func t with
  | Some bytes, _ => bytes <> [] /\ tag_ctx t = None
  | None, Some fn_qinit =>
      forall sni, tag_ctx t = Some sni -> trim sni = sni /\ Forall (fun c => c <> 62) sni
  | None, _ => tag_ctx t = None
  end.

(** No blank at the front. *)
Definition hd_ok (s : list Z) : Prop := match s with [] => True | c :: _ => c <> 32 end.

Lemma trim_left_id s : hd_ok s -> trim_left s = s.
Proof. destruct s as [|c s]; cbn; [done|]. intros. by destruct (Z.eqb_spec c 32). Qed.

Lemma trim_left_hd s : hd_ok (trim_left s).
Proof. induction s as [|c s IH]; cbn; [done|]. by destruct (Z.eqb_spec c 32). Qed.

Lemma trim_id s : hd_ok s -> hd_ok (rev s) -> trim s = s.
Proof. intros. unfold trim. rewrite !trim_left_id by (rewrite ?trim_left_id; done). apply rev_involutive. Qed.

Lemma trim_rev_hd s : trim s = s -> hd_ok (rev s).
Proof. intros <-. unfold trim. rewrite rev_involutive. apply trim_left_hd. Qed.

Lemma hd_ok_app s t : s <> [] -> hd_ok s -> hd_ok (s ++ t).
Proof. by destruct s. Qed.

(** A key and a value whose last character is not a blank. *)
Lemma trim_key_value k v : k <> [] -> hd_ok k -> v <> [] -> hd_ok (rev v) -> trim (k ++ v) = k ++ v.
Proof.
  intros. apply trim_id; [by apply hd_ok_app|]. rewrite rev_app_distr. apply hd_ok_app; [|done].
  intros E. apply (f_equal (@rev Z)) in E. rewrite rev_involutive in E. done.
Qed.

Lemma strsep_app c s t : Forall (fun x => x <> c) s -> strsep c (Some (s ++ [c] ++ t)) = (Some s, Some t).
Proof. intros H. cbn. by rewrite split_at_char_app. Qed.

Lemma strsep_none c s : Forall (fun x => x <> c) s -> strsep c (Some s) = (Some s, None).
Proof. intros H. cbn. by rewrite split_at_char_none. Qed.

(** Characters of numerals and hexadecimal digits. *)
Lemma sdec_chars n : Forall (fun c => 45 <= c <= 57) (sdec n).
Proof.
  unfold sdec. destruct (Z.ltb_spec n 0); [constructor; [lia|]|].
  all: eapply Forall_impl; [|apply dec_Forall; lia]; cbn; intros; lia.
Qed.

Lemma hex_chars bytes : all_bytes bytes ->
  Forall (fun c => 48 <= c <= 57 \/ 97 <= c <= 102) (concat (map hex_byte bytes)).
Proof.
  induction 1 as [|b bytes Hb Hbs IH]; cbn [map concat]; [constructor|]. apply Forall_app. split; [|done].
  unfold is_byte in Hb. unfold hex_byte, hex_digit.
  constructor; [|constructor; [|constructor]].
  - destruct (Z.ltb_spec (b / 16) 10); lia.
  - destruct (Z.ltb_spec (b mod 16) 10); lia.
Qed.

Lemma sdec_nonnil n : sdec n <> [].
Proof. unfold sdec, dec. destruct (n <? 0); [done|]. apply KstrtoRefFacts.dec_fuel_nonnil. Qed.

Lemma hd_ok_chars (P : Z -> Prop) s : (forall c, P c -> c <> 32) -> Forall P s -> hd_ok (rev s).
Proof.
  intros HP Hs. apply Forall_rev in Hs. destruct (rev s) as [|c r]; [done|].
  apply Forall_cons_1 in Hs as [? _]. cbn. auto.
Qed.

Section RoundTrip.

Context `{KL : KstrtoLaws}.

Lemma b_loop_hex bytes i pkt : all_bytes bytes -> (i <= length bytes)%nat ->
  b_loop i (concat (map hex_byte bytes)) pkt = Ok (firstn i bytes ++ pkt).
Proof.
  intros Hb. revert pkt. induction i as [|i IH]; intros pkt Hi; cbn [b_loop]; [done|].
  destruct (lookup_lt_is_Some_2 bytes i) as [b Eb]; [lia|].
  assert (firstn 2 (skipn (2 * i) (concat (map hex_byte bytes))) = hex_byte b) as ->.
  { clear IH Hi Hb. revert i Eb. induction bytes as [|c bytes IH]; intros [|i] Eb; try done; [by injection Eb as ->|].
    cbn [map concat]. replace (2 * S i)%nat with (S (S (2 * i))) by lia. cbn [hex_byte app skipn]. by apply IH. }
  rewrite kstrtou8_16_hex by (eapply Forall_lookup_1 in Hb; done).
  rewrite IH by lia. rewrite (take_S_r _ _ _ Eb), <- app_assoc. done.
Qed.

(** The text of one tag is read back as that tag. *)
Definition reads_back (t : jp_tag) : Prop :=
  Forall (fun c => c <> 62) (tag_text t) /\ trim (tag_text t) = tag_text t /\
  forall head, let '(key, val) := strsep 32 (Some (tag_text t)) in
    parse_tag (default [] key) val head [] = (Ok (t :: head), []).

Lemma reads_back_key_value key val t : key <> [] -> hd_ok key ->
  Forall (fun c => c <> 32 /\ c <> 62) key -> Forall (fun c => c <> 62) val -> val <> [] -> hd_ok (rev val) ->
  tag_text t = key ++ [32] ++ val ->
  (forall head, parse_tag key (Some val) head [] = (Ok (t :: head), [])) -> reads_back t.
Proof.
  intros Hk Hhd Hkc Hv Hvn Hrev E Hp. unfold reads_back. rewrite E. split; [|split].
  - apply Forall_app. split; [eapply Forall_impl; [|exact Hkc]; by intros ? [? ?]|]. by constructor.
  - apply trim_key_value; [done|done|done|]. change (rev ([32] ++ val)) with (rev val ++ [32]).
    apply hd_ok_app; [|done]. intros E'. apply (f_equal (@rev Z)) in E'. rewrite rev_involutive in E'. done.
  - intros head. rewrite strsep_app; [apply Hp|]. eapply Forall_impl; [|exact Hkc]. by intros ? [? ?].
Qed.

Lemma key_chars func : func_key func <> [] /\ hd_ok (func_key func) /\
  Forall (fun c => c <> 32 /\ c <> 62) (func_key func).
Proof. destruct func; (split; [done|split; [done|]]); apply (bool_decide_unpack _); vm_compute; exact I. Qed.

Lemma reads_back_sized func n : - 2 ^ 31 <= n < 2 ^ 31 ->
  func <> fn_pkt_counter -> func <> fn_unix_time -> func <> fn_qinit ->
  reads_back (JpTag None (Some func) n None).
Proof.
  intros Hn H1 H2 H3. destruct (key_chars func) as (Hk & Hh & Hc). pose proof (sdec_chars n) as Hd.
  apply (reads_back_key_value (func_key func) (sdec n)); try done.
  - eapply Forall_impl; [|exact Hd]. cbn. lia.
  - apply sdec_nonnil.
  - eapply hd_ok_chars; [|exact Hd]. cbn. lia.
  - by destruct func.
  - intros head. assert (kstrtoint10 (sdec n) = Ok n) as E by (by apply kstrtoint10_sdec).
    unfold parse_tag, parse_r_tag, parse_rc_tag, parse_rd_tag, parse_imitate_tag. rewrite E.
    by destruct func.
Qed.

Lemma reads_back_literal bytes : bytes <> [] -> all_bytes bytes ->
  reads_back (JpTag (Some bytes) None (len bytes) None).
Proof.
  intros Hne Hb. pose proof (hex_chars bytes Hb) as Hc.
  apply (reads_back_key_value (B "b") (B "0x" ++ concat (map hex_byte bytes))); try done.
  - apply (bool_decide_unpack _). vm_compute. exact I.
  - apply Forall_app. split; [apply (bool_decide_unpack _); vm_compute; exact I|].
    eapply Forall_impl; [|exact Hc]. cbn. lia.
  - rewrite rev_app_distr. apply hd_ok_app; [|eapply hd_ok_chars; [|exact Hc]; cbn; lia].
    intros E. apply (f_equal (@rev Z)) in E. rewrite rev_involutive in E. by destruct bytes.
  - intros head. unfold parse_tag. rewrite bool_decide_true by done. unfold parse_b_tag.
    change (firstn 2 (B "0x" ++ ?l)) with (B "0x"). rewrite bool_decide_true by done. cbn [negb].
    change (skipn 2 (B "0x" ++ ?l)) with l.
    assert (len (concat (map hex_byte bytes)) = 2 * len bytes) as Hl.
    { clear. induction bytes as [|b bytes IH]; [done|]. cbn [map concat]. rewrite len_app, len_cons, IH.
      change (len (hex_byte b)) with 2. lia. }
    assert (len bytes <> 0) by (destruct bytes; [done|]; rewrite len_cons; pose proof (len_nonneg bytes); lia).
    rewrite Hl. replace (2 * len bytes / 2) with (len bytes) by lia.
    replace (2 * len bytes mod 2) with 0 by lia.
    destruct (Z.eqb_spec (2 * len bytes) 0); [lia|]. cbn [orb negb Z.eqb kmalloc].
    rewrite b_loop_hex by (done || unfold len; lia). unfold len at 1. rewrite Nat2Z.id, firstn_all, app_nil_r. done.
Qed.

Lemma reads_back_qinit sni : 0 < len sni <= 255 -> trim sni = sni -> Forall (fun c => c <> 62) sni ->
  reads_back (JpTag None (Some fn_qinit) 1200 (Some sni)).
Proof.
  intros Hl Ht Hc. destruct (key_chars fn_qinit) as (Hk & Hh & Hkc).
  apply (reads_back_key_value (B "qinit") sni); try done.
  - intros E. apply (f_equal len) in E. rewrite len_nil in E. lia.
  - by apply trim_rev_hd.
  - intros head. change (parse_qinit_tag (Some sni) head [] = (Ok (JpTag None (Some fn_qinit) 1200 (Some sni) :: head), [])).
    unfold parse_qinit_tag. rewrite Ht.
    destruct (Z.eqb_spec (len sni) 0); [lia|]. by destruct (Z.gtb_spec (len sni) 255); [lia|].
Qed.

Lemma tag_reads_back t : tag_printable t -> reads_back t.
Proof.
  intros [Hok Hp]. destruct t as [pkt func n ctx]. unfold tag_ok in Hok. cbn in Hok, Hp.
  destruct pkt as [bytes|].
  - destruct func; [done|]. destruct Hok as [<- Hb], Hp as [Hne ->]. by apply reads_back_literal.
  - destruct func as [func|]; [|done].
    destruct func; try (rewrite Hp; by apply reads_back_sized).
    + rewrite Hp, Hok. split; [apply (bool_decide_unpack _); vm_compute; exact I|]. by split.
    + rewrite Hp, Hok. split; [apply (bool_decide_unpack _); vm_compute; exact I|]. by split.
    + destruct Hok as (-> & sni & -> & Hl & _). destruct (Hp sni eq_refl). by apply reads_back_qinit.
Qed.

Lemma parse_loop_text ts : Forall tag_printable ts -> forall f head, (length (desc_text ts) < f)%nat ->
  parse_loop f (Some (desc_text ts)) head [] = Some (Ok (rev ts ++ head), []).
Proof.
  induction 1 as [|t ts Ht Hts IH]; intros f head Hf; (destruct f as [|f]; [lia|]); [done|].
  apply tag_reads_back in Ht as (H62 & Htr & Hparse). cbn [parse_loop].
  assert (desc_text (t :: ts) = [] ++ [60] ++ (tag_text t ++ [62] ++ desc_text ts)) as E.
  { unfold desc_text. cbn [map concat]. by rewrite <- !app_assoc. }
  rewrite E, strsep_app by constructor. rewrite strsep_app by done. rewrite Htr.
  specialize (Hparse head). destruct (strsep 32 (Some (tag_text t))) as [key val]. rewrite Hparse.
  rewrite IH by (rewrite E, !length_app in Hf; cbn in Hf; rewrite ?length_app in Hf; cbn in Hf; lia).
  cbn [rev]. by rewrite <- app_assoc.
Qed.

End RoundTrip.

(** Descriptions round trip.  Printing any list of tags (literals, fields,
    sized random and imitation tags, [qinit] tags) in the configuration syntax
    and parsing the text gives back exactly those tags, the list being in
    reverse order as the code keeps it. *)
Theorem jp_parse_tags_text `{KL : KstrtoLaws} ts : Forall tag_printable ts ->
  jp_parse_tags (desc_text ts) [] = Some (Ok (rev ts), []).
Proof.
  intros H. unfold jp_parse_tags. rewrite (parse_loop_text ts H) by lia. by rewrite app_nil_r.
Qed.

Definition tags0 : list jp_tag :=
  [JpTag (Some [0xf6; 0x0a]) None 2 None; JpTag None (Some fn_unix_time) 4 None;
   JpTag None (Some fn_imitate_sip) 120 None].

Lemma jp_parse_tags_text_witness :
  jp_parse_tags (B "<b 0xf60a><t><sip 120>") [] = Some (Ok (rev tags0), []).
Proof.
  change (B "<b 0xf60a><t><sip 120>") with (desc_text tags0). apply jp_parse_tags_text.
  repeat (constructor; [split; [cbn; try lia|done]|]); [|constructor].
  split; [done|]. repeat (constructor; [unfold is_byte; lia|]). constructor.
Defined.

