(* ===== verification/IpBits.v ===== *)
(** * Address bits ([src/allowedips.c], the bit-level helpers)

    The table of allowed addresses keeps an address as one or two machine words
    in host order, finds the bit that decides between two children through a
    precomputed byte index and shift, and counts common leading bits with
    [fls].  This file translates those helpers for a little-endian machine and
    proves that they compute on the address read as a bit string, most
    significant bit first: [choose] is the bit at position [cidr] and
    [common_bits] the length of the common prefix.  Array accesses are lookups:
    an index outside the array gives [None]. *)

From S2P Require Import Prelude Words.

(** [fls] and [fls64]: position of the highest set bit, counted from 1. *)
Definition fls (x : Z) : Z := if x =? 0 then 0 else Z.log2 x + 1.

Definition fls128 (a b : Z) : Z := if a =? 0 then fls b else fls a + 64.

(** [swap_endian(dst, src, bits)]: the bytes stored into [dst]. *)
Definition swap_endian (src : list Z) (bits : Z) : list Z :=
  if bits =? 32 then rev (firstn 4 src)
  else if bits =? 128 then rev (firstn 8 src) ++ rev (firstn 8 (skipn 8 src))
  else [].

(** The fields [bit_at_a] and [bit_at_b] of [copy_and_assign_cidr]. *)
Definition bit_at_a_of (cidr bits : Z) : Z := Z.lxor (cidr / 8) ((bits / 8 - 1) mod 8).
Definition bit_at_b_of (cidr : Z) : Z := 7 - cidr mod 8.

(** [(key[bit_at_a] >> bit_at_b) & 1] *)
Definition choose_bit (bit_at_a bit_at_b : Z) (key : list Z) : option bool :=
  (fun b => Z.testbit b bit_at_b) <$> (key !! Z.to_nat bit_at_a).

(** [common_bits(node, key, bits)] on the two byte arrays. *)
Definition common_bits (node_bits key : list Z) (bits : Z) : Z :=
  if bits =? 32 then 32 - fls (Z.lxor (le_word (firstn 4 node_bits)) (le_word (firstn 4 key)))
  else if bits =? 128 then
    128 - fls128 (Z.lxor (le_word (firstn 8 node_bits)) (le_word (firstn 8 key)))
                 (Z.lxor (le_word (firstn 8 (skipn 8 node_bits))) (le_word (firstn 8 (skipn 8 key))))
  else 0.

(** ** Addresses as bit strings *)

(** The bits of a host-order array of an address of [bits] bits. *)
Definition kbits (bits : Z) (mem : list Z) : list bool := concat (map byte_bits (swap_endian mem bits)).

(** Length of the longest common prefix. *)
Fixpoint lcp (a b : list bool) : nat :=
  match a, b with
  | x :: a', y :: b' => if Bool.eqb x y then S (lcp a' b') else O
  | _, _ => O
  end.

(** The value of a bit string. *)
Fixpoint bval (bs : list bool) : Z :=
  match bs with
  | [] => 0
  | b :: bs' => Z.b2z b * 2 ^ len bs' + bval bs'
  end.

Definition bits_ok (bits : Z) : Prop := bits = 32 \/ bits = 128.

(** An array that holds an address: 4 or 16 bytes at least. *)
Definition addr_ok (bits : Z) (mem : list Z) : Prop := bits / 8 <= len mem /\ all_bytes mem.

Lemma bval_range bs : 0 <= bval bs < 2 ^ len bs.
Proof.
  induction bs as [|b bs IH]; cbn [bval]; [change (0 <= 0 < 1); lia|]. rewrite len_cons.
  pose proof (len_nonneg bs). rewrite Z.pow_add_r by lia. destruct b; cbn [Z.b2z]; lia.
Qed.

Lemma bval_app a b : bval (a ++ b) = bval a * 2 ^ len b + bval b.
Proof.
  induction a as [|x a IH]; cbn [app bval]; [lia|]. rewrite IH, len_app.
  pose proof (len_nonneg a). pose proof (len_nonneg b). rewrite Z.pow_add_r by lia. lia.
Qed.

Lemma bval_byte b : is_byte b -> bval (byte_bits b) = b.
Proof. revert b. apply byte_eq_check. vm_compute. reflexivity. Qed.

Lemma bval_rev_bytes l : all_bytes l -> bval (concat (map byte_bits (rev l))) = le_word l.
Proof.
  induction 1 as [|b l Hb Hl IH]; [done|]. cbn [rev le_word fold_right]. fold (le_word l).
  rewrite map_app, concat_app, bval_app, IH. cbn [map concat]. rewrite app_nil_r, bval_byte by done.
  change (len (byte_bits b)) with 8. change (2 ^ 8) with 256. lia.
Qed.

Lemma pow2_add_lxor n x : 0 <= n -> 0 <= x < 2 ^ n -> 2 ^ n + x = Z.lxor (2 ^ n) x.
Proof.
  intros Hn Hx. apply Z.add_nocarry_lxor. apply Z.bits_inj'. intros i Hi.
  rewrite Z.land_spec, Z.bits_0, Z.pow2_bits_eqb by lia. destruct (Z.eqb_spec n i) as [<-|]; [|done].
  destruct (Z.eq_dec x 0) as [->|]; [apply Z.bits_0|]. apply Z.bits_above_log2; [lia|]. apply Z.log2_lt_pow2; lia.
Qed.

Lemma fls_high n x : 0 <= n -> 0 <= x < 2 ^ n -> fls (2 ^ n + x) = n + 1.
Proof.
  intros. unfold fls. destruct (Z.eqb_spec (2 ^ n + x) 0); [lia|]. f_equal.
  apply Z.log2_unique; [lia|]. rewrite Z.pow_succ_r by lia. lia.
Qed.

(** The number of differing low bits of two equally long bit strings. *)
Lemma fls_lcp a : forall b, length a = length b ->
  fls (Z.lxor (bval a) (bval b)) = len a - Z.of_nat (lcp a b).
Proof.
  induction a as [|x a IH]; intros [|y b] Hl; try done. cbn [bval lcp]. injection Hl as Hl.
  assert (len b = len a) as Eb by (unfold len; lia). rewrite Eb, len_cons. specialize (IH b Hl).
  pose proof (len_nonneg a) as Hn. pose proof (bval_range a) as Ra. pose proof (bval_range b) as Rb. rewrite Eb in Rb.
  pose proof (lxor_range (len a) _ _ Hn Ra Rb) as Rx.
  destruct x, y; cbn [Z.b2z Bool.eqb]; rewrite ?Z.mul_1_l, ?Z.mul_0_l, ?Z.add_0_l.
  - rewrite !pow2_add_lxor by done. rewrite (Z.lxor_comm (2 ^ len a) (bval a)), Z.lxor_assoc.
    rewrite <- (Z.lxor_assoc (2 ^ len a)), Z.lxor_nilpotent, Z.lxor_0_l, IH. lia.
  - rewrite pow2_add_lxor, Z.lxor_assoc, <- pow2_add_lxor, fls_high by done. lia.
  - rewrite pow2_add_lxor, (Z.lxor_comm (bval a)), Z.lxor_assoc, <- pow2_add_lxor, fls_high by
      (done || rewrite Z.lxor_comm; done). lia.
  - rewrite IH. lia.
Qed.

Lemma bits_concat_length l : length (concat (map byte_bits l)) = (8 * length l)%nat.
Proof. induction l as [|b l IH]; cbn [map concat]; [done|]. rewrite length_app, IH. cbn. lia. Qed.

Lemma lcp_app a1 b1 a2 b2 : length a1 = length b1 ->
  lcp (a1 ++ a2) (b1 ++ b2) = if decide (a1 = b1) then (length a1 + lcp a2 b2)%nat else lcp a1 b1.
Proof.
  revert b1. induction a1 as [|x a1 IH]; intros [|y b1] Hl; try done. injection Hl as Hl. cbn [app lcp].
  destruct (Bool.eqb x y) eqn:E.
  - apply eqb_prop in E as ->. rewrite IH by done. repeat case_decide; try congruence; cbn; lia.
  - rewrite decide_False; [done|]. intros [= -> ->]. by rewrite eqb_reflx in E.
Qed.

Lemma lcp_eq a b : length a = length b -> lcp a b = length a <-> a = b.
Proof.
  revert b. induction a as [|x a IH]; intros [|y b] Hl; try done. injection Hl as Hl. cbn [lcp length].
  destruct (Bool.eqb x y) eqn:E; [apply eqb_prop in E as ->|split; [done|intros [= -> ->]; by rewrite eqb_reflx in E]].
  split; [intros [= H]; f_equal; by apply IH|intros [= ->]; f_equal; by apply IH].
Qed.

Lemma kbits_length bits mem : bits_ok bits -> addr_ok bits mem -> len (kbits bits mem) = bits.
Proof.
  intros Hb [Hl _]. unfold kbits, len in *. rewrite bits_concat_length. unfold swap_endian.
  destruct Hb as [-> | ->]; cbn [Z.eqb Pos.eqb]; cbn in Hl.
  - rewrite length_rev, length_take. lia.
  - rewrite length_app, !length_rev, !length_take, length_drop. lia.
Qed.

Lemma fls_0 x : 0 <= x -> fls x = 0 <-> x = 0.
Proof.
  intros Hx. unfold fls. destruct (Z.eqb_spec x 0); [done|]. pose proof (Z.log2_nonneg x). lia.
Qed.

Lemma common_words (a1 a2 b1 b2 : list bool) : length a1 = 64%nat -> length b1 = 64%nat ->
  length a2 = 64%nat -> length b2 = 64%nat ->
  128 - fls128 (Z.lxor (bval a1) (bval b1)) (Z.lxor (bval a2) (bval b2)) =
  Z.of_nat (lcp (a1 ++ a2) (b1 ++ b2)).
Proof.
  intros H1 H2 H3 H4. rewrite lcp_app by lia. unfold fls128.
  pose proof (fls_lcp a1 b1 ltac:(lia)) as E1. pose proof (fls_lcp a2 b2 ltac:(lia)) as E2. unfold len in *.
  pose proof (bval_range a1) as R1. pose proof (bval_range b1) as R2. unfold len in R1, R2. rewrite H1 in R1.
  rewrite H2 in R2. pose proof (fls_0 _ (proj1 (lxor_range 64 _ _ ltac:(lia) R1 R2))) as H0.
  pose proof (lcp_eq a1 b1 ltac:(lia)) as He.
  destruct (Z.eqb_spec (Z.lxor (bval a1) (bval b1)) 0) as [E|E]; case_decide as D; rewrite ?E1, ?E2.
  - lia.
  - exfalso. apply D, He. apply H0 in E. lia.
  - exfalso. apply E, H0. apply He in D. lia.
  - lia.
Qed.

(** [common_bits] is the length of the common prefix of the two addresses. *)
Lemma common_bits_lcp bits a b : bits_ok bits -> addr_ok bits a -> addr_ok bits b ->
  common_bits a b bits = Z.of_nat (lcp (kbits bits a) (kbits bits b)).
Proof.
  intros Hb [La Ha] [Lb Hbb]. unfold common_bits, kbits, swap_endian, len in *.
  destruct Hb as [-> | ->]; cbn [Z.eqb Pos.eqb] in *.
  - rewrite <- !bval_rev_bytes by (by apply Forall_take). rewrite fls_lcp.
    + unfold len. rewrite bits_concat_length, length_rev, length_take. change (32 / 8) with 4 in *. lia.
    + rewrite !bits_concat_length, !length_rev, !length_take. change (32 / 8) with 4 in *. lia.
  - change (128 / 8) with 16 in *.
    rewrite <- !bval_rev_bytes by (by repeat apply Forall_take || apply Forall_drop).
    rewrite !map_app, !concat_app.
    assert (forall l, (8 <= length l)%nat -> length (concat (map byte_bits (rev (firstn 8 l)))) = 64%nat) as H64.
    { intros l Hl. rewrite bits_concat_length, length_rev, length_take. lia. }
    pose proof (H64 a ltac:(lia)). pose proof (H64 b ltac:(lia)).
    pose proof (H64 (skipn 8 a) ltac:(rewrite length_drop; lia)).
    pose proof (H64 (skipn 8 b) ltac:(rewrite length_drop; lia)). clear H64.
    set (a1 := concat _) in *. set (b1 := concat _) in *. set (a2 := concat _) in *. set (b2 := concat _) in *.
    apply common_words; done.
Qed.

Lemma concat_bits_lookup l i j : (j < 8)%nat ->
  concat (map byte_bits l) !! (8 * i + j)%nat = (fun b => Z.testbit b (7 - Z.of_nat j)) <$> (l !! i).
Proof.
  intros Hj. revert i. induction l as [|b l IH]; intros i; [done|]. cbn [map concat].
  destruct i as [|i].
  - rewrite lookup_app_l by (cbn; lia). cbn [lookup list_lookup fmap option_fmap option_map].
    do 8 (destruct j as [|j]; [done|]). lia.
  - rewrite lookup_app_r by (cbn; lia). change (length (byte_bits b)) with 8%nat.
    replace (8 * S i + j - 8)%nat with (8 * i + j)%nat by lia. apply IH.
Qed.

(** The byte order of the arrays: byte [i] of the address is at [i ^ 3] or [i ^ 7]. *)
Lemma swap_endian_lookup bits key i : bits_ok bits -> bits / 8 <= len key -> 0 <= i < bits / 8 ->
  swap_endian key bits !! Z.to_nat i = key !! Z.to_nat (Z.lxor i ((bits / 8 - 1) mod 8)).
Proof.
  intros Hb Hl Hi. unfold len in Hl. destruct Hb as [-> | ->].
  - do 4 (destruct key as [|? key]; [cbn in Hl; lia|]). change (32 / 8) with 4 in *.
    assert (i = 0 \/ i = 1 \/ i = 2 \/ i = 3) as [-> | [-> | [-> | ->]]] by lia; reflexivity.
  - do 16 (destruct key as [|? key]; [cbn in Hl; lia|]). change (128 / 8) with 16 in *.
    assert (exists n, i = Z.of_nat n /\ (n < 16)%nat) as (n & -> & Hn) by (exists (Z.to_nat i); lia).
    do 16 (destruct n as [|n]; [reflexivity|]). lia.
Qed.

(** [choose] is the bit of the address at position [cidr]. *)
Lemma choose_bit_kbits bits key cidr : bits_ok bits -> addr_ok bits key -> 0 <= cidr < bits ->
  choose_bit (bit_at_a_of cidr bits) (bit_at_b_of cidr) key = kbits bits key !! Z.to_nat cidr.
Proof.
  intros Hb [Hl _] Hc. unfold choose_bit, bit_at_a_of, bit_at_b_of, kbits.
  assert (0 <= cidr / 8 < bits / 8) by (destruct Hb as [-> | ->]; lia).
  rewrite <- swap_endian_lookup by done.
  replace (Z.to_nat cidr) with (8 * Z.to_nat (cidr / 8) + Z.to_nat (cidr mod 8))%nat by lia.
  rewrite concat_bits_lookup by lia. rewrite Z2Nat.id by lia. done.
Qed.

(** Storing an address and reading it back. *)
Lemma swap_endian_involutive bits key : bits_ok bits -> bits / 8 <= len key ->
  swap_endian (swap_endian key bits) bits = firstn (Z.to_nat (bits / 8)) key.
Proof.
  intros Hb Hl. unfold len in Hl. destruct Hb as [-> | ->].
  - do 4 (destruct key as [|? key]; [cbn in Hl; lia|]). reflexivity.
  - do 16 (destruct key as [|? key]; [cbn in Hl; lia|]). reflexivity.
Qed.
