(* ===== verification/Trie.v ===== *)
(** * Compressed binary tries: the abstract level of the allowed-address table

    What the pointer structure of [src/allowedips.c] represents: a binary trie
    whose nodes carry a key, the number of key bits that count, and possibly a
    peer.  Nodes keep the address of the heap object that represents them.
    This file defines the finite map a trie stands for, contexts (a trie with a
    hole, the path down from the root), and proves how looking up, replacing a
    subtree and removing a node act on that map.  The pointer code refines
    these operations in [AllowedIps]. *)

From S2P Require Import Prelude IpBits.

Inductive trie :=
| E
| T (a : Z) (k : list bool) (c : nat) (pe : option Z) (l r : trie).

#[global] Instance trie_eq_dec : EqDecision trie.
Proof. solve_decision. Defined.

(** One step of the path from the root to a hole: the node passed, the side
    taken and the subtree on the other side. *)
Record frame := Frame {
  fr_a : Z; fr_k : list bool; fr_c : nat; fr_pe : option Z; fr_bit : bool; fr_sib : trie
}.

Definition fill (f : frame) (t : trie) : trie :=
  if fr_bit f then T (fr_a f) (fr_k f) (fr_c f) (fr_pe f) (fr_sib f) t
  else T (fr_a f) (fr_k f) (fr_c f) (fr_pe f) t (fr_sib f).

(** Innermost frame first. *)
Fixpoint plug (ctx : list frame) (t : trie) : trie :=
  match ctx with
  | [] => t
  | f :: ctx' => plug ctx' (fill f t)
  end.

(** The prefix shared by everything below a hole. *)
Definition hole (ctx : list frame) : list bool :=
  match ctx with
  | [] => []
  | f :: _ => firstn (fr_c f) (fr_k f) ++ [fr_bit f]
  end.

(** The addresses of the nodes. *)
Fixpoint addrs (t : trie) : list Z :=
  match t with
  | E => []
  | T a _ _ _ l r => a :: addrs l ++ addrs r
  end.

Fixpoint caddrs (ctx : list frame) : list Z :=
  match ctx with
  | [] => []
  | f :: ctx' => fr_a f :: addrs (fr_sib f) ++ caddrs ctx'
  end.

(** ** The map of a trie *)

(** The peer stored for exactly the prefix [q]. *)
Fixpoint tget (t : trie) (q : list bool) : option Z :=
  match t with
  | E => None
  | T _ k c pe l r =>
      if decide (q = firstn c k) then pe
      else if decide (firstn c k `prefix_of` q) then
        match q !! c with
        | Some true => tget r q
        | Some false => tget l q
        | None => None
        end
      else None
  end.

(** Longest-prefix match among the prefixes of [key] of length at most [n]. *)
Fixpoint lpm (m : list bool -> option Z) (key : list bool) (n : nat) : option Z :=
  match m (firstn n key) with
  | Some p => Some p
  | None => match n with O => None | S n' => lpm m key n' end
  end.

Section Wf.

(** The number of bits of a key. *)
Variable n : nat.

(** Keys have [n] bits, prefixes grow downwards along the branching bit, and a
    node without a peer has two children. *)
Fixpoint wf (q : list bool) (t : trie) : Prop :=
  match t with
  | E => True
  | T _ k c pe l r =>
      length k = n /\ (c <= n)%nat /\ q `prefix_of` firstn c k /\
      wf (firstn c k ++ [false]) l /\ wf (firstn c k ++ [true]) r /\
      (pe = None -> l <> E /\ r <> E)
  end.

(** The same for a path; [needs] tells whether the hole must not be empty. *)
Definition needs (ctx : list frame) : Prop :=
  match ctx with [] => False | f :: _ => fr_pe f = None end.

Fixpoint wfc (ctx : list frame) : Prop :=
  match ctx with
  | [] => True
  | f :: ctx' =>
      length (fr_k f) = n /\ (fr_c f <= n)%nat /\ hole ctx' `prefix_of` firstn (fr_c f) (fr_k f) /\
      wf (firstn (fr_c f) (fr_k f) ++ [negb (fr_bit f)]) (fr_sib f) /\
      (fr_pe f = None -> fr_sib f <> E) /\ wfc ctx'
  end.

Lemma wf_weaken q q' t : q `prefix_of` q' -> wf q' t -> wf q t.
Proof. destruct t; cbn; [done|]. intros Hq (? & ? & Hp & ?). split; [done|]. split; [done|]. split; [by etrans|done]. Qed.

(** Well-formedness splits at the hole. *)
Lemma wf_plug ctx t : wf [] (plug ctx t) <-> wfc ctx /\ wf (hole ctx) t /\ (needs ctx -> t <> E).
Proof.
  revert t. induction ctx as [|f ctx IH]; intros t; cbn [plug]; [cbn; tauto|].
  rewrite IH. destruct f as [a k c pe b sib]. cbn [wfc hole needs]. unfold fill; cbn [fr_a fr_k fr_c fr_pe fr_bit fr_sib].
  destruct b; cbn [wf negb]; split.
  - intros (? & (? & ? & ? & ? & ? & Hp) & ?). split_and!; try done; intros; by apply Hp.
  - intros ((? & ? & ? & ? & Hs & ?) & ? & Hn). split_and!; try done. intros; split; auto.
  - intros (? & (? & ? & ? & ? & ? & Hp) & ?). split_and!; try done; intros; by apply Hp.
  - intros ((? & ? & ? & ? & Hs & ?) & ? & Hn). split_and!; try done. intros; split; auto.
Qed.

(** Everything stored below a prefix extends it. *)
Lemma tget_prefix q t x p : wf q t -> tget t x = Some p -> q `prefix_of` x.
Proof.
  destruct t as [|a k c pe l r]; cbn; [done|]. intros (_ & _ & Hq & _).
  case_decide as D1; [by subst|]. case_decide as D2; [|done]. intros _. by etrans.
Qed.

Lemma tget_none q t x : wf q t -> ~ q `prefix_of` x -> tget t x = None.
Proof. intros Hw Hx. destruct (tget t x) eqn:Eq; [|done]. destruct Hx. by eapply tget_prefix. Qed.

Lemma prefix_snoc (q x : list bool) b : q ++ [b] `prefix_of` x <-> q `prefix_of` x /\ x !! length q = Some b.
Proof.
  split.
  - intros [z ->]. split; [rewrite <- app_assoc; by apply prefix_app_r|].
    rewrite <- app_assoc, lookup_app_r by lia. by rewrite Nat.sub_diag.
  - intros [[z ->] Hb]. rewrite lookup_app_r, Nat.sub_diag in Hb by lia. destruct z as [|c z]; [done|].
    injection Hb as ->. exists z. by rewrite <- app_assoc.
Qed.

Lemma firstn_len (k : list bool) c : length k = n -> (c <= n)%nat -> length (firstn c k) = c.
Proof. intros. rewrite length_take. lia. Qed.

(** One node: what [tget] does below its branching bit. *)
Lemma tget_child a k c pe l r x (b : bool) : length k = n -> (c <= n)%nat ->
  firstn c k ++ [b] `prefix_of` x -> tget (T a k c pe l r) x = tget (if b then r else l) x.
Proof.
  intros Hk Hc (Hp & Hb)%prefix_snoc. rewrite firstn_len in Hb by done. cbn [tget].
  rewrite decide_False; [rewrite decide_True, Hb by done; by destruct b|].
  intros ->. rewrite lookup_ge_None_2 in Hb; [done|]. rewrite firstn_len; lia.
Qed.

Lemma tget_fill f t x : length (fr_k f) = n -> (fr_c f <= n)%nat ->
  tget (fill f t) x =
    if decide (firstn (fr_c f) (fr_k f) ++ [fr_bit f] `prefix_of` x) then tget t x else tget (fill f E) x.
Proof.
  intros Hk Hc. destruct f as [a k c pe b sib]. unfold fill. cbn in *. case_decide as D.
  - destruct b; by rewrite (tget_child _ _ _ _ _ _ _ _ Hk Hc D).
  - destruct b; cbn [tget]; (case_decide as D1; [done|]); (case_decide as D2; [|done]);
      destruct (x !! c) as [[]|] eqn:Eb; try done; destruct D; apply prefix_snoc; by rewrite firstn_len.
Qed.

(** Below the hole the plugged trie answers, elsewhere it does not matter. *)
Lemma tget_plug_in ctx t x : wfc ctx -> hole ctx `prefix_of` x -> tget (plug ctx t) x = tget t x.
Proof.
  revert t. induction ctx as [|f ctx IH]; intros t Hw Hx; [done|]. destruct Hw as (? & ? & Hp & _ & _ & Hw).
  cbn [plug hole] in *. rewrite IH; [|done|].
  - by rewrite tget_fill, decide_True by done.
  - etrans; [exact Hp|]. etrans; [|exact Hx]. by apply prefix_app_r.
Qed.

Lemma tget_plug_out ctx t t' x : wfc ctx -> ~ hole ctx `prefix_of` x -> tget (plug ctx t) x = tget (plug ctx t') x.
Proof.
  revert t t'. induction ctx as [|f ctx IH]; intros t t' Hw Hx; [destruct Hx; apply prefix_nil|].
  destruct Hw as (? & ? & Hp & _ & _ & Hw). cbn [plug hole] in *.
  destruct (decide (hole ctx `prefix_of` x)) as [D|D]; [|by apply IH].
  rewrite !tget_plug_in by done. rewrite (tget_fill f t), (tget_fill f t') by done. by rewrite !decide_False.
Qed.

(** ** Longest-prefix match *)

(** The peer of the last matching node on the way down. *)
Fixpoint walk (found : option Z) (t : trie) (key : list bool) : option Z :=
  match t with
  | E => found
  | T _ k c pe l r =>
      if (c <=? lcp k key)%nat then
        let found := match pe with Some p => Some p | None => found end in
        if (c =? n)%nat then found
        else match key !! c with
             | Some true => walk found r key
             | Some false => walk found l key
             | None => found
             end
      else found
  end.

Lemma lcp_prefix k key c : (c <= length k)%nat -> (c <= lcp k key)%nat <-> firstn c k `prefix_of` key.
Proof.
  revert c key. induction k as [|x k IH]; intros [|c] key Hc; cbn [firstn lcp length] in *; try lia.
  - split; [intros; apply prefix_nil|lia].
  - split; [intros; apply prefix_nil|lia].
  - destruct key as [|y key]; [split; [lia|intros H; by apply prefix_nil_inv in H]|].
    destruct (Bool.eqb x y) eqn:Exy.
    + apply eqb_prop in Exy as ->. rewrite <- Nat.succ_le_mono, IH by lia. split.
      * intros. by apply prefix_cons.
      * apply prefix_cons_inv_2.
    + split; [lia|]. intros H. apply prefix_cons_inv_1 in H as ->. by rewrite eqb_reflx in Exy.
Qed.

(** [lpm] over a map that agrees with another above [c], where the other has
    nothing at or below [c]. *)
Lemma lpm_agree m1 m2 key c N : (c <= N)%nat ->
  (forall j, (c < j <= N)%nat -> m1 (firstn j key) = m2 (firstn j key)) ->
  (forall j, (j <= c)%nat -> m2 (firstn j key) = None) ->
  lpm m1 key N = match lpm m2 key N with Some p => Some p | None => lpm m1 key c end.
Proof.
  intros HcN H1 H2. induction N as [|N IH].
  - replace c with O by lia. cbn. rewrite H2 by lia. done.
  - destruct (Nat.eq_dec c (S N)) as [->|].
    + assert (lpm m2 key (S N) = None) as ->; [|done]. clear -H2.
      induction (S N) as [|j IH]; cbn; rewrite H2 by lia; [done|]. apply IH. intros. apply H2. lia.
    + cbn [lpm]. rewrite <- (H1 (S N)) by lia. destruct (m1 (firstn (S N) key)); [done|].
      apply IH; [lia|]. intros. apply H1. lia.
Qed.

Lemma lpm_none m key N : (forall j, (j <= N)%nat -> m (firstn j key) = None) -> lpm m key N = None.
Proof. intros H. induction N as [|N IH]; cbn; rewrite H by lia; [done|]. apply IH. auto. Qed.

(** Walking down finds the longest stored prefix of the key. *)
Lemma walk_lpm q t found key : wf q t -> q `prefix_of` key -> length key = n ->
  walk found t key = match lpm (tget t) key n with Some p => Some p | None => found end.
Proof.
  intros Hw Hq Hkey. revert q found Hw Hq. induction t as [|a k c pe l IHl r IHr]; intros q found Hw Hq.
  { rewrite lpm_none by done. done. }
  cbn [walk]. destruct Hw as (Hk & Hc & Hp & Hl & Hr & Hpe).
  assert (wf (firstn c k) (T a k c pe l r)) as Hw' by done.
  destruct (Nat.leb_spec c (lcp k key)) as [Hm|Hm].
  2:{ rewrite lpm_none; [done|]. intros j Hj. apply (tget_none (firstn c k)).
      - done.
      - intros Hx. assert (firstn c k `prefix_of` key) as H2 by (etrans; [exact Hx|apply prefix_take]).
        apply lcp_prefix in H2; lia. }
  apply lcp_prefix in Hm; [|lia].
  assert (lpm (tget (T a k c pe l r)) key c = pe) as Hlow.
  { assert (firstn c key = firstn c k) as Eq.
    { destruct Hm as [z ->]. rewrite take_app_le, firstn_firstn, Nat.min_id by (rewrite firstn_len; lia). done. }
    assert (tget (T a k c pe l r) (firstn c key) = pe) as E1 by (cbn; by rewrite decide_True by done).
    destruct pe as [p|]; [destruct c; cbn [lpm]; by rewrite E1|].
    apply lpm_none. intros j Hj. destruct (Nat.eq_dec j c) as [->|]; [done|].
    apply (tget_none (firstn c k)); [done|]. intros Hx. apply prefix_length in Hx.
    rewrite firstn_len, length_take in Hx by done. lia. }
  destruct (Nat.eqb_spec c n) as [->|Hne]; [by rewrite Hlow; destruct pe|].
  destruct (lookup_lt_is_Some_2 key c) as [b Hb]; [lia|]. rewrite Hb.
  assert (firstn c k ++ [b] `prefix_of` key) as Hx by (apply prefix_snoc; by rewrite firstn_len).
  set (ch := if b then r else l).
  assert (wf (firstn c k ++ [b]) ch) as Hch by (unfold ch; by destruct b).
  rewrite (lpm_agree _ (tget ch) key c n Hc).
  - rewrite Hlow. transitivity (walk (match pe with Some p => Some p | None => found end) ch key).
    { unfold ch. by destruct b. }
    unfold ch in *. destruct b; cbv iota in *;
      [rewrite (IHr _ _ Hch Hx); by destruct (lpm (tget r) key n), pe|].
    rewrite (IHl _ _ Hch Hx). by destruct (lpm (tget l) key n), pe.
  - intros j Hj. unfold ch. apply tget_child; [done..|]. destruct Hx as [z ->].
    rewrite take_app_ge; [by apply prefix_app_r|]. rewrite length_app, firstn_len by done. cbn. lia.
  - intros j Hj. apply (tget_none _ _ _ Hch). intros Hpj. apply prefix_length in Hpj.
    rewrite length_app, firstn_len, length_take in Hpj by done. cbn in Hpj. lia.
Qed.

(** ** Placement *)

(** The way down to where the prefix of [c] bits of [key] belongs: the path,
    the subtree found there, and whether it is the node of exactly that prefix. *)
Fixpoint zplace (t : trie) (key : list bool) (c : nat) (ctx : list frame) : list frame * trie * bool :=
  match t with
  | E => (ctx, E, false)
  | T a k ca pe l r =>
      if (ca <=? c)%nat && (ca <=? lcp k key)%nat then
        if (ca =? c)%nat then (ctx, t, true)
        else match key !! ca with
             | Some true => zplace r key c (Frame a k ca pe true l :: ctx)
             | Some false => zplace l key c (Frame a k ca pe false r :: ctx)
             | None => (ctx, t, false)
             end
      else (ctx, t, false)
  end.

(** The subtree found does not lie on the way to the prefix. *)
Definition stops (t : trie) (key : list bool) (c : nat) : Prop :=
  match t with
  | E => True
  | T _ k ca _ _ _ => ~ ((ca <= c)%nat /\ firstn ca k `prefix_of` key)
  end.

Lemma prefix_firstn_snoc (key q : list bool) c b : q `prefix_of` key -> key !! length q = Some b -> (length q < c)%nat ->
  q ++ [b] `prefix_of` firstn c key.
Proof.
  intros Hq Hb Hc. assert (q ++ [b] `prefix_of` key) as [z ->] by (by apply prefix_snoc).
  rewrite take_app_ge by (rewrite length_app; cbn; lia). by apply prefix_app_r.
Qed.

Lemma zplace_spec t key c ctx ctx' t' ex : length key = n -> (c <= n)%nat ->
  wfc ctx -> wf (hole ctx) t -> (needs ctx -> t <> E) -> hole ctx `prefix_of` firstn c key ->
  zplace t key c ctx = (ctx', t', ex) ->
  plug ctx' t' = plug ctx t /\ wfc ctx' /\ wf (hole ctx') t' /\ (needs ctx' -> t' <> E) /\
  hole ctx' `prefix_of` firstn c key /\
  if ex then exists a k pe l r, t' = T a k c pe l r /\ firstn c k = firstn c key else stops t' key c.
Proof.
  intros Hkey Hcn. revert ctx. induction t as [|a k ca pe l IHl r IHr]; intros ctx Hwc Hw Hn Hh; cbn [zplace].
  { intros [= <- <- <-]. by split_and!. }
  pose proof Hw as (Hk & Hc & Hp & Hl & Hr & Hpe).
  destruct (Nat.leb_spec ca c) as [H1|H1]; cbn [andb].
  2:{ intros [= <- <- <-]. split_and!; try done. cbn. lia. }
  destruct (Nat.leb_spec ca (lcp k key)) as [H2|H2]; cbn [andb].
  2:{ intros [= <- <- <-]. split_and!; try done. intros [_ Hx]. apply lcp_prefix in Hx; lia. }
  apply lcp_prefix in H2; [|lia].
  destruct (Nat.eqb_spec ca c) as [->|Hne].
  { intros [= <- <- <-]. split_and!; try done. eexists _, _, _, _, _. split; [done|].
    destruct H2 as [z ->]. by rewrite take_app_le, firstn_firstn, Nat.min_id by (rewrite firstn_len; lia). }
  destruct (lookup_lt_is_Some_2 key ca) as [b Hb]; [lia|]. rewrite Hb.
  assert (firstn ca k ++ [b] `prefix_of` firstn c key) as Hx.
  { apply prefix_firstn_snoc; rewrite ?firstn_len; (done || lia). }
  destruct b; intros Hz; [apply IHr in Hz|apply IHl in Hz]; try done.
  all: cbn; try split_and!; try done; intros; by apply Hpe.
Qed.

(** ** Insertion *)

(** A node with [t] on side [b] and [o] on the other. *)
Definition node2 (a : Z) (k : list bool) (c : nat) (pe : option Z) (b : bool) (t o : trie) : trie :=
  if b then T a k c pe o t else T a k c pe t o.

(** The subtree that replaces [t] when the prefix of [c] bits of [key] is
    added there: a new node, above [t] when [t] extends the prefix, and below a
    new branching node when they only share their first bits. *)
Definition new_sub (t : trie) (key : list bool) (c : nat) (p a1 a2 : Z) : trie :=
  match t with
  | E => T a1 key c (Some p) E E
  | T _ k _ _ _ _ =>
      let c' := Nat.min c (lcp k key) in
      let b := default false (k !! c') in
      if (c =? c')%nat then node2 a1 key c (Some p) b t E
      else node2 a2 key c' None b t (T a1 key c (Some p) E E)
  end.

Lemma lcp_diff k key : length k = length key -> (lcp k key < length k)%nat ->
  exists b, k !! lcp k key = Some b /\ key !! lcp k key = Some (negb b).
Proof.
  revert key. induction k as [|x k IH]; intros [|y key] Hl Hlt; cbn in *; try lia.
  destruct (Bool.eqb x y) eqn:Exy.
  - destruct (IH key) as (b & ? & ?); [lia..|]. by exists b.
  - exists x. split; [done|]. by destruct x, y.
Qed.

Lemma lcp_firstn k key c : (c <= lcp k key)%nat -> (c <= length k)%nat -> firstn c k = firstn c key.
Proof.
  intros H Hc. apply lcp_prefix in H; [|done]. destruct H as [z ->].
  rewrite take_app_le, firstn_firstn, Nat.min_id by (rewrite length_take; lia). done.
Qed.

Lemma lcp_le k key : (lcp k key <= length k)%nat.
Proof. revert key. induction k as [|x k IH]; intros [|y key]; cbn; try lia. destruct (Bool.eqb x y); [|lia]. specialize (IH key). lia. Qed.

Lemma wf_node2 q a k c pe b t o : length k = n -> (c <= n)%nat -> q `prefix_of` firstn c k ->
  wf (firstn c k ++ [b]) t -> wf (firstn c k ++ [negb b]) o -> (pe = None -> t <> E /\ o <> E) ->
  wf q (node2 a k c pe b t o).
Proof. intros. unfold node2. destruct b; cbn in *; split_and!; try done; intros Hp; split; by apply H4. Qed.

Lemma tget_node2 a k c pe b t o x : length k = n -> (c <= n)%nat ->
  wf (firstn c k ++ [b]) t -> wf (firstn c k ++ [negb b]) o ->
  tget (node2 a k c pe b t o) x = if decide (x = firstn c k) then pe
    else match tget t x with Some p => Some p | None => tget o x end.
Proof.
  intros Hk Hc Ht Ho.
  assert (forall bb tt, wf (firstn c k ++ [bb]) tt -> ~ (firstn c k ++ [bb] `prefix_of` x) -> tget tt x = None) as Hn
    by (intros; by eapply tget_none).
  unfold node2. case_decide as D; [destruct b; cbn; by rewrite decide_True by done|].
  destruct (decide (firstn c k ++ [b] `prefix_of` x)) as [P1|P1].
  { rewrite (Hn (negb b) o Ho) by (intros P2; apply prefix_snoc in P1 as [_ P1], P2 as [_ P2];
      rewrite P1 in P2; by destruct b).
    destruct b; rewrite (tget_child _ _ _ _ _ _ _ _ Hk Hc P1); by destruct (tget t x). }
  rewrite (Hn b t Ht P1). destruct (decide (firstn c k ++ [negb b] `prefix_of` x)) as [P2|P2].
  { destruct b; by rewrite (tget_child _ _ _ _ _ _ _ _ Hk Hc P2). }
  rewrite (Hn (negb b) o Ho P2).
  destruct b; cbn [tget]; rewrite decide_False by done; (case_decide as D2; [|done]);
    destruct (x !! c) as [[]|] eqn:Eb; try done;
    (destruct P1 + destruct P2); apply prefix_snoc; by rewrite firstn_len.
Qed.

Lemma lcp_max (q k key : list bool) : q `prefix_of` k -> q `prefix_of` key -> (length q <= lcp k key)%nat.
Proof.
  intros [z ->] [y ->]. clear n. induction q as [|b q IH]; cbn; [lia|]. rewrite eqb_reflx. lia.
Qed.

Lemma prefix_firstn (q k : list bool) m : q `prefix_of` k -> (length q <= m)%nat -> q `prefix_of` firstn m k.
Proof. intros [z ->] Hm. rewrite take_app_ge by done. by apply prefix_app_r. Qed.

(** Conditions on the branching bit of the new nodes. *)
Lemma new_sub_above q a k ca pe l r key c : length key = n -> (c <= n)%nat -> wf q (T a k ca pe l r) ->
  stops (T a k ca pe l r) key c -> (c <= lcp k key)%nat ->
  exists b, k !! c = Some b /\ wf (firstn c key ++ [b]) (T a k ca pe l r).
Proof.
  intros Hkey Hc (Hk & Hca & _ & Hl & Hr & Hpe) Hst Hm.
  assert (c < ca)%nat as Hlt.
  { destruct (Nat.lt_ge_cases c ca); [done|]. destruct Hst. split; [done|]. apply lcp_prefix; lia. }
  destruct (lookup_lt_is_Some_2 k c) as [b Hb]; [lia|]. exists b. split; [done|].
  rewrite <- (lcp_firstn k key c) by lia. split_and!; try done.
  apply prefix_firstn_snoc; rewrite ?firstn_len; (done || lia || apply prefix_take).
Qed.

Lemma new_sub_branch q a k ca pe l r key c : length key = n -> (c <= n)%nat -> wf q (T a k ca pe l r) ->
  stops (T a k ca pe l r) key c -> (lcp k key < c)%nat -> q `prefix_of` firstn c key ->
  exists b, k !! lcp k key = Some b /\ key !! lcp k key = Some (negb b) /\
    wf (firstn (lcp k key) key ++ [b]) (T a k ca pe l r) /\ q `prefix_of` firstn (lcp k key) key.
Proof.
  intros Hkey Hc (Hk & Hca & Hq & Hl & Hr & Hpe) Hst Hm Hqk.
  assert (lcp k key < ca)%nat as Hlt.
  { destruct (Nat.lt_ge_cases (lcp k key) ca); [done|]. destruct Hst. split; [lia|]. apply lcp_prefix; lia. }
  destruct (lcp_diff k key) as (b & Hb & Hb'); [lia..|]. exists b. split; [done|]. split; [done|].
  rewrite <- (lcp_firstn k key (lcp k key)) by (lia || apply lcp_le). split.
  - split_and!; try done. apply prefix_firstn_snoc; rewrite ?firstn_len; (done || lia || apply prefix_take).
  - apply prefix_firstn; [|apply lcp_max]; etrans; [exact Hq|apply prefix_take|exact Hq|apply prefix_take|exact Hqk|apply prefix_take].
Qed.

Lemma new_sub_wf q t key c p a1 a2 : length key = n -> (c <= n)%nat -> wf q t -> stops t key c ->
  q `prefix_of` firstn c key -> wf q (new_sub t key c p a1 a2).
Proof.
  intros Hkey Hc Hw Hst Hq. destruct t as [|a k ca pe l r]; cbn [new_sub]; [by split_and!|].
  destruct (Nat.le_gt_cases c (lcp k key)) as [Hm|Hm].
  - rewrite Nat.min_l, Nat.eqb_refl by done. destruct (new_sub_above _ _ _ _ _ _ _ _ _ Hkey Hc Hw Hst Hm) as (b & -> & Hb).
    by apply wf_node2.
  - rewrite Nat.min_r by lia. destruct (Nat.eqb_spec c (lcp k key)); [lia|].
    destruct (new_sub_branch _ _ _ _ _ _ _ _ _ Hkey Hc Hw Hst Hm Hq) as (b & -> & Hb & Hw' & Hq').
    apply wf_node2; try done; [lia|]. split_and!; try done.
    apply prefix_firstn_snoc; rewrite ?firstn_len; (done || lia || apply prefix_take).
Qed.

Lemma new_sub_tget q t key c p a1 a2 x : length key = n -> (c <= n)%nat -> wf q t -> stops t key c ->
  q `prefix_of` firstn c key ->
  tget (new_sub t key c p a1 a2) x = if decide (x = firstn c key) then Some p else tget t x.
Proof.
  intros Hkey Hc Hw Hst Hq. destruct t as [|a k ca pe l r].
  { cbn. repeat case_decide; try done. by destruct (x !! c) as [[]|]. }
  cbn [new_sub]. destruct (Nat.le_gt_cases c (lcp k key)) as [Hm|Hm].
  - rewrite Nat.min_l, Nat.eqb_refl by done. destruct (new_sub_above _ _ _ _ _ _ _ _ _ Hkey Hc Hw Hst Hm) as (b & -> & Hb).
    rewrite tget_node2 by done. case_decide; [done|]. by destruct (tget _ x).
  - rewrite Nat.min_r by lia. destruct (Nat.eqb_spec c (lcp k key)); [lia|].
    destruct (new_sub_branch _ _ _ _ _ _ _ _ _ Hkey Hc Hw Hst Hm Hq) as (b & -> & Hb & Hw' & Hq').
    set (o := T a1 key c (Some p) E E).
    assert (wf (firstn (lcp k key) key ++ [negb b]) o) as Ho.
    { split_and!; try done. apply prefix_firstn_snoc; rewrite ?firstn_len; (done || lia || apply prefix_take). }
    assert (tget o x = if decide (x = firstn c key) then Some p else None) as Hox.
    { cbn. repeat case_decide; try done. by destruct (x !! c) as [[]|]. }
    assert (lcp k key <= n)%nat by lia.
    rewrite tget_node2 by done. rewrite Hox.
    assert (forall y, firstn (lcp k key) key = y -> tget (T a k ca pe l r) y = None) as Hshort.
    { intros y <-. apply (tget_none _ _ _ Hw'). intros Hp. apply prefix_length in Hp.
      rewrite length_app in Hp. cbn in Hp. lia. }
    assert (tget (T a k ca pe l r) (firstn c key) = None) as Hkey0.
    { apply (tget_none _ _ _ Hw'). intros Hp. assert (firstn (lcp k key) key ++ [b] `prefix_of` key) as Hp'
        by (etrans; [exact Hp|apply prefix_take]).
      apply prefix_snoc in Hp' as [_ Hp']. rewrite firstn_len, Hb in Hp' by lia. by destruct b. }
    case_decide as D1; [|case_decide as D2; [|by destruct (tget (T a k ca pe l r) x)]].
    + rewrite decide_False; [by rewrite D1, Hkey0|]. intros ->.
      apply (f_equal length) in D1. rewrite !firstn_len in D1 by lia. lia.
    + by rewrite (Hshort x (eq_sym D2)).
Qed.

(** ** Removal *)

(** The trie after the root node of [t] lost its peer: a node with two children
    stays as a branching node, any other is replaced by its child; when it was
    a leaf below a branching node, that node goes too. *)
Definition zdel (ctx : list frame) (t : trie) : trie :=
  match t with
  | E => plug ctx E
  | T a k c _ l r =>
      match l, r with
      | T _ _ _ _ _ _, T _ _ _ _ _ _ => plug ctx (T a k c None l r)
      | T _ _ _ _ _ _, E => plug ctx l
      | E, T _ _ _ _ _ _ => plug ctx r
      | E, E =>
          match ctx with
          | f :: ctx' => match fr_pe f with None => plug ctx' (fr_sib f) | Some _ => plug ctx E end
          | [] => E
          end
      end
  end.

(** A child in place of its parent. *)
Lemma wf_child q a k c pe l r (b : bool) : wf q (T a k c pe l r) -> wf q (if b then r else l).
Proof.
  intros (Hk & Hc & Hq & Hl & Hr & _). destruct b; (eapply wf_weaken; [|done]); (etrans; [exact Hq|]); by apply prefix_app_r.
Qed.

Lemma zdel_wf ctx a k c pe l r : wf [] (plug ctx (T a k c pe l r)) -> wf [] (zdel ctx (T a k c pe l r)).
Proof.
  intros Hw. apply wf_plug in Hw as (Hc & Hw & Hn). pose proof Hw as (Hk & Hcn & Hq & Hl & Hr & _).
  cbn [zdel]. destruct l as [|al kl cl pl ll rl] eqn:El, r as [|ar kr cr pr lr rr] eqn:Er.
  - destruct ctx as [|f ctx]; [done|]. destruct Hc as (? & ? & Hp & Hs & Hsn & Hc).
    destruct (fr_pe f) eqn:Ef; apply wf_plug; [split_and!; try done; cbn; by rewrite Ef|].
    split; [done|]. split; [|intros; by apply Hsn]. eapply wf_weaken; [|exact Hs].
    etrans; [exact Hp|]. by apply prefix_app_r.
  - apply wf_plug. split; [done|]. split; [exact (wf_child _ _ _ _ _ _ _ true Hw)|done].
  - apply wf_plug. split; [done|]. split; [exact (wf_child _ _ _ _ _ _ _ false Hw)|done].
  - apply wf_plug. split; [done|]. split; [|done]. by split_and!.
Qed.

Lemma tget_leaf a k c pe x : tget (T a k c pe E E) x = if decide (x = firstn c k) then pe else None.
Proof. cbn. repeat case_decide; try done. by destruct (x !! c) as [[]|]. Qed.

(** A node without its peer, and a node replaced by its only child. *)
Lemma tget_unpeer q a k c pe l r x : wf q (T a k c pe l r) ->
  tget (T a k c None l r) x = if decide (x = firstn c k) then None else tget (T a k c pe l r) x.
Proof. intros _. cbn. by case_decide. Qed.

Lemma tget_only_child q a k c pe (b : bool) t x : wf q (node2 a k c pe b t E) ->
  tget t x = if decide (x = firstn c k) then None else tget (node2 a k c pe b t E) x.
Proof.
  intros Hw. assert (length k = n /\ (c <= n)%nat /\ wf (firstn c k ++ [b]) t) as (Hk & Hc & Ht).
  { destruct b; destruct Hw as (? & ? & ? & ? & ? & ?); done. }
  case_decide as D.
  - apply (tget_none _ _ _ Ht). intros Hp. apply prefix_length in Hp. subst x.
    rewrite length_app, firstn_len in Hp by done. cbn in Hp. lia.
  - rewrite tget_node2 by done. rewrite decide_False by done. by destruct (tget t x).
Qed.

(** Replacing the subtree in a hole by one whose map differs in one prefix. *)
Lemma tget_plug_remove ctx t t' q x : wfc ctx -> hole ctx `prefix_of` q ->
  tget t' x = (if decide (x = q) then None else tget t x) ->
  tget (plug ctx t') x = if decide (x = q) then None else tget (plug ctx t) x.
Proof.
  intros Hc Hq Hx. destruct (decide (hole ctx `prefix_of` x)) as [D|D]; [by rewrite !tget_plug_in|].
  rewrite decide_False by (by intros ->). by apply tget_plug_out.
Qed.

(** Giving the node of a prefix another peer. *)
Lemma tget_plug_peer ctx a k c pe p l r x : wf [] (plug ctx (T a k c pe l r)) ->
  wf [] (plug ctx (T a k c (Some p) l r)) /\
  tget (plug ctx (T a k c (Some p) l r)) x =
    if decide (x = firstn c k) then Some p else tget (plug ctx (T a k c pe l r)) x.
Proof.
  intros (Hc & Hw & Hn)%wf_plug. pose proof Hw as (Hk & Hcn & Hq & Hl & Hr & _).
  split; [apply wf_plug; by split_and!|].
  destruct (decide (hole ctx `prefix_of` x)) as [D|D]; [rewrite !tget_plug_in by done; cbn; by case_decide|].
  rewrite decide_False by (by intros ->). by apply tget_plug_out.
Qed.

(** The leaf below a branching node goes together with it. *)
Lemma tget_collapse f a k c pe x : wf (hole [f]) (T a k c pe E E) -> fr_pe f = None ->
  length (fr_k f) = n -> (fr_c f <= n)%nat -> wf (firstn (fr_c f) (fr_k f) ++ [negb (fr_bit f)]) (fr_sib f) ->
  tget (fr_sib f) x = if decide (x = firstn c k) then None else tget (fill f (T a k c pe E E)) x.
Proof.
  intros Hw Hf Hk Hc Hs. cbn [hole] in Hw. pose proof Hw as (Hkl & Hcl & Hp & _).
  change (fill f (T a k c pe E E)) with
    (node2 (fr_a f) (fr_k f) (fr_c f) (fr_pe f) (fr_bit f) (T a k c pe E E) (fr_sib f)).
  rewrite tget_node2, tget_leaf, Hf by done. case_decide as D.
  - apply (tget_none _ _ _ Hs). rewrite D. intros Hp2. apply prefix_snoc in Hp as [_ Hp], Hp2 as [_ Hp2].
    rewrite Hp in Hp2. by destruct (fr_bit f).
  - case_decide as D2; [|done]. apply (tget_none _ _ _ Hs). rewrite D2. intros Hp2. apply prefix_length in Hp2.
    rewrite length_app in Hp2. cbn in Hp2. lia.
Qed.

Lemma zdel_tget ctx a k c pe l r x : wf [] (plug ctx (T a k c pe l r)) ->
  tget (zdel ctx (T a k c pe l r)) x =
    if decide (x = firstn c k) then None else tget (plug ctx (T a k c pe l r)) x.
Proof.
  intros Hw. apply wf_plug in Hw as (Hc & Hw & _). pose proof Hw as (_ & _ & Hq & _). cbn [zdel].
  assert (forall t', tget t' x = (if decide (x = firstn c k) then None else tget (T a k c pe l r) x) ->
    tget (plug ctx t') x = if decide (x = firstn c k) then None else tget (plug ctx (T a k c pe l r)) x) as Hrep
    by (intros; by apply tget_plug_remove).
  destruct l as [|al kl cl pl ll rl] eqn:El, r as [|ar kr cr pr lr rr] eqn:Er.
  - destruct ctx as [|f ctx]; [cbn [plug]; rewrite tget_leaf; by case_decide|].
    destruct (fr_pe f) eqn:Ef; [apply Hrep; rewrite tget_leaf; by case_decide|].
    destruct Hc as (? & ? & Hp & Hs & Hsn & Hc). cbn [plug].
    apply tget_plug_remove; [done| |by apply tget_collapse].
    etrans; [exact Hp|]. etrans; [|exact Hq]. by apply prefix_app_r.
  - apply Hrep. exact (tget_only_child _ _ _ _ _ true _ x Hw).
  - apply Hrep. exact (tget_only_child _ _ _ _ _ false _ x Hw).
  - apply Hrep. by apply (tget_unpeer (hole ctx)).
Qed.

End Wf.
