(* ===== verification/AllowedIps.v ===== *)
(** * The table of allowed addresses ([src/allowedips.c])

    The trie of the source as it is: nodes in a heap, child pointers, the slot
    address packed with a bit in [parent_bit_packed], and the per-peer lists
    threaded through the nodes.  A pointer is an address ([None] is [NULL]);
    reading, writing or freeing an address that is not allocated makes the
    operation undefined ([None]), so that every totality theorem below is also
    a memory-safety theorem.  [kmem_cache_zalloc] may fail: the state carries
    the allocator's future answers.  The operations run under the device's
    update lock; readers are covered by [allowedips_lookup], which takes the
    version of the table it sees at each of its attempts. *)

From S2P Require Import Prelude Words IpBits Trie.
From stdpp Require Import gmap list fin_maps.
#[local] Open Scope Z_scope.

Definition MAX_ALLOWEDIPS_DEPTH : Z := 129.
Definition ETH_P_IP : Z := 0x0800.
Definition ETH_P_IPV6 : Z := 0x86DD.
Definition AF_INET : Z := 2.
Definition AF_INET6 : Z := 10.

(** ** State *)

(** What [parent_bit_packed] encodes: the address of a root pointer with the
    bits [2], or of a child pointer with its index. *)
Inductive slot :=
| RootSlot (v6 : bool)
| BitSlot (a : Z) (b : bool).

#[global] Instance slot_eq_dec : EqDecision slot.
Proof. solve_decision. Defined.

Record allowedips_node := Node {
  peer : option Z;
  bit0 : option Z;
  bit1 : option Z;
  cidr : Z;
  bit_at_a : Z;
  bit_at_b : Z;
  bitlen : Z;
  bits : list Z;
  parent_bit_packed : slot
}.

(** The table, the heap of its nodes, the list heads of the peers, and the
    answers of the allocator still to come (no answer left: success). *)
Record table := Table {
  heap : gmap Z allowedips_node;
  root4 : option Z;
  root6 : option Z;
  seq : Z;
  lists : gmap Z (list Z);
  answers : list bool
}.

Definition bit (nd : allowedips_node) (b : bool) : option Z := if b then bit1 nd else bit0 nd.
Definition root (st : table) (v6 : bool) : option Z := if v6 then root6 st else root4 st.
(** [peer->allowedips_list] *)
Definition plist (st : table) (p : Z) : list Z := default [] (lists st !! p).

Definition set_peer (p : option Z) (nd : allowedips_node) : allowedips_node :=
  Node p (bit0 nd) (bit1 nd) (cidr nd) (bit_at_a nd) (bit_at_b nd) (bitlen nd) (bits nd) (parent_bit_packed nd).
Definition set_bit (b : bool) (q : option Z) (nd : allowedips_node) : allowedips_node :=
  Node (peer nd) (if b then bit0 nd else q) (if b then q else bit1 nd)
    (cidr nd) (bit_at_a nd) (bit_at_b nd) (bitlen nd) (bits nd) (parent_bit_packed nd).
Definition set_parent (s : slot) (nd : allowedips_node) : allowedips_node :=
  Node (peer nd) (bit0 nd) (bit1 nd) (cidr nd) (bit_at_a nd) (bit_at_b nd) (bitlen nd) (bits nd) s.

Definition set_heap (f : gmap Z allowedips_node -> gmap Z allowedips_node) (st : table) : table :=
  Table (f (heap st)) (root4 st) (root6 st) (seq st) (lists st) (answers st).
Definition set_root (v6 : bool) (q : option Z) (st : table) : table :=
  Table (heap st) (if v6 then root4 st else q) (if v6 then q else root6 st) (seq st) (lists st) (answers st).
Definition set_lists (f : gmap Z (list Z) -> gmap Z (list Z)) (st : table) : table :=
  Table (heap st) (root4 st) (root6 st) (seq st) (f (lists st)) (answers st).
(** [++table->seq] *)
Definition bump_seq (st : table) : table :=
  Table (heap st) (root4 st) (root6 st) (u64 (seq st + 1)) (lists st) (answers st).

(** ** Memory accesses *)

(** Computations on the state; [None] is an invalid access. *)
Definition M (A : Type) : Type := table -> option (A * table).
#[global] Instance M_ret : MRet M := fun A x st => Some (x, st).
#[global] Instance M_bind : MBind M := fun A B k m st =>
  match m st with Some (x, st') => k x st' | None => None end.

Definition get_node (a : Z) : M allowedips_node := fun st =>
  match heap st !! a with Some nd => Some (nd, st) | None => None end.
Definition upd (a : Z) (f : allowedips_node -> allowedips_node) (st : table) : table := set_heap (alter f a) st.
#[global] Arguments upd : simpl never.
Definition modify (a : Z) (f : allowedips_node -> allowedips_node) : M unit := fun st =>
  match heap st !! a with Some _ => Some (tt, upd a f st) | None => None end.
Definition read_slot (s : slot) : M (option Z) :=
  match s with
  | RootSlot v => fun st => Some (root st v, st)
  | BitSlot a b => nd ← get_node a; mret (bit nd b)
  end.
Definition write_slot (s : slot) (q : option Z) : M unit :=
  match s with
  | RootSlot v => fun st => Some (tt, set_root v q st)
  | BitSlot a b => modify a (set_bit b q)
  end.

Definition zero_node : allowedips_node :=
  Node None None None 0 0 0 0 (replicate 16 0) (RootSlot false).

Definition pop (st : table) : table :=
  Table (heap st) (root4 st) (root6 st) (seq st) (lists st) (tail (answers st)).
Definition kmem_cache_zalloc : M (option Z) := fun st =>
  match answers st with
  | false :: _ => Some (None, pop st)
  | _ => let a := fresh (dom (heap st)) in Some (Some a, set_heap <[a := zero_node]> (pop st))
  end.
Definition kmem_cache_free (a : Z) : M unit := fun st =>
  match heap st !! a with Some _ => Some (tt, set_heap (delete a) st) | None => None end.

(** The kernel's lists: an entry is unlinked from the list it is on, if any. *)
Definition list_del (a : Z) : M unit := fun st =>
  Some (tt, set_lists (fmap (filter (fun x => x <> a))) st).
Definition list_add_tail (a p : Z) : M unit := fun st =>
  Some (tt, set_lists <[p := plist st p ++ [a]]> st).
Definition list_move_tail (a p : Z) : M unit := list_del a ≫= fun _ => list_add_tail a p.

(** ** Walking the trie *)

(** [copy_and_assign_cidr]; reading [src] past its end is undefined. *)
Definition assign_cidr (src : list Z) (c bs : Z) (nd : allowedips_node) : allowedips_node :=
  Node (peer nd) (bit0 nd) (bit1 nd) c (bit_at_a_of c bs) (bit_at_b_of c) bs
    (firstn (Z.to_nat (bs / 8)) src ++ skipn (Z.to_nat (bs / 8)) (bits nd)) (parent_bit_packed nd).
Definition copy_and_assign_cidr (a : Z) (src : list Z) (c bs : Z) : M unit :=
  if bs / 8 <=? len src then modify a (assign_cidr src c bs) else fun _ => None.

Definition choose (nd : allowedips_node) (key : list Z) : option bool := choose_bit (bit_at_a nd) (bit_at_b nd) key.

Definition prefix_matches (nd : allowedips_node) (key : list Z) (bs : Z) : bool :=
  cidr nd <=? common_bits (bits nd) key bs.

(** An unsigned comparison of the source that may read out of bounds. *)
Definition lift {A} (o : option A) : M A := fun st => match o with Some x => Some (x, st) | None => None end.

(** The loop of [find_node]; its result is the node found. *)
Fixpoint find_node (fuel : nat) (h : gmap Z allowedips_node) (node : option Z) (found : option Z)
    (bs : Z) (key : list Z) : option (option Z) :=
  match fuel, node with
  | O, _ => None
  | S _, None => Some found
  | S f, Some a =>
      match h !! a with
      | None => None
      | Some nd =>
          if prefix_matches nd key bs then
            let found := match peer nd with Some _ => Some a | None => found end in
            if cidr nd =? bs then Some found
            else match choose nd key with
                 | Some b => find_node f h (bit nd b) found bs key
                 | None => None
                 end
          else Some found
      end
  end.

(** Enough for the deepest path: 129 nodes and the final test. *)
Definition DEPTH_FUEL : nat := 130.

(** [lookup]: each attempt sees a version of the table and of the peers'
    reference counts ([alive]: [wg_peer_get_maybe_zero] succeeds); an attempt
    that meets a dying peer is repeated.  [None] is an invalid access, or that
    no version was left. *)
Fixpoint allowedips_lookup (views : list (table * (Z -> bool))) (v6 : bool) (be_ip : list Z) : option (option Z) :=
  let bs := if v6 then 128 else 32 in
  let ip := swap_endian be_ip bs in
  match views with
  | [] => None
  | (st, alive) :: views' =>
      match find_node DEPTH_FUEL (heap st) (root st v6) None bs ip with
      | None => None
      | Some None => Some None
      | Some (Some a) =>
          match heap st !! a with
          | None => None
          | Some nd =>
              match peer nd with
              | Some p => if alive p then Some (Some p) else allowedips_lookup views' v6 be_ip
              | None => allowedips_lookup views' v6 be_ip
              end
          end
      end
  end.

(** The loop of [node_placement]: the parent reached and whether it is exact. *)
Fixpoint node_placement (fuel : nat) (h : gmap Z allowedips_node) (node parent : option Z)
    (key : list Z) (c bs : Z) : option (option Z * bool) :=
  match fuel, node with
  | O, _ => None
  | S _, None => Some (parent, false)
  | S f, Some a =>
      match h !! a with
      | None => None
      | Some nd =>
          if (cidr nd <=? c) && prefix_matches nd key bs then
            if cidr nd =? c then Some (Some a, true)
            else match choose nd key with
                 | Some b => node_placement f h (bit nd b) (Some a) key c bs
                 | None => None
                 end
          else Some (parent, false)
      end
  end.

Definition placement (v6 : bool) (key : list Z) (c bs : Z) : M (option Z * bool) := fun st =>
  match node_placement DEPTH_FUEL (heap st) (root st v6) None key c bs with
  | Some r => Some (r, st)
  | None => None
  end.

(** ** Insertion *)

Definition connect_node (s : slot) (node : Z) : M unit :=
  modify node (set_parent s) ≫= fun _ => write_slot s (Some node).

Definition choose_and_connect_node (parent node : Z) : M unit :=
  pnd ← get_node parent;
  nd ← get_node node;
  b ← lift (choose pnd (bits nd));
  connect_node (BitSlot parent b) node.

(** A new node carrying a peer. *)
Definition init_node (a : Z) (key : list Z) (c bs p : Z) : M unit :=
  modify a (set_peer (Some p)) ≫= fun _ =>
  list_add_tail a p ≫= fun _ =>
  copy_and_assign_cidr a key c bs.

(** [if (!parent) connect_node(trie, 2, node); else choose_and_connect_node(parent, node);] *)
Definition connect_below (v6 : bool) (parent : option Z) (node : Z) : M unit :=
  match parent with
  | None => connect_node (RootSlot v6) node
  | Some pa => choose_and_connect_node pa node
  end.

(** The part of [add] after the new node is initialised and the subtree [down]
    that has to go below it, or beside it, is known. *)
Definition add_above (v6 : bool) (bs : Z) (key : list Z) (c : Z) (parent : option Z) (down newnode : Z) : M Z :=
  dnd ← get_node down;
  let c := Z.min c (common_bits (bits dnd) key bs) in
  nnd ← get_node newnode;
  if cidr nnd =? c then
    choose_and_connect_node newnode down ≫= fun _ =>
    connect_below v6 parent newnode ≫= fun _ => mret 0
  else
    node ← kmem_cache_zalloc;
    match node with
    | None =>
        list_del newnode ≫= fun _ =>
        kmem_cache_free newnode ≫= fun _ => mret (- ENOMEM)
    | Some node =>
        nnd ← get_node newnode;
        copy_and_assign_cidr node (bits nnd) c bs ≫= fun _ =>
        choose_and_connect_node node down ≫= fun _ =>
        choose_and_connect_node node newnode ≫= fun _ =>
        connect_below v6 parent node ≫= fun _ => mret 0
    end.

(** The part of [add] for a prefix no node carries: [node] is the deepest node
    above it. *)
Definition add_new (v6 : bool) (bs : Z) (key : list Z) (c p : Z) (node : option Z) : M Z :=
  newnode ← kmem_cache_zalloc;
  match newnode with
  | None => mret (- ENOMEM)
  | Some newnode =>
      init_node newnode key c bs p ≫= fun _ =>
      match node with
      | None =>
          down ← read_slot (RootSlot v6);
          match down with
          | Some down => add_above v6 bs key c None down newnode
          | None => fun _ => None
          end
      | Some pa =>
          pnd ← get_node pa;
          b ← lift (choose pnd key);
          match bit pnd b with
          | None => connect_node (BitSlot pa b) newnode ≫= fun _ => mret 0
          | Some down => add_above v6 bs key c (Some pa) down newnode
          end
      end
  end.

Definition allowedips_add (v6 : bool) (bs : Z) (key : list Z) (c : Z) (p : option Z) : M Z :=
  match p with
  | None => mret (- EINVAL)
  | Some p =>
      if bs <? c then mret (- EINVAL)
      else
        r ← read_slot (RootSlot v6);
        match r with
        | None =>
            node ← kmem_cache_zalloc;
            match node with
            | None => mret (- ENOMEM)
            | Some node =>
                init_node node key c bs p ≫= fun _ =>
                connect_node (RootSlot v6) node ≫= fun _ => mret 0
            end
        | Some _ =>
            '(node, exact) ← placement v6 key c bs;
            match node, exact with
            | Some node, true =>
                modify node (set_peer (Some p)) ≫= fun _ =>
                list_move_tail node p ≫= fun _ => mret 0
            | _, _ => add_new v6 bs key c p node
            end
        end
  end.

(** ** Removal *)

(** [if (child) child->parent_bit_packed = s; *s = child;] *)
Definition replace_by (s : slot) (child : option Z) : M unit :=
  match child with
  | Some ch => modify ch (set_parent s)
  | None => mret tt
  end ≫= fun _ => write_slot s child.

Definition remove_node (a : Z) : M unit :=
  list_del a ≫= fun _ =>
  modify a (set_peer None) ≫= fun _ =>
  nd ← get_node a;
  match bit0 nd, bit1 nd with
  | Some _, Some _ => mret tt
  | b0, b1 =>
      let child := match b0 with Some _ => b0 | None => b1 end in
      replace_by (parent_bit_packed nd) child ≫= fun _ =>
      match child, parent_bit_packed nd with
      | None, BitSlot pa b =>
          pnd ← get_node pa;
          match peer pnd with
          | None =>
              kmem_cache_free a ≫= fun _ =>
              replace_by (parent_bit_packed pnd) (bit pnd (negb b)) ≫= fun _ =>
              kmem_cache_free pa
          | Some _ => kmem_cache_free a
          end
      | _, _ => kmem_cache_free a
      end
  end.

Definition allowedips_remove (v6 : bool) (bs : Z) (key : list Z) (c : Z) (p : option Z) : M Z :=
  if bs <? c then mret (- EINVAL)
  else
    r ← read_slot (RootSlot v6);
    match r with
    | None => mret 0
    | Some _ =>
        '(node, exact) ← placement v6 key c bs;
        match node, exact with
        | Some a, true =>
            nd ← get_node a;
            if decide (p = peer nd) then remove_node a ≫= fun _ => mret 0 else mret 0
        | _, _ => mret 0
        end
    end.

(** ** The exported operations *)

(** The new table; the argument is what the allocator will answer. *)
Definition wg_allowedips_init (ans : list bool) : table := Table ∅ None None 1 ∅ ans.

Definition bump : M unit := fun st => Some (tt, bump_seq st).

Definition wg_allowedips_insert_v4 (ip : list Z) (c : Z) (p : option Z) : M Z :=
  bump ≫= fun _ => allowedips_add false 32 (swap_endian ip 32) c p.
Definition wg_allowedips_insert_v6 (ip : list Z) (c : Z) (p : option Z) : M Z :=
  bump ≫= fun _ => allowedips_add true 128 (swap_endian ip 128) c p.
Definition wg_allowedips_remove_v4 (ip : list Z) (c : Z) (p : option Z) : M Z :=
  bump ≫= fun _ => allowedips_remove false 32 (swap_endian ip 32) c p.
Definition wg_allowedips_remove_v6 (ip : list Z) (c : Z) (p : option Z) : M Z :=
  bump ≫= fun _ => allowedips_remove true 128 (swap_endian ip 128) c p.

(** The entry after [a] on a list; [None] is the list head. *)
Fixpoint list_next (l : list Z) (a : Z) : option Z :=
  match l with
  | [] => None
  | x :: l' => if x =? a then hd_error l' else list_next l' a
  end.

(** [list_for_each_entry_safe]: the next entry is read before the current
    node is removed. *)
Fixpoint remove_each (fuel : nat) (p : Z) (node : option Z) : M unit :=
  match fuel, node with
  | _, None => mret tt
  | O, Some _ => fun _ => None
  | S f, Some a => fun st =>
      (get_node a ≫= fun _ => remove_node a ≫= fun _ => remove_each f p (list_next (plist st p) a)) st
  end.

Definition wg_allowedips_remove_by_peer (p : Z) : M unit := fun st =>
  match plist st p with
  | [] => Some (tt, st)
  | a :: _ => (bump ≫= fun _ => remove_each (length (plist st p)) p (Some a)) st
  end.

(** [push_rcu] on the array [stack], which has [MAX_ALLOWEDIPS_DEPTH] entries;
    without [DEBUG] the store is not checked. *)
Definition push_rcu (stack : list Z) (q : option Z) : option (list Z) :=
  match q with
  | None => Some stack
  | Some a => if len stack <? MAX_ALLOWEDIPS_DEPTH then Some (a :: stack) else None
  end.

(** The two loops over a whole trie: [root_remove_peer_lists] unlinks every
    node with a peer, [root_free_rcu] frees every node. *)
Fixpoint root_remove_peer_lists (fuel : nat) (stack : list Z) : M unit :=
  match fuel, stack with
  | _, [] => mret tt
  | O, _ => fun _ => None
  | S f, a :: stack =>
      nd ← get_node a;
      stack ← lift (push_rcu stack (bit0 nd));
      stack ← lift (push_rcu stack (bit1 nd));
      match peer nd with Some _ => list_del a | None => mret tt end ≫= fun _ =>
      root_remove_peer_lists f stack
  end.

Fixpoint root_free_rcu (fuel : nat) (stack : list Z) : M unit :=
  match fuel, stack with
  | _, [] => mret tt
  | O, _ => fun _ => None
  | S f, a :: stack =>
      nd ← get_node a;
      stack ← lift (push_rcu stack (bit0 nd));
      stack ← lift (push_rcu stack (bit1 nd));
      kmem_cache_free a ≫= fun _ =>
      root_free_rcu f stack
  end.

(** A root unlinked from the table: its lists now, its nodes after the grace
    period.  The fuel is the number of nodes of the heap. *)
Definition free_root (r : option Z) : M unit := fun st =>
  match r with
  | None => Some (tt, st)
  | Some a =>
      (root_remove_peer_lists (size (heap st)) [a] ≫= fun _ =>
       root_free_rcu (size (heap st)) [a]) st
  end.

Definition wg_allowedips_free : M unit := fun st =>
  let old4 := root4 st in
  let old6 := root6 st in
  (bump ≫= fun _ =>
   write_slot (RootSlot false) None ≫= fun _ =>
   write_slot (RootSlot true) None ≫= fun _ =>
   free_root old4 ≫= fun _ => free_root old6) st.

(** The address of a node in network order, masked: family, bytes and length. *)
Definition wg_allowedips_read_node (nd : allowedips_node) : option (Z * list Z * Z) :=
  let cidr_bytes := (cidr nd + 7) / 8 in
  let ip := swap_endian (bits nd) (bitlen nd) in
  let ip := firstn (Z.to_nat cidr_bytes) ip ++ replicate (Z.to_nat (bitlen nd / 8 - cidr_bytes)) 0 in
  let fam := if bitlen nd =? 32 then AF_INET else AF_INET6 in
  if cidr nd =? 0 then Some (fam, ip, cidr nd)
  else match ip !! Z.to_nat (cidr_bytes - 1) with
       | None => None
       | Some b =>
           let m := u8 (Z.land b (u32 (Z.shiftl (2 ^ 32 - 1) (u32 (- cidr nd) mod 8)))) in
           Some (fam, <[Z.to_nat (cidr_bytes - 1) := m]> ip, cidr nd)
       end.

(** The addresses of a packet in network order. *)
Record packet := Packet { protocol : Z; saddr : list Z; daddr : list Z }.

Definition lookup_by (views : list (table * (Z -> bool))) (proto : Z) (addr : list Z) : option (option Z) :=
  if proto =? ETH_P_IP then allowedips_lookup views false addr
  else if proto =? ETH_P_IPV6 then allowedips_lookup views true addr
  else Some None.
Definition wg_allowedips_lookup_dst views (skb : packet) := lookup_by views (protocol skb) (daddr skb).
Definition wg_allowedips_lookup_src views (skb : packet) := lookup_by views (protocol skb) (saddr skb).

(** * What the heap represents *)

Section Rep.

(** The width of the addresses of one of the two tries. *)
Variable bs : Z.
Let n : nat := Z.to_nat bs.

(** The fields of a node that do not depend on its position. *)
Definition node_ok (nd : allowedips_node) (k : list bool) (c : nat) (pe : option Z) : Prop :=
  peer nd = pe /\ cidr nd = Z.of_nat c /\ bit_at_a nd = bit_at_a_of (Z.of_nat c) bs /\
  bit_at_b nd = bit_at_b_of (Z.of_nat c) /\ bitlen nd = bs /\ len (bits nd) = 16 /\
  all_bytes (bits nd) /\ kbits bs (bits nd) = k.

(** The trie below the pointer [q] stored in slot [s]. *)
Fixpoint rep (h : gmap Z allowedips_node) (s : slot) (q : option Z) (t : trie) : Prop :=
  match t with
  | E => q = None
  | T a k c pe l r =>
      q = Some a /\ exists nd, h !! a = Some nd /\ node_ok nd k c pe /\ parent_bit_packed nd = s /\
        rep h (BitSlot a false) (bit0 nd) l /\ rep h (BitSlot a true) (bit1 nd) r
  end.

Definition slot_of (v : bool) (ctx : list frame) : slot :=
  match ctx with [] => RootSlot v | f :: _ => BitSlot (fr_a f) (fr_bit f) end.
Definition parent_of (ctx : list frame) : option Z :=
  match ctx with [] => None | f :: _ => Some (fr_a f) end.

(** The path from the root pointer [r] to a slot that holds [q]. *)
Fixpoint repc (h : gmap Z allowedips_node) (r : option Z) (v : bool) (ctx : list frame) (q : option Z) : Prop :=
  match ctx with
  | [] => r = q
  | f :: ctx' =>
      exists nd, h !! fr_a f = Some nd /\ node_ok nd (fr_k f) (fr_c f) (fr_pe f) /\ bit nd (fr_bit f) = q /\
        rep h (BitSlot (fr_a f) (negb (fr_bit f))) (bit nd (negb (fr_bit f))) (fr_sib f) /\
        parent_bit_packed nd = slot_of v ctx' /\ repc h r v ctx' (Some (fr_a f))
  end.

Lemma rep_frame h h' s q t : (forall a, a ∈ addrs t -> h' !! a = h !! a) -> rep h s q t -> rep h' s q t.
Proof.
  revert s q. induction t as [|a k c pe l IHl r IHr]; intros s q Hf; [done|]. cbn [rep addrs] in *.
  intros (-> & nd & Hnd & Hok & Hs & Hl & Hr). split; [done|]. exists nd. rewrite Hf by set_solver.
  split_and!; try done; [apply IHl|apply IHr]; set_solver.
Qed.

Lemma repc_frame h h' r v ctx q : (forall a, a ∈ caddrs ctx -> h' !! a = h !! a) -> repc h r v ctx q -> repc h' r v ctx q.
Proof.
  revert q. induction ctx as [|f ctx IH]; intros q Hf; [done|]. cbn [repc caddrs] in *.
  intros (nd & Hnd & Hok & Hq & Hs & Hp & Hc). exists nd. rewrite Hf by set_solver.
  split_and!; try done; [eapply rep_frame; [|done]; set_solver|apply IH; [set_solver|done]].
Qed.

Lemma rep_plug h r v ctx t : rep h (RootSlot v) r (plug ctx t) <->
  exists q, repc h r v ctx q /\ rep h (slot_of v ctx) q t.
Proof.
  revert t. induction ctx as [|f ctx IH]; intros t; cbn [plug repc slot_of].
  - split; [by exists r|]. by intros (? & <- & ?).
  - rewrite IH. destruct f as [a k c pe b sib]. unfold fill. cbn [fr_a fr_k fr_c fr_pe fr_bit fr_sib].
    destruct b; cbn [rep bit negb]; split.
    + intros (q & Hc & -> & nd & ? & ? & ? & ? & ?). exists (bit1 nd). split; [by exists nd|done].
    + intros (q & (nd & ? & ? & <- & ? & ? & ?) & ?). exists (Some a). split; [done|]. split; [done|]. by exists nd.
    + intros (q & Hc & -> & nd & ? & ? & ? & ? & ?). exists (bit0 nd). split; [by exists nd|done].
    + intros (q & (nd & ? & ? & <- & ? & ? & ?) & ?). exists (Some a). split; [done|]. split; [done|]. by exists nd.
Qed.

Lemma addrs_plug ctx t : addrs (plug ctx t) ≡ₚ addrs t ++ caddrs ctx.
Proof.
  revert t. induction ctx as [|f ctx IH]; intros t; cbn [plug caddrs]; [by rewrite app_nil_r|].
  rewrite IH. unfold fill. destruct (fr_bit f); cbn [addrs]; solve_Permutation.
Qed.

(** ** Bits and arrays *)

Hypothesis Hbs : bits_ok bs.

Lemma bs_pos : 32 <= bs <= 128.
Proof. destruct Hbs; lia. Qed.

Lemma node_addr nd k c pe : node_ok nd k c pe -> addr_ok bs (bits nd).
Proof. intros (_ & _ & _ & _ & _ & Hl & Hb & _). split; [|done]. destruct Hbs as [-> | ->]; rewrite Hl; lia. Qed.

Lemma prefix_matches_lcp nd k c pe key : node_ok nd k c pe -> addr_ok bs key ->
  prefix_matches nd key bs = (c <=? lcp k (kbits bs key))%nat.
Proof.
  intros Hok Hkey. unfold prefix_matches. rewrite common_bits_lcp by (try done; by eapply node_addr).
  destruct Hok as (_ & -> & _ & _ & _ & _ & _ & ->). destruct (Nat.leb_spec c (lcp k (kbits bs key))); lia.
Qed.

Lemma choose_lookup nd k c pe key : node_ok nd k c pe -> addr_ok bs key -> (c < n)%nat ->
  choose nd key = kbits bs key !! c.
Proof.
  intros (_ & _ & Ha & Hb & _) Hkey Hc. unfold choose. rewrite Ha, Hb.
  rewrite choose_bit_kbits by (try done; lia). by rewrite Nat2Z.id.
Qed.

Lemma kbits_len key : addr_ok bs key -> length (kbits bs key) = n.
Proof. intros Hk. pose proof (kbits_length bs key Hbs Hk) as H. unfold len in H. lia. Qed.

(** ** The two walks *)

(** What is known about the node found so far. *)
Definition found_ok (h : gmap Z allowedips_node) (found : option Z) (fp : option Z) : Prop :=
  match found with
  | None => fp = None
  | Some a => is_Some fp /\ exists nd, h !! a = Some nd /\ peer nd = fp
  end.

(** Nodes still to visit on the way down: the prefixes below grow. *)
Lemma find_node_walk h fuel s p t found fp key q : addr_ok bs key -> rep h s p t -> wf n q t ->
  (length q <= n)%nat -> (n + 1 < fuel + length q)%nat -> found_ok h found fp ->
  exists f, find_node fuel h p found bs key = Some f /\ found_ok h f (walk n fp t (kbits bs key)).
Proof.
  intros Hkey. pose proof (kbits_len key Hkey) as Hn. revert fuel s p found fp q.
  induction t as [|a k c pe l IHl r IHr]; intros fuel s p found fp q Hr Hw Hqn Hfuel Hf; cbn [rep wf walk] in *.
  { subst p. destruct fuel; [lia|]. by exists found. }
  destruct Hr as (-> & nd & Hnd & Hok & _ & Hl & Hr). destruct Hw as (Hk & Hc & Hq & Hwl & Hwr & _).
  apply prefix_length in Hq. rewrite (firstn_len n) in Hq by done.
  destruct fuel as [|fuel]; [lia|]. cbn [find_node]. rewrite Hnd, (prefix_matches_lcp nd k c pe key) by done.
  destruct (c <=? lcp k (kbits bs key))%nat eqn:Em; [|by exists found].
  set (fd := match peer nd with Some _ => Some a | None => found end).
  set (fp' := match pe with Some p => Some p | None => fp end).
  assert (found_ok h fd fp') as Hf'.
  { unfold fd, fp'. destruct Hok as (Hpe & _). rewrite Hpe. destruct pe; [|done]. split; [done|]. by exists nd. }
  assert (cidr nd = Z.of_nat c) as -> by apply Hok.
  destruct (Nat.eqb_spec c n) as [->|Hne].
  { replace (Z.of_nat n =? bs) with true by (symmetry; apply Z.eqb_eq; unfold n; pose proof bs_pos; lia). by exists fd. }
  replace (Z.of_nat c =? bs) with false by (symmetry; apply Z.eqb_neq; unfold n in *; lia).
  rewrite (choose_lookup nd k c pe key) by (done || lia).
  destruct (lookup_lt_is_Some_2 (kbits bs key) c) as [b Hb]; [lia|]. rewrite Hb.
  destruct b; [eapply (IHr fuel _ (bit1 nd))|eapply (IHl fuel _ (bit0 nd))]; try done.
  all: rewrite length_app, (firstn_len n) by done; cbn [length]; lia.
Qed.

Lemma node_placement_zplace h fuel s p t ctx key c q : addr_ok bs key -> (c <= n)%nat -> rep h s p t -> wf n q t ->
  (length q <= n)%nat -> (n + 1 < fuel + length q)%nat ->
  let '(ctx', t', ex) := zplace t (kbits bs key) c ctx in
  node_placement fuel h p (parent_of ctx) key (Z.of_nat c) bs =
    Some (if ex then (match t' with T a _ _ _ _ _ => Some a | E => None end, true) else (parent_of ctx', false)).
Proof.
  intros Hkey Hcn. pose proof (kbits_len key Hkey) as Hn. revert fuel s p ctx q.
  induction t as [|a k ca pe l IHl r IHr]; intros fuel s p ctx q Hr Hw Hqn Hfuel; cbn [rep wf zplace] in *.
  { subst p. destruct fuel; [lia|done]. }
  destruct Hr as (-> & nd & Hnd & Hok & _ & Hl & Hr). destruct Hw as (Hk & Hc & Hq & Hwl & Hwr & _).
  apply prefix_length in Hq. rewrite (firstn_len n) in Hq by done.
  destruct fuel as [|fuel]; [lia|]. cbn [node_placement]. rewrite Hnd, (prefix_matches_lcp nd k ca pe key) by done.
  assert (cidr nd = Z.of_nat ca) as -> by apply Hok.
  replace (Z.of_nat ca <=? Z.of_nat c) with (ca <=? c)%nat by (destruct (Nat.leb_spec ca c); lia).
  destruct (Nat.leb_spec ca c) as [H1|H1]; cbn [andb]; [|done].
  destruct (ca <=? lcp k (kbits bs key))%nat eqn:Em; cbn [andb]; [|done].
  replace (Z.of_nat ca =? Z.of_nat c) with (ca =? c)%nat by (destruct (Nat.eqb_spec ca c); lia).
  destruct (Nat.eqb_spec ca c) as [->|Hne]; [done|].
  rewrite (choose_lookup nd k ca pe key) by (done || lia).
  destruct (lookup_lt_is_Some_2 (kbits bs key) ca) as [b Hb]; [lia|]. rewrite Hb.
  assert (forall bb, length (firstn ca k ++ [bb]) = S ca) as Hlen
    by (intros; rewrite length_app, (firstn_len n) by done; cbn [length]; lia).
  destruct b.
  - specialize (IHr fuel _ (bit1 nd) (Frame a k ca pe true l :: ctx) _ Hr Hwr). rewrite Hlen in IHr.
    apply IHr; lia.
  - specialize (IHl fuel _ (bit0 nd) (Frame a k ca pe false r :: ctx) _ Hl Hwl). rewrite Hlen in IHl.
    apply IHl; lia.
Qed.

End Rep.

(** * Changing the heap *)

(** The state after a pointer was stored in a slot. *)
Definition put_slot (s : slot) (q : option Z) (st : table) : table :=
  match s with
  | RootSlot v => set_root v q st
  | BitSlot a b => upd a (set_bit b q) st
  end.

Definition reparent (s : slot) (q : option Z) (st : table) : table :=
  match q with Some d => upd d (set_parent s) st | None => st end.

(** The state after [replace_by] and [connect_node]. *)
Definition relink (s : slot) (q : option Z) (st : table) : table := put_slot s q (reparent s q st).

(** The peer field of an allocated node. *)
Definition hp (st : table) (a : Z) : option (option Z) := peer <$> heap st !! a.

Definition slot_valid (st : table) (s : slot) : Prop :=
  match s with RootSlot _ => True | BitSlot a _ => is_Some (heap st !! a) end.

(** Address whose node holds the slot, if it is not a root. *)
Definition owner (s : slot) (a : Z) : Prop := match s with RootSlot _ => False | BitSlot x _ => x = a end.

Lemma heap_upd a f st x : heap (upd a f st) !! x = if decide (a = x) then f <$> heap st !! x else heap st !! x.
Proof. unfold upd, set_heap. cbn [heap]. rewrite lookup_alter. case_decide; by subst. Qed.

Lemma heap_upd_is_Some a f st x : is_Some (heap (upd a f st) !! x) <-> is_Some (heap st !! x).
Proof. rewrite heap_upd. case_decide; [|done]. by rewrite fmap_is_Some. Qed.

Lemma modify_ok a f st : is_Some (heap st !! a) -> modify a f st = Some (tt, upd a f st).
Proof. intros [nd Hnd]. unfold modify. by rewrite Hnd. Qed.

Lemma get_node_ok a st nd : heap st !! a = Some nd -> get_node a st = Some (nd, st).
Proof. intros H. unfold get_node. by rewrite H. Qed.

Lemma write_slot_ok s q st : slot_valid st s -> write_slot s q st = Some (tt, put_slot s q st).
Proof. destruct s; [done|]. cbn. apply modify_ok. Qed.

Lemma reparent_valid st s q s' : slot_valid st s' -> slot_valid (reparent s q st) s'.
Proof. destruct s', q; cbn; try done. by rewrite heap_upd_is_Some. Qed.

Lemma replace_by_ok s q st : slot_valid st s -> (forall d, q = Some d -> is_Some (heap st !! d)) ->
  replace_by s q st = Some (tt, relink s q st).
Proof.
  intros Hs Hq. unfold replace_by, relink, mbind, M_bind. destruct q as [d|]; cbn [reparent].
  - rewrite modify_ok by auto. apply write_slot_ok. destruct s; [done|]. cbn. by rewrite heap_upd_is_Some.
  - by apply write_slot_ok.
Qed.

(** *** What linking leaves alone *)

Lemma hp_upd a f st x : (forall nd, peer (f nd) = peer nd) -> hp (upd a f st) x = hp st x.
Proof.
  intros Hf. unfold hp. rewrite heap_upd. case_decide; [|done]. destruct (heap st !! x); cbn; [|done]. by rewrite Hf.
Qed.

Lemma hp_relink s q st x : hp (relink s q st) x = hp st x.
Proof.
  transitivity (hp (reparent s q st) x); [destruct s; cbn; [done|by apply hp_upd]|].
  destruct q; cbn; [by apply hp_upd|done].
Qed.

Lemma hp_is_Some st x : is_Some (hp st x) <-> is_Some (heap st !! x).
Proof. unfold hp. by rewrite fmap_is_Some. Qed.

Lemma lists_relink s q st : lists (relink s q st) = lists st.
Proof. by destruct s, q. Qed.

Lemma answers_relink s q st : answers (relink s q st) = answers st.
Proof. by destruct s, q. Qed.

Lemma plist_relink s q st p : plist (relink s q st) p = plist st p.
Proof. unfold plist. by rewrite lists_relink. Qed.

Lemma heap_relink s q st x : q <> Some x -> ~ owner s x -> heap (relink s q st) !! x = heap st !! x.
Proof.
  intros Hq Ho. transitivity (heap (reparent s q st) !! x).
  - destruct s; cbn in *; [done|]. rewrite heap_upd. by rewrite decide_False.
  - destruct q as [d|]; cbn; [|done]. rewrite heap_upd. rewrite decide_False; [done|]. congruence.
Qed.

Lemma root_relink s q st v : s <> RootSlot v -> root (relink s q st) v = root st v.
Proof. destruct s as [w|], q; cbn; try done; intros H; by destruct v, w. Qed.

#[export] Hint Rewrite hp_relink lists_relink answers_relink plist_relink : awg.

(** *** Linking a subtree below a path *)

Section Link.

Variable bs : Z.

Lemma rep_reparent h s s' q t : NoDup (addrs t) -> rep bs h s q t ->
  rep bs (match q with Some d => alter (set_parent s') d h | None => h end) s' q t.
Proof.
  destruct t as [|a k c pe l r]; cbn [rep addrs]; [by intros _ ->|].
  intros Hnd (-> & nd & Ha & Hok & _ & Hl & Hr). split; [done|]. exists (set_parent s' nd).
  rewrite lookup_alter_eq, Ha. apply NoDup_cons in Hnd as [Hnd _].
  ands; try done; (eapply rep_frame; [|done]); intros x Hx; rewrite lookup_alter_ne; set_solver.
Qed.

Lemma bit_set_bit b q nd : bit (set_bit b q nd) b = q.
Proof. by destruct b. Qed.
Lemma bit_set_bit_ne b q nd : bit (set_bit b q nd) (negb b) = bit nd (negb b).
Proof. by destruct b. Qed.

Lemma repc_put st v ctx q q' : NoDup (caddrs ctx) -> repc bs (heap st) (root st v) v ctx q ->
  repc bs (heap (put_slot (slot_of v ctx) q' st)) (root (put_slot (slot_of v ctx) q' st) v) v ctx q'.
Proof.
  destruct ctx as [|f ctx]; cbn [slot_of put_slot repc caddrs]; [by destruct v|].
  intros (Hn1 & Hn2)%NoDup_cons (nd & Ha & Hok & _ & Hs & Hp & Hc). exists (set_bit (fr_bit f) q' nd).
  rewrite heap_upd, decide_True, Ha, bit_set_bit, bit_set_bit_ne by done. ands; try done.
  - eapply rep_frame; [|done]. intros x Hx. rewrite heap_upd, decide_False; [done|]. set_solver.
  - eapply repc_frame; [|done]. intros x Hx. rewrite heap_upd, decide_False; [done|]. set_solver.
Qed.

Lemma slot_of_valid st v ctx q : repc bs (heap st) (root st v) v ctx q -> slot_valid st (slot_of v ctx).
Proof. destruct ctx; cbn; [done|]. intros (nd & -> & _). done. Qed.

Lemma owner_caddrs v ctx a : owner (slot_of v ctx) a -> a ∈ caddrs ctx.
Proof. destruct ctx; cbn; [done|]. intros <-. set_solver. Qed.

Lemma rep_root_addr h s d t : rep bs h s (Some d) t -> d ∈ addrs t /\ is_Some (h !! d).
Proof. destruct t; cbn; [done|]. intros ([= <-] & nd & -> & _). split; [set_solver|done]. Qed.

(** A subtree hung into the slot at the end of a path. *)
Lemma relink_ok st v ctx q0 s0 q t : repc bs (heap st) (root st v) v ctx q0 -> rep bs (heap st) s0 q t ->
  NoDup (addrs t ++ caddrs ctx) ->
  replace_by (slot_of v ctx) q st = Some (tt, relink (slot_of v ctx) q st) /\
  rep bs (heap (relink (slot_of v ctx) q st)) (RootSlot v) (root (relink (slot_of v ctx) q st) v) (plug ctx t).
Proof.
  intros Hc Ht (Hn1 & Hn2 & Hn3)%NoDup_app. set (s := slot_of v ctx). split.
  - apply replace_by_ok; [by eapply slot_of_valid|]. intros d ->. by eapply rep_root_addr.
  - apply rep_plug. exists q.
    assert (repc bs (heap (reparent s q st)) (root (reparent s q st) v) v ctx q0) as Hc'.
    { replace (root (reparent s q st) v) with (root st v) by (by destruct q).
      eapply repc_frame; [|exact Hc]. intros x Hx. destruct q as [d|]; cbn; [|done]. rewrite heap_upd.
      rewrite decide_False; [done|]. intros ->. apply rep_root_addr in Ht as [Ht _]. by apply (Hn2 x). }
    split; [by eapply repc_put|]. apply (rep_reparent _ _ s) in Ht; [|done].
    eapply rep_frame; [|exact Ht]. intros x Hx. unfold relink.
    assert (~ owner s x) by (intros Ho%owner_caddrs; by apply (Hn2 x)).
    destruct s as [w|a b] eqn:Es; cbn [put_slot owner] in *; [by destruct q|].
    rewrite heap_upd, decide_False by done. by destruct q.
Qed.

End Link.

(** * Insertion *)

Lemma zalloc_cases st :
  (hd true (answers st) = false /\ kmem_cache_zalloc st = Some (None, pop st)) \/
  (hd true (answers st) = true /\ exists a, heap st !! a = None /\
     kmem_cache_zalloc st = Some (Some a, set_heap <[a := zero_node]> (pop st))).
Proof.
  unfold kmem_cache_zalloc. destruct (answers st) as [|[] ans]; [right| right|by left].
  all: split; [done|]; eexists; split; [|done]; apply not_elem_of_dom, is_fresh.
Qed.

Section Insert.

Variable bs : Z.
Hypothesis Hbs : bits_ok bs.
Variable v : bool.
Let n : nat := Z.to_nat bs.

Lemma swap_endian_copy src rest : bs / 8 <= len src ->
  swap_endian (firstn (Z.to_nat (bs / 8)) src ++ rest) bs = swap_endian src bs.
Proof.
  intros Hl. unfold swap_endian. destruct Hbs as [-> | ->]; cbn [Z.eqb Pos.eqb].
  - change (Z.to_nat (32 / 8)) with 4%nat. unfold len in Hl. rewrite take_app_le by (rewrite length_take; lia).
    by rewrite firstn_firstn.
  - change (Z.to_nat (128 / 8)) with 16%nat. unfold len in Hl.
    rewrite take_app_le, skipn_app, take_app_le, firstn_firstn by (rewrite ?length_drop, ?length_take; lia).
    f_equal. by rewrite skipn_firstn_comm, firstn_firstn.
Qed.

Lemma assign_ok nd src c : addr_ok bs src -> len (bits nd) = 16 -> all_bytes (bits nd) ->
  node_ok bs (assign_cidr src (Z.of_nat c) bs nd) (kbits bs src) c (peer nd).
Proof.
  intros [Hl Hb] H16 Hnb. unfold node_ok, assign_cidr. cbn. ands; try done.
  - pose proof (bs_pos bs Hbs). rewrite len_app, len_take, len_drop by lia. lia.
  - apply Forall_app. split; [by apply Forall_take|by apply Forall_drop].
  - unfold kbits. by rewrite swap_endian_copy.
Qed.

Lemma copy_assign_ok st a src c nd : addr_ok bs src -> heap st !! a = Some nd ->
  copy_and_assign_cidr a src c bs st = Some (tt, upd a (assign_cidr src c bs) st).
Proof.
  intros [Hl _] Ha. unfold copy_and_assign_cidr. destruct (Z.leb_spec (bs / 8) (len src)); [|lia].
  apply modify_ok. by rewrite Ha.
Qed.

(** The state after a new node was allocated and initialised. *)
Record fresh_node (st st' : table) (a : Z) (k : list bool) (c : nat) (pe : option Z) : Prop := {
  fn_new : heap st !! a = None;
  fn_node : exists nd, heap st' !! a = Some nd /\ node_ok bs nd k c pe /\ bit0 nd = None /\ bit1 nd = None;
  fn_heap : forall x, x <> a -> heap st' !! x = heap st !! x;
  fn_root : forall w, root st' w = root st w;
  fn_answers : answers st' = tail (answers st)
}.

Lemma init_ok st a key c p : addr_ok bs key -> heap st !! a = None ->
  exists st', init_node a key (Z.of_nat c) bs p (set_heap <[a := zero_node]> (pop st)) = Some (tt, st') /\
    fresh_node st st' a (kbits bs key) c (Some p) /\ lists st' = <[p := plist st p ++ [a]]> (lists st).
Proof.
  intros Hkey Ha. unfold init_node, mbind, M_bind.
  rewrite modify_ok by (cbn; rewrite lookup_insert_eq; done). cbn [list_add_tail].
  erewrite copy_assign_ok; [|done|cbn; rewrite heap_upd, decide_True by done; cbn; rewrite lookup_insert_eq; done].
  eexists. split; [done|]. split; [|done]. split; [done| | |by intros []|done].
  - eexists. rewrite heap_upd, decide_True by done. cbn. rewrite heap_upd, decide_True by done. cbn. rewrite lookup_insert_eq. split; [done|].
    split; [|done]. apply (assign_ok (set_peer (Some p) zero_node)); [done..|]. by apply Forall_replicate.
  - intros x Hx. rewrite heap_upd, decide_False by done. cbn. rewrite heap_upd, decide_False by done. cbn. by rewrite lookup_insert_ne.
Qed.

Lemma branch_ok st a src c : addr_ok bs src -> heap st !! a = None ->
  exists st', copy_and_assign_cidr a src (Z.of_nat c) bs (set_heap <[a := zero_node]> (pop st)) = Some (tt, st') /\
    fresh_node st st' a (kbits bs src) c None /\ lists st' = lists st.
Proof.
  intros Hkey Ha. erewrite copy_assign_ok; [|done|cbn; by rewrite lookup_insert_eq].
  eexists. split; [done|]. split; [|done]. split; [done| | |by intros []|done].
  - eexists. rewrite heap_upd, decide_True by done. cbn. rewrite lookup_insert_eq. split; [done|].
    split; [|done]. apply (assign_ok zero_node); [done..|]. by apply Forall_replicate.
  - intros x Hx. rewrite heap_upd, decide_False by done. cbn. by rewrite lookup_insert_ne.
Qed.

(** Hanging the subtree [t] below the new node [x]. *)
Lemma hang_ok st x nd kx cx pex s0 d k c pe l r b :
  let t := T d k c pe l r in
  let st' := relink (BitSlot x b) (Some d) st in
  heap st !! x = Some nd -> node_ok bs nd kx cx pex -> (cx < n)%nat -> rep bs (heap st) s0 (Some d) t ->
  k !! cx = Some b -> NoDup (addrs t) -> x ∉ addrs t ->
  choose_and_connect_node x d st = Some (tt, st') /\
  heap st' !! x = Some (set_bit b (Some d) nd) /\ rep bs (heap st') (BitSlot x b) (Some d) t.
Proof.
  intros t st' Hx Hok Hc Ht Hb Hnd Hxt. pose proof Ht as (_ & ndd & Hd & Hokd & _). assert (x <> d) by set_solver.
  ands.
  - unfold choose_and_connect_node, mbind, M_bind. rewrite (get_node_ok _ _ _ Hx), (get_node_ok _ _ _ Hd).
    rewrite (choose_lookup bs Hbs nd kx cx pex) by (done || by eapply node_addr).
    assert (kbits bs (bits ndd) = k) as -> by apply Hokd. rewrite Hb. cbn [lift].
    apply (replace_by_ok (BitSlot x b) (Some d)); [by exists nd|]. intros ? [= <-]. by exists ndd.
  - unfold st', relink. cbn. rewrite !heap_upd. rewrite decide_True, decide_False by done. by rewrite Hx.
  - apply (rep_reparent _ _ _ (BitSlot x b)) in Ht; [|done]. eapply rep_frame; [|exact Ht].
    intros y Hy. unfold st', relink. cbn. rewrite heap_upd, decide_False by set_solver. done.
Qed.

(** Linking a node where its path ends. *)
Lemma connect_below_ok st ctx q0 s0 d k c pe l r : repc bs (heap st) (root st v) v ctx q0 ->
  rep bs (heap st) s0 (Some d) (T d k c pe l r) -> (c <= n)%nat -> length k = n ->
  hole ctx `prefix_of` firstn c k ->
  connect_below v (parent_of ctx) d st = replace_by (slot_of v ctx) (Some d) st.
Proof.
  intros Hc (_ & ndd & Hd & Hokd & _) Hcn Hk Hh. destruct ctx as [|f ctx]; [done|].
  cbn [parent_of connect_below hole repc slot_of] in *. destruct Hc as (nd & Hf & Hok & _).
  unfold choose_and_connect_node, mbind, M_bind. rewrite (get_node_ok _ _ _ Hf), (get_node_ok _ _ _ Hd).
  assert (length (firstn (fr_c f) (fr_k f)) = fr_c f /\ (fr_c f < n)%nat) as [Hlen Hlt].
  { assert (length (fr_k f) = n) as Hkf.
    { destruct Hok as (_ & _ & _ & _ & _ & H16 & Hb & <-). apply kbits_len; [done|]. split; [|done]. rewrite H16.
      destruct Hbs as [-> | ->]; lia. }
    apply prefix_length in Hh. rewrite length_app, !length_take in Hh. cbn [length] in Hh. rewrite length_take. lia. }
  rewrite (choose_lookup bs Hbs nd (fr_k f) (fr_c f) (fr_pe f)) by (done || by eapply node_addr).
  assert (kbits bs (bits ndd) = k) as -> by apply Hokd.
  apply prefix_snoc in Hh as [_ Hh]. rewrite Hlen in Hh. rewrite lookup_take_Some in Hh. destruct Hh as [-> _]. done.
Qed.

(** The subtree [t1], below the pointer [x], was built from [t] with the new
    node [a1] for peer [p] and the new branching nodes [new]. *)
Record sub_ok (st st1 : table) (t t1 : trie) (x p a1 : Z) (new : list Z) : Prop := {
  so_rep : exists s, rep bs (heap st1) s (Some x) t1;
  so_addrs : addrs t1 ≡ₚ a1 :: new ++ addrs t;
  so_fresh : forall y, y ∈ a1 :: new -> heap st !! y = None;
  so_nodup : NoDup (a1 :: new);
  so_other : forall y, y ∉ a1 :: new ++ addrs t -> heap st1 !! y = heap st !! y;
  so_root : forall w, root st1 w = root st w;
  so_peer : hp st1 a1 = Some (Some p);
  so_branch : forall y, y ∈ new -> hp st1 y = Some None;
  so_hp : forall y, y ∉ a1 :: new -> hp st1 y = hp st y;
  so_lists : forall p', plist st1 p' = if decide (p = p') then plist st p ++ [a1] else plist st p'
}.

Lemma fresh_hp st st' a k c pe : fresh_node st st' a k c pe -> hp st' a = Some pe.
Proof. intros [_ (nd & Ha & Hok & _) _ _ _]. unfold hp. rewrite Ha. cbn. f_equal. apply Hok. Qed.

Lemma fresh_hp_ne st st' a k c pe y : fresh_node st st' a k c pe -> y <> a -> hp st' y = hp st y.
Proof. intros [_ _ Hh _ _] Hy. unfold hp. by rewrite Hh. Qed.

Lemma plist_insert st st' p l p' : lists st' = <[p := l]> (lists st) ->
  plist st' p' = if decide (p = p') then l else plist st p'.
Proof. intros E. unfold plist. rewrite E, lookup_insert. by case_decide. Qed.

Lemma rep_alloc h s q t y : rep bs h s q t -> y ∈ addrs t -> is_Some (h !! y).
Proof.
  clear Hbs. revert s q. induction t as [|a k c pe l IHl r IHr]; intros s q Ht Hy; cbn in *; [set_solver|].
  destruct Ht as (_ & nd & Ha & _ & _ & Hl & Hr). apply elem_of_cons in Hy as [->|Hy]; [by exists nd|].
  apply elem_of_app in Hy as [Hy|Hy]; eauto.
Qed.

Lemma fresh_notin st st' a k c pe s q t : fresh_node st st' a k c pe -> rep bs (heap st) s q t -> a ∉ addrs t.
Proof. intros [Ha _ _ _ _] Ht Hin. eapply rep_alloc in Hin; [|done]. rewrite Ha in Hin. by destruct Hin. Qed.

Lemma fresh_rep st st' a k c pe s q t : fresh_node st st' a k c pe -> rep bs (heap st) s q t -> rep bs (heap st') s q t.
Proof.
  intros Hf Ht. eapply rep_frame; [|exact Ht]. intros y Hy. apply Hf. intros ->. by eapply fresh_notin.
Qed.

Lemma fresh_leaf st st' a k c pe : fresh_node st st' a k c pe -> exists s, rep bs (heap st') s (Some a) (T a k c pe E E).
Proof. intros [_ (nd & Ha & Hok & H0 & H1) _ _ _]. exists (parent_bit_packed nd). split; [done|]. by exists nd. Qed.

Lemma sub_leaf st st1 a1 key c p : fresh_node st st1 a1 key c (Some p) ->
  lists st1 = <[p := plist st p ++ [a1]]> (lists st) -> sub_ok st st1 E (T a1 key c (Some p) E E) a1 p a1 [].
Proof.
  intros Hf Hl. split.
  - by eapply fresh_leaf.
  - done.
  - intros y ->%list_elem_of_singleton. apply Hf.
  - apply NoDup_singleton.
  - intros y Hy. apply Hf. set_solver.
  - apply Hf.
  - by eapply fresh_hp.
  - set_solver.
  - intros y Hy. eapply fresh_hp_ne; [done|]. set_solver.
  - intros p'. by apply plist_insert.
Qed.

(** A node above [t]. *)
Lemma sub_above st st1 a1 key c p s0 d k ca pe l r b :
  let t := T d k ca pe l r in
  fresh_node st st1 a1 key c (Some p) -> lists st1 = <[p := plist st p ++ [a1]]> (lists st) ->
  rep bs (heap st) s0 (Some d) t -> NoDup (addrs t) -> (c < n)%nat -> k !! c = Some b ->
  exists st2, choose_and_connect_node a1 d st1 = Some (tt, st2) /\
    sub_ok st st2 t (node2 a1 key c (Some p) b t E) a1 p a1 [].
Proof.
  intros t Hf Hl Ht Hnd Hc Hb. pose proof (fresh_notin _ _ _ _ _ _ _ _ _ Hf Ht) as Ha.
  pose proof (fresh_rep _ _ _ _ _ _ _ _ _ Hf Ht) as Ht1. destruct (fn_node _ _ _ _ _ _ Hf) as (nd & Hnd1 & Hok & H0 & H1).
  destruct (hang_ok st1 a1 nd key c (Some p) s0 d k ca pe l r b) as (Hr & Hx & Hr2); [done..|].
  eexists. split; [exact Hr|]. split.
  - exists (parent_bit_packed nd). unfold node2.
    destruct b; (split; [done|]); (eexists; split; [exact Hx|]); ands; done.
  - destruct b; cbn; solve_Permutation.
  - intros y ->%list_elem_of_singleton. apply Hf.
  - apply NoDup_singleton.
  - intros y Hy. rewrite heap_relink; [apply Hf; set_solver| |].
    + intros [= <-]. apply Hy. cbn. set_solver.
    + cbn. set_solver.
  - intros w. rewrite root_relink by done. apply Hf.
  - rewrite hp_relink. by eapply fresh_hp.
  - set_solver.
  - intros y Hy. rewrite hp_relink. eapply fresh_hp_ne; [done|]. set_solver.
  - intros p'. rewrite plist_relink. by apply plist_insert.
Qed.

(** A branching node above [t] and the new leaf. *)
Lemma sub_fork st st1 st2 a1 a2 key c c' p s0 d k ca pe l r b :
  let t := T d k ca pe l r in
  fresh_node st st1 a1 key c (Some p) -> lists st1 = <[p := plist st p ++ [a1]]> (lists st) ->
  fresh_node st1 st2 a2 key c' None -> lists st2 = lists st1 ->
  rep bs (heap st) s0 (Some d) t -> NoDup (addrs t) -> (c' < n)%nat -> k !! c' = Some b -> key !! c' = Some (negb b) ->
  exists st3 st4, choose_and_connect_node a2 d st2 = Some (tt, st3) /\
    choose_and_connect_node a2 a1 st3 = Some (tt, st4) /\
    sub_ok st st4 t (node2 a2 key c' None b t (T a1 key c (Some p) E E)) a2 p a1 [a2].
Proof.
  intros t Hf Hl Hf2 Hl2 Ht Hnd Hc Hb Hb'. pose proof (fresh_notin _ _ _ _ _ _ _ _ _ Hf Ht) as Ha.
  pose proof (fresh_rep _ _ _ _ _ _ _ _ _ Hf Ht) as Ht1. pose proof (fresh_notin _ _ _ _ _ _ _ _ _ Hf2 Ht1) as Ha2.
  pose proof (fresh_rep _ _ _ _ _ _ _ _ _ Hf2 Ht1) as Ht2. destruct (fn_node _ _ _ _ _ _ Hf2) as (nd & Hnd2 & Hok & H0 & H1).
  destruct (fresh_leaf _ _ _ _ _ _ Hf) as [s1 Hleaf1]. pose proof (fresh_rep _ _ _ _ _ _ _ _ _ Hf2 Hleaf1) as Hleaf2.
  pose proof (fresh_notin _ _ _ _ _ _ _ _ _ Hf2 Hleaf1) as Ha12. cbn in Ha12.
  assert (a1 <> a2) as Hne by set_solver. assert (a1 <> d) as Hnd1 by set_solver. assert (a2 <> d) as Hnd2' by set_solver.
  destruct (hang_ok st2 a2 nd key c' None s0 d k ca pe l r b) as (Hr & Hx & Hr2); [done..|].
  set (st3 := relink (BitSlot a2 b) (Some d) st2) in *.
  assert (rep bs (heap st3) s1 (Some a1) (T a1 key c (Some p) E E)) as Hleaf3.
  { eapply rep_frame; [|exact Hleaf2]. intros y ->%list_elem_of_singleton. apply heap_relink; cbn; congruence. }
  destruct (hang_ok st3 a2 _ key c' None s1 a1 key c (Some p) E E (negb b) Hx) as (Hr' & Hx' & Hr2'); try done.
  { apply NoDup_singleton. }
  eexists _, _. split; [exact Hr|]. split; [exact Hr'|].
  assert (forall y, y <> a1 -> y <> a2 -> y <> d -> heap (relink (BitSlot a2 (negb b)) (Some a1) st3) !! y = heap st !! y) as Hoth.
  { intros y H1' H2' H3'. unfold st3. rewrite !heap_relink by (cbn; congruence).
    rewrite (fn_heap _ _ _ _ _ _ Hf2), (fn_heap _ _ _ _ _ _ Hf) by done. done. }
  assert (rep bs (heap (relink (BitSlot a2 (negb b)) (Some a1) st3)) (BitSlot a2 b) (Some d) t) as Htf.
  { eapply rep_frame; [|exact Hr2]. intros y Hy. apply heap_relink; cbn; [|]; set_solver. }
  split.
  - exists (parent_bit_packed nd). unfold node2. destruct b; (split; [done|]); (eexists; split; [exact Hx'|]); ands; done.
  - destruct b; cbn; solve_Permutation.
  - intros y [Ey | Ey%list_elem_of_singleton]%elem_of_cons; subst y; [apply Hf|].
    rewrite <- (fn_heap _ _ _ _ _ _ Hf) by done. apply Hf2.
  - apply NoDup_cons. split; [set_solver|apply NoDup_singleton].
  - intros y Hy. apply Hoth; set_solver.
  - intros w. unfold st3. rewrite !root_relink by done. rewrite (fn_root _ _ _ _ _ _ Hf2). apply Hf.
  - unfold st3. rewrite !hp_relink, (fresh_hp_ne _ _ _ _ _ _ _ Hf2) by done. by eapply fresh_hp.
  - intros y ->%list_elem_of_singleton. unfold st3. rewrite !hp_relink. by eapply fresh_hp.
  - intros y Hy. unfold st3. rewrite !hp_relink, (fresh_hp_ne _ _ _ _ _ _ _ Hf2), (fresh_hp_ne _ _ _ _ _ _ _ Hf) by set_solver. done.
  - intros p'. unfold st3. rewrite !plist_relink. apply plist_insert. by rewrite Hl2.
Qed.

End Insert.

#[global] Arguments so_rep {bs st st1 t t1 x p a1 new} _.
#[global] Arguments so_addrs {bs st st1 t t1 x p a1 new} _.
#[global] Arguments so_fresh {bs st st1 t t1 x p a1 new} _.
#[global] Arguments so_nodup {bs st st1 t t1 x p a1 new} _.
#[global] Arguments so_other {bs st st1 t t1 x p a1 new} _.
#[global] Arguments so_root {bs st st1 t t1 x p a1 new} _.
#[global] Arguments so_peer {bs st st1 t t1 x p a1 new} _.
#[global] Arguments so_branch {bs st st1 t t1 x p a1 new} _.
#[global] Arguments so_hp {bs st st1 t t1 x p a1 new} _.
#[global] Arguments so_lists {bs st st1 t t1 x p a1 new} _.

(** * The invariant of the table *)

Definition wbits (v6 : bool) : Z := if v6 then 128 else 32.
Definition nbits (v6 : bool) : nat := Z.to_nat (wbits v6).

Lemma wbits_ok v : bits_ok (wbits v).
Proof. destruct v; [by right|by left]. Qed.

(** The heap holds exactly the nodes of two well-formed tries, and the list of
    a peer holds exactly the nodes with that peer, each once. *)
Record inv (st : table) (tr : bool -> trie) : Prop := {
  inv_rep : forall v, rep (wbits v) (heap st) (RootSlot v) (root st v) (tr v);
  inv_wf : forall v, wf (nbits v) [] (tr v);
  inv_nodup : forall v, NoDup (addrs (tr v));
  inv_disj : forall v a, a ∈ addrs (tr v) -> a ∉ addrs (tr (negb v));
  inv_dom : forall a, is_Some (hp st a) <-> exists v, a ∈ addrs (tr v);
  inv_list_nodup : forall p, NoDup (plist st p);
  inv_list : forall p a, a ∈ plist st p <-> hp st a = Some (Some p)
}.

Definition tr_set (tr : bool -> trie) (v : bool) (t : trie) : bool -> trie :=
  fun w => if Bool.eqb w v then t else tr w.

Lemma tr_set_eq tr v t : tr_set tr v t v = t.
Proof. unfold tr_set. by rewrite eqb_reflx. Qed.
Lemma tr_set_ne tr v t : tr_set tr v t (negb v) = tr (negb v).
Proof. unfold tr_set. by destruct v. Qed.

Lemma bool_two (v w : bool) : w = v \/ w = negb v.
Proof. destruct v, w; auto. Qed.

(** What has to be shown when one of the tries changes. *)
Lemma inv_change st st' tr v t' : inv st tr ->
  rep (wbits v) (heap st') (RootSlot v) (root st' v) t' -> wf (nbits v) [] t' -> NoDup (addrs t') ->
  root st' (negb v) = root st (negb v) ->
  (forall a, a ∈ addrs (tr (negb v)) -> a ∉ addrs t' /\ heap st' !! a = heap st !! a) ->
  (forall a, is_Some (hp st' a) <-> a ∈ addrs t' \/ a ∈ addrs (tr (negb v))) ->
  (forall p, NoDup (plist st' p)) -> (forall p a, a ∈ plist st' p <-> hp st' a = Some (Some p)) ->
  inv st' (tr_set tr v t').
Proof.
  intros Hi Hr Hw Hn Hro Ho Hd Hl Hl2. split; try done.
  - intros w. destruct (bool_two v w) as [-> | ->]; rewrite ?tr_set_eq, ?tr_set_ne; [done|]. rewrite Hro.
    eapply rep_frame; [|apply Hi]. intros a Ha. by apply Ho.
  - intros w. destruct (bool_two v w) as [-> | ->]; rewrite ?tr_set_eq, ?tr_set_ne; [done|]. apply Hi.
  - intros w. destruct (bool_two v w) as [-> | ->]; rewrite ?tr_set_eq, ?tr_set_ne; [done|]. apply Hi.
  - intros w a. destruct (bool_two v w) as [-> | ->]; rewrite ?negb_involutive, ?tr_set_eq, ?tr_set_ne.
    + intros Ha Hb. by apply Ho in Hb as [? _].
    + intros Ha. by apply Ho.
  - intros a. rewrite Hd. split; [intros [H|H]|intros [w H]].
    + exists v. by rewrite tr_set_eq.
    + exists (negb v). by rewrite tr_set_ne.
    + destruct (bool_two v w) as [-> | ->]; rewrite ?tr_set_eq, ?tr_set_ne in H; auto.
Qed.

(** States with the same content, up to the allocator and the counter. *)
Definition same (st st' : table) : Prop :=
  (forall a, heap st' !! a = heap st !! a) /\ (forall v, root st' v = root st v) /\ (forall p, plist st' p = plist st p).

Lemma inv_same st st' tr : same st st' -> inv st tr -> inv st' tr.
Proof.
  intros (Hh & Hr & Hl) Hi. assert (forall a, hp st' a = hp st a) as Hp by (intros; unfold hp; by rewrite Hh).
  split; try apply Hi.
  - intros v. rewrite Hr. eapply rep_frame; [|apply Hi]. auto.
  - intros a. rewrite Hp. apply Hi.
  - intros p. rewrite Hl. apply Hi.
  - intros p a. rewrite Hl, Hp. apply Hi.
Qed.

Lemma inv_alloc st tr v a : inv st tr -> a ∈ addrs (tr v) -> is_Some (heap st !! a).
Proof. intros Hi Ha. apply hp_is_Some, Hi. by exists v. Qed.

(** ** Insertion of a new node *)

Section Grow.

Context (st : table) (tr : bool -> trie) (v : bool) (ctx : list frame) (t : trie).
Hypothesis Hi : inv st tr.
Hypothesis Htr : tr v = plug ctx t.

Lemma split_inv : exists q, repc (wbits v) (heap st) (root st v) v ctx q /\ rep (wbits v) (heap st) (slot_of v ctx) q t.
Proof. pose proof (inv_rep _ _ Hi v) as H. rewrite Htr in H. by apply rep_plug. Qed.

Lemma split_nodup : NoDup (addrs t ++ caddrs ctx).
Proof. pose proof (inv_nodup _ _ Hi v) as H. by rewrite Htr, addrs_plug in H. Qed.

Lemma in_plug a : a ∈ addrs (tr v) <-> a ∈ addrs t \/ a ∈ caddrs ctx.
Proof. rewrite Htr, addrs_plug. apply elem_of_app. Qed.

Context (st1 : table) (t1 : trie) (x p a1 : Z) (new : list Z).
Hypothesis Hso : sub_ok (wbits v) st st1 t t1 x p a1 new.

Lemma grow_fresh y w : y ∈ addrs (tr w) -> y ∉ a1 :: new.
Proof.
  intros Hy Hy2. apply (so_fresh Hso) in Hy2. apply (inv_alloc _ _ _ _ Hi) in Hy. rewrite Hy2 in Hy. by destruct Hy.
Qed.

Lemma grow_path y : y ∈ caddrs ctx -> y ∉ a1 :: new ++ addrs t.
Proof.
  intros Hy. pose proof split_nodup as (_ & Hn & _)%NoDup_app. rewrite app_comm_cons, elem_of_app.
  intros [H|H]; [|by apply (Hn y)]. apply (grow_fresh y v); [|done]. apply in_plug. auto.
Qed.

Lemma grow_other y : y ∈ addrs (tr (negb v)) -> y ∉ a1 :: new ++ addrs t /\ y ∉ caddrs ctx.
Proof.
  intros Hy. assert (y ∉ addrs (tr v)) as Hy2 by (intros H; by apply (inv_disj _ _ Hi v y)).
  rewrite in_plug in Hy2. rewrite app_comm_cons, elem_of_app. pose proof (grow_fresh y _ Hy). tauto.
Qed.

Lemma grow_nodup : NoDup (addrs t1 ++ caddrs ctx).
Proof.
  pose proof split_nodup as (Hn1 & Hn2 & Hn3)%NoDup_app.
  rewrite (so_addrs Hso). apply NoDup_app. ands; [|intros y Hy Hc; by apply (grow_path y)|done].
  rewrite app_comm_cons. apply NoDup_app. ands; [apply Hso| |done]. intros y Hy Hy2.
  apply (grow_fresh y v); [|done]. apply in_plug. auto.
Qed.

Lemma grow_dom y : is_Some (hp st1 y) <-> y ∈ addrs t1 ++ caddrs ctx \/ y ∈ addrs (tr (negb v)).
Proof.
  rewrite (so_addrs Hso). destruct (decide (y ∈ a1 :: new)) as [D|D].
  - split; [intros _; left; rewrite app_comm_cons, !elem_of_app; auto|intros _].
    apply elem_of_cons in D as [->|D]; [rewrite (so_peer Hso)|rewrite (so_branch Hso)]; done.
  - rewrite (so_hp Hso), (inv_dom _ _ Hi) by done. rewrite app_comm_cons, !elem_of_app. split.
    + intros [w Hw]. destruct (bool_two v w) as [-> | ->]; [rewrite in_plug in Hw; tauto|tauto].
    + intros [[[?|?]|?]|?]; [done|exists v; rewrite in_plug; tauto..|by exists (negb v)].
Qed.

Lemma grow_list_nodup p' : NoDup (plist st1 p').
Proof.
  rewrite (so_lists Hso). case_decide; [|apply Hi]. apply NoDup_app.
  ands; [apply Hi| |apply NoDup_singleton]. intros y Hy ->%list_elem_of_singleton. apply (inv_list _ _ Hi) in Hy.
  unfold hp in Hy. rewrite (so_fresh Hso) in Hy by (apply elem_of_cons; auto). done.
Qed.

Lemma grow_list p' y : y ∈ plist st1 p' <-> hp st1 y = Some (Some p').
Proof.
  rewrite (so_lists Hso).
  assert (y ∈ a1 :: new -> y ∉ plist st p') as Hold.
  { intros Hy Hy2%(inv_list _ _ Hi). unfold hp in Hy2. by rewrite (so_fresh Hso) in Hy2. }
  rewrite elem_of_cons in Hold. pose proof (so_nodup Hso) as [Hn _]%NoDup_cons.
  destruct (decide (y = a1)) as [->|D1]; [|destruct (decide (y ∈ new)) as [D2|D2]].
  - rewrite (so_peer Hso). case_decide as D; [subst; rewrite elem_of_app, list_elem_of_singleton; naive_solver|naive_solver].
  - rewrite (so_branch Hso) by done. case_decide as D; [subst; rewrite elem_of_app, list_elem_of_singleton|]; naive_solver.
  - rewrite (so_hp Hso), <- (inv_list _ _ Hi) by (rewrite elem_of_cons; tauto).
    case_decide as D; [subst; rewrite elem_of_app, list_elem_of_singleton; naive_solver|done].
Qed.

Lemma inv_grow : wf (nbits v) [] (plug ctx t1) ->
  replace_by (slot_of v ctx) (Some x) st1 = Some (tt, relink (slot_of v ctx) (Some x) st1) /\
  inv (relink (slot_of v ctx) (Some x) st1) (tr_set tr v (plug ctx t1)).
Proof.
  intros Hw. destruct split_inv as (q & Hc & _). destruct (so_rep Hso) as [s Hr].
  destruct (relink_ok (wbits v) st1 v ctx q s (Some x) t1) as [Hl Hr2]; [|done|apply grow_nodup|].
  { rewrite (so_root Hso). eapply repc_frame; [|exact Hc]. intros y Hy. apply Hso. by apply grow_path. }
  split; [exact Hl|].
  assert (x ∈ a1 :: new ++ addrs t) as Hx.
  { apply rep_root_addr in Hr as [Hr _]. by rewrite (so_addrs Hso) in Hr. }
  apply (inv_change st); try done.
  - rewrite addrs_plug. apply grow_nodup.
  - rewrite root_relink by (destruct ctx; cbn; [destruct v; done|done]). apply Hso.
  - intros y Hy. destruct (grow_other y Hy) as [H1 H2]. split.
    + rewrite addrs_plug, (so_addrs Hso), elem_of_app. tauto.
    + rewrite heap_relink; [by apply Hso|congruence|]. intros Ho%owner_caddrs. done.
  - intros y. rewrite hp_relink, addrs_plug. apply grow_dom.
  - intros p'. rewrite plist_relink. apply grow_list_nodup.
  - intros p' y. rewrite plist_relink, hp_relink. apply grow_list.
Qed.

End Grow.

(** ** The function [add] *)

Lemma bind_ok {A B} (m : M A) (k : A -> M B) st x st' : m st = Some (x, st') -> (m ≫= k) st = k x st'.
Proof. intros H. unfold mbind, M_bind. by rewrite H. Qed.

Lemma filter_notin (l : list Z) a : a ∉ l -> filter (fun x => x <> a) l = l.
Proof.
  induction l as [|y l IH]; [done|]. rewrite not_elem_of_cons. intros [H1 H2].
  rewrite filter_cons_True by congruence. by rewrite IH.
Qed.

Section Add.

Context (st : table) (tr : bool -> trie) (v : bool) (key : list Z) (c : nat) (p : Z).
Hypothesis Hi : inv st tr.
Hypothesis Hkey : addr_ok (wbits v) key.
Hypothesis Hc : (c <= nbits v)%nat.
Let kb : list bool := kbits (wbits v) key.

Lemma kb_len : length kb = nbits v.
Proof. apply kbits_len; [apply wbits_ok|done]. Qed.

(** The place found by [node_placement]. *)
Context (ctx : list frame) (t : trie).
Hypothesis Htr : tr v = plug ctx t.
Hypothesis Hh : hole ctx `prefix_of` firstn c kb.
Hypothesis Hst : stops t kb c.

Lemma grown_wf a1 a2 : wf (nbits v) [] (plug ctx (new_sub t kb c p a1 a2)).
Proof.
  pose proof (inv_wf _ _ Hi v) as Hw. rewrite Htr in Hw. apply wf_plug in Hw as (Hwc & Hw & Hn).
  apply wf_plug. ands; [done|apply new_sub_wf; (done || apply kb_len)|].
  intros _. destruct t as [|d k ca pe l r]; [done|]. cbn [new_sub]. unfold node2.
  destruct (c =? _)%nat; by destruct (default false _).
Qed.

Context (st1 : table) (a1 : Z).
Hypothesis Hf : fresh_node (wbits v) st st1 a1 kb c (Some p).
Hypothesis Hl : lists st1 = <[p := plist st p ++ [a1]]> (lists st).

(** Linking the new subtree ends the insertion. *)
Lemma connect_grown st2 x new a2 : sub_ok (wbits v) st st2 t (new_sub t kb c p a1 a2) x p a1 new ->
  connect_below v (parent_of ctx) x st2 = Some (tt, relink (slot_of v ctx) (Some x) st2) /\
  inv (relink (slot_of v ctx) (Some x) st2) (tr_set tr v (plug ctx (new_sub t kb c p a1 a2))).
Proof.
  intros Hso. destruct (inv_grow st tr v ctx t Hi Htr st2 _ x p a1 new Hso (grown_wf a1 a2)) as [Hr Hinv].
  split; [|done]. rewrite <- Hr. destruct (split_inv st tr v ctx t Hi Htr) as (q & Hcx & _).
  assert (repc (wbits v) (heap st2) (root st2 v) v ctx q) as Hcx2.
  { rewrite (so_root Hso). eapply repc_frame; [|exact Hcx]. intros y Hy. apply Hso.
    by apply (grow_path st tr v ctx t Hi Htr st2 _ x p a1 new Hso). }
  destruct (so_rep Hso) as [s Hrep]. pose proof (grown_wf a1 a2) as (_ & Hw & _)%wf_plug.
  destruct (new_sub t kb c p a1 a2) as [|y k cy pe l r] eqn:Esub; [done|].
  pose proof Hrep as ([= <-] & _). destruct Hw as (Hk & Hcy & Hp & _).
  by eapply connect_below_ok; [apply wbits_ok|..].
Qed.

(** Undoing the first allocation when the second one fails. *)
Lemma undo_ok : (list_del a1 ≫= fun _ => kmem_cache_free a1 ≫= fun _ => mret (- ENOMEM)) (pop st1) =
    Some (- ENOMEM, set_heap (delete a1) (set_lists (fmap (filter (fun x => x <> a1))) (pop st1))) /\
  same st (set_heap (delete a1) (set_lists (fmap (filter (fun x => x <> a1))) (pop st1))).
Proof.
  destruct Hf as [Hnew (nd & Ha & _) Hheap Hroot _]. split.
  - unfold mbind, M_bind, list_del, kmem_cache_free. cbn. by rewrite Ha.
  - split; [|split].
    + intros a. cbn. destruct (decide (a = a1)) as [->|D]; [by rewrite lookup_delete_eq|].
      rewrite lookup_delete_ne by done. by apply Hheap.
    + intros []; [apply (Hroot true)|apply (Hroot false)].
    + intros p'. unfold plist at 1. cbn. rewrite lookup_fmap. fold (plist st1 p').
      transitivity (filter (fun x => x <> a1) (plist st1 p')); [unfold plist; by destruct (lists st1 !! p')|].
      assert (forall q, filter (fun x => x <> a1) (plist st q) = plist st q) as Hq.
      { intros q. apply filter_notin. intros Hy%(inv_list _ _ Hi). unfold hp in Hy. by rewrite Hnew in Hy. }
      rewrite (plist_insert _ _ _ _ p' Hl). case_decide as D; [|apply Hq]. subst p'.
      rewrite filter_app, Hq, filter_cons_False, filter_nil, app_nil_r by tauto. done.
Qed.

(** The cases of [add] with a subtree [down]. *)
Context (d : Z) (k : list bool) (ca : nat) (pe : option Z) (l r : trie).
Hypothesis Et : t = T d k ca pe l r.

Lemma down_facts : rep (wbits v) (heap st) (slot_of v ctx) (Some d) (T d k ca pe l r) /\
  NoDup (addrs (T d k ca pe l r)) /\ wf (nbits v) (hole ctx) (T d k ca pe l r) /\ stops (T d k ca pe l r) kb c.
Proof.
  destruct (split_inv st tr v ctx t Hi Htr) as (q & _ & Hrep).
  pose proof (split_nodup st tr v ctx t Hi Htr) as (Hnt & _)%NoDup_app.
  pose proof (inv_wf _ _ Hi v) as Hw. rewrite Htr in Hw. apply wf_plug in Hw as (_ & Hw & _).
  rewrite Et in Hrep. pose proof Hrep as (-> & _). by rewrite <- Et at 2 3 4.
Qed.

Lemma grow_above : (c <= lcp k kb)%nat -> exists st',
  (choose_and_connect_node a1 d ≫= fun _ => connect_below v (parent_of ctx) a1 ≫= fun _ => mret 0) st1 = Some (0, st') /\
  inv st' (tr_set tr v (plug ctx (new_sub t kb c p a1 0))).
Proof.
  intros Hm. destruct down_facts as (Hrep & Hnt & Hw & Hst').
  destruct (new_sub_above _ _ _ _ _ _ _ _ _ _ kb_len Hc Hw Hst' Hm) as (b & Hkb & _).
  assert (c < nbits v)%nat by (destruct Hw as (<- & _); by eapply lookup_lt_Some).
  destruct (sub_above _ (wbits_ok v) st st1 a1 kb c p _ d k ca pe l r b Hf Hl Hrep Hnt) as (st2 & Hr2 & Hso); [done..|].
  rewrite (bind_ok _ _ _ _ _ Hr2). destruct (connect_grown st2 a1 [] 0) as [Hcn Hinv].
  - rewrite Et. cbn [new_sub]. by rewrite Nat.min_l, Nat.eqb_refl, Hkb by done.
  - rewrite (bind_ok _ _ _ _ _ Hcn). by eexists.
Qed.

Lemma grow_fork a2 : (lcp k kb < c)%nat -> heap st1 !! a2 = None -> exists st',
  (nnd ← get_node a1;
   copy_and_assign_cidr a2 (bits nnd) (Z.of_nat (lcp k kb)) (wbits v) ≫= fun _ =>
   choose_and_connect_node a2 d ≫= fun _ => choose_and_connect_node a2 a1 ≫= fun _ =>
   connect_below v (parent_of ctx) a2 ≫= fun _ => mret 0) (set_heap <[a2 := zero_node]> (pop st1)) = Some (0, st') /\
  inv st' (tr_set tr v (plug ctx (new_sub t kb c p a1 a2))).
Proof.
  intros Hm Ha2. destruct down_facts as (Hrep & Hnt & Hw & Hst'). pose proof (wbits_ok v) as Hb.
  destruct (fn_node _ _ _ _ _ _ _ Hf) as (nd1 & Ha1 & Hok1 & _). assert (a1 <> a2) by congruence.
  rewrite (bind_ok (get_node a1) _ _ nd1 (set_heap <[a2:=zero_node]> (pop st1)))
    by (apply get_node_ok; cbn; by rewrite lookup_insert_ne).
  destruct (branch_ok _ Hb st1 a2 (bits nd1) (lcp k kb)) as (st2 & Hr2 & Hf2 & Hl2); [by eapply node_addr|done|].
  rewrite (bind_ok _ _ _ _ _ Hr2). assert (kbits (wbits v) (bits nd1) = kb) as Ekb by apply Hok1. rewrite Ekb in Hf2.
  destruct (new_sub_branch _ _ _ _ _ _ _ _ _ _ kb_len Hc Hw Hst' Hm Hh) as (b & Hkb & Hkb' & _).
  destruct (sub_fork _ Hb st st1 st2 a1 a2 kb c (lcp k kb) p _ d k ca pe l r b Hf Hl Hf2 Hl2 Hrep Hnt) as
    (st3 & st4 & Hr3 & Hr4 & Hso); try done; [by (unfold nbits in *; lia)|].
  rewrite (bind_ok _ _ _ _ _ Hr3), (bind_ok _ _ _ _ _ Hr4).
  destruct (connect_grown st4 a2 [a2] a2) as [Hcn Hinv].
  - rewrite Et. cbn [new_sub]. rewrite Nat.min_r, Hkb by lia. by destruct (Nat.eqb_spec c (lcp k kb)); [lia|].
  - rewrite (bind_ok _ _ _ _ _ Hcn). by eexists.
Qed.

Lemma add_above_ok :
  exists res st', add_above v (wbits v) key (Z.of_nat c) (parent_of ctx) d a1 st1 = Some (res, st') /\
    ((res = 0 /\ exists a2, inv st' (tr_set tr v (plug ctx (new_sub t kb c p a1 a2)))) \/
     (res = - ENOMEM /\ hd true (answers st1) = false /\ same st st')).
Proof.
  destruct down_facts as (Hrep & _). pose proof (fresh_rep _ _ _ _ _ _ _ _ _ _ Hf Hrep) as (_ & ndd & Hd & Hokd & _).
  destruct (fn_node _ _ _ _ _ _ _ Hf) as (nd1 & Ha1 & Hok1 & _). unfold add_above.
  rewrite (bind_ok _ _ _ _ _ (get_node_ok _ _ _ Hd)), (bind_ok _ _ _ _ _ (get_node_ok _ _ _ Ha1)).
  rewrite common_bits_lcp by (try done; first [by apply wbits_ok | eapply node_addr, Hokd; apply wbits_ok]).
  assert (kbits (wbits v) (bits ndd) = k) as -> by apply Hokd.
  assert (cidr nd1 = Z.of_nat c) as -> by apply Hok1. fold kb.
  destruct (Nat.le_gt_cases c (lcp k kb)) as [Hm|Hm].
  - rewrite Z.min_l, Z.eqb_refl by lia. destruct (grow_above Hm) as (st' & Hr & Hinv). eauto 10.
  - rewrite Z.min_r by lia. destruct (Z.eqb_spec (Z.of_nat c) (Z.of_nat (lcp k kb))) as [|_]; [lia|].
    destruct (zalloc_cases st1) as [[Hans Hal]|[Hans (a2 & Ha2 & Hal)]]; rewrite (bind_ok _ _ _ _ _ Hal).
    + destruct undo_ok as [Hu Hs]. eexists _, _. split; [exact Hu|]. right. by ands.
    + destruct (grow_fork a2 Hm Ha2) as (st' & Hr & Hinv). eauto 10.
Qed.

End Add.

(** ** A new peer for an existing node *)

Lemma plist_del st a q : plist (set_lists (fmap (filter (fun x => x <> a))) st) q = filter (fun x => x <> a) (plist st q).
Proof. unfold plist. cbn. rewrite lookup_fmap. by destruct (lists st !! q). Qed.

Lemma rep_set_peer bs h s a k c pe pe' l r : a ∉ addrs l ++ addrs r -> rep bs h s (Some a) (T a k c pe l r) ->
  rep bs (alter (set_peer pe') a h) s (Some a) (T a k c pe' l r).
Proof.
  intros Ha (_ & nd & Hnd & Hok & Hs & Hl & Hr). split; [done|]. exists (set_peer pe' nd).
  rewrite lookup_alter_eq, Hnd. destruct Hok as (_ & Hok). ands; try done.
  all: eapply rep_frame; [|done]; intros y Hy; rewrite lookup_alter_ne; [done|]; set_solver.
Qed.

Lemma hp_set_peer st a pe' x nd : heap st !! a = Some nd ->
  hp (upd a (set_peer pe') st) x = if decide (x = a) then Some pe' else hp st x.
Proof.
  intros Ha. unfold hp. rewrite heap_upd. destruct (decide (x = a)) as [->|D].
  - by rewrite decide_True, Ha.
  - by rewrite decide_False.
Qed.

(** The heap part of changing the peer of a node. *)
Lemma set_peer_rep st tr v ctx a k c pe pe' l r : inv st tr -> tr v = plug ctx (T a k c pe l r) ->
  let st' := upd a (set_peer pe') st in
  rep (wbits v) (heap st') (RootSlot v) (root st' v) (plug ctx (T a k c pe' l r)) /\
  NoDup (addrs (plug ctx (T a k c pe' l r))) /\
  (forall y, y ∈ addrs (tr (negb v)) -> y ∉ addrs (plug ctx (T a k c pe' l r)) /\ heap st' !! y = heap st !! y) /\
  (forall y, is_Some (hp st' y) <-> y ∈ addrs (plug ctx (T a k c pe' l r)) \/ y ∈ addrs (tr (negb v))).
Proof.
  intros Hi Htr st'. destruct (split_inv st tr v ctx _ Hi Htr) as (q & Hc & Hrep).
  pose proof (split_nodup st tr v ctx _ Hi Htr) as Hnd. pose proof Hrep as (-> & nd & Ha & _).
  assert (forall y, y ∈ addrs (plug ctx (T a k c pe' l r)) <-> y ∈ addrs (tr v)) as Hin
    by (intros y; by rewrite Htr, !addrs_plug).
  ands.
  - apply rep_plug. exists (Some a). cbn [addrs app] in Hnd. apply NoDup_cons in Hnd as [Hn1 Hnd].
    rewrite !elem_of_app in Hn1. split.
    + eapply repc_frame; [|exact Hc]. intros y Hy. unfold st'. rewrite heap_upd, decide_False; [done|]. set_solver.
    + apply (rep_set_peer _ _ _ _ _ _ pe); [|done]. rewrite elem_of_app. tauto.
  - by rewrite addrs_plug.
  - intros y Hy. rewrite Hin. split; [intros H; by apply (inv_disj _ _ Hi v y)|]. unfold st'. rewrite heap_upd, decide_False; [done|].
    intros ->. apply (inv_disj _ _ Hi v y); [|done]. rewrite Htr, addrs_plug. apply elem_of_app. left. apply elem_of_cons. auto.
  - intros y. rewrite Hin. unfold st'. rewrite hp_is_Some, heap_upd_is_Some, <- hp_is_Some, (inv_dom _ _ Hi). split.
    + intros [w Hw]. destruct (bool_two v w) as [-> | ->]; auto.
    + intros [?|?]; eauto.
Qed.

Lemma set_peer_ok st tr v ctx a k c pe p l r : inv st tr -> tr v = plug ctx (T a k c pe l r) ->
  exists st', (modify a (set_peer (Some p)) ≫= fun _ => list_move_tail a p ≫= fun _ => mret 0) st = Some (0, st') /\
    inv st' (tr_set tr v (plug ctx (T a k c (Some p) l r))).
Proof.
  intros Hi Htr. destruct (split_inv st tr v ctx _ Hi Htr) as (q & _ & (_ & nd & Ha & _)).
  destruct (set_peer_rep st tr v ctx a k c pe (Some p) l r Hi Htr) as (Hrep & Hnd & Hoth & Hdom).
  rewrite (bind_ok _ _ _ _ _ (modify_ok a (set_peer (Some p)) st ltac:(by rewrite Ha))).
  eexists. split; [done|].
  set (st1 := upd a (set_peer (Some p)) st) in *. set (st2 := set_lists (fmap (filter (fun x => x <> a))) st1).
  assert (forall q, plist (set_lists <[p := plist st2 p ++ [a]]> st2) q =
    if decide (p = q) then filter (fun x => x <> a) (plist st p) ++ [a] else filter (fun x => x <> a) (plist st q)) as Hpl.
  { intros q'. rewrite (plist_insert st2 _ p (plist st2 p ++ [a])) by done. unfold st2. by rewrite !plist_del. }
  apply (inv_change st); try done.
  - pose proof (inv_wf _ _ Hi v) as Hw. rewrite Htr in Hw. by apply (tget_plug_peer _ _ _ _ _ _ p _ _ []) in Hw as [Hw _].
  - intros q'. rewrite Hpl. case_decide; [|apply NoDup_filter, Hi]. apply NoDup_app.
    ands; [apply NoDup_filter, Hi| |apply NoDup_singleton]. intros y Hy ->%list_elem_of_singleton.
    apply list_elem_of_filter in Hy as [? _]. done.
  - intros q' y. rewrite Hpl. change (hp _ y) with (hp st1 y). unfold st1. rewrite (hp_set_peer _ _ _ _ nd Ha).
    pose proof (inv_list _ _ Hi q' y) as Hq. case_decide as D1; [subst q'|]; rewrite ?elem_of_app, list_elem_of_filter, ?list_elem_of_singleton.
    all: case_decide as D2; naive_solver.
Qed.

(** ** All cases of [add] *)

Lemma placement_ok st tr v key c : inv st tr -> addr_ok (wbits v) key -> (c <= nbits v)%nat ->
  let '(ctx, t, ex) := zplace (tr v) (kbits (wbits v) key) c [] in
  placement v key (Z.of_nat c) (wbits v) st =
    Some (if ex then (match t with T a _ _ _ _ _ => Some a | E => None end, true) else (parent_of ctx, false), st) /\
  tr v = plug ctx t /\ hole ctx `prefix_of` firstn c (kbits (wbits v) key) /\
  if ex then exists a k pe l r, t = T a k c pe l r /\ firstn c k = firstn c (kbits (wbits v) key)
  else stops t (kbits (wbits v) key) c.
Proof.
  intros Hi Hkey Hc. pose proof (kbits_len _ (wbits_ok v) key Hkey) as Hkl.
  pose proof (node_placement_zplace _ (wbits_ok v) (heap st) DEPTH_FUEL (RootSlot v) (root st v) (tr v) [] key c []
    Hkey Hc (inv_rep _ _ Hi v) (inv_wf _ _ Hi v)) as Hp.
  destruct (zplace _ _ _ _) as [[ctx t] ex] eqn:Ez. cbn [parent_of] in Hp.
  destruct (zplace_spec (nbits v) _ _ _ _ _ _ _ Hkl Hc (I : wfc (nbits v) []) (inv_wf _ _ Hi v) ltac:(done) ltac:(apply prefix_nil) Ez)
    as (Hpl & _ & _ & _ & Hh & Hx).
  split; [|done]. unfold placement. rewrite Hp; [done|cbn; lia|]. cbn. unfold DEPTH_FUEL. destruct v; cbn; lia.
Qed.

(** What [add] leaves: the table with one more prefix, or after a failed
    allocation the table as it was. *)
Definition add_post (st : table) (tr : bool -> trie) (v : bool) (q : list bool) (p res : Z) (st' : table) : Prop :=
  (res = 0 /\ exists t', inv st' (tr_set tr v t') /\
     forall x, tget t' x = if decide (x = q) then Some p else tget (tr v) x) \/
  (res = - ENOMEM /\ false ∈ answers st /\ same st st').

Section AddNew.

Context (st : table) (tr : bool -> trie) (v : bool) (key : list Z) (c : nat) (p : Z).
Hypothesis Hi : inv st tr.
Hypothesis Hkey : addr_ok (wbits v) key.
Hypothesis Hc : (c <= nbits v)%nat.
Let kb : list bool := kbits (wbits v) key.
Context (ctx : list frame) (t : trie).
Hypothesis Htr : tr v = plug ctx t.
Hypothesis Hh : hole ctx `prefix_of` firstn c kb.
Hypothesis Hst : stops t kb c.

Lemma add_post_new a1 a2 st' : inv st' (tr_set tr v (plug ctx (new_sub t kb c p a1 a2))) ->
  add_post st tr v (firstn c kb) p 0 st'.
Proof.
  intros Hinv. left. split; [done|]. eexists. split; [exact Hinv|]. intros x.
  pose proof (inv_wf _ _ Hi v) as Hw. rewrite Htr in Hw. apply wf_plug in Hw as (Hwc & Hw & _).
  pose proof (fun x => new_sub_tget (nbits v) _ _ _ c p a1 a2 x (kb_len v key Hkey) Hc Hw Hst Hh) as Hget.
  rewrite Htr. destruct (decide (hole ctx `prefix_of` x)) as [D|D].
  - rewrite !(tget_plug_in (nbits v)) by done. apply Hget.
  - rewrite decide_False by (by intros ->). by apply (tget_plug_out (nbits v)).
Qed.

Lemma add_post_fail st' : hd true (answers st) = false -> same st st' -> add_post st tr v (firstn c kb) p (- ENOMEM) st'.
Proof. intros Ha Hs. right. ands; try done. destruct (answers st) as [|[] ?]; try done. apply elem_of_cons. auto. Qed.

(** The bit below the parent of a path is the bit of the key. *)
Lemma path_bit f ctx' nd : ctx = f :: ctx' -> node_ok (wbits v) nd (fr_k f) (fr_c f) (fr_pe f) ->
  choose nd key = Some (fr_bit f).
Proof.
  intros -> Hok. pose proof (inv_wf _ _ Hi v) as Hw. rewrite Htr in Hw. apply wf_plug in Hw as ((Hk & Hfc & _) & _).
  cbn [hole] in Hh. pose proof Hh as Hlen%prefix_length.
  rewrite length_app, (firstn_len (nbits v)), length_take in Hlen by done. cbn [length] in Hlen.
  rewrite (choose_lookup _ (wbits_ok v) _ _ _ _ _ Hok) by (try done; unfold nbits in *; lia).
  apply prefix_snoc in Hh as [_ Hh2]. rewrite (firstn_len (nbits v)) in Hh2 by done.
  by apply lookup_take_Some in Hh2 as [Hh2 _].
Qed.

Context (st1 : table) (a1 : Z).
Hypothesis Hf : fresh_node (wbits v) st st1 a1 kb c (Some p).
Hypothesis Hl : lists st1 = <[p := plist st p ++ [a1]]> (lists st).

Lemma add_above_post d k ca pe l r : t = T d k ca pe l r -> exists res st',
  add_above v (wbits v) key (Z.of_nat c) (parent_of ctx) d a1 st1 = Some (res, st') /\
  add_post st tr v (firstn c kb) p res st'.
Proof.
  intros Et.
  destruct (add_above_ok st tr v key c p Hi Hkey Hc ctx t Htr Hh Hst st1 a1 Hf Hl d k ca pe l r Et) as (res & st' & H1 & H2).
  exists res, st'. split; [done|]. destruct H2 as [[-> [a2 ?]]|(-> & Hans1 & ?)]; [by eapply add_post_new|right]. ands; try done.
  rewrite (fn_answers _ _ _ _ _ _ _ Hf) in Hans1. destruct (answers st) as [|? [|[] ?]]; try done. set_solver.
Qed.

Lemma add_leaf_post : t = E -> exists st',
  (connect_node (slot_of v ctx) a1 ≫= fun _ => mret 0) st1 = Some (0, st') /\ add_post st tr v (firstn c kb) p 0 st'.
Proof.
  intros Et. pose proof (sub_leaf _ (wbits_ok v) st st1 a1 _ c p Hf Hl) as Hso. rewrite <- Et in Hso at 1.
  destruct (inv_grow st tr v ctx t Hi Htr st1 _ a1 p a1 [] Hso) as [Hrb Hinv].
  - pose proof (grown_wf st tr v key c p Hi Hkey Hc ctx t Htr Hh Hst a1 0) as Hw. by rewrite Et in Hw.
  - eexists. split; [by rewrite (bind_ok (connect_node (slot_of v ctx) a1) _ _ _ _ Hrb)|]. apply (add_post_new a1 0). by rewrite Et.
Qed.

End AddNew.

Lemma add_new_ok st tr v key c p ctx t : inv st tr -> addr_ok (wbits v) key -> (c <= nbits v)%nat ->
  tr v = plug ctx t -> hole ctx `prefix_of` firstn c (kbits (wbits v) key) -> stops t (kbits (wbits v) key) c ->
  root st v <> None ->
  exists res st', add_new v (wbits v) key (Z.of_nat c) p (parent_of ctx) st = Some (res, st') /\
    add_post st tr v (firstn c (kbits (wbits v) key)) p res st'.
Proof.
  intros Hi Hkey Hc Htr Hh Hst Hroot. unfold add_new.
  destruct (zalloc_cases st) as [[Hans Hal]|[Hans (a1 & Ha1 & Hal)]]; rewrite (bind_ok _ _ _ _ _ Hal).
  { eexists _, _. split; [done|]. by apply add_post_fail; [..|split; [|split; [intros []|]]]. }
  destruct (init_ok _ (wbits_ok v) st a1 key c p Hkey Ha1) as (st1 & Hr & Hf & Hl). rewrite (bind_ok _ _ _ _ _ Hr).
  pose proof (add_above_post st tr v key c p Hi Hkey Hc ctx t Htr Hh Hst st1 a1 Hf Hl) as Habove.
  destruct (split_inv st tr v ctx t Hi Htr) as (q & Hcx & Hrep).
  destruct ctx as [|f ctx]; cbn [parent_of] in *.
  - rewrite (bind_ok (read_slot (RootSlot v)) _ st1 (root st1 v) st1) by done. rewrite (fn_root _ _ _ _ _ _ _ Hf).
    cbn in Hcx. subst q. destruct t as [|d k ca pe l r]; [done|]. pose proof Hrep as (-> & _). by eapply Habove.
  - pose proof Hcx as (nd & Hfa & Hok & Hbit & _). assert (fr_a f <> a1) as Hne by congruence.
    rewrite (bind_ok (get_node (fr_a f)) _ st1 nd st1) by (apply get_node_ok; by rewrite (fn_heap _ _ _ _ _ _ _ Hf)).
    rewrite (path_bit st tr v key c Hi Hkey Hc _ _ Htr Hh f ctx nd eq_refl Hok).
    rewrite (bind_ok (lift (Some (fr_bit f))) _ st1 (fr_bit f) st1) by done. rewrite Hbit.
    destruct t as [|d k ca pe l r]; [|pose proof Hrep as (-> & _); by eapply Habove].
    cbn in Hrep. subst q.
    destruct (add_leaf_post st tr v key c p Hi Hkey Hc (f :: ctx) E Htr Hh I st1 a1 Hf Hl eq_refl) as (st' & ? & ?). eauto.
Qed.

Lemma root_trie st tr v : inv st tr -> (root st v = None <-> tr v = E).
Proof.
  intros Hi. pose proof (inv_rep _ _ Hi v) as H. destruct (tr v); cbn in H; [done|]. destruct H as (-> & _). done.
Qed.

Lemma allowedips_add_ok st tr v key c p : inv st tr -> addr_ok (wbits v) key -> (c <= nbits v)%nat ->
  exists res st', allowedips_add v (wbits v) key (Z.of_nat c) (Some p) st = Some (res, st') /\
    add_post st tr v (firstn c (kbits (wbits v) key)) p res st'.
Proof.
  intros Hi Hkey Hc. unfold allowedips_add.
  destruct (Z.ltb_spec (wbits v) (Z.of_nat c)) as [|_]; [unfold nbits in *; destruct v; cbn in *; lia|].
  rewrite (bind_ok (read_slot (RootSlot v)) _ st (root st v) st) by done.
  destruct (root st v) as [ra|] eqn:Er.
  - pose proof (placement_ok st tr v key c Hi Hkey Hc) as Hp. destruct (zplace _ _ _ _) as [[ctx t] ex].
    destruct Hp as (Hp & Htr & Hh & Hx). rewrite (bind_ok _ _ _ _ _ Hp). destruct ex.
    + destruct Hx as (a & k & pe & l & r & -> & Hk). destruct (set_peer_ok st tr v ctx a k c pe p l r Hi Htr) as (st' & Hr & Hinv).
      exists 0, st'. split; [exact Hr|]. left. split; [done|]. eexists. split; [exact Hinv|]. intros x. rewrite <- Hk, Htr.
      pose proof (inv_wf _ _ Hi v) as Hw. rewrite Htr in Hw. by apply (tget_plug_peer (nbits v) ctx a k c pe p l r x).
    + destruct (add_new_ok st tr v key c p ctx t Hi Hkey Hc Htr Hh Hx ltac:(by rewrite Er)) as (res & st' & Hr & Hpost).
      exists res, st'. split; [|done]. by destruct (parent_of ctx).
  - apply (root_trie _ _ _ Hi) in Er.
    destruct (zalloc_cases st) as [[Hans Hal]|[Hans (a1 & Ha1 & Hal)]]; rewrite (bind_ok _ _ _ _ _ Hal).
    { eexists _, _. split; [done|]. by apply add_post_fail; [..|split; [|split; [intros []|]]]. }
    destruct (init_ok _ (wbits_ok v) st a1 key c p Hkey Ha1) as (st1 & Hr & Hf & Hl). rewrite (bind_ok _ _ _ _ _ Hr).
    destruct (add_leaf_post st tr v key c p Hi Hkey Hc [] E Er ltac:(apply prefix_nil) I st1 a1 Hf Hl eq_refl) as (st' & ? & ?). eauto.
Qed.

(** * Removal *)

(** What has to be shown when nodes leave a trie: [a], which had a peer, and
    possibly a branching node. *)
Lemma inv_prune st st' tr v t' gone a : inv st tr ->
  rep (wbits v) (heap st') (RootSlot v) (root st' v) t' -> wf (nbits v) [] t' ->
  addrs (tr v) ≡ₚ gone ++ addrs t' -> a ∈ gone ->
  root st' (negb v) = root st (negb v) ->
  (forall y, y ∈ addrs (tr (negb v)) -> heap st' !! y = heap st !! y) ->
  (forall y, hp st' y = if decide (y ∈ gone) then None else hp st y) ->
  (forall q, plist st' q = filter (fun x => x <> a) (plist st q)) ->
  (forall y, y ∈ gone -> y <> a -> hp st y = Some None) ->
  inv st' (tr_set tr v t').
Proof.
  intros Hi Hr Hw Hperm Ha Hro Ho Hhp Hl Hg. pose proof (inv_nodup _ _ Hi v) as Hnd.
  rewrite Hperm in Hnd. apply NoDup_app in Hnd as (_ & Hn2 & Hn3).
  assert (forall y, y ∈ addrs (tr v) <-> y ∈ gone \/ y ∈ addrs t') as Hin by (intros; by rewrite Hperm, elem_of_app).
  apply (inv_change st); try done.
  - intros y Hy. split; [|by apply Ho]. intros Hy2. apply (inv_disj _ _ Hi v y); [|done]. apply Hin. auto.
  - intros y. rewrite Hhp. case_decide as D.
    + split; [by intros []|]. intros [H|H]; [by destruct (Hn2 y D)|]. destruct (inv_disj _ _ Hi v y); [apply Hin; auto|done].
    + rewrite (inv_dom _ _ Hi). split; [intros [w Hy]|intros [Hy|Hy]].
      * destruct (bool_two v w) as [-> | ->]; [apply Hin in Hy; tauto|tauto].
      * exists v. apply Hin. auto.
      * eauto.
  - intros q. rewrite Hl. apply NoDup_filter, Hi.
  - intros q y. rewrite Hl, list_elem_of_filter, (inv_list _ _ Hi), Hhp. case_decide as D; [|naive_solver].
    split; [|done]. intros [Hy1 Hy2]. rewrite Hg in Hy2 by done. done.
Qed.

(** The first two statements of [remove_node]. *)
Definition unpeer (a : Z) (st : table) : table :=
  set_lists (fmap (filter (fun x => x <> a))) (upd a (set_peer None) st).

Lemma unpeer_run a st nd : heap st !! a = Some nd ->
  (list_del a ≫= fun _ => modify a (set_peer None)) st = Some (tt, unpeer a st).
Proof. intros Ha. unfold mbind, M_bind, list_del, modify. cbn. by rewrite Ha. Qed.

Section Remove.

Context (st : table) (tr : bool -> trie) (v : bool) (ctx : list frame) (a : Z) (k : list bool) (c : nat).
Context (pe : option Z) (l r : trie).
Hypothesis Hi : inv st tr.
Hypothesis Htr : tr v = plug ctx (T a k c pe l r).
Let st2 : table := unpeer a st.

Lemma unpeer_rep : rep (wbits v) (heap st2) (RootSlot v) (root st2 v) (plug ctx (T a k c None l r)).
Proof. by destruct (set_peer_rep st tr v ctx a k c pe None l r Hi Htr) as (Hrep & _). Qed.

Lemma unpeer_other y : y ∈ addrs (tr (negb v)) -> heap st2 !! y = heap st !! y /\ y ∉ addrs (plug ctx (T a k c None l r)).
Proof. destruct (set_peer_rep st tr v ctx a k c pe None l r Hi Htr) as (_ & _ & Ho & _). intros Hy. by apply Ho in Hy as [? ?]. Qed.

Lemma unpeer_hp y : hp st2 y = if decide (y = a) then Some None else hp st y.
Proof.
  destruct (split_inv st tr v ctx _ Hi Htr) as (q & _ & (_ & nd & Ha & _)).
  change (hp st2 y) with (hp (upd a (set_peer None) st) y). by apply (hp_set_peer _ _ _ _ nd).
Qed.

Lemma unpeer_plist q : plist st2 q = filter (fun x => x <> a) (plist st q).
Proof. unfold st2, unpeer. by rewrite plist_del. Qed.

Lemma unpeer_nodup : NoDup (addrs (T a k c None l r) ++ caddrs ctx).
Proof. apply (split_nodup st tr v ctx (T a k c pe l r) Hi Htr). Qed.

(** The node in its place. *)
Lemma unpeer_node : exists nd, heap st2 !! a = Some nd /\ parent_bit_packed nd = slot_of v ctx /\
  repc (wbits v) (heap st2) (root st2 v) v ctx (Some a) /\
  rep (wbits v) (heap st2) (BitSlot a false) (bit0 nd) l /\ rep (wbits v) (heap st2) (BitSlot a true) (bit1 nd) r.
Proof. destruct (proj1 (rep_plug _ _ _ _ _ _) unpeer_rep) as (q & Hc & (-> & nd & Ha & _ & Hp & Hl & Hr)). eauto 10. Qed.

(** A node with two children stays. *)
Lemma keep_ok : l <> E -> r <> E -> inv st2 (tr_set tr v (plug ctx (T a k c None l r))).
Proof.
  intros Hle Hre. destruct (set_peer_rep st tr v ctx a k c pe None l r Hi Htr) as (Hrep & Hnd & Hoth & Hdom).
  apply (inv_change st); try done.
  - pose proof (inv_wf _ _ Hi v) as Hw. rewrite Htr in Hw. apply (zdel_wf (nbits v)) in Hw. by destruct l, r.
  - intros q. rewrite unpeer_plist. apply NoDup_filter, Hi.
  - intros q y. rewrite unpeer_plist, list_elem_of_filter, (inv_list _ _ Hi), unpeer_hp. case_decide; naive_solver.
Qed.

(** The child [t'] (possibly none) takes the place of the node. *)
Section Splice.

Context (t' : trie) (q : option Z) (s : slot).
Hypothesis Hperm : addrs (T a k c None l r) ≡ₚ a :: addrs t'.
Hypothesis Hrep : rep (wbits v) (heap st2) s q t'.
Let st3 : table := relink (slot_of v ctx) q st2.

Lemma splice_nodup : NoDup (a :: addrs t' ++ caddrs ctx).
Proof. pose proof unpeer_nodup as H. by rewrite Hperm in H. Qed.

Lemma splice_rep : replace_by (slot_of v ctx) q st2 = Some (tt, st3) /\
  rep (wbits v) (heap st3) (RootSlot v) (root st3 v) (plug ctx t').
Proof.
  destruct unpeer_node as (nd & _ & _ & Hc & _). pose proof splice_nodup as [_ Hnd]%NoDup_cons.
  by eapply relink_ok.
Qed.

Lemma splice_other y : y ∈ addrs (tr (negb v)) -> heap st3 !! y = heap st !! y /\ y <> a.
Proof.
  intros [Hy1 Hy2]%unpeer_other. rewrite addrs_plug, Hperm in Hy2. cbn in Hy2.
  rewrite not_elem_of_cons, not_elem_of_app in Hy2. destruct Hy2 as (Hya & Hyt & Hyc). split; [|done]. rewrite <- Hy1.
  apply heap_relink; [|by intros ?%owner_caddrs]. intros ->. apply rep_root_addr in Hrep as [? _]. done.
Qed.

Lemma splice_root : root st3 (negb v) = root st (negb v).
Proof. unfold st3. rewrite root_relink; [by destruct v|]. destruct ctx; [by destruct v|done]. Qed.

Lemma splice_free : kmem_cache_free a st3 = Some (tt, set_heap (delete a) st3).
Proof.
  unfold kmem_cache_free. assert (is_Some (heap st3 !! a)) as [nd Ha]; [|by rewrite Ha].
  apply hp_is_Some. unfold st3. rewrite hp_relink, unpeer_hp, decide_True by done. done.
Qed.

Lemma splice_plist q' : plist (set_heap (delete a) st3) q' = filter (fun x => x <> a) (plist st q').
Proof. transitivity (plist st3 q'); [done|]. unfold st3. by rewrite plist_relink, unpeer_plist. Qed.

Lemma splice_ok : wf (nbits v) [] (plug ctx t') ->
  inv (set_heap (delete a) st3) (tr_set tr v (plug ctx t')).
Proof.
  intros Hw. destruct splice_rep as [_ Hr]. pose proof splice_nodup as [Hna _]%NoDup_cons.
  apply (inv_prune st _ tr v _ [a] a); try done.
  - eapply rep_frame; [|exact Hr]. intros y Hy. cbn. rewrite lookup_delete_ne; [done|].
    intros ->. by rewrite addrs_plug in Hy.
  - rewrite Htr, !addrs_plug. change (addrs (T a k c pe l r)) with (addrs (T a k c None l r)). by rewrite Hperm.
  - by apply list_elem_of_singleton.
  - apply splice_root.
  - intros y Hy. apply splice_other in Hy as [<- Hy]. cbn. by rewrite lookup_delete_ne.
  - intros y. case_decide as D.
    + apply list_elem_of_singleton in D as ->. unfold hp. cbn. by rewrite lookup_delete_eq.
    + rewrite list_elem_of_singleton in D. transitivity (hp st3 y); [unfold hp; cbn; by rewrite lookup_delete_ne|].
      unfold st3. rewrite hp_relink, unpeer_hp. by rewrite decide_False.
  - apply splice_plist.
  - intros y ->%list_elem_of_singleton. done.
Qed.

End Splice.

End Remove.

(** The leaf below a branching node: the sibling takes the place of both. *)
Section Collapse.

Context (st : table) (tr : bool -> trie) (v : bool) (f : frame) (ctx : list frame) (a : Z) (k : list bool) (c : nat) (pe : option Z).
Hypothesis Hi : inv st tr.
Hypothesis Htr : tr v = plug (f :: ctx) (T a k c pe E E).
Let st3 : table := relink (BitSlot (fr_a f) (fr_bit f)) None (unpeer a st).
Let st4 : table := set_heap (delete a) st3.

Lemma collapse_distinct : a <> fr_a f /\ a ∉ addrs (fr_sib f) ++ caddrs ctx /\ fr_a f ∉ addrs (fr_sib f) ++ caddrs ctx /\
  NoDup (addrs (fr_sib f) ++ caddrs ctx).
Proof.
  pose proof (splice_nodup st tr v (f :: ctx) a k c pe E E Hi Htr E ltac:(done)) as [H1 [H2 H3]%NoDup_cons]%NoDup_cons.
  cbn in H1. rewrite not_elem_of_cons in H1. tauto.
Qed.

Lemma collapse_parent : exists pnd, heap st3 !! fr_a f = Some pnd /\ peer pnd = fr_pe f /\ parent_bit_packed pnd = slot_of v ctx /\
  repc (wbits v) (heap st4) (root st4 v) v ctx (Some (fr_a f)) /\
  rep (wbits v) (heap st4) (BitSlot (fr_a f) (negb (fr_bit f))) (bit pnd (negb (fr_bit f))) (fr_sib f).
Proof.
  destruct (splice_rep st tr v (f :: ctx) a k c pe E E Hi Htr E None (RootSlot v) ltac:(done) eq_refl) as [_ Hr].
  apply rep_plug in Hr as (q0 & (pnd & Hpa & Hok & _ & Hsib & Hpp & Hc) & _). exists pnd.
  destruct collapse_distinct as (Hne & Han & Hfn & _). rewrite not_elem_of_app in Han.
  split; [exact Hpa|]. split; [by destruct Hok as [-> _]|]. split; [done|]. split.
  - eapply repc_frame; [|exact Hc]. intros y Hy. cbn. rewrite lookup_delete_ne; [done|]. intros <-. tauto.
  - eapply rep_frame; [|exact Hsib]. intros y Hy. cbn. rewrite lookup_delete_ne; [done|]. intros <-. tauto.
Qed.

(** The state at the end, with [q] the pointer to the sibling. *)
Let st6 (q : option Z) : table := set_heap (delete (fr_a f)) (relink (slot_of v ctx) q st4).

Lemma collapse_hp q y : hp (st6 q) y = if decide (y ∈ [a; fr_a f]) then None else hp st y.
Proof.
  assert (hp (st6 q) y = if decide (y = fr_a f) then None else hp (relink (slot_of v ctx) q st4) y) as ->.
  { unfold hp, st6. cbn. case_decide as D; [by rewrite D, lookup_delete_eq|by rewrite lookup_delete_ne]. }
  assert (hp st4 y = if decide (y = a) then None else hp st y) as E4.
  { transitivity (if decide (y = a) then None else hp st3 y).
    - unfold hp, st4. cbn. case_decide as D; [by rewrite D, lookup_delete_eq|by rewrite lookup_delete_ne].
    - case_decide as D; [done|]. unfold st3. rewrite hp_relink, (unpeer_hp st tr v (f :: ctx) a k c pe E E Hi Htr).
      by rewrite decide_False. }
  rewrite hp_relink, E4. repeat case_decide; set_solver.
Qed.

Lemma collapse_other q y : y ∈ addrs (tr (negb v)) ->
  rep (wbits v) (heap st4) (BitSlot (fr_a f) (negb (fr_bit f))) q (fr_sib f) ->
  heap (st6 q) !! y = heap st !! y.
Proof.
  intros Hy Hq. destruct (splice_other st tr v (f :: ctx) a k c pe E E Hi Htr E None (RootSlot v) ltac:(done) eq_refl y Hy) as [H3 Hya].
  pose proof (unpeer_other st tr v (f :: ctx) a k c pe E E Hi Htr y Hy) as [_ Hyn]. rewrite addrs_plug in Hyn. cbn in Hyn.
  rewrite !not_elem_of_cons, not_elem_of_app in Hyn. destruct Hyn as (_ & Hyf & Hys & Hyc).
  transitivity (heap st4 !! y); [|unfold st4; cbn; by rewrite lookup_delete_ne].
  unfold st6. cbn. rewrite lookup_delete_ne by done. apply heap_relink; [|by intros ?%owner_caddrs].
  intros ->. by apply rep_root_addr in Hq as [? _].
Qed.

Lemma collapse_root q : root (st6 q) (negb v) = root st (negb v).
Proof.
  transitivity (root (relink (slot_of v ctx) q st4) (negb v)); [by destruct v|].
  rewrite root_relink; [by destruct v|]. destruct ctx; [by destruct v|done].
Qed.

Lemma collapse_ok : fr_pe f = None -> wf (nbits v) [] (plug ctx (fr_sib f)) ->
  exists pnd, heap st3 !! fr_a f = Some pnd /\ peer pnd = None /\ parent_bit_packed pnd = slot_of v ctx /\
    let q := bit pnd (negb (fr_bit f)) in
    replace_by (slot_of v ctx) q st4 = Some (tt, relink (slot_of v ctx) q st4) /\
    is_Some (heap (relink (slot_of v ctx) q st4) !! fr_a f) /\
    inv (st6 q) (tr_set tr v (plug ctx (fr_sib f))).
Proof.
  intros Hpe Hw. destruct collapse_parent as (pnd & Hpa & Hpn & Hpp & Hc & Hsib). destruct collapse_distinct as (Hne & Han & Hfn & Hnd).
  exists pnd. rewrite Hpe in Hpn. do 3 (split; [done|]). intros q.
  destruct (relink_ok (wbits v) st4 v ctx (Some (fr_a f)) _ q (fr_sib f) Hc Hsib Hnd) as [Hrb Hrep].
  split; [exact Hrb|]. split.
  { rewrite <- hp_is_Some, hp_relink, hp_is_Some. unfold st4. cbn [heap set_heap]. by rewrite lookup_delete_ne, Hpa. }
  apply (inv_prune st _ tr v _ [a; fr_a f] a); try done.
  - eapply rep_frame; [|exact Hrep]. intros y Hy. cbn. rewrite lookup_delete_ne; [done|].
    intros <-. by rewrite addrs_plug in Hy.
  - by rewrite Htr, !addrs_plug.
  - apply elem_of_cons. auto.
  - apply collapse_root.
  - intros y Hy. by apply collapse_other.
  - apply collapse_hp.
  - intros q'. transitivity (plist st4 q'); [exact (plist_relink (slot_of v ctx) q st4 q')|].
    transitivity (plist st3 q'); [done|]. unfold st3. by rewrite plist_relink, unpeer_plist.
  - intros y Hy Hya. assert (y = fr_a f) as -> by set_solver.
    destruct (split_inv st tr v (f :: ctx) _ Hi Htr) as (q0 & (nd & Hnd' & (Hp & _) & _) & _).
    unfold hp. rewrite Hnd'. cbn. by rewrite Hp, Hpe.
Qed.

End Collapse.

Lemma remove_leaf_ok st tr v ctx a k c pe : inv st tr -> tr v = plug ctx (T a k c pe E E) ->
  wf (nbits v) [] (zdel ctx (T a k c pe E E)) ->
  exists st', (replace_by (slot_of v ctx) None ≫= fun _ =>
      match slot_of v ctx with
      | BitSlot pa b =>
          pnd ← get_node pa;
          match peer pnd with
          | None =>
              kmem_cache_free a ≫= fun _ =>
              replace_by (parent_bit_packed pnd) (bit pnd (negb b)) ≫= fun _ =>
              kmem_cache_free pa
          | Some _ => kmem_cache_free a
          end
      | _ => kmem_cache_free a
      end) (unpeer a st) = Some (tt, st') /\
    inv st' (tr_set tr v (zdel ctx (T a k c pe E E))) /\
    forall q, plist st' q = filter (fun x => x <> a) (plist st q).
Proof.
  intros Hi Htr Hz.
  destruct (splice_rep st tr v ctx a k c pe E E Hi Htr E None (RootSlot v) ltac:(done) eq_refl) as [Hrb _].
  pose proof (splice_free st tr v ctx a k c pe E E Hi Htr None) as Hfree. rewrite (bind_ok _ _ _ _ _ Hrb).
  pose proof (splice_ok st tr v ctx a k c pe E E Hi Htr E None (RootSlot v) ltac:(done) eq_refl) as Hok.
  pose proof (splice_plist st v ctx a None) as Hpl. destruct ctx as [|f ctx].
  - cbn [slot_of zdel plug] in *. rewrite Hfree. eexists. split; [done|]. split; [by apply Hok|done].
  - destruct (collapse_parent st tr v f ctx a k c pe Hi Htr) as (pnd & Hpa & Hpn & _).
    cbn [slot_of zdel] in *. rewrite (bind_ok _ _ _ _ _ (get_node_ok _ _ _ Hpa)), Hpn.
    destruct (fr_pe f) as [pp|] eqn:Epe.
    + rewrite Hfree. eexists. split; [done|]. split; [by apply Hok|done].
    + rewrite (bind_ok _ _ _ _ _ Hfree).
      destruct (collapse_ok st tr v f ctx a k c pe Hi Htr Epe Hz) as (pnd' & Hpa' & _ & Hpp & Hrb2 & [nd2 Hs] & Hinv).
      rewrite Hpa in Hpa'. injection Hpa' as <-. rewrite Hpp, (bind_ok _ _ _ _ _ Hrb2).
      eexists. split; [unfold kmem_cache_free; by rewrite Hs|]. split; [exact Hinv|].
      intros q. rewrite <- Hpl. apply plist_relink.
Qed.

Lemma remove_node_ok st tr v ctx a k c pe l r : inv st tr -> tr v = plug ctx (T a k c pe l r) ->
  exists st', remove_node a st = Some (tt, st') /\ inv st' (tr_set tr v (zdel ctx (T a k c pe l r))) /\
    forall q, plist st' q = filter (fun x => x <> a) (plist st q).
Proof.
  intros Hi Htr. pose proof (inv_wf _ _ Hi v) as Hw. rewrite Htr in Hw. pose proof (zdel_wf _ _ _ _ _ _ _ _ Hw) as Hz.
  destruct (split_inv st tr v ctx _ Hi Htr) as (q & _ & (_ & nd0 & Ha0 & _)).
  destruct (unpeer_node st tr v ctx a k c pe l r Hi Htr) as (nd & Ha & Hpp & Hc & Hl & Hr).
  assert (forall B (kk : unit -> M B), (list_del a ≫= fun _ => modify a (set_peer None) ≫= kk) st = kk tt (unpeer a st)) as Hun
    by (intros; by apply (bind_ok _ kk _ _ _ (unpeer_run a st nd0 Ha0))).
  unfold remove_node. rewrite Hun, (bind_ok _ _ _ _ _ (get_node_ok _ _ _ Ha)), Hpp.
  destruct (decide (l = E)) as [El|El], (decide (r = E)) as [Er|Er].
  - subst l r. cbn in Hl, Hr. rewrite Hl, Hr. destruct (remove_leaf_ok st tr v ctx a k c pe Hi Htr Hz) as (st' & Hrun & H). eauto.
  - subst l. cbn in Hl. rewrite Hl.
    destruct (splice_rep st tr v ctx a k c pe E r Hi Htr r _ _ ltac:(done) Hr) as [Hrb _].
    assert (exists d, bit1 nd = Some d) as [d Ed] by (destruct r; [done|]; destruct Hr as (-> & _); eauto).
    rewrite Ed in *. rewrite (bind_ok _ _ _ _ _ Hrb), (splice_free st tr v ctx a k c pe E r Hi Htr).
    eexists. split; [done|]. split; [|apply splice_plist].
    assert (zdel ctx (T a k c pe E r) = plug ctx r) as Ez by (by destruct r). rewrite Ez in *.
    by apply (splice_ok st tr v ctx a k c pe E r Hi Htr r _ _ ltac:(done) Hr).
  - subst r. cbn in Hr. rewrite Hr.
    assert (addrs (T a k c None l E) ≡ₚ a :: addrs l) as Hperm by (cbn; by rewrite app_nil_r).
    destruct (splice_rep st tr v ctx a k c pe l E Hi Htr l _ _ Hperm Hl) as [Hrb _].
    assert (exists d, bit0 nd = Some d) as [d Ed] by (destruct l; [done|]; destruct Hl as (-> & _); eauto).
    rewrite Ed in *. rewrite (bind_ok _ _ _ _ _ Hrb), (splice_free st tr v ctx a k c pe l E Hi Htr).
    eexists. split; [done|]. split; [|apply splice_plist].
    assert (zdel ctx (T a k c pe l E) = plug ctx l) as Ez by (by destruct l). rewrite Ez in *.
    by apply (splice_ok st tr v ctx a k c pe l E Hi Htr l _ _ Hperm Hl).
  - assert (exists d, bit0 nd = Some d) as [d0 Ed0] by (destruct l; [done|]; destruct Hl as (-> & _); eauto).
    assert (exists d, bit1 nd = Some d) as [d1 Ed1] by (destruct r; [done|]; destruct Hr as (-> & _); eauto).
    rewrite Ed0, Ed1. eexists. split; [done|]. split; [|apply unpeer_plist].
    assert (zdel ctx (T a k c pe l r) = plug ctx (T a k c None l r)) as -> by (by destruct l, r).
    by apply (keep_ok st tr v ctx a k c pe l r).
Qed.
