(* ===== verification/AllowedIpsSpec.v ===== *)
(** * The allowed-address table as a finite map

    The specification of [src/allowedips.c] and the proof that the pointer code
    of [AllowedIps] implements it: the table is a map from prefixes to peers,
    one for each address family; insertion, removal, removal by peer and
    clearing act on the map as one expects, looking up an address is
    longest-prefix match, and no operation ever follows a dangling pointer,
    leaks a node, overruns the fixed-size stack of the freeing loops or loops
    forever. *)

From S2P Require Import Prelude IpBits Trie AllowedIps.
From stdpp Require Import gmap list fin_maps.
#[local] Open Scope Z_scope.

(** ** The specification *)

Definition contents : Type := bool -> gmap (list bool) Z.

(** The first [c] bits of an address in network order. *)
Definition prefix_of_ip (v6 : bool) (ip : list Z) (c : Z) : list bool :=
  firstn (Z.to_nat c) (concat (map byte_bits (firstn (Z.to_nat (wbits v6 / 8)) ip))).

Definition c_set (m : contents) (v6 : bool) (x : gmap (list bool) Z) : contents :=
  fun w => if Bool.eqb w v6 then x else m w.

Inductive op :=
| OpInsert (v6 : bool) (ip : list Z) (c : Z) (p : option Z)
| OpRemove (v6 : bool) (ip : list Z) (c : Z) (p : option Z)
| OpRemoveByPeer (p : Z)
| OpFree.

(** The calls of the exported functions. *)
Definition run_op (o : op) : M Z :=
  match o with
  | OpInsert false ip c p => wg_allowedips_insert_v4 ip c p
  | OpInsert true ip c p => wg_allowedips_insert_v6 ip c p
  | OpRemove false ip c p => wg_allowedips_remove_v4 ip c p
  | OpRemove true ip c p => wg_allowedips_remove_v6 ip c p
  | OpRemoveByPeer p => wg_allowedips_remove_by_peer p ≫= fun _ => mret 0
  | OpFree => wg_allowedips_free ≫= fun _ => mret 0
  end.

(** The arguments a caller can pass: an address of the right size. *)
Definition op_ok (o : op) : Prop :=
  match o with
  | OpInsert v6 ip c _ | OpRemove v6 ip c _ => len ip = wbits v6 / 8 /\ all_bytes ip /\ 0 <= c < 256
  | _ => True
  end.

(** The effect of an operation that returned [r]. *)
Definition spec_op (o : op) (r : Z) (m : contents) : contents :=
  match o with
  | OpInsert v6 ip c (Some p) => if r =? 0 then c_set m v6 (<[prefix_of_ip v6 ip c := p]> (m v6)) else m
  | OpInsert _ _ _ None => m
  | OpRemove v6 ip c p =>
      if (r =? 0) && bool_decide (m v6 !! prefix_of_ip v6 ip c = p)
      then c_set m v6 (delete (prefix_of_ip v6 ip c) (m v6)) else m
  | OpRemoveByPeer p => fun w => filter (fun x => x.2 <> p) (m w)
  | OpFree => fun _ => ∅
  end.

(** The values an operation may return, with the allocator's answers [ans]. *)
Definition spec_ret (o : op) (ans : list bool) (r : Z) : Prop :=
  match o with
  | OpInsert v6 _ c p =>
      if (wbits v6 <? c) || bool_decide (p = None) then r = - EINVAL
      else r = 0 \/ (r = - ENOMEM /\ false ∈ ans)
  | OpRemove v6 _ c _ => r = if wbits v6 <? c then - EINVAL else 0
  | _ => r = 0
  end.

(** A state that holds a map. *)
Definition holds (st : table) (m : contents) : Prop :=
  exists tr, inv st tr /\ forall v q, m v !! q = tget (tr v) q.

(** ** Keys *)

Lemma swap_endian_addr v ip : len ip = wbits v / 8 -> all_bytes ip -> addr_ok (wbits v) (swap_endian ip (wbits v)).
Proof.
  intros Hl Hb. unfold swap_endian. destruct v; cbn [wbits Z.eqb Pos.eqb] in *; (split; [unfold len in *;
    rewrite ?length_app, !length_rev, !length_take, ?length_drop; lia|]).
  - apply Forall_app_2; apply Forall_rev, Forall_take; [done|by apply Forall_drop].
  - by apply Forall_rev, Forall_take.
Qed.

Lemma kbits_swap v ip c : len ip = wbits v / 8 ->
  firstn (Z.to_nat c) (kbits (wbits v) (swap_endian ip (wbits v))) = prefix_of_ip v ip c.
Proof.
  intros Hl. unfold prefix_of_ip, kbits. rewrite swap_endian_involutive; [done|apply wbits_ok|]. lia.
Qed.

(** ** Lookup *)

(** Longest-prefix match of an address in network order. *)
Definition spec_match (m : contents) (v6 : bool) (ip : list Z) : option Z :=
  lpm (fun q => m v6 !! q) (prefix_of_ip v6 ip (wbits v6)) (nbits v6).

(** The same with retries while the peer found is being destroyed. *)
Fixpoint spec_lookup (views : list (contents * (Z -> bool))) (v6 : bool) (ip : list Z) : option (option Z) :=
  match views with
  | [] => None
  | (m, alive) :: views' =>
      match spec_match m v6 ip with
      | None => Some None
      | Some p => if alive p then Some (Some p) else spec_lookup views' v6 ip
      end
  end.

Lemma lpm_ext (m1 m2 : list bool -> option Z) key n : (forall q, m1 q = m2 q) -> lpm m1 key n = lpm m2 key n.
Proof. intros H. induction n as [|n IH]; cbn; rewrite H; [done|]. by rewrite IH. Qed.

(** What one attempt of [lookup] finds. *)
Lemma find_node_match st m v ip : holds st m -> len ip = wbits v / 8 -> all_bytes ip ->
  exists f, find_node DEPTH_FUEL (heap st) (root st v) None (wbits v) (swap_endian ip (wbits v)) = Some f /\
    found_ok (heap st) f (spec_match m v ip).
Proof.
  intros (tr & Hi & Hm) Hl Hb. pose proof (swap_endian_addr v ip Hl Hb) as Hkey. pose proof (kbits_len _ (wbits_ok v) _ Hkey) as Hn.
  destruct (find_node_walk (wbits v) (wbits_ok v) (heap st) DEPTH_FUEL (RootSlot v) (root st v) (tr v) None None _ [] Hkey
    (inv_rep _ _ Hi v) (inv_wf _ _ Hi v)) as (f & Hf & Hok); [cbn; lia|destruct v; cbn; lia|done|].
  exists f. split; [exact Hf|]. unfold spec_match.
  rewrite (walk_lpm (nbits v) [] _ _ _ (inv_wf _ _ Hi v) ltac:(apply prefix_nil) Hn) in Hok.
  rewrite <- (kbits_swap v ip (wbits v) Hl), firstn_all2 by (rewrite Hn; done).
  rewrite (lpm_ext _ (tget (tr v))) by apply Hm. by destruct (lpm _ _ _).
Qed.

Lemma lookup_refines views mviews v ip : Forall2 (fun a b => holds a.1 b.1 /\ a.2 = b.2) views mviews ->
  len ip = wbits v / 8 -> all_bytes ip -> allowedips_lookup views v ip = spec_lookup mviews v ip.
Proof.
  intros Hv Hl Hb. induction Hv as [|[st alive] [m alive'] views mviews [Hh Ha] Hv IH]; [done|]. cbn in Hh, Ha. subst alive'.
  cbn [allowedips_lookup spec_lookup]. destruct (find_node_match st m v ip Hh Hl Hb) as (f & Hf & Hok).
  change (if v then 128 else 32) with (wbits v). rewrite Hf.
  destruct f as [a|]; cbn in Hok; [|by rewrite Hok]. destruct Hok as ([p Hp] & nd & Hnd & Hpe).
  rewrite Hnd, Hpe, Hp. by destruct (alive p).
Qed.

(** ** Insertion and removal *)

Lemma same_bump st : same st (bump_seq st).
Proof. split; [done|]. split; [by intros []|done]. Qed.

Lemma run_insert v ip c p : run_op (OpInsert v ip c p) = (bump ≫= fun _ => allowedips_add v (wbits v) (swap_endian ip (wbits v)) c p).
Proof. by destruct v. Qed.

Lemma run_remove v ip c p : run_op (OpRemove v ip c p) = (bump ≫= fun _ => allowedips_remove v (wbits v) (swap_endian ip (wbits v)) c p).
Proof. by destruct v. Qed.

Lemma holds_set st' tr m v t' x : inv st' (tr_set tr v t') -> (forall w q, m w !! q = tget (tr w) q) ->
  (forall q, x !! q = tget t' q) -> holds st' (c_set m v x).
Proof.
  intros Hi Hm Hx. eexists. split; [exact Hi|]. intros w q. unfold c_set, tr_set. by destruct (Bool.eqb w v).
Qed.

Lemma insert_refines st m v ip c p : holds st m -> op_ok (OpInsert v ip c p) ->
  exists r st', run_op (OpInsert v ip c p) st = Some (r, st') /\
    holds st' (spec_op (OpInsert v ip c p) r m) /\ spec_ret (OpInsert v ip c p) (answers st) r.
Proof.
  intros (tr & Hi & Hm) (Hl & Hb & Hc). pose proof (swap_endian_addr v ip Hl Hb) as Hkey. rewrite run_insert.
  pose proof (inv_same _ _ _ (same_bump st) Hi) as Hi'.
  rewrite (bind_ok bump _ st tt (bump_seq st)) by done. cbn [spec_op spec_ret].
  destruct p as [p|]; [|eexists _, _; ands; [done|exists tr; by split|by rewrite orb_true_r]]. rewrite orb_false_r.
  destruct (Z.ltb_spec (wbits v) c) as [Hlt|Hle].
  { exists (- EINVAL), (bump_seq st). ands; [|exists tr; by split|done]. unfold allowedips_add.
    by destruct (Z.ltb_spec (wbits v) c); [|lia]. }
  destruct (allowedips_add_ok (bump_seq st) tr v _ (Z.to_nat c) p Hi' Hkey) as (r & st' & Hr & Hpost);
    [unfold nbits; lia|]. rewrite Z2Nat.id in Hr by lia.
  exists r, st'. split; [exact Hr|]. rewrite (kbits_swap v ip c Hl) in Hpost.
  destruct Hpost as [(-> & t' & Hinv & Hget)|(-> & Hans & Hs)]; cbn [Z.eqb].
  - split; [|auto]. eapply holds_set; [exact Hinv|done|]. intros q. rewrite Hget, lookup_insert, <- Hm.
    destruct (decide (q = prefix_of_ip v ip c)) as [->|D]; [by rewrite decide_True|by rewrite decide_False by done].
  - split; [|auto]. exists tr. split; [by eapply inv_same|done].
Qed.

(** [remove_node] takes the prefix of a node out of the map. *)
Lemma remove_node_refines st tr v ctx a k c pe l r : inv st tr -> tr v = plug ctx (T a k c pe l r) ->
  exists st' t', remove_node a st = Some (tt, st') /\ inv st' (tr_set tr v t') /\
    (forall q, tget t' q = if decide (q = firstn c k) then None else tget (tr v) q) /\ tget (tr v) (firstn c k) = pe /\
    (forall q, plist st' q = filter (fun x => x <> a) (plist st q)).
Proof.
  intros Hi Htr. destruct (remove_node_ok st tr v ctx a k c pe l r Hi Htr) as (st' & Hr & Hinv & Hpl).
  pose proof (inv_wf _ _ Hi v) as Hw. rewrite Htr in Hw. eexists st', _. ands; [exact Hr|exact Hinv| | |exact Hpl].
  - intros q. rewrite Htr. by apply (zdel_tget (nbits v)).
  - apply wf_plug in Hw as (Hwc & Hw & _). pose proof Hw as (_ & _ & Hp & _). rewrite Htr, (tget_plug_in (nbits v)) by done.
    cbn. by rewrite decide_True.
Qed.

(** Prefixes that [node_placement] does not find are not in the map. *)
Lemma stops_none n ctx t key c : length key = n -> (c <= n)%nat -> wf n [] (plug ctx t) ->
  hole ctx `prefix_of` firstn c key -> stops t key c -> tget (plug ctx t) (firstn c key) = None.
Proof.
  intros Hk Hc (Hwc & Hw & _)%wf_plug Hh Hst. rewrite (tget_plug_in n) by done.
  destruct t as [|a k ca pe l r]; [done|]. destruct Hw as (Hkl & Hca & _). cbn [stops] in Hst. cbn [tget].
  assert (~ firstn ca k `prefix_of` firstn c key) as Hno.
  { intros Hp. destruct Hst. split; [|etrans; [exact Hp|apply prefix_take]].
    apply prefix_length in Hp. rewrite !length_take in Hp. lia. }
  rewrite decide_False by (intros Heq; destruct Hno; by rewrite Heq). by rewrite decide_False.
Qed.

Lemma remove_refines st m v ip c p : holds st m -> op_ok (OpRemove v ip c p) ->
  exists r st', run_op (OpRemove v ip c p) st = Some (r, st') /\
    holds st' (spec_op (OpRemove v ip c p) r m) /\ spec_ret (OpRemove v ip c p) (answers st) r.
Proof.
  intros (tr & Hi0 & Hm) (Hl & Hb & Hc). pose proof (swap_endian_addr v ip Hl Hb) as Hkey. rewrite run_remove.
  pose proof (inv_same _ _ _ (same_bump st) Hi0) as Hi.
  rewrite (bind_ok bump _ st tt (bump_seq st)) by done. cbn [spec_op spec_ret]. unfold allowedips_remove.
  destruct (Z.ltb_spec (wbits v) c) as [Hlt|Hle]; [eexists _, _; ands; [done|exists tr; by split|done]|].
  pose proof (kbits_swap v ip c Hl) as Hq. pose proof (kbits_len _ (wbits_ok v) _ Hkey) as Hkl.
  assert (Z.to_nat c <= nbits v)%nat as Hcn by (unfold nbits; lia).
  assert (forall st1, inv st1 tr -> m v !! prefix_of_ip v ip c = None -> exists r st', (mret 0 : M Z) st1 = Some (r, st') /\
    holds st' (if (r =? 0) && bool_decide (m v !! prefix_of_ip v ip c = p) then c_set m v (delete (prefix_of_ip v ip c) (m v)) else m)
    /\ r = 0) as Hnone.
  { intros st1 Hi1 Hq0. exists 0, st1. ands; try done. exists tr. split; [done|]. intros w q. cbn [Z.eqb andb].
    case_bool_decide; [|done]. unfold c_set. destruct (Bool.eqb w v) eqn:Ew; [|done]. apply eqb_prop in Ew as ->.
    by rewrite delete_id. }
  rewrite (bind_ok (read_slot (RootSlot v)) _ (bump_seq st) (root (bump_seq st) v) (bump_seq st)) by done.
  destruct (root (bump_seq st) v) as [ra|] eqn:Er.
  2:{ apply Hnone; [done|]. rewrite Hm. apply (root_trie _ _ _ Hi) in Er. by rewrite Er. }
  pose proof (placement_ok _ tr v _ (Z.to_nat c) Hi Hkey Hcn) as Hp. rewrite Z2Nat.id in Hp by lia.
  destruct (zplace _ _ _ _) as [[ctx t] ex]. destruct Hp as (Hp & Htr & Hh & Hx). rewrite (bind_ok _ _ _ _ _ Hp).
  pose proof (inv_wf _ _ Hi v) as Hw. rewrite Htr in Hw. destruct ex.
  - destruct Hx as (a & k & pe & l & r & -> & Hk). rewrite Hq in Hk.
    destruct (split_inv _ tr v ctx _ Hi Htr) as (q & _ & (_ & nd & Ha & (Hpe & _) & _)).
    rewrite (bind_ok _ _ _ _ _ (get_node_ok _ _ _ Ha)), Hpe.
    destruct (remove_node_refines _ tr v ctx a k _ pe l r Hi Htr) as (st' & t' & Hr & Hinv & Hget & Hpeq & _).
    rewrite Hk, <- Hm in Hpeq. rewrite Hpeq. destruct (decide (p = pe)) as [D|D].
    + rewrite (bind_ok _ _ _ _ _ Hr). exists 0, st'. ands; try done. rewrite bool_decide_true by done.
      eapply holds_set; [exact Hinv|done|]. intros q'. rewrite Hget, Hk, lookup_delete, <- Hm.
      destruct (decide (q' = prefix_of_ip v ip c)) as [->|D']; [by rewrite decide_True|by rewrite decide_False by done].
    + exists 0, (bump_seq st). ands; try done. rewrite bool_decide_false by done. exists tr. by split.
  - assert (m v !! prefix_of_ip v ip c = None) as Hq0
      by (rewrite Hm, Htr, <- Hq; by apply (stops_none (nbits v))).
    destruct (parent_of ctx); by apply Hnone.
Qed.

(** ** Removal of all addresses of a peer *)

Lemma plug_app c1 c2 t : plug (c1 ++ c2) t = plug c2 (plug c1 t).
Proof. revert t. induction c1 as [|f c1 IH]; intros t; [done|]. apply IH. Qed.

(** Every node has a path. *)
Lemma addrs_split t a : a ∈ addrs t -> exists ctx k c pe l r, t = plug ctx (T a k c pe l r).
Proof.
  induction t as [|a0 k c pe l IHl r IHr]; cbn [addrs]; [intros H; inversion H|].
  rewrite elem_of_cons, elem_of_app. intros [->|[H|H]]; [by exists [], k, c, pe, l, r|..].
  - destruct (IHl H) as (ctx & k' & c' & pe' & l' & r' & ->).
    exists (ctx ++ [Frame a0 k c pe false r]), k', c', pe', l', r'. by rewrite plug_app.
  - destruct (IHr H) as (ctx & k' & c' & pe' & l' & r' & ->).
    exists (ctx ++ [Frame a0 k c pe true l]), k', c', pe', l', r'. by rewrite plug_app.
Qed.

(** Every entry of the map is stored in a node. *)
Lemma tget_node bs h s q t x p : rep bs h s q t -> tget t x = Some p -> exists a nd, h !! a = Some nd /\ peer nd = Some p.
Proof.
  revert s q. induction t as [|a k c pe l IHl r IHr]; intros s q; cbn; [done|].
  intros (_ & nd & Ha & (Hpe & _) & _ & Hl & Hr). case_decide; [intros ->; eauto|]. case_decide; [|done].
  destruct (x !! c) as [[]|]; [eauto|eauto|done].
Qed.

Lemma inv_node st tr a p : inv st tr -> hp st a = Some (Some p) ->
  exists v ctx k c l r, tr v = plug ctx (T a k c (Some p) l r).
Proof.
  intros Hi Hp. destruct (proj1 (inv_dom _ _ Hi a)) as [v Hv]; [by rewrite Hp|]. exists v.
  destruct (addrs_split _ _ Hv) as (ctx & k & c & pe & l & r & Htr). exists ctx, k, c, l, r. rewrite Htr. do 2 f_equal.
  destruct (split_inv _ tr v ctx _ Hi Htr) as (q & _ & (_ & nd & Ha & (Hpe & _) & _)).
  unfold hp in Hp. rewrite Ha in Hp. cbn in Hp. congruence.
Qed.

(** The map without the entries of [p]. *)
Definition drop_peer (p : Z) (o : option Z) : option Z := match o with Some p' => if p' =? p then None else o | None => None end.

(** The loop: the list gets shorter until the peer has no node. *)
Lemma remove_each_ok p l : forall st tr, inv st tr -> plist st p = l ->
  exists st' tr', remove_each (length l) p (hd_error l) st = Some (tt, st') /\ inv st' tr' /\ plist st' p = [] /\
    forall v q, drop_peer p (tget (tr' v) q) = drop_peer p (tget (tr v) q).
Proof.
  induction l as [|a l IH]; intros st tr Hi Hl; [by exists st, tr|]. cbn [length hd_error remove_each].
  assert (hp st a = Some (Some p)) as Hp by (apply (inv_list _ _ Hi); rewrite Hl; apply elem_of_cons; auto).
  destruct (inv_node st tr a p Hi Hp) as (v & ctx & k & c & lt & rt & Htr).
  destruct (proj1 (hp_is_Some st a)) as [nd Ha]; [by rewrite Hp|].
  destruct (remove_node_refines st tr v ctx a k c _ lt rt Hi Htr) as (st1 & t1 & Hr & Hi1 & Hget & Hpe & Hpl).
  rewrite (bind_ok _ _ _ _ _ (get_node_ok _ _ _ Ha)), (bind_ok _ _ _ _ _ Hr).
  pose proof (inv_list_nodup _ _ Hi p) as Hnd. rewrite Hl in Hnd. apply NoDup_cons in Hnd as [Hna _].
  rewrite Hl. cbn [list_next]. rewrite Z.eqb_refl.
  destruct (IH st1 _ Hi1) as (st' & tr' & Hrun & Hi' & Hpl' & Htget).
  { rewrite Hpl, Hl, filter_cons_False by tauto. by apply filter_notin. }
  exists st', tr'. ands; try done. intros w q. rewrite Htget. unfold tr_set. destruct (Bool.eqb w v) eqn:Ew; [|done].
  apply eqb_prop in Ew as ->. rewrite Hget. case_decide as D; [|done]. subst q. rewrite Hpe. cbn. by rewrite Z.eqb_refl.
Qed.

Lemma remove_by_peer_refines st m p : holds st m ->
  exists st', run_op (OpRemoveByPeer p) st = Some (0, st') /\ holds st' (spec_op (OpRemoveByPeer p) 0 m).
Proof.
  intros (tr & Hi & Hm). cbn [run_op spec_op].
  assert (forall st' tr', inv st' tr' -> plist st' p = [] ->
    (forall v q, drop_peer p (tget (tr' v) q) = drop_peer p (tget (tr v) q)) ->
    holds st' (fun w => filter (fun x => x.2 <> p) (m w))) as Hend.
  { intros st' tr' Hi' Hpl Hd. exists tr'. split; [done|]. intros v q. rewrite map_lookup_filter, Hm. specialize (Hd v q).
    assert (drop_peer p (tget (tr' v) q) = tget (tr' v) q) as Heq.
    { destruct (tget (tr' v) q) as [p'|] eqn:E; [|done]. cbn. destruct (Z.eqb_spec p' p) as [->|]; [|done].
      destruct (tget_node _ _ _ _ _ _ _ (inv_rep _ _ Hi' v) E) as (a & nd & Ha & Hpe).
      assert (a ∈ plist st' p) as Hin; [|rewrite Hpl in Hin; inversion Hin].
      apply (inv_list _ _ Hi'). unfold hp. rewrite Ha. cbn. by rewrite Hpe. }
    rewrite <- Heq, Hd. destruct (tget (tr v) q) as [p'|]; [|done]. cbn.
    destruct (Z.eqb_spec p' p) as [->|Hne]; [by rewrite option_guard_False by tauto|by rewrite option_guard_True]. }
  unfold wg_allowedips_remove_by_peer. destruct (plist st p) as [|a l] eqn:El.
  - eexists. split; [unfold mbind, M_bind; by rewrite El|]. by apply (Hend st tr).
  - destruct (remove_each_ok p (a :: l) (bump_seq st) tr (inv_same _ _ _ (same_bump st) Hi) El) as (st' & tr' & Hr & Hi' & Hpl & Hd).
    exists st'. split; [|by eapply Hend]. unfold mbind, M_bind. rewrite El. unfold bump. rewrite <- El. cbn [hd_error] in Hr.
    rewrite El. by rewrite Hr.
Qed.

(** ** Clearing the table *)

Fixpoint height (t : trie) : nat :=
  match t with E => 0 | T _ _ _ _ l r => S (Nat.max (height l) (height r)) end.

(** Prefixes grow on every path, so that no path has more than [n + 1] nodes. *)
Lemma height_bound n q t : wf n q t -> t <> E -> (height t + length q <= n + 1)%nat.
Proof.
  revert q. induction t as [|a k c pe l IHl r IHr]; intros q Hw Ht; [done|]. clear Ht.
  destruct Hw as (Hk & Hc & Hq%prefix_length & Hl & Hr & _). rewrite (firstn_len n) in Hq by done. cbn [height].
  assert (forall b, length (firstn c k ++ [b]) = S c) as Hlen
    by (intros; rewrite length_app, (firstn_len n) by done; cbn; lia).
  assert (height l + c <= n)%nat.
  { destruct (decide (l = E)) as [->|D]; [cbn; lia|]. specialize (IHl _ Hl D). rewrite Hlen in IHl. lia. }
  assert (height r + c <= n)%nat.
  { destruct (decide (r = E)) as [->|D]; [cbn; lia|]. specialize (IHr _ Hr D). rewrite Hlen in IHr. lia. }
  lia.
Qed.

(** The stack of the two loops holds the roots of subtries that still have to
    be visited; an entry leaves room above it for the height of its subtrie. *)
Fixpoint fits (ts : list trie) : Prop :=
  match ts with
  | [] => True
  | t :: ts' => Z.of_nat (length ts' + height t) <= MAX_ALLOWEDIPS_DEPTH /\ fits ts'
  end.

Definition stacked (bs : Z) (h : gmap Z allowedips_node) (ts : list trie) (stack : list Z) : Prop :=
  Forall2 (fun t a => exists s, rep bs h s (Some a) t) ts stack.

Definition nodes (ts : list trie) : list Z := concat (map addrs ts).

Definition cons_trie (t : trie) (ts : list trie) : list trie := match t with E => ts | _ => t :: ts end.

Lemma nodes_cons_trie t ts : nodes (cons_trie t ts) = addrs t ++ nodes ts.
Proof. by destruct t. Qed.

(** Pushing a child. *)
Lemma push_ok bs h s q t ts stack m : rep bs h s q t -> stacked bs h ts stack -> fits ts ->
  (height t <= m)%nat -> Z.of_nat (length ts + m) <= MAX_ALLOWEDIPS_DEPTH ->
  exists stack', push_rcu stack q = Some stack' /\ stacked bs h (cons_trie t ts) stack' /\ fits (cons_trie t ts).
Proof.
  intros Ht Hs Hf Hm Hd. pose proof (Forall2_length _ _ _ Hs) as Hlen.
  destruct t as [|a k c pe l r]; [cbn in Ht; subst q; by exists stack|]. pose proof Ht as (-> & _). unfold push_rcu, len.
  destruct (Z.ltb_spec (Z.of_nat (length stack)) MAX_ALLOWEDIPS_DEPTH) as [|]; [|cbn [height] in Hm; lia].
  eexists. split; [done|]. split; [by constructor; [exists s|]|]. split; [lia|done].
Qed.

(** One round of either loop up to its last statement. *)
Lemma visit_ok bs h t ts a stack : stacked bs h (t :: ts) (a :: stack) -> fits (t :: ts) ->
  exists nd k c l r stack1 stack2, h !! a = Some nd /\ t = T a k c (peer nd) l r /\
    push_rcu stack (bit0 nd) = Some stack1 /\ push_rcu stack1 (bit1 nd) = Some stack2 /\
    stacked bs h (cons_trie r (cons_trie l ts)) stack2 /\ fits (cons_trie r (cons_trie l ts)) /\
    nodes (t :: ts) ≡ₚ a :: nodes (cons_trie r (cons_trie l ts)).
Proof.
  intros Hs [Hd Hf]. apply Forall2_cons in Hs as [[s Ht] Hs]. destruct t as [|a' k c pe l r]; [done|].
  destruct Ht as ([= <-] & nd & Ha & (<- & _) & _ & Hl & Hr). cbn [height] in Hd.
  destruct (push_ok bs h _ _ l ts stack (height l) Hl Hs Hf) as (stack1 & Hp1 & Hs1 & Hf1); [lia|lia|].
  destruct (push_ok bs h _ _ r _ stack1 (height r) Hr Hs1 Hf1) as (stack2 & Hp2 & Hs2 & Hf2); [lia| |].
  { destruct l; cbn [cons_trie length height] in *; lia. }
  exists nd, k, c, l, r, stack1, stack2. ands; try done. rewrite !nodes_cons_trie. cbn. solve_Permutation.
Qed.

(** [list_del] for every node that has a peer. *)
Lemma root_remove_peer_lists_ok bs fuel : forall ts stack st, stacked bs (heap st) ts stack -> fits ts ->
  (length (nodes ts) <= fuel)%nat ->
  exists st', root_remove_peer_lists fuel stack st = Some (tt, st') /\ heap st' = heap st /\
    (forall w, root st' w = root st w) /\ (forall p, NoDup (plist st p) -> NoDup (plist st' p)) /\
    forall p x, x ∈ plist st' p <-> x ∈ plist st p /\ ~ (x ∈ nodes ts /\ exists p', hp st x = Some (Some p')).
Proof.
  induction fuel as [|fuel IH]; intros ts stack st Hs Hf Hn.
  { destruct Hs as [|t a ts stack [s Ht] Hs]; [|destruct t; [done|cbn in Hn; lia]].
    exists st. ands; try done. intros p x. unfold nodes. cbn. rewrite elem_of_nil. tauto. }
  destruct stack as [|a stack].
  { apply Forall2_nil_inv_r in Hs as ->. exists st. ands; try done. intros p x.
    unfold nodes. cbn. rewrite elem_of_nil. tauto. }
  destruct ts as [|t ts]; [inversion Hs|].
  destruct (visit_ok bs (heap st) t ts a stack Hs Hf) as (nd & k & c & l & r & stack1 & stack2 & Ha & Et & Hp1 & Hp2 & Hs2 & Hf2 & Hperm).
  cbn [root_remove_peer_lists]. rewrite (bind_ok _ _ _ _ _ (get_node_ok _ _ _ Ha)), Hp1.
  rewrite (bind_ok (lift (Some stack1)) _ st stack1 st) by done. rewrite Hp2.
  rewrite (bind_ok (lift (Some stack2)) _ st stack2 st) by done.
  assert (hp st a = Some (peer nd)) as Hpa by (unfold hp; by rewrite Ha).
  assert (length (nodes (cons_trie r (cons_trie l ts))) <= fuel)%nat as Hn2 by (rewrite Hperm in Hn; cbn in Hn; lia).
  set (st1 := match peer nd with Some _ => set_lists (fmap (filter (fun x => x <> a))) st | None => st end).
  rewrite (bind_ok _ _ st tt st1) by (unfold st1; by destruct (peer nd)).
  assert (heap st1 = heap st) as Hh by (unfold st1; by destruct (peer nd)).
  destruct (IH (cons_trie r (cons_trie l ts)) stack2 st1) as (st' & Hr & Hh' & Hroot & Hnd & Hin); [by rewrite Hh|done|done|].
  exists st'. ands; [exact Hr|congruence| | |].
  - intros w. rewrite Hroot. unfold st1. by destruct (peer nd), w.
  - intros p Hp. apply Hnd. unfold st1. destruct (peer nd); [|done]. rewrite plist_del. by apply NoDup_filter.
  - intros p x. rewrite Hin, Hperm, elem_of_cons. assert (hp st1 x = hp st x) as -> by (unfold hp; by rewrite Hh).
    unfold st1. destruct (peer nd) as [p0|] eqn:Epe.
    + rewrite plist_del, list_elem_of_filter. destruct (decide (x = a)) as [->|D]; [|tauto]. split; [tauto|].
      intros [_ H]. destruct H. split; [auto|]. by exists p0.
    + destruct (decide (x = a)) as [->|D]; [|tauto]. rewrite Hpa. naive_solver.
Qed.

(** Every node is freed exactly once. *)
Lemma root_free_rcu_ok bs fuel : forall ts stack st, stacked bs (heap st) ts stack -> fits ts ->
  (length (nodes ts) <= fuel)%nat -> NoDup (nodes ts) ->
  exists st', root_free_rcu fuel stack st = Some (tt, st') /\
    (forall x, heap st' !! x = if decide (x ∈ nodes ts) then None else heap st !! x) /\
    (forall w, root st' w = root st w) /\ lists st' = lists st.
Proof.
  induction fuel as [|fuel IH]; intros ts stack st Hs Hf Hn Hnd.
  { destruct Hs as [|t a ts stack [s Ht] Hs]; [|destruct t; [done|cbn in Hn; lia]]. by exists st. }
  destruct stack as [|a stack]; [apply Forall2_nil_inv_r in Hs as ->; by exists st|].
  destruct ts as [|t ts]; [inversion Hs|].
  destruct (visit_ok bs (heap st) t ts a stack Hs Hf) as (nd & k & c & l & r & stack1 & stack2 & Ha & Et & Hp1 & Hp2 & Hs2 & Hf2 & Hperm).
  cbn [root_free_rcu]. rewrite (bind_ok _ _ _ _ _ (get_node_ok _ _ _ Ha)), Hp1.
  rewrite (bind_ok (lift (Some stack1)) _ st stack1 st) by done. rewrite Hp2.
  rewrite (bind_ok (lift (Some stack2)) _ st stack2 st) by done.
  rewrite (bind_ok (kmem_cache_free a) _ st tt (set_heap (delete a) st)) by (unfold kmem_cache_free; by rewrite Ha).
  rewrite Hperm in Hn, Hnd. cbn in Hn. apply NoDup_cons in Hnd as [Hna Hnd].
  destruct (IH (cons_trie r (cons_trie l ts)) stack2 (set_heap (delete a) st)) as (st' & Hr & Hh & Hroot & Hl); [|done|lia|done|].
  { clear -Hs2 Hna. revert Hs2 Hna. generalize (cons_trie r (cons_trie l ts)). intros ts' Hs2. induction Hs2 as [|t b ts' bs' [s Ht] Hs2 IH]; [constructor|].
    unfold nodes. cbn. rewrite not_elem_of_app. intros [H1 H2]. constructor; [|by apply IH]. exists s.
    eapply rep_frame; [|exact Ht]. intros x Hx. cbn. rewrite lookup_delete_ne; [done|]. by intros ->. }
  exists st'. ands; [exact Hr| |intros w; rewrite Hroot; by destruct w|done].
  intros x. rewrite Hh. cbn. destruct (decide (x = a)) as [->|D].
  - rewrite lookup_delete_eq. repeat case_decide; try done. destruct H0. rewrite Hperm. apply elem_of_cons. auto.
  - rewrite lookup_delete_ne by done. assert (x ∈ nodes (t :: ts) <-> x ∈ nodes (cons_trie r (cons_trie l ts))) as Hx
      by (rewrite Hperm, elem_of_cons; tauto). repeat case_decide; tauto.
Qed.

Lemma size_nodes (h : gmap Z allowedips_node) (l : list Z) : NoDup l -> (forall a, a ∈ l -> is_Some (h !! a)) -> (length l <= size h)%nat.
Proof.
  intros Hn Hl. rewrite <- size_dom, <- (size_list_to_set (C := gset Z) l Hn). apply subseteq_size.
  intros a Ha. apply elem_of_list_to_set in Ha. apply elem_of_dom. auto.
Qed.

Lemma free_root_ok st v s r t : rep (wbits v) (heap st) s r t -> wf (nbits v) [] t -> NoDup (addrs t) ->
  exists st', free_root r st = Some (tt, st') /\
    (forall x, heap st' !! x = if decide (x ∈ addrs t) then None else heap st !! x) /\
    (forall w, root st' w = root st w) /\ (forall p, NoDup (plist st p) -> NoDup (plist st' p)) /\
    forall p x, x ∈ plist st' p <-> x ∈ plist st p /\ ~ (x ∈ addrs t /\ exists p', hp st x = Some (Some p')).
Proof.
  intros Hr Hw Hn. destruct (decide (t = E)) as [->|Ht].
  { cbn in Hr. subst r. exists st. ands; try done. intros p x. cbn. rewrite elem_of_nil. tauto. }
  destruct r as [a|]; [|destruct t; [done|destruct Hr as (? & _); done]].
  assert (nodes [t] = addrs t) as Hnt by (unfold nodes; cbn; by rewrite app_nil_r).
  assert (stacked (wbits v) (heap st) [t] [a]) as Hs by (constructor; [by exists s|constructor]).
  assert (fits [t]) as Hf.
  { split; [|done]. pose proof (height_bound _ _ _ Hw Ht) as Hb.
    cbn [length] in *. unfold nbits, MAX_ALLOWEDIPS_DEPTH in *. destruct v; cbn [wbits] in Hb; lia. }
  assert (length (nodes [t]) <= size (heap st))%nat as Hsz.
  { rewrite Hnt. apply size_nodes; [done|]. intros x Hx. by eapply rep_alloc. }
  destruct (root_remove_peer_lists_ok _ _ _ _ _ Hs Hf Hsz) as (st1 & Hr1 & Hh1 & Hroot1 & Hnd1 & Hl1).
  destruct (root_free_rcu_ok (wbits v) (size (heap st)) [t] [a] st1) as (st2 & Hr2 & Hh2 & Hroot2 & Hl2);
    [by rewrite Hh1|done|done|by rewrite Hnt|].
  exists st2. assert (forall p, plist st2 p = plist st1 p) as Hpl by (intros; unfold plist; by rewrite Hl2). ands.
  - unfold free_root. by rewrite (bind_ok _ _ _ _ _ Hr1).
  - intros x. by rewrite Hh2, Hnt, Hh1.
  - intros w. by rewrite Hroot2.
  - intros p Hp. rewrite Hpl. auto.
  - intros p x. by rewrite Hpl, Hl1, Hnt.
Qed.

Lemma free_refines st m : holds st m ->
  exists st', run_op OpFree st = Some (0, st') /\ holds st' (fun _ => ∅) /\
    (forall a, heap st' !! a = None) /\ (forall p, plist st' p = []).
Proof.
  intros (tr & Hi & _). set (st1 := set_root true None (set_root false None (bump_seq st))).
  destruct (free_root_ok st1 false (RootSlot false) (root st false) (tr false) (inv_rep _ _ Hi false) (inv_wf _ _ Hi false) (inv_nodup _ _ Hi false))
    as (st2 & Hr2 & Hh2 & Hroot2 & Hnd2 & Hl2).
  destruct (free_root_ok st2 true (RootSlot true) (root st true) (tr true)) as (st3 & Hr3 & Hh3 & Hroot3 & Hnd3 & Hl3);
    [|apply Hi|apply Hi|].
  { eapply rep_frame; [|exact (inv_rep _ _ Hi true)]. intros x Hx. rewrite Hh2, decide_False; [done|].
    intros Hx2. by apply (inv_disj _ _ Hi true x). }
  assert (forall a, heap st3 !! a = None) as Hnone.
  { intros a. rewrite Hh3, Hh2. repeat case_decide; try done. destruct (heap st1 !! a) eqn:Ea; [|done].
    destruct (proj1 (inv_dom _ _ Hi a)) as [[] ?]; try done. apply hp_is_Some. by exists a0. }
  assert (forall p, plist st3 p = []) as Hpl.
  { intros p. destruct (plist st3 p) as [|x l] eqn:El; [done|]. assert (x ∈ plist st3 p) as Hx by (rewrite El; apply elem_of_cons; auto).
    apply Hl3 in Hx as [Hx H3]. apply Hl2 in Hx as [Hx H2]. exfalso. apply (inv_list _ _ Hi) in Hx.
    destruct (proj1 (inv_dom _ _ Hi x)) as [[] Hv]; [by rewrite Hx| |apply H2; split; [done|by exists p]].
    apply H3. split; [done|]. exists p. unfold hp. rewrite Hh2, decide_False; [done|]. by apply (inv_disj _ _ Hi true). }
  exists st3. ands; try done.
  - unfold run_op, wg_allowedips_free. unfold mbind, M_bind, bump. cbn [write_slot].
    change (root4 st) with (root st false). change (root6 st) with (root st true). fold st1. by rewrite Hr2, Hr3.
  - exists (fun _ => E). split; [|intros v q; by rewrite lookup_empty]. split; try done.
    + intros v. cbn. rewrite Hroot3, Hroot2. by destruct v.
    + intros v. apply NoDup_nil_2.
    + intros v a Ha. inversion Ha.
    + intros a. unfold hp. rewrite Hnone. split; [by intros []|]. intros [v Hv]. inversion Hv.
    + intros p. rewrite Hpl. apply NoDup_nil_2.
    + intros p a. unfold hp. rewrite Hpl, Hnone. split; [intros Ha; inversion Ha|done].
Qed.

(** ** Reading a node back *)

Lemma mask_bit b s j : 0 <= s < 8 -> 0 <= j < 8 ->
  Z.testbit (u8 (Z.land b (u32 (Z.shiftl (2 ^ 32 - 1) s)))) j = Z.testbit b j && (s <=? j).
Proof.
  intros Hs Hj. unfold u8, u32. rewrite Z.mod_pow2_bits_low, Z.land_spec, Z.mod_pow2_bits_low, Z.shiftl_spec by lia.
  f_equal. change (2 ^ 32 - 1) with (Z.ones 32). destruct (Z.leb_spec s j).
  - apply Z.ones_spec_low. lia.
  - by apply Z.testbit_neg_r; lia.
Qed.

Lemma mask_byte b s : 0 <= s < 8 ->
  byte_bits (u8 (Z.land b (u32 (Z.shiftl (2 ^ 32 - 1) s)))) =
    firstn (Z.to_nat (8 - s)) (byte_bits b) ++ replicate (Z.to_nat s) false.
Proof.
  intros Hs. unfold byte_bits. cbn [map]. rewrite !mask_bit by lia.
  assert (exists i, s = Z.of_nat i /\ (i < 8)%nat) as (i & -> & Hi) by (exists (Z.to_nat s); lia).
  do 8 (destruct i as [|i]; [cbn; by rewrite ?andb_true_r, ?andb_false_r|]). lia.
Qed.

Lemma bits_zero k : concat (map byte_bits (replicate k 0)) = replicate (8 * k) false.
Proof. induction k as [|k IH]; [done|]. cbn [replicate map concat]. rewrite IH. replace (8 * S k)%nat with (8 + 8 * k)%nat by lia. done. Qed.

Lemma read_node_ok bs nd k c pe : bits_ok bs -> node_ok bs nd k c pe -> Z.of_nat c <= bs ->
  exists ip, wg_allowedips_read_node nd = Some (if bs =? 32 then AF_INET else AF_INET6, ip, Z.of_nat c) /\
    len ip = bs / 8 /\ concat (map byte_bits ip) = firstn c k ++ replicate (Z.to_nat bs - c) false.
Proof.
  intros Hb Hok Hc. pose proof (node_addr _ Hb _ _ _ _ Hok) as [Hl Hby]. destruct Hok as (_ & Hci & _ & _ & Hbl & _ & _ & <-).
  unfold wg_allowedips_read_node, kbits. rewrite Hci, Hbl. set (l := swap_endian (bits nd) bs).
  assert (len l = bs / 8) as Hll.
  { unfold l, swap_endian. destruct Hb as [-> | ->]; cbn [Z.eqb Pos.eqb]; unfold len in *;
      rewrite ?length_app, !length_rev, !length_take, ?length_drop; lia. }
  assert (bs = 8 * (bs / 8)) as Hdiv by (destruct Hb as [-> | ->]; reflexivity). destruct (Z.eqb_spec (Z.of_nat c) 0) as [H0|H0].
  { assert (c = 0%nat) as -> by lia. eexists. split; [done|].
    change ((Z.of_nat 0 + 7) / 8) with 0. change (Z.to_nat 0) with O. rewrite !take_0. cbn [app].
    rewrite len_replicate. split; [lia|].
    rewrite bits_zero. f_equal. lia. }
  set (cb := (Z.of_nat c + 7) / 8). assert (1 <= cb <= bs / 8) as Hcb by (unfold cb; lia).
  destruct (lookup_lt_is_Some_2 l (Z.to_nat (cb - 1))) as [b Hlb]; [unfold len in Hll; lia|].
  set (z := replicate (Z.to_nat (bs / 8 - cb)) 0).
  assert (firstn (Z.to_nat cb) l = firstn (Z.to_nat (cb - 1)) l ++ [b]) as Hsp.
  { replace (Z.to_nat cb) with (S (Z.to_nat (cb - 1))) by lia. by apply take_S_r. }
  assert (length (firstn (Z.to_nat (cb - 1)) l) = Z.to_nat (cb - 1)) as Hlen by (rewrite length_take; unfold len in Hll; lia).
  rewrite Hsp, <- app_assoc, lookup_app_r, Hlen, Nat.sub_diag by lia. cbn [lookup list_lookup app].
  eexists. split; [done|]. rewrite insert_app_r_alt, Hlen, Nat.sub_diag by lia. cbn [insert list_insert].
  split; [rewrite len_app, len_cons; unfold z; rewrite len_replicate; unfold len; rewrite Hlen; lia|].
  assert (u32 (- Z.of_nat c) mod 8 = 8 * cb - Z.of_nat c) as -> by (unfold u32, cb; lia).
  rewrite map_app, concat_app. cbn [map concat]. rewrite mask_byte by (unfold cb; lia). unfold z. rewrite bits_zero.
  rewrite <- (take_drop (Z.to_nat (cb - 1)) l) at 2. rewrite map_app, concat_app.
  rewrite (drop_S _ _ _ Hlb). cbn [map concat].
  assert (length (concat (map byte_bits (firstn (Z.to_nat (cb - 1)) l))) = (8 * Z.to_nat (cb - 1))%nat) as HL by (by rewrite bits_concat_length, Hlen).
  assert (8 * Z.to_nat (cb - 1) <= c <= 8 * Z.to_nat (cb - 1) + 8)%nat as Hcr by (unfold cb; lia).
  rewrite take_app_ge, HL by lia. rewrite <- !app_assoc. f_equal.
  rewrite take_app_le by (cbn; lia).
  replace (Z.to_nat (8 - (8 * cb - Z.of_nat c))) with (c - 8 * Z.to_nat (cb - 1))%nat by lia.
  f_equal. rewrite <- replicate_add. f_equal. lia.
Qed.

(** * Theorems *)

(** A sequence of calls, with the values they return. *)
Fixpoint run_ops (ops : list op) : M (list Z) :=
  match ops with
  | [] => mret []
  | o :: ops' => r ← run_op o; rs ← run_ops ops'; mret (r :: rs)
  end.

Fixpoint spec_ops (ops : list op) (rs : list Z) (m : contents) : contents :=
  match ops, rs with
  | o :: ops', r :: rs' => spec_ops ops' rs' (spec_op o r m)
  | _, _ => m
  end.

Lemma init_holds ans : holds (wg_allowedips_init ans) (fun _ => ∅).
Proof.
  exists (fun _ => E). split; [|intros v q; by rewrite lookup_empty]. split; try done.
  - by intros [].
  - intros v. apply NoDup_nil_2.
  - intros v a Ha. inversion Ha.
  - intros a. unfold hp. cbn. rewrite lookup_empty. split; [by intros []|]. intros [v Hv]. inversion Hv.
  - intros p. apply NoDup_nil_2.
  - intros p a. unfold hp, plist. cbn. rewrite !lookup_empty. split; [intros Ha; inversion Ha|done].
Qed.

Lemma op_refines st m o : holds st m -> op_ok o ->
  exists r st', run_op o st = Some (r, st') /\ holds st' (spec_op o r m) /\ spec_ret o (answers st) r.
Proof.
  intros Hh Ho. destruct o as [v ip c p|v ip c p|p|].
  - by apply insert_refines.
  - by apply remove_refines.
  - destruct (remove_by_peer_refines st m p Hh) as (st' & ? & ?). by exists 0, st'.
  - destruct (free_refines st m Hh) as (st' & ? & ? & _). by exists 0, st'.
Qed.

Lemma ops_refine ops st m : holds st m -> Forall op_ok ops ->
  exists rs st', run_ops ops st = Some (rs, st') /\ length rs = length ops /\ holds st' (spec_ops ops rs m).
Proof.
  intros Hh Ho. revert st m Hh. induction Ho as [|o ops Ho Hos IH]; intros st m Hh; [by exists [], st|].
  destruct (op_refines st m o Hh Ho) as (r & st1 & Hr & Hh1 & _). destruct (IH st1 _ Hh1) as (rs & st' & Hrs & Hlen & Hh').
  exists (r :: rs), st'. cbn [run_ops]. rewrite (bind_ok _ _ _ _ _ Hr), (bind_ok _ _ _ _ _ Hrs). cbn. by rewrite Hlen.
Qed.

(** C6: every sequence of insertions, removals, removals by peer and clearings
    of a fresh table runs without an invalid memory access, with any
    allocation failing, and leaves a table whose content is the finite map the
    operations describe; looking up any address in it is longest-prefix match
    in that map. *)
Theorem allowedips_trace (ops : list op) (ans : list bool) : Forall op_ok ops ->
  exists rs st', run_ops ops (wg_allowedips_init ans) = Some (rs, st') /\ length rs = length ops /\
    holds st' (spec_ops ops rs (fun _ => ∅)) /\
    forall v ip alive, len ip = wbits v / 8 -> all_bytes ip ->
      allowedips_lookup [(st', alive)] v ip = spec_lookup [(spec_ops ops rs (fun _ => ∅), alive)] v ip.
Proof.
  intros Ho. destruct (ops_refine ops _ _ (init_holds ans) Ho) as (rs & st' & Hr & Hl & Hh).
  exists rs, st'. ands; try done. intros v ip alive Hip Hb. apply lookup_refines; [|done|done]. by repeat constructor.
Qed.

(** Two nested prefixes, a sibling that needs a branching node, and a removal. *)
Definition example_ops : list op :=
  [OpInsert false [10; 0; 0; 0] 8 (Some 1); OpInsert false [10; 1; 0; 0] 16 (Some 2);
   OpInsert false [11; 0; 0; 0] 8 (Some 3); OpRemove false [10; 0; 0; 0] 8 (Some 1)].

Lemma example_ops_ok : Forall op_ok example_ops.
Proof. repeat constructor; cbn; try lia; unfold is_byte; lia. Qed.

Lemma allowedips_trace_witness : Forall op_ok example_ops /\
  exists rs st', run_ops example_ops (wg_allowedips_init []) = Some (rs, st') /\ length rs = 4%nat /\
    holds st' (spec_ops example_ops rs (fun _ => ∅)) /\
    forall v ip alive, len ip = wbits v / 8 -> all_bytes ip ->
      allowedips_lookup [(st', alive)] v ip = spec_lookup [(spec_ops example_ops rs (fun _ => ∅), alive)] v ip.
Proof. split; [exact example_ops_ok|exact (allowedips_trace example_ops [] example_ops_ok)]. Defined.

(** The same run evaluated: the prefix of peer 1 is gone, that of peer 2 is not. *)
Example allowedips_run_example :
  match run_ops example_ops (wg_allowedips_init []) with
  | Some (rs, st) => (rs, allowedips_lookup [(st, fun _ => true)] false [10; 1; 2; 3], allowedips_lookup [(st, fun _ => true)] false [10; 2; 2; 3])
  | None => ([], None, None)
  end = ([0; 0; 0; 0], Some (Some 2), Some None).
Proof. vm_compute. reflexivity. Qed.

(** Every call on a table that holds a map returns, changes the map as
    specified and returns the specified value: [-EINVAL] exactly for a prefix
    length above the width of the addresses (or an insertion without a peer),
    [-ENOMEM] only after the allocator failed and then without any change, and
    [0] otherwise. *)
Theorem allowedips_op_refines st m o : holds st m -> op_ok o ->
  exists r st', run_op o st = Some (r, st') /\ holds st' (spec_op o r m) /\ spec_ret o (answers st) r.
Proof. apply op_refines. Qed.

Lemma allowedips_op_refines_witness :
  holds (wg_allowedips_init [false]) (fun _ => ∅) /\ op_ok (OpInsert true (replicate 16 0) 129 (Some 7)) /\
  exists r st', run_op (OpInsert true (replicate 16 0) 129 (Some 7)) (wg_allowedips_init [false]) = Some (r, st') /\
    holds st' (spec_op (OpInsert true (replicate 16 0) 129 (Some 7)) r (fun _ => ∅)) /\
    spec_ret (OpInsert true (replicate 16 0) 129 (Some 7)) [false] r.
Proof.
  assert (op_ok (OpInsert true (replicate 16 0) 129 (Some 7))) as Ho by (repeat constructor; cbn; lia).
  split; [apply init_holds|]. split; [exact Ho|].
  exact (allowedips_op_refines (wg_allowedips_init [false]) _ _ (init_holds [false]) Ho).
Defined.

(** The lookups of the data path return a live peer of the longest matching
    prefix of the source (destination) address, and none for a packet that is
    neither IPv4 nor IPv6; when the peer found is being destroyed, the answer is
    that of the next version of the table seen. *)
Theorem allowedips_lookup_packet views mviews skb :
  Forall2 (fun a b => holds a.1 b.1 /\ a.2 = b.2) views mviews ->
  all_bytes (saddr skb) -> all_bytes (daddr skb) ->
  len (saddr skb) = (if protocol skb =? ETH_P_IP then 4 else 16) -> len (daddr skb) = len (saddr skb) ->
  wg_allowedips_lookup_src views skb =
    (if protocol skb =? ETH_P_IP then spec_lookup mviews false (saddr skb)
     else if protocol skb =? ETH_P_IPV6 then spec_lookup mviews true (saddr skb) else Some None) /\
  wg_allowedips_lookup_dst views skb =
    (if protocol skb =? ETH_P_IP then spec_lookup mviews false (daddr skb)
     else if protocol skb =? ETH_P_IPV6 then spec_lookup mviews true (daddr skb) else Some None).
Proof.
  intros Hv Hs Hd Hls Hld. unfold wg_allowedips_lookup_src, wg_allowedips_lookup_dst, lookup_by.
  destruct (protocol skb =? ETH_P_IP); [|destruct (protocol skb =? ETH_P_IPV6); [|done]];
    rewrite Hls in Hld; split; by apply lookup_refines.
Qed.

Lemma allowedips_lookup_packet_witness :
  wg_allowedips_lookup_src [(wg_allowedips_init [], fun _ => true)] (Packet ETH_P_IP [10; 1; 2; 3] [10; 2; 2; 3]) =
    spec_lookup [(fun _ => ∅, fun _ => true)] false [10; 1; 2; 3].
Proof.
  apply (allowedips_lookup_packet [(wg_allowedips_init [], fun _ => true)] [(fun _ => ∅, fun _ => true)]
    (Packet ETH_P_IP [10; 1; 2; 3] [10; 2; 2; 3])); try reflexivity.
  - constructor; [split; [apply init_holds|reflexivity]|constructor].
  - repeat constructor; cbn; lia.
  - repeat constructor; cbn; lia.
Defined.

(** Clearing the table frees every node exactly once, empties the lists of
    all peers, and the loops' stack of 129 entries never overflows. *)
Theorem allowedips_free_all st m : holds st m ->
  exists st', wg_allowedips_free st = Some (tt, st') /\ (forall a, heap st' !! a = None) /\
    (forall p, plist st' p = []) /\ root4 st' = None /\ root6 st' = None.
Proof.
  intros Hh. destruct (free_refines st m Hh) as (st' & Hr & (tr & Hi & Ht) & Hn & Hp). exists st'.
  cbn [run_op] in Hr. unfold mbind, M_bind in Hr. destruct (wg_allowedips_free st) as [[[] st1]|] eqn:E; [|done].
  injection Hr as ->. assert (forall w, root st' w = None) as Hroot; [|ands; try done; [exact (Hroot false)|exact (Hroot true)]].
  intros w. destruct (root st' w) as [a|] eqn:Er; [|done]. pose proof (inv_rep _ _ Hi w) as Hrep.
  rewrite Er in Hrep. apply rep_root_addr in Hrep as [_ [nd Ha]]. by rewrite Hn in Ha.
Qed.

Lemma allowedips_free_all_witness : exists st', wg_allowedips_free (wg_allowedips_init []) = Some (tt, st') /\
  (forall a, heap st' !! a = None) /\ (forall p, plist st' p = []) /\ root4 st' = None /\ root6 st' = None.
Proof. exact (allowedips_free_all (wg_allowedips_init []) (fun _ => ∅) (init_holds [])). Defined.

(** *** The nodes of a peer *)

(** Address, prefix and peer of every node. *)
Fixpoint tnodes (t : trie) : list (Z * list bool * option Z) :=
  match t with
  | E => []
  | T a k c pe l r => (a, firstn c k, pe) :: tnodes l ++ tnodes r
  end.

Lemma nodes_addrs t : (fun x => x.1.1) <$> tnodes t = addrs t.
Proof. induction t as [|a k c pe l IHl r IHr]; [done|]. cbn. by rewrite fmap_app, IHl, IHr. Qed.

Lemma nodes_plug ctx a k c pe l r : (a, firstn c k, pe) ∈ tnodes (plug ctx (T a k c pe l r)).
Proof.
  assert (forall t, (a, firstn c k, pe) ∈ tnodes t -> (a, firstn c k, pe) ∈ tnodes (plug ctx t)) as H; [|apply H; left].
  induction ctx as [|f ctx IH]; intros t Ht; [done|]. cbn [plug]. apply IH. unfold fill. destruct (fr_bit f); cbn; set_solver.
Qed.

Lemma nodes_below n q t a x pe : wf n q t -> (a, x, pe) ∈ tnodes t -> q `prefix_of` x.
Proof.
  revert q. induction t as [|a' k c pe' l IHl r IHr]; intros q; cbn; [set_solver|]. intros (_ & _ & Hq & Hl & Hr & _).
  rewrite elem_of_cons, elem_of_app. intros [[= -> -> ->]|[H|H]]; [done|..]; (etrans; [exact Hq|]).
  - etrans; [|exact (IHl _ Hl H)]. by eexists.
  - etrans; [|exact (IHr _ Hr H)]. by eexists.
Qed.

Lemma snoc_not_prefix (q : list bool) b : ~ q ++ [b] `prefix_of` q.
Proof. intros H%prefix_length. rewrite length_app in H. cbn in H. lia. Qed.
Lemma snoc_differ (q x : list bool) : q ++ [false] `prefix_of` x -> q ++ [true] `prefix_of` x -> False.
Proof. rewrite !prefix_snoc. intros [_ H1] [_ H2]. congruence. Qed.

(** A prefix has one node, and the map holds its peer. *)
Lemma nodes_unique n q t a b x pe pe' : wf n q t -> (a, x, pe) ∈ tnodes t -> (b, x, pe') ∈ tnodes t -> a = b.
Proof.
  revert q. induction t as [|a' k c pe0 l IHl r IHr]; intros q; cbn; [set_solver|]. intros (_ & _ & _ & Hl & Hr & _). rewrite !elem_of_cons, !elem_of_app.
  intros [E1|[H|H]] [E2|[H'|H']]; simplify_eq; try done; eauto;
    repeat match goal with H : (_, _, _) ∈ tnodes _ |- _ => eapply nodes_below in H; [|eassumption] end;
    by (edestruct snoc_not_prefix; eassumption) || by (edestruct snoc_differ; eassumption).
Qed.

Lemma tget_nodes t x p : tget t x = Some p -> exists a, (a, x, Some p) ∈ tnodes t.
Proof.
  induction t as [|a k c pe l IHl r IHr]; cbn; [done|]. case_decide; [intros ->; subst; exists a; left|]. case_decide; [|done].
  destruct (x !! c) as [[]|]; [intros [b Hb]%IHr|intros [b Hb]%IHl|done]; exists b; set_solver.
Qed.

Lemma rep_nodes bs h s q t a x pe : rep bs h s q t -> (a, x, pe) ∈ tnodes t -> exists nd, h !! a = Some nd /\ peer nd = pe.
Proof.
  revert s q. induction t as [|a' k c pe' l IHl r IHr]; intros s q; cbn; [set_solver|]. intros (_ & nd & Ha & (Hpe & _) & _ & Hl & Hr).
  rewrite elem_of_cons, elem_of_app. intros [[= -> -> ->]|[H|H]]; eauto.
Qed.

(** What a node on the list of a peer reads as. *)
Lemma plist_node st tr p a : inv st tr -> a ∈ plist st p ->
  exists nd v ip c, heap st !! a = Some nd /\ (a, prefix_of_ip v ip c, Some p) ∈ tnodes (tr v) /\ tget (tr v) (prefix_of_ip v ip c) = Some p /\
    wg_allowedips_read_node nd = Some (if v : bool then AF_INET6 else AF_INET, ip, c) /\ len ip = wbits v / 8 /\
    concat (map byte_bits ip) = prefix_of_ip v ip c ++ replicate (nbits v - Z.to_nat c) false.
Proof.
  intros Hi Ha%(inv_list _ _ Hi). destruct (inv_node st tr a p Hi Ha) as (v & ctx & k & c & l & r & Htr).
  destruct (split_inv _ tr v ctx _ Hi Htr) as (q & _ & (_ & nd & Hnd & Hok & _)).
  pose proof (inv_wf _ _ Hi v) as Hw. rewrite Htr in Hw. apply wf_plug in Hw as (Hwc & Hw & _). pose proof Hw as (Hk & Hc & Hp & _).
  destruct (read_node_ok (wbits v) nd k c _ (wbits_ok v) Hok) as (ip & Hr & Hl & Hbits); [unfold nbits in Hc; destruct v; cbn in *; lia|].
  assert (prefix_of_ip v ip (Z.of_nat c) = firstn c k) as Hpre.
  { unfold prefix_of_ip. rewrite Nat2Z.id. unfold len in Hl. rewrite (firstn_all2 ip) by lia. rewrite Hbits.
    rewrite take_app_le, firstn_firstn, Nat.min_id by (rewrite (firstn_len (nbits v)); lia). done. }
  exists nd, v, ip, (Z.of_nat c). rewrite Hpre. ands; try done.
  - rewrite Htr. apply nodes_plug.
  - rewrite Htr, (tget_plug_in (nbits v)) by done. cbn. by rewrite decide_True.
  - rewrite Hr. by destruct v.
  - by rewrite Nat2Z.id.
Qed.

(** Reading a node that is on a peer's list gives an address and a length
    that name a prefix of that peer in the table, in the family of the node,
    and the bits of the address beyond the length are zero. *)
Theorem allowedips_read_node_prefix st m p a : holds st m -> a ∈ plist st p ->
  exists nd v ip c, heap st !! a = Some nd /\
    wg_allowedips_read_node nd = Some (if v : bool then AF_INET6 else AF_INET, ip, c) /\
    m v !! prefix_of_ip v ip c = Some p /\ len ip = wbits v / 8 /\
    concat (map byte_bits ip) = prefix_of_ip v ip c ++ replicate (nbits v - Z.to_nat c) false.
Proof.
  intros (tr & Hi & Hm) Ha. destruct (plist_node st tr p a Hi Ha) as (nd & v & ip & c & Hnd & _ & Hg & Hr & Hl & Hb).
  exists nd, v, ip, c. rewrite Hm. done.
Qed.

(** The list of a peer reads as the prefixes of the peer, each once. *)
Definition node_prefix (st : table) (a : Z) : option (bool * list bool) :=
  nd ← heap st !! a;
  '(fam, ip, c) ← wg_allowedips_read_node nd;
  Some (fam =? AF_INET6, prefix_of_ip (fam =? AF_INET6) ip c).

Lemma node_prefix_ok st tr p a : inv st tr -> a ∈ plist st p -> exists v x, node_prefix st a = Some (v, x) /\ (a, x, Some p) ∈ tnodes (tr v) /\ tget (tr v) x = Some p.
Proof.
  intros Hi Ha. destruct (plist_node st tr p a Hi Ha) as (nd & v & ip & c & Hnd & Hn & Hg & Hr & _). exists v, (prefix_of_ip v ip c). split; [|done].
  unfold node_prefix. rewrite Hnd. cbn. rewrite Hr. by destruct v.
Qed.

Lemma plist_prefixes st m p : holds st m ->
  NoDup (node_prefix st <$> plist st p) /\ forall v x, Some (v, x) ∈ (node_prefix st <$> plist st p) <-> m v !! x = Some p.
Proof.
  intros (tr & Hi & Hm). split.
  - assert (forall l, NoDup l -> (forall a, a ∈ l -> a ∈ plist st p) -> NoDup (node_prefix st <$> l)) as H; [|by apply H; [apply (inv_list_nodup _ _ Hi)|]].
    induction l as [|a l IH]; [constructor|]. intros [Ha Hl]%NoDup_cons Hin. cbn. apply NoDup_cons. split; [|apply IH; [done|set_solver]].
    intros (b & Hb & Hbl)%list_elem_of_fmap. destruct (node_prefix_ok st tr p a Hi) as (v & x & Ea & Na & _); [set_solver|].
    destruct (node_prefix_ok st tr p b Hi) as (v' & x' & Eb & Nb & _); [set_solver|]. rewrite Ea, Eb in Hb. injection Hb as <- <-.
    apply Ha. by rewrite (nodes_unique _ _ _ _ _ _ _ _ (inv_wf _ _ Hi v) Na Nb).
  - intros v x. rewrite Hm, list_elem_of_fmap. split.
    + intros (a & Ea & Ha). destruct (node_prefix_ok st tr p a Hi Ha) as (v' & x' & Ea' & _ & Hg). congruence.
    + intros [a Ha]%tget_nodes. destruct (rep_nodes _ _ _ _ _ _ _ _ (inv_rep _ _ Hi v) Ha) as (nd & Hnd & Hpe).
      assert (a ∈ plist st p) as Hin by (apply (inv_list _ _ Hi); unfold hp; rewrite Hnd; cbn; by rewrite Hpe).
      exists a. split; [|done]. destruct (node_prefix_ok st tr p a Hi Hin) as (v' & x' & -> & Ha' & _).
      assert (forall y w, (a, y, Some p) ∈ tnodes (tr w) -> a ∈ addrs (tr w)) as Hadd by (intros y w Hy; rewrite <- nodes_addrs; apply list_elem_of_fmap; by exists (a, y, Some p)).
      assert (v' = v) as ->. { pose proof (Hadd _ _ Ha) as H1. pose proof (Hadd _ _ Ha') as H2. destruct (decide (v' = v)); [done|]. destruct (inv_disj _ _ Hi v a H1). destruct v, v'; done. }
      do 2 f_equal. pose proof (inv_nodup _ _ Hi v) as Hnd'. rewrite <- nodes_addrs in Hnd'.
      apply list_elem_of_lookup in Ha as [i Hi1], Ha' as [j Hj]. assert (i = j) as ->.
      { eapply (NoDup_lookup _ i j a Hnd'); by rewrite list_lookup_fmap, ?Hi1, ?Hj. } congruence.
Qed.

Lemma allowedips_read_node_prefix_witness :
  exists st a nd v ip c, 0 ∈ plist st 1 /\ heap st !! a = Some nd /\
    wg_allowedips_read_node nd = Some (if v : bool then AF_INET6 else AF_INET, ip, c) /\ len ip = wbits v / 8.
Proof.
  destruct (insert_refines (wg_allowedips_init []) _ false [10; 0; 0; 0] 8 (Some 1) (init_holds [])
    ltac:(repeat constructor; cbn; lia)) as (r & st & Hr & Hh & _).
  assert (0 ∈ plist st 1) as Hin.
  { vm_compute in Hr. injection Hr as _ <-. apply list_elem_of_singleton. reflexivity. }
  destruct (allowedips_read_node_prefix st _ 1 0 Hh Hin) as (nd & v & ip & c & H1 & H2 & _ & H3 & _).
  exists st, 0, nd, v, ip, c. auto.
Defined.
