(* ===== verification/Ratelimiter.v ===== *)
(** * Handshake rate limiter ([src/ratelimiter.c])

    A token bucket per source (an IPv4 address or an IPv6 /64, in a network
    namespace), kept in two hash tables.  The clock, the allocator's answers and
    the keyed hash are inputs; unlinked entries stay counted in
    [total_entries] until their RCU callback has run ([pending]).  The theorems
    relate the tables to ideal token buckets, one per source: garbage
    collection is invisible, and a source gets at most the burst plus one
    packet per [PACKET_COST] nanoseconds. *)

From S2P Require Import Prelude Words IpBits AllowedIps.
From stdpp Require Import list.
#[local] Open Scope Z_scope.

Definition PACKETS_PER_SECOND : Z := 20.
Definition PACKETS_BURSTABLE : Z := 5.
Definition PACKET_COST : Z := NSEC_PER_SEC / PACKETS_PER_SECOND.
Definition TOKEN_MAX : Z := PACKET_COST * PACKETS_BURSTABLE.

Record ratelimiter_entry := Entry { last_time_ns : Z; tokens : Z; e_ip : Z; e_net : Z }.

(** The module's variables; the tables are [NULL] until the first [init]. *)
Record ratelimiter := Ratelimiter {
  init_refcnt : Z;
  total_entries : Z;
  pending : Z;
  max_entries : Z;
  table_size : Z;
  table_v4 : list (list ratelimiter_entry);
  table_v6 : list (list ratelimiter_entry)
}.

Definition set_table (v6 : bool) (t : list (list ratelimiter_entry)) (rl : ratelimiter) : ratelimiter :=
  Ratelimiter (init_refcnt rl) (total_entries rl) (pending rl) (max_entries rl) (table_size rl)
    (if v6 then table_v4 rl else t) (if v6 then t else table_v6 rl).
Definition add_entries (n : Z) (rl : ratelimiter) : ratelimiter :=
  Ratelimiter (init_refcnt rl) (total_entries rl + n) (pending rl) (max_entries rl) (table_size rl) (table_v4 rl) (table_v6 rl).
Definition table_of (rl : ratelimiter) (v6 : bool) : list (list ratelimiter_entry) := if v6 then table_v6 rl else table_v4 rl.

(** ** Garbage collection *)

(** [entry_free], the RCU callback of one unlinked entry. *)
Definition entry_free (rl : ratelimiter) : ratelimiter :=
  Ratelimiter (init_refcnt rl) (total_entries rl - 1) (pending rl - 1) (max_entries rl) (table_size rl) (table_v4 rl) (table_v6 rl).

(** The entries of a bucket that stay; [work] is false in the final call. *)
Definition gc_keep (work : bool) (now : Z) (e : ratelimiter_entry) : bool :=
  negb (negb work || (NSEC_PER_SEC <? u64 (now - last_time_ns e))).
Definition gc_bucket (work : bool) (now : Z) (b : list ratelimiter_entry) : list ratelimiter_entry :=
  filter (fun e => gc_keep work now e = true) b.

Definition entries (t : list (list ratelimiter_entry)) : Z := len (concat t).

Definition wg_ratelimiter_gc_entries (work : bool) (now : Z) (rl : ratelimiter) : ratelimiter :=
  let v4 := map (gc_bucket work now) (table_v4 rl) in
  let v6 := map (gc_bucket work now) (table_v6 rl) in
  Ratelimiter (init_refcnt rl) (total_entries rl)
    (pending rl + (entries (table_v4 rl) - entries v4) + (entries (table_v6 rl) - entries v6))
    (max_entries rl) (table_size rl) v4 v6.

(** ** Admission *)

Section Hash.

(** [hsiphash_2u32] and [hsiphash_3u32] under the module's key. *)
Context (hsiphash_2u32 : Z -> Z -> Z) (hsiphash_3u32 : Z -> Z -> Z -> Z).

(** The source of a packet: family, the [u64 ip] and the namespace. *)
Record source := Source { s_v6 : bool; s_ip : Z; s_net : Z }.

#[global] Instance source_eq_dec : EqDecision source.
Proof. solve_decision. Defined.

Definition source_of (skb : packet) (net : Z) : option source :=
  if protocol skb =? ETH_P_IP then Some (Source false (le_word (firstn 4 (saddr skb))) net)
  else if protocol skb =? ETH_P_IPV6 then Some (Source true (le_word (firstn 8 (saddr skb))) net)
  else None.

(** The index of the bucket. *)
Definition bucket_of (s : source) (size : Z) : Z :=
  let net_word := u32 (s_net s) in
  let h := if s_v6 s then hsiphash_3u32 net_word (u32 (Z.shiftr (s_ip s) 32)) (u32 (s_ip s))
           else hsiphash_2u32 net_word (u32 (s_ip s)) in
  Z.land h (size - 1).

Definition entry_is (s : source) (e : ratelimiter_entry) : bool := (e_net e =? s_net s) && (e_ip e =? s_ip s).

(** The locked section: the new entry and the verdict. *)
Definition take_token (now : Z) (e : ratelimiter_entry) : ratelimiter_entry * bool :=
  let t := Z.min TOKEN_MAX (u64 (tokens e + now - last_time_ns e)) in
  let ret := PACKET_COST <=? t in
  (Entry now (if ret then t - PACKET_COST else t) (e_ip e) (e_net e), ret).

(** The walk along a bucket: the bucket after it and the verdict, if found. *)
Fixpoint search (s : source) (now : Z) (b : list ratelimiter_entry) : option (list ratelimiter_entry * bool) :=
  match b with
  | [] => None
  | e :: b' =>
      if entry_is s e then let '(e', ret) := take_token now e in Some (e' :: b', ret)
      else match search s now b' with
           | Some (b'', ret) => Some (e :: b'', ret)
           | None => None
           end
  end.

(** [wg_ratelimiter_allow]; [None] is an access outside the table. *)
Definition allow_source (s : source) (now : Z) (alloc : bool) (rl : ratelimiter) : option (bool * ratelimiter) :=
  let i := Z.to_nat (bucket_of s (table_size rl)) in
  let t := table_of rl (s_v6 s) in
  match t !! i with
  | None => None
  | Some b =>
      match search s now b with
      | Some (b', ret) => Some (ret, set_table (s_v6 s) (<[i := b']> t) rl)
      | None =>
          let rl1 := add_entries 1 rl in
          if max_entries rl1 <? total_entries rl1 then Some (false, add_entries (-1) rl1)
          else if alloc then
            let e := Entry now (TOKEN_MAX - PACKET_COST) (s_ip s) (s_net s) in
            Some (true, set_table (s_v6 s) (<[i := e :: b]> t) rl1)
          else Some (false, add_entries (-1) rl1)
      end
  end.

Definition wg_ratelimiter_allow (skb : packet) (net now : Z) (alloc : bool) (rl : ratelimiter) : option (bool * ratelimiter) :=
  match source_of skb net with
  | None => Some (false, rl)
  | Some s => allow_source s now alloc rl
  end.

End Hash.

(** ** Set-up and tear-down *)

(** [roundup_pow_of_two] *)
Definition roundup_pow_of_two (n : Z) : Z := 2 ^ Z.log2_up n.

Definition PAGE_SHIFT : Z := 12.
Definition PAGE_SIZE : Z := 2 ^ PAGE_SHIFT.

(** The size of the tables on a machine with [pages] pages of memory;
    [sizeof(struct hlist_head)] is 8. *)
Definition table_size_for (pages : Z) : Z :=
  if 2 ^ 30 / PAGE_SIZE <? pages then 8192
  else Z.max 16 (roundup_pow_of_two (Z.shiftl pages PAGE_SHIFT / 2 ^ 14 / 8)).

(** [wg_ratelimiter_init]: the three allocations may fail. *)
Definition wg_ratelimiter_init (pages : Z) (cache v4 v6 : bool) (rl : ratelimiter) : Z * ratelimiter :=
  let n := init_refcnt rl + 1 in
  if negb (n =? 1) then
    (0, Ratelimiter n (total_entries rl) (pending rl) (max_entries rl) (table_size rl) (table_v4 rl) (table_v6 rl))
  else if negb cache then (- ENOMEM, rl)
  else
    let size := table_size_for pages in
    let fail := (- ENOMEM, Ratelimiter (init_refcnt rl) (total_entries rl) (pending rl) (size * 8) size (table_v4 rl) (table_v6 rl)) in
    if negb v4 then fail
    else if negb v6 then fail
    else (0, Ratelimiter n (total_entries rl) (pending rl) (size * 8) size
            (replicate (Z.to_nat size) []) (replicate (Z.to_nat size) [])).

(** All callbacks that are still pending, [rcu_barrier]. *)
Definition rcu_barrier (rl : ratelimiter) : ratelimiter := Nat.iter (Z.to_nat (pending rl)) entry_free rl.

Definition wg_ratelimiter_uninit (now : Z) (rl : ratelimiter) : ratelimiter :=
  if init_refcnt rl =? 0 then rl
  else
    let n := init_refcnt rl - 1 in
    let rl := Ratelimiter n (total_entries rl) (pending rl) (max_entries rl) (table_size rl) (table_v4 rl) (table_v6 rl) in
    if negb (n =? 0) then rl
    else
      let rl := rcu_barrier (wg_ratelimiter_gc_entries false now rl) in
      Ratelimiter (init_refcnt rl) (total_entries rl) (pending rl) (max_entries rl) (table_size rl) [] [].

(** * Ideal token buckets *)

(** What a source could spend at time [t]: a bucket that was never used is full. *)
Definition level_of (o : option ratelimiter_entry) (t : Z) : Z :=
  match o with
  | Some e => Z.min TOKEN_MAX (tokens e + t - last_time_ns e)
  | None => TOKEN_MAX
  end.

Section Buckets.

Context (hsiphash_2u32 : Z -> Z -> Z) (hsiphash_3u32 : Z -> Z -> Z -> Z).
Abbreviation index rl s := (Z.to_nat (bucket_of hsiphash_2u32 hsiphash_3u32 s (table_size rl))).
Abbreviation allow := (allow_source hsiphash_2u32 hsiphash_3u32).

Definition entry_of (rl : ratelimiter) (s : source) : option ratelimiter_entry :=
  match table_of rl (s_v6 s) !! index rl s with
  | Some b => find (entry_is s) b
  | None => None
  end.

Definition level (rl : ratelimiter) (s : source) (t : Z) : Z := level_of (entry_of rl s) t.

Definition e_key (e : ratelimiter_entry) : Z * Z := (e_ip e, e_net e).

(** An entry at time [now]; a bucket has one entry per source. *)
Definition entry_ok (now : Z) (e : ratelimiter_entry) : Prop :=
  0 <= tokens e <= TOKEN_MAX /\ 0 <= last_time_ns e <= now.
Definition bucket_ok (now : Z) (b : list ratelimiter_entry) : Prop :=
  Forall (entry_ok now) b /\ NoDup (map e_key b).

(** The invariant of an initialised rate limiter. *)
Record rl_ok (now : Z) (rl : ratelimiter) : Prop := {
  rl_size : exists k, 0 <= k /\ table_size rl = 2 ^ k;
  rl_len : forall v, len (table_of rl v) = table_size rl;
  rl_buckets : forall v, Forall (bucket_ok now) (table_of rl v);
  rl_total : total_entries rl = entries (table_v4 rl) + entries (table_v6 rl) + pending rl;
  rl_pending : 0 <= pending rl;
  rl_max : total_entries rl <= max_entries rl
}.

Lemma e_key_is s e : entry_is s e = true <-> e_key e = (s_ip s, s_net s).
Proof. unfold entry_is, e_key. rewrite andb_true_iff, !Z.eqb_eq. split; [by intros [-> ->]|by intros [= -> ->]]. Qed.

Lemma find_key s b e : NoDup (map e_key b) -> find (entry_is s) b = Some e <-> e ∈ b /\ entry_is s e = true.
Proof.
  intros Hn. split.
  - intros [Hin Hs]%find_some. split; [by apply list_elem_of_In|done].
  - intros [Hin Hs]. induction b as [|x b IH]; [inversion Hin|]. cbn in *. apply NoDup_cons in Hn as [Hx Hn].
    destruct (entry_is s x) eqn:Ex.
    + apply elem_of_cons in Hin as [->|Hin]; [done|]. destruct Hx. apply e_key_is in Ex, Hs. rewrite Ex, <- Hs.
      by apply list_elem_of_fmap_2.
    + apply elem_of_cons in Hin as [->|Hin]; [congruence|]. auto.
Qed.

Lemma find_none s b : find (entry_is s) b = None <-> Forall (fun e => entry_is s e = false) b.
Proof.
  induction b as [|x b IH]; cbn; [done|]. rewrite Forall_cons. destruct (entry_is s x); [split; [done|by intros [? _]]|]. rewrite IH. tauto.
Qed.

(** The walk finds the entry, or there is none. *)
Lemma search_spec s now b :
  match search s now b with
  | None => find (entry_is s) b = None
  | Some (b', ret) => exists b1 e b2, b = b1 ++ e :: b2 /\ b' = b1 ++ (take_token now e).1 :: b2 /\
      ret = (take_token now e).2 /\ find (entry_is s) b = Some e /\ entry_is s e = true
  end.
Proof.
  induction b as [|x b IH]; cbn; [done|]. destruct (entry_is s x) eqn:Ex.
  - by exists [], x, b.
  - destruct (search s now b) as [[b' ret]|]; [|done]. destruct IH as (b1 & e & b2 & -> & -> & -> & Hf & He).
    by exists (x :: b1), e, b2.
Qed.

Lemma take_token_key now e : e_key (take_token now e).1 = e_key e.
Proof. done. Qed.

Lemma entry_is_key s e e' : e_key e' = e_key e -> entry_is s e' = entry_is s e.
Proof. unfold e_key, entry_is. by intros [= -> ->]. Qed.

Lemma find_app s b1 b2 : find (entry_is s) (b1 ++ b2) =
  match find (entry_is s) b1 with Some e => Some e | None => find (entry_is s) b2 end.
Proof. induction b1 as [|x b1 IH]; cbn; [done|]. by destruct (entry_is s x). Qed.

Lemma find_replace s b1 e e' b2 : e_key e' = e_key e -> NoDup (map e_key (b1 ++ e :: b2)) ->
  find (entry_is s) (b1 ++ e' :: b2) = if entry_is s e then Some e' else find (entry_is s) (b1 ++ e :: b2).
Proof.
  intros Hk Hn. rewrite !find_app. cbn [find]. rewrite (entry_is_key s _ _ Hk). destruct (entry_is s e) eqn:Es.
  - assert (find (entry_is s) b1 = None) as ->; [|done]. apply find_none, Forall_forall. intros x Hx.
    destruct (entry_is s x) eqn:Ex; [|done]. rewrite map_app in Hn. apply NoDup_app in Hn as (_ & Hn & _).
    destruct (Hn (e_key x)); [by apply list_elem_of_fmap_2|]. apply e_key_is in Ex, Es. rewrite Ex, <- Es. cbn. apply elem_of_cons. auto.
  - done.
Qed.

(** ** One call *)

Lemma entries_insert t i b b' : t !! i = Some b -> entries (<[i := b']> t) = entries t - len b + len b'.
Proof.
  intros Hi. unfold entries, len. rewrite <- (take_drop_middle t i b Hi) at 2.
  rewrite (insert_take_drop t i b') by (by eapply lookup_lt_Some).
  rewrite !concat_app. cbn [concat]. rewrite !length_app. lia.
Qed.

Lemma table_of_set v w t rl : table_of (set_table v t rl) w = if Bool.eqb w v then t else table_of rl w.
Proof. by destruct v, w. Qed.

Lemma entry_of_set rl v i b b' n s : table_of rl v !! i = Some b ->
  entry_of (set_table v (<[i := b']> (table_of rl v)) (add_entries n rl)) s =
    if Bool.eqb (s_v6 s) v && bool_decide (index rl s = i) then find (entry_is s) b' else entry_of rl s.
Proof.
  intros Hb. unfold entry_of. rewrite table_of_set.
  change (table_size (set_table _ _ _)) with (table_size rl). destruct (Bool.eqb (s_v6 s) v) eqn:Ev; cbn [andb]; [|by destruct (s_v6 s)].
  apply eqb_prop in Ev as ->. case_bool_decide as D.
  - rewrite D, list_lookup_insert_eq; [done|]. by eapply lookup_lt_Some.
  - by rewrite list_lookup_insert_ne by congruence.
Qed.

(** Replacing a bucket keeps the invariant. *)
Lemma rl_ok_set rl now v i b b' : rl_ok now rl -> table_of rl v !! i = Some b -> bucket_ok now b' ->
  total_entries rl + (len b' - len b) <= max_entries rl ->
  rl_ok now (set_table v (<[i := b']> (table_of rl v)) (add_entries (len b' - len b) rl)).
Proof.
  intros Hok Hi Hb Hmax. pose proof (entries_insert _ _ _ b' Hi) as He. split; try apply Hok.
  - intros w. rewrite table_of_set. change (table_size _) with (table_size rl). destruct (Bool.eqb w v) eqn:Ew.
    + unfold len. rewrite length_insert. apply Hok.
    + destruct w; [exact (rl_len _ _ Hok true)|exact (rl_len _ _ Hok false)].
  - intros w. rewrite table_of_set. destruct (Bool.eqb w v) eqn:Ew; [apply Forall_insert; [apply Hok|done]|].
    destruct w; [exact (rl_buckets _ _ Hok true)|exact (rl_buckets _ _ Hok false)].
  - pose proof (rl_total _ _ Hok) as Ht. destruct v; cbn in *; lia.
  - done.
Qed.

Lemma rl_ok_mono now now' rl : now <= now' -> rl_ok now rl -> rl_ok now' rl.
Proof.
  intros Hn Hok. split; try apply Hok. intros v. eapply Forall_impl; [apply (rl_buckets _ _ Hok v)|].
  intros b [Hb Hd]. split; [|done]. eapply Forall_impl; [exact Hb|]. intros e [? ?]. split; lia.
Qed.

Lemma bucket_in rl now s : rl_ok now rl -> exists b, table_of rl (s_v6 s) !! index rl s = Some b /\ bucket_ok now b.
Proof.
  intros Hok. destruct (rl_size _ _ Hok) as (k & Hk & Hs).
  assert (0 <= bucket_of hsiphash_2u32 hsiphash_3u32 s (table_size rl) < table_size rl) as Hr.
  { unfold bucket_of. rewrite Hs. replace (2 ^ k - 1) with (Z.ones k) by (rewrite Z.ones_equiv; lia). by apply mask_range. }
  destruct (lookup_lt_is_Some_2 (table_of rl (s_v6 s)) (index rl s)) as [b Hb].
  { pose proof (rl_len _ _ Hok (s_v6 s)) as Hl. unfold len in Hl. lia. }
  exists b. split; [done|]. eapply Forall_lookup_1; [apply (rl_buckets _ _ Hok)|done].
Qed.

Lemma take_token_ok now e : entry_ok now e -> 0 <= now < 2 ^ 63 ->
  entry_ok now (take_token now e).1 /\ (take_token now e).2 = (PACKET_COST <=? level_of (Some e) now) /\
  forall t, now <= t -> level_of (Some (take_token now e).1) t =
    Z.min TOKEN_MAX (level_of (Some e) now - (if (take_token now e).2 then PACKET_COST else 0) + t - now).
Proof.
  intros [Ht Hl] Hn. unfold take_token, level_of, entry_ok. cbn [tokens last_time_ns fst snd].
  assert (u64 (tokens e + now - last_time_ns e) = tokens e + now - last_time_ns e) as ->
    by (unfold u64; change TOKEN_MAX with 250000000 in *; rewrite Z.mod_small; lia).
  change TOKEN_MAX with 250000000 in *. change PACKET_COST with 50000000 in *.
  destruct (Z.leb_spec 50000000 (Z.min 250000000 (tokens e + now - last_time_ns e))); ands; try done; intros; lia.
Qed.

Lemma add_entries_0 rl : add_entries 0 rl = rl.
Proof. destruct rl. unfold add_entries. cbn. by rewrite Z.add_0_r. Qed.

Lemma add_entries_undo rl : add_entries (-1) (add_entries 1 rl) = rl.
Proof. destruct rl. unfold add_entries. cbn. f_equal. lia. Qed.

(** The state after bucket [b] of source [s] was replaced by [b']. *)
Lemma set_level rl now s b b' : table_of rl (s_v6 s) !! index rl s = Some b ->
  (forall s', s' <> s -> s_v6 s' = s_v6 s -> find (entry_is s') b' = find (entry_is s') b) ->
  forall s' t, level (set_table (s_v6 s) (<[index rl s := b']> (table_of rl (s_v6 s))) (add_entries now rl)) s' t =
    if bool_decide (s' = s) then level_of (find (entry_is s) b') t else level rl s' t.
Proof.
  intros Hb Hoth s' t. unfold level. rewrite (entry_of_set _ _ _ b) by done. destruct (decide (s' = s)) as [->|D].
  - by rewrite eqb_reflx, !bool_decide_true by done.
  - rewrite (bool_decide_false (s' = s)) by done. destruct (Bool.eqb (s_v6 s') (s_v6 s)) eqn:Ev; cbn [andb]; [|done]. apply eqb_prop in Ev.
    case_bool_decide as Di; [|done]. rewrite Hoth by done. unfold entry_of. by rewrite Ev, Di, Hb.
Qed.

Lemma source_ne s s' e : s' <> s -> s_v6 s' = s_v6 s -> entry_is s e = true -> entry_is s' e = false.
Proof.
  intros Hne Hv He. destruct (entry_is s' e) eqn:E'; [|done]. apply e_key_is in He, E'. rewrite He in E'. injection E' as H1 H2.
  destruct s, s'. cbn in *. by subst.
Qed.

Lemma bucket_replace now b1 e e' b2 : e_key e' = e_key e -> entry_ok now e' -> bucket_ok now (b1 ++ e :: b2) -> bucket_ok now (b1 ++ e' :: b2).
Proof.
  intros Hk He [Hb Hn]. split.
  - apply Forall_app in Hb as [H1 [_ H2]%Forall_cons]. apply Forall_app. split; [done|]. by apply Forall_cons.
  - rewrite map_app in *. cbn in *. by rewrite Hk.
Qed.

(** The effect of a call on all buckets: the source pays for an admitted
    packet, nothing else changes, and a refusal is for an empty bucket or for
    lack of memory when the source has no entry. *)
Definition call_effect (rl : ratelimiter) (s : source) (now : Z) (alloc ret : bool) (rl' : ratelimiter) : Prop :=
  (forall s' t, now <= t -> level rl' s' t =
     if bool_decide (s' = s) && ret then Z.min TOKEN_MAX (level rl s now - PACKET_COST + t - now) else level rl s' t) /\
  (if ret then PACKET_COST <= level rl s now
   else level rl s now < PACKET_COST \/ (entry_of rl s = None /\ (alloc = false \/ max_entries rl <= total_entries rl))).

Lemma allow_found rl now s alloc b1 e b2 : rl_ok now rl -> 0 <= now < 2 ^ 63 ->
  table_of rl (s_v6 s) !! index rl s = Some (b1 ++ e :: b2) -> bucket_ok now (b1 ++ e :: b2) -> entry_is s e = true ->
  find (entry_is s) (b1 ++ e :: b2) = Some e ->
  let rl' := set_table (s_v6 s) (<[index rl s := b1 ++ (take_token now e).1 :: b2]> (table_of rl (s_v6 s))) rl in
  rl_ok now rl' /\ call_effect rl s now alloc (take_token now e).2 rl'.
Proof.
  intros Hok Hn Hb Hbok He Hf. pose proof Hbok as [[_ [Heok _]%Forall_cons]%Forall_app Hbn].
  destruct (take_token_ok now e Heok Hn) as (Heok' & Hret & Hlev). set (e' := (take_token now e).1) in *.
  assert (e_key e' = e_key e) as Hk by done. assert (level rl s now = level_of (Some e) now) as HL.
  { unfold level, entry_of. by rewrite Hb, Hf. }
  assert (len (b1 ++ e' :: b2) - len (b1 ++ e :: b2) = 0) as Hlen by (rewrite !len_app, !len_cons; lia).
  pose proof (rl_ok_set rl now _ _ _ (b1 ++ e' :: b2) Hok Hb (bucket_replace _ _ _ _ _ Hk Heok' Hbok)) as Hok'.
  pose proof (set_level rl 0 s _ (b1 ++ e' :: b2) Hb) as Hset. rewrite Hlen, add_entries_0 in Hok'. rewrite add_entries_0 in Hset.
  split; [apply Hok'; pose proof (rl_max _ _ Hok); lia|]. split.
  - intros s' t Ht. rewrite Hset.
    2:{ intros s2 H1 H2. rewrite (find_replace _ _ e) by done. by rewrite (source_ne s). }
    rewrite (find_replace _ _ e), He, Hlev by done. case_bool_decide as D; cbn [andb]; [|done]. subst s'.
    rewrite HL. destruct (take_token now e).2; [done|]. unfold level, entry_of. rewrite Hb, Hf. cbn. lia.
  - rewrite HL. rewrite Hret. destruct (Z.leb_spec PACKET_COST (level_of (Some e) now)); [done|]. left. lia.
Qed.

Lemma allow_create rl now s b : rl_ok now rl -> 0 <= now < 2 ^ 63 -> total_entries rl < max_entries rl ->
  table_of rl (s_v6 s) !! index rl s = Some b -> bucket_ok now b -> find (entry_is s) b = None ->
  let e := Entry now (TOKEN_MAX - PACKET_COST) (s_ip s) (s_net s) in
  let rl' := set_table (s_v6 s) (<[index rl s := e :: b]> (table_of rl (s_v6 s))) (add_entries 1 rl) in
  rl_ok now rl' /\ call_effect rl s now true true rl'.
Proof.
  intros Hok Hn Hmax Hb [Hbok Hbn] Hf e rl'. assert (entry_is s e = true) as He by (by apply e_key_is).
  assert (bucket_ok now (e :: b)) as Hbok'.
  { split.
    - apply Forall_cons. split; [|done]. unfold entry_ok, e. cbn. change TOKEN_MAX with 250000000. change PACKET_COST with 50000000. lia.
    - cbn. apply NoDup_cons. split; [|done]. intros (x & Hx & Hin)%list_elem_of_fmap. apply find_none in Hf.
      rewrite Forall_forall in Hf. specialize (Hf x Hin). rewrite (entry_is_key s e x) in Hf by done. congruence. }
  assert (len (e :: b) - len b = 1) as Hlen by (rewrite len_cons; lia).
  pose proof (rl_ok_set rl now _ _ _ (e :: b) Hok Hb Hbok') as Hok'. rewrite Hlen in Hok'.
  assert (level rl s now = TOKEN_MAX) as HL by (unfold level, entry_of; by rewrite Hb, Hf).
  split; [apply Hok'; lia|]. split; [|rewrite HL; change TOKEN_MAX with 250000000; change PACKET_COST with 50000000; lia].
  intros s' t Ht. unfold rl'. rewrite (set_level rl 1 s _ (e :: b) Hb).
  - cbn [find]. rewrite He, HL. case_bool_decide; [|done]. cbn. done.
  - intros s2 H1 H2. cbn [find]. by rewrite (source_ne s) by done.
Qed.

Lemma allow_step rl now0 now s alloc : rl_ok now0 rl -> now0 <= now -> 0 <= now < 2 ^ 63 ->
  exists ret rl', allow s now alloc rl = Some (ret, rl') /\ rl_ok now rl' /\ call_effect rl s now alloc ret rl'.
Proof.
  intros Hok0 Hle Hn. apply (rl_ok_mono _ now) in Hok0 as Hok; [|done]. destruct (bucket_in rl now s Hok) as (b & Hb & Hbok).
  unfold allow_source. rewrite Hb. pose proof (search_spec s now b) as Hs. destruct (search s now b) as [[b' ret]|].
  - destruct Hs as (b1 & e & b2 & -> & -> & -> & Hf & He).
    destruct (allow_found rl now s alloc b1 e b2 Hok Hn Hb Hbok He Hf) as [H1 H2]. eauto.
  - assert (entry_of rl s = None) as Hent by (unfold entry_of; by rewrite Hb).
    assert (alloc = false \/ max_entries rl <= total_entries rl -> call_effect rl s now alloc false rl) as Hno.
    { intros Hm. split; [|auto]. intros s' t Ht. by rewrite andb_false_r. }
    cbn [max_entries total_entries add_entries]. rewrite !add_entries_undo.
    destruct (Z.ltb_spec (max_entries rl) (total_entries rl + 1)) as [Hm|Hm].
    + exists false, rl. ands; try done. apply Hno. lia.
    + destruct alloc; [|exists false, rl; ands; try done; apply Hno; auto].
      destruct (allow_create rl now s b Hok Hn ltac:(lia) Hb Hbok Hs) as [H1 H2]. eauto.
Qed.

(** ** Garbage collection is invisible *)

Lemma Forall_gc (P : ratelimiter_entry -> Prop) work now b : Forall P b -> Forall P (gc_bucket work now b).
Proof. rewrite !Forall_forall. intros H e [_ He]%list_elem_of_filter. auto. Qed.

Lemma gc_bucket_ok work now b : bucket_ok now b -> bucket_ok now (gc_bucket work now b).
Proof.
  intros [Hb Hn]. split; [by apply Forall_gc|]. revert Hn. clear Hb. unfold gc_bucket. induction b as [|e b IH]; [done|].
  cbn [map]. intros [He Hn]%NoDup_cons. rewrite filter_cons. case_decide; [|auto]. cbn [map]. apply NoDup_cons. split; [|auto].
  intros (x & Hx & Hin)%list_elem_of_fmap. apply list_elem_of_filter in Hin as [_ Hin]. destruct He. rewrite Hx. by apply list_elem_of_fmap_2.
Qed.

Lemma gc_entries_le work now t : entries (map (gc_bucket work now) t) <= entries t.
Proof.
  unfold entries, len. induction t as [|b t IH]; [done|]. cbn [map concat]. rewrite !length_app.
  unfold gc_bucket at 1. pose proof (length_filter (fun e => gc_keep work now e = true) b). lia.
Qed.

Lemma gc_find now b s t : bucket_ok now b -> 0 <= now < 2 ^ 63 -> now <= t ->
  level_of (find (entry_is s) (gc_bucket true now b)) t = level_of (find (entry_is s) b) t.
Proof.
  intros Hok Hn Ht. pose proof Hok as [Hb Hnd]. pose proof (gc_bucket_ok true now b Hok) as [_ Hnd'].
  destruct (find (entry_is s) b) as [e|] eqn:Ef.
  - apply find_key in Ef as [Hin Hs]; [|done]. pose proof (proj1 (Forall_forall _ _) Hb e Hin) as [Htk Hl].
    destruct (gc_keep true now e) eqn:Ek.
    + assert (find (entry_is s) (gc_bucket true now b) = Some e) as ->; [|done].
      apply find_key; [done|]. split; [|done]. by apply list_elem_of_filter.
    + assert (find (entry_is s) (gc_bucket true now b) = None) as ->.
      { apply find_none, Forall_forall. intros x [Hkx Hx]%list_elem_of_filter. destruct (entry_is s x) eqn:Ex; [|done].
        assert (find (entry_is s) b = Some x) as E1 by (by apply find_key).
        assert (find (entry_is s) b = Some e) as E2 by (by apply find_key). congruence. }
      unfold gc_keep in Ek. cbn [negb orb] in Ek. apply negb_false_iff, Z.ltb_lt in Ek. unfold u64 in Ek. cbn.
      rewrite Z.mod_small in Ek by lia. change NSEC_PER_SEC with 1000000000 in Ek. change TOKEN_MAX with 250000000 in *. lia.
  - apply find_none in Ef. assert (find (entry_is s) (gc_bucket true now b) = None) as ->; [|done].
    apply find_none. by apply Forall_gc.
Qed.

Lemma gc_ok rl now0 work now : rl_ok now0 rl -> now0 <= now -> rl_ok now (wg_ratelimiter_gc_entries work now rl).
Proof.
  intros Hok0 Hle. apply (rl_ok_mono _ now) in Hok0 as Hok; [|done].
  pose proof (gc_entries_le work now (table_v4 rl)) as H4. pose proof (gc_entries_le work now (table_v6 rl)) as H6. split; try apply Hok.
  - intros v. pose proof (rl_len _ _ Hok v) as Hl. unfold len in *. destruct v; cbn in *; by rewrite length_map.
  - intros v. pose proof (rl_buckets _ _ Hok v) as Hb. destruct v; cbn in *; apply Forall_fmap; (eapply Forall_impl; [exact Hb|]);
      intros b; apply gc_bucket_ok.
  - pose proof (rl_total _ _ Hok). cbn. lia.
  - pose proof (rl_pending _ _ Hok). cbn. lia.
Qed.

Lemma gc_level rl now0 now s t : rl_ok now0 rl -> now0 <= now -> 0 <= now < 2 ^ 63 -> now <= t ->
  level (wg_ratelimiter_gc_entries true now rl) s t = level rl s t.
Proof.
  intros Hok0 Hle Hn Ht. apply (rl_ok_mono _ now) in Hok0 as Hok; [|done]. destruct (bucket_in rl now s Hok) as (b & Hb & Hbok).
  assert (table_of (wg_ratelimiter_gc_entries true now rl) (s_v6 s) = map (gc_bucket true now) (table_of rl (s_v6 s))) as Et
    by (by destruct (s_v6 s)).
  unfold level, entry_of. rewrite Et. change (table_size (wg_ratelimiter_gc_entries true now rl)) with (table_size rl).
  rewrite list_lookup_fmap, Hb. cbn. by apply gc_find.
Qed.

(** ** Sequences of events *)

Inductive event :=
| EvAllow (skb : packet) (net now : Z) (alloc : bool)
| EvGc (now : Z)
| EvFree.

(** One event; the verdict of a packet. *)
Definition step (ev : event) (rl : ratelimiter) : option (bool * ratelimiter) :=
  match ev with
  | EvAllow skb net now alloc => wg_ratelimiter_allow hsiphash_2u32 hsiphash_3u32 skb net now alloc rl
  | EvGc now => Some (false, wg_ratelimiter_gc_entries true now rl)
  | EvFree => Some (false, if 0 <? pending rl then entry_free rl else rl)
  end.

Fixpoint run (evs : list event) (rl : ratelimiter) : option (list bool * ratelimiter) :=
  match evs with
  | [] => Some ([], rl)
  | ev :: evs' =>
      match step ev rl with
      | Some (r, rl1) => match run evs' rl1 with Some (rs, rl2) => Some (r :: rs, rl2) | None => None end
      | None => None
      end
  end.

(** The clock does not go backwards between the events; its final value. *)
Definition ev_time (ev : event) (now : Z) : Z := match ev with EvAllow _ _ t _ | EvGc t => t | EvFree => now end.
Fixpoint times_ok (now : Z) (evs : list event) : Prop :=
  match evs with
  | [] => True
  | ev :: evs' => now <= ev_time ev now < 2 ^ 63 /\ times_ok (ev_time ev now) evs'
  end.
Definition end_time (now : Z) (evs : list event) : Z := fold_left (fun t ev => ev_time ev t) evs now.

(** How many packets of a source were let through. *)
Definition counts (s : source) (ev : event) (r : bool) : Z :=
  match ev with
  | EvAllow skb net _ _ => if bool_decide (source_of skb net = Some s) && r then 1 else 0
  | _ => 0
  end.
Fixpoint admitted (s : source) (evs : list event) (rs : list bool) : Z :=
  match evs, rs with
  | ev :: evs', r :: rs' => counts s ev r + admitted s evs' rs'
  | _, _ => 0
  end.

Lemma free_ok rl now : rl_ok now rl -> rl_ok now (if 0 <? pending rl then entry_free rl else rl).
Proof.
  intros Hok. destruct (Z.ltb_spec 0 (pending rl)); [|done]. split; try apply Hok; cbn.
  - pose proof (rl_total _ _ Hok). lia.
  - lia.
  - pose proof (rl_max _ _ Hok). lia.
Qed.

(** One event: nobody gains more than the time that passed, and an admitted
    packet is paid for. *)
Lemma step_ok ev rl now : rl_ok now rl -> 0 <= now -> now <= ev_time ev now < 2 ^ 63 ->
  exists r rl', step ev rl = Some (r, rl') /\ rl_ok (ev_time ev now) rl' /\
    forall s, PACKET_COST * counts s ev r + level rl' s (ev_time ev now) <= level rl s now + (ev_time ev now - now).
Proof.
  intros Hok H0 Ht.
  assert (forall s t, now <= t -> level rl s t <= level rl s now + (t - now)) as Hgain.
  { intros s t Hle. unfold level, level_of. destruct (entry_of rl s); lia. }
  destruct ev as [skb net t alloc|t|]; cbn [step ev_time] in *.
  - unfold wg_ratelimiter_allow. destruct (source_of skb net) as [s0|] eqn:Es.
    2:{ exists false, rl. ands; [done|apply (rl_ok_mono now); [lia|done]|]. intros s. cbn. rewrite andb_false_r. specialize (Hgain s t). lia. }
    destruct (allow_step rl now t s0 alloc Hok) as (r & rl' & Hr & Hok' & Hlev & Hret); [lia|lia|].
    exists r, rl'. ands; [exact Hr|exact Hok'|]. intros s. rewrite Hlev by lia. cbn [counts]. rewrite Es.
    specialize (Hgain s t). destruct (decide (s = s0)) as [->|D].
    + rewrite !bool_decide_true by done. destruct r; cbn [andb]; lia.
    + rewrite !bool_decide_false by congruence. cbn [andb]. lia.
  - eexists _, _. split; [done|]. split; [eapply gc_ok; [done|lia]|]. intros s. cbn [counts].
    rewrite (gc_level rl now) by (done || lia). specialize (Hgain s t). lia.
  - eexists _, _. split; [done|]. split; [by apply free_ok|]. intros s. cbn [counts]. destruct (0 <? pending rl); [|lia].
    change (level (entry_free rl) s now) with (level rl s now). lia.
Qed.

Lemma run_ok evs : forall rl now, rl_ok now rl -> 0 <= now -> times_ok now evs ->
  exists rs rl', run evs rl = Some (rs, rl') /\ length rs = length evs /\ rl_ok (end_time now evs) rl' /\
    forall s, PACKET_COST * admitted s evs rs + level rl' s (end_time now evs) <= level rl s now + (end_time now evs - now).
Proof.
  induction evs as [|ev evs IH]; intros rl now Hok H0 Ht.
  { exists [], rl. ands; try done. intros s. cbn. lia. }
  destruct Ht as [Ht Hts]. destruct (step_ok ev rl now Hok H0 Ht) as (r & rl1 & Hr & Hok1 & Hl1).
  destruct (IH rl1 _ Hok1 ltac:(lia) Hts) as (rs & rl' & Hrs & Hlen & Hok' & Hl').
  exists (r :: rs), rl'. cbn [run]. rewrite Hr, Hrs. ands; [done|cbn; by rewrite Hlen|done|].
  intros s. cbn [admitted]. change (end_time now (ev :: evs)) with (end_time (ev_time ev now) evs).
  specialize (Hl1 s). specialize (Hl' s). lia.
Qed.

End Buckets.

(** * Set-up and tear-down *)

Lemma table_size_pow2 pages : 0 <= pages -> exists k, 4 <= k <= 13 /\ table_size_for pages = 2 ^ k.
Proof.
  intros Hp. unfold table_size_for. change (2 ^ 30 / PAGE_SIZE) with (2 ^ 18). destruct (Z.ltb_spec (2 ^ 18) pages) as [|Hle]; [by exists 13|].
  rewrite Z.shiftl_mul_pow2 by (unfold PAGE_SHIFT; lia). change (2 ^ PAGE_SHIFT) with 4096.
  set (n := pages * 4096 / 2 ^ 14 / 8). assert (0 <= n <= 2 ^ 13) as Hn by (unfold n; lia). unfold roundup_pow_of_two.
  assert (0 <= Z.log2_up n <= 13) as Hl.
  { split; [apply Z.log2_up_nonneg|]. change 13 with (Z.log2_up (2 ^ 13)). apply Z.log2_up_le_mono; lia. }
  destruct (Z.le_gt_cases 4 (Z.log2_up n)) as [H4|H4].
  - exists (Z.log2_up n). split; [lia|]. apply Z.max_r. change 16 with (2 ^ 4). by apply Z.pow_le_mono_r.
  - exists 4. split; [lia|]. change (2 ^ 4) with 16. apply Z.max_l. change 16 with (2 ^ 4). apply Z.pow_le_mono_r; lia.
Qed.

Lemma concat_empty {A} n : concat (replicate n (@nil A)) = [].
Proof. by induction n. Qed.

Lemma init_ok_state pages now rl : 0 <= pages -> init_refcnt rl = 0 -> total_entries rl = 0 -> pending rl = 0 ->
  exists rl', wg_ratelimiter_init pages true true true rl = (0, rl') /\ rl_ok now rl' /\ init_refcnt rl' = 1.
Proof.
  intros Hp Hr Ht Hpe. destruct (table_size_pow2 pages Hp) as (k & Hk & Hs). unfold wg_ratelimiter_init. rewrite Hr.
  change (negb (0 + 1 =? 1)) with false. cbn [negb]. eexists. split; [done|]. split; [|done].
  assert (1 <= 2 ^ k) by (apply (Z.pow_le_mono_r 2 0 k); lia). split; cbn.
  - exists k. split; [lia|done].
  - intros v. destruct v; cbn; rewrite len_replicate; lia.
  - intros v. destruct v; cbn; apply Forall_replicate; (split; [done|apply NoDup_nil_2]).
  - unfold entries, len. rewrite !concat_empty. cbn. lia.
  - lia.
  - lia.
Qed.

Lemma barrier_ok n rl : Nat.iter n entry_free rl =
  Ratelimiter (init_refcnt rl) (total_entries rl - Z.of_nat n) (pending rl - Z.of_nat n) (max_entries rl) (table_size rl) (table_v4 rl) (table_v6 rl).
Proof.
  induction n as [|n IH]; [destruct rl; cbn; f_equal; lia|]. rewrite Nat.iter_succ, IH. unfold entry_free. cbn. f_equal; lia.
Qed.

Lemma gc_all_empty now t : concat (map (gc_bucket false now) t) = [].
Proof. induction t as [|b t IH]; [done|]. cbn. rewrite IH, app_nil_r. induction b as [|e b IHb]; [done|]. unfold gc_bucket. by rewrite filter_cons_False. Qed.

(** A source never has more than a full bucket, nor less than nothing. *)
Lemma level_bounds h2 h3 rl now s : rl_ok now rl -> 0 <= level h2 h3 rl s now <= TOKEN_MAX.
Proof.
  intros Hok. unfold level, level_of, entry_of. destruct (bucket_in h2 h3 rl _ s Hok) as (b & -> & Hb & Hn).
  destruct (find (entry_is s) b) as [e|] eqn:Ef; [|done]. apply find_key in Ef as [Hin _]; [|done].
  pose proof (proj1 (Forall_forall _ _) Hb e Hin) as [? ?]. lia.
Qed.

(** * Theorems *)

(** Whatever packets arrive, however the garbage collector and the RCU
    callbacks are scheduled and whichever allocations fail, the rate limiter
    never reads outside its tables, keeps the number of entries within
    [max_entries], and lets at most [TOKEN_MAX + T] nanoseconds' worth of
    packets of one source through in a stretch of [T] nanoseconds: 5 at once
    and 20 per second. *)
Theorem ratelimiter_rate_bound h2 h3 evs rl now s : rl_ok now rl -> 0 <= now -> times_ok now evs ->
  exists rs rl', run h2 h3 evs rl = Some (rs, rl') /\ length rs = length evs /\
    PACKET_COST * admitted s evs rs <= TOKEN_MAX + (end_time now evs - now) /\
    total_entries rl' = entries (table_v4 rl') + entries (table_v6 rl') + pending rl' /\
    total_entries rl' <= max_entries rl'.
Proof.
  intros Hok H0 Ht. destruct (run_ok h2 h3 evs rl now Hok H0 Ht) as (rs & rl' & Hr & Hlen & Hok' & Hl).
  exists rs, rl'. ands; try done; [|apply Hok'|apply Hok']. specialize (Hl s).
  pose proof (level_bounds h2 h3 rl now s Hok). pose proof (level_bounds h2 h3 rl' _ s Hok'). lia.
Qed.

(** A call admits a packet exactly when the ideal token bucket of its
    source holds the cost of a packet, unless the source has no entry yet and
    there is no memory or room for one; an admitted packet costs its source
    [PACKET_COST] and no bucket of another source changes. *)
Theorem ratelimiter_allow_bucket h2 h3 rl now0 now skb net s alloc : rl_ok now0 rl -> now0 <= now -> 0 <= now < 2 ^ 63 ->
  source_of skb net = Some s ->
  exists ret rl', wg_ratelimiter_allow h2 h3 skb net now alloc rl = Some (ret, rl') /\ rl_ok now rl' /\
    (ret = true -> PACKET_COST <= level h2 h3 rl s now) /\
    (ret = false -> level h2 h3 rl s now < PACKET_COST \/
       (entry_of h2 h3 rl s = None /\ (alloc = false \/ max_entries rl <= total_entries rl))) /\
    (forall s' t, now <= t -> level h2 h3 rl' s' t =
       if bool_decide (s' = s) && ret then Z.min TOKEN_MAX (level h2 h3 rl s now - PACKET_COST + t - now)
       else level h2 h3 rl s' t).
Proof.
  intros Hok Hle Hn Hs. destruct (allow_step h2 h3 rl now0 now s alloc Hok Hle Hn) as (ret & rl' & Hr & Hok' & Hlev & Hret).
  exists ret, rl'. unfold wg_ratelimiter_allow. rewrite Hs. ands; try done; intros ->; done.
Qed.

(** Collecting idle entries at any moment is invisible: no source can tell
    from its bucket whether the collector ran. *)
Theorem ratelimiter_gc_transparent h2 h3 rl now0 now s t : rl_ok now0 rl -> now0 <= now -> 0 <= now < 2 ^ 63 -> now <= t ->
  level h2 h3 (wg_ratelimiter_gc_entries true now rl) s t = level h2 h3 rl s t /\
  rl_ok now (wg_ratelimiter_gc_entries true now rl).
Proof. intros Hok Hle Hn Ht. split; [by apply (gc_level h2 h3 rl now0)|by apply (gc_ok h2 h3 rl now0)]. Qed.

(** The last [uninit] frees every entry, so that a later [init] starts
    from an empty rate limiter; every table size [init] computes is a power of
    two between 16 and 8192, and an [init] that fails takes its reference back. *)
Theorem ratelimiter_lifecycle pages now now0 rl : 0 <= pages -> rl_ok now0 rl -> now0 <= now -> init_refcnt rl = 1 ->
  let rl1 := wg_ratelimiter_uninit now rl in
  init_refcnt rl1 = 0 /\ total_entries rl1 = 0 /\ pending rl1 = 0 /\
  (exists k, 4 <= k <= 13 /\ table_size_for pages = 2 ^ k) /\
  (exists rl2, wg_ratelimiter_init pages true true true rl1 = (0, rl2) /\ rl_ok now rl2 /\ init_refcnt rl2 = 1) /\
  (forall cache v4 v6, cache && v4 && v6 = false ->
     exists rl2, wg_ratelimiter_init pages cache v4 v6 rl1 = (- ENOMEM, rl2) /\ init_refcnt rl2 = 0).
Proof.
  intros Hp Hok Hle Hr rl1.
  assert (init_refcnt rl1 = 0 /\ total_entries rl1 = 0 /\ pending rl1 = 0) as (H1 & H2 & H3).
  { unfold rl1, wg_ratelimiter_uninit, rcu_barrier. rewrite Hr. change (1 =? 0) with false. change (negb (1 - 1 =? 0)) with false. cbv iota zeta.
    rewrite barrier_ok. cbn. unfold entries. rewrite !gc_all_empty. cbn. pose proof (rl_total _ _ Hok) as Ht.
    pose proof (rl_pending _ _ Hok). unfold entries, len in *. cbn [length]. lia. }
  ands; try done; [by apply table_size_pow2|by apply init_ok_state|].
  intros cache v4 v6 Hf. unfold wg_ratelimiter_init. rewrite H1. change (negb (0 + 1 =? 1)) with false.
  destruct cache, v4, v6; cbn in *; try done; eauto.
Qed.

(** ** Witnesses *)

Definition rl_zero : ratelimiter := Ratelimiter 0 0 0 0 0 [] [].
Definition rl_example : ratelimiter := (wg_ratelimiter_init 100 true true true rl_zero).2.

Lemma rl_example_ok : rl_ok 0 rl_example.
Proof. destruct (init_ok_state 100 0 rl_zero) as (rl & Hr & Hok & _); try done. unfold rl_example. by rewrite Hr. Qed.

Definition pkt_example : packet := Packet ETH_P_IP [192; 0; 2; 1] [192; 0; 2; 2].

(** Six packets at once: the sixth is refused, 50 ms later one more passes. *)
Definition evs_example : list event :=
  repeat (EvAllow pkt_example 7 0 true) 6 ++ [EvGc 1; EvFree; EvAllow pkt_example 7 50000000 true].

Lemma ratelimiter_rate_bound_witness : times_ok 0 evs_example /\
  exists rs rl', run (fun _ _ => 0) (fun _ _ _ => 0) evs_example rl_example = Some (rs, rl') /\ length rs = 9%nat /\
    PACKET_COST * admitted (Source false 0x10200c0 7) evs_example rs <= TOKEN_MAX + (50000000 - 0) /\
    total_entries rl' = entries (table_v4 rl') + entries (table_v6 rl') + pending rl' /\ total_entries rl' <= max_entries rl'.
Proof.
  assert (times_ok 0 evs_example) as Ht by (cbn; lia). split; [exact Ht|].
  exact (ratelimiter_rate_bound (fun _ _ => 0) (fun _ _ _ => 0) evs_example rl_example 0 (Source false 0x10200c0 7)
    rl_example_ok (Z.le_refl 0) Ht).
Defined.

Example ratelimiter_run_example :
  (run (fun _ _ => 0) (fun _ _ _ => 0) evs_example rl_example) ≫= (fun x => Some x.1) =
    Some [true; true; true; true; true; false; false; false; true].
Proof. vm_compute. reflexivity. Qed.

Lemma ratelimiter_allow_bucket_witness :
  exists ret rl', wg_ratelimiter_allow (fun _ _ => 0) (fun _ _ _ => 0) pkt_example 7 5 false rl_example = Some (ret, rl') /\ rl_ok 5 rl'.
Proof.
  destruct (ratelimiter_allow_bucket (fun _ _ => 0) (fun _ _ _ => 0) rl_example 0 5 pkt_example 7 (Source false 0x10200c0 7) false
    rl_example_ok ltac:(lia) ltac:(lia) eq_refl) as (ret & rl' & H1 & H2 & _). eauto.
Defined.

Lemma ratelimiter_gc_transparent_witness :
  level (fun _ _ => 0) (fun _ _ _ => 0) (wg_ratelimiter_gc_entries true 5 rl_example) (Source false 1 7) 9 =
  level (fun _ _ => 0) (fun _ _ _ => 0) rl_example (Source false 1 7) 9.
Proof.
  apply (ratelimiter_gc_transparent (fun _ _ => 0) (fun _ _ _ => 0) rl_example 0 5 (Source false 1 7) 9); [exact rl_example_ok|lia..].
Defined.

Lemma ratelimiter_lifecycle_witness : init_refcnt (wg_ratelimiter_uninit 3 rl_example) = 0.
Proof. apply (ratelimiter_lifecycle 100 3 0 rl_example); [lia|exact rl_example_ok|lia|reflexivity]. Defined.
