(* ===== verification/PeerLookup.v ===== *)
(** * Lookup tables for public keys and session indices ([src/peerlookup.c])

    Both tables are arrays of [hlist] heads.  An entry is known by the address
    of its [hlist_node]; the index table's entries live in a heap of their own.
    The random source and the keyed hash are inputs, and a peer's reference
    count enters through [alive]: whether [wg_peer_get_maybe_zero] succeeds.
    The theorems show that each table implements a finite map, whatever the
    hash function, and that an index handed out is never one in use. *)

From S2P Require Import Prelude.
From stdpp Require Import gmap list fin_maps.
#[local] Open Scope Z_scope.

(** ** [hlist] heads

    An absent bucket is an empty list. *)
Abbreviation buckets := (gmap Z (list Z)).
Definition bucket (t : buckets) (i : Z) : list Z := default [] (t !! i).
Definition hlist_add_head (i x : Z) (t : buckets) : buckets := <[i := x :: bucket t i]> t.
(** [hlist_del_init_rcu]: unlinks a node from the list it is on, if any. *)
Definition hlist_del_init (x : Z) (t : buckets) : buckets := filter (fun y => y <> x) <$> t.
Definition hlist_replace (old new : Z) (t : buckets) : buckets := map (fun y => if y =? old then new else y) <$> t.
Definition hashed (t : buckets) (x : Z) : bool := existsb (fun b => existsb (Z.eqb x) b.2) (map_to_list t).

(** ** Public keys *)

(** The peers' keys, by address, and the heads. *)
Record pubkey_hashtable := PubkeyTable { pk_peers : gmap Z (list Z); pk_heads : buckets }.

Definition PUBKEY_HASH_SIZE : Z := 2 ^ 11.

Section Pubkey.

(** [siphash] under the table's key. *)
Context (siphash : list Z -> Z).

Definition pubkey_bucket (pubkey : list Z) : Z := Z.land (siphash pubkey) (PUBKEY_HASH_SIZE - 1).

Definition wg_pubkey_hashtable_alloc : pubkey_hashtable := PubkeyTable ∅ ∅.

(** [peer] has the public key [pubkey]. *)
Definition wg_pubkey_hashtable_add (t : pubkey_hashtable) (peer : Z) (pubkey : list Z) : pubkey_hashtable :=
  PubkeyTable (<[peer := pubkey]> (pk_peers t)) (hlist_add_head (pubkey_bucket pubkey) peer (pk_heads t)).

Definition wg_pubkey_hashtable_remove (t : pubkey_hashtable) (peer : Z) : pubkey_hashtable :=
  PubkeyTable (pk_peers t) (hlist_del_init peer (pk_heads t)).

Definition wg_pubkey_hashtable_lookup (t : pubkey_hashtable) (pubkey : list Z) (alive : Z -> bool) : option Z :=
  match find (fun x => bool_decide (pk_peers t !! x = Some pubkey)) (bucket (pk_heads t) (pubkey_bucket pubkey)) with
  | Some x => if alive x then Some x else None
  | None => None
  end.

End Pubkey.

(** ** Session indices *)

Definition INDEX_HASHTABLE_HANDSHAKE : Z := 1.
Definition INDEX_HASHTABLE_KEYPAIR : Z := 2.
Definition INDEX_HASH_SIZE : Z := 2 ^ 13.

Record index_hashtable_entry := IndexEntry { ie_peer : option Z; ie_type : Z; ie_index : Z }.

Record index_hashtable := IndexTable { ix_entries : gmap Z index_hashtable_entry; ix_heads : buckets }.

Definition index_bucket (index : Z) : Z := Z.land index (INDEX_HASH_SIZE - 1).

Definition wg_index_hashtable_alloc : index_hashtable := IndexTable ∅ ∅.

Definition ix_index (t : index_hashtable) (x : Z) : option Z := ie_index <$> ix_entries t !! x.

Definition set_index (x index : Z) (t : index_hashtable) : index_hashtable :=
  IndexTable (alter (fun e => IndexEntry (ie_peer e) (ie_type e) index) x (ix_entries t)) (ix_heads t).

(** Whether the bucket of [index] has an entry with that index. *)
Definition index_used (t : index_hashtable) (index : Z) : bool :=
  existsb (fun y => bool_decide (ix_index t y = Some index)) (bucket (ix_heads t) (index_bucket index)).

(** [search_unused_slot]: [rnd] are the numbers [get_random_u32] returns, one
    per attempt; [None] when they are used up. *)
Fixpoint search_unused_slot (t : index_hashtable) (x : Z) (rnd : list Z) : option (Z * index_hashtable) :=
  match rnd with
  | [] => None
  | r :: rnd' =>
      let t := set_index x r t in
      if index_used t r then search_unused_slot t x rnd'
      else if index_used t r then search_unused_slot t x rnd'
      else Some (r, IndexTable (ix_entries t) (hlist_add_head (index_bucket r) x (ix_heads t)))
  end.

Definition wg_index_hashtable_insert (t : index_hashtable) (x : Z) (rnd : list Z) : option (Z * index_hashtable) :=
  search_unused_slot (IndexTable (ix_entries t) (hlist_del_init x (ix_heads t))) x rnd.

Definition wg_index_hashtable_replace (t : index_hashtable) (old new : Z) : bool * index_hashtable :=
  if hashed (ix_heads t) old then
    match ix_index t old with
    | Some i => (true, let t' := set_index new i t in IndexTable (ix_entries t') (hlist_replace old new (ix_heads t')))
    | None => (true, t)
    end
  else (false, t).

Definition wg_index_hashtable_remove (t : index_hashtable) (x : Z) : index_hashtable :=
  IndexTable (ix_entries t) (hlist_del_init x (ix_heads t)).

(** The entry found and the peer stored through [peer]; the entry's own peer
    pointer is overwritten by what [wg_peer_get_maybe_zero] returns. *)
Definition wg_index_hashtable_lookup (t : index_hashtable) (type_mask index : Z) (alive : Z -> bool) :
    option (Z * Z) * index_hashtable :=
  match find (fun y => bool_decide (ix_index t y = Some index)) (bucket (ix_heads t) (index_bucket index)) with
  | None => (None, t)
  | Some x =>
      match ix_entries t !! x with
      | None => (None, t)
      | Some e =>
          if Z.land (ie_type e) type_mask =? 0 then (None, t)
          else
            let p := match ie_peer e with Some p => if alive p then Some p else None | None => None end in
            let t' := IndexTable (<[x := IndexEntry p (ie_type e) (ie_index e)]> (ix_entries t)) (ix_heads t) in
            (match p with Some p => Some (x, p) | None => None end, t')
      end
  end.

(** * The tables as finite maps *)

Definition linked (t : buckets) (x : Z) : Prop := exists i, x ∈ bucket t i.

Lemma bucket_empty i : bucket ∅ i = [].
Proof. unfold bucket. by rewrite lookup_empty. Qed.

Lemma bucket_add i x t j : bucket (hlist_add_head i x t) j = if decide (j = i) then x :: bucket t i else bucket t j.
Proof.
  unfold hlist_add_head, bucket. destruct (decide (j = i)) as [->|D].
  - by rewrite lookup_insert_eq.
  - by rewrite lookup_insert_ne.
Qed.

Lemma bucket_del x t j : bucket (hlist_del_init x t) j = filter (fun y => y <> x) (bucket t j).
Proof. unfold hlist_del_init, bucket. rewrite lookup_fmap. by destruct (t !! j). Qed.

Lemma bucket_hlist_replace old new t j : bucket (hlist_replace old new t) j = map (fun y => if y =? old then new else y) (bucket t j).
Proof. unfold hlist_replace, bucket. rewrite lookup_fmap. by destruct (t !! j). Qed.

Lemma hashed_linked t x : hashed t x = true <-> linked t x.
Proof.
  unfold hashed. rewrite existsb_exists. split.
  - intros ([i b] & Hin & (y & Hy & Hxy)%existsb_exists). apply Z.eqb_eq in Hxy as ->. exists i.
    apply list_elem_of_In, elem_of_map_to_list in Hin. unfold bucket. rewrite Hin. cbn in *. by apply list_elem_of_In.
  - intros [i Hi]. unfold bucket in Hi. destruct (t !! i) as [b|] eqn:Eb; [|inversion Hi].
    exists (i, b). split; [by apply list_elem_of_In, elem_of_map_to_list|]. apply existsb_exists. exists x.
    split; [by apply list_elem_of_In|apply Z.eqb_refl].
Qed.

Lemma find_iff {A} (f : A -> bool) (l : list A) x : (forall y z, y ∈ l -> z ∈ l -> f y = true -> f z = true -> y = z) ->
  find f l = Some x <-> x ∈ l /\ f x = true.
Proof.
  intros Hu. split; [intros [? ?]%find_some; split; [by apply list_elem_of_In|done]|]. intros [Hin Hf].
  destruct (find f l) as [y|] eqn:E; [|by apply list_elem_of_In, (find_none f l E) in Hin; congruence].
  apply find_some in E as [Hy Hfy]. f_equal. apply Hu; try done. by apply list_elem_of_In.
Qed.

(** ** Index table *)

Record ix_ok (t : index_hashtable) : Prop := {
  ix_place : forall i x, x ∈ bucket (ix_heads t) i -> exists idx, ix_index t x = Some idx /\ index_bucket idx = i;
  ix_nodup : forall i, NoDup (bucket (ix_heads t) i);
  ix_unique : forall x y idx, linked (ix_heads t) x -> linked (ix_heads t) y ->
    ix_index t x = Some idx -> ix_index t y = Some idx -> x = y
}.

(** The map an index table stands for. *)
Definition ix_get (t : index_hashtable) (idx : Z) : option Z :=
  find (fun y => bool_decide (ix_index t y = Some idx)) (bucket (ix_heads t) (index_bucket idx)).

Lemma ix_get_iff t idx x : ix_ok t -> ix_get t idx = Some x <-> linked (ix_heads t) x /\ ix_index t x = Some idx.
Proof.
  intros Hok. unfold ix_get. rewrite find_iff.
  - rewrite bool_decide_eq_true. split; [intros [? ?]; split; [by eexists|done]|]. intros [[i Hi] Hx]. split; [|done].
    destruct (ix_place _ Hok i x Hi) as (idx' & Hx' & <-). congruence.
  - intros y z Hy Hz. rewrite !bool_decide_eq_true. intros H1 H2. by eapply (ix_unique _ Hok); [by eexists|by eexists|done|done].
Qed.

Lemma ix_get_none t idx : ix_ok t -> ix_get t idx = None <-> forall x, linked (ix_heads t) x -> ix_index t x <> Some idx.
Proof.
  intros Hok. split.
  - intros Hn x Hl Hx. assert (ix_get t idx = Some x) by (by apply ix_get_iff). congruence.
  - intros H. destruct (ix_get t idx) as [x|] eqn:E; [|done]. apply ix_get_iff in E as [Hl Hx]; [|done]. by destruct (H x Hl).
Qed.

Lemma index_used_get t idx : index_used t idx = true <-> ix_get t idx <> None.
Proof.
  unfold index_used, ix_get. rewrite existsb_exists. split.
  - intros (y & Hy & Hb) Hn. by rewrite (find_none _ _ Hn y Hy) in Hb.
  - destruct (find _ _) as [y|] eqn:E; [|done]. intros _. apply find_some in E. by exists y.
Qed.

(** Two tables whose maps agree. *)
Lemma ix_get_ext t t' idx idx' (f : option Z -> option Z) : ix_ok t -> ix_ok t' ->
  (forall x, linked (ix_heads t') x /\ ix_index t' x = Some idx <-> f (ix_get t idx') = Some x) -> ix_get t' idx = f (ix_get t idx').
Proof.
  intros Hok Hok' H. destruct (f (ix_get t idx')) as [x|] eqn:E.
  - apply ix_get_iff; [done|]. by apply H.
  - apply ix_get_none; [done|]. intros x Hl Hx. assert (None = Some x); [|done]. apply H. done.
Qed.

(** *** Removal *)

Definition without (x : Z) (o : option Z) : option Z := match o with Some y => if y =? x then None else Some y | None => None end.

Lemma linked_del t x y : linked (hlist_del_init x t) y <-> linked t y /\ y <> x.
Proof. unfold linked. setoid_rewrite bucket_del. setoid_rewrite list_elem_of_filter. naive_solver. Qed.

Lemma remove_ok t x : ix_ok t -> ix_ok (wg_index_hashtable_remove t x) /\
  forall idx, ix_get (wg_index_hashtable_remove t x) idx = without x (ix_get t idx).
Proof.
  intros Hok. assert (ix_ok (wg_index_hashtable_remove t x)) as Hok'.
  { split; cbn [wg_index_hashtable_remove ix_heads].
    - intros i y. rewrite bucket_del, list_elem_of_filter. intros [_ Hy]. by apply (ix_place _ Hok).
    - intros i. rewrite bucket_del. apply NoDup_filter, Hok.
    - intros y z idx [Hy _]%linked_del [Hz _]%linked_del. by apply (ix_unique _ Hok). }
  split; [done|]. intros idx. apply ix_get_ext; [done|done|]. intros y. cbn [wg_index_hashtable_remove ix_heads].
  rewrite linked_del. change (ix_index (wg_index_hashtable_remove t x) y) with (ix_index t y).
  destruct (ix_get t idx) as [z|] eqn:E; cbn.
  - apply ix_get_iff in E as [Hl Hz]; [|done]. destruct (Z.eqb_spec z x) as [->|Hne].
    + split; [|done]. intros [[Hy Hyx] Hi]. destruct Hyx. by eapply (ix_unique _ Hok).
    + split; [intros [[Hy _] Hi]; f_equal; by eapply (ix_unique _ Hok)|intros [= <-]; done].
  - split; [|done]. intros [[Hy _] Hi]. by destruct (proj1 (ix_get_none t idx Hok) E y Hy).
Qed.

(** *** Insertion *)

Lemma ix_index_set x r t y : is_Some (ix_entries t !! x) ->
  ix_index (set_index x r t) y = if decide (y = x) then Some r else ix_index t y.
Proof.
  intros [e He]. unfold ix_index, set_index. cbn [ix_entries]. destruct (decide (y = x)) as [->|D].
  - by rewrite lookup_alter_eq, He.
  - by rewrite lookup_alter_ne.
Qed.

(** Writing the index of an entry that is on no list. *)
Lemma set_index_ok t x r : ix_ok t -> ~ linked (ix_heads t) x -> is_Some (ix_entries t !! x) ->
  ix_ok (set_index x r t) /\ forall idx, ix_get (set_index x r t) idx = ix_get t idx.
Proof.
  intros Hok Hx He. assert (forall y, linked (ix_heads t) y -> ix_index (set_index x r t) y = ix_index t y) as Hi.
  { intros y Hy. rewrite ix_index_set by done. rewrite decide_False; [done|]. by intros ->. }
  assert (ix_ok (set_index x r t)) as Hok'.
  { split; cbn [set_index ix_heads].
    - intros i y Hy. rewrite Hi by (by exists i). by apply (ix_place _ Hok).
    - apply (ix_nodup _ Hok).
    - intros y z idx Hy Hz. rewrite !Hi by done. by apply (ix_unique _ Hok). }
  split; [done|]. intros idx. apply (ix_get_ext _ _ _ _ (fun o => o)); [done|done|]. intros y. cbn [set_index ix_heads].
  rewrite ix_get_iff by done. split; intros [H1 H2]; (split; [done|]); [by rewrite Hi in H2|by rewrite Hi].
Qed.

Lemma linked_add t i x y : linked (hlist_add_head i x t) y <-> y = x \/ linked t y.
Proof.
  unfold linked. setoid_rewrite bucket_add. split.
  - intros [j Hj]. destruct (decide (j = i)) as [->|D]; [apply elem_of_cons in Hj as [->|Hj]; eauto|eauto].
  - intros [->|[j Hj]]; [exists i; rewrite decide_True by done; apply elem_of_cons; auto|].
    exists j. destruct (decide (j = i)) as [->|D]; [apply elem_of_cons; auto|done].
Qed.

Lemma add_ok t x r : ix_ok t -> ~ linked (ix_heads t) x -> ix_index t x = Some r -> ix_get t r = None ->
  let t' := IndexTable (ix_entries t) (hlist_add_head (index_bucket r) x (ix_heads t)) in
  ix_ok t' /\ forall idx, ix_get t' idx = if decide (idx = r) then Some x else ix_get t idx.
Proof.
  intros Hok Hx Hr Hfree t'. pose proof (proj1 (ix_get_none _ _ Hok) Hfree) as Hno.
  assert (forall y, ix_index t' y = ix_index t y) as Hi by done.
  assert (ix_ok t') as Hok'.
  { split; cbn [t' ix_heads].
    - intros i y. rewrite bucket_add, Hi. destruct (decide (i = index_bucket r)) as [->|D]; [|apply (ix_place _ Hok)].
      intros [->|Hy]%elem_of_cons; [by exists r|by apply (ix_place _ Hok)].
    - intros i. rewrite bucket_add. destruct (decide (i = index_bucket r)) as [->|D]; [|apply Hok].
      apply NoDup_cons. split; [|apply Hok]. intros Hin. apply Hx. by eexists.
    - intros y z idx. rewrite !linked_add, !Hi. intros [->|Hy] [->|Hz] H1 H2; try done.
      + rewrite Hr in H1. injection H1 as <-. by destruct (Hno z Hz).
      + rewrite Hr in H2. injection H2 as <-. by destruct (Hno y Hy).
      + by eapply (ix_unique _ Hok). }
  split; [done|]. intros idx. destruct (decide (idx = r)) as [->|D].
  - apply ix_get_iff; [done|]. split; [apply linked_add; auto|by rewrite Hi].
  - apply (ix_get_ext _ _ _ _ (fun o => o)); [done|done|]. intros y. cbn [t' ix_heads]. rewrite linked_add, Hi, ix_get_iff by done.
    split; [intros [[->|Hy] Hy2]; [congruence|done]|intros [Hy Hy2]; auto].
Qed.

Lemma search_ok rnd : forall t x, ix_ok t -> ~ linked (ix_heads t) x -> is_Some (ix_entries t !! x) ->
  match search_unused_slot t x rnd with
  | None => forall r, r ∈ rnd -> ix_get t r <> None
  | Some (r, t') => r ∈ rnd /\ ix_get t r = None /\ ix_ok t' /\
      forall idx, ix_get t' idx = if decide (idx = r) then Some x else ix_get t idx
  end.
Proof.
  induction rnd as [|r rnd IH]; intros t x Hok Hx He; [intros r Hr; inversion Hr|]. cbn [search_unused_slot].
  destruct (set_index_ok t x r Hok Hx He) as [Hok1 Hget1]. set (t1 := set_index x r t) in *.
  assert (~ linked (ix_heads t1) x) as Hx1 by done.
  assert (is_Some (ix_entries t1 !! x)) as He1 by (destruct He as [e He]; unfold t1; cbn; rewrite lookup_alter_eq, He; done).
  destruct (index_used t1 r) eqn:Eu.
  - specialize (IH t1 x Hok1 Hx1 He1). apply index_used_get in Eu. rewrite Hget1 in Eu.
    destruct (search_unused_slot t1 x rnd) as [[r' t']|].
    + destruct IH as (Hin & Hfree & Hok' & Hget'). rewrite Hget1 in Hfree. ands; [apply elem_of_cons; auto|done|done|].
      intros idx. by rewrite Hget', Hget1.
    + intros r' [->|Hr']%elem_of_cons; [done|]. rewrite <- Hget1. auto.
  - assert (ix_get t1 r = None) as Hfree.
    { destruct (ix_get t1 r) eqn:E; [|done]. rewrite (proj2 (index_used_get t1 r)) in Eu; [done|]. by rewrite E. }
    destruct (add_ok t1 x r Hok1 Hx1) as [Hok' Hget']; [unfold t1; by rewrite ix_index_set, decide_True by done|done|].
    rewrite Hget1 in Hfree. ands; [apply elem_of_cons; auto|done|done|]. intros idx. by rewrite Hget', Hget1.
Qed.

Lemma insert_ok t x rnd : ix_ok t -> is_Some (ix_entries t !! x) ->
  match wg_index_hashtable_insert t x rnd with
  | None => forall r, r ∈ rnd -> exists y, ix_get t r = Some y /\ y <> x
  | Some (r, t') => r ∈ rnd /\ without x (ix_get t r) = None /\ ix_ok t' /\
      forall idx, ix_get t' idx = if decide (idx = r) then Some x else without x (ix_get t idx)
  end.
Proof.
  intros Hok He. destruct (remove_ok t x Hok) as [Hok1 Hget1]. unfold wg_index_hashtable_insert.
  change (IndexTable (ix_entries t) (hlist_del_init x (ix_heads t))) with (wg_index_hashtable_remove t x).
  assert (~ linked (ix_heads (wg_index_hashtable_remove t x)) x) as Hx1 by (intros [_ ?]%linked_del; done).
  pose proof (search_ok rnd _ x Hok1 Hx1 He) as Hs. destruct (search_unused_slot _ x rnd) as [[r t']|].
  - destruct Hs as (Hin & Hfree & Hok' & Hget'). rewrite Hget1 in Hfree. ands; try done. intros idx. by rewrite Hget', Hget1.
  - intros r Hr. specialize (Hs r Hr). rewrite Hget1 in Hs. destruct (ix_get t r) as [y|]; [|done]. cbn in Hs.
    exists y. split; [done|]. by destruct (Z.eqb_spec y x).
Qed.

(** *** Replacement *)

Definition rename (old new : Z) (o : option Z) : option Z := match o with Some y => Some (if y =? old then new else y) | None => None end.

Lemma linked_replace t old new y : linked (hlist_replace old new t) y <-> (y = new /\ linked t old) \/ (linked t y /\ y <> old).
Proof.
  unfold linked. setoid_rewrite bucket_hlist_replace. setoid_rewrite list_elem_of_fmap. split.
  - intros (i & z & -> & Hz). destruct (Z.eqb_spec z old) as [->|D]; eauto.
  - intros [(-> & i & Hi)|((i & Hi) & D)]; exists i.
    + exists old. by rewrite Z.eqb_refl.
    + exists y. by destruct (Z.eqb_spec y old).
Qed.

Lemma replace_ok t old new : ix_ok t -> linked (ix_heads t) old -> ~ linked (ix_heads t) new -> is_Some (ix_entries t !! new) ->
  exists t', wg_index_hashtable_replace t old new = (true, t') /\ ix_ok t' /\
    ~ linked (ix_heads t') old /\ forall idx, ix_get t' idx = rename old new (ix_get t idx).
Proof.
  intros Hok Ho Hn He. unfold wg_index_hashtable_replace. rewrite (proj2 (hashed_linked _ _) Ho).
  pose proof Ho as [i0 Hi0]. destruct (ix_place _ Hok i0 old Hi0) as (idx0 & Hx0 & Hb0). rewrite Hx0.
  assert (old <> new) as Hne by congruence.
  eexists. split; [done|]. set (t' := IndexTable _ _).
  assert (forall y, ix_index t' y = if decide (y = new) then Some idx0 else ix_index t y) as Hi by (intros y; by apply ix_index_set).
  assert (forall y, linked (ix_heads t') y <-> (y = new /\ linked (ix_heads t) old) \/ (linked (ix_heads t) y /\ y <> old)) as Hl
    by (intros; apply linked_replace).
  assert (forall y, linked (ix_heads t') y -> exists z, linked (ix_heads t) z /\ ix_index t' y = ix_index t z /\ y = (if z =? old then new else z)) as Hz.
  { intros y [[-> _]|[Hy Hyo]]%Hl.
    - exists old. by rewrite Hi, decide_True, Z.eqb_refl.
    - exists y. rewrite Hi, decide_False by (intros ->; done). by destruct (Z.eqb_spec y old). }
  assert (ix_ok t') as Hok'.
  { split.
    - intros i y Hy. assert (linked (ix_heads t') y) as Hly by (by exists i). unfold t' in Hy. cbn [ix_heads set_index] in Hy.
      rewrite bucket_hlist_replace in Hy. apply list_elem_of_fmap in Hy as (z & -> & Hin). rewrite Hi. destruct (Z.eqb_spec z old) as [->|D].
      + rewrite decide_True by done. exists idx0. split; [done|]. destruct (ix_place _ Hok i old Hin) as (? & ? & <-). congruence.
      + rewrite decide_False by (intros ->; apply Hn; by exists i). by apply (ix_place _ Hok).
    - intros i. cbn [t' ix_heads set_index]. rewrite bucket_hlist_replace. apply NoDup_fmap_2_strong; [|apply Hok].
      intros x y Hx Hy. destruct (Z.eqb_spec x old), (Z.eqb_spec y old); subst; try done; intros ->; exfalso; apply Hn; by exists i.
    - intros x y idx (x' & Hx' & -> & ->)%Hz (y' & Hy' & -> & ->)%Hz H1 H2. by rewrite (ix_unique _ Hok x' y' idx). }
  ands; [done|intros [[? _]|[_ ?]]%Hl; congruence|]. intros idx. apply ix_get_ext; [done|done|]. intros y. split.
  - intros [(z & Hlz & -> & ->)%Hz Hidx]. by rewrite (proj2 (ix_get_iff t idx z Hok)).
  - destruct (ix_get t idx) as [z|] eqn:E; [|done]. apply ix_get_iff in E as [Hlz Hz']; [|done]. cbn. intros [= <-].
    destruct (Z.eqb_spec z old) as [->|D].
    + split; [apply Hl; auto|]. rewrite Hi, decide_True by done. congruence.
    + split; [apply Hl; auto|]. rewrite Hi, decide_False; [done|]. by intros ->.
Qed.

(** * Theorems *)

(** The index table holds the map [m] from indices to entries. *)
Definition ix_represents (t : index_hashtable) (m : gmap Z Z) : Prop := ix_ok t /\ forall idx, m !! idx = ix_get t idx.

Lemma linked_map t m x : ix_represents t m -> linked (ix_heads t) x <-> exists idx, m !! idx = Some x.
Proof.
  intros [Hok Hm]. setoid_rewrite Hm. setoid_rewrite (fun i => ix_get_iff t i x Hok). split; [|naive_solver].
  intros Hl. pose proof Hl as [i Hi]. destruct (ix_place _ Hok i x Hi) as (idx & ? & _). eauto.
Qed.

Lemma lookup_filter_without (m : gmap Z Z) x idx o : m !! idx = o -> (filter (fun kv : Z * Z => kv.2 <> x) m) !! idx = without x o.
Proof.
  intros <-. rewrite map_lookup_filter. destruct (m !! idx) as [y|]; [|done]. cbn. destruct (Z.eqb_spec y x) as [->|D].
  - by rewrite option_guard_False by tauto.
  - by rewrite option_guard_True.
Qed.

(** A lookup only writes the peer pointer of the entry it finds. *)
Lemma index_lookup_ok t mask idx alive : ix_ok t ->
  let t' := (wg_index_hashtable_lookup t mask idx alive).2 in ix_ok t' /\ ix_heads t' = ix_heads t /\ forall j, ix_get t' j = ix_get t j.
Proof.
  intros Hok. unfold wg_index_hashtable_lookup. fold (ix_get t idx). destruct (ix_get t idx) as [x|]; [|done].
  destruct (ix_entries t !! x) as [e|] eqn:Ee; [|done]. destruct (Z.land (ie_type e) mask =? 0); [done|]. cbn [snd].
  set (t' := IndexTable _ _). assert (forall y, ix_index t' y = ix_index t y) as Hi.
  { intros y. unfold ix_index. cbn. destruct (decide (y = x)) as [->|D]; [by rewrite lookup_insert_eq, Ee|by rewrite lookup_insert_ne]. }
  assert (ix_ok t') as Hok'.
  { split; cbn [t' ix_heads]; [|apply Hok|].
    - intros i y Hy. rewrite Hi. by apply (ix_place _ Hok).
    - intros y z j. rewrite !Hi. apply (ix_unique _ Hok). }
  ands; [done|done|]. intros j. apply (ix_get_ext t t' j j (fun o => o)); [done|done|]. intros y. rewrite Hi, ix_get_iff by done. done.
Qed.

(** The index table implements a finite map from 32-bit indices to
    entries.  Inserting gives the entry one of the random numbers drawn, never
    one that another entry uses, and succeeds as soon as a free number is
    drawn; removing deletes; replacing hands the index of the old entry to the
    new one, and does nothing when the old entry is no longer in the table;
    looking up finds the entry with that index if its type matches and its
    peer is still alive. *)
Theorem index_hashtable_refines t m : ix_represents t m ->
  (forall x rnd, is_Some (ix_entries t !! x) ->
     match wg_index_hashtable_insert t x rnd with
     | Some (r, t') => r ∈ rnd /\ (m !! r = None \/ m !! r = Some x) /\
         ix_represents t' (<[r := x]> (filter (fun kv => kv.2 <> x) m))
     | None => forall r, r ∈ rnd -> is_Some (m !! r)
     end) /\
  (forall x, ix_represents (wg_index_hashtable_remove t x) (filter (fun kv => kv.2 <> x) m)) /\
  (forall old new, is_Some (ix_entries t !! new) -> (forall idx, m !! idx <> Some new) ->
     match wg_index_hashtable_replace t old new with
     | (true, t') => ix_represents t' ((fun y => if y =? old then new else y) <$> m) /\ exists idx, m !! idx = Some old
     | (false, t') => t' = t /\ forall idx, m !! idx <> Some old
     end) /\
  (forall mask idx alive,
     (wg_index_hashtable_lookup t mask idx alive).1 =
       (x ← m !! idx; e ← ix_entries t !! x; p ← ie_peer e;
        if negb (Z.land (ie_type e) mask =? 0) && alive p then Some (x, p) else None) /\
     ix_represents (wg_index_hashtable_lookup t mask idx alive).2 m).
Proof.
  intros Hrep. pose proof Hrep as [Hok Hm]. ands.
  - intros x rnd He. pose proof (insert_ok t x rnd Hok He) as Hi. destruct (wg_index_hashtable_insert t x rnd) as [[r t']|].
    + destruct Hi as (Hin & Hfree & Hok' & Hget'). ands; [done| |split; [done|]].
      * rewrite Hm. destruct (ix_get t r) as [y|]; [|auto]. cbn in Hfree. right. f_equal. by destruct (Z.eqb_spec y x).
      * intros idx. rewrite Hget', lookup_insert. destruct (decide (idx = r)) as [->|D]; [by rewrite decide_True|].
        rewrite decide_False by done. by apply lookup_filter_without.
    + intros r Hr. rewrite Hm. destruct (Hi r Hr) as (y & -> & _). done.
  - intros x. destruct (remove_ok t x Hok) as [Hok' Hget']. split; [done|]. intros idx. rewrite Hget'. by apply lookup_filter_without.
  - intros old new He Hnew. assert (~ linked (ix_heads t) new) as Hn by (intros [i Hi]%(linked_map t m); [by destruct (Hnew i)|done]).
    destruct (hashed (ix_heads t) old) eqn:Eh.
    + apply hashed_linked in Eh as Ho. destruct (replace_ok t old new Hok Ho Hn He) as (t' & -> & Hok' & _ & Hget'). split.
      * split; [done|]. intros idx. rewrite lookup_fmap, Hget', Hm. by destruct (ix_get t idx).
      * by apply (linked_map t m).
    + unfold wg_index_hashtable_replace. rewrite Eh. split; [done|]. intros idx Hidx.
      rewrite (proj2 (hashed_linked _ _)) in Eh; [done|]. apply (linked_map t m); eauto.
  - intros mask idx alive. split.
    + unfold wg_index_hashtable_lookup. fold (ix_get t idx). rewrite Hm.
      destruct (ix_get t idx) as [x|]; [|done]. cbn. destruct (ix_entries t !! x) as [e|]; cbn; [|done].
      destruct (Z.land (ie_type e) mask =? 0); cbn; [by destruct (ie_peer e)|]. destruct (ie_peer e) as [p|]; cbn; [by destruct (alive p)|done].
    + destruct (index_lookup_ok t mask idx alive Hok) as (Hok' & _ & Hget'). split; [done|]. intros j. by rewrite Hm, Hget'.
Qed.

Definition ix_example : index_hashtable := IndexTable {[1 := IndexEntry (Some 7) INDEX_HASHTABLE_HANDSHAKE 0; 2 := IndexEntry (Some 7) INDEX_HASHTABLE_KEYPAIR 0]} ∅.

Lemma ix_example_ok : ix_represents ix_example ∅.
Proof.
  assert (forall i, bucket (ix_heads ix_example) i = []) as Hb by (intros; apply bucket_empty).
  split; [split|].
  - intros i x. rewrite Hb. intros Hx. inversion Hx.
  - intros i. rewrite Hb. apply NoDup_nil_2.
  - intros x y idx [i Hx]. rewrite Hb in Hx. inversion Hx.
  - intros idx. unfold ix_get. by rewrite Hb, lookup_empty.
Qed.

Lemma index_hashtable_refines_witness :
  ix_represents (wg_index_hashtable_remove ix_example 1) (filter (fun kv : Z * Z => kv.2 <> 1) ∅).
Proof. destruct (index_hashtable_refines ix_example ∅ ix_example_ok) as (_ & H & _). apply H. Defined.

(** Two insertions with a colliding first draw, then a replacement. *)
Example index_hashtable_example :
  (match wg_index_hashtable_insert ix_example 1 [5] with
   | Some (i1, t1) => match wg_index_hashtable_replace t1 1 2 with
     | (b, t2) => match wg_index_hashtable_insert t2 1 [5; 9] with
        | Some (i3, t3) => Some (i1, b, i3, (wg_index_hashtable_lookup t3 2 5 (fun _ => true)).1, (wg_index_hashtable_lookup t3 1 5 (fun _ => true)).1)
        | None => None end end
   | None => None end) = Some (5, true, 9, Some (2, 7), None).
Proof. vm_compute. reflexivity. Qed.

(** ** Public keys *)

Record pk_ok (siphash : list Z -> Z) (t : pubkey_hashtable) : Prop := {
  pk_place : forall i x, x ∈ bucket (pk_heads t) i -> exists k, pk_peers t !! x = Some k /\ pubkey_bucket siphash k = i;
  pk_unique : forall x y k, linked (pk_heads t) x -> linked (pk_heads t) y -> pk_peers t !! x = Some k -> pk_peers t !! y = Some k -> x = y
}.

(** The table holds the map [m] from public keys to peers. *)
Definition pk_represents (siphash : list Z -> Z) (t : pubkey_hashtable) (m : gmap (list Z) Z) : Prop :=
  pk_ok siphash t /\ forall k x, m !! k = Some x <-> linked (pk_heads t) x /\ pk_peers t !! x = Some k.

Lemma pk_find h t m k : pk_represents h t m ->
  find (fun x => bool_decide (pk_peers t !! x = Some k)) (bucket (pk_heads t) (pubkey_bucket h k)) = m !! k.
Proof.
  intros [Hok Hm]. assert (forall x, find (fun x => bool_decide (pk_peers t !! x = Some k)) (bucket (pk_heads t) (pubkey_bucket h k)) = Some x <-> m !! k = Some x) as H.
  { intros x. rewrite Hm, find_iff, bool_decide_eq_true.
    - split; [intros [? ?]; split; [by eexists|done]|]. intros [[i Hi] Hx]. split; [|done].
      destruct (pk_place _ _ Hok i x Hi) as (k' & Hk' & <-). congruence.
    - intros y z Hy Hz. rewrite !bool_decide_eq_true. intros H1 H2. by eapply (pk_unique _ _ Hok); [by eexists|by eexists|done|done]. }
  apply option_eq. exact H.
Qed.

Lemma pk_add_ok h t m p k : pk_represents h t m -> (forall k', m !! k' <> Some p) -> m !! k = None ->
  pk_represents h (wg_pubkey_hashtable_add h t p k) (<[k := p]> m).
Proof.
  intros Hrep Hp Hk. pose proof Hrep as [Hok Hm]. set (t' := wg_pubkey_hashtable_add h t p k).
  assert (forall x, linked (pk_heads t') x <-> x = p \/ linked (pk_heads t) x) as Hl by (intros; apply linked_add).
  assert (~ linked (pk_heads t) p) as Hpl.
  { intros Hl'. pose proof Hl' as [i Hi]. destruct (pk_place _ _ Hok i p Hi) as (k' & Hk' & _). by apply (Hp k'), Hm. }
  assert (forall x k', linked (pk_heads t') x -> pk_peers t' !! x = Some k' -> if decide (x = p) then k' = k else linked (pk_heads t) x /\ pk_peers t !! x = Some k') as Hkey.
  { intros x k' Hx Hk'. cbn in Hk'. apply Hl in Hx. destruct (decide (x = p)) as [->|D]; [rewrite lookup_insert_eq in Hk'; congruence|].
    rewrite lookup_insert_ne in Hk' by done. naive_solver. }
  split; [split|].
  - intros i x. cbn. rewrite bucket_add. destruct (decide (x = p)) as [->|D].
    + rewrite lookup_insert_eq. destruct (decide (i = _)) as [->|D2]; [by exists k|]. intros Hin. destruct Hpl. by exists i.
    + rewrite lookup_insert_ne by done. intros Hin. apply (pk_place _ _ Hok). destruct (decide (i = _)) as [->|D2]; [|done].
      by apply elem_of_cons in Hin as [?|?].
  - intros x y k' Hx Hy Hxk Hyk. specialize (Hkey x k' Hx Hxk) as H1. specialize (Hkey y k' Hy Hyk) as H2.
    destruct (decide (x = p)) as [->|Dx], (decide (y = p)) as [->|Dy]; try done.
    + subst k'. apply Hm in H2. congruence.
    + subst k'. apply Hm in H1. congruence.
    + destruct H1, H2. by eapply (pk_unique _ _ Hok).
  - intros k' x. rewrite lookup_insert. destruct (decide (k = k')) as [<-|D].
    + split; [intros [= <-]; split; [apply Hl; auto|cbn; by rewrite lookup_insert_eq]|].
      intros [Hx Hxk]. specialize (Hkey x k Hx Hxk). destruct (decide (x = p)) as [->|Dx]; [done|]. apply Hm in Hkey. congruence.
    + rewrite Hm. split.
      * intros [Hx Hxk]. split; [apply Hl; auto|]. cbn. rewrite lookup_insert_ne; [done|]. by intros ->.
      * intros [Hx Hxk]. specialize (Hkey x k' Hx Hxk). destruct (decide (x = p)) as [->|Dx]; [congruence|done].
Qed.

(** The public-key table implements a finite map from keys to peers for
    every keyed hash: a key looked up after its peer was added gives that peer
    while the peer is alive, and nothing after it was removed. *)
Theorem pubkey_hashtable_refines h t m : pk_represents h t m ->
  (forall peer k, (forall k', m !! k' <> Some peer) -> m !! k = None ->
     pk_represents h (wg_pubkey_hashtable_add h t peer k) (<[k := peer]> m)) /\
  (forall peer, pk_represents h (wg_pubkey_hashtable_remove t peer) (filter (fun kv => kv.2 <> peer) m)) /\
  (forall k alive, wg_pubkey_hashtable_lookup h t k alive = (x ← m !! k; if alive x then Some x else None)).
Proof.
  intros Hrep. pose proof Hrep as [Hok Hm]. ands.
  - intros p k. by apply pk_add_ok.
  - intros p. set (t' := wg_pubkey_hashtable_remove t p).
    assert (forall x, linked (pk_heads t') x <-> linked (pk_heads t) x /\ x <> p) as Hl by (intros; apply linked_del).
    split; [split|].
    + intros i x. cbn. rewrite bucket_del, list_elem_of_filter. intros [_ Hx]. by apply (pk_place _ _ Hok).
    + intros x y k [Hx _]%Hl [Hy _]%Hl. by apply (pk_unique _ _ Hok).
    + intros k x. rewrite map_lookup_filter_Some, Hm, Hl. cbn. tauto.
  - intros k alive. unfold wg_pubkey_hashtable_lookup. rewrite (pk_find h t m k Hrep). by destruct (m !! k).
Qed.

Lemma pubkey_hashtable_refines_witness :
  pk_represents (fun _ => 0) (wg_pubkey_hashtable_add (fun _ => 0) wg_pubkey_hashtable_alloc 3 [1; 2]) {[ [1; 2] := 3 ]}.
Proof.
  assert (pk_represents (fun _ => 0) wg_pubkey_hashtable_alloc ∅) as Hr.
  { assert (forall i, bucket (pk_heads wg_pubkey_hashtable_alloc) i = []) as Hb by (intros; apply bucket_empty).
    split; [split|].
    - intros i x. rewrite Hb. intros Hx. inversion Hx.
    - intros x y k [i Hx]. rewrite Hb in Hx. inversion Hx.
    - intros k x. rewrite lookup_empty. split; [done|]. intros [[i Hx] _]. rewrite Hb in Hx. inversion Hx. }
  destruct (pubkey_hashtable_refines (fun _ => 0) wg_pubkey_hashtable_alloc ∅ Hr) as (Hadd & _).
  apply Hadd; [intros k'; by rewrite lookup_empty|by rewrite lookup_empty].
Defined.

(** What an insertion leaves of the entry itself. *)
Lemma search_entry rnd : forall t x e r t', ix_entries t !! x = Some e -> search_unused_slot t x rnd = Some (r, t') ->
  ix_entries t' !! x = Some (IndexEntry (ie_peer e) (ie_type e) r).
Proof.
  induction rnd as [|r0 rnd IH]; intros t x e r t' He; [done|]. cbn [search_unused_slot].
  assert (ix_entries (set_index x r0 t) !! x = Some (IndexEntry (ie_peer e) (ie_type e) r0)) as He1 by (cbn; by rewrite lookup_alter_eq, He).
  destruct (index_used _ r0); [intros H; by apply (IH _ _ _ _ _ He1) in H|]. intros [= <- <-]. exact He1.
Qed.

Lemma insert_lookup t x e rnd r t' alive mask p : ix_ok t -> ix_entries t !! x = Some e -> wg_index_hashtable_insert t x rnd = Some (r, t') ->
  ie_peer e = Some p -> alive p = true -> Z.land (ie_type e) mask <> 0 ->
  (wg_index_hashtable_lookup t' mask r alive).1 = Some (x, p).
Proof.
  intros Hok He Hi Hp Ha Hm. pose proof (insert_ok t x rnd Hok ltac:(by rewrite He)) as Hs. rewrite Hi in Hs.
  destruct Hs as (_ & _ & Hok' & Hget). specialize (Hget r). rewrite decide_True in Hget by done.
  unfold wg_index_hashtable_lookup. fold (ix_get t' r). rewrite Hget.
  rewrite (search_entry rnd (wg_index_hashtable_remove t x) x e r t' He Hi). cbn. rewrite Hp, Ha. by destruct (Z.eqb_spec (Z.land (ie_type e) mask) 0).
Qed.
