(* ===== verification/Noise.v ===== *)
(** * The Noise handshake ([src/noise.c])

    Noise_IKpsk2 as the source runs it: the key schedule (HMAC and HKDF over
    BLAKE2s), the symmetric state (chaining key and hash), the creation and
    consumption of the two handshake messages with every early return and the
    fields left behind on it, and the derivation of the transport keys.  The
    primitives are an interface, [NoiseCrypto], with the laws the protocol
    relies on; random secrets and clocks are arguments, and the index and
    public-key tables are those of [PeerLookup].  A byte array is a list; the
    functions run under the locks of the source and are atomic here. *)

From S2P Require Import Prelude Messages MagicHeader PeerLookup.
From stdpp Require Import gmap list fin_maps.
#[local] Open Scope Z_scope.

(** ** Primitives *)

Class NoiseCrypto := {
  blake2s : list Z -> list Z;                               (* unkeyed, 32 bytes of output *)
  curve25519 : list Z -> list Z -> option (list Z);         (* [None]: the function returned false *)
  curve25519_generate_public : list Z -> option (list Z);
  curve25519_clamp_secret : list Z -> list Z;
  chacha20poly1305_encrypt : list Z -> list Z -> Z -> list Z -> list Z;
  chacha20poly1305_decrypt : list Z -> list Z -> Z -> list Z -> option (list Z)
}.

(** What the protocol needs of them: sizes, commutation of Diffie-Hellman on
    generated public keys, rejection of the zero point, clamping that does not
    change the public key of a secret that has one (the zero secret has none),
    and decryption of what was encrypted with the same key, nonce and
    associated data. *)
Class NoiseCryptoLaws `(C : NoiseCrypto) : Prop := {
  blake2s_len : forall m, len (blake2s m) = 32;
  dh_comm : forall a b pa pb, curve25519_generate_public a = Some pa -> curve25519_generate_public b = Some pb ->
    curve25519 a pb = curve25519 b pa;
  dh_nonzero : forall a p r, curve25519 a p = Some r -> r <> zeros NOISE_PUBLIC_KEY_LEN;
  clamp_public : forall a pa, curve25519_generate_public a = Some pa -> curve25519_generate_public (curve25519_clamp_secret a) = Some pa;
  aead_open_seal : forall p ad n k, chacha20poly1305_decrypt (chacha20poly1305_encrypt p ad n k) ad n k = Some p;
  public_len : forall a pa, curve25519_generate_public a = Some pa -> len pa = NOISE_PUBLIC_KEY_LEN;
  aead_seal_len : forall p ad n k, len (chacha20poly1305_encrypt p ad n k) = len p + NOISE_AUTHTAG_LEN;
  aead_open_len : forall c ad n k p, chacha20poly1305_decrypt c ad n k = Some p -> len p = len c - NOISE_AUTHTAG_LEN
}.

(** ** State *)

Record noise_static_identity := StaticIdentity {
  static_public : list Z;
  static_private : list Z;
  has_identity : bool
}.

Inductive noise_handshake_state :=
| HANDSHAKE_ZEROED
| HANDSHAKE_CREATED_INITIATION
| HANDSHAKE_CONSUMED_INITIATION
| HANDSHAKE_CREATED_RESPONSE
| HANDSHAKE_CONSUMED_RESPONSE.

#[global] Instance noise_handshake_state_eq_dec : EqDecision noise_handshake_state.
Proof. solve_decision. Defined.

Record noise_handshake := Handshake {
  hs_state : noise_handshake_state;
  last_initiation_consumption : Z;
  ephemeral_private : list Z;
  remote_static : list Z;
  remote_ephemeral : list Z;
  precomputed_static_static : list Z;
  preshared_key : list Z;
  hash : list Z;
  chaining_key : list Z;
  latest_timestamp : list Z;
  remote_index : Z
}.

(** The fields that change during a handshake. *)
Definition set_sym (ck h : list Z) (hs : noise_handshake) : noise_handshake :=
  Handshake (hs_state hs) (last_initiation_consumption hs) (ephemeral_private hs) (remote_static hs) (remote_ephemeral hs)
    (precomputed_static_static hs) (preshared_key hs) h ck (latest_timestamp hs) (remote_index hs).
Definition set_ephemeral (e : list Z) (hs : noise_handshake) : noise_handshake :=
  Handshake (hs_state hs) (last_initiation_consumption hs) e (remote_static hs) (remote_ephemeral hs)
    (precomputed_static_static hs) (preshared_key hs) (hash hs) (chaining_key hs) (latest_timestamp hs) (remote_index hs).
Definition set_state (s : noise_handshake_state) (hs : noise_handshake) : noise_handshake :=
  Handshake s (last_initiation_consumption hs) (ephemeral_private hs) (remote_static hs) (remote_ephemeral hs)
    (precomputed_static_static hs) (preshared_key hs) (hash hs) (chaining_key hs) (latest_timestamp hs) (remote_index hs).
Definition set_remote (e : list Z) (idx : Z) (hs : noise_handshake) : noise_handshake :=
  Handshake (hs_state hs) (last_initiation_consumption hs) (ephemeral_private hs) (remote_static hs) e
    (precomputed_static_static hs) (preshared_key hs) (hash hs) (chaining_key hs) (latest_timestamp hs) idx.
Definition set_times (t : list Z) (last : Z) (hs : noise_handshake) : noise_handshake :=
  Handshake (hs_state hs) last (ephemeral_private hs) (remote_static hs) (remote_ephemeral hs)
    (precomputed_static_static hs) (preshared_key hs) (hash hs) (chaining_key hs) t (remote_index hs).
Definition set_precomputed (p : list Z) (hs : noise_handshake) : noise_handshake :=
  Handshake (hs_state hs) (last_initiation_consumption hs) (ephemeral_private hs) (remote_static hs) (remote_ephemeral hs)
    p (preshared_key hs) (hash hs) (chaining_key hs) (latest_timestamp hs) (remote_index hs).

Record noise_symmetric_key := SymKey { sk_key : list Z; birthdate : Z; is_valid : bool }.

(** [memcmp]: the sign of the first difference. *)
Fixpoint memcmp (a b : list Z) : Z :=
  match a, b with
  | x :: a', y :: b' => if x <? y then -1 else if y <? x then 1 else memcmp a' b'
  | _, _ => 0
  end.

(** What the handshake functions use of a peer and of the device: the peers by
    address, and the address of each handshake's entry in the index table. *)
Record noise_peer := NoisePeer { np_handshake : noise_handshake; np_entry : Z; np_advanced_security : bool }.

Record noise_device := NoiseDevice {
  nd_identity : noise_static_identity;
  nd_advanced_security : bool;
  nd_header_init : magic_header;
  nd_pubkeys : pubkey_hashtable;
  nd_index : index_hashtable;
  nd_peers : gmap Z noise_peer
}.

Definition set_peer_hs (p : Z) (np : noise_peer) (wg : noise_device) : noise_device :=
  NoiseDevice (nd_identity wg) (nd_advanced_security wg) (nd_header_init wg) (nd_pubkeys wg) (nd_index wg) (<[p := np]> (nd_peers wg)).
Definition set_nd_index (t : index_hashtable) (wg : noise_device) : noise_device :=
  NoiseDevice (nd_identity wg) (nd_advanced_security wg) (nd_header_init wg) (nd_pubkeys wg) t (nd_peers wg).

Section Noise.

Context `{C : NoiseCrypto}.

(** ** Key schedule *)

Definition BLAKE2S_BLOCK_SIZE : Z := 64.
Definition BLAKE2S_HASH_SIZE : Z := 32.

(** [memcpy] of [src] over the start of an array. *)
Definition overwrite (src dst : list Z) : list Z := src ++ skipn (length src) dst.

Definition hmac (inp key : list Z) : list Z :=
  let x_key := zeros BLAKE2S_BLOCK_SIZE in
  let x_key := if BLAKE2S_BLOCK_SIZE <? len key then overwrite (blake2s key) x_key else overwrite key x_key in
  let x_key := map (fun b => Z.lxor b 0x36) x_key in
  let i_hash := blake2s (x_key ++ inp) in
  let x_key := map (fun b => Z.lxor b (Z.lxor 0x5c 0x36)) x_key in
  blake2s (x_key ++ i_hash).

(** [kdf]: a destination is given by its length, [None] for [NULL]; the
    result is what is stored through each of them. *)
Definition wanted (dst : option Z) : bool := match dst with Some n => negb (n =? 0) | None => false end.
Definition stored (dst : option Z) (out : list Z) : list Z := firstn (Z.to_nat (default 0 dst)) out.

Definition kdf (first second third : option Z) (data ck : list Z) : option (list Z) * option (list Z) * option (list Z) :=
  let secret := hmac data ck in
  if negb (wanted first) then (None, None, None)
  else
    let out1 := hmac [1] secret in
    if negb (wanted second) then (Some (stored first out1), None, None)
    else
      let out2 := hmac (out1 ++ [2]) secret in
      if negb (wanted third) then (Some (stored first out1), Some (stored second out2), None)
      else
        let out3 := hmac (out2 ++ [3]) secret in
        (Some (stored first out1), Some (stored second out2), Some (stored third out3)).

(** The uses of [kdf] in the handshake. *)
Definition kdf1 (data ck : list Z) : list Z := default [] (kdf (Some NOISE_HASH_LEN) None None data ck).1.1.
Definition kdf2 (data ck : list Z) : list Z * list Z :=
  let r := kdf (Some NOISE_HASH_LEN) (Some NOISE_SYMMETRIC_KEY_LEN) None data ck in (default [] r.1.1, default [] r.1.2).
Definition kdf3 (data ck : list Z) : list Z * list Z * list Z :=
  let r := kdf (Some NOISE_HASH_LEN) (Some NOISE_HASH_LEN) (Some NOISE_SYMMETRIC_KEY_LEN) data ck in
  (default [] r.1.1, default [] r.1.2, default [] r.2).

Definition derive_keys (ck : list Z) (now : Z) : noise_symmetric_key * noise_symmetric_key :=
  let '(k1, k2) := kdf2 [] ck in (SymKey k1 now true, SymKey k2 now true).

(** ** Symmetric state *)

Definition mix_hash (h src : list Z) : list Z := blake2s (h ++ src).

(** The new chaining key and the key; [None] when the function returns false. *)
Definition mix_dh (ck private public : list Z) : option (list Z * list Z) :=
  match curve25519 private public with
  | None => None
  | Some dh => Some (kdf2 dh ck)
  end.
(** With [NULL] for the key. *)
Definition mix_dh_nokey (ck private public : list Z) : option (list Z) :=
  match curve25519 private public with
  | None => None
  | Some dh => Some (kdf1 dh ck)
  end.

Definition mix_precomputed_dh (ck precomputed : list Z) : option (list Z * list Z) :=
  if bool_decide (precomputed = zeros NOISE_PUBLIC_KEY_LEN) then None else Some (kdf2 precomputed ck).

Definition mix_psk (ck h psk : list Z) : list Z * list Z * list Z :=
  let '(ck', temp_hash, key) := kdf3 psk ck in (ck', mix_hash h temp_hash, key).

Definition handshake_name : list Z := B "Noise_IKpsk2_25519_ChaChaPoly_BLAKE2s".
Definition identifier_name : list Z := B "WireGuard v1 zx2c4 Jason@zx2c4.com".

(** [wg_noise_init] *)
Definition handshake_init_chaining_key : list Z := blake2s handshake_name.
Definition handshake_init_hash : list Z := blake2s (handshake_init_chaining_key ++ identifier_name).

Definition handshake_init (remote : list Z) : list Z * list Z :=
  (handshake_init_chaining_key, mix_hash handshake_init_hash remote).

Definition message_encrypt (src key h : list Z) : list Z * list Z :=
  let ct := chacha20poly1305_encrypt src h 0 key in (ct, mix_hash h ct).
Definition message_decrypt (src key h : list Z) : option (list Z * list Z) :=
  match chacha20poly1305_decrypt src h 0 key with
  | None => None
  | Some pt => Some (pt, mix_hash h src)
  end.

Definition message_ephemeral (e ck h : list Z) : list Z * list Z := (kdf1 e ck, mix_hash h e).

(** Big-endian bytes of an unsigned integer. *)
Fixpoint be_bytes (n : nat) (x : Z) : list Z :=
  match n with O => [] | S n' => Z.shiftr x (8 * Z.of_nat n') mod 256 :: be_bytes n' x end.

(** [rounddown_pow_of_two] *)
Definition rounddown_pow_of_two (n : Z) : Z := 2 ^ Z.log2 n.

(** [tai64n_now] for the wall clock [tv_sec], [tv_nsec]. *)
Definition tai64n_now (tv_sec tv_nsec : Z) : list Z :=
  let g := rounddown_pow_of_two (NSEC_PER_SEC / INITIATIONS_PER_SECOND) in
  let ns := tv_nsec - tv_nsec mod g in
  be_bytes 8 (u64 (0x400000000000000a + tv_sec)) ++ be_bytes 4 (u32 ns).

(** ** Identities *)

Definition wg_noise_set_static_identity_private_key (id : noise_static_identity) (private_key : list Z) : noise_static_identity :=
  match curve25519_generate_public private_key with
  | Some pub => StaticIdentity pub (curve25519_clamp_secret private_key) true
  | None => StaticIdentity (static_public id) (curve25519_clamp_secret private_key) false
  end.

Definition wg_noise_precompute_static_static (id : noise_static_identity) (hs : noise_handshake) : noise_handshake :=
  set_precomputed
    (if has_identity id then default (zeros NOISE_PUBLIC_KEY_LEN) (curve25519 (static_private id) (remote_static hs))
     else zeros NOISE_PUBLIC_KEY_LEN) hs.

Definition wg_noise_handshake_init (id : noise_static_identity) (peer_public_key : list Z) (psk : option (list Z)) : noise_handshake :=
  wg_noise_precompute_static_static id
    (Handshake HANDSHAKE_ZEROED 0 (zeros NOISE_PUBLIC_KEY_LEN) peer_public_key (zeros NOISE_PUBLIC_KEY_LEN)
       (zeros NOISE_PUBLIC_KEY_LEN) (default (zeros NOISE_SYMMETRIC_KEY_LEN) psk) (zeros NOISE_HASH_LEN) (zeros NOISE_HASH_LEN)
       (zeros NOISE_TIMESTAMP_LEN) 0).

Definition handshake_zero (hs : noise_handshake) : noise_handshake :=
  set_state HANDSHAKE_ZEROED (set_remote (zeros NOISE_PUBLIC_KEY_LEN) 0
    (set_ephemeral (zeros NOISE_PUBLIC_KEY_LEN) (set_sym (zeros NOISE_HASH_LEN) (zeros NOISE_HASH_LEN) hs))).

Definition wg_noise_handshake_clear (entry : Z) (tbl : index_hashtable) (hs : noise_handshake) : index_hashtable * noise_handshake :=
  (wg_index_hashtable_remove tbl entry, handshake_zero hs).

(** ** The first message *)

Definition no_macs : message_macs := {| mac1 := zeros COOKIE_LEN; mac2 := zeros COOKIE_LEN |}.

(** [wg_noise_handshake_create_initiation] with the ephemeral secret drawn by
    [curve25519_generate_secret] and the wall clock.  The message is [None]
    when the function returns false; the whole result is [None] while the
    search for a free index goes on.  The MACs are filled in by the caller. *)
Definition wg_noise_handshake_create_initiation (id : noise_static_identity) (hs : noise_handshake) (message_type : Z)
    (secret : list Z) (tv_sec tv_nsec : Z) (tbl : index_hashtable) (entry : Z) (rnd : list Z) :
    option (option message_handshake_initiation * noise_handshake * index_hashtable) :=
  if negb (has_identity id) then Some (None, hs, tbl)
  else
    let '(ck, h) := handshake_init (remote_static hs) in
    let hs := set_ephemeral secret (set_sym ck h hs) in
    match curve25519_generate_public secret with
    | None => Some (None, hs, tbl)
    | Some e =>
        let '(ck, h) := message_ephemeral e ck h in
        let hs := set_sym ck h hs in
        match mix_dh ck secret (remote_static hs) with
        | None => Some (None, hs, tbl)
        | Some (ck, key) =>
            let '(es, h) := message_encrypt (static_public id) key h in
            let hs := set_sym ck h hs in
            match mix_precomputed_dh ck (precomputed_static_static hs) with
            | None => Some (None, hs, tbl)
            | Some (ck, key) =>
                let '(et, h) := message_encrypt (tai64n_now tv_sec tv_nsec) key h in
                let hs := set_sym ck h hs in
                match wg_index_hashtable_insert tbl entry rnd with
                | None => None
                | Some (idx, tbl) =>
                    Some (Some {| mi_type := message_type; mi_sender_index := idx; mi_unencrypted_ephemeral := e;
                                  mi_encrypted_static := es; mi_encrypted_timestamp := et; mi_macs := no_macs |},
                          set_state HANDSHAKE_CREATED_INITIATION hs, tbl)
                end
            end
        end
    end.

(** The result of consuming an initiation: the peer, the device, and the public
    key announced to user space as an unknown peer. *)
Definition consumed : Type := option Z * noise_device * option (list Z).

(** What the two clock readings and the timestamp decide. *)
Definition replay_attack (t : list Z) (hs : noise_handshake) : bool := memcmp t (latest_timestamp hs) <=? 0.
Definition flood_attack (now : Z) (hs : noise_handshake) : bool :=
  s64 now <? s64 (last_initiation_consumption hs) + NSEC_PER_SEC / INITIATIONS_PER_SECOND.

(** The copy into the peer's handshake on success. *)
Definition accept_initiation (e t ck h : list Z) (idx now : Z) (hs : noise_handshake) : noise_handshake :=
  let t' := if 0 <? memcmp t (latest_timestamp hs) then t else latest_timestamp hs in
  let last := if s64 (u64 (last_initiation_consumption hs - now)) <? 0 then now else last_initiation_consumption hs in
  set_state HANDSHAKE_CONSUMED_INITIATION (set_times t' last (set_sym ck h (set_remote e idx hs))).

(** [wg_noise_handshake_consume_initiation]; [skb_type] is the type field of the
    packet, [endpoint] whether the allocation at its start succeeded and
    [endpoint_ok] whether the packet has a valid source, [now] and [now'] the
    two readings of the clock.  [None] is a write through a null pointer. *)
Definition wg_noise_handshake_consume_initiation (siphash : list Z -> Z) (wg : noise_device) (src : message_handshake_initiation)
    (skb_type : Z) (endpoint endpoint_ok : bool) (alive : Z -> bool) (now now' : Z) : option consumed :=
  let advanced := nd_advanced_security wg && mh_validate skb_type (nd_header_init wg) in
  let id := nd_identity wg in
  let out wg := Some (None, wg, None) in
  if negb (has_identity id) then out wg
  else
    let '(ck, h) := handshake_init (static_public id) in
    let e := mi_unencrypted_ephemeral src in
    let '(ck, h) := message_ephemeral e ck h in
    match mix_dh ck (static_private id) e with
    | None => out wg
    | Some (ck, key) =>
        match message_decrypt (mi_encrypted_static src) key h with
        | None => out wg
        | Some (s, h) =>
            match wg_pubkey_hashtable_lookup siphash (nd_pubkeys wg) s alive with
            | None => if endpoint then Some (None, wg, if endpoint_ok then Some s else None) else None
            | Some p =>
                match nd_peers wg !! p with
                | None => None
                | Some np =>
                    let hs := np_handshake np in
                    let wg := set_peer_hs p (NoisePeer hs (np_entry np) advanced) wg in
                    match mix_precomputed_dh ck (precomputed_static_static hs) with
                    | None => out wg
                    | Some (ck, key) =>
                        match message_decrypt (mi_encrypted_timestamp src) key h with
                        | None => out wg
                        | Some (t, h) =>
                            if replay_attack t hs || flood_attack now hs then out wg
                            else
                              let hs := accept_initiation e t ck h (mi_sender_index src) now' hs in
                              Some (Some p, set_peer_hs p (NoisePeer hs (np_entry np) advanced) wg, None)
                        end
                    end
                end
            end
        end
    end.

(** ** The second message *)

Definition wg_noise_handshake_create_response (hs : noise_handshake) (message_type : Z) (secret : list Z)
    (tbl : index_hashtable) (entry : Z) (rnd : list Z) :
    option (option message_handshake_response * noise_handshake * index_hashtable) :=
  if negb (bool_decide (hs_state hs = HANDSHAKE_CONSUMED_INITIATION)) then Some (None, hs, tbl)
  else
    let hs := set_ephemeral secret hs in
    match curve25519_generate_public secret with
    | None => Some (None, hs, tbl)
    | Some e =>
        let '(ck, h) := message_ephemeral e (chaining_key hs) (hash hs) in
        let hs := set_sym ck h hs in
        match mix_dh_nokey ck secret (remote_ephemeral hs) with
        | None => Some (None, hs, tbl)
        | Some ck =>
            let hs := set_sym ck h hs in
            match mix_dh_nokey ck secret (remote_static hs) with
            | None => Some (None, hs, tbl)
            | Some ck =>
                let '(ck, h, key) := mix_psk ck h (preshared_key hs) in
                let '(en, h) := message_encrypt [] key h in
                let hs := set_sym ck h hs in
                match wg_index_hashtable_insert tbl entry rnd with
                | None => None
                | Some (idx, tbl) =>
                    Some (Some {| mr_type := message_type; mr_sender_index := idx; mr_receiver_index := remote_index hs;
                                  mr_unencrypted_ephemeral := e; mr_encrypted_nothing := en; mr_macs := no_macs |},
                          set_state HANDSHAKE_CREATED_RESPONSE hs, tbl)
                end
            end
        end
    end.

(** The computation of [consume_response] on copies of the handshake's fields. *)
Definition check_response (id : noise_static_identity) (hs : noise_handshake) (src : message_handshake_response) : option (list Z * list Z) :=
  let e := mr_unencrypted_ephemeral src in
  let '(ck, h) := message_ephemeral e (chaining_key hs) (hash hs) in
  match mix_dh_nokey ck (ephemeral_private hs) e with
  | None => None
  | Some ck =>
      match mix_dh_nokey ck (static_private id) e with
      | None => None
      | Some ck =>
          let '(ck, h, key) := mix_psk ck h (preshared_key hs) in
          match message_decrypt (mr_encrypted_nothing src) key h with
          | None => None
          | Some (_, h) => Some (ck, h)
          end
      end
  end.

(** [wg_noise_handshake_consume_response]; [None] is a dangling peer. *)
Definition wg_noise_handshake_consume_response (wg : noise_device) (src : message_handshake_response) (alive : Z -> bool) :
    option (option Z * noise_device) :=
  if negb (has_identity (nd_identity wg)) then Some (None, wg)
  else
    let '(found, tbl) := wg_index_hashtable_lookup (nd_index wg) INDEX_HASHTABLE_HANDSHAKE (mr_receiver_index src) alive in
    let wg := set_nd_index tbl wg in
    match found with
    | None => Some (None, wg)
    | Some (_, p) =>
        match nd_peers wg !! p with
        | None => None
        | Some np =>
            let hs := np_handshake np in
            if negb (bool_decide (hs_state hs = HANDSHAKE_CREATED_INITIATION)) then Some (None, wg)
            else
              match check_response (nd_identity wg) hs src with
              | None => Some (None, wg)
              | Some (ck, h) =>
                  let hs := set_sym ck h (set_remote (mr_unencrypted_ephemeral src) (mr_sender_index src) hs) in
                  let hs := set_state HANDSHAKE_CONSUMED_RESPONSE hs in
                  Some (Some p, set_peer_hs p (NoisePeer hs (np_entry np) (np_advanced_security np)) wg)
              end
        end
    end.

(** ** Transport keys *)

(** The keys of [wg_noise_handshake_begin_session]: whether this side is the
    initiator, its sending and its receiving key. *)
Definition session_keys (hs : noise_handshake) (now : Z) : option (bool * noise_symmetric_key * noise_symmetric_key) :=
  match hs_state hs with
  | HANDSHAKE_CONSUMED_RESPONSE => let '(a, b) := derive_keys (chaining_key hs) now in Some (true, a, b)
  | HANDSHAKE_CREATED_RESPONSE => let '(a, b) := derive_keys (chaining_key hs) now in Some (false, b, a)
  | _ => None
  end.

End Noise.

(** * Agreement *)

Section Agreement.

Context `{L : NoiseCryptoLaws}.

(** An identity whose public key belongs to its private key. *)
Definition identity_ok (id : noise_static_identity) : Prop :=
  has_identity id = true /\ curve25519_generate_public (static_private id) = Some (static_public id).

(** A handshake between two identities, as [wg_noise_handshake_init] sets it up. *)
Definition paired (id rid : noise_static_identity) (hs : noise_handshake) : Prop :=
  remote_static hs = static_public rid /\
  precomputed_static_static hs = precomputed_static_static (wg_noise_precompute_static_static id hs).

Lemma identity_set id k : has_identity (wg_noise_set_static_identity_private_key id k) = true ->
  identity_ok (wg_noise_set_static_identity_private_key id k).
Proof.
  unfold wg_noise_set_static_identity_private_key, identity_ok. destruct (curve25519_generate_public k) as [pub|] eqn:E; [|done].
  cbn. by rewrite (clamp_public _ _ E).
Qed.

Lemma paired_init id rid psk : paired id rid (wg_noise_handshake_init id (static_public rid) psk).
Proof. done. Qed.

Lemma static_static idI idR hsI hsR : identity_ok idI -> identity_ok idR -> paired idI idR hsI -> paired idR idI hsR ->
  precomputed_static_static hsI = precomputed_static_static hsR.
Proof.
  intros [HI1 HI2] [HR1 HR2] [Hr1 ->] [Hr2 ->]. cbn. rewrite HI1, HR1, Hr1, Hr2. by rewrite (dh_comm _ _ _ _ HI2 HR2).
Qed.

(** The first message and the symmetric state after it, from the public keys,
    the ephemeral key and the two shared secrets. *)
Definition transcript1 (pubI pubR e dh pre t : list Z) : list Z * list Z * list Z * list Z :=
  let '(ck, h) := handshake_init pubR in
  let '(ck, h) := message_ephemeral e ck h in
  let '(ck, key) := kdf2 dh ck in
  let '(es, h) := message_encrypt pubI key h in
  let '(ck, key) := kdf2 pre ck in
  let '(et, h) := message_encrypt t key h in
  (es, et, ck, h).

(** The second message and the state after it, from the state before, the
    responder's ephemeral key, the two shared secrets and the preshared key. *)
Definition transcript2 (ck h e ee se psk : list Z) : list Z * list Z * list Z :=
  let '(ck, h) := message_ephemeral e ck h in
  let ck := kdf1 ee ck in
  let ck := kdf1 se ck in
  let '(ck, h, key) := mix_psk ck h psk in
  let '(en, h) := message_encrypt [] key h in
  (en, ck, h).

Lemma create_initiation_inv id hs ty secret sec nsec tbl entry rnd m hs' tbl' :
  wg_noise_handshake_create_initiation id hs ty secret sec nsec tbl entry rnd = Some (Some m, hs', tbl') ->
  exists e dh idx es et ck h, has_identity id = true /\ curve25519_generate_public secret = Some e /\ curve25519 secret (remote_static hs) = Some dh /\
    precomputed_static_static hs <> zeros NOISE_PUBLIC_KEY_LEN /\ wg_index_hashtable_insert tbl entry rnd = Some (idx, tbl') /\
    transcript1 (static_public id) (remote_static hs) e dh (precomputed_static_static hs) (tai64n_now sec nsec) = (es, et, ck, h) /\
    m = {| mi_type := ty; mi_sender_index := idx; mi_unencrypted_ephemeral := e; mi_encrypted_static := es;
           mi_encrypted_timestamp := et; mi_macs := no_macs |} /\
    hs' = set_state HANDSHAKE_CREATED_INITIATION (set_sym ck h (set_ephemeral secret hs)).
Proof.
  unfold wg_noise_handshake_create_initiation, mix_dh, mix_precomputed_dh, message_ephemeral.
  destruct (has_identity id); cbn [negb]; [|done]. destruct (handshake_init (remote_static hs)) as [ck0 h0] eqn:E0.
  destruct (curve25519_generate_public secret) as [e|]; [|done]. cbn [remote_static precomputed_static_static set_sym set_ephemeral].
  destruct (curve25519 secret (remote_static hs)) as [dh|]; [|done]. destruct (kdf2 dh (kdf1 e ck0)) as [ck2 k2] eqn:E1.
  destruct (message_encrypt (static_public id) k2 (mix_hash h0 e)) as [es h2] eqn:E2.
  case_bool_decide as Hz; [done|]. destruct (kdf2 (precomputed_static_static hs) ck2) as [ck3 k3] eqn:E3.
  destruct (message_encrypt (tai64n_now sec nsec) k3 h2) as [et h3] eqn:E4.
  destruct (wg_index_hashtable_insert tbl entry rnd) as [[idx tbl1]|]; [|done]. intros [= <- <- <-].
  exists e, dh, idx, es, et, ck3, h3. ands; try done. unfold transcript1, message_ephemeral. by rewrite E0, E1, E2, E3, E4.
Qed.

(** The responder follows the initiator. *)
Lemma consume_initiation_run siphash wg m skb_type endpoint endpoint_ok alive now now' idI e dh pre t es et ck h p np :
  has_identity (nd_identity wg) = true ->
  mi_unencrypted_ephemeral m = e -> curve25519 (static_private (nd_identity wg)) e = Some dh ->
  transcript1 (static_public idI) (static_public (nd_identity wg)) e dh pre t = (es, et, ck, h) ->
  mi_encrypted_static m = es -> mi_encrypted_timestamp m = et ->
  wg_pubkey_hashtable_lookup siphash (nd_pubkeys wg) (static_public idI) alive = Some p -> nd_peers wg !! p = Some np ->
  precomputed_static_static (np_handshake np) = pre -> pre <> zeros NOISE_PUBLIC_KEY_LEN ->
  replay_attack t (np_handshake np) = false -> flood_attack now (np_handshake np) = false ->
  exists wg', wg_noise_handshake_consume_initiation siphash wg m skb_type endpoint endpoint_ok alive now now' = Some (Some p, wg', None) /\
    nd_index wg' = nd_index wg /\
    exists adv, nd_peers wg' !! p = Some (NoisePeer (accept_initiation e t ck h (mi_sender_index m) now' (np_handshake np)) (np_entry np) adv).
Proof.
  intros Hid He Hdh Htr Hes Het Hlook Hnp Hpre Hnz Hrep Hfl.
  unfold wg_noise_handshake_consume_initiation, mix_dh, mix_precomputed_dh, message_ephemeral. rewrite Hid, He. cbn [negb].
  unfold transcript1, message_ephemeral in Htr. destruct (handshake_init (static_public (nd_identity wg))) as [ck0 h0]. rewrite Hdh.
  destruct (kdf2 dh (kdf1 e ck0)) as [ck2 k2]. unfold message_encrypt, message_decrypt in *.
  destruct (kdf2 pre ck2) as [ck3 k3] eqn:E3. injection Htr as <- <- <- <-. rewrite Hes, aead_open_seal, Hlook, Hnp, Hpre.
  rewrite bool_decide_false by done. rewrite E3, Het, aead_open_seal, Hrep, Hfl. cbn [orb].
  eexists. split; [done|]. split; [done|]. eexists. cbn. by rewrite lookup_insert_eq.
Qed.

Lemma create_response_inv hs ty secret tbl entry rnd m hs' tbl' :
  wg_noise_handshake_create_response hs ty secret tbl entry rnd = Some (Some m, hs', tbl') ->
  exists e ee se idx en ck h, hs_state hs = HANDSHAKE_CONSUMED_INITIATION /\ curve25519_generate_public secret = Some e /\
    curve25519 secret (remote_ephemeral hs) = Some ee /\ curve25519 secret (remote_static hs) = Some se /\
    wg_index_hashtable_insert tbl entry rnd = Some (idx, tbl') /\
    transcript2 (chaining_key hs) (hash hs) e ee se (preshared_key hs) = (en, ck, h) /\
    m = {| mr_type := ty; mr_sender_index := idx; mr_receiver_index := remote_index hs; mr_unencrypted_ephemeral := e;
           mr_encrypted_nothing := en; mr_macs := no_macs |} /\
    hs' = set_state HANDSHAKE_CREATED_RESPONSE (set_sym ck h (set_ephemeral secret hs)).
Proof.
  unfold wg_noise_handshake_create_response, mix_dh_nokey, message_ephemeral. case_bool_decide as Hs; cbn [negb]; [|done].
  destruct (curve25519_generate_public secret) as [e|]; [|done].
  cbn [remote_static remote_ephemeral set_sym set_ephemeral chaining_key hash preshared_key].
  destruct (curve25519 secret (remote_ephemeral hs)) as [ee|]; [|done].
  destruct (curve25519 secret (remote_static hs)) as [se|]; [|done].
  destruct (mix_psk _ _ _) as [[ck3 h3] k3] eqn:E3. destruct (message_encrypt [] k3 h3) as [en h4] eqn:E4.
  destruct (wg_index_hashtable_insert tbl entry rnd) as [[idx tbl1]|]; [|done]. intros [= <- <- <-].
  exists e, ee, se, idx, en, ck3, h4. ands; try done. unfold transcript2, message_ephemeral. by rewrite E3, E4.
Qed.

(** The initiator follows the responder. *)
Lemma check_response_run id hs m e ee se en ck h :
  mr_unencrypted_ephemeral m = e -> mr_encrypted_nothing m = en ->
  curve25519 (ephemeral_private hs) e = Some ee -> curve25519 (static_private id) e = Some se ->
  transcript2 (chaining_key hs) (hash hs) e ee se (preshared_key hs) = (en, ck, h) ->
  check_response id hs m = Some (ck, h).
Proof.
  intros He Hen Hee Hse Htr. unfold check_response, mix_dh_nokey, message_ephemeral. rewrite He, Hen, Hee, Hse.
  unfold transcript2, message_ephemeral in Htr. destruct (mix_psk _ _ _) as [[ck3 h3] k3].
  unfold message_encrypt, message_decrypt in *. injection Htr as <- <- <-. by rewrite aead_open_seal.
Qed.

Lemma accept_fields e t ck h idx now hs :
  let hs' := accept_initiation e t ck h idx now hs in
  hs_state hs' = HANDSHAKE_CONSUMED_INITIATION /\ chaining_key hs' = ck /\ hash hs' = h /\ remote_ephemeral hs' = e /\
  remote_static hs' = remote_static hs /\ preshared_key hs' = preshared_key hs /\ remote_index hs' = idx.
Proof. done. Qed.

(** The responder's side of the agreement. *)
Lemma response_agrees idI (hsI1 hsR1 : noise_handshake) eI ty secret tbl entry rnd m hsR2 tbl' :
  identity_ok idI -> curve25519_generate_public (ephemeral_private hsI1) = Some eI ->
  remote_ephemeral hsR1 = eI -> remote_static hsR1 = static_public idI -> preshared_key hsR1 = preshared_key hsI1 ->
  chaining_key hsR1 = chaining_key hsI1 -> hash hsR1 = hash hsI1 ->
  wg_noise_handshake_create_response hsR1 ty secret tbl entry rnd = Some (Some m, hsR2, tbl') ->
  check_response idI hsI1 m = Some (chaining_key hsR2, hash hsR2) /\ hs_state hsR2 = HANDSHAKE_CREATED_RESPONSE /\
  mr_receiver_index m = remote_index hsR1 /\ remote_index hsR2 = remote_index hsR1.
Proof.
  intros [_ HI] HeI Hre Hrs Hpsk Hck Hh Hr.
  apply create_response_inv in Hr as (e & ee & se & idx & en & ck & h & _ & He & Hee & Hse & _ & Htr & -> & ->).
  rewrite Hre in Hee. rewrite Hrs in Hse. split; [|done]. rewrite Hck, Hh, Hpsk in Htr.
  apply (check_response_run idI hsI1 _ e ee se en); try done.
  - by rewrite (dh_comm _ _ _ _ HeI He).
  - by rewrite (dh_comm _ _ _ _ HI He).
Qed.

Lemma session_keys_agree hsI hsR now now' : hs_state hsI = HANDSHAKE_CONSUMED_RESPONSE -> hs_state hsR = HANDSHAKE_CREATED_RESPONSE ->
  chaining_key hsI = chaining_key hsR ->
  exists sI rI sR rR, session_keys hsI now = Some (true, sI, rI) /\ session_keys hsR now' = Some (false, sR, rR) /\
    sk_key sI = sk_key rR /\ sk_key rI = sk_key sR.
Proof.
  intros HI HR Hck. unfold session_keys, derive_keys. rewrite HI, HR, Hck. destruct (kdf2 [] (chaining_key hsR)) as [k1 k2]. by eexists _, _, _, _.
Qed.

End Agreement.

(** * Timestamps *)

Lemma memcmp_refl a : memcmp a a = 0.
Proof. induction a as [|x a IH]; [done|]. cbn. destruct (Z.ltb_spec x x); [lia|done]. Qed.

Lemma memcmp_trans a : forall b c, length a = length b -> length b = length c -> memcmp a b <= 0 -> memcmp b c <= 0 -> memcmp a c <= 0.
Proof.
  induction a as [|x a IH]; intros [|y b] [|z c] H1 H2; try done. cbn in *.
  destruct (Z.ltb_spec x y), (Z.ltb_spec y x), (Z.ltb_spec y z), (Z.ltb_spec z y), (Z.ltb_spec x z), (Z.ltb_spec z x); try lia.
  intros. apply (IH b c); lia.
Qed.

Lemma memcmp_sign a : forall b, length a = length b -> memcmp b a = - memcmp a b.
Proof.
  induction a as [|x a IH]; intros [|y b] H; try done. cbn in *. destruct (Z.ltb_spec x y), (Z.ltb_spec y x); try lia. apply IH. lia.
Qed.

Lemma be_bytes_length n x : length (be_bytes n x) = n.
Proof. induction n as [|n IH]; [done|]. cbn. by rewrite IH. Qed.

(** Big-endian byte strings compare like the numbers. *)
Lemma memcmp_be n : forall x y, 0 <= x < 256 ^ Z.of_nat n -> 0 <= y < 256 ^ Z.of_nat n ->
  (x < y -> memcmp (be_bytes n x) (be_bytes n y) < 0) /\ (x = y -> memcmp (be_bytes n x) (be_bytes n y) = 0).
Proof.
  induction n as [|n IH]; intros x y Hx Hy; [cbn in *; lia|]. split; [|intros ->; apply memcmp_refl]. intros Hlt. cbn [be_bytes memcmp].
  rewrite Nat2Z.inj_succ, Z.pow_succ_r in Hx, Hy by lia. set (m := 256 ^ Z.of_nat n) in *. assert (0 < m) by (unfold m; lia).
  assert (forall z, Z.shiftr z (8 * Z.of_nat n) = z / m) as Hsh.
  { intros z. rewrite Z.shiftr_div_pow2 by lia. f_equal. unfold m. rewrite Z.pow_mul_r by lia. done. }
  rewrite !Hsh. assert (0 <= x / m < 256) by (split; [apply Z.div_pos; lia|apply Z.div_lt_upper_bound; lia]).
  assert (0 <= y / m < 256) by (split; [apply Z.div_pos; lia|apply Z.div_lt_upper_bound; lia]). rewrite !(Z.mod_small _ 256) by lia.
  assert (x / m <= y / m) by (apply Z.div_le_mono; lia).
  destruct (Z.ltb_spec (x / m) (y / m)) as [|Hge]; [lia|]. destruct (Z.ltb_spec (y / m) (x / m)) as [|_]; [lia|].
  assert (forall z, be_bytes n z = be_bytes n (z mod m)) as Hmod.
  { intros z. unfold m. clear -n. assert (forall j, (j <= n)%nat -> be_bytes j z = be_bytes j (z mod 256 ^ Z.of_nat n)) as H; [|by apply H].
    induction j as [|j IH]; intros Hj; [done|]. cbn [be_bytes]. f_equal; [|apply IH; lia].
    rewrite !Z.shiftr_div_pow2 by lia. change 256 with (2 ^ 8). rewrite <- Z.pow_mul_r by lia.
    rewrite <- !Z.land_ones, <- !Z.shiftr_div_pow2 by lia. apply Z.bits_inj'. intros i Hi.
    rewrite !Z.land_spec, !Z.shiftr_spec, Z.land_spec by lia.
    destruct (Z.lt_ge_cases i 8); [|by rewrite (Z.ones_spec_high 8), !andb_false_r by lia].
    rewrite (Z.ones_spec_low (8 * Z.of_nat n)) by lia. by rewrite andb_true_r. }
  rewrite (Hmod x), (Hmod y). pose proof (Z.mod_pos_bound x m). pose proof (Z.mod_pos_bound y m).
  pose proof (Z.div_mod x m). pose proof (Z.div_mod y m). assert (x / m = y / m) as Eq by lia. rewrite Eq in *.
  apply (IH (x mod m) (y mod m)); lia.
Qed.

Lemma memcmp_app a1 b1 a2 b2 : length a1 = length b1 -> memcmp (a1 ++ a2) (b1 ++ b2) = if memcmp a1 b1 =? 0 then memcmp a2 b2 else memcmp a1 b1.
Proof.
  revert b1. induction a1 as [|x a1 IH]; intros [|y b1] H; try done. cbn in *. destruct (Z.ltb_spec x y); [done|]. destruct (Z.ltb_spec y x); [done|].
  apply IH. lia.
Qed.

(** * The life of a device's handshakes *)

Section Steps.

Context `{L : NoiseCryptoLaws} (siphash : list Z -> Z).

(** A message of the right format. *)
Definition initiation_ok (m : message_handshake_initiation) : Prop :=
  len (mi_encrypted_timestamp m) = noise_encrypted_len NOISE_TIMESTAMP_LEN.

(** One run of a handshake function on a device: any message may arrive
    (with the clock, in nanoseconds since boot, below [2 ^ 63]), any
    message may be created, a handshake may be cleared, or zeroed when its
    session begins (which also moves its entry of the index table). *)
Inductive noise_step : noise_device -> noise_device -> Prop :=
| step_consume_initiation wg m ty endpoint endpoint_ok alive now now' r wg' n : initiation_ok m -> 0 <= now' < 2 ^ 63 ->
    wg_noise_handshake_consume_initiation siphash wg m ty endpoint endpoint_ok alive now now' = Some (r, wg', n) -> noise_step wg wg'
| step_consume_response wg m alive r wg' :
    wg_noise_handshake_consume_response wg m alive = Some (r, wg') -> noise_step wg wg'
| step_create_initiation wg p np ty secret sec nsec rnd m hs tbl : nd_peers wg !! p = Some np ->
    wg_noise_handshake_create_initiation (nd_identity wg) (np_handshake np) ty secret sec nsec (nd_index wg) (np_entry np) rnd = Some (m, hs, tbl) ->
    noise_step wg (set_nd_index tbl (set_peer_hs p (NoisePeer hs (np_entry np) (np_advanced_security np)) wg))
| step_create_response wg p np ty secret rnd m hs tbl : nd_peers wg !! p = Some np ->
    wg_noise_handshake_create_response (np_handshake np) ty secret (nd_index wg) (np_entry np) rnd = Some (m, hs, tbl) ->
    noise_step wg (set_nd_index tbl (set_peer_hs p (NoisePeer hs (np_entry np) (np_advanced_security np)) wg))
| step_clear wg p np : nd_peers wg !! p = Some np ->
    noise_step wg (set_nd_index (wg_noise_handshake_clear (np_entry np) (nd_index wg) (np_handshake np)).1
      (set_peer_hs p (NoisePeer (wg_noise_handshake_clear (np_entry np) (nd_index wg) (np_handshake np)).2 (np_entry np) (np_advanced_security np)) wg))
| step_session wg p np tbl : nd_peers wg !! p = Some np ->
    noise_step wg (set_nd_index tbl (set_peer_hs p (NoisePeer (handshake_zero (np_handshake np)) (np_entry np) (np_advanced_security np)) wg)).

(** What never changes in a handshake, and the two times that only grow. *)
Definition hs_later (hs hs' : noise_handshake) : Prop :=
  precomputed_static_static hs' = precomputed_static_static hs /\ remote_static hs' = remote_static hs /\
  preshared_key hs' = preshared_key hs /\ length (latest_timestamp hs') = length (latest_timestamp hs) /\
  memcmp (latest_timestamp hs) (latest_timestamp hs') <= 0 /\
  last_initiation_consumption hs <= last_initiation_consumption hs' < 2 ^ 63.

Definition later (wg wg' : noise_device) : Prop :=
  nd_identity wg' = nd_identity wg /\ nd_pubkeys wg' = nd_pubkeys wg /\
  (forall p np, nd_peers wg !! p = Some np -> exists np', nd_peers wg' !! p = Some np' /\ hs_later (np_handshake np) (np_handshake np')) /\
  forall p, nd_peers wg !! p = None -> nd_peers wg' !! p = None.

Definition clock_ok (hs : noise_handshake) : Prop := 0 <= last_initiation_consumption hs < 2 ^ 63.

Definition stamps_ok (wg : noise_device) : Prop :=
  forall p np, nd_peers wg !! p = Some np -> len (latest_timestamp (np_handshake np)) = NOISE_TIMESTAMP_LEN /\ clock_ok (np_handshake np).

Lemma hs_later_refl hs : clock_ok hs -> hs_later hs hs.
Proof. intros Hc. unfold hs_later, clock_ok in *. rewrite memcmp_refl. ands; lia || done. Qed.

Lemma hs_later_same hs hs' : precomputed_static_static hs' = precomputed_static_static hs -> remote_static hs' = remote_static hs ->
  preshared_key hs' = preshared_key hs -> latest_timestamp hs' = latest_timestamp hs ->
  last_initiation_consumption hs' = last_initiation_consumption hs -> clock_ok hs -> hs_later hs hs'.
Proof. intros H1 H2 H3 H4 H5 Hc. unfold hs_later, clock_ok in *. rewrite H4, H5, memcmp_refl. ands; lia || done. Qed.

(** Replacing the handshake of one peer. *)
Lemma later_set wg wg1 p np hs' en adv : nd_identity wg1 = nd_identity wg -> nd_pubkeys wg1 = nd_pubkeys wg ->
  nd_peers wg1 = <[p := NoisePeer hs' en adv]> (nd_peers wg) -> nd_peers wg !! p = Some np -> stamps_ok wg -> hs_later (np_handshake np) hs' -> later wg wg1.
Proof.
  intros H1 H2 H3 Hp Hs Hl. split; [done|]. split; [done|]. split.
  - intros q nq Hq. rewrite H3. destruct (decide (q = p)) as [->|D].
    + rewrite lookup_insert_eq. rewrite Hp in Hq. injection Hq as <-. by eexists.
    + rewrite lookup_insert_ne by done. eexists. split; [done|apply hs_later_refl, (Hs q nq Hq)].
  - intros q Hq. rewrite H3, lookup_insert_ne; [done|congruence].
Qed.

(** The payload of an initiation as the device decrypts it: the peer it names,
    the timestamp and the symmetric state. *)
Definition initiation_payload (wg : noise_device) (src : message_handshake_initiation) (alive : Z -> bool) :
    option (Z * noise_peer * list Z * list Z * list Z) :=
  let id := nd_identity wg in
  let '(ck, h) := handshake_init (static_public id) in
  let e := mi_unencrypted_ephemeral src in
  let '(ck, h) := message_ephemeral e ck h in
  '(ck, key) ← mix_dh ck (static_private id) e;
  '(s, h) ← message_decrypt (mi_encrypted_static src) key h;
  p ← wg_pubkey_hashtable_lookup siphash (nd_pubkeys wg) s alive;
  np ← nd_peers wg !! p;
  '(ck, key) ← mix_precomputed_dh ck (precomputed_static_static (np_handshake np));
  '(t, h) ← message_decrypt (mi_encrypted_timestamp src) key h;
  Some (p, np, t, ck, h).

(** Acceptance, and what a refusal leaves. *)
Lemma consume_initiation_cases wg m ty endpoint endpoint_ok alive now now' r wg' n :
  wg_noise_handshake_consume_initiation siphash wg m ty endpoint endpoint_ok alive now now' = Some (r, wg', n) ->
  (exists p np t ck h adv, r = Some p /\ initiation_payload wg m alive = Some (p, np, t, ck, h) /\ has_identity (nd_identity wg) = true /\
     nd_peers wg !! p = Some np /\ replay_attack t (np_handshake np) = false /\ flood_attack now (np_handshake np) = false /\
     wg' = set_peer_hs p (NoisePeer (accept_initiation (mi_unencrypted_ephemeral m) t ck h (mi_sender_index m) now' (np_handshake np)) (np_entry np) adv)
             (set_peer_hs p (NoisePeer (np_handshake np) (np_entry np) adv) wg)) \/
  (r = None /\ (wg' = wg \/ exists p np adv, nd_peers wg !! p = Some np /\ wg' = set_peer_hs p (NoisePeer (np_handshake np) (np_entry np) adv) wg)).
Proof.
  unfold wg_noise_handshake_consume_initiation, initiation_payload, message_ephemeral. destruct (has_identity (nd_identity wg)); cbn [negb]; [|intros [= <- <- <-]; auto].
  destruct (handshake_init (static_public (nd_identity wg))) as [ck0 h0].
  destruct (mix_dh _ _ _) as [[ck1 k1]|]; cbn [mbind option_bind]; [|intros [= <- <- <-]; auto].
  destruct (message_decrypt (mi_encrypted_static m) k1 _) as [[s1 h1]|]; cbn [mbind option_bind]; [|intros [= <- <- <-]; auto].
  destruct (wg_pubkey_hashtable_lookup siphash (nd_pubkeys wg) s1 alive) as [p|]; cbn [mbind option_bind].
  2:{ destruct endpoint; [|done]. intros [= <- <- <-]. auto. }
  destruct (nd_peers wg !! p) as [np|] eqn:Hp; cbn [mbind option_bind]; [|done].
  destruct (mix_precomputed_dh ck1 _) as [[ck2 k2]|]; cbn [mbind option_bind]; [|intros [= <- <- <-]; right; eauto 10].
  destruct (message_decrypt (mi_encrypted_timestamp m) k2 h1) as [[t h2]|]; cbn [mbind option_bind]; [|intros [= <- <- <-]; right; eauto 10].
  destruct (replay_attack t (np_handshake np)) eqn:Er; [intros [= <- <- <-]; right; eauto 10|].
  destruct (flood_attack now (np_handshake np)) eqn:Ef; [intros [= <- <- <-]; right; eauto 10|].
  cbn [orb]. intros [= <- <- <-]. left. eexists _, _, _, _, _, _. by ands.
Qed.

Lemma payload_stamp wg m alive p np t ck h : initiation_ok m -> initiation_payload wg m alive = Some (p, np, t, ck, h) -> len t = NOISE_TIMESTAMP_LEN.
Proof.
  unfold initiation_payload, message_ephemeral. intros Hm. destruct (handshake_init _) as [ck0 h0].
  destruct (mix_dh _ _ _) as [[ck1 k1]|]; cbn [mbind option_bind]; [|done].
  destruct (message_decrypt (mi_encrypted_static m) k1 _) as [[s1 h1]|]; cbn [mbind option_bind]; [|done].
  destruct (wg_pubkey_hashtable_lookup _ _ _ _) as [p'|]; cbn [mbind option_bind]; [|done].
  destruct (nd_peers wg !! p') as [np'|]; cbn [mbind option_bind]; [|done].
  destruct (mix_precomputed_dh ck1 _) as [[ck2 k2]|]; cbn [mbind option_bind]; [|done]. unfold message_decrypt.
  destruct (chacha20poly1305_decrypt _ _ _ _) as [t'|] eqn:Ed; cbn [mbind option_bind]; [|done]. intros [= <- <- <- <- <-].
  apply aead_open_len in Ed. rewrite Ed, Hm. unfold noise_encrypted_len. lia.
Qed.

(** The payload depends on what never changes. *)
Lemma payload_later wg wg' m alive alive' p np t ck h : later wg wg' -> initiation_payload wg m alive = Some (p, np, t, ck, h) ->
  forall p' np' t' ck' h', initiation_payload wg' m alive' = Some (p', np', t', ck', h') ->
  p' = p /\ t' = t /\ nd_peers wg !! p = Some np /\ nd_peers wg' !! p = Some np'.
Proof.
  intros (Hid & Hpk & Hpe & _). unfold initiation_payload, message_ephemeral, wg_pubkey_hashtable_lookup. rewrite Hid, Hpk. destruct (handshake_init _) as [ck0 h0].
  destruct (mix_dh _ _ _) as [[ck1 k1]|]; cbn [mbind option_bind]; [|done].
  destruct (message_decrypt (mi_encrypted_static m) k1 _) as [[s1 h1]|]; cbn [mbind option_bind]; [|done].
  destruct (find _ _) as [x|]; cbn [mbind option_bind]; [|done]. destruct (alive x); cbn [mbind option_bind]; [|done].
  destruct (nd_peers wg !! x) as [nx|] eqn:Hx; cbn [mbind option_bind]; [|done]. destruct (Hpe x nx Hx) as (nx' & Hx' & Hl & _).
  intros H1 p' np' t' ck' h'. destruct (alive' x); cbn [mbind option_bind]; [|done]. rewrite Hx'. cbn [mbind option_bind]. rewrite Hl. revert H1.
  destruct (mix_precomputed_dh ck1 _) as [[ck2 k2]|]; cbn [mbind option_bind]; [|done].
  destruct (message_decrypt _ _ _) as [[t0 h2]|]; cbn [mbind option_bind]; [|done]. intros [= <- <- <- <- <-] [= <- <- <- <- <-]. by ands.
Qed.

Lemma accept_later e t ck h idx now hs : len t = NOISE_TIMESTAMP_LEN -> len (latest_timestamp hs) = NOISE_TIMESTAMP_LEN ->
  clock_ok hs -> 0 <= now < 2 ^ 63 -> replay_attack t hs = false ->
  let hs' := accept_initiation e t ck h idx now hs in
  hs_later hs hs' /\ latest_timestamp hs' = t /\ now <= last_initiation_consumption hs'.
Proof.
  intros Ht Hl Hc Hn Hr. unfold clock_ok in Hc. assert (s64 (u64 (last_initiation_consumption hs - now)) = last_initiation_consumption hs - now) as Es.
  { unfold s64, u64. rewrite Zplus_mod_idemp_l, Z.mod_small by lia. lia. }
  unfold replay_attack in Hr. apply Z.leb_gt in Hr. unfold accept_initiation. destruct (Z.ltb_spec 0 (memcmp t (latest_timestamp hs))); [|lia].
  unfold len in *. assert (length t = length (latest_timestamp hs)) as Hlen by lia. unfold hs_later. cbn. rewrite Es.
  destruct (Z.ltb_spec (last_initiation_consumption hs - now) 0); ands; try done; try lia; rewrite (memcmp_sign t) by done; lia.
Qed.

Lemma create_initiation_later id hs ty secret sec nsec tbl entry rnd m hs' tbl' :
  wg_noise_handshake_create_initiation id hs ty secret sec nsec tbl entry rnd = Some (m, hs', tbl') -> clock_ok hs -> hs_later hs hs'.
Proof.
  intros Hr Hc. revert Hr.
  unfold wg_noise_handshake_create_initiation, message_ephemeral. destruct (has_identity id); cbn [negb]; [|intros [= <- <- <-]; by apply hs_later_refl].
  destruct (handshake_init _) as [ck0 h0]. destruct (curve25519_generate_public secret) as [e|]; [|intros [= <- <- <-]; by apply hs_later_same].
  destruct (mix_dh _ _ _) as [[ck1 k1]|]; [|intros [= <- <- <-]; by apply hs_later_same]. destruct (message_encrypt (static_public id) _ _) as [es h1].
  destruct (mix_precomputed_dh _ _) as [[ck2 k2]|]; [|intros [= <- <- <-]; by apply hs_later_same]. destruct (message_encrypt _ _ h1) as [et h2].
  destruct (wg_index_hashtable_insert _ _ _) as [[idx tbl1]|]; [|done]. intros [= <- <- <-]; by apply hs_later_same.
Qed.

Lemma create_response_later hs ty secret tbl entry rnd m hs' tbl' :
  wg_noise_handshake_create_response hs ty secret tbl entry rnd = Some (m, hs', tbl') -> clock_ok hs -> hs_later hs hs'.
Proof.
  intros Hr Hc. revert Hr.
  unfold wg_noise_handshake_create_response, message_ephemeral. destruct (negb _); [intros [= <- <- <-]; by apply hs_later_refl|].
  destruct (curve25519_generate_public secret) as [e|]; [|intros [= <- <- <-]; by apply hs_later_same].
  destruct (mix_dh_nokey _ _ _) as [ck1|]; [|intros [= <- <- <-]; by apply hs_later_same].
  destruct (mix_dh_nokey ck1 _ _) as [ck2|]; [|intros [= <- <- <-]; by apply hs_later_same].
  destruct (mix_psk _ _ _) as [[ck3 h3] k3]. destruct (message_encrypt _ _ _) as [en h4].
  destruct (wg_index_hashtable_insert _ _ _) as [[idx tbl1]|]; [|done]. intros [= <- <- <-]; by apply hs_later_same.
Qed.

Lemma later_refl wg : stamps_ok wg -> later wg wg.
Proof. intros Hs. split; [done|]. split; [done|]. split; [|done]. intros p np Hp. eexists. split; [done|apply hs_later_refl, (Hs p np Hp)]. Qed.

Lemma later_trans wg1 wg2 wg3 : later wg1 wg2 -> later wg2 wg3 -> later wg1 wg3.
Proof.
  intros (H1 & H2 & H3 & H4) (G1 & G2 & G3 & G4). unfold later. ands; [congruence|congruence| |auto]. intros p np Hp.
  destruct (H3 p np Hp) as (np2 & Hp2 & A1 & A2 & A3 & A4 & A5 & A6). destruct (G3 p np2 Hp2) as (np3 & Hp3 & B1 & B2 & B3 & B4 & B5 & B6).
  exists np3. split; [done|]. unfold hs_later. ands; try congruence; try lia. by apply (memcmp_trans _ (latest_timestamp (np_handshake np2))).
Qed.

Lemma later_stamps wg wg' : later wg wg' -> stamps_ok wg -> stamps_ok wg'.
Proof.
  intros (_ & _ & H3 & H4) Hs p np' Hp'. destruct (nd_peers wg !! p) as [np|] eqn:Hp; [|by rewrite (H4 p Hp) in Hp'].
  destruct (H3 p np Hp) as (np2 & Hp2 & _ & _ & _ & Hlen & _ & Hcl). rewrite Hp' in Hp2. injection Hp2 as <-.
  destruct (Hs p np Hp) as [Hl Hc]. unfold len, clock_ok in *. rewrite Hlen. split; [done|lia].
Qed.

Lemma consume_initiation_later wg m ty endpoint endpoint_ok alive now now' r wg' n : initiation_ok m -> stamps_ok wg -> 0 <= now' < 2 ^ 63 ->
  wg_noise_handshake_consume_initiation siphash wg m ty endpoint endpoint_ok alive now now' = Some (r, wg', n) -> later wg wg'.
Proof.
  intros Hm Hs Hn Hc. destruct (consume_initiation_cases _ _ _ _ _ _ _ _ _ _ _ Hc) as [(p & np & t & ck & h & adv & _ & Hpay & _ & Hp & Hrep & _ & ->)|(_ & [->|(p & np & adv & Hp & ->)])].
  - apply (later_set _ _ p np (accept_initiation (mi_unencrypted_ephemeral m) t ck h (mi_sender_index m) now' (np_handshake np)) (np_entry np) adv); try done.
    + cbn. apply insert_insert_eq.
    + apply accept_later; try done; [by eapply payload_stamp|by apply (Hs p)|by apply (Hs p np)].
  - by apply later_refl.
  - apply (later_set _ _ p np (np_handshake np) (np_entry np) adv); try done. apply hs_later_refl, (Hs p np Hp).
Qed.

Lemma consume_response_cases wg m alive r wg' : wg_noise_handshake_consume_response wg m alive = Some (r, wg') ->
  exists tbl, wg' = set_nd_index tbl wg \/ wg' = wg \/ exists p np e i ck h, nd_peers wg !! p = Some np /\ r = Some p /\
    wg' = set_peer_hs p (NoisePeer (set_state HANDSHAKE_CONSUMED_RESPONSE (set_sym ck h (set_remote e i (np_handshake np)))) (np_entry np)
                           (np_advanced_security np)) (set_nd_index tbl wg).
Proof.
  unfold wg_noise_handshake_consume_response. intros H. destruct (has_identity (nd_identity wg)); cbn [negb] in H; [|injection H as <- <-; exists (nd_index wg); auto].
  destruct (wg_index_hashtable_lookup _ _ _ _) as [found tbl]. exists tbl. destruct found as [[en p]|]; [|injection H as <- <-; auto].
  cbn [nd_peers set_nd_index] in H. destruct (nd_peers wg !! p) as [np|] eqn:Hp; [|done].
  destruct (negb _); [injection H as <- <-; auto|]. destruct (check_response _ _ _) as [[ck h]|]; [|injection H as <- <-; auto].
  injection H as <- <-. right. right. by eexists _, _, _, _, _, _.
Qed.

Lemma step_later wg wg' : stamps_ok wg -> noise_step wg wg' -> later wg wg'.
Proof.
  intros Hs. destruct 1 as [wg m ty endpoint endpoint_ok alive now now' r wg' n Hm Hn Hc|wg m alive r wg' Hc|wg p np ty secret sec nsec rnd m hs tbl Hp Hc|
    wg p np ty secret rnd m hs tbl Hp Hc|wg p np Hp|wg p np tbl Hp].
  - by eapply consume_initiation_later.
  - apply consume_response_cases in Hc as (tbl & [->|[->|(p & np & e & i & ck & h & Hp & _ & ->)]]); [exact (later_refl wg Hs)|by apply later_refl|].
    eapply (later_set _ _ p np); try done. apply hs_later_same; try done. apply (Hs p np Hp).
  - assert (hs_later (np_handshake np) hs) as Hl by (eapply create_initiation_later; [done|apply (Hs p np Hp)]). by eapply (later_set _ _ p np).
  - assert (hs_later (np_handshake np) hs) as Hl by (eapply create_response_later; [done|apply (Hs p np Hp)]). by eapply (later_set _ _ p np).
  - eapply (later_set _ _ p np); try done. apply hs_later_same; try done. apply (Hs p np Hp).
  - eapply (later_set _ _ p np); try done. apply hs_later_same; try done. apply (Hs p np Hp).
Qed.

Lemma steps_later wg wg' : stamps_ok wg -> rtc noise_step wg wg' -> later wg wg' /\ stamps_ok wg'.
Proof.
  intros Hs Hst. revert Hs. induction Hst as [wg|wg1 wg2 wg3 H12 _ IH]; intros Hs; [split; [by apply later_refl|done]|].
  pose proof (step_later _ _ Hs H12) as Hl. destruct (IH (later_stamps _ _ Hl Hs)) as [Hl2 Hs3]. split; [|done]. by apply (later_trans _ wg2).
Qed.

(** What an accepted initiation leaves for every later state. *)
Lemma accepted_later wg m ty endpoint endpoint_ok alive now now' p wg1 n wg2 : initiation_ok m -> stamps_ok wg -> 0 <= now' < 2 ^ 63 ->
  wg_noise_handshake_consume_initiation siphash wg m ty endpoint endpoint_ok alive now now' = Some (Some p, wg1, n) -> rtc noise_step wg1 wg2 ->
  later wg wg2 /\ stamps_ok wg2 /\ exists np t ck h np2, initiation_payload wg m alive = Some (p, np, t, ck, h) /\ len t = NOISE_TIMESTAMP_LEN /\
    nd_peers wg2 !! p = Some np2 /\ memcmp t (latest_timestamp (np_handshake np2)) <= 0 /\ now' <= last_initiation_consumption (np_handshake np2).
Proof.
  intros Hm Hs Hn Hc Hst. pose proof (consume_initiation_later _ _ _ _ _ _ _ _ _ _ _ Hm Hs Hn Hc) as Hl1.
  destruct (steps_later wg1 wg2 (later_stamps _ _ Hl1 Hs) Hst) as [Hl2 Hs2]. split; [by apply (later_trans _ wg1)|]. split; [done|].
  apply consume_initiation_cases in Hc as [(p' & np & t & ck & h & adv & [= <-] & Hpay & _ & Hp & Hrep & _ & ->)|[[=] _]].
  pose proof (payload_stamp _ _ _ _ _ _ _ _ Hm Hpay) as Ht. destruct (Hs p np Hp) as [Hlen Hcl].
  destruct (accept_later (mi_unencrypted_ephemeral m) t ck h (mi_sender_index m) now' (np_handshake np) Ht Hlen Hcl Hn Hrep) as (_ & Elt & Elast).
  destruct Hl2 as (_ & _ & Hl2 & _). cbn [nd_peers set_peer_hs] in Hl2.
  destruct (Hl2 p _ (lookup_insert_eq _ _ _)) as (np2 & Hp2 & _ & _ & _ & _ & Hmem & Hlast). cbn [np_handshake] in *. rewrite Elt in Hmem.
  exists np, t, ck, h, np2. ands; try done. lia.
Qed.

(** An accepted initiation names its peer and passes both tests. *)
Lemma accepted_inv wg m ty endpoint endpoint_ok alive now now' p wg1 n :
  wg_noise_handshake_consume_initiation siphash wg m ty endpoint endpoint_ok alive now now' = Some (Some p, wg1, n) ->
  exists np t ck h, initiation_payload wg m alive = Some (p, np, t, ck, h) /\ nd_peers wg !! p = Some np /\
    replay_attack t (np_handshake np) = false /\ flood_attack now (np_handshake np) = false.
Proof.
  intros Hc. apply consume_initiation_cases in Hc as [(p' & np & t & ck & h & adv & [= <-] & Hpay & _ & Hp & Hrep & Hfl & _)|[[=] _]]. by exists np, t, ck, h.
Qed.

Lemma flood_clock now hs : clock_ok hs -> 0 <= now < 2 ^ 63 -> flood_attack now hs = false -> last_initiation_consumption hs + 20000000 <= now.
Proof.
  unfold clock_ok, flood_attack, s64. intros Hc Hn Hf. rewrite !Z.mod_small in Hf by lia. apply Z.ltb_ge in Hf.
  change (NSEC_PER_SEC / INITIATIONS_PER_SECOND) with 20000000 in Hf. lia.
Qed.

End Steps.

(** The number a timestamp stands for: seconds, then the slot of [2 ^ 24]
    nanoseconds. *)
Definition clock_value (sec nsec : Z) : Z := sec * 64 + nsec / 2 ^ 24.

Lemma tai64n_compare s1 n1 s2 n2 : 0 <= s1 < 2 ^ 62 -> 0 <= s2 < 2 ^ 62 -> 0 <= n1 < NSEC_PER_SEC -> 0 <= n2 < NSEC_PER_SEC ->
  (clock_value s1 n1 < clock_value s2 n2 -> memcmp (tai64n_now s1 n1) (tai64n_now s2 n2) < 0) /\
  (clock_value s1 n1 = clock_value s2 n2 -> memcmp (tai64n_now s1 n1) (tai64n_now s2 n2) = 0).
Proof.
  unfold clock_value, tai64n_now. change (rounddown_pow_of_two (NSEC_PER_SEC / INITIATIONS_PER_SECOND)) with (2 ^ 24).
  change NSEC_PER_SEC with 1000000000. intros Hs1 Hs2 Hn1 Hn2. rewrite memcmp_app by (by rewrite !be_bytes_length).
  rewrite !u64_small by lia. rewrite !u32_small by lia.
  assert (0 <= n1 / 2 ^ 24 < 64 /\ 0 <= n2 / 2 ^ 24 < 64) by lia.
  destruct (memcmp_be 8 (0x400000000000000a + s1) (0x400000000000000a + s2)) as [Hlt Heq]; [cbn; lia|cbn; lia|].
  destruct (memcmp_be 4 (n1 - n1 mod 2 ^ 24) (n2 - n2 mod 2 ^ 24)) as [Hlt' Heq']; [cbn; lia|cbn; lia|].
  split; intros Hc.
  - destruct (Z.eq_dec s1 s2) as [->|D].
    + rewrite Heq by lia. cbn [Z.eqb]. apply Hlt'. lia.
    + specialize (Hlt ltac:(lia)). destruct (Z.eqb_spec (memcmp (be_bytes 8 (0x400000000000000a + s1)) (be_bytes 8 (0x400000000000000a + s2))) 0); lia.
  - assert (s1 = s2) as -> by lia. rewrite Heq by lia. cbn [Z.eqb]. apply Heq'. lia.
Qed.

(** * HMAC and HKDF as published *)

Section Hkdf.

Context `{C : NoiseCrypto}.

(** RFC 2104: the key, hashed when longer than a block, is padded with zeros. *)
Definition rfc2104_block_key (key : list Z) : list Z :=
  let k := if BLAKE2S_BLOCK_SIZE <? len key then blake2s key else key in k ++ zeros (BLAKE2S_BLOCK_SIZE - len k).
Definition rfc2104_hmac (key text : list Z) : list Z :=
  let k := rfc2104_block_key key in
  blake2s (map (Z.lxor 0x5c) k ++ blake2s (map (Z.lxor 0x36) k ++ text)).

(** RFC 5869: extraction, and expansion without context information. *)
Definition rfc5869_extract (salt ikm : list Z) : list Z := rfc2104_hmac salt ikm.
Fixpoint rfc5869_block (prk : list Z) (n : nat) : list Z :=
  match n with O => [] | S n' => rfc2104_hmac prk (rfc5869_block prk n' ++ [Z.of_nat n]) end.
Definition rfc5869_expand (prk : list Z) (n : nat) : list Z := concat (map (rfc5869_block prk) (seq 1 n)).

Lemma hmac_rfc2104 `{L : !NoiseCryptoLaws C} text key : hmac text key = rfc2104_hmac key text.
Proof.
  unfold hmac, rfc2104_hmac, rfc2104_block_key, overwrite, zeros, len.
  assert (forall k, Z.of_nat (length k) <= BLAKE2S_BLOCK_SIZE ->
    k ++ skipn (length k) (replicate (Z.to_nat BLAKE2S_BLOCK_SIZE) 0) = k ++ replicate (Z.to_nat (BLAKE2S_BLOCK_SIZE - Z.of_nat (length k))) 0) as E.
  { intros k Hk. f_equal. rewrite drop_replicate. f_equal. lia. }
  pose proof (blake2s_len key) as Hl. unfold len in Hl.
  destruct (Z.ltb_spec BLAKE2S_BLOCK_SIZE (Z.of_nat (length key))); rewrite E by (unfold BLAKE2S_BLOCK_SIZE in *; lia); rewrite map_map;
    (f_equal; f_equal; [apply map_ext; intros b; rewrite Z.lxor_assoc; apply Z.lxor_comm|f_equal; f_equal; apply map_ext; intros b; apply Z.lxor_comm]).
Qed.

Lemma rfc2104_len `{L : !NoiseCryptoLaws C} key text : length (rfc2104_hmac key text) = 32%nat.
Proof. pose proof (blake2s_len (map (Z.lxor 0x5c) (rfc2104_block_key key) ++ blake2s (map (Z.lxor 0x36) (rfc2104_block_key key) ++ text))). unfold len, rfc2104_hmac in *. lia. Qed.

End Hkdf.

(** * A small instance

    Primitives over the integers modulo 251 that satisfy the laws, to run the
    protocol on: a checksum for the hash, multiplication for Diffie-Hellman and
    a fixed tag for the AEAD. *)

Definition toy_scalar (a : list Z) : Z := List.hd 0 a mod 251.
Definition toy_point (x : Z) : option (list Z) := if x =? 0 then None else Some (x :: zeros 31).

#[local] Instance toy_crypto : NoiseCrypto := {|
  blake2s m := fold_left Z.add m 0 mod 256 :: zeros 31;
  curve25519 a p := toy_point (toy_scalar a * toy_scalar p mod 251);
  curve25519_generate_public a := toy_point (toy_scalar a * 9 mod 251);
  curve25519_clamp_secret a := a;
  chacha20poly1305_encrypt p ad n k := p ++ zeros 16;
  chacha20poly1305_decrypt c ad n k :=
    if (16 <=? len c) && bool_decide (drop (length c - 16) c = zeros 16) then Some (take (length c - 16) c) else None
|}.

Lemma toy_point_inv x p : toy_point x = Some p -> x <> 0 /\ p = x :: zeros 31.
Proof. unfold toy_point. destruct (Z.eqb_spec x 0); [done|]. by intros [= <-]. Qed.

#[local] Instance toy_laws : NoiseCryptoLaws toy_crypto.
Proof.
  split; cbn [blake2s curve25519 curve25519_generate_public curve25519_clamp_secret chacha20poly1305_encrypt chacha20poly1305_decrypt toy_crypto].
  - done.
  - intros a b pa pb Ha Hb. apply toy_point_inv in Ha as [_ ->], Hb as [_ ->]. unfold toy_scalar. cbn [List.hd]. f_equal.
    rewrite !Zmod_mod, !Zmult_mod_idemp_r. f_equal. lia.
  - intros a p r Hr. apply toy_point_inv in Hr as [Hx ->]. by intros [= E].
  - done.
  - intros p ad n k. unfold len. rewrite length_app. change (length (zeros 16)) with 16%nat. replace (length p + 16 - 16)%nat with (length p) by lia.
    rewrite drop_app_length, take_app_length, bool_decide_true by done. destruct (Z.leb_spec 16 (Z.of_nat (length p + 16))); [done|lia].
  - intros a pa Ha. by apply toy_point_inv in Ha as [_ ->].
  - intros p ad n k. unfold len. by rewrite length_app, Nat2Z.inj_add.
  - intros c ad n k p. destruct (Z.leb_spec 16 (len c)) as [Hc|]; [|done]. unfold len, NOISE_AUTHTAG_LEN in *.
    case_bool_decide; [|done]. intros [= <-]. rewrite length_take. lia.
Qed.

(** Two devices that know each other, and what they do first. *)
Definition toy_siphash (k : list Z) : Z := List.hd 0 k.
Definition toy_identity (k : Z) : noise_static_identity :=
  wg_noise_set_static_identity_private_key (StaticIdentity (zeros 32) (zeros 32) false) (k :: zeros 31).
Definition toy_psk : list Z := 77 :: zeros 31.
Definition toy_peer (me other : Z) : noise_peer :=
  NoisePeer (wg_noise_handshake_init (toy_identity me) (static_public (toy_identity other)) (Some toy_psk)) 1 false.
Definition toy_device (me other : Z) : noise_device :=
  NoiseDevice (toy_identity me) true (MagicHdr 1 1)
    (wg_pubkey_hashtable_add toy_siphash wg_pubkey_hashtable_alloc 7 (static_public (toy_identity other))) ix_example {[7 := toy_peer me other]}.

(** The initiation of device 3 to device 5 at second [sec]. *)
Definition toy_initiation (sec : Z) : option (option message_handshake_initiation * noise_handshake * index_hashtable) :=
  wg_noise_handshake_create_initiation (toy_identity 3) (np_handshake (toy_peer 3 5)) 1 (11 :: zeros 31) sec 0 ix_example 1 [1234].
Definition toy_message (sec : Z) : message_handshake_initiation :=
  match toy_initiation sec with Some (Some m, _, _) => m | _ => Build_message_handshake_initiation 0 0 [] [] [] no_macs end.
Definition toy_initiator : noise_handshake * index_hashtable :=
  match toy_initiation 1 with Some (_, hs, tbl) => (hs, tbl) | _ => (np_handshake (toy_peer 3 5), ix_example) end.

(** Its consumption at the clock [now], and the response. *)
Abbreviation toy_consume wg sec now :=
  (wg_noise_handshake_consume_initiation toy_siphash wg (toy_message sec) 1 true true (fun _ => true) now now).
Definition toy_responder : noise_device := match toy_consume (toy_device 5 3) 1 1000000000 with Some (_, wg, _) => wg | None => toy_device 5 3 end.
Definition toy_response (wg : noise_device) : option (option message_handshake_response * noise_handshake * index_hashtable) :=
  np ← nd_peers wg !! 7; wg_noise_handshake_create_response (np_handshake np) 2 (13 :: zeros 31) (nd_index wg) 1 [99].

Lemma toy_identity_ok k : has_identity (toy_identity k) = true -> identity_ok (toy_identity k).
Proof. apply identity_set. Qed.

Lemma toy_stamps_ok me other : stamps_ok (toy_device me other).
Proof. intros p np Hp. cbn [nd_peers toy_device] in Hp. apply lookup_singleton_Some in Hp as [_ <-]. done. Qed.

(** * Theorems *)

Lemma handshake_agreement `{L : NoiseCryptoLaws} siphash wgI wgR p q npI npR alive aliveI
    ty1 secretI sec nsec rndI m1 hsI1 tblI1 skb_type endpoint endpoint_ok now now' advI :
  identity_ok (nd_identity wgI) -> identity_ok (nd_identity wgR) ->
  nd_peers wgI !! p = Some npI -> nd_peers wgR !! q = Some npR ->
  paired (nd_identity wgI) (nd_identity wgR) (np_handshake npI) ->
  paired (nd_identity wgR) (nd_identity wgI) (np_handshake npR) ->
  preshared_key (np_handshake npR) = preshared_key (np_handshake npI) ->
  wg_pubkey_hashtable_lookup siphash (nd_pubkeys wgR) (static_public (nd_identity wgI)) alive = Some q ->
  ix_ok (nd_index wgI) -> aliveI p = true ->
  (exists idx, ix_entries (nd_index wgI) !! np_entry npI = Some (IndexEntry (Some p) INDEX_HASHTABLE_HANDSHAKE idx)) ->
  wg_noise_handshake_create_initiation (nd_identity wgI) (np_handshake npI) ty1 secretI sec nsec (nd_index wgI) (np_entry npI) rndI =
    Some (Some m1, hsI1, tblI1) ->
  replay_attack (tai64n_now sec nsec) (np_handshake npR) = false -> flood_attack now (np_handshake npR) = false ->
  exists wgR1 npR1,
    wg_noise_handshake_consume_initiation siphash wgR m1 skb_type endpoint endpoint_ok alive now now' = Some (Some q, wgR1, None) /\
    nd_peers wgR1 !! q = Some npR1 /\ nd_index wgR1 = nd_index wgR /\ np_entry npR1 = np_entry npR /\
    forall ty2 secretR tbl entry rnd m2 hsR2 tbl2,
      wg_noise_handshake_create_response (np_handshake npR1) ty2 secretR tbl entry rnd = Some (Some m2, hsR2, tbl2) ->
      exists wgI2 npI2,
        wg_noise_handshake_consume_response (set_nd_index tblI1 (set_peer_hs p (NoisePeer hsI1 (np_entry npI) advI) wgI)) m2 aliveI =
          Some (Some p, wgI2) /\
        nd_peers wgI2 !! p = Some npI2 /\ np_entry npI2 = np_entry npI /\
        nd_index wgI2 = (wg_index_hashtable_lookup tblI1 INDEX_HASHTABLE_HANDSHAKE (mi_sender_index m1) aliveI).2 /\ hash (np_handshake npI2) = hash hsR2 /\
        remote_index (np_handshake npI2) = mr_sender_index m2 /\ remote_index hsR2 = mi_sender_index m1 /\
        forall t t', exists sI rI sR rR, session_keys (np_handshake npI2) t = Some (true, sI, rI) /\
          session_keys hsR2 t' = Some (false, sR, rR) /\ sk_key sI = sk_key rR /\ sk_key rI = sk_key sR.
Proof.
  intros HidI HidR HpI HpR HprI HprR Hpsk Hlook Hix Halive [idx0 Hent] Hcr Hrep Hfl.
  pose proof (static_static _ _ _ _ HidI HidR HprI HprR) as Hss.
  apply create_initiation_inv in Hcr as (e & dh & idx & es & et & ck & h & _ & He & Hdh & Hnz & Hins & Htr & Em & EhsI).
  destruct HprI as [HrsI _]. destruct HprR as [HrsR _]. rewrite HrsI in Hdh, Htr.
  destruct (consume_initiation_run siphash wgR m1 skb_type endpoint endpoint_ok alive now now' (nd_identity wgI) e dh
    (precomputed_static_static (np_handshake npI)) (tai64n_now sec nsec) es et ck h q npR) as (wgR1 & Hcons & HixR1 & adv & HpR1);
    try done; try (by rewrite Em); [apply HidR| |].
  { rewrite <- Hdh. symmetry. apply dh_comm; [done|apply HidR]. }
  eexists wgR1, _. split; [exact Hcons|]. split; [exact HpR1|]. split; [exact HixR1|]. split; [done|]. cbn [np_handshake].
  intros ty2 secretR tbl entry rnd m2 hsR2 tbl2 Hresp.
  destruct (response_agrees (nd_identity wgI) hsI1 (accept_initiation e (tai64n_now sec nsec) ck h (mi_sender_index m1) now' (np_handshake npR))
    e _ _ _ _ _ _ _ _ HidI ltac:(by rewrite EhsI) eq_refl HrsR
    ltac:(by rewrite EhsI) ltac:(by rewrite EhsI) ltac:(by rewrite EhsI) Hresp) as (Hchk & HstR & Hri & HrR).
  pose proof (insert_lookup _ _ _ _ _ _ aliveI INDEX_HASHTABLE_HANDSHAKE p Hix Hent Hins eq_refl Halive ltac:(done)) as Hfound.
  assert (mr_receiver_index m2 = idx) as Eidx by (rewrite Hri; cbn; by rewrite Em).
  unfold wg_noise_handshake_consume_response. cbn [nd_identity set_nd_index set_peer_hs nd_index]. rewrite (proj1 HidI), Eidx. cbn [negb].
  destruct (wg_index_hashtable_lookup tblI1 _ _ aliveI) as [found tbl3] eqn:El. cbn in Hfound. subst found.
  cbn [nd_peers set_nd_index set_peer_hs]. rewrite lookup_insert_eq. cbn [np_handshake nd_identity set_nd_index set_peer_hs].
  rewrite bool_decide_true by (by rewrite EhsI). cbn [negb]. rewrite Hchk.
  eexists _, _. split; [done|]. cbn [nd_peers set_peer_hs set_nd_index]. split; [by rewrite lookup_insert_eq|]. cbn [np_handshake np_entry].
  ands; [done| |done|done|rewrite HrR; cbn; by rewrite Em|]; [rewrite Em; cbn [mi_sender_index]; by rewrite El|]. intros t t'. by apply session_keys_agree.
Qed.

(** C10: two devices that know each other's public keys and share the preshared
    key complete a handshake: the initiation created by one is accepted by the
    other (unless its timestamp is old or initiations come too fast), the
    response leads back to the initiator's handshake through the index sent, is
    accepted, and afterwards both sides hold the same hash, the same chaining
    key and transport keys that match crosswise, and know each other's index. *)
Theorem noise_handshake_agreement `{L : NoiseCryptoLaws} siphash wgI wgR p q npI npR alive
    ty1 secretI sec nsec rndI m1 hsI1 tblI1 skb_type endpoint endpoint_ok now now' advI :
  identity_ok (nd_identity wgI) -> identity_ok (nd_identity wgR) ->
  nd_peers wgI !! p = Some npI -> nd_peers wgR !! q = Some npR ->
  paired (nd_identity wgI) (nd_identity wgR) (np_handshake npI) ->
  paired (nd_identity wgR) (nd_identity wgI) (np_handshake npR) ->
  preshared_key (np_handshake npR) = preshared_key (np_handshake npI) ->
  wg_pubkey_hashtable_lookup siphash (nd_pubkeys wgR) (static_public (nd_identity wgI)) alive = Some q ->
  ix_ok (nd_index wgI) -> alive p = true ->
  (exists idx, ix_entries (nd_index wgI) !! np_entry npI = Some (IndexEntry (Some p) INDEX_HASHTABLE_HANDSHAKE idx)) ->
  wg_noise_handshake_create_initiation (nd_identity wgI) (np_handshake npI) ty1 secretI sec nsec (nd_index wgI) (np_entry npI) rndI =
    Some (Some m1, hsI1, tblI1) ->
  replay_attack (tai64n_now sec nsec) (np_handshake npR) = false -> flood_attack now (np_handshake npR) = false ->
  exists wgR1 npR1,
    wg_noise_handshake_consume_initiation siphash wgR m1 skb_type endpoint endpoint_ok alive now now' = Some (Some q, wgR1, None) /\
    nd_peers wgR1 !! q = Some npR1 /\
    forall ty2 secretR tbl entry rnd m2 hsR2 tbl2,
      wg_noise_handshake_create_response (np_handshake npR1) ty2 secretR tbl entry rnd = Some (Some m2, hsR2, tbl2) ->
      exists wgI2 npI2,
        wg_noise_handshake_consume_response (set_nd_index tblI1 (set_peer_hs p (NoisePeer hsI1 (np_entry npI) advI) wgI)) m2 alive =
          Some (Some p, wgI2) /\
        nd_peers wgI2 !! p = Some npI2 /\ hash (np_handshake npI2) = hash hsR2 /\
        remote_index (np_handshake npI2) = mr_sender_index m2 /\ remote_index hsR2 = mi_sender_index m1 /\
        forall t t', exists sI rI sR rR, session_keys (np_handshake npI2) t = Some (true, sI, rI) /\
          session_keys hsR2 t' = Some (false, sR, rR) /\ sk_key sI = sk_key rR /\ sk_key rI = sk_key sR.
Proof.
  intros. destruct (handshake_agreement siphash wgI wgR p q npI npR alive alive ty1 secretI sec nsec rndI m1 hsI1 tblI1 skb_type endpoint endpoint_ok now now' advI)
    as (wgR1 & npR1 & HA & HB & _ & _ & HC); try done. exists wgR1, npR1. split; [done|]. split; [done|]. intros ty2 secretR tbl entry rnd m2 hsR2 tbl2 Hr.
  destruct (HC _ _ _ _ _ _ _ _ Hr) as (wgI2 & npI2 & ? & ? & _ & _ & ?). by exists wgI2, npI2.
Qed.

Lemma noise_handshake_agreement_witness : exists wgR1 npR1,
  toy_consume (toy_device 5 3) 1 1000000000 = Some (Some 7, wgR1, None) /\ nd_peers wgR1 !! 7 = Some npR1.
Proof.
  destruct (noise_handshake_agreement toy_siphash (toy_device 3 5) (toy_device 5 3) 7 7 (toy_peer 3 5) (toy_peer 5 3) (fun _ => true)
    1 (11 :: zeros 31) 1 0 [1234] (toy_message 1) toy_initiator.1 toy_initiator.2 1 true true 1000000000 1000000000 false) as (wgR1 & npR1 & H1 & H2 & _);
    [by apply toy_identity_ok|by apply toy_identity_ok|done|done|apply paired_init|apply paired_init|done|vm_compute; reflexivity|
     apply (proj1 ix_example_ok)|done|by eexists|vm_compute; reflexivity|vm_compute; reflexivity|vm_compute; reflexivity|].
  by exists wgR1, npR1.
Defined.

(** The whole exchange on the small instance: both ends send with the key the
    other receives with. *)
Example noise_exchange :
  (match toy_response toy_responder with
   | Some (Some m2, hsR, _) =>
       match wg_noise_handshake_consume_response
               (set_nd_index toy_initiator.2 (set_peer_hs 7 (NoisePeer toy_initiator.1 1 false) (toy_device 3 5))) m2 (fun _ => true) with
       | Some (Some p, wgI) =>
           match nd_peers wgI !! p ≫= (fun np => session_keys (np_handshake np) 0), session_keys hsR 0 with
           | Some (iI, sI, rI), Some (iR, sR, rR) =>
               Some (iI, iR, bool_decide (sk_key sI = sk_key rR), bool_decide (sk_key rI = sk_key sR), bool_decide (sk_key sI = sk_key rI))
           | _, _ => None
           end
       | _ => None
       end
   | _ => None
   end) = Some (true, false, true, true, false).
Proof. vm_compute. reflexivity. Qed.



(** Initiations of one peer are accepted at most every 20 milliseconds: if
    an initiation that names the peer is accepted, and any number of handshake
    functions later another one (of any content), the clock has advanced by
    20,000,000 nanoseconds between the two. *)
Theorem noise_initiation_flood `{L : NoiseCryptoLaws} siphash wg m ty endpoint endpoint_ok alive now now' p wg1 n wg2
    m2 ty2 endpoint2 endpoint_ok2 alive2 now2 now2' wg3 n3 :
  initiation_ok m -> stamps_ok wg -> 0 <= now' < 2 ^ 63 -> 0 <= now2 < 2 ^ 63 ->
  wg_noise_handshake_consume_initiation siphash wg m ty endpoint endpoint_ok alive now now' = Some (Some p, wg1, n) ->
  rtc (noise_step siphash) wg1 wg2 ->
  wg_noise_handshake_consume_initiation siphash wg2 m2 ty2 endpoint2 endpoint_ok2 alive2 now2 now2' = Some (Some p, wg3, n3) ->
  now' + 20000000 <= now2.
Proof.
  intros Hm Hs Hn Hn2 Hc Hst Hc2.
  destruct (accepted_later _ _ _ _ _ _ _ _ _ _ _ _ _ Hm Hs Hn Hc Hst) as (_ & Hs2 & np & t & ck & h & np2 & _ & _ & Hp2 & _ & Hlast).
  apply accepted_inv in Hc2 as (np' & t' & ck' & h' & _ & Hp' & _ & Hfl). rewrite Hp2 in Hp'. injection Hp' as <-.
  apply flood_clock in Hfl; [lia|apply (Hs2 p np2 Hp2)|done].
Qed.

Lemma noise_initiation_flood_witness : (exists wg3, toy_consume toy_responder 2 1020000000 = Some (Some 7, wg3, None)) /\ 1000000000 + 20000000 <= 1020000000.
Proof.
  destruct (toy_consume toy_responder 2 1020000000) as [[[[r|] wg3] [n|]]|] eqn:E; try (vm_compute in E; discriminate).
  assert (r = 7) as -> by (vm_compute in E; congruence). split; [by eexists|].
  apply (noise_initiation_flood toy_siphash (toy_device 5 3) (toy_message 1) 1 true true (fun _ => true) 1000000000 1000000000 7 toy_responder None toy_responder
    (toy_message 2) 1 true true (fun _ => true) 1020000000 1020000000 wg3 None); [vm_compute; reflexivity|apply toy_stamps_ok|lia|lia|vm_compute; reflexivity|apply rtc_refl|].
  exact E.
Defined.

(** The timestamps compare with [memcmp] exactly as the wall clock does,
    to a granularity of [2 ^ 24] nanoseconds (about 16.8 ms): a timestamp taken
    in a later slot is larger, one taken in the same slot is equal. *)
Theorem noise_timestamps_monotone s1 n1 s2 n2 : 0 <= s1 < 2 ^ 62 -> 0 <= s2 < 2 ^ 62 -> 0 <= n1 < NSEC_PER_SEC -> 0 <= n2 < NSEC_PER_SEC ->
  (memcmp (tai64n_now s1 n1) (tai64n_now s2 n2) < 0 <-> s1 < s2 \/ (s1 = s2 /\ n1 / 2 ^ 24 < n2 / 2 ^ 24)) /\
  (memcmp (tai64n_now s1 n1) (tai64n_now s2 n2) = 0 <-> s1 = s2 /\ n1 / 2 ^ 24 = n2 / 2 ^ 24).
Proof.
  intros Hs1 Hs2 Hn1 Hn2. destruct (tai64n_compare s1 n1 s2 n2 Hs1 Hs2 Hn1 Hn2) as [Hlt Heq].
  destruct (tai64n_compare s2 n2 s1 n1 Hs2 Hs1 Hn2 Hn1) as [Hgt _].
  rewrite (memcmp_sign (tai64n_now s1 n1)) in Hgt by (unfold tai64n_now; by rewrite !length_app, !be_bytes_length).
  unfold clock_value in *. change NSEC_PER_SEC with 1000000000 in *. assert (0 <= n1 / 2 ^ 24 < 64 /\ 0 <= n2 / 2 ^ 24 < 64) by lia.
  destruct (Z.lt_trichotomy (s1 * 64 + n1 / 2 ^ 24) (s2 * 64 + n2 / 2 ^ 24)) as [H1|[H1|H1]]; [specialize (Hlt H1)|specialize (Heq H1)|specialize (Hgt H1)]; lia.
Qed.

Lemma noise_timestamps_monotone_witness : memcmp (tai64n_now 1700000000 16777215) (tai64n_now 1700000000 16777216) < 0.
Proof. apply (noise_timestamps_monotone 1700000000 16777215 1700000000 16777216); [lia|lia|done|done|]. right. split; reflexivity. Defined.

(** The key derivation is HKDF over HMAC-BLAKE2s as published (RFC 5869 and
    RFC 2104): with one, two or three destinations of 32 bytes it stores exactly
    the first, the first two or the first three blocks of the expansion. *)
Theorem noise_kdf_hkdf `{L : NoiseCryptoLaws} data ck :
  let prk := rfc5869_extract ck data in
  let out o := default [] o in
  (forall a b c, kdf (Some 32) None None data ck = (a, b, c) -> out a = rfc5869_expand prk 1 /\ b = None /\ c = None) /\
  (forall a b c, kdf (Some 32) (Some 32) None data ck = (a, b, c) -> out a ++ out b = rfc5869_expand prk 2 /\ c = None) /\
  (forall a b c, kdf (Some 32) (Some 32) (Some 32) data ck = (a, b, c) -> out a ++ out b ++ out c = rfc5869_expand prk 3).
Proof.
  intros prk out. unfold kdf, wanted, stored, rfc5869_expand. cbn [negb Z.eqb default]. change (Z.to_nat 32) with 32%nat.
  assert (forall text key, firstn 32 (hmac text key) = rfc2104_hmac key text) as E.
  { intros text key. rewrite hmac_rfc2104. rewrite <- (rfc2104_len key text). apply firstn_all. }
  cbn [seq map concat rfc5869_block app]. rewrite !E. unfold prk, rfc5869_extract. rewrite !hmac_rfc2104, !app_nil_r.
  split; [|split]; intros a b c [= <- <- <-]; done.
Qed.

Lemma noise_kdf_hkdf_witness : exists a b c, kdf (Some 32) (Some 32) (Some 32) [1; 2; 3] [4] = (a, b, c) /\
  default [] a ++ default [] b ++ default [] c = rfc5869_expand (rfc5869_extract [4] [1; 2; 3]) 3.
Proof.
  destruct (kdf (Some 32) (Some 32) (Some 32) [1; 2; 3] [4]) as [[a b] c] eqn:E. exists a, b, c. split; [done|].
  apply (proj2 (proj2 (noise_kdf_hkdf [1; 2; 3] [4]))). exact E.
Defined.

(** An initiation of an identity the device does not know changes nothing:
    its public key is announced to user space when the packet has a valid
    source.  When the allocation at the start of the function failed, which it
    does not check, it writes through the null pointer instead. *)
Theorem noise_unknown_peer `{L : NoiseCryptoLaws} siphash idI hsI ty1 secret sec nsec tbl entry rnd m hsI1 tbl1 wg skb_type endpoint_ok alive now now' :
  identity_ok (nd_identity wg) -> remote_static hsI = static_public (nd_identity wg) ->
  wg_noise_handshake_create_initiation idI hsI ty1 secret sec nsec tbl entry rnd = Some (Some m, hsI1, tbl1) ->
  wg_pubkey_hashtable_lookup siphash (nd_pubkeys wg) (static_public idI) alive = None ->
  wg_noise_handshake_consume_initiation siphash wg m skb_type true endpoint_ok alive now now' =
    Some (None, wg, if endpoint_ok then Some (static_public idI) else None) /\
  wg_noise_handshake_consume_initiation siphash wg m skb_type false endpoint_ok alive now now' = None.
Proof.
  intros [Hid Hpub] Hrs Hcr Hlook. apply create_initiation_inv in Hcr as (e & dh & idx & es & et & ck & h & _ & He & Hdh & _ & _ & Htr & -> & _).
  rewrite Hrs in Hdh, Htr. rewrite (dh_comm _ _ _ _ He Hpub) in Hdh.
  unfold wg_noise_handshake_consume_initiation, mix_dh, message_ephemeral. rewrite Hid. cbn [negb mi_unencrypted_ephemeral mi_encrypted_static].
  unfold transcript1, message_ephemeral in Htr. destruct (handshake_init (static_public (nd_identity wg))) as [ck0 h0]. rewrite Hdh.
  destruct (kdf2 dh (kdf1 e ck0)) as [ck2 k2]. unfold message_encrypt, message_decrypt in *. destruct (kdf2 (precomputed_static_static hsI) ck2) as [ck3 k3].
  injection Htr as <- <- <- <-. rewrite aead_open_seal, Hlook. done.
Qed.

Lemma noise_unknown_peer_witness :
  wg_noise_handshake_consume_initiation toy_siphash (toy_device 5 4) (toy_message 1) 1 true true (fun _ => true) 0 0 =
    Some (None, toy_device 5 4, Some (static_public (toy_identity 3))) /\
  wg_noise_handshake_consume_initiation toy_siphash (toy_device 5 4) (toy_message 1) 1 false true (fun _ => true) 0 0 = None.
Proof.
  apply (noise_unknown_peer toy_siphash (toy_identity 3) (np_handshake (toy_peer 3 5)) 1 (11 :: zeros 31) 1 0 ix_example 1 [1234] (toy_message 1)
    toy_initiator.1 toy_initiator.2 (toy_device 5 4) 1 true (fun _ => true) 0 0); [by apply toy_identity_ok|done|vm_compute; reflexivity|vm_compute; reflexivity].
Defined.
