(* ===== verification/Keypairs.v ===== *)
(** * Transport keypairs ([src/noise.c])

    The three keypair slots of a peer, the reference counts that keep a keypair
    in memory while packets use it, and the entries that lead to it from the
    index table.  Memory is explicit: a keypair is an address in a heap, a
    count that reaches zero leaves it there until the grace period ends, and
    touching an address that is no longer allocated is an error.  The heap
    holds the keypairs of one peer; the index table is the device's, and other
    peers may change it at any time. *)

From S2P Require Import Prelude Messages Replay PeerLookup Noise.
From stdpp Require Import gmap list fin_maps.
#[local] Open Scope Z_scope.

(** ** State *)

(** [entry] is the first member, so a keypair and its entry have one address. *)
Record noise_keypair := Keypair {
  sending : noise_symmetric_key;
  sending_counter : Z;
  receiving : noise_symmetric_key;
  receiving_counter : noise_replay_counter;
  kp_remote_index : Z;
  i_am_the_initiator : bool;
  refcount : Z;
  internal_id : Z
}.

Record noise_keypairs := Keypairs {
  current_keypair : option Z;
  previous_keypair : option Z;
  next_keypair : option Z
}.

Record kstate := KState {
  ks_pairs : gmap Z noise_keypair;
  ks_index : index_hashtable;
  keypair_counter : Z;
  ks_slots : noise_keypairs
}.

Definition set_refcount (n : Z) (kp : noise_keypair) : noise_keypair :=
  Keypair (sending kp) (sending_counter kp) (receiving kp) (receiving_counter kp) (kp_remote_index kp) (i_am_the_initiator kp) n (internal_id kp).
Definition invalidate_sending (kp : noise_keypair) : noise_keypair :=
  Keypair (SymKey (sk_key (sending kp)) (birthdate (sending kp)) false) (sending_counter kp) (receiving kp) (receiving_counter kp)
    (kp_remote_index kp) (i_am_the_initiator kp) (refcount kp) (internal_id kp).

Definition set_pair (x : Z) (kp : noise_keypair) (ks : kstate) : kstate :=
  KState (<[x := kp]> (ks_pairs ks)) (ks_index ks) (keypair_counter ks) (ks_slots ks).
Definition set_ks_index (t : index_hashtable) (ks : kstate) : kstate := KState (ks_pairs ks) t (keypair_counter ks) (ks_slots ks).
Definition set_slots (sl : noise_keypairs) (ks : kstate) : kstate := KState (ks_pairs ks) (ks_index ks) (keypair_counter ks) sl.
Definition set_current (o : option Z) (ks : kstate) : kstate :=
  set_slots (Keypairs o (previous_keypair (ks_slots ks)) (next_keypair (ks_slots ks))) ks.
Definition set_previous (o : option Z) (ks : kstate) : kstate :=
  set_slots (Keypairs (current_keypair (ks_slots ks)) o (next_keypair (ks_slots ks))) ks.
Definition set_next (o : option Z) (ks : kstate) : kstate :=
  set_slots (Keypairs (current_keypair (ks_slots ks)) (previous_keypair (ks_slots ks)) o) ks.

(** ** Operations *)

Definition no_key : noise_symmetric_key := SymKey (zeros NOISE_SYMMETRIC_KEY_LEN) 0 false.

(** [addr] is what [kzalloc] returns. *)
Definition keypair_create (addr : option Z) (peer : Z) (ks : kstate) : option Z * kstate :=
  match addr with
  | None => (None, ks)
  | Some a =>
      let id := u64 (keypair_counter ks + 1) in
      (Some a, KState (<[a := Keypair no_key 0 no_key replay_init 0 false 1 id]> (ks_pairs ks))
        (IndexTable (<[a := IndexEntry (Some peer) INDEX_HASHTABLE_KEYPAIR 0]> (ix_entries (ks_index ks))) (ix_heads (ks_index ks)))
        id (ks_slots ks))
  end.

(** The end of the grace period: the memory is zeroed and freed. *)
Definition keypair_free_rcu (x : Z) (ks : kstate) : kstate :=
  KState (delete x (ks_pairs ks)) (IndexTable (delete x (ix_entries (ks_index ks))) (ix_heads (ks_index ks))) (keypair_counter ks) (ks_slots ks).

(** The count is zero from here on; [call_rcu] frees the memory later. *)
Definition keypair_free_kref (x : Z) (ks : kstate) : kstate := set_ks_index (wg_index_hashtable_remove (ks_index ks) x) ks.

Definition wg_noise_keypair_put (keypair : option Z) (unreference_now : bool) (ks : kstate) : option kstate :=
  match keypair with
  | None => Some ks
  | Some x =>
      let ks := if unreference_now then set_ks_index (wg_index_hashtable_remove (ks_index ks) x) ks else ks in
      kp ← ks_pairs ks !! x;
      let ks := set_pair x (set_refcount (refcount kp - 1) kp) ks in
      Some (if refcount kp - 1 =? 0 then keypair_free_kref x ks else ks)
  end.

Definition wg_noise_keypair_get (keypair : option Z) (ks : kstate) : option (option Z * kstate) :=
  match keypair with
  | None => Some (None, ks)
  | Some x =>
      kp ← ks_pairs ks !! x;
      Some (if refcount kp =? 0 then (None, ks) else (Some x, set_pair x (set_refcount (refcount kp + 1) kp) ks))
  end.

Definition wg_noise_keypairs_clear (ks : kstate) : option kstate :=
  let old := next_keypair (ks_slots ks) in
  ks ← wg_noise_keypair_put old true (set_next None ks);
  let old := previous_keypair (ks_slots ks) in
  ks ← wg_noise_keypair_put old true (set_previous None ks);
  let old := current_keypair (ks_slots ks) in
  wg_noise_keypair_put old true (set_current None ks).

(** [if (keypair) keypair->sending.is_valid = false;] *)
Definition expire_sending (keypair : option Z) (ks : kstate) : option kstate :=
  match keypair with
  | None => Some ks
  | Some x => kp ← ks_pairs ks !! x; Some (set_pair x (invalidate_sending kp) ks)
  end.

Definition wg_noise_reset_last_sent_handshake (now : Z) : Z := u64 (now - u64 (REKEY_TIMEOUT + 1) * NSEC_PER_SEC).

(** The cleared handshake, the time stored in [last_sent_handshake] and the state. *)
Definition wg_noise_expire_current_peer_keypairs (hs : noise_handshake) (entry now : Z) (ks : kstate) :
    option (noise_handshake * Z * kstate) :=
  let '(tbl, hs) := wg_noise_handshake_clear entry (ks_index ks) hs in
  let ks := set_ks_index tbl ks in
  let last := wg_noise_reset_last_sent_handshake now in
  ks ← expire_sending (next_keypair (ks_slots ks)) ks;
  ks ← expire_sending (current_keypair (ks_slots ks)) ks;
  Some (hs, last, ks).

Definition add_new_keypair (new_keypair : Z) (ks : kstate) : option kstate :=
  let previous := previous_keypair (ks_slots ks) in
  let next := next_keypair (ks_slots ks) in
  let current := current_keypair (ks_slots ks) in
  kp ← ks_pairs ks !! new_keypair;
  if i_am_the_initiator kp then
    ks ← match next with
         | Some _ => wg_noise_keypair_put current true (set_previous next (set_next None ks))
         | None => Some (set_previous current ks)
         end;
    ks ← wg_noise_keypair_put previous true ks;
    Some (set_current (Some new_keypair) ks)
  else
    ks ← wg_noise_keypair_put next true (set_next (Some new_keypair) ks);
    wg_noise_keypair_put previous true (set_previous None ks).

Definition wg_noise_received_with_keypair (received_keypair : Z) (ks : kstate) : option (bool * kstate) :=
  let key_is_new := bool_decide (next_keypair (ks_slots ks) = Some received_keypair) in
  if negb key_is_new then Some (false, ks)
  else if bool_decide (next_keypair (ks_slots ks) <> Some received_keypair) then Some (false, ks)
  else
    let old_keypair := previous_keypair (ks_slots ks) in
    ks ← wg_noise_keypair_put old_keypair true (set_previous (current_keypair (ks_slots ks)) ks);
    Some (true, set_next None (set_current (Some received_keypair) ks)).

Section Session.

Context `{C : NoiseCrypto}.

(** The fields written by [wg_noise_handshake_begin_session] into the new pair. *)
Definition fill_keypair (hs : noise_handshake) (keys : bool * noise_symmetric_key * noise_symmetric_key) (kp : noise_keypair) : noise_keypair :=
  let '(initiator, s, r) := keys in
  Keypair s (sending_counter kp) r (receiving_counter kp) (remote_index hs) initiator (refcount kp) (internal_id kp).

(** Whether the session began, the handshake and the state; [entry] is the
    handshake's entry in the index table and [addr] the result of the
    allocation. *)
Definition wg_noise_handshake_begin_session (hs : noise_handshake) (entry peer : Z) (addr : option Z) (now : Z) (is_dead : bool) (ks : kstate) :
    option (bool * noise_handshake * kstate) :=
  match session_keys hs now with
  | None => Some (false, hs, ks)
  | Some keys =>
      let '(new_keypair, ks) := keypair_create addr peer ks in
      match new_keypair with
      | None => Some (false, hs, ks)
      | Some x =>
          kp ← ks_pairs ks !! x;
          let ks := set_pair x (fill_keypair hs keys kp) ks in
          let hs := handshake_zero hs in
          if negb is_dead then
            ks ← add_new_keypair x ks;
            let '(ret, tbl) := wg_index_hashtable_replace (ks_index ks) entry x in
            Some (ret, hs, set_ks_index tbl ks)
          else Some (false, hs, keypair_free_rcu x ks)
      end
  end.

End Session.

(** * Reference counting *)

Definition held (o : option Z) (x : Z) : Z := if bool_decide (o = Some x) then 1 else 0.
Definition slot_refs (sl : noise_keypairs) (x : Z) : Z := held (current_keypair sl) x + held (previous_keypair sl) x + held (next_keypair sl) x.

(** Every count is the number of references, and nothing refers to memory that
    is not allocated. *)
Definition counted (ps : gmap Z noise_keypair) (cnt : Z -> Z) : Prop :=
  forall x, 0 <= cnt x /\ match ps !! x with Some kp => refcount kp = cnt x | None => cnt x = 0 end.

(** The same keypairs up to their counts. *)
Definition same_pairs (ps ps' : gmap Z noise_keypair) : Prop := forall x, set_refcount 0 <$> ps' !! x = set_refcount 0 <$> ps !! x.

Definition in_index (ks : kstate) (x : Z) : Prop := linked (ix_heads (ks_index ks)) x.

Lemma held_none x : held None x = 0.
Proof. done. Qed.

Lemma held_eq o x : held o x = 1 <-> o = Some x.
Proof. unfold held. case_bool_decide; split; done. Qed.

Lemma held_cases o x : (o = Some x /\ held o x = 1) \/ (o <> Some x /\ held o x = 0).
Proof. unfold held. case_bool_decide; auto. Qed.

Lemma same_pairs_refl ps : same_pairs ps ps.
Proof. done. Qed.

Lemma same_pairs_trans ps1 ps2 ps3 : same_pairs ps1 ps2 -> same_pairs ps2 ps3 -> same_pairs ps1 ps3.
Proof. intros H1 H2 x. by rewrite H2. Qed.

Lemma same_pairs_get ps ps' x kp : same_pairs ps ps' -> ps !! x = Some kp -> exists kp', ps' !! x = Some kp' /\ set_refcount 0 kp' = set_refcount 0 kp.
Proof. intros H Hx. specialize (H x). rewrite Hx in H. destruct (ps' !! x) as [kp'|]; [|done]. injection H. intros. eexists. split; [done|]. by unfold set_refcount; f_equal. Qed.

Lemma counted_live ps cnt x : counted ps cnt -> 0 < cnt x -> exists kp, ps !! x = Some kp /\ refcount kp = cnt x.
Proof. intros H Hx. destruct (H x) as [_ Hc]. destruct (ps !! x) as [kp|]; [by exists kp|lia]. Qed.

Lemma counted_ext ps cnt cnt' : (forall x, cnt x = cnt' x) -> counted ps cnt -> counted ps cnt'.
Proof. intros E H x. rewrite <- E. apply H. Qed.

(** Changing the count of one keypair. *)
Lemma counted_set ps cnt x kp n : ps !! x = Some kp -> 0 <= n -> counted ps cnt ->
  counted (<[x := set_refcount n kp]> ps) (fun y => if y =? x then n else cnt y) /\ same_pairs ps (<[x := set_refcount n kp]> ps).
Proof.
  intros Hx Hn Hc. split.
  - intros y. destruct (Z.eqb_spec y x) as [->|D]; [by rewrite lookup_insert_eq|]. rewrite lookup_insert_ne by done. apply Hc.
  - intros y. destruct (decide (y = x)) as [->|D]; [by rewrite lookup_insert_eq, Hx|]. by rewrite lookup_insert_ne.
Qed.

(** Dropping a reference that is held: it is safe, and the keypair leaves the
    index table when asked to or when it was the last reference. *)
Lemma put_ok o u ks cnt : counted (ks_pairs ks) cnt -> ix_ok (ks_index ks) -> (forall x, o = Some x -> 0 < cnt x) ->
  exists ks', wg_noise_keypair_put o u ks = Some ks' /\ counted (ks_pairs ks') (fun y => cnt y - held o y) /\ ix_ok (ks_index ks') /\
    ks_slots ks' = ks_slots ks /\ ix_entries (ks_index ks') = ix_entries (ks_index ks) /\ same_pairs (ks_pairs ks) (ks_pairs ks') /\
    forall y, in_index ks' y <-> in_index ks y /\ ~ (o = Some y /\ (u = true \/ cnt y = 1)).
Proof.
  intros Hc Hix Ho. destruct o as [x|]; cbn [wg_noise_keypair_put].
  2:{ exists ks. ands; try done. - eapply counted_ext; [|done]. intros y. rewrite held_none. lia. - intros y. naive_solver. }
  destruct (counted_live _ _ x Hc (Ho x eq_refl)) as (kp & Hkp & Hr).
  assert (ks_pairs (if u then set_ks_index (wg_index_hashtable_remove (ks_index ks) x) ks else ks) = ks_pairs ks) as -> by (by destruct u).
  rewrite Hkp. cbn [mbind option_bind]. eexists. split; [done|]. specialize (Ho x eq_refl).
  destruct (counted_set _ cnt x kp (refcount kp - 1) Hkp ltac:(lia) Hc) as [Hc' Hsame].
  assert (forall y, (if y =? x then refcount kp - 1 else cnt y) = cnt y - held (Some x) y) as Ecnt.
  { intros y. unfold held. destruct (Z.eqb_spec y x) as [->|D]; [rewrite bool_decide_true by done; lia|rewrite bool_decide_false by congruence; lia]. }
  pose proof (counted_ext _ _ _ Ecnt Hc') as Hc''. destruct (remove_ok _ x Hix) as [Hix' _]. destruct (remove_ok _ x Hix') as [Hix'' _].
  unfold keypair_free_kref, in_index. destruct u, (Z.eqb_spec (refcount kp - 1) 0); ands; try done; intros y;
    cbn [ix_heads wg_index_hashtable_remove set_ks_index ks_index set_pair]; rewrite ?linked_del;
    (destruct (decide (y = x)) as [->|D]; [|assert (Some x <> Some y) by congruence]); intuition (try congruence; try lia).
Qed.

(** ** The invariant *)

(** The references outside the slots (packets being processed) and the keypairs
    confirmed by a packet. *)
Record refs := Refs { outside : Z -> Z; confirmed : gset Z }.

Record kinv (ks : kstate) (g : refs) : Prop := {
  kinv_index : ix_ok (ks_index ks);
  kinv_counted : counted (ks_pairs ks) (fun x => slot_refs (ks_slots ks) x + outside g x);
  kinv_outside : forall x, 0 <= outside g x;
  kinv_distinct : forall x, slot_refs (ks_slots ks) x <= 1;
  kinv_linked : forall x, is_Some (ks_pairs ks !! x) -> in_index ks x -> slot_refs (ks_slots ks) x = 1;
  kinv_next : forall x kp, next_keypair (ks_slots ks) = Some x -> ks_pairs ks !! x = Some kp -> i_am_the_initiator kp = false;
  kinv_current : forall x kp, current_keypair (ks_slots ks) = Some x -> ks_pairs ks !! x = Some kp -> i_am_the_initiator kp = true \/ x ∈ confirmed g
}.

Lemma held_range o x : 0 <= held o x <= 1.
Proof. destruct (held_cases o x); lia. Qed.

(** Puts the bounds of the counts of [y] in the context. *)
Ltac slot_counts y :=
  repeat match goal with
  | |- context [held ?o y] => lazymatch goal with H : 0 <= held o y <= 1 |- _ => fail | _ => pose proof (held_range o y) end
  | _ : context [held ?o y] |- _ => lazymatch goal with H : 0 <= held o y <= 1 |- _ => fail | _ => pose proof (held_range o y) end
  end.

(** Dropping the references of two slots one after the other. *)
Lemma put_slot_ok o ks cnt : counted (ks_pairs ks) cnt -> ix_ok (ks_index ks) -> (forall x, held o x <= cnt x) ->
  exists ks', wg_noise_keypair_put o true ks = Some ks' /\ counted (ks_pairs ks') (fun y => cnt y - held o y) /\ ix_ok (ks_index ks') /\
    ks_slots ks' = ks_slots ks /\ ix_entries (ks_index ks') = ix_entries (ks_index ks) /\ same_pairs (ks_pairs ks) (ks_pairs ks') /\
    forall y, in_index ks' y <-> in_index ks y /\ held o y = 0.
Proof.
  intros Hc Hix Ho. destruct (put_ok o true ks cnt Hc Hix) as (ks' & H1 & H2 & H3 & H4 & H5 & H6 & H7).
  { intros x ->. specialize (Ho x). pose proof (proj2 (held_eq (Some x) x) eq_refl). lia. }
  exists ks'. ands; try done. intros y. rewrite H7. destruct (held_cases o y) as [[-> ->]|[Hne ->]]; naive_solver.
Qed.

(** The slots after a new keypair. *)
Definition slots_add (initiator : bool) (new : Z) (sl : noise_keypairs) : noise_keypairs :=
  if initiator then
    Keypairs (Some new) (match next_keypair sl with Some n => Some n | None => current_keypair sl end) None
  else Keypairs (current_keypair sl) None (Some new).

Lemma add_new_keypair_ok new kp out ks : ks_pairs ks !! new = Some kp -> ix_ok (ks_index ks) -> (forall x, 0 <= out x) ->
  counted (ks_pairs ks) (fun x => slot_refs (ks_slots ks) x + out x + held (Some new) x) ->
  slot_refs (ks_slots ks) new = 0 -> (forall x, slot_refs (ks_slots ks) x <= 1) ->
  exists ks', add_new_keypair new ks = Some ks' /\ ks_slots ks' = slots_add (i_am_the_initiator kp) new (ks_slots ks) /\
    counted (ks_pairs ks') (fun x => slot_refs (ks_slots ks') x + out x) /\ ix_ok (ks_index ks') /\
    ix_entries (ks_index ks') = ix_entries (ks_index ks) /\ same_pairs (ks_pairs ks) (ks_pairs ks') /\
    forall y, in_index ks' y <-> in_index ks y /\ slot_refs (ks_slots ks) y <= slot_refs (ks_slots ks') y.
Proof.
  intros Hkp Hix Hout Hc Hnew Hdis. destruct ks as [ps ix kc [cur prev next]]. unfold add_new_keypair, slots_add, slot_refs in *. cbn [ks_pairs ks_slots ks_index current_keypair previous_keypair next_keypair] in *.
  rewrite Hkp. cbn [mbind option_bind].
  assert (forall y, held (Some new) y = 1 -> held cur y + held prev y + held next y = 0) as Hn1.
  { intros y [= <-]%held_eq. done. }
  destruct (i_am_the_initiator kp).
  - destruct next as [n|].
    + destruct (put_slot_ok cur (set_previous (Some n) (set_next None (KState ps ix kc (Keypairs cur prev (Some n))))) _ Hc Hix)
        as (ks1 & E1 & C1 & I1 & S1 & En1 & Sm1 & L1); [intros y; specialize (Hout y); cbn; slot_counts y; lia|].
      rewrite E1. cbn [mbind option_bind]. destruct (put_slot_ok prev ks1 _ C1 I1) as (ks2 & E2 & C2 & I2 & S2 & En2 & Sm2 & L2); [intros y; specialize (Hout y); slot_counts y; lia|].
      rewrite E2. cbn [mbind option_bind]. eexists. split; [done|]. cbn in S1. cbn. rewrite S2, S1. cbn. ands; try done; [|by rewrite En2, ?En1|by eapply same_pairs_trans|].
      * eapply counted_ext; [|exact C2]. intros y. cbn. rewrite held_none. lia.
      * intros y. unfold in_index in *. cbn. rewrite L2, L1. cbn. specialize (Hn1 y). specialize (Hdis y). rewrite held_none. slot_counts y. intuition lia.
    + cbn [mbind option_bind]. destruct (put_slot_ok prev (set_previous cur (KState ps ix kc (Keypairs cur prev None))) _ Hc Hix)
        as (ks1 & E1 & C1 & I1 & S1 & En1 & Sm1 & L1); [intros y; specialize (Hout y); cbn; slot_counts y; lia|].
      rewrite E1. cbn [mbind option_bind]. eexists. split; [done|]. cbn in S1. cbn. rewrite S1. cbn. ands; try done.
      * eapply counted_ext; [|exact C1]. intros y. cbn. rewrite !held_none. lia.
      * intros y. unfold in_index in *. cbn. rewrite L1. cbn. specialize (Hn1 y). specialize (Hdis y). rewrite !held_none in *. slot_counts y. intuition lia.
  - destruct (put_slot_ok next (set_next (Some new) (KState ps ix kc (Keypairs cur prev next))) _ Hc Hix)
      as (ks1 & E1 & C1 & I1 & S1 & En1 & Sm1 & L1); [intros y; specialize (Hout y); cbn; slot_counts y; lia|].
    rewrite E1. cbn [mbind option_bind]. destruct (put_slot_ok prev (set_previous None ks1) _ C1 I1)
      as (ks2 & E2 & C2 & I2 & S2 & En2 & Sm2 & L2); [intros y; specialize (Hout y); slot_counts y; lia|].
    rewrite E2. eexists. split; [done|]. cbn in S1, S2. rewrite S2, S1. cbn. ands; try done; [|by rewrite En2, ?En1|by eapply same_pairs_trans|].
    + eapply counted_ext; [|exact C2]. intros y. cbn. rewrite held_none. lia.
    + intros y. unfold in_index in *. rewrite L2. cbn. rewrite L1. cbn. specialize (Hn1 y). specialize (Hdis y). rewrite held_none in *. slot_counts y. intuition lia.
Qed.

Lemma same_initiator ps ps' x kp : same_pairs ps ps' -> ps' !! x = Some kp -> exists kp0, ps !! x = Some kp0 /\ i_am_the_initiator kp0 = i_am_the_initiator kp.
Proof.
  intros H Hx. specialize (H x). rewrite Hx in H. destruct (ps !! x) as [kp0|]; [|done]. exists kp0. split; [done|].
  injection H. auto.
Qed.

Lemma same_is_some ps ps' x : same_pairs ps ps' -> is_Some (ps' !! x) -> is_Some (ps !! x).
Proof. intros H Hx. specialize (H x). destruct Hx as [kp Hx]. rewrite Hx in H. by destruct (ps !! x). Qed.

Lemma clear_ok ks g : kinv ks g -> exists ks', wg_noise_keypairs_clear ks = Some ks' /\ kinv ks' g /\ ks_slots ks' = Keypairs None None None /\
  same_pairs (ks_pairs ks) (ks_pairs ks') /\ forall y, in_index ks' y <-> in_index ks y /\ slot_refs (ks_slots ks) y = 0.
Proof.
  intros [Hix Hc Hout Hdis Hli Hne Hcu]. destruct ks as [ps ix kc [cur prev next]]. unfold wg_noise_keypairs_clear, slot_refs in *.
  cbn [ks_pairs ks_slots ks_index current_keypair previous_keypair next_keypair] in *.
  destruct (put_slot_ok next (set_next None (KState ps ix kc (Keypairs cur prev next))) _ Hc Hix)
    as (ks1 & -> & C1 & I1 & S1 & _ & Sm1 & L1); [intros y; specialize (Hout y); slot_counts y; lia|]. cbn [mbind option_bind]. rewrite S1.
  destruct (put_slot_ok prev (set_previous None ks1) _ C1 I1) as (ks2 & E2 & C2 & I2 & S2 & _ & Sm2 & L2); [intros y; specialize (Hout y); slot_counts y; lia|].
  cbn [set_next set_slots ks_slots current_keypair previous_keypair next_keypair]. rewrite E2. cbn [mbind option_bind]. cbn in S1, S2. rewrite S1 in S2. cbn in S2. rewrite S2.
  destruct (put_slot_ok cur (set_current None ks2) _ C2 I2) as (ks3 & E3 & C3 & I3 & S3 & _ & Sm3 & L3); [intros y; specialize (Hout y); slot_counts y; lia|].
  cbn [current_keypair]. rewrite E3. exists ks3. split; [done|]. cbn in S3. rewrite S2 in S3. cbn in S3. rewrite S3. cbn in Sm2, Sm3.
  assert (same_pairs ps (ks_pairs ks3)) as Sm by (eapply same_pairs_trans; [|exact Sm3]; by eapply same_pairs_trans).
  assert (forall y, in_index ks3 y <-> in_index (KState ps ix kc (Keypairs cur prev next)) y /\ held cur y + held prev y + held next y = 0) as HL.
  { intros y. unfold in_index in *. rewrite L3. cbn. rewrite L2. cbn. rewrite L1. cbn. slot_counts y. intuition lia. }
  ands; try done. split; rewrite ?S3; try done.
  - eapply counted_ext; [|exact C3]. intros y. unfold slot_refs. cbn. rewrite !held_none. lia.
  - intros x Hx Hl. apply HL in Hl as [Hl H0]. apply (same_is_some _ _ _ Sm) in Hx. specialize (Hli x Hx Hl). lia.
Qed.

Lemma received_ok x ks g : kinv ks g ->
  exists b ks', wg_noise_received_with_keypair x ks = Some (b, ks') /\ b = bool_decide (next_keypair (ks_slots ks) = Some x) /\
    kinv ks' (Refs (outside g) (if b then {[x]} ∪ confirmed g else confirmed g)) /\ same_pairs (ks_pairs ks) (ks_pairs ks') /\
    ks_slots ks' = (if b then Keypairs (Some x) (current_keypair (ks_slots ks)) None else ks_slots ks) /\
    forall y, in_index ks' y <-> in_index ks y /\ slot_refs (ks_slots ks) y <= slot_refs (ks_slots ks') y.
Proof.
  intros Hinv. unfold wg_noise_received_with_keypair. case_bool_decide as Hx; cbn [negb].
  2:{ eexists _, _. split; [done|]. split; [done|]. split; [by destruct Hinv|]. split; [done|]. split; [done|]. intros y. intuition lia. }
  rewrite bool_decide_false by auto. destruct Hinv as [Hix Hc Hout Hdis Hli Hne Hcu]. destruct ks as [ps ix kc [cur prev next]]. unfold slot_refs in *.
  cbn [ks_pairs ks_slots ks_index current_keypair previous_keypair next_keypair] in *. subst next.
  destruct (put_slot_ok prev (set_previous cur (KState ps ix kc (Keypairs cur prev (Some x)))) _ Hc Hix)
    as (ks1 & E1 & C1 & I1 & S1 & _ & Sm1 & L1); [intros y; specialize (Hout y); cbn; slot_counts y; lia|].
  rewrite E1. cbn [mbind option_bind]. eexists _, _. split; [done|]. split; [done|]. cbn in S1, Sm1.
  assert (forall y, in_index (set_next None (set_current (Some x) ks1)) y <-> in_index (KState ps ix kc (Keypairs cur prev (Some x))) y /\ held prev y = 0) as HL by done.
  cbn. rewrite S1. cbn. split.
  - split; cbn; rewrite ?S1; cbn; try done.
    + eapply counted_ext; [|exact C1]. intros y. unfold slot_refs. cbn. rewrite held_none. lia.
    + intros y. unfold slot_refs. cbn. rewrite held_none. specialize (Hdis y). slot_counts y. lia.
    + intros y Hy Hl. apply HL in Hl as [Hl H0]. apply (same_is_some _ _ _ Sm1) in Hy. specialize (Hli y Hy Hl). unfold slot_refs. cbn. rewrite held_none. lia.
    + intros y kp [= <-] Hy. right. set_solver.
  - ands; try done. intros y. rewrite HL. rewrite held_none. specialize (Hdis y). slot_counts y. intuition lia.
Qed.

(** The entries that are on no list do not matter. *)
Lemma ix_ok_entries t en : ix_ok t -> (forall x, linked (ix_heads t) x -> en !! x = ix_entries t !! x) ->
  ix_ok (IndexTable en (ix_heads t)) /\ forall idx, ix_get (IndexTable en (ix_heads t)) idx = ix_get t idx.
Proof.
  intros Hok He. assert (forall x, linked (ix_heads t) x -> ix_index (IndexTable en (ix_heads t)) x = ix_index t x) as Hi.
  { intros x Hx. unfold ix_index. cbn. by rewrite He. }
  assert (ix_ok (IndexTable en (ix_heads t))) as Hok'.
  { split; cbn [ix_heads]; [|apply Hok|].
    - intros i x Hx. rewrite Hi by (by exists i). by apply (ix_place _ Hok).
    - intros x y idx Hx Hy. rewrite !Hi by done. by apply (ix_unique _ Hok). }
  split; [done|]. intros idx. apply (ix_get_ext t _ idx idx (fun o => o)); [done|done|]. intros y. cbn [ix_heads].
  rewrite ix_get_iff by done. split; intros [Hl H]; (split; [done|]); [by rewrite <- Hi|by rewrite Hi].
Qed.

(** An address the allocator may return. *)
Definition fresh (addr : option Z) (entry : Z) (ks : kstate) : Prop :=
  forall a, addr = Some a -> ks_pairs ks !! a = None /\ ~ in_index ks a /\ a <> entry.

(** Reusing an address forgets what was known of the keypair that was there. *)
Definition forget (addr : option Z) (g : refs) : refs :=
  Refs (outside g) (match addr with Some a => confirmed g ∖ {[a]} | None => confirmed g end).

Lemma kinv_forget ks g addr entry : fresh addr entry ks -> kinv ks g -> kinv ks (forget addr g).
Proof.
  intros Hf [Hix Hc Hout Hdis Hli Hne Hcu]. split; try done. intros x kp Hx Hkp. destruct (Hcu x kp Hx Hkp) as [|Hin]; [by left|right].
  destruct addr as [a|]; [|done]. destruct (Hf a eq_refl) as (Ha & _). cbn. apply elem_of_difference. split; [done|]. intros ->%elem_of_singleton. congruence.
Qed.

Section SessionProofs.

Context `{C : NoiseCrypto}.

(** The new keypair as the session creates it. *)
Definition new_pair (hs : noise_handshake) (keys : bool * noise_symmetric_key * noise_symmetric_key) (id : Z) : noise_keypair :=
  Keypair keys.1.2 0 keys.2 replay_init (remote_index hs) keys.1.1 1 id.

Lemma begin_dead_ok hs entry peer a now ks g keys : session_keys hs now = Some keys -> fresh (Some a) entry ks -> kinv ks g ->
  exists ks', wg_noise_handshake_begin_session hs entry peer (Some a) now true ks = Some (false, handshake_zero hs, ks') /\
    kinv ks' g /\ ks_pairs ks' = ks_pairs ks /\ ks_slots ks' = ks_slots ks /\ forall y, in_index ks' y <-> in_index ks y.
Proof.
  intros Hk Hf [Hix Hc Hout Hdis Hli Hne Hcu]. destruct (Hf a eq_refl) as (Ha & Hla & Hae). unfold wg_noise_handshake_begin_session. rewrite Hk.
  cbn [keypair_create ks_pairs]. rewrite lookup_insert_eq. cbn [mbind option_bind negb]. eexists. split; [done|].
  unfold keypair_free_rcu, set_pair. cbn. rewrite insert_insert_eq, delete_insert_id by done. ands; try done. split; try done. cbn.
  apply (ix_ok_entries (ks_index ks)); [done|]. intros x Hx. rewrite lookup_delete_ne, lookup_insert_ne; [done|..]; by intros ->.
Qed.

(** The slots with one more keypair hold it once and the others at most once. *)
Lemma slots_add_refs b a sl : slot_refs sl a = 0 -> (forall x, slot_refs sl x <= 1) ->
  slot_refs (slots_add b a sl) a = 1 /\ forall x, slot_refs (slots_add b a sl) x <= 1.
Proof.
  intros Ha Hdis. destruct sl as [cur prev next]. unfold slots_add, slot_refs in *. cbn in *.
  assert (held (Some a) a = 1) as E by (by apply held_eq). assert (forall y, held (Some a) y = 1 -> held cur y + held prev y + held next y = 0) as H1.
  { intros y [= <-]%held_eq. done. }
  destruct b, next as [n|]; cbn; rewrite ?held_none, ?E in *; (split; [slot_counts a; lia|intros y; specialize (Hdis y); specialize (H1 y); rewrite ?held_none in *; slot_counts y; lia]).
Qed.

(** The state in which the new keypair exists but is in no slot yet. *)
Definition with_pair (a peer : Z) (kp : noise_keypair) (ks : kstate) : kstate :=
  KState (<[a := kp]> (ks_pairs ks))
    (IndexTable (<[a := IndexEntry (Some peer) INDEX_HASHTABLE_KEYPAIR 0]> (ix_entries (ks_index ks))) (ix_heads (ks_index ks)))
    (internal_id kp) (ks_slots ks).

Lemma with_pair_ok a peer kp ks g entry : fresh (Some a) entry ks -> kinv ks g -> refcount kp = 1 ->
  ix_ok (ks_index (with_pair a peer kp ks)) /\ (forall idx, ix_get (ks_index (with_pair a peer kp ks)) idx = ix_get (ks_index ks) idx) /\
  counted (ks_pairs (with_pair a peer kp ks)) (fun x => slot_refs (ks_slots ks) x + outside g x + held (Some a) x) /\ slot_refs (ks_slots ks) a = 0.
Proof.
  intros Hf [Hix Hc Hout Hdis Hli Hne Hcu] Hr. destruct (Hf a eq_refl) as (Ha & Hla & _).
  assert (slot_refs (ks_slots ks) a = 0 /\ outside g a = 0) as [Hs0 Ho0].
  { destruct (Hc a) as [_ H]. rewrite Ha in H. specialize (Hout a). unfold slot_refs in *. slot_counts a. lia. }
  destruct (ix_ok_entries (ks_index ks) (<[a := IndexEntry (Some peer) INDEX_HASHTABLE_KEYPAIR 0]> (ix_entries (ks_index ks))) Hix) as [Hok Hget].
  { intros x Hx. rewrite lookup_insert_ne; [done|]. by intros ->. }
  ands; try done. intros x. destruct (Hc x) as [H0 H1]. cbn [with_pair ks_pairs]. destruct (decide (x = a)) as [->|D].
  - rewrite lookup_insert_eq, (proj2 (held_eq (Some a) a) eq_refl). lia.
  - rewrite lookup_insert_ne by done. assert (held (Some a) x = 0) as -> by (destruct (held_cases (Some a) x) as [[? ?]|[? ?]]; [congruence|done]).
    split; [lia|]. destruct (ks_pairs ks !! x); lia.
Qed.

(** Handing the index of the handshake to the keypair. *)
Lemma hand_over_ok t entry a : ix_ok t -> ~ linked (ix_heads t) a -> is_Some (ix_entries t !! a) ->
  exists t', wg_index_hashtable_replace t entry a = (hashed (ix_heads t) entry, t') /\ ix_ok t' /\
    (hashed (ix_heads t) entry = true -> forall idx, ix_get t idx = Some entry -> ix_get t' idx = Some a) /\
    (forall y, y <> a -> y <> entry -> linked (ix_heads t') y <-> linked (ix_heads t) y).
Proof.
  intros Hok Ha He. destruct (hashed (ix_heads t) entry) eqn:Eh.
  - apply hashed_linked in Eh as Hl. destruct (replace_ok t entry a Hok Hl Ha He) as (t' & E & Hok' & _ & Hget). exists t'.
    split; [done|]. split; [done|]. split; [intros _ idx Hidx; rewrite Hget, Hidx; cbn; by rewrite Z.eqb_refl|].
    unfold wg_index_hashtable_replace in E. rewrite Eh in E. destruct Hl as [i Hi]. destruct (ix_place _ Hok i entry Hi) as (idx & Hidx & _). rewrite Hidx in E.
    injection E as <-. intros y Hy1 Hy2. cbn [ix_heads set_index]. rewrite linked_replace. naive_solver.
  - exists t. unfold wg_index_hashtable_replace. by rewrite Eh.
Qed.

(** The invariant with the new keypair in its slot. *)
Lemma begin_kinv a peer kp0 ks ks2 t' g : ks_pairs ks !! a = None -> kinv ks g -> slot_refs (ks_slots ks) a = 0 ->
  ks_slots ks2 = slots_add (i_am_the_initiator kp0) a (ks_slots ks) ->
  counted (ks_pairs ks2) (fun x => slot_refs (ks_slots ks2) x + outside g x) -> same_pairs (ks_pairs (with_pair a peer kp0 ks)) (ks_pairs ks2) -> ix_ok t' ->
  (forall y, is_Some (ks_pairs ks !! y) -> in_index (set_ks_index t' ks2) y -> slot_refs (ks_slots ks2) y = 1) ->
  slot_refs (ks_slots ks2) a = 1 -> (forall x, slot_refs (ks_slots ks2) x <= 1) -> kinv (set_ks_index t' ks2) (forget (Some a) g).
Proof.
  intros Ha [Hix Hc Hout Hdis Hli Hne Hcu] Hs0 Hsl Hc2 Hsm Hok' Hli' Hs1 Hdis'. split; cbn [ks_slots set_ks_index ks_pairs ks_index]; try done.
  - intros x Hx Hl. destruct (decide (x = a)) as [->|D]; [done|]. apply Hli'; [|done]. apply (same_is_some _ _ _ Hsm) in Hx. cbn in Hx. by rewrite lookup_insert_ne in Hx.
  - intros x kp Hx Hkp. rewrite Hsl in Hx. destruct (same_initiator _ _ _ _ Hsm Hkp) as (kp1 & Hkp1 & <-). cbn in Hkp1. unfold slots_add in Hx.
    destruct (i_am_the_initiator kp0) eqn:Ei; [done|]. injection Hx as <-. rewrite lookup_insert_eq in Hkp1. congruence.
  - intros x kp Hx Hkp. rewrite Hsl in Hx. destruct (same_initiator _ _ _ _ Hsm Hkp) as (kp1 & Hkp1 & <-). cbn in Hkp1. unfold slots_add in Hx.
    destruct (i_am_the_initiator kp0) eqn:Ei; cbn in Hx.
    + injection Hx as <-. rewrite lookup_insert_eq in Hkp1. left. congruence.
    + assert (x <> a) as D. { intros ->. unfold slot_refs in Hs0. rewrite Hx, (proj2 (held_eq (Some a) a) eq_refl) in Hs0. slot_counts a. lia. }
      rewrite lookup_insert_ne in Hkp1 by done. destruct (Hcu x kp1 Hx Hkp1); [by left|right]. cbn. set_solver.
Qed.

Lemma begin_run hs entry peer a now ks keys : session_keys hs now = Some keys ->
  wg_noise_handshake_begin_session hs entry peer (Some a) now false ks =
    (ks2 ← add_new_keypair a (with_pair a peer (new_pair hs keys (u64 (keypair_counter ks + 1))) ks);
     let '(ret, tbl) := wg_index_hashtable_replace (ks_index ks2) entry a in Some (ret, handshake_zero hs, set_ks_index tbl ks2)).
Proof.
  intros Hk. unfold wg_noise_handshake_begin_session. rewrite Hk. cbn [keypair_create ks_pairs]. rewrite lookup_insert_eq. cbn [mbind option_bind negb].
  unfold set_pair, with_pair, new_pair, fill_keypair. cbn [ks_pairs ks_index keypair_counter ks_slots internal_id]. rewrite insert_insert_eq.
  destruct keys as [[ini s1] r1]. done.
Qed.

Lemma begin_ok hs entry peer a now ks g keys : session_keys hs now = Some keys -> fresh (Some a) entry ks -> ks_pairs ks !! entry = None -> kinv ks g ->
  exists b ks', wg_noise_handshake_begin_session hs entry peer (Some a) now false ks = Some (b, handshake_zero hs, ks') /\
    kinv ks' (forget (Some a) g) /\ ks_slots ks' = slots_add keys.1.1 a (ks_slots ks) /\ b = hashed (ix_heads (ks_index ks)) entry /\
    (exists kp id, ks_pairs ks' !! a = Some kp /\ set_refcount 0 kp = set_refcount 0 (new_pair hs keys id)) /\
    (b = true -> forall idx, ix_get (ks_index ks) idx = Some entry -> ix_get (ks_index ks') idx = Some a) /\
    forall y, ks_pairs ks !! y <> None -> in_index ks' y <-> in_index ks y /\ slot_refs (ks_slots ks) y <= slot_refs (ks_slots ks') y.
Proof.
  intros Hk Hf He Hinv. rewrite (begin_run _ _ _ _ _ _ _ Hk). set (kp0 := new_pair _ _ _). set (ks1 := with_pair a peer kp0 ks).
  destruct (with_pair_ok a peer kp0 ks g entry Hf Hinv eq_refl) as (Hix1 & Hget1 & Hc1 & Hs0). fold ks1 in Hix1, Hget1, Hc1.
  pose proof Hinv as [Hix Hc Hout Hdis Hli Hne Hcu]. destruct (Hf a eq_refl) as (Ha & Hla & Hae).
  assert (ks_pairs ks1 !! a = Some kp0) as Hkp by apply lookup_insert_eq.
  destruct (add_new_keypair_ok a kp0 (outside g) ks1 Hkp Hix1 Hout Hc1 Hs0 Hdis) as (ks2 & -> & Hsl & Hc2 & Hix2 & Hen2 & Hsm & HL).
  cbn [mbind option_bind]. change (ks_slots ks1) with (ks_slots ks) in *. destruct (slots_add_refs keys.1.1 a _ Hs0 Hdis) as [Hs1 Hdis'].
  assert (slot_refs (ks_slots ks) entry = 0) as Hse by (destruct (Hc entry) as [_ H]; rewrite He in H; specialize (Hout entry); unfold slot_refs in *; slot_counts entry; lia).
  assert (in_index ks2 entry <-> in_index ks entry) as Hent.
  { rewrite HL, Hse. change (in_index ks1 entry) with (in_index ks entry). unfold slot_refs. slot_counts entry. intuition lia. }
  destruct (hand_over_ok (ks_index ks2) entry a Hix2) as (t' & Er & Hok' & Hidx & Hlk).
  { intros H. apply HL in H as [H _]. by apply Hla. }
  { rewrite Hen2. cbn. by rewrite lookup_insert_eq. }
  rewrite Er. eexists _, _. split; [done|]. cbn [ks_slots set_ks_index ks_pairs ks_index].
  assert (hashed (ix_heads (ks_index ks2)) entry = hashed (ix_heads (ks_index ks)) entry) as Eh.
  { apply eq_true_iff_eq. rewrite !hashed_linked. apply Hent. }
  change (i_am_the_initiator kp0) with keys.1.1 in Hsl.
  assert (forall y, ks_pairs ks !! y <> None -> in_index (set_ks_index t' ks2) y <-> in_index ks y /\ slot_refs (ks_slots ks) y <= slot_refs (ks_slots ks2) y) as HL'.
  { intros y Hy. unfold in_index. cbn. rewrite Hlk by congruence. apply HL. }
  ands; try done.
  - apply (begin_kinv a peer kp0 ks ks2 t' g); try done.
    + intros y Hy Hl. apply HL' in Hl as [Hl Hle]; [|by destruct Hy as [? ->]]. specialize (Hli y Hy Hl). specialize (Hdis' y). rewrite <- Hsl in Hdis'. lia.
    + by rewrite Hsl.
    + rewrite Hsl. done.
  - destruct (same_pairs_get _ _ a kp0 Hsm Hkp) as (kp & Hkp' & E). eauto.
  - intros Hb idx Hi. apply Hidx; [done|]. apply ix_get_iff; [done|]. rewrite <- Hget1 in Hi. apply ix_get_iff in Hi as [Hl Hi]; [|done].
    split; [by apply Hent|]. unfold ix_index. rewrite Hen2. exact Hi.
Qed.

End SessionProofs.

(** ** Runs *)

Section Runs.

Context `{C : NoiseCrypto}.

(** What can happen to the keypairs of a peer.  A reader that found a keypair
    under RCU tries to take a reference; a packet drops its own or confirms the
    keypair it was received with; the peer's keypairs are cleared, expired or
    joined by a new one; a grace period ends; another peer uses the index table. *)
Inductive kop :=
| KGet (x : Z)
| KPut (x : Z)
| KReceived (x : Z)
| KClear
| KExpire (hs : noise_handshake) (entry now : Z)
| KBegin (hs : noise_handshake) (entry peer : Z) (addr : option Z) (now : Z) (is_dead : bool)
| KFree (x : Z)
| KOther (t : index_hashtable).

(** When: a handshake's entry is not a keypair's, the allocator returns fresh
    memory, only the holder of a reference drops it, only dead memory is freed,
    and other peers do not put this peer's entries into the table. *)
Definition allowed (op : kop) (ks : kstate) (g : refs) : Prop :=
  match op with
  | KGet x => is_Some (ks_pairs ks !! x)
  | KPut x | KReceived x => 0 < outside g x
  | KClear => True
  | KExpire _ entry _ => ks_pairs ks !! entry = None
  | KBegin _ entry _ addr _ _ => fresh addr entry ks /\ ks_pairs ks !! entry = None
  | KFree x => exists kp, ks_pairs ks !! x = Some kp /\ refcount kp = 0
  | KOther t => ix_ok t /\ forall x, is_Some (ks_pairs ks !! x) -> linked (ix_heads t) x -> in_index ks x
  end.

Definition add_ref (x n : Z) (g : refs) : refs := Refs (fun y => if y =? x then outside g y + n else outside g y) (confirmed g).

Definition confirm (x : Z) (b : bool) (g : refs) : refs := Refs (outside g) (if b then {[x]} ∪ confirmed g else confirmed g).

Definition run_kop (op : kop) (ks : kstate) (g : refs) : option (kstate * refs) :=
  match op with
  | KGet x => '(r, ks) ← wg_noise_keypair_get (Some x) ks; Some (ks, match r with Some _ => add_ref x 1 g | None => g end)
  | KPut x => ks ← wg_noise_keypair_put (Some x) false ks; Some (ks, add_ref x (-1) g)
  | KReceived x => '(b, ks) ← wg_noise_received_with_keypair x ks; Some (ks, confirm x b g)
  | KClear => ks ← wg_noise_keypairs_clear ks; Some (ks, g)
  | KExpire hs entry now => '(_, _, ks) ← wg_noise_expire_current_peer_keypairs hs entry now ks; Some (ks, g)
  | KBegin hs entry peer addr now is_dead => '(_, _, ks) ← wg_noise_handshake_begin_session hs entry peer addr now is_dead ks; Some (ks, forget addr g)
  | KFree x => Some (keypair_free_rcu x ks, g)
  | KOther t => Some (set_ks_index t ks, g)
  end.

Inductive reachable : kstate -> refs -> Prop :=
| reachable_init t kc : ix_ok t -> reachable (KState ∅ t kc (Keypairs None None None)) (Refs (fun _ => 0) ∅)
| reachable_step ks g op ks' g' : reachable ks g -> allowed op ks g -> run_kop op ks g = Some (ks', g') -> reachable ks' g'.

Lemma kinv_init t kc : ix_ok t -> kinv (KState ∅ t kc (Keypairs None None None)) (Refs (fun _ => 0) ∅).
Proof. intros Ht. split; try done. intros x. cbn. rewrite lookup_empty. by intros [kp Hkp]. Qed.

(** Operations that leave the slots alone. *)
Definition flags_kept (ps ps' : gmap Z noise_keypair) : Prop := forall x, i_am_the_initiator <$> ps' !! x = i_am_the_initiator <$> ps !! x.

Lemma same_flags ps ps' : same_pairs ps ps' -> flags_kept ps ps'.
Proof. intros H x. specialize (H x). destruct (ps !! x), (ps' !! x); try done. cbn in *. injection H. congruence. Qed.

Lemma kinv_kept ks g ks' out : kinv ks g -> ks_slots ks' = ks_slots ks -> flags_kept (ks_pairs ks) (ks_pairs ks') ->
  counted (ks_pairs ks') (fun x => slot_refs (ks_slots ks) x + out x) -> (forall x, 0 <= out x) -> ix_ok (ks_index ks') ->
  (forall y, in_index ks' y -> in_index ks y) -> kinv ks' (Refs out (confirmed g)).
Proof.
  intros [Hix Hc Hout Hdis Hli Hne Hcu] Hsl Hfl Hc' Hout' Hix' Hin.
  assert (forall x kp, ks_pairs ks' !! x = Some kp -> exists kp0, ks_pairs ks !! x = Some kp0 /\ i_am_the_initiator kp0 = i_am_the_initiator kp) as Hf.
  { intros x kp Hx. specialize (Hfl x). rewrite Hx in Hfl. destruct (ks_pairs ks !! x) as [kp0|]; [|done]. exists kp0. split; [done|]. cbn in Hfl. congruence. }
  split; rewrite ?Hsl; cbn; try done.
  - intros x [kp Hx] Hl. destruct (Hf x kp Hx) as (kp0 & Hx0 & _). by apply Hli; [rewrite Hx0|apply Hin].
  - intros x kp Hx Hkp. destruct (Hf x kp Hkp) as (kp0 & Hx0 & <-). by eapply Hne.
  - intros x kp Hx Hkp. destruct (Hf x kp Hkp) as (kp0 & Hx0 & <-). by eapply Hcu.
Qed.

Lemma get_ok x ks g : kinv ks g -> is_Some (ks_pairs ks !! x) ->
  exists r ks', wg_noise_keypair_get (Some x) ks = Some (r, ks') /\ kinv ks' (match r with Some _ => add_ref x 1 g | None => g end).
Proof.
  intros Hinv [kp Hkp]. unfold wg_noise_keypair_get. rewrite Hkp. cbn [mbind option_bind].
  destruct (Z.eqb_spec (refcount kp) 0) as [E|E]; eexists _, _; (split; [done|]); [done|].
  pose proof (kinv_counted _ _ Hinv) as Hc. pose proof (Hc x) as [H0 H1]. rewrite Hkp in H1.
  destruct (counted_set _ _ x kp (refcount kp + 1) Hkp ltac:(lia) Hc) as [Hc' Hsm].
  apply (kinv_kept ks g); [done|done|by apply same_flags| | |apply Hinv|done].
  - eapply counted_ext; [|exact Hc']. intros y. cbn. destruct (Z.eqb_spec y x) as [->|D]; lia.
  - intros y. pose proof (kinv_outside _ _ Hinv y). destruct (y =? x); lia.
Qed.

Lemma put_outside_ok x ks g : kinv ks g -> 0 < outside g x ->
  exists ks', wg_noise_keypair_put (Some x) false ks = Some ks' /\ kinv ks' (add_ref x (-1) g).
Proof.
  intros Hinv Hx. destruct (put_ok (Some x) false ks _ (kinv_counted _ _ Hinv) (kinv_index _ _ Hinv)) as (ks' & E & C1 & I1 & S1 & _ & Sm & L1).
  { intros y [= <-]. unfold slot_refs. slot_counts x. lia. }
  exists ks'. split; [done|]. apply (kinv_kept ks g); [done|done|by apply same_flags| | |done|intros y [? _]%L1; done].
  - eapply counted_ext; [|exact C1]. intros y. cbn. unfold held. destruct (Z.eqb_spec y x) as [->|D]; [rewrite bool_decide_true by done; lia|].
    rewrite bool_decide_false by congruence. lia.
  - intros y. pose proof (kinv_outside _ _ Hinv y). destruct (Z.eqb_spec y x) as [->|D]; lia.
Qed.

(** Invalidating the key of a slot. *)
Lemma expire_sending_ok o ks g : kinv ks g -> (forall x, o = Some x -> 0 < slot_refs (ks_slots ks) x) ->
  exists ks', expire_sending o ks = Some ks' /\ kinv ks' g /\ ks_slots ks' = ks_slots ks /\ ks_index ks' = ks_index ks /\
    forall y, ks_pairs ks' !! y = if bool_decide (o = Some y) then invalidate_sending <$> ks_pairs ks !! y else ks_pairs ks !! y.
Proof.
  intros Hinv Ho. destruct o as [x|]; cbn [expire_sending]; [|exists ks; ands; done].
  destruct (counted_live _ _ x (kinv_counted _ _ Hinv)) as (kp & Hkp & Hr); [specialize (Ho x eq_refl); pose proof (kinv_outside _ _ Hinv x); lia|].
  rewrite Hkp. cbn [mbind option_bind]. eexists. split; [done|].
  assert (forall y, <[x := invalidate_sending kp]> (ks_pairs ks) !! y = if bool_decide (Some x = Some y) then invalidate_sending <$> ks_pairs ks !! y else ks_pairs ks !! y) as E.
  { intros y. destruct (decide (y = x)) as [->|D]; [by rewrite lookup_insert_eq, bool_decide_true, Hkp|]. by rewrite lookup_insert_ne, bool_decide_false by congruence. }
  split; [|done]. destruct g as [out conf]. apply (kinv_kept ks (Refs out conf)); [done|done| | |apply Hinv|apply Hinv|done].
  - intros y. cbn. rewrite E. case_bool_decide; [|done]. by destruct (ks_pairs ks !! y).
  - intros y. cbn. rewrite E. pose proof (kinv_counted _ _ Hinv y) as [H0 H1]. split; [done|]. case_bool_decide; [|done]. by destruct (ks_pairs ks !! y).
Qed.

Lemma slot_current ks x : current_keypair (ks_slots ks) = Some x -> 0 < slot_refs (ks_slots ks) x.
Proof. intros H. unfold slot_refs. rewrite H, (proj2 (held_eq (Some x) x) eq_refl). slot_counts x. lia. Qed.

Lemma slot_previous ks x : previous_keypair (ks_slots ks) = Some x -> 0 < slot_refs (ks_slots ks) x.
Proof. intros H. unfold slot_refs. rewrite H, (proj2 (held_eq (Some x) x) eq_refl). slot_counts x. lia. Qed.

Lemma slot_next ks x : next_keypair (ks_slots ks) = Some x -> 0 < slot_refs (ks_slots ks) x.
Proof. intros H. unfold slot_refs. rewrite H, (proj2 (held_eq (Some x) x) eq_refl). slot_counts x. lia. Qed.

Lemma expire_ok hs entry now ks g : kinv ks g -> exists ks', wg_noise_expire_current_peer_keypairs hs entry now ks =
    Some (handshake_zero hs, wg_noise_reset_last_sent_handshake now, ks') /\ kinv ks' g /\ ks_slots ks' = ks_slots ks /\
    (forall y, in_index ks' y <-> in_index ks y /\ y <> entry) /\
    forall y, ks_pairs ks' !! y = if bool_decide (next_keypair (ks_slots ks) = Some y) || bool_decide (current_keypair (ks_slots ks) = Some y)
                                 then invalidate_sending <$> ks_pairs ks !! y else ks_pairs ks !! y.
Proof.
  intros Hinv. unfold wg_noise_expire_current_peer_keypairs, wg_noise_handshake_clear.
  set (ks0 := set_ks_index (wg_index_hashtable_remove (ks_index ks) entry) ks).
  assert (forall y, in_index ks0 y <-> in_index ks y /\ y <> entry) as HL by (intros y; apply linked_del).
  assert (kinv ks0 g) as Hinv0.
  { destruct g as [out conf]. apply (kinv_kept ks (Refs out conf)); try done; [apply Hinv..| |intros y [? _]%HL; done]. apply remove_ok, Hinv. }
  destruct (expire_sending_ok (next_keypair (ks_slots ks0)) ks0 g Hinv0) as (ks1 & -> & Hinv1 & S1 & X1 & P1); [intros x Hx; by apply slot_next|]. cbn [mbind option_bind].
  destruct (expire_sending_ok (current_keypair (ks_slots ks1)) ks1 g Hinv1) as (ks2 & -> & Hinv2 & S2 & X2 & P2); [intros x Hx; by apply slot_current|]. cbn [mbind option_bind].
  exists ks2. split; [done|]. split; [done|]. split; [by rewrite S2, S1|]. split; [intros y; unfold in_index; rewrite X2, X1; apply HL|].
  intros y. rewrite P2, P1, S1. change (ks_pairs ks0) with (ks_pairs ks). change (ks_slots ks0) with (ks_slots ks).
  destruct (bool_decide (next_keypair (ks_slots ks) = Some y)), (bool_decide (current_keypair (ks_slots ks) = Some y)); try done. by destruct (ks_pairs ks !! y).
Qed.

(** The end of a grace period. *)
Lemma keypair_free_ok x kp ks g : kinv ks g -> ks_pairs ks !! x = Some kp -> refcount kp = 0 ->
  ~ in_index ks x /\ slot_refs (ks_slots ks) x = 0 /\ outside g x = 0 /\ kinv (keypair_free_rcu x ks) g.
Proof.
  intros Hinv Hkp Hr. pose proof (kinv_counted _ _ Hinv x) as [_ H1]. rewrite Hkp in H1. pose proof (kinv_outside _ _ Hinv x) as H2.
  assert (slot_refs (ks_slots ks) x = 0 /\ outside g x = 0) as [Hs Ho] by (unfold slot_refs in *; slot_counts x; lia).
  assert (~ in_index ks x) as Hl by (intros Hl; pose proof (kinv_linked _ _ Hinv x ltac:(by rewrite Hkp) Hl); lia). ands; try done.
  destruct Hinv as [Hix Hc Hout Hdis Hli Hne Hcu]. split; cbn; try done.
  - apply (ix_ok_entries (ks_index ks)); [done|]. intros y Hy. rewrite lookup_delete_ne; [done|]. by intros ->.
  - intros y. cbn. destruct (decide (y = x)) as [->|D]; [rewrite lookup_delete_eq; lia|]. rewrite lookup_delete_ne by done. apply Hc.
  - intros y [kp' Hy]. apply lookup_delete_Some in Hy as [_ Hy]. apply Hli. by rewrite Hy.
  - intros y kp' Hy Hkp'. apply lookup_delete_Some in Hkp' as [_ Hkp']. by eapply Hne.
  - intros y kp' Hy Hkp'. apply lookup_delete_Some in Hkp' as [_ Hkp']. by eapply Hcu.
Qed.

(** Every allowed step is safe and keeps the invariant. *)
Lemma kop_ok op ks g : kinv ks g -> allowed op ks g -> exists ks' g', run_kop op ks g = Some (ks', g') /\ kinv ks' g'.
Proof.
  intros Hinv Hal. destruct op as [x|x|x| |hs entry now|hs entry peer addr now is_dead|x|t]; cbn [run_kop allowed] in *.
  - destruct (get_ok x ks g Hinv Hal) as (r & ks' & -> & H). cbn. eauto.
  - destruct (put_outside_ok x ks g Hinv Hal) as (ks' & -> & H). cbn. eauto.
  - destruct (received_ok x ks g Hinv) as (b & ks' & -> & _ & H & _). cbn. eauto.
  - destruct (clear_ok ks g Hinv) as (ks' & -> & H & _). cbn. eauto.
  - destruct (expire_ok hs entry now ks g Hinv) as (ks' & -> & H & _). cbn. eauto.
  - destruct Hal as [Hf He]. pose proof (kinv_forget ks g addr entry Hf Hinv) as Hinv'. unfold wg_noise_handshake_begin_session at 1.
    destruct (session_keys hs now) as [keys|] eqn:Ek; [|cbn; eauto]. destruct addr as [a|]; [|cbn; eauto].
    destruct is_dead.
    + destruct (begin_dead_ok hs entry peer a now ks _ keys Ek Hf Hinv') as (ks' & E & H & _). unfold wg_noise_handshake_begin_session in E. rewrite Ek in E. rewrite E. cbn. eauto.
    + destruct (begin_ok hs entry peer a now ks g keys Ek Hf He Hinv) as (b & ks' & E & H & _). unfold wg_noise_handshake_begin_session in E. rewrite Ek in E. rewrite E. cbn. eauto.
  - destruct Hal as (kp & Hkp & Hr). destruct (keypair_free_ok x kp ks g Hinv Hkp Hr) as (_ & _ & _ & H). eauto.
  - destruct Hal as [Ht Hl]. eexists _, _. split; [done|]. destruct Hinv as [Hix Hc Hout Hdis Hli Hne Hcu]. split; cbn; try done. intros x Hx Hin. apply Hli; [done|]. by apply Hl.
Qed.

Lemma reachable_kinv ks g : reachable ks g -> kinv ks g.
Proof.
  induction 1 as [t kc Ht|ks g op ks' g' _ IH Hal Hrun]; [by apply kinv_init|].
  destruct (kop_ok op ks g IH Hal) as (ks1 & g1 & E & H). rewrite Hrun in E. by injection E as <- <-.
Qed.

End Runs.

(** * Theorems *)

(** C4: in every state the keypairs of a peer can reach, by any interleaving of
    packets, handshakes, expirations, grace periods and activity of other
    peers: every operation is safe (none touches memory that is not allocated);
    the reference count of a keypair is exactly the number of slots and packets
    that refer to it; no keypair is in two slots; the index table leads to a
    keypair only while it is in a slot, never to memory about to be freed; a
    keypair waiting in [next] is one we answered, and [current] holds only keypairs
    we initiated or whose use the other side has confirmed with a packet. *)
Theorem keypairs_safe `{C : NoiseCrypto} ks g : reachable ks g ->
  (forall op, allowed op ks g -> is_Some (run_kop op ks g)) /\
  (forall x kp, ks_pairs ks !! x = Some kp -> refcount kp = slot_refs (ks_slots ks) x + outside g x /\
     slot_refs (ks_slots ks) x <= 1 /\ (in_index ks x -> slot_refs (ks_slots ks) x = 1 /\ 0 < refcount kp)) /\
  (forall x, 0 < slot_refs (ks_slots ks) x \/ 0 < outside g x -> is_Some (ks_pairs ks !! x)) /\
  (forall x, next_keypair (ks_slots ks) = Some x -> exists kp, ks_pairs ks !! x = Some kp /\ i_am_the_initiator kp = false) /\
  (forall x, current_keypair (ks_slots ks) = Some x ->
     exists kp, ks_pairs ks !! x = Some kp /\ (i_am_the_initiator kp = true \/ x ∈ confirmed g)).
Proof.
  intros Hr. apply reachable_kinv in Hr as Hinv.
  assert (forall x, 0 < slot_refs (ks_slots ks) x \/ 0 < outside g x -> is_Some (ks_pairs ks !! x)) as Hlive.
  { intros x Hx. destruct (counted_live _ _ x (kinv_counted _ _ Hinv)) as (kp & -> & _); [|done].
    pose proof (kinv_outside _ _ Hinv x). unfold slot_refs in *. slot_counts x. lia. }
  ands; [| |done| |].
  - intros op Hal. destruct (kop_ok op ks g Hinv Hal) as (ks' & g' & -> & _). done.
  - intros x kp Hkp. pose proof (kinv_counted _ _ Hinv x) as [_ Hc]. rewrite Hkp in Hc. split; [done|]. split; [apply Hinv|].
    intros Hl. pose proof (kinv_linked _ _ Hinv x ltac:(by rewrite Hkp) Hl). pose proof (kinv_outside _ _ Hinv x). lia.
  - intros x Hx. destruct (Hlive x) as [kp Hkp]; [left; by apply slot_next|]. exists kp. split; [done|]. by apply (kinv_next _ _ Hinv x).
  - intros x Hx. destruct (Hlive x) as [kp Hkp]; [left; by apply slot_current|]. exists kp. split; [done|]. by apply (kinv_current _ _ Hinv x).
Qed.

(** An empty state on the index table of the handshake with entry 1. *)
Definition kp_example : kstate := KState ∅ ix_example 0 (Keypairs None None None).

Lemma kp_example_reachable : reachable (C := toy_crypto) kp_example (Refs (fun _ => 0) ∅).
Proof. apply reachable_init, (proj1 ix_example_ok). Qed.

(** A responder's handshake that is ready to become a session. *)
Definition hs_example (st : noise_handshake_state) : noise_handshake := set_state st (np_handshake (toy_peer 3 5)).

Lemma kp_example_fresh : fresh (Some 100) 1 kp_example.
Proof. intros a [= <-]. split; [done|]. split; [|done]. intros [i Hi]. cbn in Hi. rewrite bucket_empty in Hi. inversion Hi. Qed.

Lemma keypairs_safe_witness : exists ks g, run_kop (C := toy_crypto) (KBegin (hs_example HANDSHAKE_CREATED_RESPONSE) 1 7 (Some 100) 0 false)
    kp_example (Refs (fun _ => 0) ∅) = Some (ks, g) /\
  exists kp, ks_pairs ks !! 100 = Some kp /\ refcount kp = 1 /\ i_am_the_initiator kp = false.
Proof.
  destruct (run_kop (C := toy_crypto) (KBegin (hs_example HANDSHAKE_CREATED_RESPONSE) 1 7 (Some 100) 0 false) kp_example (Refs (fun _ => 0) ∅)) as [[ks g]|] eqn:E.
  - exists ks, g. split; [done|]. destruct (keypairs_safe (C := toy_crypto) ks g) as (_ & Hc & _ & Hn & _).
    { eapply reachable_step; [apply kp_example_reachable| |exact E]. split; [apply kp_example_fresh|done]. }
    assert (ks_slots ks = Keypairs None None (Some 100) /\ outside g 100 = 0) as [Hs Ho] by (cbn in E; injection E as <- <-; done).
    destruct (Hn 100) as (kp & Hkp & Hi); [by rewrite Hs|]. exists kp. destruct (Hc 100 kp Hkp) as (Hr & _). rewrite Hs, Ho in Hr. done.
  - exfalso. destruct (proj1 (keypairs_safe (C := toy_crypto) kp_example _ kp_example_reachable)
      (KBegin (hs_example HANDSHAKE_CREATED_RESPONSE) 1 7 (Some 100) 0 false)) as [r Hr]; [split; [apply kp_example_fresh|done]|]. rewrite E in Hr. discriminate.
Defined.

(** A finished handshake becomes a session: a new keypair with zeroed
    counters holds the two keys of the handshake and the peer's index, goes to
    [current] when we initiated (with the older keypairs moving down) and to
    [next] when we answered, where it waits for confirmation while [current]
    stays in use; the secrets of the handshake are erased; the index that was
    announced in the handshake leads to the keypair from then on (unless the
    handshake was removed from the table, which the result tells); keypairs
    pushed out of the slots leave the index table, all others stay.  Without a
    finished handshake or without memory nothing changes. *)
Theorem keypairs_begin_session `{C : NoiseCrypto} ks g hs entry peer addr now : reachable ks g -> fresh addr entry ks -> ks_pairs ks !! entry = None ->
  match session_keys hs now, addr with
  | Some (initiator, s, r), Some a =>
      exists b ks' kp, wg_noise_handshake_begin_session hs entry peer addr now false ks = Some (b, handshake_zero hs, ks') /\
        ks_slots ks' = slots_add initiator a (ks_slots ks) /\ ks_pairs ks' !! a = Some kp /\
        sending kp = s /\ receiving kp = r /\ sending_counter kp = 0 /\ receiving_counter kp = replay_init /\
        kp_remote_index kp = remote_index hs /\ i_am_the_initiator kp = initiator /\ refcount kp = 1 /\
        (b = true <-> in_index ks entry) /\
        (forall idx, ix_get (ks_index ks) idx = Some entry -> b = true /\ ix_get (ks_index ks') idx = Some a) /\
        forall y, is_Some (ks_pairs ks !! y) -> in_index ks' y <-> in_index ks y /\ slot_refs (ks_slots ks) y <= slot_refs (ks_slots ks') y
  | _, _ => wg_noise_handshake_begin_session hs entry peer addr now false ks = Some (false, hs, ks)
  end.
Proof.
  intros Hr%reachable_kinv Hf He. destruct (session_keys hs now) as [[[ini s] r]|] eqn:Ek; [|unfold wg_noise_handshake_begin_session; by rewrite Ek].
  destruct addr as [a|]; [|unfold wg_noise_handshake_begin_session; by rewrite Ek].
  destruct (begin_ok hs entry peer a now ks g _ Ek Hf He Hr) as (b & ks' & E & Hinv' & Hsl & Hb & (kp & id & Hkp & Hnew) & Hidx & HL).
  exists b, ks', kp. injection Hnew as H1 H2 H3 H4 H5 H6 H7. cbn in H1, H2, H3, H4, H5, H6, Hsl.
  assert (slot_refs (ks_slots ks) a = 0 /\ outside g a = 0) as [Hs0 Ho0].
  { destruct (Hf a eq_refl) as (Ha & _). pose proof (kinv_counted _ _ Hr a) as [_ Hc]. rewrite Ha in Hc. pose proof (kinv_outside _ _ Hr a). unfold slot_refs in *. slot_counts a. lia. }
  ands; try done.
  - pose proof (kinv_counted _ _ Hinv' a) as [_ Hc]. rewrite Hkp in Hc. cbn in Hc. rewrite Hsl, (proj1 (slots_add_refs ini a _ Hs0 (kinv_distinct _ _ Hr))), Ho0 in Hc. done.
  - rewrite Hb. apply hashed_linked.
  - intros idx Hi. assert (b = true) as Hbt. { rewrite Hb. apply hashed_linked. by apply ix_get_iff in Hi as [? _]; [|apply Hr]. } split; [done|]. by apply Hidx.
  - intros y Hy. apply HL. by destruct Hy as [? ->].
Qed.

Lemma keypairs_begin_session_witness : exists b ks', wg_noise_handshake_begin_session (C := toy_crypto) (hs_example HANDSHAKE_CONSUMED_RESPONSE) 1 7 (Some 100) 0 false kp_example =
    Some (b, handshake_zero (hs_example HANDSHAKE_CONSUMED_RESPONSE), ks') /\ ks_slots ks' = Keypairs (Some 100) None None.
Proof.
  pose proof (keypairs_begin_session (C := toy_crypto) kp_example _ (hs_example HANDSHAKE_CONSUMED_RESPONSE) 1 7 (Some 100) 0 kp_example_reachable kp_example_fresh eq_refl) as H.
  cbn [session_keys hs_example set_state hs_state derive_keys] in H. destruct (derive_keys (C := toy_crypto) (chaining_key (hs_example HANDSHAKE_CONSUMED_RESPONSE)) 0) as [k1 k2].
  destruct H as (b & ks' & kp & E & Hs & _). by exists b, ks'.
Defined.

(** How keypairs retire.  The first packet received with the waiting keypair
    makes it current, the old current one previous, and drops the old previous
    one from the index table; packets of any other keypair change nothing.
    Clearing empties the slots and the index table of all of the peer's
    keypairs.  Expiring erases the handshake, takes it out of the index table,
    and leaves no valid sending key in [current] or [next]. *)
Theorem keypairs_retire `{C : NoiseCrypto} ks g x hs entry now : reachable ks g ->
  (exists b ks', wg_noise_received_with_keypair x ks = Some (b, ks') /\ (b = true <-> next_keypair (ks_slots ks) = Some x) /\
     ks_slots ks' = (if b then Keypairs (Some x) (current_keypair (ks_slots ks)) None else ks_slots ks) /\
     forall y, in_index ks' y <-> in_index ks y /\ slot_refs (ks_slots ks) y <= slot_refs (ks_slots ks') y) /\
  (exists ks', wg_noise_keypairs_clear ks = Some ks' /\ ks_slots ks' = Keypairs None None None /\
     (forall y kp, ks_pairs ks' !! y = Some kp -> ~ in_index ks' y /\ refcount kp = outside g y) /\
     forall y, ks_pairs ks !! y = None -> in_index ks' y <-> in_index ks y) /\
  (exists ks', wg_noise_expire_current_peer_keypairs hs entry now ks = Some (handshake_zero hs, wg_noise_reset_last_sent_handshake now, ks') /\
     ~ in_index ks' entry /\ ks_slots ks' = ks_slots ks /\
     forall y kp, next_keypair (ks_slots ks) = Some y \/ current_keypair (ks_slots ks) = Some y -> ks_pairs ks' !! y = Some kp -> is_valid (sending kp) = false).
Proof.
  intros Hr%reachable_kinv. split; [|split].
  - destruct (received_ok x ks g Hr) as (b & ks' & E & -> & _ & _ & Hs & HL). eexists _, ks'. split; [done|]. split; [apply bool_decide_eq_true|]. done.
  - destruct (clear_ok ks g Hr) as (ks' & E & Hinv' & Hs & Hsm & HL). exists ks'. ands; try done.
    + intros y kp Hy. pose proof (kinv_counted _ _ Hinv' y) as [_ Hc]. rewrite Hy, Hs in Hc. split; [|exact Hc].
      intros [Hl H0]%HL. pose proof (kinv_linked _ _ Hr y (same_is_some _ _ _ Hsm ltac:(by rewrite Hy)) Hl). lia.
    + intros y Hy. rewrite HL. pose proof (kinv_counted _ _ Hr y) as [_ Hc]. rewrite Hy in Hc. pose proof (kinv_outside _ _ Hr y). unfold slot_refs in *. slot_counts y. intuition lia.
  - destruct (expire_ok hs entry now ks g Hr) as (ks' & E & _ & Hs & HL & HP). exists ks'. ands; try done.
    + intros [_ ?]%HL. done.
    + intros y kp Hy Hkp. rewrite HP in Hkp. assert (bool_decide (next_keypair (ks_slots ks) = Some y) || bool_decide (current_keypair (ks_slots ks) = Some y) = true) as Eb.
      { destruct Hy as [Hy|Hy]; rewrite Hy, (bool_decide_true (Some y = Some y)) by done; [done|apply orb_true_r]. }
      rewrite Eb in Hkp. destruct (ks_pairs ks !! y) as [kp0|]; [|done]. injection Hkp as <-. done.
Qed.

(** The state after one answered handshake. *)
Definition kp_example1 : kstate * refs :=
  default (kp_example, Refs (fun _ => 0) ∅)
    (run_kop (C := toy_crypto) (KBegin (hs_example HANDSHAKE_CREATED_RESPONSE) 1 7 (Some 100) 0 false) kp_example (Refs (fun _ => 0) ∅)).

Lemma keypairs_retire_witness : next_keypair (ks_slots kp_example1.1) = Some 100 /\
  exists b ks', wg_noise_received_with_keypair 100 kp_example1.1 = Some (b, ks') /\ ks_slots ks' = Keypairs (Some 100) None None.
Proof.
  assert (reachable (C := toy_crypto) kp_example1.1 kp_example1.2) as Hr.
  { eapply (reachable_step _ _ (KBegin (hs_example HANDSHAKE_CREATED_RESPONSE) 1 7 (Some 100) 0 false)); [apply kp_example_reachable|split; [apply kp_example_fresh|done]|reflexivity]. }
  split; [reflexivity|]. destruct (keypairs_retire (C := toy_crypto) _ _ 100 (hs_example HANDSHAKE_ZEROED) 1 0 Hr) as ((b & ks' & E & Hb & Hs & _) & _).
  exists b, ks'. split; [exact E|]. rewrite (proj2 Hb eq_refl) in Hs. exact Hs.
Defined.
