(* ===== verification/Queueing.v ===== *)
(** * The per-peer packet queue ([src/queueing.c], [src/queueing.h])

    [prev_queue] is an intrusive queue with many producers and one consumer,
    linked through the [prev] pointers of the packets, with a stub node inside
    the queue itself.  The operations are given as in the source, and once more
    as a step relation in which every access to memory shared between CPUs is a
    step of its own, so that producers and the consumer interleave freely. *)

From S2P Require Import Prelude Messages.
From stdpp Require Import gmap list fin_maps.
#[local] Open Scope Z_scope.

(** ** The operations *)

(** A packet is an address; [STUB] is that of [queue->empty]. *)
Definition STUB : Z := 0.

(** [next] holds the [prev] pointer of every packet, absent for [NULL]. *)
Record prev_queue := PrevQueue {
  pq_head : Z;
  pq_tail : Z;
  pq_peeked : option Z;
  pq_count : Z;
  pq_next : gmap Z Z
}.

Definition set_link (x : Z) (v : option Z) (m : gmap Z Z) : gmap Z Z := match v with Some y => <[x := y]> m | None => delete x m end.

Definition set_head (h : Z) (q : prev_queue) : prev_queue := PrevQueue h (pq_tail q) (pq_peeked q) (pq_count q) (pq_next q).
Definition set_tail (t : Z) (q : prev_queue) : prev_queue := PrevQueue (pq_head q) t (pq_peeked q) (pq_count q) (pq_next q).
Definition set_peeked (p : option Z) (q : prev_queue) : prev_queue := PrevQueue (pq_head q) (pq_tail q) p (pq_count q) (pq_next q).
Definition set_count (n : Z) (q : prev_queue) : prev_queue := PrevQueue (pq_head q) (pq_tail q) (pq_peeked q) n (pq_next q).
Definition set_NEXT (x : Z) (v : option Z) (q : prev_queue) : prev_queue :=
  PrevQueue (pq_head q) (pq_tail q) (pq_peeked q) (pq_count q) (set_link x v (pq_next q)).

Definition NEXT (q : prev_queue) (x : Z) : option Z := pq_next q !! x.

(** [mem] is what the packets' pointers hold when the queue is set up. *)
Definition wg_prev_queue_init (mem : gmap Z Z) : prev_queue := PrevQueue STUB STUB None 0 (set_link STUB None mem).

Definition prev_queue_enqueue (q : prev_queue) (skb : Z) : prev_queue :=
  let q := set_NEXT skb None q in
  let old := pq_head q in
  set_NEXT old (Some skb) (set_head skb q).

Definition wg_prev_queue_enqueue (q : prev_queue) (skb : Z) : bool * prev_queue :=
  if pq_count q =? MAX_QUEUED_PACKETS then (false, q)
  else (true, prev_queue_enqueue (set_count (pq_count q + 1) q) skb).

(** From the point where [tail] and [next] are known. *)
Definition dequeue_tail (q : prev_queue) (tail : Z) (next : option Z) : option Z * prev_queue :=
  match next with
  | Some n => (Some tail, set_count (pq_count q - 1) (set_tail n q))
  | None =>
      if negb (tail =? pq_head q) then (None, q)
      else
        let q := prev_queue_enqueue q STUB in
        match NEXT q tail with
        | Some n => (Some tail, set_count (pq_count q - 1) (set_tail n q))
        | None => (None, q)
        end
  end.

Definition wg_prev_queue_dequeue (q : prev_queue) : option Z * prev_queue :=
  let tail := pq_tail q in
  let next := NEXT q tail in
  if tail =? STUB then
    match next with
    | None => (None, q)
    | Some n => let q := set_tail n q in dequeue_tail q n (NEXT q n)
    end
  else dequeue_tail q tail next.

Definition wg_prev_queue_peek (q : prev_queue) : option Z * prev_queue :=
  match pq_peeked q with
  | Some p => (Some p, q)
  | None => let '(r, q) := wg_prev_queue_dequeue q in (r, set_peeked r q)
  end.

Definition wg_prev_queue_drop_peeked (q : prev_queue) : prev_queue := set_peeked None q.

(** ** Interleaving *)

(** Where the producer of a packet stands: it has raised the count, cleared the
    packet's pointer, or exchanged the head and still has to link [old]. *)
Inductive producer := PCounted | PCleared | PLinking (old : Z).

(** Where the consumer stands inside [wg_prev_queue_dequeue]; the arguments are
    its local variables. *)
Inductive consumer :=
| CIdle
| CSkipped (tail : Z)                       (* passed the stub, about to read NEXT(tail) *)
| CLoaded (tail : Z) (next : option Z)      (* has tail and next *)
| CAlone (tail : Z)                         (* saw that tail is the head *)
| CStubCleared (tail : Z)
| CStubLinking (tail old : Z)
| CReload (tail : Z).                       (* about to read NEXT(tail) again *)

(** The queue, the producers by packet, the consumer, and the two histories:
    packets in the order their producers exchanged the head, and packets in the
    order the consumer returned them. *)
Record mpsc := Mpsc {
  ms_queue : prev_queue;
  ms_producers : gmap Z producer;
  ms_consumer : consumer;
  ms_enqueued : list Z;
  ms_returned : list Z
}.

Definition in_flight (st : mpsc) : list Z := drop (length (ms_returned st)) (ms_enqueued st).

(** The packet [x] belongs to its producer: it is not in the queue. *)
Definition owned (st : mpsc) (x : Z) : Prop := x <> STUB /\ x ∉ in_flight st.

Definition upd_queue (f : prev_queue -> prev_queue) (st : mpsc) : mpsc :=
  Mpsc (f (ms_queue st)) (ms_producers st) (ms_consumer st) (ms_enqueued st) (ms_returned st).
Definition set_producer (x : Z) (p : option producer) (st : mpsc) : mpsc :=
  Mpsc (ms_queue st) (match p with Some p => <[x := p]> (ms_producers st) | None => delete x (ms_producers st) end)
    (ms_consumer st) (ms_enqueued st) (ms_returned st).
Definition set_consumer (c : consumer) (st : mpsc) : mpsc :=
  Mpsc (ms_queue st) (ms_producers st) c (ms_enqueued st) (ms_returned st).
Definition log_enqueued (x : Z) (st : mpsc) : mpsc :=
  Mpsc (ms_queue st) (ms_producers st) (ms_consumer st) (ms_enqueued st ++ [x]) (ms_returned st).
Definition log_returned (x : Z) (st : mpsc) : mpsc :=
  Mpsc (ms_queue st) (ms_producers st) (ms_consumer st) (ms_enqueued st) (ms_returned st ++ [x]).

(** The consumer returns [tail] after reading a successor. *)
Definition advance (tail n : Z) (st : mpsc) : mpsc :=
  set_consumer CIdle (log_returned tail (upd_queue (fun q => set_count (pq_count q - 1) (set_tail n q)) st)).

(** One access to shared memory by some CPU. *)
Inductive qstep : mpsc -> mpsc -> Prop :=
| q_count st x : owned st x -> ms_producers st !! x = None -> pq_count (ms_queue st) <> MAX_QUEUED_PACKETS ->
    qstep st (set_producer x (Some PCounted) (upd_queue (fun q => set_count (pq_count q + 1) q) st))
| q_clear st x : ms_producers st !! x = Some PCounted ->
    qstep st (set_producer x (Some PCleared) (upd_queue (set_NEXT x None) st))
| q_xchg st x : ms_producers st !! x = Some PCleared ->
    qstep st (set_producer x (Some (PLinking (pq_head (ms_queue st)))) (log_enqueued x (upd_queue (set_head x) st)))
| q_link st x old : ms_producers st !! x = Some (PLinking old) ->
    qstep st (set_producer x None (upd_queue (set_NEXT old (Some x)) st))
| q_scribble st x v : owned st x -> ms_producers st !! x = None \/ ms_producers st !! x = Some PCounted ->
    qstep st (upd_queue (set_NEXT x v) st)
| c_empty st : ms_consumer st = CIdle -> pq_tail (ms_queue st) = STUB -> NEXT (ms_queue st) STUB = None -> qstep st st
| c_skip st n : ms_consumer st = CIdle -> pq_tail (ms_queue st) = STUB -> NEXT (ms_queue st) STUB = Some n ->
    qstep st (set_consumer (CSkipped n) (upd_queue (set_tail n) st))
| c_load st : ms_consumer st = CIdle -> pq_tail (ms_queue st) <> STUB ->
    qstep st (set_consumer (CLoaded (pq_tail (ms_queue st)) (NEXT (ms_queue st) (pq_tail (ms_queue st)))) st)
| c_load_skipped st t : ms_consumer st = CSkipped t ->
    qstep st (set_consumer (CLoaded t (NEXT (ms_queue st) t)) st)
| c_advance st t n : ms_consumer st = CLoaded t (Some n) -> qstep st (advance t n st)
| c_behind st t : ms_consumer st = CLoaded t None -> t <> pq_head (ms_queue st) -> qstep st (set_consumer CIdle st)
| c_alone st t : ms_consumer st = CLoaded t None -> t = pq_head (ms_queue st) -> qstep st (set_consumer (CAlone t) st)
| c_stub_clear st t : ms_consumer st = CAlone t -> qstep st (set_consumer (CStubCleared t) (upd_queue (set_NEXT STUB None) st))
| c_stub_xchg st t : ms_consumer st = CStubCleared t ->
    qstep st (set_consumer (CStubLinking t (pq_head (ms_queue st))) (upd_queue (set_head STUB) st))
| c_stub_link st t old : ms_consumer st = CStubLinking t old ->
    qstep st (set_consumer (CReload t) (upd_queue (set_NEXT old (Some STUB)) st))
| c_reload st t n : ms_consumer st = CReload t -> NEXT (ms_queue st) t = Some n -> qstep st (advance t n st)
| c_give_up st t : ms_consumer st = CReload t -> NEXT (ms_queue st) t = None -> qstep st (set_consumer CIdle st).

(** * Chains *)

(** [b] directly follows [a]. *)
Definition consec (ns : list Z) (a b : Z) : Prop := exists i, ns !! i = Some a /\ ns !! S i = Some b.

Lemma consec_snoc ns x a b : consec (ns ++ [x]) a b <-> consec ns a b \/ (last ns = Some a /\ b = x).
Proof.
  unfold consec. split.
  - intros (i & Ha & Hb). apply lookup_app_Some in Hb as [Hb|[Hlen Hb]].
    + left. exists i. split; [|done]. apply lookup_lt_Some in Hb. by rewrite lookup_app_l in Ha by lia.
    + right. apply list_lookup_singleton_Some in Hb as [Hi <-]. split; [|done]. rewrite last_lookup.
      assert (pred (length ns) = i) as -> by lia. by rewrite lookup_app_l in Ha by lia.
  - intros [(i & Ha & Hb)|[Hl ->]].
    + exists i. split; by apply lookup_app_l_Some.
    + rewrite last_lookup in Hl. exists (pred (length ns)). apply lookup_lt_Some in Hl as Hlt. split; [by apply lookup_app_l_Some|].
      rewrite lookup_app_r by lia. by replace (S (pred (length ns)) - length ns)%nat with 0%nat by lia.
Qed.

Lemma consec_cons ns x a b : consec (x :: ns) a b <-> (a = x /\ ns !! 0%nat = Some b) \/ consec ns a b.
Proof.
  unfold consec. split.
  - intros ([|i] & Ha & Hb); [left; cbn in *; naive_solver|right; by exists i].
  - intros [[-> Hb]|(i & Ha & Hb)]; [by exists 0%nat|by exists (S i)].
Qed.

Lemma consec_elem ns a b : consec ns a b -> a ∈ ns /\ b ∈ ns.
Proof. intros (i & Ha & Hb). split; by eapply list_elem_of_lookup_2. Qed.

Lemma consec_fun ns a b c : NoDup ns -> consec ns a b -> consec ns a c -> b = c.
Proof. intros Hn (i & Ha & Hb) (j & Ha' & Hc). rewrite (NoDup_lookup _ _ _ _ Hn Ha' Ha) in Hc. congruence. Qed.

Lemma consec_inj ns a b c : NoDup ns -> consec ns a c -> consec ns b c -> a = b.
Proof. intros Hn (i & Ha & Hc) (j & Hb & Hc'). assert (S i = S j) as [= ->] by (by eapply NoDup_lookup). congruence. Qed.

Lemma consec_not_last ns a b : NoDup ns -> consec ns a b -> last ns <> Some a.
Proof. intros Hn (i & Ha & Hb) Hl. rewrite last_lookup in Hl. pose proof (NoDup_lookup _ _ _ _ Hn Ha Hl). apply lookup_lt_Some in Hb. lia. Qed.

(** The packets of a chain. *)
Definition packets (ns : list Z) : list Z := filter (fun x => x <> STUB) ns.

Lemma packets_snoc ns x : packets (ns ++ [x]) = packets ns ++ (if decide (x = STUB) then [] else [x]).
Proof. unfold packets. rewrite filter_app. f_equal. destruct (decide (x = STUB)) as [->|D]; [done|]. by rewrite filter_cons_True. Qed.

Lemma packets_elem ns x : x ∈ packets ns <-> x ∈ ns /\ x <> STUB.
Proof. unfold packets. rewrite list_elem_of_filter. tauto. Qed.

(** * The invariant *)

(** A link that is not written yet has someone about to write it. *)
Definition pending (ps : gmap Z producer) (c : consumer) (a b : Z) : Prop :=
  ps !! b = Some (PLinking a) \/ exists t, c = CStubLinking t a /\ b = STUB.

Definition consumer_ok (q : prev_queue) (ns : list Z) (c : consumer) : Prop :=
  match c with
  | CIdle => True
  | CSkipped t => pq_tail q = t /\ t <> STUB
  | CLoaded t n => pq_tail q = t /\ t <> STUB /\ match n with Some n => NEXT q t = Some n | None => True end
  | CAlone t => pq_tail q = t /\ t <> STUB /\ STUB ∉ ns
  | CStubCleared t => pq_tail q = t /\ t <> STUB /\ STUB ∉ ns /\ NEXT q STUB = None
  | CStubLinking t old => pq_tail q = t /\ t <> STUB /\ consec ns old STUB /\ NEXT q old = None
  | CReload t => pq_tail q = t /\ t <> STUB
  end.

Definition producer_ok (q : prev_queue) (ns : list Z) (x : Z) (p : producer) : Prop :=
  x <> STUB /\
  match p with
  | PCounted => x ∉ ns
  | PCleared => x ∉ ns /\ NEXT q x = None
  | PLinking old => consec ns old x /\ NEXT q old = None
  end.

(** Producers that count but are not in the chain. *)
Definition waiting (p : Z * producer) : Prop := match p.2 with PLinking _ => False | _ => True end.
#[global] Instance waiting_dec p : Decision (waiting p).
Proof. unfold waiting. destruct p.2; apply _. Defined.

Record qinv (st : mpsc) (ns : list Z) : Prop := {
  qi_tail : ns !! 0%nat = Some (pq_tail (ms_queue st));
  qi_head : last ns = Some (pq_head (ms_queue st));
  qi_nodup : NoDup ns;
  qi_links : forall a b, consec ns a b -> NEXT (ms_queue st) a = Some b \/ (NEXT (ms_queue st) a = None /\ pending (ms_producers st) (ms_consumer st) a b);
  qi_end : NEXT (ms_queue st) (pq_head (ms_queue st)) = None;
  qi_producers : forall x p, ms_producers st !! x = Some p -> producer_ok (ms_queue st) ns x p;
  qi_consumer : consumer_ok (ms_queue st) ns (ms_consumer st);
  qi_history : ms_enqueued st = ms_returned st ++ packets ns;
  qi_count : pq_count (ms_queue st) = Z.of_nat (length (packets ns)) + Z.of_nat (size (filter waiting (ms_producers st)));
  qi_bound : pq_count (ms_queue st) <= MAX_QUEUED_PACKETS
}.

Lemma in_flight_packets st ns : qinv st ns -> in_flight st = packets ns.
Proof. intros H. unfold in_flight. by rewrite (qi_history _ _ H), drop_app_length. Qed.

Lemma NEXT_set x v q y : NEXT (set_NEXT x v q) y = if decide (y = x) then v else NEXT q y.
Proof.
  unfold NEXT, set_NEXT, set_link. cbn. destruct v as [v|], (decide (y = x)) as [->|D];
    by rewrite ?lookup_insert_eq, ?lookup_delete_eq, ?lookup_insert_ne, ?lookup_delete_ne by done.
Qed.

(** Counting the waiting producers. *)
Definition is_waiting (p : producer) : bool := match p with PLinking _ => false | _ => true end.

Lemma filter_waiting_lookup (m : gmap Z producer) x : filter waiting m !! x = match m !! x with Some p => if is_waiting p then Some p else None | None => None end.
Proof.
  rewrite map_lookup_filter. destruct (m !! x) as [[| |old]|]; cbn [mbind option_bind is_waiting]; [by rewrite option_guard_True..| |done].
  rewrite option_guard_False; [done|]. by intros [].
Qed.

Lemma waiting_insert (m : gmap Z producer) x p : is_waiting p = true ->
  Z.of_nat (size (filter waiting (<[x := p]> m))) =
    Z.of_nat (size (filter waiting m)) + match m !! x with Some p0 => if is_waiting p0 then 0 else 1 | None => 1 end.
Proof.
  intros Hp. assert (filter waiting (<[x := p]> m) = <[x := p]> (filter waiting m)) as ->.
  { apply map_eq. intros y. rewrite filter_waiting_lookup. destruct (decide (y = x)) as [->|D].
    - by rewrite !lookup_insert_eq, Hp. - by rewrite !lookup_insert_ne, filter_waiting_lookup by done. }
  rewrite map_size_insert, filter_waiting_lookup. destruct (m !! x) as [p0|]; [destruct (is_waiting p0)|]; cbn; lia.
Qed.

Lemma waiting_drop (m m' : gmap Z producer) x : (forall y, y <> x -> m' !! y = m !! y) -> (forall p, m' !! x = Some p -> is_waiting p = false) ->
  Z.of_nat (size (filter waiting m')) =
    Z.of_nat (size (filter waiting m)) - match m !! x with Some p0 => if is_waiting p0 then 1 else 0 | None => 0 end.
Proof.
  intros Hne Hx. assert (filter waiting m' = delete x (filter waiting m)) as ->.
  { apply map_eq. intros y. rewrite filter_waiting_lookup. destruct (decide (y = x)) as [->|D].
    - rewrite lookup_delete_eq. destruct (m' !! x) as [p|] eqn:E; [|done]. by rewrite (Hx p eq_refl).
    - by rewrite lookup_delete_ne, filter_waiting_lookup, Hne by done. }
  rewrite map_size_delete, filter_waiting_lookup. destruct (m !! x) as [p0|] eqn:E; [|cbn; lia]. destruct (is_waiting p0) eqn:Ew; [|cbn; lia].
  assert (size (filter waiting m) <> 0)%nat; [|cbn; lia]. intros H0%map_size_empty_inv.
  assert (filter waiting m !! x = None) as H1 by (by rewrite H0, lookup_empty). rewrite filter_waiting_lookup, E, Ew in H1. done.
Qed.

(** A write to the pointer of a packet outside the chain. *)
Lemma qinv_outside st ns x v : qinv st ns -> x <> STUB -> x ∉ ns -> (forall p, ms_producers st !! x = Some p -> p = PCounted) ->
  qinv (upd_queue (set_NEXT x v) st) ns.
Proof.
  intros [Ht Hh Hn Hl He Hp Hc Hhi Hco Hb] Hx Hin Hpx. assert (forall y, y ∈ ns -> NEXT (set_NEXT x v (ms_queue st)) y = NEXT (ms_queue st) y) as HN.
  { intros y Hy. rewrite NEXT_set. rewrite decide_False; [done|]. by intros ->. }
  split; cbn [ms_queue upd_queue ms_producers ms_consumer ms_enqueued ms_returned]; try done.
  - intros a b Hab. destruct (consec_elem _ _ _ Hab) as [Ha _]. rewrite HN by done. by apply Hl.
  - change (pq_head (set_NEXT x v (ms_queue st))) with (pq_head (ms_queue st)). rewrite HN; [done|]. rewrite last_lookup in Hh. by eapply list_elem_of_lookup_2.
  - intros y p Hy. specialize (Hp y p Hy). destruct Hp as [Hy0 Hp]. split; [done|]. destruct p as [| |old]; [done| |].
    + destruct Hp as [Hp1 Hp2]. split; [done|]. rewrite NEXT_set. destruct (decide (y = x)) as [->|D]; [|done]. by specialize (Hpx _ Hy).
    + destruct Hp as [Hp1 Hp2]. split; [done|]. rewrite HN; [done|]. by apply (consec_elem _ _ _ Hp1).
  - destruct (ms_consumer st) as [|t|t n|t|t|t old|t]; cbn [consumer_ok] in *; try done.
    + destruct Hc as (Hc1 & Hc2 & Hc3). split; [done|]. split; [done|]. destruct n; [|done]. rewrite HN; [done|]. rewrite <- Hc1. by eapply list_elem_of_lookup_2.
    + destruct Hc as (Hc1 & Hc2 & Hc3 & Hc4). split; [done|]. split; [done|]. split; [done|]. rewrite NEXT_set. by rewrite decide_False.
    + destruct Hc as (Hc1 & Hc2 & Hc3 & Hc4). split; [done|]. split; [done|]. split; [done|]. rewrite HN; [done|]. by apply (consec_elem _ _ _ Hc3).
Qed.

Lemma owned_outside st ns x : qinv st ns -> owned st x -> x ∉ ns.
Proof. intros Hi [H0 Hx] Hin. apply Hx. rewrite (in_flight_packets _ _ Hi). by apply packets_elem. Qed.

Lemma q_count_ok st ns x : qinv st ns -> owned st x -> ms_producers st !! x = None -> pq_count (ms_queue st) <> MAX_QUEUED_PACKETS ->
  qinv (set_producer x (Some PCounted) (upd_queue (fun q => set_count (pq_count q + 1) q) st)) ns.
Proof.
  intros Hi Ho Hx Hne. pose proof (owned_outside _ _ _ Hi Ho) as Hout. destruct Hi as [Ht Hh Hn Hl He Hp Hc Hhi Hco Hb].
  split; cbn; try done.
  - intros a b Hab. destruct (Hl a b Hab) as [|[? Hpe]]; [by left|right]. split; [done|]. destruct Hpe as [Hpe|Hpe]; [left|by right].
    destruct (decide (b = x)) as [->|D]; [congruence|by rewrite lookup_insert_ne].
  - intros y p. destruct (decide (y = x)) as [->|D]; [rewrite lookup_insert_eq; intros [= <-]; split; [apply Ho|done]|]. rewrite lookup_insert_ne by done. apply Hp.
  - rewrite waiting_insert, Hx by done. lia.
  - lia.
Qed.

Lemma q_clear_ok st ns x : qinv st ns -> ms_producers st !! x = Some PCounted -> qinv (set_producer x (Some PCleared) (upd_queue (set_NEXT x None) st)) ns.
Proof.
  intros Hi Hx. destruct (qi_producers _ _ Hi x _ Hx) as [Hx0 Hout]. assert (qinv (upd_queue (set_NEXT x None) st) ns) as [Ht Hh Hn Hl He Hp Hc Hhi Hco Hb].
  { apply qinv_outside; try done. intros p. rewrite Hx. by intros [= <-]. }
  cbn [upd_queue ms_queue ms_producers ms_consumer ms_enqueued ms_returned] in *. split; cbn [set_producer upd_queue ms_queue ms_producers ms_consumer ms_enqueued ms_returned]; try done.
  - intros a b Hab. destruct (Hl a b Hab) as [|[? Hpe]]; [by left|right]. split; [done|]. destruct Hpe as [Hpe|Hpe]; [left|by right].
    destruct (decide (b = x)) as [->|D]; [congruence|by rewrite lookup_insert_ne].
  - intros y p. destruct (decide (y = x)) as [->|D]; [|rewrite lookup_insert_ne by done; apply Hp].
    rewrite lookup_insert_eq. intros [= <-]. split; [done|]. split; [done|]. by rewrite NEXT_set, decide_True.
  - rewrite waiting_insert, Hx by done. cbn [is_waiting]. rewrite Z.add_0_r. exact Hco.
Qed.

Lemma head_elem st ns : qinv st ns -> pq_head (ms_queue st) ∈ ns.
Proof. intros Hi. pose proof (qi_head _ _ Hi) as Hh. rewrite last_lookup in Hh. by eapply list_elem_of_lookup_2. Qed.

(** A node appended behind the head. *)
Lemma q_xchg_ok st ns x : qinv st ns -> ms_producers st !! x = Some PCleared ->
  qinv (set_producer x (Some (PLinking (pq_head (ms_queue st)))) (log_enqueued x (upd_queue (set_head x) st))) (ns ++ [x]).
Proof.
  intros Hi Hx. pose proof (head_elem _ _ Hi) as Hhe. destruct (qi_producers _ _ Hi x _ Hx) as (Hx0 & Hout & HxN). destruct Hi as [Ht Hh Hn Hl He Hp Hc Hhi Hco Hb].
  split; cbn [set_producer log_enqueued upd_queue ms_queue ms_producers ms_consumer ms_enqueued ms_returned].
  - by apply lookup_app_l_Some.
  - by rewrite last_snoc.
  - apply NoDup_app. split; [done|]. split; [|apply NoDup_singleton]. intros y Hy ->%list_elem_of_singleton. done.
  - intros a b [Hab|[Ha ->]]%consec_snoc.
    + destruct (Hl a b Hab) as [|[? Hpe]]; [by left|right]. split; [done|]. destruct Hpe as [Hpe|Hpe]; [left|by right].
      destruct (decide (b = x)) as [->|D]; [by apply consec_elem in Hab as [_ ?]|by rewrite lookup_insert_ne].
    + rewrite Hh in Ha. injection Ha as <-. right. split; [done|]. left. apply lookup_insert_eq.
  - done.
  - intros y p. destruct (decide (y = x)) as [->|D].
    + rewrite lookup_insert_eq. intros [= <-]. split; [done|]. split; [apply consec_snoc; auto|done].
    + rewrite lookup_insert_ne by done. intros Hy. destruct (Hp y p Hy) as [Hy0 Hok]. split; [done|]. destruct p as [| |old].
      * intros [? | ->%list_elem_of_singleton]%elem_of_app; done.
      * destruct Hok as [Hok ?]. split; [|done]. intros [? | ->%list_elem_of_singleton]%elem_of_app; done.
      * destruct Hok as [Hok ?]. split; [apply consec_snoc; auto|done].
  - destruct (ms_consumer st) as [|t|t n|t|t|t old|t]; cbn [consumer_ok] in *; try done.
    + destruct Hc as (Hc1 & Hc2 & Hc3). split; [done|]. split; [done|]. intros [?|E%list_elem_of_singleton]%elem_of_app; congruence.
    + destruct Hc as (Hc1 & Hc2 & Hc3 & Hc4). split; [done|]. split; [done|]. split; [|done]. intros [?|E%list_elem_of_singleton]%elem_of_app; congruence.
    + destruct Hc as (Hc1 & Hc2 & Hc3 & Hc4). split; [done|]. split; [done|]. split; [apply consec_snoc; auto|done].
  - by rewrite packets_snoc, decide_False, Hhi, app_assoc by done.
  - rewrite packets_snoc, decide_False, length_app by done. cbn [length].
    rewrite (waiting_drop (ms_producers st) _ x), Hx; [cbn [is_waiting]|intros y Hy; by rewrite lookup_insert_ne|intros p; rewrite lookup_insert_eq; by intros [= <-]].
    change (pq_count (set_head x (ms_queue st))) with (pq_count (ms_queue st)). lia.
  - done.
Qed.

(** Writing the link of [old] to its successor, by whoever had to. *)
Lemma links_write q ns ps c ps' c' old x : NoDup ns -> consec ns old x ->
  (forall a b, consec ns a b -> NEXT q a = Some b \/ (NEXT q a = None /\ pending ps c a b)) ->
  (forall a b, a <> old -> consec ns a b -> pending ps c a b -> pending ps' c' a b) ->
  forall a b, consec ns a b -> NEXT (set_NEXT old (Some x) q) a = Some b \/ (NEXT (set_NEXT old (Some x) q) a = None /\ pending ps' c' a b).
Proof.
  intros Hn Hox Hl Hpe a b Hab. rewrite NEXT_set. destruct (decide (a = old)) as [->|D].
  - left. f_equal. by eapply consec_fun.
  - destruct (Hl a b Hab) as [|[? ?]]; [by left|right]. split; [done|]. by apply Hpe.
Qed.

Lemma q_link_ok st ns x old : qinv st ns -> ms_producers st !! x = Some (PLinking old) -> qinv (set_producer x None (upd_queue (set_NEXT old (Some x)) st)) ns.
Proof.
  intros Hi Hx. destruct (qi_producers _ _ Hi x _ Hx) as (Hx0 & Hox & HN). destruct Hi as [Ht Hh Hn Hl He Hp Hc Hhi Hco Hb].
  assert (forall y, y <> old -> NEXT (set_NEXT old (Some x) (ms_queue st)) y = NEXT (ms_queue st) y) as HN' by (intros y Hy; by rewrite NEXT_set, decide_False).
  split; cbn [set_producer upd_queue ms_queue ms_producers ms_consumer ms_enqueued ms_returned]; try done.
  - apply (links_write _ _ (ms_producers st) (ms_consumer st)); try done. intros a b Ha Hab [Hpe|Hpe]; [left|by right].
    rewrite lookup_delete_ne; [done|]. intros ->. rewrite Hx in Hpe. congruence.
  - change (pq_head (set_NEXT old (Some x) (ms_queue st))) with (pq_head (ms_queue st)). rewrite HN'; [done|]. intros <-. by destruct (consec_not_last _ _ _ Hn Hox).
  - intros y p Hy. apply lookup_delete_Some in Hy as [Hne Hy]. destruct (Hp y p Hy) as [Hy0 Hok]. split; [done|]. destruct p as [| |old']; [done| |].
    + destruct Hok as [Hok1 Hok2]. split; [done|]. rewrite HN'; [done|]. intros ->. apply Hok1. apply (consec_elem _ _ _ Hox).
    + destruct Hok as [Hok1 Hok2]. split; [done|]. rewrite HN'; [done|]. intros ->. apply Hne. by eapply consec_fun.
  - destruct (ms_consumer st) as [|t|t n|t|t|t old'|t]; cbn [consumer_ok] in *; try done.
    + destruct Hc as (Hc1 & Hc2 & Hc3). split; [done|]. split; [done|]. destruct n; [|done]. rewrite HN'; [done|]. intros ->. congruence.
    + destruct Hc as (Hc1 & Hc2 & Hc3 & Hc4). split; [done|]. split; [done|]. split; [done|]. rewrite HN'; [done|]. intros <-. apply Hc3, (consec_elem _ _ _ Hox).
    + destruct Hc as (Hc1 & Hc2 & Hc3 & Hc4). split; [done|]. split; [done|]. split; [done|]. rewrite HN'; [done|]. intros ->. apply Hx0. by eapply consec_fun.
  - rewrite (waiting_drop (ms_producers st) _ x), Hx; [cbn [is_waiting]; rewrite Z.sub_0_r; exact Hco|intros y Hy; by rewrite lookup_delete_ne|intros p; by rewrite lookup_delete_eq].
Qed.

(** Dropping the first node once its link is there. *)
Record chain_from (st : mpsc) (ns : list Z) (n : Z) : Prop := {
  cf_tail : ns !! 0%nat = Some n;
  cf_head : last ns = Some (pq_head (ms_queue st));
  cf_nodup : NoDup ns;
  cf_links : forall c, (forall t old, ms_consumer st <> CStubLinking t old) ->
    forall a b, consec ns a b -> NEXT (ms_queue st) a = Some b \/ (NEXT (ms_queue st) a = None /\ pending (ms_producers st) c a b);
  cf_producers : forall x p, ms_producers st !! x = Some p -> producer_ok (ms_queue st) ns x p
}.

Lemma chain_drop st ns n : qinv st ns -> NEXT (ms_queue st) (pq_tail (ms_queue st)) = Some n ->
  exists ns', ns = pq_tail (ms_queue st) :: ns' /\ pq_tail (ms_queue st) ∉ ns' /\ chain_from st ns' n.
Proof.
  intros Hi HN. destruct Hi as [Ht Hh Hn Hl He Hp _ _ _ _]. destruct ns as [|a ns]; [done|]. injection Ht as ->. set (a := pq_tail (ms_queue st)) in *.
  destruct ns as [|b ns]; [cbn in Hh; injection Hh as E; congruence|]. exists (b :: ns). split; [done|]. apply NoDup_cons in Hn as [Ha Hn].
  split; [done|]. assert (consec (a :: b :: ns) a b) as Hab by (by exists 0%nat).
  assert (forall x y, consec (b :: ns) x y -> consec (a :: b :: ns) x y) as Hsub by (intros x y Hxy; apply consec_cons; auto).
  split; try done.
  - destruct (Hl a b Hab) as [E|[E _]]; [|congruence]. rewrite HN in E. by injection E as ->.
  - intros c Hc x y Hxy. destruct (Hl x y (Hsub _ _ Hxy)) as [|[? [?|(t & ? & ?)]]]; [by left|right; split; [done|by left]|]. by destruct (Hc t x).
  - intros x p Hx. destruct (Hp x p Hx) as [Hx0 Hok]. split; [done|]. destruct p as [| |old].
    + set_solver. + destruct Hok. split; [set_solver|done].
    + destruct Hok as [Hok1 Hok2]. split; [|done]. apply consec_cons in Hok1 as [[-> _]|]; [congruence|done].
Qed.

Lemma c_skip_ok st ns n : qinv st ns -> ms_consumer st = CIdle -> pq_tail (ms_queue st) = STUB -> NEXT (ms_queue st) STUB = Some n ->
  exists ns', qinv (set_consumer (CSkipped n) (upd_queue (set_tail n) st)) ns'.
Proof.
  intros Hi Hc Ht HN. rewrite <- Ht in HN. destruct (chain_drop _ _ _ Hi HN) as (ns' & -> & Hnin & [C1 C2 C3 C4 C5]). exists ns'. rewrite Ht in Hnin.
  assert (packets (pq_tail (ms_queue st) :: ns') = packets ns') as Ep by (unfold packets; rewrite Ht, filter_cons_False; auto).
  destruct Hi as [_ _ _ _ He _ _ Hhi Hco Hb]. rewrite Ep in *. split; try done; cbn [set_consumer upd_queue ms_queue ms_producers ms_consumer].
  - apply C4. by rewrite Hc.
  - split; [done|]. intros ->. apply Hnin. by eapply list_elem_of_lookup_2.
Qed.

Lemma advance_ok st ns n : qinv st ns -> pq_tail (ms_queue st) <> STUB -> NEXT (ms_queue st) (pq_tail (ms_queue st)) = Some n ->
  (forall t old, ms_consumer st <> CStubLinking t old) -> exists ns', qinv (advance (pq_tail (ms_queue st)) n st) ns'.
Proof.
  intros Hi Ht HN Hc. destruct (chain_drop _ _ _ Hi HN) as (ns' & -> & Hnin & [C1 C2 C3 C4 C5]). exists ns'.
  assert (packets (pq_tail (ms_queue st) :: ns') = pq_tail (ms_queue st) :: packets ns') as Ep by (unfold packets; by rewrite filter_cons_True).
  destruct Hi as [_ _ _ _ He _ _ Hhi Hco Hb]. rewrite Ep in *. split; try done; cbn [advance set_consumer log_returned upd_queue ms_queue ms_producers ms_consumer ms_enqueued ms_returned].
  - by apply C4.
  - by rewrite Hhi, <- app_assoc.
  - change (pq_count (set_count (pq_count (ms_queue st) - 1) (set_tail n (ms_queue st)))) with (pq_count (ms_queue st) - 1). cbn [length] in Hco. lia.
  - change (pq_count (set_count (pq_count (ms_queue st) - 1) (set_tail n (ms_queue st)))) with (pq_count (ms_queue st) - 1). lia.
Qed.

(** Steps that only move the consumer. *)
Lemma consumer_move st ns c : qinv st ns -> (forall t old, ms_consumer st <> CStubLinking t old) -> consumer_ok (ms_queue st) ns c -> qinv (set_consumer c st) ns.
Proof.
  intros [Ht Hh Hn Hl He Hp Hc Hhi Hco Hb] Hns Hc'. split; try done. intros a b Hab. destruct (Hl a b Hab) as [|[? [?|(t & ? & ?)]]]; [by left|right; split; [done|by left]|].
  by destruct (Hns t a).
Qed.

Lemma alone (ns : list Z) a : NoDup ns -> ns !! 0%nat = Some a -> last ns = Some a -> ns = [a].
Proof.
  intros Hn H0 Hl. destruct ns as [|b ns]; [done|]. injection H0 as ->. destruct ns as [|c ns]; [done|]. rewrite last_lookup in Hl. cbn in Hl.
  apply NoDup_cons in Hn as [Hn _]. exfalso. apply Hn. by eapply list_elem_of_lookup_2.
Qed.

Lemma c_stub_clear_ok st ns t : qinv st ns -> ms_consumer st = CAlone t -> qinv (set_consumer (CStubCleared t) (upd_queue (set_NEXT STUB None) st)) ns.
Proof.
  intros Hi Hc. pose proof (head_elem _ _ Hi) as Hhe. destruct Hi as [Ht Hh Hn Hl He Hp Hco0 Hhi Hco Hb]. rewrite Hc in Hco0. destruct Hco0 as (H1 & H2 & H3).
  assert (forall y, y ∈ ns -> NEXT (set_NEXT STUB None (ms_queue st)) y = NEXT (ms_queue st) y) as HN.
  { intros y Hy. rewrite NEXT_set, decide_False; [done|]. by intros ->. }
  split; try done; cbn [set_consumer upd_queue ms_queue ms_producers ms_consumer].
  - intros a b Hab. rewrite HN by apply (consec_elem _ _ _ Hab). destruct (Hl a b Hab) as [|[? [?|(t' & E & ?)]]]; [by left|right; split; [done|by left]|congruence].
  - change (pq_head (set_NEXT STUB None (ms_queue st))) with (pq_head (ms_queue st)). by rewrite HN.
  - intros x p Hx. destruct (Hp x p Hx) as [Hx0 Hok]. split; [done|]. destruct p as [| |old]; [done| |]; destruct Hok as [Hok1 Hok2]; (split; [done|]).
    + by rewrite NEXT_set, decide_False. + by rewrite HN by apply (consec_elem _ _ _ Hok1).
  - cbn [consumer_ok]. by rewrite NEXT_set, decide_True.
Qed.

Lemma c_stub_xchg_ok st ns t : qinv st ns -> ms_consumer st = CStubCleared t ->
  qinv (set_consumer (CStubLinking t (pq_head (ms_queue st))) (upd_queue (set_head STUB) st)) (ns ++ [STUB]).
Proof.
  intros Hi Hc. destruct Hi as [Ht Hh Hn Hl He Hp Hco0 Hhi Hco Hb]. rewrite Hc in Hco0. destruct Hco0 as (H1 & H2 & H3 & H4).
  split; cbn [set_consumer upd_queue ms_queue ms_producers ms_consumer ms_enqueued ms_returned].
  - by apply lookup_app_l_Some.
  - by rewrite last_snoc.
  - apply NoDup_app. split; [done|]. split; [|apply NoDup_singleton]. intros y Hy E%list_elem_of_singleton. congruence.
  - intros a b [Hab|[Ha ->]]%consec_snoc.
    + destruct (Hl a b Hab) as [|[? [?|(t' & E & ?)]]]; [by left|right; split; [done|by left]|congruence].
    + rewrite Hh in Ha. injection Ha as <-. right. split; [done|]. right. eauto.
  - done.
  - intros x p Hx. destruct (Hp x p Hx) as [Hx0 Hok]. split; [done|]. destruct p as [| |old].
    + set_solver. + destruct Hok. split; [set_solver|done]. + destruct Hok. split; [apply consec_snoc; auto|done].
  - split; [done|]. split; [done|]. split; [apply consec_snoc; auto|done].
  - by rewrite packets_snoc, decide_True, app_nil_r by done.
  - by rewrite packets_snoc, decide_True, app_nil_r by done.
  - done.
Qed.

Lemma c_stub_link_ok st ns t old : qinv st ns -> ms_consumer st = CStubLinking t old -> qinv (set_consumer (CReload t) (upd_queue (set_NEXT old (Some STUB)) st)) ns.
Proof.
  intros Hi Hc. destruct Hi as [Ht Hh Hn Hl He Hp Hco0 Hhi Hco Hb]. rewrite Hc in Hco0. destruct Hco0 as (H1 & H2 & H3 & H4).
  assert (forall y, y <> old -> NEXT (set_NEXT old (Some STUB) (ms_queue st)) y = NEXT (ms_queue st) y) as HN' by (intros y Hy; by rewrite NEXT_set, decide_False).
  split; try done; cbn [set_consumer upd_queue ms_queue ms_producers ms_consumer].
  - apply (links_write _ _ (ms_producers st) (ms_consumer st)); try done. intros a b Ha Hab [Hpe|(t' & E & ->)]; [by left|]. congruence.
  - change (pq_head (set_NEXT old (Some STUB) (ms_queue st))) with (pq_head (ms_queue st)). rewrite HN'; [done|]. intros <-. by destruct (consec_not_last _ _ _ Hn H3).
  - intros x p Hx. destruct (Hp x p Hx) as [Hx0 Hok]. split; [done|]. destruct p as [| |old']; [done| |]; destruct Hok as [Hok1 Hok2]; (split; [done|]); rewrite HN'; try done.
    + intros ->. apply Hok1, (consec_elem _ _ _ H3). + intros ->. apply Hx0. by eapply consec_fun.
Qed.

Lemma qstep_inv st st' ns : qinv st ns -> qstep st st' -> exists ns', qinv st' ns'.
Proof.
  intros Hi Hstep. pose proof (qi_consumer _ _ Hi) as Hok.
  destruct Hstep as [st x Ho Hx Hne|st x Hx|st x Hx|st x old Hx|st x v Ho Hx|st Hc Ht HN|st n Hc Ht HN|st Hc Ht|st t Hc|st t n Hc|st t Hc Ht|st t Hc Ht|st t Hc|st t Hc|st t old Hc|st t n Hc HN|st t Hc HN];
    try rewrite Hc in Hok; cbn [consumer_ok] in Hok.
  - exists ns. by apply q_count_ok.
  - exists ns. by apply q_clear_ok.
  - eexists. by apply q_xchg_ok.
  - exists ns. by apply q_link_ok.
  - exists ns. apply qinv_outside; [done|apply Ho|by eapply owned_outside|]. intros p Hp. destruct Hx; congruence.
  - by exists ns.
  - by eapply c_skip_ok.
  - exists ns. apply consumer_move; [done|by rewrite Hc|]. split; [done|]. split; [done|]. by destruct (NEXT _ _) eqn:E.
  - exists ns. destruct Hok as [Hok1 Hok2]. apply consumer_move; [done|by rewrite Hc|]. split; [done|]. split; [done|]. by destruct (NEXT _ _) eqn:E.
  - destruct Hok as (<- & Hok2 & Hok3). apply (advance_ok st ns n); try done. by rewrite Hc.
  - exists ns. apply consumer_move; [done|by rewrite Hc|done].
  - exists ns. destruct Hok as (Hok1 & Hok2 & _). apply consumer_move; [done|by rewrite Hc|]. split; [done|]. split; [done|].
    rewrite (alone ns t (qi_nodup _ _ Hi)); [intros E%list_elem_of_singleton; congruence|rewrite <- Hok1; apply Hi|rewrite Ht; apply Hi].
  - exists ns. by apply c_stub_clear_ok.
  - eexists. by apply c_stub_xchg_ok.
  - exists ns. by apply c_stub_link_ok.
  - destruct Hok as (<- & Hok2). apply (advance_ok st ns n); try done. by rewrite Hc.
  - exists ns. apply consumer_move; [done|by rewrite Hc|done].
Qed.

(** * Uninterrupted runs *)

Lemma rtc_eq {A} (R : A -> A -> Prop) x y : x = y -> rtc R x y.
Proof. intros ->. apply rtc_refl. Qed.

Lemma mpsc_eq st q ps c e r : ms_queue st = q -> ms_producers st = ps -> ms_consumer st = c -> ms_enqueued st = e -> ms_returned st = r -> st = Mpsc q ps c e r.
Proof. destruct st; cbn. by intros -> -> -> -> ->. Qed.

(** The producer's steps in a row are [wg_prev_queue_enqueue]. *)
Lemma enqueue_run st x : owned st x -> ms_producers st !! x = None ->
  match wg_prev_queue_enqueue (ms_queue st) x with
  | (false, q) => pq_count (ms_queue st) = MAX_QUEUED_PACKETS /\ q = ms_queue st
  | (true, q) => rtc qstep st (Mpsc q (ms_producers st) (ms_consumer st) (ms_enqueued st ++ [x]) (ms_returned st))
  end.
Proof.
  intros Ho Hx. unfold wg_prev_queue_enqueue. destruct (Z.eqb_spec (pq_count (ms_queue st)) MAX_QUEUED_PACKETS) as [E|E]; [done|].
  destruct st as [q ps c e r]. cbn [ms_queue ms_producers ms_consumer ms_enqueued ms_returned] in *.
  eapply rtc_l; [by apply (q_count (Mpsc q ps c e r) x)|]. unfold set_producer, upd_queue. cbn [ms_queue ms_producers ms_consumer ms_enqueued ms_returned].
  set (q1 := set_count _ q). eapply rtc_l; [apply (q_clear (Mpsc q1 _ c e r) x); apply lookup_insert_eq|]. unfold set_producer, upd_queue. cbn [ms_queue ms_producers ms_consumer ms_enqueued ms_returned].
  rewrite insert_insert_eq. set (q2 := set_NEXT x None q1). eapply rtc_l; [apply (q_xchg (Mpsc q2 _ c e r) x); apply lookup_insert_eq|].
  unfold set_producer, upd_queue, log_enqueued. cbn [ms_queue ms_producers ms_consumer ms_enqueued ms_returned]. rewrite insert_insert_eq.
  eapply rtc_l; [apply (q_link (Mpsc (set_head x q2) _ c _ r) x (pq_head q2)); apply lookup_insert_eq|].
  apply rtc_eq. unfold set_producer, upd_queue. cbn [ms_queue ms_producers ms_consumer ms_enqueued ms_returned]. by rewrite delete_insert_id.
Qed.

(** Where a dequeue ends. *)
Definition after_dequeue (st : mpsc) (r : option Z * prev_queue) : mpsc :=
  Mpsc r.2 (ms_producers st) CIdle (ms_enqueued st) (ms_returned st ++ option_list r.1).

Lemma dequeue_tail_run st t n : ms_consumer st = CLoaded t n -> rtc qstep st (after_dequeue st (dequeue_tail (ms_queue st) t n)).
Proof.
  intros Hc. unfold dequeue_tail. destruct n as [n|].
  { eapply rtc_l; [by apply (c_advance st t n)|]. apply rtc_refl. }
  destruct (Z.eqb_spec t (pq_head (ms_queue st))) as [Et|Et]; cbn [negb].
  2:{ eapply rtc_l; [by apply (c_behind st t)|]. apply rtc_eq. unfold after_dequeue. cbn. by rewrite app_nil_r. }
  eapply rtc_l; [by apply (c_alone st t)|]. eapply rtc_l; [by apply (c_stub_clear _ t)|]. eapply rtc_l; [by apply (c_stub_xchg _ t)|].
  eapply rtc_l; [by apply (c_stub_link _ t (pq_head (ms_queue st)))|].
  change (set_NEXT (pq_head (ms_queue st)) (Some STUB) (set_head STUB (set_NEXT STUB None (ms_queue st)))) with (prev_queue_enqueue (ms_queue st) STUB).
  destruct (NEXT (prev_queue_enqueue (ms_queue st) STUB) t) as [m|] eqn:E.
  - eapply rtc_l; [by apply (c_reload _ t m)|]. apply rtc_refl.
  - eapply rtc_l; [by apply (c_give_up _ t)|]. apply rtc_eq. unfold after_dequeue. cbn. by rewrite app_nil_r.
Qed.

(** The consumer's steps in a row are [wg_prev_queue_dequeue]. *)
Lemma dequeue_run st : ms_consumer st = CIdle -> rtc qstep st (after_dequeue st (wg_prev_queue_dequeue (ms_queue st))).
Proof.
  intros Hc. unfold wg_prev_queue_dequeue. destruct (Z.eqb_spec (pq_tail (ms_queue st)) STUB) as [Et|Et].
  - rewrite Et. destruct (NEXT (ms_queue st) STUB) as [n|] eqn:E.
    + eapply rtc_l; [by apply (c_skip st n)|]. eapply rtc_l; [by apply (c_load_skipped _ n)|].
      refine (dequeue_tail_run _ _ _ _). done.
    + apply rtc_eq. unfold after_dequeue. cbn. rewrite app_nil_r. by apply mpsc_eq.
  - eapply rtc_l; [by apply c_load|]. refine (dequeue_tail_run _ _ _ _). done.
Qed.

Lemma reach_qinv st st' ns : qinv st ns -> rtc qstep st st' -> exists ns', qinv st' ns'.
Proof. intros Hi Hr. revert ns Hi. induction Hr as [st|st1 st2 st3 H12 _ IH]; intros ns Hi; [by exists ns|]. destruct (qstep_inv _ _ _ Hi H12) as [ns2 Hi2]. by eapply IH. Qed.

(** What an uninterrupted dequeue finds. *)
Lemma dequeue_result st ns : qinv st ns -> ms_consumer st = CIdle ->
  match (wg_prev_queue_dequeue (ms_queue st)).1 with
  | Some x => exists l, packets ns = x :: l
  | None => packets ns = [] \/ exists x old, ms_producers st !! x = Some (PLinking old)
  end.
Proof.
  intros Hi Hc. destruct (wg_prev_queue_dequeue (ms_queue st)) as [r q'] eqn:E. cbn [fst].
  pose proof (dequeue_run st Hc) as Hrun. rewrite E in Hrun.
  assert (exists ns', qinv (after_dequeue st (r, q')) ns') as [ns' Hi'].
  { by eapply reach_qinv. }
  destruct r as [x|].
  { exists (packets ns'). pose proof (qi_history _ _ Hi) as H1. pose proof (qi_history _ _ Hi') as H2. cbn in H2. rewrite H1, <- app_assoc in H2. by apply app_inv_head in H2. }
  destruct Hi as [Ht Hh Hn Hl He Hp Hcok Hhi Hco Hb]. rewrite Hc in Hl.
  assert (forall a b, consec ns a b -> NEXT (ms_queue st) a = Some b \/ exists x old, ms_producers st !! x = Some (PLinking old)) as Hl'.
  { intros a b Hab. destruct (Hl a b Hab) as [|[_ [|(t & [=] & _)]]]; eauto. }
  assert (forall t n q, pq_head q = pq_head (ms_queue st) -> t <> STUB -> NEXT q t = n -> (dequeue_tail q t n).1 = None -> t <> pq_head (ms_queue st) /\ n = None) as Hd.
  { intros t n q Hq Htn HN. unfold dequeue_tail. destruct n as [n|]; [done|]. rewrite Hq. destruct (Z.eqb_spec t (pq_head (ms_queue st))) as [Eq|Eq]; cbn [negb]; [|done].
    unfold prev_queue_enqueue. rewrite NEXT_set. cbn [set_head pq_head set_NEXT]. rewrite Hq, decide_True by done. done. }
  unfold wg_prev_queue_dequeue in E. destruct ns as [|a ns]; [done|]. injection Ht as ->. set (t := pq_tail (ms_queue st)) in *.
  destruct (Z.eqb_spec t STUB) as [Et|Et].
  - destruct ns as [|b ns]; [left; unfold packets; by rewrite filter_cons_False by auto|].
    destruct (Hl' t b) as [HN|]; [by exists 0%nat| |by right]. rewrite HN in E.
    assert (b <> STUB) as Hb0 by (intros ->; rewrite Et in Hn; apply NoDup_cons in Hn as [Hn _]; set_solver).
    destruct (Hd b _ (set_tail b (ms_queue st)) eq_refl Hb0 eq_refl) as [Hbh HbN]; [by rewrite E|].
    destruct ns as [|c ns]; [cbn in Hh; congruence|]. destruct (Hl' b c) as [HN'|]; [by exists 1%nat|unfold NEXT in *; cbn in HbN; congruence|by right].
  - destruct (Hd t _ (ms_queue st) eq_refl Et eq_refl) as [Hth HtN]; [by rewrite E|].
    destruct ns as [|c ns]; [cbn in Hh; congruence|]. destruct (Hl' t c) as [HN'|]; [by exists 0%nat|congruence|by right].
Qed.

Lemma qinv_init mem : qinv (Mpsc (wg_prev_queue_init mem) ∅ CIdle [] []) [STUB].
Proof.
  split; try done.
  - apply NoDup_singleton.
  - intros a b (i & Ha & Hb). by destruct i.
  - unfold NEXT. cbn. apply lookup_delete_eq.
Qed.

(** * Theorems *)

(** C7: in every interleaving of any number of producers with the consumer, at the
    granularity of single accesses to shared memory, the queue is a bounded FIFO:
    packets are returned in the order in which their producers exchanged the
    head, none is lost or returned twice; the count covers the packets in the
    queue and those about to enter and never exceeds 1024; no producer ever
    writes to a packet that was already returned; and an uninterrupted dequeue
    returns the oldest packet, and nothing only when the queue is empty or a
    producer has not finished linking. *)
Theorem prev_queue_fifo mem st : rtc qstep (Mpsc (wg_prev_queue_init mem) ∅ CIdle [] []) st ->
  ms_enqueued st = ms_returned st ++ in_flight st /\ NoDup (in_flight st) /\
  Z.of_nat (length (in_flight st)) <= pq_count (ms_queue st) <= MAX_QUEUED_PACKETS /\
  (forall x old, ms_producers st !! x = Some (PLinking old) -> x ∈ in_flight st /\ (old = STUB \/ old ∈ in_flight st)) /\
  (ms_consumer st = CIdle ->
   match (wg_prev_queue_dequeue (ms_queue st)).1 with
   | Some x => in_flight st !! 0%nat = Some x
   | None => in_flight st = [] \/ exists x old, ms_producers st !! x = Some (PLinking old)
   end).
Proof.
  intros Hr. destruct (reach_qinv _ _ _ (qinv_init mem) Hr) as [ns Hi]. rewrite (in_flight_packets _ _ Hi). ands.
  - apply Hi.
  - apply NoDup_filter, Hi.
  - pose proof (qi_count _ _ Hi). lia.
  - apply Hi.
  - intros x old Hx. destruct (qi_producers _ _ Hi x _ Hx) as (Hx0 & Hox & _). destruct (consec_elem _ _ _ Hox) as [Ho Hx']. rewrite !packets_elem.
    split; [done|]. destruct (decide (old = STUB)); auto.
  - intros Hc. pose proof (dequeue_result _ _ Hi Hc) as Hd. destruct (wg_prev_queue_dequeue (ms_queue st)) as [[x|] q']; cbn in *; [|done]. by destruct Hd as [l ->].
Qed.

Lemma prev_queue_fifo_witness : exists st, rtc qstep (Mpsc (wg_prev_queue_init ∅) ∅ CIdle [] []) st /\ in_flight st = [5; 6] /\
  ms_enqueued st = ms_returned st ++ in_flight st.
Proof.
  assert (owned (Mpsc (wg_prev_queue_init ∅) ∅ CIdle [] []) 5) as H5 by (split; [done|apply not_elem_of_nil]).
  pose proof (enqueue_run _ 5 H5 eq_refl) as R1. set (q1 := prev_queue_enqueue (set_count 1 (wg_prev_queue_init ∅)) 5).
  assert (owned (Mpsc q1 ∅ CIdle [5] []) 6) as H6 by (split; [done|]; intros [=]%list_elem_of_singleton).
  pose proof (enqueue_run _ 6 H6 eq_refl) as R2. eexists. split; [etrans; [exact R1|exact R2]|]. split; [reflexivity|].
  apply (prev_queue_fifo ∅). etrans; [exact R1|exact R2].
Defined.

(** ** One CPU *)

(** A queue at rest that holds the packets [l]. *)
Definition pq_rep (q : prev_queue) (l : list Z) : Prop := exists ns, qinv (Mpsc q ∅ CIdle l []) ns.

Lemma pq_rep_packets q l ns : qinv (Mpsc q ∅ CIdle l []) ns -> packets ns = l /\ pq_count q = Z.of_nat (length l).
Proof. intros Hi. pose proof (qi_history _ _ Hi) as H. cbn in H. subst l. split; [done|]. pose proof (qi_count _ _ Hi) as Hc. cbn in Hc. rewrite map_filter_empty, map_size_empty in Hc. lia. Qed.

Lemma pq_rep_rebase q l x ns : qinv (Mpsc q ∅ CIdle (x :: l) [x]) ns -> qinv (Mpsc q ∅ CIdle l []) ns.
Proof. intros [? ? ? ? ? ? ? Hh ? ?]. split; try done. cbn in *. by injection Hh. Qed.

Lemma pq_rep_peeked q l p : pq_rep q l -> pq_rep (set_peeked p q) l.
Proof. intros [ns [? ? ? ? ? ? ? ? ? ?]]. exists ns. by split. Qed.

Lemma pq_dequeue_ok q l : pq_rep q l -> let '(r, q') := wg_prev_queue_dequeue q in r = l !! 0%nat /\ pq_rep q' (tail l) /\ pq_peeked q' = pq_peeked q.
Proof.
  intros [ns Hi]. destruct (pq_rep_packets _ _ _ Hi) as [Hp Hc]. assert (Hpk : pq_peeked (wg_prev_queue_dequeue q).2 = pq_peeked q).
  { unfold wg_prev_queue_dequeue, dequeue_tail. destruct (_ =? STUB), (NEXT q (pq_tail q)); cbn; repeat case_match; done. }
  pose proof (dequeue_result _ _ Hi eq_refl) as Hd. pose proof (dequeue_run _ (eq_refl : ms_consumer (Mpsc q ∅ CIdle l []) = CIdle)) as Hrun. cbn [ms_queue] in Hd, Hrun.
  destruct (wg_prev_queue_dequeue q) as [r q']. destruct (reach_qinv _ _ _ Hi Hrun) as [ns' Hi']. unfold after_dequeue in Hi'. cbn in Hd, Hi', Hpk. rewrite Hp in Hd. destruct r as [x|].
  - destruct Hd as [l' ->]. split; [done|]. split; [|done]. exists ns'. by apply (pq_rep_rebase _ _ x).
  - destruct Hd as [->|(x & old & [=])]. split; [done|]. split; [by exists ns'|done].
Qed.

Lemma pq_enqueue_ok q l x : pq_rep q l -> x <> STUB -> x ∉ l ->
  match wg_prev_queue_enqueue q x with
  | (true, q') => pq_rep q' (l ++ [x]) /\ Z.of_nat (length l) < MAX_QUEUED_PACKETS /\ pq_peeked q' = pq_peeked q
  | (false, q') => q' = q /\ Z.of_nat (length l) = MAX_QUEUED_PACKETS
  end.
Proof.
  intros [ns Hi] Hx Hin. destruct (pq_rep_packets _ _ _ Hi) as [Hp Hc]. assert (owned (Mpsc q ∅ CIdle l []) x) as Ho by done. pose proof (enqueue_run _ x Ho eq_refl) as He. cbn [ms_queue] in He.
  assert (Hpk : pq_peeked (wg_prev_queue_enqueue q x).2 = pq_peeked q) by (unfold wg_prev_queue_enqueue; by destruct (_ =? _)).
  destruct (wg_prev_queue_enqueue q x) as [[] q']; [|destruct He as [He ->]; split; [done|lia]].
  destruct (reach_qinv _ _ _ Hi He) as [ns' Hi']. split; [by exists ns'|]. destruct (pq_rep_packets _ _ _ Hi') as [_ Hc']. pose proof (qi_bound _ _ Hi') as Hb. cbn in Hb, Hc'.
  rewrite length_app in Hc'. cbn in Hc'. split; [lia|done].
Qed.

(** Peeking, with the packet that is already peeked in front. *)
Lemma pq_peek_ok q l : pq_rep q l -> let '(r, q') := wg_prev_queue_peek q in
  let all := option_list (pq_peeked q) ++ l in
  r = all !! 0%nat /\ pq_peeked q' = r /\ pq_rep q' (tail all) /\ (r <> None -> wg_prev_queue_peek q' = (r, q')).
Proof.
  intros Hq. unfold wg_prev_queue_peek at 1. destruct (pq_peeked q) as [p|] eqn:Ep.
  - cbn. ands; try done. intros _. unfold wg_prev_queue_peek. by rewrite Ep.
  - pose proof (pq_dequeue_ok q l Hq) as Hdq. destruct (wg_prev_queue_dequeue q) as [r q']. destruct Hdq as (Hr & Hq' & _). cbn. ands; try done; [by apply pq_rep_peeked|].
    intros Hne. unfold wg_prev_queue_peek. cbn. by destruct r.
Qed.

(** Without concurrency the queue is a list: enqueueing appends and fails
    exactly when 1024 packets are queued, dequeueing takes the first packet and
    returns nothing exactly when there is none, peeking returns the first packet
    again and again without losing it, until it is dropped. *)
Theorem prev_queue_refines q l : pq_rep q l ->
  (forall x, x <> STUB -> x ∉ l ->
     match wg_prev_queue_enqueue q x with
     | (true, q') => pq_rep q' (l ++ [x]) /\ Z.of_nat (length l) < MAX_QUEUED_PACKETS
     | (false, q') => q' = q /\ Z.of_nat (length l) = MAX_QUEUED_PACKETS
     end) /\
  (let '(r, q') := wg_prev_queue_dequeue q in r = l !! 0%nat /\ pq_rep q' (tail l)) /\
  (let '(r, q') := wg_prev_queue_peek q in
   let all := option_list (pq_peeked q) ++ l in
   r = all !! 0%nat /\ pq_peeked q' = r /\ pq_rep q' (tail all) /\ (r <> None -> wg_prev_queue_peek q' = (r, q')) /\
   pq_rep (wg_prev_queue_drop_peeked q') (tail all) /\ pq_peeked (wg_prev_queue_drop_peeked q') = None).
Proof.
  intros Hq. split; [|split].
  - intros x Hx Hin. pose proof (pq_enqueue_ok q l x Hq Hx Hin) as H. by destruct (wg_prev_queue_enqueue q x) as [[] q']; [destruct H as (? & ? & _)|].
  - pose proof (pq_dequeue_ok q l Hq) as H. destruct (wg_prev_queue_dequeue q) as [r q']. tauto.
  - pose proof (pq_peek_ok q l Hq) as H. destruct (wg_prev_queue_peek q) as [r q']. cbv zeta in *. destruct H as (H1 & H2 & H3 & H4). ands; try done. by apply pq_rep_peeked.
Qed.

Lemma prev_queue_refines_witness : (wg_prev_queue_dequeue (wg_prev_queue_init ∅)).1 = None /\ exists q, wg_prev_queue_enqueue (wg_prev_queue_init ∅) 5 = (true, q) /\ pq_rep q [5].
Proof.
  assert (pq_rep (wg_prev_queue_init ∅) []) as Hr by (exists [STUB]; apply qinv_init).
  destruct (prev_queue_refines _ _ Hr) as (He & Hd & _). split; [destruct (wg_prev_queue_dequeue (wg_prev_queue_init ∅)) as [r q']; apply Hd|].
  specialize (He 5 ltac:(done) (not_elem_of_nil _)). destruct (wg_prev_queue_enqueue (wg_prev_queue_init ∅) 5) as [[] q]; [|destruct He; discriminate]. exists q. split; [done|apply He].
Defined.
