(* ===== verification/PtrRing.v ===== *)
(** * The pointer ring ([src/compat/ptr_ring/include/linux/ptr_ring.h])

    The bounded queue behind the device-wide packet queues: an array of pointers
    in which [NULL] marks a free place.  The consumer clears the places it has
    read in batches, so a place can be consumed and still taken.  The ring is
    shown to be a FIFO with that much less room.  Producer and consumer
    operations run under their locks and are atomic here. *)

From S2P Require Import Prelude.
From stdpp Require Import list.
#[local] Open Scope Z_scope.

(** ** The operations *)

Definition ENOSPC : Z := 28.
Definition SMP_CACHE_BYTES : Z := 64.
Definition sizeof_ptr : Z := 8.

Record ptr_ring := PtrRing {
  pr_producer : Z;
  pr_consumer_head : Z;
  pr_consumer_tail : Z;
  pr_size : Z;
  pr_batch : Z;
  pr_queue : list (option Z)
}.

(** Array accesses; [None] is [NULL]. *)
Definition qget (q : list (option Z)) (i : Z) : option Z := default None (q !! Z.to_nat i).
Definition qset (q : list (option Z)) (i : Z) (v : option Z) : list (option Z) := <[Z.to_nat i := v]> q.

Definition set_queue (q : list (option Z)) (r : ptr_ring) : ptr_ring :=
  PtrRing (pr_producer r) (pr_consumer_head r) (pr_consumer_tail r) (pr_size r) (pr_batch r) q.
Definition set_pr_producer (p : Z) (r : ptr_ring) : ptr_ring :=
  PtrRing p (pr_consumer_head r) (pr_consumer_tail r) (pr_size r) (pr_batch r) (pr_queue r).
Definition set_pr_consumer (h t : Z) (r : ptr_ring) : ptr_ring :=
  PtrRing (pr_producer r) h t (pr_size r) (pr_batch r) (pr_queue r).

Definition ptr_ring_full (r : ptr_ring) : bool := match qget (pr_queue r) (pr_producer r) with Some _ => true | None => false end.

Definition ptr_ring_produce (r : ptr_ring) (ptr : Z) : Z * ptr_ring :=
  if (pr_size r =? 0) || ptr_ring_full r then (- ENOSPC, r)
  else
    let r := set_pr_producer (pr_producer r + 1) (set_queue (qset (pr_queue r) (pr_producer r) (Some ptr)) r) in
    (0, if pr_producer r >=? pr_size r then set_pr_producer 0 r else r).

Definition ptr_ring_peek (r : ptr_ring) : option Z := if pr_size r =? 0 then None else qget (pr_queue r) (pr_consumer_head r).

Definition ptr_ring_empty (r : ptr_ring) : bool :=
  if pr_size r =? 0 then true else match qget (pr_queue r) (pr_consumer_head r) with Some _ => false | None => true end.

(** [while (head >= tail) queue[head--] = NULL], which runs [n] times. *)
Fixpoint null_down (n : nat) (head : Z) (q : list (option Z)) : list (option Z) :=
  match n with O => q | S n' => null_down n' (head - 1) (qset q head None) end.
Definition null_range (head tail : Z) (q : list (option Z)) : list (option Z) := null_down (Z.to_nat (head - tail + 1)) head q.

Definition ptr_ring_discard_one (r : ptr_ring) : ptr_ring :=
  let consumer_head := pr_consumer_head r + 1 in
  let head := pr_consumer_head r in
  let r :=
    if (consumer_head - pr_consumer_tail r >=? pr_batch r) || (consumer_head >=? pr_size r)
    then set_pr_consumer (pr_consumer_head r) consumer_head (set_queue (null_range head (pr_consumer_tail r) (pr_queue r)) r)
    else r in
  if consumer_head >=? pr_size r then set_pr_consumer 0 0 r else set_pr_consumer consumer_head (pr_consumer_tail r) r.

Definition ptr_ring_consume (r : ptr_ring) : option Z * ptr_ring :=
  match ptr_ring_peek r with
  | Some ptr => (Some ptr, ptr_ring_discard_one r)
  | None => (None, r)
  end.

Fixpoint ptr_ring_consume_batched (n : nat) (r : ptr_ring) : list Z * ptr_ring :=
  match n with
  | O => ([], r)
  | S n' =>
      match ptr_ring_consume r with
      | (Some ptr, r) => let '(l, r) := ptr_ring_consume_batched n' r in (ptr :: l, r)
      | (None, r) => ([], r)
      end
  end.

(** [__ptr_ring_set_size] *)
Definition batch_for (size : Z) : Z :=
  let batch := SMP_CACHE_BYTES * 2 / sizeof_ptr in if (batch >? size / 2) || (batch =? 0) then 1 else batch.

(** [None] when the array could not be allocated. *)
Definition ptr_ring_init (size : Z) (alloc : bool) : option ptr_ring :=
  if alloc then Some (PtrRing 0 0 0 size (batch_for size) (replicate (Z.to_nat size) None)) else None.

(** The loop of [ptr_ring_unconsume]: [batch] is given in reverse, as it is
    taken; what is left over is destroyed. *)
Fixpoint unconsume_loop (batch : list Z) (r : ptr_ring) : list Z * ptr_ring :=
  match batch with
  | [] => ([], r)
  | ptr :: batch' =>
      let head := pr_consumer_head r - 1 in
      let head := if head <? 0 then pr_size r - 1 else head in
      match qget (pr_queue r) head with
      | Some _ => (batch, r)
      | None => unconsume_loop batch' (set_pr_consumer head head (set_queue (qset (pr_queue r) head (Some ptr)) r))
      end
  end.

(** The ring and the entries that were destroyed, in the order of destruction. *)
Definition ptr_ring_unconsume (batch : list Z) (r : ptr_ring) : list Z * ptr_ring :=
  if pr_size r =? 0 then (rev batch, r)
  else
    let r := set_queue (null_range (pr_consumer_head r - 1) (pr_consumer_tail r) (pr_queue r)) r in
    unconsume_loop (rev batch) (set_pr_consumer (pr_consumer_head r) (pr_consumer_head r) r).

(** The loop of [__ptr_ring_swap_queue]; fuel bounds the entries consumed. *)
Fixpoint swap_loop (fuel : nat) (producer size : Z) (queue : list (option Z)) (r : ptr_ring) : option (Z * list (option Z) * list Z * ptr_ring) :=
  match fuel with
  | O => None
  | S fuel' =>
      match ptr_ring_consume r with
      | (None, r) => Some (producer, queue, [], r)
      | (Some ptr, r) =>
          if producer <? size then swap_loop fuel' (producer + 1) size (qset queue producer (Some ptr)) r
          else match swap_loop fuel' producer size queue r with Some (p, q, d, r) => Some (p, q, ptr :: d, r) | None => None end
      end
  end.

(** The destroyed entries and the ring; the result is [None] only for lack of fuel. *)
Definition ptr_ring_resize (fuel : nat) (size : Z) (alloc : bool) (r : ptr_ring) : option (Z * list Z * ptr_ring) :=
  if negb alloc then Some (- ENOMEM, [], r)
  else
    match swap_loop fuel 0 size (replicate (Z.to_nat size) None) r with
    | None => None
    | Some (producer, queue, destroyed, r) =>
        let producer := if producer >=? size then 0 else producer in
        Some (0, destroyed, PtrRing producer 0 0 size (batch_for size) queue)
    end.

(** The entries [ptr_ring_cleanup] hands to [destroy]. *)
Definition ptr_ring_cleanup (fuel : nat) (destroy : bool) (r : ptr_ring) : list Z := if destroy then (ptr_ring_consume_batched fuel r).1 else [].

(** ** Specification *)

(** The place of the [k]-th entry behind [ch]. *)
Definition pos (size ch k : Z) : Z := if ch + k <? size then ch + k else ch + k - size.

(** The ring holds the pointers [l]; [consumer_head - consumer_tail] places are
    consumed but still taken. *)
Record ring_ok (r : ptr_ring) (l : list Z) : Prop := {
  ro_size : 0 < pr_size r;
  ro_queue : len (pr_queue r) = pr_size r;
  ro_consumer : 0 <= pr_consumer_tail r <= pr_consumer_head r /\ pr_consumer_head r < pr_size r;
  ro_batch : pr_consumer_head r - pr_consumer_tail r < pr_batch r;
  ro_room : len l + (pr_consumer_head r - pr_consumer_tail r) <= pr_size r;
  ro_producer : pr_producer r = pos (pr_size r) (pr_consumer_head r) (len l);
  ro_contents : forall k x, l !! k = Some x -> qget (pr_queue r) (pos (pr_size r) (pr_consumer_head r) (Z.of_nat k)) = Some x;
  ro_dirty : forall i, pr_consumer_tail r <= i < pr_consumer_head r -> qget (pr_queue r) i <> None;
  ro_free : forall k, len l <= k < pr_size r - (pr_consumer_head r - pr_consumer_tail r) ->
    qget (pr_queue r) (pos (pr_size r) (pr_consumer_head r) k) = None
}.

Lemma pos_range size ch k : 0 <= ch < size -> 0 <= k <= size -> 0 <= pos size ch k < size.
Proof. unfold pos. destruct (Z.ltb_spec (ch + k) size); lia. Qed.

Lemma pos_inj size ch k k' : 0 <= ch < size -> 0 <= k < size -> 0 <= k' < size -> pos size ch k = pos size ch k' -> k = k'.
Proof. unfold pos. destruct (Z.ltb_spec (ch + k) size), (Z.ltb_spec (ch + k') size); lia. Qed.

Lemma qget_qset q i v j : 0 <= i < len q -> 0 <= j -> qget (qset q i v) j = if j =? i then v else qget q j.
Proof.
  unfold qget, qset, len. intros Hi Hj. destruct (Z.eqb_spec j i) as [->|D].
  - by rewrite list_lookup_insert_eq by lia.
  - by rewrite list_lookup_insert_ne by lia.
Qed.

Lemma len_qset q i v : len (qset q i v) = len q.
Proof. unfold len, qset. by rewrite length_insert. Qed.

Lemma null_range_spec head tail q j : 0 <= tail -> head < len q -> tail <= head + 1 -> 0 <= j ->
  qget (null_range head tail q) j = (if (tail <=? j) && (j <=? head) then None else qget q j) /\ len (null_range head tail q) = len q.
Proof.
  intros Ht Hh Hth Hj. unfold null_range. remember (Z.to_nat (head - tail + 1)) as n eqn:En. revert head q Hh Hth En.
  induction n as [|n IH]; intros head q Hh Hth En; cbn [null_down].
  - destruct (Z.leb_spec tail j), (Z.leb_spec j head); (split; [|done]); try done; lia.
  - destruct (IH (head - 1) (qset q head None)) as [E1 E2]; rewrite ?len_qset; try lia. rewrite E1, E2, len_qset. split; [|done].
    rewrite qget_qset by lia. destruct (Z.leb_spec tail j), (Z.leb_spec j (head - 1)), (Z.leb_spec j head), (Z.eqb_spec j head); cbn; try done; lia.
Qed.

Ltac ring_simpl := cbn [pr_producer pr_consumer_head pr_consumer_tail pr_size pr_batch pr_queue].
Ltac ring_simpl_all := cbn [pr_producer pr_consumer_head pr_consumer_tail pr_size pr_batch pr_queue] in *.

(** ** Each operation on a ring that holds [l] *)

Lemma ring_init_ok size alloc r : 0 < size -> ptr_ring_init size alloc = Some r -> ring_ok r [] /\ pr_size r = size /\ pr_batch r = batch_for size.
Proof.
  unfold ptr_ring_init. destruct alloc; [|done]. intros Hs [= <-]. ands; try done.
  assert (F : forall i, qget (replicate (Z.to_nat size) None) i = None).
  { intros i. unfold qget. destruct (replicate _ _ !! _) as [o|] eqn:E; [|done]. apply lookup_replicate in E. naive_solver. }
  split; cbn; try lia; intros; rewrite ?F; try done.
  - unfold len. rewrite length_replicate. lia.
  - unfold batch_for. destruct (_ || _) eqn:B; [lia|]. apply orb_false_iff in B as [_ B%Z.eqb_neq]. unfold SMP_CACHE_BYTES, sizeof_ptr in *. lia.
  - unfold len. cbn. lia.
  - unfold pos. destruct (Z.ltb_spec (0 + len (@nil Z)) size); unfold len in *; cbn in *; lia.
Qed.

Lemma full_spec r l : ring_ok r l -> ptr_ring_full r = (len l + (pr_consumer_head r - pr_consumer_tail r) =? pr_size r).
Proof.
  intros [Hs Hq Hc Hb Hr Hp HC HD HF]. unfold ptr_ring_full. rewrite Hp. destruct (Z.eqb_spec (len l + (pr_consumer_head r - pr_consumer_tail r)) (pr_size r)) as [E|E].
  - destruct (decide (pr_consumer_tail r = pr_consumer_head r)) as [D|D].
    + destruct l as [|x l]; [unfold len in *; cbn in *; lia|]. specialize (HC O x eq_refl).
      replace (pos _ _ (len _)) with (pos (pr_size r) (pr_consumer_head r) (Z.of_nat 0)) by (unfold pos; destruct (Z.ltb_spec (pr_consumer_head r + Z.of_nat 0) (pr_size r)), (Z.ltb_spec (pr_consumer_head r + len (x :: l)) (pr_size r)); lia).
      by rewrite HC.
    + replace (pos _ _ _) with (pr_consumer_tail r) by (unfold pos; destruct (Z.ltb_spec (pr_consumer_head r + len l) (pr_size r)); lia).
      specialize (HD (pr_consumer_tail r) ltac:(lia)). by destruct (qget _ _).
  - by rewrite HF by lia.
Qed.

Lemma produce_ok r l x : ring_ok r l -> len l + (pr_consumer_head r - pr_consumer_tail r) < pr_size r ->
  exists r', ptr_ring_produce r x = (0, r') /\ ring_ok r' (l ++ [x]) /\
    pr_size r' = pr_size r /\ pr_batch r' = pr_batch r /\ pr_consumer_head r' = pr_consumer_head r /\ pr_consumer_tail r' = pr_consumer_tail r.
Proof.
  intros R Hroom. pose proof (full_spec _ _ R) as F. destruct R as [Hs Hq Hc Hb Hr Hp HC HD HF]. unfold ptr_ring_produce. rewrite F.
  rewrite (proj2 (Z.eqb_neq (pr_size r) 0)) by lia. rewrite (proj2 (Z.eqb_neq _ (pr_size r))) by lia. cbn [orb].
  pose proof (pos_range (pr_size r) (pr_consumer_head r) (len l) ltac:(lia) ltac:(unfold len in *; lia)) as Pr.
  eexists; split; [reflexivity|]. destruct r as [p h t n b q]; ring_simpl_all.
  assert (E : (if p + 1 >=? n then set_pr_producer 0 (PtrRing (p + 1) h t n b (qset q p (Some x))) else PtrRing (p + 1) h t n b (qset q p (Some x))) =
    PtrRing (pos n h (len l + 1)) h t n b (qset q p (Some x))).
  { unfold set_pr_producer; cbn. unfold pos in *. destruct (Z.geb_spec (p + 1) n), (Z.ltb_spec (h + len l) n), (Z.ltb_spec (h + (len l + 1)) n); f_equal; lia. }
  unfold set_pr_producer, set_queue in *; ring_simpl_all. rewrite E. clear E.
  ands; try done. assert (L : len (l ++ [x]) = len l + 1) by (unfold len; rewrite length_app; cbn; lia).
  assert (N : 0 <= len l) by (unfold len; lia).
  split; ring_simpl; rewrite ?len_qset, ?L; try lia; try done.
  - intros k y Hk. pose proof (pos_range n h (Z.of_nat k) ltac:(lia)) as Pk. destruct (decide (k < length l)%nat) as [D|D].
    + rewrite lookup_app_l in Hk by done. rewrite qget_qset by (unfold len in *; lia). destruct (Z.eqb_spec (pos n h (Z.of_nat k)) p) as [E|_]; [|by apply HC].
      subst p. apply pos_inj in E; unfold len in *; lia.
    + rewrite lookup_app_r in Hk by lia. apply list_lookup_singleton_Some in Hk as [Hk <-]. replace (Z.of_nat k) with (len l) by (unfold len; lia).
      rewrite <- Hp, qget_qset by lia. by rewrite Z.eqb_refl.
  - intros i Hi. rewrite qget_qset by lia. destruct (i =? p); [done|]. by apply HD.
  - intros k Hk. pose proof (pos_range n h k ltac:(lia) ltac:(lia)). rewrite qget_qset by lia.
    destruct (Z.eqb_spec (pos n h k) p) as [E|_]; [|apply HF; lia]. subst p. apply pos_inj in E; lia.
Qed.

Lemma peek_ok r l : ring_ok r l -> ptr_ring_peek r = head l.
Proof.
  intros [Hs Hq Hc Hb Hr Hp HC HD HF]. unfold ptr_ring_peek. rewrite (proj2 (Z.eqb_neq (pr_size r) 0)) by lia.
  assert (P0 : pos (pr_size r) (pr_consumer_head r) 0 = pr_consumer_head r) by (unfold pos; destruct (Z.ltb_spec (pr_consumer_head r + 0) (pr_size r)); lia).
  destruct l as [|x l].
  - rewrite <- P0. apply HF. unfold len; cbn; lia.
  - rewrite <- P0. by apply (HC O).
Qed.

Lemma len_cons_r {A} (x : A) l : len (x :: l) = len l + 1.
Proof. unfold len. cbn. lia. Qed.

Lemma discard_ok r x l : ring_ok r (x :: l) ->
  ring_ok (ptr_ring_discard_one r) l /\ pr_size (ptr_ring_discard_one r) = pr_size r /\ pr_batch (ptr_ring_discard_one r) = pr_batch r.
Proof.
  intros [Hs Hq Hc Hb Hr Hp HC HD HF]. unfold ptr_ring_discard_one. destruct r as [p h t n b q].
  unfold set_pr_consumer, set_queue in *; ring_simpl_all. rewrite len_cons_r in *.
  assert (N : 0 <= len l) by (unfold len; lia).
  assert (S : forall k, 0 <= k < n -> pos n (if h + 1 >=? n then 0 else h + 1) k = pos n h (k + 1)).
  { intros k Hk. unfold pos. destruct (Z.geb_spec (h + 1) n), (Z.ltb_spec (h + (k + 1)) n); destruct (Z.ltb_spec (0 + k) n); destruct (Z.ltb_spec (h + 1 + k) n); lia. }
  assert (C' : forall k y, l !! k = Some y -> qget q (pos n h (Z.of_nat k + 1)) = Some y).
  { intros k y Hk. specialize (HC (1 + k)%nat y Hk). by replace (Z.of_nat k + 1) with (Z.of_nat (1 + k)) by lia. }
  assert (KL : forall k y, l !! k = Some y -> Z.of_nat k < len l) by (intros k y Hk; apply lookup_lt_Some in Hk; unfold len; lia).
  destruct ((h + 1 - t >=? b) || (h + 1 >=? n)) eqn:B.
  - assert (Q : forall j, 0 <= j -> qget (null_range h t q) j = (if (t <=? j) && (j <=? h) then None else qget q j)) by (intros j Hj; apply null_range_spec; lia).
    assert (L : len (null_range h t q) = len q) by (apply (null_range_spec h t q 0); lia).
    assert (G : ring_ok (PtrRing p (if h + 1 >=? n then 0 else h + 1) (if h + 1 >=? n then 0 else h + 1) n b (null_range h t q)) l).
    { split; ring_simpl; try lia; try (destruct (Z.geb_spec (h + 1) n); lia).
      - rewrite S by lia. by rewrite Hp.
      - intros k y Hk. pose proof (KL _ _ Hk). rewrite S by lia. pose proof (pos_range n h (Z.of_nat k + 1) ltac:(lia) ltac:(lia)). rewrite Q by lia.
        rewrite (C' _ _ Hk). unfold pos in *. destruct (Z.ltb_spec (h + (Z.of_nat k + 1)) n), (Z.leb_spec t (h + (Z.of_nat k + 1))), (Z.leb_spec (h + (Z.of_nat k + 1)) h),
          (Z.leb_spec t (h + (Z.of_nat k + 1) - n)), (Z.leb_spec (h + (Z.of_nat k + 1) - n) h); cbn; try done; lia.
      - intros k Hk. replace (n - _) with n in Hk by lia. rewrite S by lia. pose proof (pos_range n h (k + 1) ltac:(lia) ltac:(lia)) as Pk. rewrite Q by lia.
        destruct (_ && _) eqn:T; [done|]. apply HF. unfold pos in *. apply andb_false_iff in T.
        destruct (Z.ltb_spec (h + (k + 1)) n), T as [T%Z.leb_gt|T%Z.leb_gt]; lia. }
    ring_simpl. destruct (h + 1 >=? n); (ands; [exact G|done|done]).
  - apply orb_false_iff in B as [B1 B2]. ring_simpl. rewrite B2 in *. ands; try done.
    assert (h + 1 < n) by (destruct (Z.geb_spec (h + 1) n); [done|lia]). assert (h + 1 - t < b) by (destruct (Z.geb_spec (h + 1 - t) b); [done|lia]).
    split; ring_simpl; try lia.
    + rewrite S by lia. by rewrite Hp.
    + intros k y Hk. pose proof (KL _ _ Hk). rewrite S by lia. by apply C'.
    + intros i Hi. destruct (decide (i = h)) as [->|]; [|apply HD; lia]. specialize (HC O x eq_refl). unfold pos in HC.
      destruct (Z.ltb_spec (h + Z.of_nat 0) n); [|lia]. replace (h + Z.of_nat 0) with h in HC by lia. by rewrite HC.
    + intros k Hk. rewrite S by lia. apply HF. lia.
Qed.

Lemma consume_ok r l : ring_ok r l ->
  exists r', ptr_ring_consume r = (head l, r') /\ ring_ok r' (tail l) /\ pr_size r' = pr_size r /\ pr_batch r' = pr_batch r.
Proof.
  intros R. unfold ptr_ring_consume. rewrite (peek_ok _ _ R). destruct l as [|x l]; cbn; [eauto|]. destruct (discard_ok _ _ _ R) as (?&?&?). eauto.
Qed.

Lemma consume_batched_ok n r l : ring_ok r l ->
  exists r', ptr_ring_consume_batched n r = (take n l, r') /\ ring_ok r' (drop n l) /\ pr_size r' = pr_size r /\ pr_batch r' = pr_batch r.
Proof.
  revert r l. induction n as [|n IH]; intros r l R; cbn [ptr_ring_consume_batched]; [eauto|].
  destruct (consume_ok _ _ R) as (r1 & -> & R1 & E1 & E2). destruct l as [|x l]; cbn [head tail hd_error] in *; [eauto|].
  destruct (IH _ _ R1) as (r2 & -> & R2 & E3 & E4). eexists. ands; [done|done|congruence|congruence].
Qed.

(** Clearing the places that are consumed but still taken. *)
Lemma flush_ok r l : ring_ok r l ->
  ring_ok (set_pr_consumer (pr_consumer_head r) (pr_consumer_head r) (set_queue (null_range (pr_consumer_head r - 1) (pr_consumer_tail r) (pr_queue r)) r)) l.
Proof.
  intros [Hs Hq Hc Hb Hr Hp HC HD HF]. destruct r as [p h t n b q]. unfold set_pr_consumer, set_queue. ring_simpl_all.
  assert (Q : forall j, 0 <= j -> qget (null_range (h - 1) t q) j = (if (t <=? j) && (j <=? h - 1) then None else qget q j)) by (intros j Hj; apply null_range_spec; lia).
  assert (L : len (null_range (h - 1) t q) = len q) by (apply (null_range_spec (h - 1) t q 0); lia).
  split; ring_simpl; try lia.
  - intros k y Hk. assert (Z.of_nat k < len l) by (apply lookup_lt_Some in Hk; unfold len; lia).
    pose proof (pos_range n h (Z.of_nat k) ltac:(lia) ltac:(lia)). rewrite Q by lia. rewrite (HC _ _ Hk).
    unfold pos. destruct (Z.ltb_spec (h + Z.of_nat k) n) as [T|T].
    + by rewrite (proj2 (Z.leb_gt (h + Z.of_nat k) (h - 1))), andb_false_r by lia.
    + by rewrite (proj2 (Z.leb_gt t (h + Z.of_nat k - n))) by lia.
  - intros k Hk. pose proof (pos_range n h k ltac:(unfold len in *; lia) ltac:(unfold len in *; lia)). rewrite Q by lia. destruct (_ && _) eqn:T; [done|].
    apply HF. unfold pos in *. apply andb_false_iff in T. destruct (Z.ltb_spec (h + k) n), T as [T%Z.leb_gt|T%Z.leb_gt]; lia.
Qed.

(** The place in front of the oldest entry. *)
Definition before (r : ptr_ring) : Z := if pr_consumer_head r - 1 <? 0 then pr_size r - 1 else pr_consumer_head r - 1.

Lemma before_pos r k : 0 <= pr_consumer_head r < pr_size r -> 0 <= k < pr_size r -> pos (pr_size r) (before r) (k + 1) = pos (pr_size r) (pr_consumer_head r) k.
Proof.
  unfold before, pos. intros Hh Hk. destruct (Z.ltb_spec (pr_consumer_head r - 1) 0), (Z.ltb_spec (pr_consumer_head r + k) (pr_size r));
  [destruct (Z.ltb_spec (pr_size r - 1 + (k + 1)) (pr_size r))| |destruct (Z.ltb_spec (pr_consumer_head r - 1 + (k + 1)) (pr_size r))|destruct (Z.ltb_spec (pr_consumer_head r - 1 + (k + 1)) (pr_size r))]; lia.
Qed.

Lemma before_last r : 0 <= pr_consumer_head r < pr_size r -> before r = pos (pr_size r) (pr_consumer_head r) (pr_size r - 1).
Proof. intros Hh. unfold before, pos. destruct (Z.ltb_spec (pr_consumer_head r - 1) 0), (Z.ltb_spec (pr_consumer_head r + (pr_size r - 1)) (pr_size r)); lia. Qed.

Lemma push_full r l : ring_ok r l -> len l = pr_size r -> qget (pr_queue r) (before r) <> None.
Proof.
  intros [Hs Hq Hc Hb Hr Hp HC HD HF] E. rewrite before_last by lia. destruct (lookup_lt_is_Some_2 l (Z.to_nat (pr_size r - 1))) as [x Hx]; [unfold len in *; lia|].
  specialize (HC _ _ Hx). rewrite Z2Nat.id in HC by lia. by rewrite HC.
Qed.

Lemma ring_push_ok r l x : ring_ok r l -> pr_consumer_tail r = pr_consumer_head r -> len l < pr_size r ->
  qget (pr_queue r) (before r) = None /\ ring_ok (set_pr_consumer (before r) (before r) (set_queue (qset (pr_queue r) (before r) (Some x)) r)) (x :: l).
Proof.
  intros [Hs Hq Hc Hb Hr Hp HC HD HF] Ht Hl. pose proof (before_last r ltac:(lia)) as BL. pose proof (pos_range (pr_size r) (pr_consumer_head r) (pr_size r - 1) ltac:(lia) ltac:(lia)) as BR.
  rewrite <- BL in BR. split; [rewrite BL; apply HF; lia|]. assert (N : 0 <= len l) by (unfold len; lia).
  assert (P : forall k, 0 <= k < pr_size r - 1 -> pos (pr_size r) (before r) (k + 1) <> before r).
  { intros k Hk E. rewrite before_pos, BL in E by lia. apply pos_inj in E; lia. }
  split; unfold set_pr_consumer, set_queue; ring_simpl; rewrite ?len_qset, ?len_cons_r; try lia.
  - by rewrite before_pos by lia.
  - intros [|k] y Hk; cbn in Hk.
    + injection Hk as <-. replace (pos _ _ _) with (before r) by (unfold pos; destruct (Z.ltb_spec (before r + Z.of_nat 0) (pr_size r)); lia).
      rewrite qget_qset by lia. by rewrite Z.eqb_refl.
    + assert (Z.of_nat k < len l) by (apply lookup_lt_Some in Hk; unfold len; lia). replace (Z.of_nat (S k)) with (Z.of_nat k + 1) by lia.
      pose proof (P (Z.of_nat k) ltac:(lia)) as D. pose proof (pos_range (pr_size r) (before r) (Z.of_nat k + 1) ltac:(lia) ltac:(lia)).
      rewrite qget_qset by lia. rewrite (proj2 (Z.eqb_neq _ _) D), before_pos by lia. by apply HC.
  - intros k Hk. pose proof (P (k - 1) ltac:(lia)) as D. pose proof (pos_range (pr_size r) (before r) k ltac:(lia) ltac:(lia)). replace k with (k - 1 + 1) in * by lia.
    replace (k - 1 + 1 - 1) with (k - 1) in * by lia. rewrite qget_qset by lia. rewrite (proj2 (Z.eqb_neq _ _) D), before_pos by lia. apply HF. lia.
Qed.

Lemma unconsume_loop_ok b r l : ring_ok r l -> pr_consumer_tail r = pr_consumer_head r ->
  let m := Z.to_nat (pr_size r - len l) in
  exists r', unconsume_loop b r = (drop m b, r') /\ ring_ok r' (rev (take m b) ++ l) /\ pr_size r' = pr_size r /\ pr_batch r' = pr_batch r.
Proof.
  revert r l. induction b as [|x b IH]; intros r l R Ht m; cbn [unconsume_loop].
  { exists r. rewrite drop_nil, take_nil. eauto. }
  change (if pr_consumer_head r - 1 <? 0 then _ else _) with (before r). pose proof (ro_room _ _ R) as Hr. destruct (decide (len l = pr_size r)) as [E|E].
  - pose proof (push_full _ _ R E) as F. replace m with O by lia. destruct (qget _ _) eqn:G; [|done]. exists r. eauto.
  - destruct (ring_push_ok r l x R Ht ltac:(lia)) as [-> R']. destruct (IH _ _ R' eq_refl) as (r' & E' & R'' & ES & EB). exists r'.
    replace m with (S (Z.to_nat (pr_size r - len (x :: l)))) by (rewrite len_cons_r; lia). ands; [exact E'| |done|done].
    cbn [take rev]. rewrite <- app_assoc. exact R''.
Qed.

(** The array of [__ptr_ring_swap_queue], filled from the front. *)
Record filled (q : list (option Z)) (size : Z) (acc : list Z) : Prop := {
  fi_len : len q = size;
  fi_room : len acc <= size;
  fi_some : forall k x, acc !! k = Some x -> qget q (Z.of_nat k) = Some x;
  fi_none : forall k, len acc <= k < size -> qget q k = None
}.

Lemma filled_snoc q size acc x : filled q size acc -> len acc < size -> filled (qset q (len acc) (Some x)) size (acc ++ [x]).
Proof.
  intros [L R FS FN] H. assert (E : len (acc ++ [x]) = len acc + 1) by (unfold len; rewrite length_app; cbn; lia). assert (0 <= len acc) by (unfold len; lia).
  split; rewrite ?len_qset, ?E; try lia.
  - intros k y Hk. rewrite qget_qset by lia. apply lookup_snoc_Some in Hk as [[Hk Hl]|[-> <-]].
    + rewrite (proj2 (Z.eqb_neq _ _)) by (unfold len; lia). by apply FS.
    + unfold len. by rewrite Z.eqb_refl.
  - intros k Hk. rewrite qget_qset, (proj2 (Z.eqb_neq _ _)) by lia. apply FN. lia.
Qed.

Lemma swap_loop_ok fuel q size acc r l : ring_ok r l -> filled q size acc -> (length l < fuel)%nat ->
  let m := Z.to_nat (size - len acc) in
  exists q' r', swap_loop fuel (len acc) size q r = Some (len (acc ++ take m l), q', drop m l, r') /\ filled q' size (acc ++ take m l).
Proof.
  revert q acc r l. induction fuel as [|fuel IH]; intros q acc r l R F Hf m; [lia|]. cbn [swap_loop].
  destruct (consume_ok _ _ R) as (r1 & -> & R1 & _). destruct l as [|x l]; cbn [head hd_error tail] in *.
  { exists q, r1. rewrite take_nil, drop_nil, app_nil_r. done. }
  cbn [length] in Hf. pose proof (fi_room _ _ _ F). destruct (Z.ltb_spec (len acc) size) as [C|C].
  - assert (E : len (acc ++ [x]) = len acc + 1) by (unfold len; rewrite length_app; cbn; lia). rewrite <- E.
    destruct (IH _ _ _ _ R1 (filled_snoc _ _ _ x F C) ltac:(lia)) as (q' & r' & E' & F'). exists q', r'.
    replace m with (S (Z.to_nat (size - len (acc ++ [x])))) by lia. cbn [take drop]. by rewrite <- app_assoc in E', F'.
  - destruct (IH q acc _ _ R1 F ltac:(lia)) as (q' & r' & -> & F'). replace m with O by lia. replace (Z.to_nat (size - len acc)) with O in * by lia.
    cbn [take drop] in *. exists q', r'. done.
Qed.

Lemma resize_ok fuel size r l : ring_ok r l -> 0 < size -> (length l < fuel)%nat ->
  exists r', ptr_ring_resize fuel size true r = Some (0, drop (Z.to_nat size) l, r') /\ ring_ok r' (take (Z.to_nat size) l) /\ pr_size r' = size /\ pr_batch r' = batch_for size.
Proof.
  intros R Hs Hf. unfold ptr_ring_resize. cbn [negb]. destruct (ring_init_ok size true _ Hs eq_refl) as [I _].
  destruct (swap_loop_ok fuel (replicate (Z.to_nat size) None) size [] r l R) as (q' & r1 & E & [F1 F2 F3 F4]); [|done|].
  { split; [apply (ro_queue _ _ I)|unfold len; cbn; lia|done|]. intros k Hk. pose proof (ro_free _ _ I k) as G. ring_simpl_all. unfold pos in G.
    replace (0 + k <? size) with true in G by (symmetry; apply Z.ltb_lt; lia). apply G. unfold len in *; cbn in *; lia. }
  change (len []) with 0 in E. rewrite Z.sub_0_r in *. cbn [app] in *. rewrite E. set (l' := take _ l) in *. eexists. ands; [done| |done|done].
  assert (0 <= len l') by (unfold len; lia).
  split; ring_simpl; try lia.
  - pose proof (ro_batch _ _ I). by ring_simpl_all.
  - unfold pos. destruct (Z.geb_spec (len l') size), (Z.ltb_spec (0 + len l') size); lia.
  - intros k x Hk. assert (Z.of_nat k < len l') by (apply lookup_lt_Some in Hk; unfold len; lia). unfold pos. rewrite (proj2 (Z.ltb_lt _ _)) by lia. by apply F3.
  - intros k Hk. unfold pos. rewrite (proj2 (Z.ltb_lt _ _)) by lia. apply F4. lia.
Qed.

(** ** Refinement of a bounded FIFO *)

Inductive ring_op :=
  | OpProduce (ptr : Z)
  | OpPeek
  | OpEmpty
  | OpConsume
  | OpConsumeBatched (n : nat)
  | OpUnconsume (batch : list Z)
  | OpResize (size : Z) (alloc : bool).

Inductive ring_res :=
  | ResInt (z : Z)
  | ResPtr (ptr : option Z)
  | ResBool (b : bool)
  | ResPtrs (l : list Z)
  | ResResize (ret : Z) (destroyed : list Z)
  | ResFuel.

(** A ring holds at most [pr_size] entries, so this fuel is enough for its loops. *)
Definition ring_fuel (r : ptr_ring) : nat := S (Z.to_nat (pr_size r)).

Definition run_ring_op (op : ring_op) (r : ptr_ring) : ring_res * ptr_ring :=
  match op with
  | OpProduce ptr => let '(e, r) := ptr_ring_produce r ptr in (ResInt e, r)
  | OpPeek => (ResPtr (ptr_ring_peek r), r)
  | OpEmpty => (ResBool (ptr_ring_empty r), r)
  | OpConsume => let '(p, r) := ptr_ring_consume r in (ResPtr p, r)
  | OpConsumeBatched n => let '(l, r) := ptr_ring_consume_batched n r in (ResPtrs l, r)
  | OpUnconsume batch => let '(l, r) := ptr_ring_unconsume batch r in (ResPtrs l, r)
  | OpResize size alloc =>
      match ptr_ring_resize (ring_fuel r) size alloc r with Some (ret, d, r) => (ResResize ret d, r) | None => (ResFuel, r) end
  end.

Fixpoint run_ring (ops : list ring_op) (r : ptr_ring) : list ring_res * ptr_ring :=
  match ops with
  | [] => ([], r)
  | op :: ops => let '(x, r) := run_ring_op op r in let '(xs, r) := run_ring ops r in (x :: xs, r)
  end.

(** What the operations do to a FIFO of [size] places.  Produce may refuse an
    entry early, when fewer than a batch of places are left. *)
Inductive fifo_op : Z * list Z -> ring_op -> ring_res -> Z * list Z -> Prop :=
  | fo_produce size l x : len l < size -> fifo_op (size, l) (OpProduce x) (ResInt 0) (size, l ++ [x])
  | fo_produce_full size l x : size - batch_for size < len l <= size -> fifo_op (size, l) (OpProduce x) (ResInt (- ENOSPC)) (size, l)
  | fo_peek size l : fifo_op (size, l) OpPeek (ResPtr (head l)) (size, l)
  | fo_empty size l : fifo_op (size, l) OpEmpty (ResBool (bool_decide (l = []))) (size, l)
  | fo_consume size l : fifo_op (size, l) OpConsume (ResPtr (head l)) (size, tail l)
  | fo_consume_batched size l n : fifo_op (size, l) (OpConsumeBatched n) (ResPtrs (take n l)) (size, drop n l)
  | fo_unconsume size l kept gone : len kept + len l <= size -> (gone = [] \/ len kept + len l = size) ->
      fifo_op (size, l) (OpUnconsume (gone ++ kept)) (ResPtrs (rev gone)) (size, kept ++ l)
  | fo_resize size l size' : 0 < size' ->
      fifo_op (size, l) (OpResize size' true) (ResResize 0 (drop (Z.to_nat size') l)) (size', take (Z.to_nat size') l)
  | fo_resize_nomem size l size' : fifo_op (size, l) (OpResize size' false) (ResResize (- ENOMEM) []) (size, l).

Inductive fifo_run : Z * list Z -> list ring_op -> list ring_res -> Z * list Z -> Prop :=
  | fr_nil s : fifo_run s [] [] s
  | fr_cons s op x s1 ops xs s2 : fifo_op s op x s1 -> fifo_run s1 ops xs s2 -> fifo_run s (op :: ops) (x :: xs) s2.

(** Resizing to no places at all makes a ring that refuses everything. *)
Definition resize_positive (op : ring_op) : Prop := match op with OpResize size _ => 0 < size | _ => True end.

Definition ring_rep (r : ptr_ring) (s : Z * list Z) : Prop := ring_ok r s.2 /\ pr_size r = s.1 /\ pr_batch r = batch_for s.1.

Lemma unconsume_ok batch r l : ring_ok r l -> let m := Z.to_nat (len batch + len l - pr_size r) in
  exists r', ptr_ring_unconsume batch r = (rev (take m batch), r') /\ ring_ok r' (drop m batch ++ l) /\ pr_size r' = pr_size r /\ pr_batch r' = pr_batch r.
Proof.
  intros R m. unfold ptr_ring_unconsume. pose proof (ro_size _ _ R). pose proof (ro_room _ _ R). pose proof (ro_consumer _ _ R).
  rewrite (proj2 (Z.eqb_neq (pr_size r) 0)) by lia. destruct (unconsume_loop_ok (rev batch) _ _ (flush_ok _ _ R) eq_refl) as (r' & E & R' & S1 & S2).
  cbn [set_queue set_pr_consumer pr_consumer_head pr_size] in E, R' |- *. exists r'.
  assert (T : forall n, take n (rev batch) = rev (drop (length batch - n) batch) /\ drop n (rev batch) = rev (take (length batch - n) batch)).
  { intros n. rewrite <- (take_drop (length batch - n) batch) at 1 4. rewrite !rev_app_distr.
    destruct (decide (n <= length batch)%nat) as [D|D].
    - rewrite take_app_length', drop_app_length' by (rewrite length_rev, length_drop; lia). done.
    - replace (length batch - n)%nat with O by lia. rewrite drop_0, take_0. change (rev []) with (@nil Z). rewrite app_nil_r.
      split; [apply take_ge|apply drop_ge]; rewrite length_rev; lia. }
  destruct (T (Z.to_nat (pr_size r - len l))) as [T1 T2]. rewrite T1, rev_involutive in R'. rewrite T2 in E.
  assert (M : take (length batch - Z.to_nat (pr_size r - len l)) batch = take m batch /\ drop (length batch - Z.to_nat (pr_size r - len l)) batch = drop m batch)
    by (split; f_equal; unfold m, len in *; lia).
  destruct M as [M1 M2]. rewrite M1 in E. rewrite M2 in R'. done.
Qed.

Lemma ring_op_refines op r s : ring_rep r s -> resize_positive op -> exists s', fifo_op s op (run_ring_op op r).1 s' /\ ring_rep (run_ring_op op r).2 s'.
Proof.
  destruct s as [size l]. intros (R & Es & Eb) V. pose proof (ro_room _ _ R) as Hr. pose proof (ro_consumer _ _ R) as Hc. pose proof (ro_batch _ _ R) as Hb. cbn in R, Es, Eb, Hr.
  destruct op as [x| | | |n|batch|size' []]; cbn [run_ring_op].
  - destruct (decide (len l + (pr_consumer_head r - pr_consumer_tail r) < pr_size r)) as [D|D].
    + destruct (produce_ok _ _ x R D) as (r' & -> & R' & E1 & E2 & _). exists (size, l ++ [x]). split; [constructor; lia|]. split; [done|]. cbn; split; congruence.
    + unfold ptr_ring_produce. rewrite (full_spec _ _ R), (proj2 (Z.eqb_eq (len l + _) _)) by lia. rewrite orb_true_r. exists (size, l). split; [|done].
      apply fo_produce_full. lia.
  - exists (size, l). rewrite (peek_ok _ _ R). split; [constructor|done].
  - exists (size, l). pose proof (peek_ok _ _ R) as P. unfold ptr_ring_peek, ptr_ring_empty in *. destruct (pr_size r =? 0) eqn:Z0; [pose proof (ro_size _ _ R); lia|].
    rewrite P. split; [|done]. cbn. replace (match head l with Some _ => false | None => true end) with (bool_decide (l = [])) by (by destruct l). constructor.
  - destruct (consume_ok _ _ R) as (r' & -> & R' & E1 & E2). exists (size, tail l). split; [constructor|]. split; [done|]. cbn; split; congruence.
  - destruct (consume_batched_ok n _ _ R) as (r' & -> & R' & E1 & E2). exists (size, drop n l). split; [constructor|]. split; [done|]. cbn; split; congruence.
  - destruct (unconsume_ok batch _ _ R) as (r' & -> & R' & E1 & E2). remember (Z.to_nat (len batch + len l - pr_size r)) as m eqn:Em. exists (size, drop m batch ++ l). split.
    + rewrite <- (take_drop m batch) at 1. apply fo_unconsume; unfold len in *; rewrite ?length_drop in *; [lia|].
      destruct (decide (m = O)) as [->|]; [by left|right; lia].
    + split; [done|]. cbn; split; congruence.
  - destruct (resize_ok (ring_fuel r) size' r l R V) as (r' & -> & R' & E1 & E2); [unfold ring_fuel, len in *; lia|].
    exists (size', take (Z.to_nat size') l). split; [by constructor|]. split; [done|]. cbn; split; congruence.
  - exists (size, l). split; [constructor|done].
Qed.

Lemma ring_run_refines ops r s : ring_rep r s -> Forall resize_positive ops ->
  exists s', fifo_run s ops (run_ring ops r).1 s' /\ ring_rep (run_ring ops r).2 s'.
Proof.
  revert r s. induction ops as [|op ops IH]; intros r s R V; cbn [run_ring]; [eexists; split; [constructor|done]|].
  inversion V as [|? ? V1 V2]; subst. destruct (ring_op_refines op r s R V1) as (s1 & F1 & R1). destruct (run_ring_op op r) as [x r1]. cbn in F1, R1.
  destruct (IH r1 s1 R1 V2) as (s2 & F2 & R2). destruct (run_ring ops r1) as [xs r2]. exists s2. split; [by econstructor|done].
Qed.

Lemma cleanup_ok r l : ring_ok r l -> ptr_ring_cleanup (ring_fuel r) true r = l.
Proof.
  intros R. unfold ptr_ring_cleanup. destruct (consume_batched_ok (ring_fuel r) _ _ R) as (r' & -> & _). cbn. apply take_ge.
  pose proof (ro_room _ _ R). pose proof (ro_consumer _ _ R). unfold ring_fuel, len in *. lia.
Qed.

(** C12: The pointer ring is a bounded FIFO.  For every sequence of produce, peek,
    empty, consume, batched consume, unconsume and resize on a ring made by
    [ptr_ring_init], the results are those of a list of pointers: nothing is
    lost, duplicated or reordered, produce never overfills the ring and refuses
    an entry only when fewer than a batch (16 places in a ring of 32 or more,
    else one) are left, unconsume and resize destroy exactly what does not fit,
    no loop runs on, and cleanup destroys exactly what is left. *)
Theorem ptr_ring_fifo size r ops : 0 < size -> ptr_ring_init size true = Some r -> Forall resize_positive ops ->
  let '(xs, r') := run_ring ops r in
  exists s, fifo_run (size, []) ops xs s /\ ptr_ring_cleanup (ring_fuel r') true r' = s.2 /\ len s.2 <= s.1.
Proof.
  intros Hs I V. destruct (ring_init_ok _ _ _ Hs I) as (R & E1 & E2). destruct (ring_run_refines ops r (size, []) ltac:(done) V) as (s & F & R' & E3 & E4).
  destruct (run_ring ops r) as [xs r']. cbn in *. exists s. ands; [done|by apply cleanup_ok|].
  pose proof (ro_room _ _ R'). pose proof (ro_consumer _ _ R'). lia.
Qed.

Lemma ptr_ring_fifo_witness :
  let ops := [OpProduce 10; OpProduce 11; OpProduce 12; OpProduce 13; OpConsume; OpProduce 14; OpUnconsume [7; 8]; OpConsume; OpUnconsume [20; 21]; OpResize 2 true] in
  let xs := [ResInt 0; ResInt 0; ResInt 0; ResInt (- ENOSPC); ResPtr (Some 10); ResInt 0; ResPtrs [8; 7]; ResPtr (Some 11); ResPtrs [20]; ResResize 0 [14]] in
  exists size, fifo_run (3, []) ops xs (size, [21; 12]).
Proof.
  intros ops xs. pose proof (ptr_ring_fifo 3 _ ops eq_refl eq_refl ltac:(repeat constructor)) as W.
  assert (E : run_ring ops (PtrRing 0 0 0 3 1 (replicate 3 None)) = (xs, PtrRing 0 0 0 2 1 [Some 21; Some 12])) by (vm_compute; reflexivity).
  change (batch_for 3) with 1 in W. change (Z.to_nat 3) with 3%nat in W. rewrite E in W. destruct W as ([size l] & F & C & L). exists size.
  change (ptr_ring_cleanup _ _ _) with [21; 12] in C. cbn in C. by subst l.
Defined.
