(* ===== verification/Pipeline.v ===== *)
(** * From many CPUs back into order ([src/queueing.h], [src/send.c], [src/receive.c])

    A packet on its way is in two queues: the ring of the device, from which
    any CPU takes it to encrypt or decrypt it, and the queue of its peer,
    from which a single consumer takes the packets in order once their
    [state] says that the work is done.  The file is parametric in what
    the work does to a packet, and in the two queues, of which it knows the
    interface. *)

From S2P Require Import Prelude Messages Queueing PtrRing.
From stdpp Require Import gmap list fin_maps.
#[local] Open Scope Z_scope.

(** ** The interfaces of the queues *)

(** The queue of a peer: [pq_front] is [wg_prev_queue_peek]. *)
Class PeerQueue (Q : Type) := {
  pq_enq : Q -> Z -> bool * Q;
  pq_front : Q -> option Z * Q;
  pq_drop : Q -> Q;
  pq_holds : Q -> list Z -> Prop;
  pq_fits : Z -> Prop
}.

Class PeerQueueLaws (Q : Type) `{PeerQueue Q} : Prop := {
  pq_enq_ok : forall q l x, pq_holds q l -> pq_fits x -> x ∉ l ->
    match pq_enq q x with (true, q') => pq_holds q' (l ++ [x]) | (false, q') => q' = q end;
  pq_front_ok : forall q l, pq_holds q l -> let '(r, q') := pq_front q in
    r = head l /\ pq_holds q' l /\ (r <> None -> pq_holds (pq_drop q') (tail l))
}.

(** The ring of the device. *)
Class DeviceRing (R : Type) := {
  dr_produce : R -> Z -> Z * R;
  dr_consume : R -> option Z * R;
  dr_holds : R -> list Z -> Prop
}.

Class DeviceRingLaws (R : Type) `{DeviceRing R} : Prop := {
  dr_produce_ok : forall r l x, dr_holds r l ->
    let '(err, r') := dr_produce r x in if err =? 0 then dr_holds r' (l ++ [x]) else r' = r;
  dr_consume_ok : forall r l, dr_holds r l -> let '(x, r') := dr_consume r in x = head l /\ dr_holds r' (tail l)
}.

#[export] Instance prev_queue_queue : PeerQueue prev_queue := {|
  pq_enq := wg_prev_queue_enqueue;
  pq_front := wg_prev_queue_peek;
  pq_drop := wg_prev_queue_drop_peeked;
  pq_holds q l := exists l', pq_rep q l' /\ l = option_list (pq_peeked q) ++ l';
  pq_fits x := x <> STUB
|}.

#[export] Instance prev_queue_laws : PeerQueueLaws prev_queue.
Proof.
  split.
  - intros q l x (l' & Hq & ->) Hx Hn. cbn in *. rewrite elem_of_app in Hn. pose proof (pq_enqueue_ok q l' x Hq Hx ltac:(tauto)) as H.
    destruct (wg_prev_queue_enqueue q x) as [[] q']; [|tauto]. destruct H as (H & _ & E). exists (l' ++ [x]). by rewrite E, app_assoc.
  - intros q l (l' & Hq & ->). cbn. pose proof (pq_peek_ok q l' Hq) as H. destruct (wg_prev_queue_peek q) as [r q']. cbv zeta in H. destruct H as (H1 & H2 & H3 & _).
    set (all := option_list (pq_peeked q) ++ l') in *. rewrite H1, H2, H1. ands.
    + by destruct all.
    + exists (tail all). split; [done|]. by destruct all.
    + intros _. exists (tail all). split; [by apply pq_rep_peeked|done].
Qed.

#[export] Instance ptr_ring_ring : DeviceRing ptr_ring := {| dr_produce := ptr_ring_produce; dr_consume := ptr_ring_consume; dr_holds := ring_ok |}.

#[export] Instance ptr_ring_laws : DeviceRingLaws ptr_ring.
Proof.
  split; cbn.
  - intros r l x R. pose proof (full_spec r l R) as F. destruct (Z.eq_dec (len l + (pr_consumer_head r - pr_consumer_tail r)) (pr_size r)) as [E|D].
    + unfold ptr_ring_produce. rewrite F, E, Z.eqb_refl, orb_true_r. done.
    + pose proof (ro_room _ _ R). destruct (produce_ok r l x R ltac:(lia)) as (r' & -> & R' & _). done.
  - intros r l R. destruct (consume_ok r l R) as (r' & -> & R' & _). done.
Qed.

(** ** The pipeline *)

Inductive packet_state := PACKET_STATE_UNCRYPTED | PACKET_STATE_CRYPTED | PACKET_STATE_DEAD.

Definition EPIPE : Z := 32.

Section Pipeline.

Context {Q R : Type} `{PQ : PeerQueue Q} `{DR : DeviceRing R}.
(** A packet, what the work reads, and the work. *)
Context {P E : Type} (crypt : E -> P -> option P).

(** The packets with their states, the device's ring and the peers' queues. *)
Record pipeline := Pipe {
  pl_skbs : gmap Z (packet_state * P);
  pl_ring : R;
  pl_queues : gmap Z Q
}.

Definition set_state (skb : Z) (s : packet_state) (pl : pipeline) : pipeline :=
  Pipe (alter (fun c => (s, c.2)) skb (pl_skbs pl)) (pl_ring pl) (pl_queues pl).
Definition set_ring (r : R) (pl : pipeline) : pipeline := Pipe (pl_skbs pl) r (pl_queues pl).
Definition set_pl_queue (peer : Z) (q : Q) (pl : pipeline) : pipeline := Pipe (pl_skbs pl) (pl_ring pl) (<[peer := q]> (pl_queues pl)).

(** [None]: the peer has no queue. *)
Definition wg_queue_enqueue_per_device_and_peer (peer skb : Z) (pl : pipeline) : option (Z * pipeline) :=
  let pl := set_state skb PACKET_STATE_UNCRYPTED pl in
  q ← pl_queues pl !! peer;
  let '(ok, q) := pq_enq q skb in
  let pl := set_pl_queue peer q pl in
  if negb ok then Some (- ENOSPC, pl)
  else
    let '(err, r) := dr_produce (pl_ring pl) skb in
    let pl := set_ring r pl in
    if negb (err =? 0) then Some (- EPIPE, pl) else Some (0, pl).

(** [wg_queue_enqueue_per_peer_tx] and [wg_queue_enqueue_per_peer_rx]: the
    state changes and the peer's consumer is scheduled. *)
Definition wg_queue_enqueue_per_peer (skb : Z) (s : packet_state) (pl : pipeline) : pipeline := set_state skb s pl.

(** The end of [wg_packet_create_data] and of [wg_packet_consume_data]: whether
    the packet was taken. *)
Definition submit (peer skb : Z) (pl : pipeline) : option (bool * pipeline) :=
  '(ret, pl) ← wg_queue_enqueue_per_device_and_peer peer skb pl;
  let pl := if ret =? - EPIPE then wg_queue_enqueue_per_peer skb PACKET_STATE_DEAD pl else pl in
  Some ((ret =? 0) || (ret =? - EPIPE), pl).

(** One round of a worker: it takes a packet from the ring, and later it
    marks the packet it holds. *)
Definition worker_take (pl : pipeline) : option Z * pipeline :=
  let '(x, r) := dr_consume (pl_ring pl) in (x, set_ring r pl).

Definition worker_finish (e : E) (skb : Z) (pl : pipeline) : option pipeline :=
  '(_, m) ← pl_skbs pl !! skb;
  match crypt e m with
  | Some m' => Some (wg_queue_enqueue_per_peer skb PACKET_STATE_CRYPTED (Pipe (<[skb := (PACKET_STATE_UNCRYPTED, m')]> (pl_skbs pl)) (pl_ring pl) (pl_queues pl)))
  | None => Some (wg_queue_enqueue_per_peer skb PACKET_STATE_DEAD pl)
  end.

(** One round of the consumer's loop: [Some (Some ...)] is a packet that
    is ready, with its state; [None] is a packet that is not there. *)
Definition consumer_poll (peer : Z) (pl : pipeline) : option (option (Z * packet_state * P) * pipeline) :=
  q ← pl_queues pl !! peer;
  let '(r, q) := pq_front q in
  let pl := set_pl_queue peer q pl in
  match r with
  | None => Some (None, pl)
  | Some skb =>
      '(s, m) ← pl_skbs pl !! skb;
      match s with
      | PACKET_STATE_UNCRYPTED => Some (None, pl)
      | _ => Some (Some (skb, s, m), set_pl_queue peer (pq_drop q) pl)
      end
  end.

(** ** Runs *)

(** What happens, in some order: packets are submitted, workers take
    packets and finish them, consumers poll and free what they get. *)
Inductive pipe_op :=
  | PSubmit (peer skb : Z) (m : P)
  | PTake
  | PFinish (e : E) (skb : Z)
  | PPoll (peer : Z).

(** The pipeline, the packets the workers hold, and for each peer the packets
    taken and the packets returned so far. *)
Record pipe_run := PipeRun {
  pr_pipe : pipeline;
  pr_busy : list Z;
  pr_taken : gmap Z (list P);
  pr_returned : gmap Z (list (packet_state * P))
}.

Definition log {A} (peer : Z) (x : A) (m : gmap Z (list A)) : gmap Z (list A) := <[peer := default [] (m !! peer) ++ [x]]> m.

(** A packet that is submitted is one the caller owns: it is not on its way. *)
Definition op_allowed (op : pipe_op) (st : pipe_run) : bool :=
  match op with
  | PSubmit peer skb m => bool_decide (pl_skbs (pr_pipe st) !! skb = None)
  | PFinish e skb => bool_decide (skb ∈ pr_busy st)
  | _ => true
  end.

Definition remove_skb (skb : Z) (pl : pipeline) : pipeline := Pipe (delete skb (pl_skbs pl)) (pl_ring pl) (pl_queues pl).

Definition run_pipe_op (op : pipe_op) (st : pipe_run) : option pipe_run :=
  if negb (op_allowed op st) then None
  else
    match op with
    | PSubmit peer skb m =>
        let pl := Pipe (<[skb := (PACKET_STATE_UNCRYPTED, m)]> (pl_skbs (pr_pipe st))) (pl_ring (pr_pipe st)) (pl_queues (pr_pipe st)) in
        '(ok, pl) ← submit peer skb pl;
        Some (if ok : bool then PipeRun pl (pr_busy st) (log peer m (pr_taken st)) (pr_returned st)
              else PipeRun (remove_skb skb pl) (pr_busy st) (pr_taken st) (pr_returned st))
    | PTake =>
        let '(x, pl) := worker_take (pr_pipe st) in
        Some (PipeRun pl (match x with Some skb => skb :: pr_busy st | None => pr_busy st end) (pr_taken st) (pr_returned st))
    | PFinish e skb =>
        pl ← worker_finish e skb (pr_pipe st);
        Some (PipeRun pl (List.filter (fun y => negb (y =? skb)) (pr_busy st)) (pr_taken st) (pr_returned st))
    | PPoll peer =>
        '(r, pl) ← consumer_poll peer (pr_pipe st);
        Some (match r with
              | None => PipeRun pl (pr_busy st) (pr_taken st) (pr_returned st)
              | Some (skb, s, m) => PipeRun (remove_skb skb pl) (pr_busy st) (pr_taken st) (log peer (s, m) (pr_returned st))
              end)
    end.

Fixpoint run_pipe (ops : list pipe_op) (st : pipe_run) : option pipe_run :=
  match ops with [] => Some st | op :: ops' => st ← run_pipe_op op st; run_pipe ops' st end.

End Pipeline.

(** ** The invariant *)

Section Facts.

Context {Q R : Type} `{PL : PeerQueueLaws Q} `{DL : DeviceRingLaws R} {P E : Type} (crypt : E -> P -> option P).

Abbreviation prun := (@pipe_run Q R P).

(** What may have become of the packet [m]. *)
Definition done (m : P) (c : packet_state * P) : Prop :=
  match c.1 with PACKET_STATE_CRYPTED => exists e, crypt e m = Some c.2 | _ => c.2 = m end.
Definition finished (c : packet_state * P) : Prop := c.1 <> PACKET_STATE_UNCRYPTED.

Definition taken (peer : Z) (st : prun) : list P := default [] (pr_taken st !! peer).
Definition returned (peer : Z) (st : prun) : list (packet_state * P) := default [] (pr_returned st !! peer).

(** [L] are the packets in the peers' queues and [ring] those in the ring. *)
Record pinv (st : prun) (L : Z -> list Z) (ring : list Z) : Prop := {
  pi_queues : forall peer q, pl_queues (pr_pipe st) !! peer = Some q -> pq_holds q (L peer);
  pi_ring : dr_holds (pl_ring (pr_pipe st)) ring;
  pi_nodup : forall peer, NoDup (L peer);
  pi_disjoint : forall p1 p2 x, x ∈ L p1 -> x ∈ L p2 -> p1 = p2;
  pi_skbs : forall x, is_Some (pl_skbs (pr_pipe st) !! x) <-> exists peer, x ∈ L peer;
  pi_work_nodup : NoDup (ring ++ pr_busy st);
  (* a packet waits for a worker exactly when it is in the ring or a worker has it *)
  pi_work : forall x, x ∈ ring ++ pr_busy st <-> exists m, pl_skbs (pr_pipe st) !! x = Some (PACKET_STATE_UNCRYPTED, m);
  pi_order : forall peer, exists tk1 tk2, taken peer st = tk1 ++ tk2 /\ Forall2 (fun m c => done m c /\ finished c) tk1 (returned peer st) /\
    Forall2 (fun m x => exists c, pl_skbs (pr_pipe st) !! x = Some c /\ done m c) tk2 (L peer)
}.

Lemma log_eq {A} peer x (m : gmap Z (list A)) : default [] (log peer x m !! peer) = default [] (m !! peer) ++ [x].
Proof. unfold log. by rewrite lookup_insert_eq. Qed.
Lemma log_ne {A} peer peer' x (m : gmap Z (list A)) : peer <> peer' -> default [] (log peer x m !! peer') = default [] (m !! peer').
Proof. intros. unfold log. by rewrite lookup_insert_ne. Qed.

Definition upd (peer : Z) (l : list Z) (L : Z -> list Z) : Z -> list Z := fun p => if p =? peer then l else L p.
Lemma upd_eq peer l L : upd peer l L peer = l.
Proof. unfold upd. by rewrite Z.eqb_refl. Qed.
Lemma upd_ne peer p l L : p <> peer -> upd peer l L p = L p.
Proof. intros. unfold upd. by rewrite (proj2 (Z.eqb_neq _ _)). Qed.

Lemma Forall2_impl_in {A B} (S T : A -> B -> Prop) l k : Forall2 S l k -> (forall x y, y ∈ k -> S x y -> T x y) -> Forall2 T l k.
Proof. induction 1 as [|x y l k Hxy F IH]; intros HT; constructor; [apply HT; [left|done]|apply IH; intros; apply HT; [by right|done]]. Qed.

(** A packet that is not on its way is in no queue. *)
Lemma fresh_skb st L ring x : pinv st L ring -> pl_skbs (pr_pipe st) !! x = None -> (forall peer, x ∉ L peer) /\ x ∉ ring ++ pr_busy st.
Proof.
  intros I Hx. split.
  - intros peer Hin. destruct (proj2 (pi_skbs _ _ _ I x)) as [c Hc]; [by exists peer|congruence].
  - intros Hin. apply (pi_work _ _ _ I) in Hin as [m Hm]. congruence.
Qed.

(** A new packet at the end of a peer's queue, in the ring unless it is dead. *)
Lemma submit_inv st L ring peer x m pl s (inring : bool) : pinv st L ring -> pl_skbs (pr_pipe st) !! x = None ->
  pl_skbs pl = <[x := (s, m)]> (pl_skbs (pr_pipe st)) -> s = (if inring then PACKET_STATE_UNCRYPTED else PACKET_STATE_DEAD) ->
  (exists q, pl_queues pl = <[peer := q]> (pl_queues (pr_pipe st)) /\ pq_holds q (L peer ++ [x])) ->
  dr_holds (pl_ring pl) (if inring then ring ++ [x] else ring) ->
  pinv (PipeRun pl (pr_busy st) (log peer m (pr_taken st)) (pr_returned st)) (upd peer (L peer ++ [x]) L) (if inring then ring ++ [x] else ring).
Proof.
  intros I Hf Hsk Hs (q & Hq & Hh) Hr. destruct (fresh_skb st L ring x I Hf) as [HL Hw]. destruct I as [Iq Ir In Id Isk Iwn Iw Io].
  split; cbn [pr_pipe pr_busy pr_taken pr_returned].
  - intros p q' Hp. rewrite Hq in Hp. destruct (decide (p = peer)) as [->|D]; [rewrite lookup_insert_eq in Hp; injection Hp as <-; by rewrite upd_eq|].
    rewrite lookup_insert_ne in Hp by done. rewrite upd_ne by done. by apply Iq.
  - done.
  - intros p. destruct (decide (p = peer)) as [->|D]; [rewrite upd_eq|by rewrite upd_ne]. apply NoDup_app. split; [done|]. split; [|apply NoDup_singleton].
    intros y Hy ->%list_elem_of_singleton. by apply (HL peer).
  - assert (forall p y, y ∈ upd peer (L peer ++ [x]) L p -> y ∈ L p \/ p = peer /\ y = x) as Hu.
    { intros p y. destruct (decide (p = peer)) as [->|D]; [rewrite upd_eq, elem_of_app, list_elem_of_singleton; tauto|rewrite upd_ne by done; tauto]. }
    intros p1 p2 y [H1|[-> ->]]%Hu [H2|[-> H2]]%Hu; subst; [by eapply Id|by destruct (HL p1)|by destruct (HL p2)|done].
  - intros y. rewrite Hsk. destruct (decide (x = y)) as [<-|D].
    + rewrite lookup_insert_eq. split; [intros _; exists peer; rewrite upd_eq; set_solver|by eexists].
    + rewrite lookup_insert_ne by done. rewrite Isk. split; intros [p Hp].
      * exists p. destruct (decide (p = peer)) as [->|]; [rewrite upd_eq; set_solver|by rewrite upd_ne].
      * exists p. destruct (decide (p = peer)) as [->|]; [rewrite upd_eq in Hp; set_solver|by rewrite upd_ne in Hp].
  - destruct inring; [|done]. rewrite <- app_assoc.
    assert (ring ++ [x] ++ pr_busy st ≡ₚ x :: ring ++ pr_busy st) as -> by (symmetry; apply Permutation_middle). by apply NoDup_cons.
  - intros y. rewrite Hsk. destruct (decide (x = y)) as [<-|D].
    + rewrite lookup_insert_eq. destruct inring; subst s; [split; [by eexists|set_solver]|]. split; [done|]. by intros [m' [=]].
    + rewrite lookup_insert_ne by done. rewrite <- Iw. destruct inring; set_solver.
  - intros p. destruct (Io p) as (tk1 & tk2 & E1 & F1 & F2). unfold taken, returned in *. cbn [pr_taken pr_returned].
    assert (Forall2 (fun m x0 => exists c, pl_skbs pl !! x0 = Some c /\ done m c) tk2 (L p)) as F2'.
    { eapply Forall2_impl_in; [exact F2|]. intros m' y Hy (c & Hc & Hd). exists c. split; [|done]. rewrite Hsk, lookup_insert_ne; [done|]. intros ->. by apply (HL p). }
    destruct (decide (p = peer)) as [->|D].
    + rewrite log_eq, upd_eq, E1. exists tk1, (tk2 ++ [m]). rewrite app_assoc. ands; [done|done|]. apply Forall2_app; [done|]. constructor; [|constructor].
      exists (s, m). rewrite Hsk, lookup_insert_eq. split; [done|]. by destruct inring; subst s.
    + rewrite log_ne, upd_ne by done. by exists tk1, tk2.
Qed.

(** The queues of the peers change, their contents do not. *)
Lemma queues_inv st L ring peer q : pinv st L ring -> pq_holds q (L peer) -> pinv (PipeRun (set_pl_queue peer q (pr_pipe st)) (pr_busy st) (pr_taken st) (pr_returned st)) L ring.
Proof.
  intros [Iq Ir In Id Isk Iwn Iw Io] Hq. split; try done. intros p q' Hp. cbn in Hp. destruct (decide (p = peer)) as [->|D].
  - rewrite lookup_insert_eq in Hp. by injection Hp as <-.
  - rewrite lookup_insert_ne in Hp by done. by apply Iq.
Qed.

Lemma submit_ok st L ring peer skb m : pinv st L ring -> pl_skbs (pr_pipe st) !! skb = None -> pq_fits skb -> is_Some (pl_queues (pr_pipe st) !! peer) ->
  exists st' L' ring', run_pipe_op crypt (PSubmit peer skb m) st = Some st' /\ pinv st' L' ring' /\ dom (pl_queues (pr_pipe st')) = dom (pl_queues (pr_pipe st)).
Proof.
  intros I Hf Hfit [q Hq]. destruct (fresh_skb st L ring skb I Hf) as [HL Hw]. unfold run_pipe_op. cbn [op_allowed]. rewrite bool_decide_true by done. cbn [negb].
  unfold submit, wg_queue_enqueue_per_device_and_peer. cbn [pl_queues set_state]. rewrite Hq. cbn [mbind option_bind].
  pose proof (pq_enq_ok q (L peer) skb (pi_queues _ _ _ I peer q Hq) Hfit (HL peer)) as He. destruct (pq_enq q skb) as [[] q']; cbn [negb].
  - cbn [pl_ring set_pl_queue set_state]. pose proof (dr_produce_ok (pl_ring (pr_pipe st)) ring skb (pi_ring _ _ _ I)) as Hr. destruct (dr_produce _ skb) as [err r'].
    destruct (err =? 0); cbn [negb mbind option_bind]; eexists _, _, _; (split; [reflexivity|]).
    + cbn [orb]. change (0 =? - EPIPE) with false. cbn [orb]. split; [|by apply dom_insert_lookup_L; rewrite Hq].
      apply (submit_inv st L ring peer skb m _ PACKET_STATE_UNCRYPTED true); try done; [cbn; by rewrite alter_insert_eq|by exists q'].
    + change (- EPIPE =? - EPIPE) with true. rewrite orb_true_r. split; [|by apply dom_insert_lookup_L; rewrite Hq]. subst r'.
      apply (submit_inv st L ring peer skb m _ PACKET_STATE_DEAD false); try done; [cbn; by rewrite !alter_insert_eq|by exists q'|apply I].
  - cbn [mbind option_bind]. change (- ENOSPC =? - EPIPE) with false. change (- ENOSPC =? 0) with false. cbn [orb]. subst q'. eexists _, L, ring. split; [reflexivity|].
    split; [|by apply dom_insert_lookup_L; rewrite Hq]. destruct I as [Iq Ir In Id Isk Iwn Iw Io].
    assert (E0 : delete skb (alter (fun c => (PACKET_STATE_UNCRYPTED, c.2)) skb (<[skb := (PACKET_STATE_UNCRYPTED, m)]> (pl_skbs (pr_pipe st)))) = pl_skbs (pr_pipe st)).
    { rewrite alter_insert_eq. by apply delete_insert_id || rewrite delete_insert_eq, delete_id. }
    split; cbn [remove_skb set_pl_queue set_state pr_pipe pr_busy pr_taken pr_returned pl_skbs pl_ring pl_queues]; rewrite ?E0; try done.
    rewrite insert_id by done. exact Iq.
Qed.

Lemma take_ok st L ring : pinv st L ring ->
  exists st' ring', run_pipe_op crypt PTake st = Some st' /\ pinv st' L ring' /\ pl_queues (pr_pipe st') = pl_queues (pr_pipe st).
Proof.
  intros I. unfold run_pipe_op, worker_take. cbn [op_allowed negb]. pose proof (dr_consume_ok (pl_ring (pr_pipe st)) ring (pi_ring _ _ _ I)) as Hr.
  destruct (dr_consume _) as [x r']. destruct Hr as [-> Hr]. eexists _, (tail ring). split; [reflexivity|]. split; [|done]. destruct I as [Iq Ir In Id Isk Iwn Iw Io].
  destruct ring as [|y ring]; cbn [head tail]; split; try done; cbn [pr_pipe pr_busy set_ring pl_skbs].
  - by rewrite <- Permutation_middle.
  - intros x. rewrite <- Iw. rewrite <- Permutation_middle. done.
Qed.

Lemma finish_ok st L ring e skb : pinv st L ring -> skb ∈ pr_busy st ->
  exists st', run_pipe_op crypt (PFinish e skb) st = Some st' /\ pinv st' L ring /\ pl_queues (pr_pipe st') = pl_queues (pr_pipe st).
Proof.
  intros I Hb. destruct (proj1 (pi_work _ _ _ I skb)) as [m Hm]; [set_solver|]. unfold run_pipe_op. cbn [op_allowed]. rewrite bool_decide_true by done. cbn [negb].
  unfold worker_finish. rewrite Hm. cbn [mbind option_bind].
  assert (Hgen : forall pl c, pl_queues pl = pl_queues (pr_pipe st) -> pl_ring pl = pl_ring (pr_pipe st) -> pl_skbs pl = <[skb := c]> (pl_skbs (pr_pipe st)) -> done m c -> finished c ->
    pinv (PipeRun pl (List.filter (fun y => negb (y =? skb)) (pr_busy st)) (pr_taken st) (pr_returned st)) L ring).
  { intros pl c E1 E2 E3 Hd Hfin. destruct I as [Iq Ir In Id Isk Iwn Iw Io].
    assert (Hmem : forall y, y ∈ List.filter (fun y => negb (y =? skb)) (pr_busy st) <-> y ∈ pr_busy st /\ y <> skb).
    { intros y. rewrite !list_elem_of_In, filter_In, negb_true_iff, Z.eqb_neq. done. }
    assert (Hnd : NoDup (List.filter (fun y => negb (y =? skb)) (pr_busy st))).
    { apply NoDup_ListNoDup, List.NoDup_filter, NoDup_ListNoDup. by apply NoDup_app in Iwn as (_ & _ & ?). }
    apply NoDup_app in Iwn as (N1 & N2 & N3).
    split; cbn [pr_pipe pr_busy pr_taken pr_returned]; rewrite ?E1, ?E2, ?E3; try done.
    - intros y. rewrite <- Isk. destruct (decide (skb = y)) as [<-|D]; [rewrite lookup_insert_eq, Hm; split; by eexists|by rewrite lookup_insert_ne].
    - apply NoDup_app. split; [done|]. split; [|done]. intros y Hy [? _]%Hmem. by apply (N2 y).
    - intros y. rewrite elem_of_app, Hmem. destruct (decide (skb = y)) as [<-|D].
      + rewrite lookup_insert_eq. split; [intros [Hy|[_ ?]]; [by destruct (N2 skb)|done]|]. intros [m' [= ->]]. by destruct Hfin.
      + rewrite lookup_insert_ne by done. rewrite <- Iw, elem_of_app. naive_solver.
    - intros p. destruct (Io p) as (tk1 & tk2 & E4 & F1 & F2). exists tk1, tk2. ands; [done|done|]. eapply Forall2_impl; [exact F2|]. intros m' y (c' & Hc' & Hd').
      destruct (decide (skb = y)) as [<-|D]; [|exists c'; by rewrite lookup_insert_ne]. exists c. rewrite lookup_insert_eq. split; [done|]. rewrite Hm in Hc'. injection Hc' as <-. cbn in Hd'. by subst m'. }
  destruct (crypt e m) as [m'|] eqn:Ec; eexists; (split; [reflexivity|]); (split; [|done]); eapply Hgen; try done.
  - cbn. by rewrite alter_insert_eq.
  - by exists e.
  - done.
  - cbn. by apply map_eq; intros y; destruct (decide (skb = y)) as [<-|D]; [rewrite lookup_alter_eq, Hm, lookup_insert_eq|rewrite lookup_alter_ne, lookup_insert_ne].
  - done.
  - done.
Qed.

(** A packet leaves the front of its queue. *)
Lemma return_inv st L ring peer x l s m q : pinv st L ring -> L peer = x :: l -> pl_skbs (pr_pipe st) !! x = Some (s, m) -> s <> PACKET_STATE_UNCRYPTED -> pq_holds q l ->
  pinv (PipeRun (remove_skb x (set_pl_queue peer q (pr_pipe st))) (pr_busy st) (pr_taken st) (log peer (s, m) (pr_returned st))) (upd peer l L) ring.
Proof.
  intros [Iq Ir In Id Isk Iwn Iw Io] HL Hx Hs Hq. assert (Hnd := In peer). rewrite HL in Hnd. apply NoDup_cons in Hnd as [Hxl Hnd].
  assert (Hother : forall p y, y ∈ upd peer l L p -> y <> x /\ y ∈ L p).
  { intros p y. destruct (decide (p = peer)) as [->|D]; [rewrite upd_eq, HL; intros Hy; split; [by intros ->|set_solver]|]. rewrite upd_ne by done. intros Hy. split; [|done].
    intros ->. apply D. apply (Id _ _ x); [done|]. rewrite HL. set_solver. }
  split; cbn [pr_pipe pr_busy pr_taken pr_returned remove_skb set_pl_queue pl_skbs pl_ring pl_queues]; try done.
  - intros p q' Hp. destruct (decide (p = peer)) as [->|D]; [rewrite lookup_insert_eq in Hp; injection Hp as <-; by rewrite upd_eq|].
    rewrite lookup_insert_ne in Hp by done. rewrite upd_ne by done. by apply Iq.
  - intros p. destruct (decide (p = peer)) as [->|D]; [by rewrite upd_eq|by rewrite upd_ne].
  - intros p1 p2 y [_ H1]%Hother [_ H2]%Hother. by eapply Id.
  - intros y. destruct (decide (x = y)) as [<-|D].
    + rewrite lookup_delete_eq. split; [by intros [? [=]]|]. intros [p [? _]%Hother]. done.
    + rewrite lookup_delete_ne by done. rewrite Isk. split; [|intros [p [_ Hp]%Hother]; by exists p]. intros [p Hp]. exists p.
      destruct (decide (p = peer)) as [->|]; [rewrite upd_eq; rewrite HL in Hp; set_solver|by rewrite upd_ne].
  - intros y. rewrite Iw. destruct (decide (x = y)) as [<-|D]; [rewrite lookup_delete_eq, Hx; split; [intros [m' [= -> _]]; done|by intros [? [=]]]|by rewrite lookup_delete_ne].
  - intros p. destruct (Io p) as (tk1 & tk2 & E1 & F1 & F2). unfold taken, returned in *. cbn [pr_taken pr_returned].
    assert (Hkeep : forall tk l', Forall2 (fun m x => exists c, pl_skbs (pr_pipe st) !! x = Some c /\ done m c) tk l' -> (forall y, y ∈ l' -> y <> x) ->
      Forall2 (fun m x0 => exists c, delete x (pl_skbs (pr_pipe st)) !! x0 = Some c /\ done m c) tk l').
    { intros tk l' HF Hne. eapply Forall2_impl_in; [exact HF|]. intros m' y Hy (c & Hc & Hd). exists c. rewrite lookup_delete_ne; [done|]. intros ->. by apply (Hne y). }
    destruct (decide (p = peer)) as [->|D].
    + rewrite log_eq, upd_eq. rewrite HL in F2. apply Forall2_cons_inv_r in F2 as (m0 & tk2' & (c & Hc & Hd) & F2 & ->). rewrite Hx in Hc. injection Hc as <-.
      exists (tk1 ++ [m0]), tk2'. ands; [by rewrite <- app_assoc|apply Forall2_app; [done|by repeat constructor]|apply Hkeep; [done|by intros y Hy ->]].
    + rewrite log_ne, upd_ne by done. exists tk1, tk2. ands; [done|done|]. apply Hkeep; [done|]. intros y Hy. apply (Hother p). by rewrite upd_ne.
Qed.

Lemma poll_ok st L ring peer : pinv st L ring -> is_Some (pl_queues (pr_pipe st) !! peer) ->
  exists st' L', run_pipe_op crypt (PPoll peer) st = Some st' /\ pinv st' L' ring /\ dom (pl_queues (pr_pipe st')) = dom (pl_queues (pr_pipe st)) /\
    pr_busy st' = pr_busy st /\ pr_taken st' = pr_taken st /\ pl_ring (pr_pipe st') = pl_ring (pr_pipe st) /\
    (ring ++ pr_busy st = [] -> L' peer = tail (L peer)).
Proof.
  intros I [q Hq]. unfold run_pipe_op, consumer_poll. cbn [op_allowed negb]. rewrite Hq. cbn [mbind option_bind].
  pose proof (pq_front_ok q (L peer) (pi_queues _ _ _ I peer q Hq)) as Hf. destruct (pq_front q) as [r q']. destruct Hf as (Hr & Hh & Hd).
  assert (Hdom : forall q'', dom (<[peer := q'']> (pl_queues (pr_pipe st))) = dom (pl_queues (pr_pipe st))) by (intros; by apply dom_insert_lookup_L; rewrite Hq).
  assert (Hsame : exists st' L', Some (PipeRun (set_pl_queue peer q' (pr_pipe st)) (pr_busy st) (pr_taken st) (pr_returned st)) = Some st' /\ pinv st' L' ring /\
    dom (pl_queues (pr_pipe st')) = dom (pl_queues (pr_pipe st)) /\ pr_busy st' = pr_busy st /\ pr_taken st' = pr_taken st /\ pl_ring (pr_pipe st') = pl_ring (pr_pipe st) /\ L' = L).
  { eexists _, L. split; [reflexivity|]. split; [by apply queues_inv|]. split; [apply Hdom|done]. }
  destruct (L peer) as [|x l] eqn:EL; cbn [head tail] in *; subst r; cbn [mbind option_bind].
  - destruct Hsame as (st' & L' & Est & I' & D & B & T & Rg & ->). exists st', L. ands; done.
  - cbn [pl_skbs set_pl_queue]. destruct (proj2 (pi_skbs _ _ _ I x)) as [[s m] Hx]; [exists peer; rewrite EL; set_solver|]. rewrite Hx. cbn [mbind option_bind].
    assert (Hret : s <> PACKET_STATE_UNCRYPTED -> exists st' L', Some (PipeRun (remove_skb x (set_pl_queue peer (pq_drop q') (set_pl_queue peer q' (pr_pipe st)))) (pr_busy st) (pr_taken st) (log peer (s, m) (pr_returned st))) = Some st' /\
      pinv st' L' ring /\ dom (pl_queues (pr_pipe st')) = dom (pl_queues (pr_pipe st)) /\ pr_busy st' = pr_busy st /\ pr_taken st' = pr_taken st /\ pl_ring (pr_pipe st') = pl_ring (pr_pipe st) /\
      L' peer = l).
    { intros Hs. eexists _, (upd peer l L). split; [reflexivity|]. split; [|ands; try done; [cbn; rewrite insert_insert_eq; apply Hdom|by rewrite upd_eq]].
      replace (set_pl_queue peer (pq_drop q') (set_pl_queue peer q' (pr_pipe st))) with (set_pl_queue peer (pq_drop q') (pr_pipe st)) by (unfold set_pl_queue; cbn; by rewrite insert_insert_eq).
      apply return_inv; try done. by apply Hd. }
    destruct s; [|destruct Hret as (st' & L' & ?); [done|exists st', L'; tauto]..]. destruct Hsame as (st' & L' & Est & I' & D & B & T & Rg & ->). exists st', L. ands; try done.
    intros Hidle. exfalso. pose proof (proj2 (pi_work _ _ _ I x)) as Hw. rewrite Hidle in Hw. apply not_elem_of_nil with x. apply Hw. by exists m.
Qed.

(** The states that can be reached from a pipeline at rest. *)
Definition op_known (op : @pipe_op P E) (st : prun) : Prop :=
  match op with PSubmit peer skb _ => pq_fits skb /\ is_Some (pl_queues (pr_pipe st) !! peer) | PPoll peer => is_Some (pl_queues (pr_pipe st) !! peer) | _ => True end.

Inductive pipe_reachable : prun -> Prop :=
  | pipe_init r qs : dr_holds r [] -> (forall peer q, qs !! peer = Some q -> pq_holds q []) -> pipe_reachable (PipeRun (Pipe ∅ r qs) [] ∅ ∅)
  | pipe_step st op st' : pipe_reachable st -> op_known op st -> run_pipe_op crypt op st = Some st' -> pipe_reachable st'.

Lemma pipe_op_ok op st L ring : pinv st L ring -> op_allowed op st = true -> op_known op st ->
  exists st' L' ring', run_pipe_op crypt op st = Some st' /\ pinv st' L' ring' /\ dom (pl_queues (pr_pipe st')) = dom (pl_queues (pr_pipe st)).
Proof.
  intros I Ha Hk. destruct op as [peer skb m| |e skb|peer]; cbn in Ha, Hk.
  - apply bool_decide_eq_true in Ha. destruct Hk as [Hf Hq]. by apply (submit_ok st L ring).
  - destruct (take_ok st L ring I) as (st' & ring' & ? & ? & Hq). exists st', L, ring'. by rewrite Hq.
  - apply bool_decide_eq_true in Ha. destruct (finish_ok st L ring e skb I Ha) as (st' & ? & ? & Hq). exists st', L, ring. by rewrite Hq.
  - destruct (poll_ok st L ring peer I Hk) as (st' & L' & ? & ? & ? & _). eauto 7.
Qed.

Lemma pipe_reachable_inv st : pipe_reachable st -> exists L ring, pinv st L ring.
Proof.
  induction 1 as [r qs Hr Hq|st op st' _ (L & ring & I) Hk Hs].
  - exists (fun _ => []), []. split; cbn; try done; try apply NoDup_nil_2.
    + intros peer. apply NoDup_nil_2.
    + intros p1 p2 x []%not_elem_of_nil.
    + intros x. rewrite lookup_empty. split; [by intros [? [=]]|]. by intros [? []%not_elem_of_nil].
    + intros x. rewrite lookup_empty. split; [by intros []%not_elem_of_nil|by intros [? [=]]].
    + intros peer. exists [], []. unfold taken, returned. cbn. rewrite !lookup_empty. done.
  - destruct (op_allowed op st) eqn:Ha; [|unfold run_pipe_op in Hs; by rewrite Ha in Hs].
    destruct (pipe_op_ok op st L ring I Ha Hk) as (st1 & L' & ring' & Es & I' & _). rewrite Es in Hs. injection Hs as <-. eauto.
Qed.

Lemma drain_ok n : forall st L peer, pinv st L [] -> pr_busy st = [] -> is_Some (pl_queues (pr_pipe st) !! peer) -> length (L peer) = n ->
  exists st' L', run_pipe crypt (replicate n (PPoll peer)) st = Some st' /\ pinv st' L' [] /\ length (returned peer st') = length (taken peer st') /\ pr_taken st' = pr_taken st.
Proof.
  induction n as [|n IH]; intros st L peer I Hb Hq Hn; cbn [replicate run_pipe].
  - exists st, L. ands; [done|done| |done]. destruct (pi_order _ _ _ I peer) as (tk1 & tk2 & E1 & F1 & F2). destruct (L peer); [|done]. inversion F2; subst. rewrite app_nil_r in E1.
    rewrite E1. symmetry. by eapply Forall2_length.
  - destruct (poll_ok st L [] peer I Hq) as (st1 & L1 & -> & I1 & Hd & Hb1 & Ht & _ & HL). cbn [mbind option_bind]. specialize (HL ltac:(by rewrite Hb)).
    destruct (IH st1 L1 peer I1) as (st' & L' & Es & I' & Hlen & Ht'); [congruence|apply elem_of_dom; rewrite Hd; by apply elem_of_dom|rewrite HL; destruct (L peer); cbn in *; lia|].
    exists st', L'. ands; [done|done|done|congruence].
Qed.

End Facts.

(** C8: Whatever the CPUs do, a peer's packets come out in the order in which
    they went in, each once, encrypted (or decrypted) by a worker or marked dead,
    never before the work is done; every operation finds the packets it touches
    (none is freed while a queue or a worker has it); and no packet is
    stuck: when the ring is empty and no worker is busy, polling returns all
    of them. *)
Theorem pipeline_safe `{PL : PeerQueueLaws Q} `{DL : DeviceRingLaws R} {P E} (crypt : E -> P -> option P) (st : @pipe_run Q R P) : pipe_reachable crypt st ->
  (forall op, op_allowed op st = true -> op_known op st -> is_Some (run_pipe_op crypt op st)) /\
  (forall peer, exists tk1 tk2, taken peer st = tk1 ++ tk2 /\ Forall2 (fun m c => done crypt m c /\ finished c) tk1 (returned peer st)) /\
  (forall peer, pr_busy st = [] -> (worker_take (pr_pipe st)).1 = None -> is_Some (pl_queues (pr_pipe st) !! peer) ->
     exists st', run_pipe crypt (replicate (length (taken peer st) - length (returned peer st)) (PPoll peer)) st = Some st' /\
       taken peer st' = taken peer st /\ Forall2 (fun m c => done crypt m c /\ finished c) (taken peer st') (returned peer st')).
Proof.
  intros Hr. destruct (pipe_reachable_inv crypt st Hr) as (L & ring & I). split; [|split].
  - intros op Ha Hk. destruct (pipe_op_ok crypt op st L ring I Ha Hk) as (st' & _ & _ & -> & _ & _). by eexists.
  - intros peer. destruct (pi_order _ _ _ _ I peer) as (tk1 & tk2 & ? & ? & _). eauto.
  - intros peer Hb Ht Hq. unfold worker_take in Ht. pose proof (dr_consume_ok (pl_ring (pr_pipe st)) ring (pi_ring _ _ _ _ I)) as Hc.
    destruct (dr_consume _) as [x r]. cbn in Ht. subst x. destruct Hc as [Hc _]. destruct ring; [|done].
    destruct (pi_order _ _ _ _ I peer) as (tk1 & tk2 & E1 & F1 & F2). apply Forall2_length in F1 as L1, F2 as L2.
    replace (length (taken peer st) - length (returned peer st))%nat with (length (L peer)) by (rewrite E1, length_app; lia).
    destruct (drain_ok crypt (length (L peer)) st L peer I Hb Hq eq_refl) as (st' & L' & Er & I' & Hlen & Htk). exists st'. split; [done|]. split; [unfold taken; by rewrite Htk|].
    destruct (pi_order _ _ _ _ I' peer) as (a & b & E2 & F3 & _). apply Forall2_length in F3 as L3. rewrite E2, length_app in Hlen. destruct b; [|cbn in Hlen; lia].
    rewrite app_nil_r in E2. by rewrite E2.
Qed.

(** *** Example: the second packet is done first, and the first cannot be
    decrypted. *)

Definition pipe_example : @pipe_run prev_queue ptr_ring Z := PipeRun (Pipe ∅ (PtrRing 0 0 0 4 1 (replicate 4 None)) {[ 7 := wg_prev_queue_init ∅ ]}) [] ∅ ∅.
Definition crypt_example (e m : Z) : option Z := if m =? 30 then None else Some (m + e).
Definition ops_example : list (@pipe_op Z Z) := [PSubmit 7 100 30; PSubmit 7 101 40; PTake; PTake; PFinish 1 101; PPoll 7; PFinish 1 100; PPoll 7; PPoll 7].

Lemma pipe_example_reachable ops st' : run_pipe crypt_example ops pipe_example = Some st' ->
  Forall (fun op => match op with PSubmit peer skb _ => peer = 7 /\ skb <> 0 | PPoll peer => peer = 7 | _ => True end) ops -> pipe_reachable crypt_example st'.
Proof.
  assert (H0 : pipe_reachable crypt_example pipe_example).
  { apply pipe_init; [by apply (ring_init_ok 4 true)|]. intros peer q [_ <-]%lookup_singleton_Some. exists []. split; [|done]. exists [STUB]. apply qinv_init. }
  assert (Hq : is_Some (pl_queues (pr_pipe pipe_example) !! 7)) by (by eexists).
  revert H0 Hq. generalize pipe_example. induction ops as [|op ops IH]; intros st H0 Hq Hr Hf; cbn in Hr; [by injection Hr as <-|].
  apply bind_Some in Hr as (st1 & E1 & Hr). apply Forall_cons in Hf as [Hop Hf].
  assert (Hk : op_known op st) by (destruct op; cbn; [destruct Hop as [-> ?]; done|done|done|by subst peer]).
  apply (IH st1); [by eapply pipe_step| |done|done]. destruct (pipe_reachable_inv crypt_example st H0) as (L & ring & I).
  destruct (op_allowed op st) eqn:Ha; [|unfold run_pipe_op in E1; by rewrite Ha in E1].
  destruct (pipe_op_ok crypt_example op st L ring I Ha Hk) as (st2 & _ & _ & E2 & _ & Hd). rewrite E2 in E1. injection E1 as <-. apply elem_of_dom. rewrite Hd. by apply elem_of_dom.
Qed.

Lemma pipeline_example : (fun st => (taken 7 st, returned 7 st)) <$> run_pipe crypt_example ops_example pipe_example =
  Some ([30; 40], [(PACKET_STATE_DEAD, 30); (PACKET_STATE_CRYPTED, 41)]).
Proof. vm_compute. reflexivity. Qed.

Lemma pipeline_safe_witness : exists st : @pipe_run prev_queue ptr_ring Z, taken 7 st = [30; 40] /\ exists tk1 tk2, taken 7 st = tk1 ++ tk2 /\ Forall2 (fun m c => done crypt_example m c /\ finished c) tk1 (returned 7 st).
Proof.
  pose proof pipeline_example as H. apply fmap_Some in H as (st & E & H1). injection H1 as H1 _. exists st. split; [done|].
  destruct (pipeline_safe crypt_example st) as (_ & H2 & _); [|exact (H2 7)].
  apply (pipe_example_reachable ops_example); [exact E|]. unfold ops_example. repeat constructor; lia.
Defined.
