(* ===== verification/Cookie.v ===== *)
(** * Cookies and message authentication codes ([src/cookie.c])

    The two MACs that end every handshake message and the cookie mechanism that
    a loaded responder uses to make a sender prove that it owns its address.
    The keyed hash and the extended-nonce cipher are an interface with laws;
    random numbers and clock readings are arguments.  The rate limiter and the
    index table are those of [Ratelimiter] and [PeerLookup]. *)

From S2P Require Import Prelude Messages PeerLookup IpBits AllowedIps Ratelimiter.
From stdpp Require Import gmap list fin_maps.
#[local] Open Scope Z_scope.

(** ** Primitives *)

Class CookieCrypto := {
  blake2s_key : list Z -> list Z -> Z -> list Z;               (* key (empty: unkeyed), input, length of the output *)
  xchacha20poly1305_encrypt : list Z -> list Z -> list Z -> list Z -> list Z;   (* plaintext, associated data, nonce, key *)
  xchacha20poly1305_decrypt : list Z -> list Z -> list Z -> list Z -> option (list Z)
}.

Class CookieCryptoLaws `(C : CookieCrypto) : Prop := {
  blake2s_key_len : forall k m n, 0 < n <= 32 -> len (blake2s_key k m n) = n;
  xaead_open_seal : forall p ad n k, xchacha20poly1305_decrypt (xchacha20poly1305_encrypt p ad n k) ad n k = Some p
}.

(** ** State *)

Record cookie_checker := CookieChecker {
  cc_secret : list Z;
  cc_cookie_encryption_key : list Z;
  cc_message_mac1_key : list Z;
  cc_secret_birthdate : Z
}.

Record cookie := Cookie {
  ck_birthdate : Z;
  ck_is_valid : bool;
  ck_cookie : list Z;
  ck_have_sent_mac1 : bool;
  ck_last_mac1_sent : list Z;
  ck_cookie_decryption_key : list Z;
  ck_message_mac1_key : list Z
}.

Inductive cookie_mac_state :=
  | INVALID_MAC
  | VALID_MAC_BUT_NO_COOKIE
  | VALID_MAC_WITH_COOKIE_BUT_RATELIMITED
  | VALID_MAC_WITH_COOKIE.

#[global] Instance cookie_mac_state_eq_dec : EqDecision cookie_mac_state.
Proof. solve_decision. Defined.

(** What the code reads of a received packet: its data, the network header and
    the two bytes of the UDP source port. *)
Record handshake_skb := HandshakeSkb { hk_data : list Z; hk_net : packet; hk_source : list Z }.

(** The bytes of [buf] with [src] stored at [off]. *)
Definition store_at (off : Z) (src buf : list Z) : list Z := firstn (Z.to_nat off) buf ++ src ++ skipn (Z.to_nat off + length src) buf.

(** The fields of the [struct message_macs] at the end of a message. *)
Definition mac1_of (m : list Z) : list Z := firstn (Z.to_nat COOKIE_LEN) (skipn (Z.to_nat (len m - sizeof_macs)) m).
Definition mac2_of (m : list Z) : list Z := skipn (Z.to_nat (len m - COOKIE_LEN)) m.

Section Cookie.

Context `{C : CookieCrypto}.

(** ** Keys *)

Definition mac1_key_label : list Z := B "mac1----".
Definition cookie_key_label : list Z := B "cookie--".

Definition precompute_key (pubkey label : list Z) : list Z := blake2s_key [] (label ++ pubkey) NOISE_SYMMETRIC_KEY_LEN.

Definition wg_cookie_checker_init (now : Z) (rnd : list Z) : cookie_checker :=
  CookieChecker rnd (zeros NOISE_SYMMETRIC_KEY_LEN) (zeros NOISE_SYMMETRIC_KEY_LEN) now.

(** [public] is the device's public key, [None] without an identity. *)
Definition wg_cookie_checker_precompute_device_keys (public : option (list Z)) (chk : cookie_checker) : cookie_checker :=
  match public with
  | Some pub => CookieChecker (cc_secret chk) (precompute_key pub cookie_key_label) (precompute_key pub mac1_key_label) (cc_secret_birthdate chk)
  | None => CookieChecker (cc_secret chk) (zeros NOISE_SYMMETRIC_KEY_LEN) (zeros NOISE_SYMMETRIC_KEY_LEN) (cc_secret_birthdate chk)
  end.

Definition wg_cookie_init : cookie :=
  Cookie 0 false (zeros COOKIE_LEN) false (zeros COOKIE_LEN) (zeros NOISE_SYMMETRIC_KEY_LEN) (zeros NOISE_SYMMETRIC_KEY_LEN).

Definition wg_cookie_checker_precompute_peer_keys (remote_static : list Z) (ck : cookie) : cookie :=
  Cookie (ck_birthdate ck) (ck_is_valid ck) (ck_cookie ck) (ck_have_sent_mac1 ck) (ck_last_mac1_sent ck)
    (precompute_key remote_static cookie_key_label) (precompute_key remote_static mac1_key_label).

(** ** MACs *)

Definition compute_mac1 (message key : list Z) : list Z := blake2s_key key (firstn (Z.to_nat (len message - sizeof_macs)) message) COOKIE_LEN.
Definition compute_mac2 (message key : list Z) : list Z := blake2s_key key (firstn (Z.to_nat (len message - sizeof_macs + COOKIE_LEN)) message) COOKIE_LEN.

(** The address and port a cookie stands for, as they are hashed. *)
Definition cookie_input (skb : handshake_skb) : list Z :=
  (if protocol (hk_net skb) =? ETH_P_IP then firstn 4 (saddr (hk_net skb))
   else if protocol (hk_net skb) =? ETH_P_IPV6 then firstn 16 (saddr (hk_net skb))
   else []) ++ hk_source skb.

(** [now] is read for the test and [now'] for the new birthdate; [rnd] is the
    new secret. *)
Definition make_cookie (skb : handshake_skb) (now now' : Z) (rnd : list Z) (chk : cookie_checker) : list Z * cookie_checker :=
  let chk :=
    if wg_birthdate_has_expired (cc_secret_birthdate chk) COOKIE_SECRET_MAX_AGE now
    then CookieChecker rnd (cc_cookie_encryption_key chk) (cc_message_mac1_key chk) now'
    else chk in
  (blake2s_key (cc_secret chk) (cookie_input skb) COOKIE_LEN, chk).

(** [wg_cookie_validate_packet]; [None] is an access outside the packet or the
    rate limiter's tables.  [allow] is [wg_ratelimiter_allow]. *)
Definition wg_cookie_validate_packet {R} (allow : packet -> R -> option (bool * R)) (chk : cookie_checker) (skb : handshake_skb) (check_cookie : bool)
    (now now' : Z) (rnd : list Z) (rl : R) : option (cookie_mac_state * cookie_checker * R) :=
  if len (hk_data skb) <? sizeof_macs then None
  else if negb (bool_decide (compute_mac1 (hk_data skb) (cc_message_mac1_key chk) = mac1_of (hk_data skb))) then Some (INVALID_MAC, chk, rl)
  else if negb check_cookie then Some (VALID_MAC_BUT_NO_COOKIE, chk, rl)
  else
    let '(ck, chk) := make_cookie skb now now' rnd chk in
    if negb (bool_decide (compute_mac2 (hk_data skb) ck = mac2_of (hk_data skb))) then Some (VALID_MAC_BUT_NO_COOKIE, chk, rl)
    else
      match allow (hk_net skb) rl with
      | None => None
      | Some (false, rl) => Some (VALID_MAC_WITH_COOKIE_BUT_RATELIMITED, chk, rl)
      | Some (true, rl) => Some (VALID_MAC_WITH_COOKIE, chk, rl)
      end.

(** [wg_cookie_add_mac_to_packet] at time [now]: the message and the peer's
    cookie state. *)
Definition wg_cookie_add_mac_to_packet (message : list Z) (now : Z) (ck : cookie) : list Z * cookie :=
  let m1 := compute_mac1 message (ck_message_mac1_key ck) in
  let message := store_at (len message - sizeof_macs) m1 message in
  let ck := Cookie (ck_birthdate ck) (ck_is_valid ck) (ck_cookie ck) true m1 (ck_cookie_decryption_key ck) (ck_message_mac1_key ck) in
  let m2 :=
    if ck_is_valid ck && negb (wg_birthdate_has_expired (ck_birthdate ck) (COOKIE_SECRET_MAX_AGE - COOKIE_SECRET_LATENCY) now)
    then compute_mac2 message (ck_cookie ck)
    else zeros COOKIE_LEN in
  (store_at (len message - COOKIE_LEN) m2 message, ck).

(** ** Cookie replies *)

(** [nonce] and [rnd] are what the random source returned. *)
Definition wg_cookie_message_create (skb : handshake_skb) (index message_type now now' : Z) (nonce rnd : list Z) (chk : cookie_checker) :
    message_handshake_cookie * cookie_checker :=
  let '(ck, chk) := make_cookie skb now now' rnd chk in
  ({| mc_type := message_type; mc_receiver_index := index; mc_nonce := nonce;
      mc_encrypted_cookie := xchacha20poly1305_encrypt ck (mac1_of (hk_data skb)) nonce (cc_cookie_encryption_key chk) |}, chk).

(** The effect on the peer's cookie state. *)
Definition consume_cookie (src : message_handshake_cookie) (now : Z) (ck : cookie) : cookie :=
  if negb (ck_have_sent_mac1 ck) then ck
  else
    match xchacha20poly1305_decrypt (mc_encrypted_cookie src) (ck_last_mac1_sent ck) (mc_nonce src) (ck_cookie_decryption_key ck) with
    | Some c => Cookie now true c false (ck_last_mac1_sent ck) (ck_cookie_decryption_key ck) (ck_message_mac1_key ck)
    | None => ck
    end.

(** [wg_cookie_message_consume] on the index table and the peers' cookie
    states; [None] is a dangling peer. *)
Definition wg_cookie_message_consume (src : message_handshake_cookie) (alive : Z -> bool) (now : Z) (tbl : index_hashtable) (cookies : gmap Z cookie) :
    option (index_hashtable * gmap Z cookie) :=
  let '(found, tbl) := wg_index_hashtable_lookup tbl (Z.lor INDEX_HASHTABLE_HANDSHAKE INDEX_HASHTABLE_KEYPAIR) (mc_receiver_index src) alive in
  match found with
  | None => Some (tbl, cookies)
  | Some (_, peer) =>
      match cookies !! peer with
      | None => None
      | Some ck => Some (tbl, <[peer := consume_cookie src now ck]> cookies)
      end
  end.

End Cookie.

(** ** The layout of an authenticated message *)

Lemma macs_layout (body m1 m2 : list Z) : len m1 = COOKIE_LEN -> len m2 = COOKIE_LEN ->
  let m := body ++ m1 ++ m2 in
  len m = len body + sizeof_macs /\ mac1_of m = m1 /\ mac2_of m = m2 /\
  firstn (Z.to_nat (len m - sizeof_macs)) m = body /\ firstn (Z.to_nat (len m - sizeof_macs + COOKIE_LEN)) m = body ++ m1.
Proof.
  intros H1 H2 m. unfold len, sizeof_macs, COOKIE_LEN in *. assert (E : length m = (length body + 32)%nat) by (unfold m; rewrite !length_app; lia).
  assert (E1 : Z.to_nat (Z.of_nat (length m) - (16 + 16)) = length body) by lia.
  assert (E2 : Z.to_nat (Z.of_nat (length m) - 16) = length (body ++ m1)) by (rewrite length_app; lia).
  assert (E3 : Z.to_nat (Z.of_nat (length m) - (16 + 16) + 16) = length (body ++ m1)) by (rewrite length_app; lia).
  assert (F1 : firstn (length body) m = body) by (unfold m; apply take_app_length).
  assert (F2 : firstn (length (body ++ m1)) m = body ++ m1) by (unfold m; rewrite app_assoc; apply take_app_length).
  assert (F3 : skipn (length body) m = m1 ++ m2) by (unfold m; apply drop_app_length).
  assert (F4 : skipn (length (body ++ m1)) m = m2) by (unfold m; rewrite app_assoc; apply drop_app_length).
  unfold mac1_of, mac2_of, len, sizeof_macs, COOKIE_LEN. rewrite E1, E2, E3, F1, F2, F3, F4. ands; try done; [lia|].
  change (Z.to_nat 16) with 16%nat. rewrite take_app_length' by lia. done.
Qed.

Section Proofs.

Context `{L : CookieCryptoLaws}.

Lemma cookie_hash_len k m : len (blake2s_key k m COOKIE_LEN) = COOKIE_LEN.
Proof. by apply blake2s_key_len. Qed.

(** What [wg_cookie_add_mac_to_packet] makes of a message. *)
Lemma add_mac_layout message now ck : sizeof_macs <= len message ->
  let body := firstn (Z.to_nat (len message - sizeof_macs)) message in
  let m1 := blake2s_key (ck_message_mac1_key ck) body COOKIE_LEN in
  let m2 := if ck_is_valid ck && negb (wg_birthdate_has_expired (ck_birthdate ck) (COOKIE_SECRET_MAX_AGE - COOKIE_SECRET_LATENCY) now)
            then blake2s_key (ck_cookie ck) (body ++ m1) COOKIE_LEN else zeros COOKIE_LEN in
  wg_cookie_add_mac_to_packet message now ck =
    (body ++ m1 ++ m2, Cookie (ck_birthdate ck) (ck_is_valid ck) (ck_cookie ck) true m1 (ck_cookie_decryption_key ck) (ck_message_mac1_key ck)) /\
  len m1 = COOKIE_LEN /\ len m2 = COOKIE_LEN.
Proof.
  intros Hl body m1 m2. assert (L1 : len m1 = COOKIE_LEN) by apply cookie_hash_len.
  assert (L2 : len m2 = COOKIE_LEN) by (unfold m2; destruct (_ && _); [apply cookie_hash_len|done]). split; [|done].
  unfold wg_cookie_add_mac_to_packet. cbv zeta. change (compute_mac1 message (ck_message_mac1_key ck)) with m1.
  set (rest := skipn (Z.to_nat (len message - sizeof_macs) + length m1) message).
  assert (E1 : store_at (len message - sizeof_macs) m1 message = body ++ m1 ++ rest) by done. rewrite E1.
  assert (L3 : len rest = COOKIE_LEN) by (unfold rest, len, sizeof_macs, COOKIE_LEN in *; rewrite length_drop; lia).
  destruct (macs_layout body m1 rest L1 L3) as (M1 & _ & _ & M4 & M5). unfold compute_mac2. rewrite M5. cbn [ck_is_valid ck_birthdate ck_cookie]. fold m2.
  assert (E2 : len (body ++ m1 ++ rest) - COOKIE_LEN = len (body ++ m1)) by (rewrite M1, len_app; unfold sizeof_macs, COOKIE_LEN in *; lia).
  f_equal.
  unfold store_at. rewrite E2. assert (E3 : Z.to_nat (len (body ++ m1)) = length (body ++ m1)) by (unfold len; lia). rewrite E3, (app_assoc body m1 rest), take_app_length.
  rewrite drop_ge, app_nil_r, <- app_assoc by (rewrite !length_app; unfold len, COOKIE_LEN in *; lia). done.
Qed.

(** A message of a peer that knows our public key passes the first MAC. *)
Lemma validate_layout {R} (allow : packet -> R -> option (bool * R)) chk skb check now now' rnd rl (body m1 m2 : list Z) :
  hk_data skb = body ++ m1 ++ m2 -> len m1 = COOKIE_LEN -> len m2 = COOKIE_LEN ->
  wg_cookie_validate_packet allow chk skb check now now' rnd rl =
    if negb (bool_decide (blake2s_key (cc_message_mac1_key chk) body COOKIE_LEN = m1)) then Some (INVALID_MAC, chk, rl)
    else if negb check then Some (VALID_MAC_BUT_NO_COOKIE, chk, rl)
    else
      let '(ck, chk) := make_cookie skb now now' rnd chk in
      if negb (bool_decide (blake2s_key ck (body ++ m1) COOKIE_LEN = m2)) then Some (VALID_MAC_BUT_NO_COOKIE, chk, rl)
      else match allow (hk_net skb) rl with
           | None => None
           | Some (false, rl) => Some (VALID_MAC_WITH_COOKIE_BUT_RATELIMITED, chk, rl)
           | Some (true, rl) => Some (VALID_MAC_WITH_COOKIE, chk, rl)
           end.
Proof.
  intros E L1 L2. destruct (macs_layout body m1 m2 L1 L2) as (M1 & M2 & M3 & M4 & M5).
  unfold wg_cookie_validate_packet, compute_mac1, compute_mac2. rewrite E, M2, M3, M4, M5. rewrite (proj2 (Z.ltb_ge _ _)); [done|].
  rewrite M1. pose proof (len_nonneg body). lia.
Qed.

Lemma make_cookie_unexpired skb now now' rnd chk : wg_birthdate_has_expired (cc_secret_birthdate chk) COOKIE_SECRET_MAX_AGE now = false ->
  make_cookie skb now now' rnd chk = (blake2s_key (cc_secret chk) (cookie_input skb) COOKIE_LEN, chk).
Proof. unfold make_cookie. by intros ->. Qed.

Lemma make_cookie_keys skb now now' rnd chk c chk' : make_cookie skb now now' rnd chk = (c, chk') ->
  c = blake2s_key (cc_secret chk') (cookie_input skb) COOKIE_LEN /\ cc_cookie_encryption_key chk' = cc_cookie_encryption_key chk /\
  cc_message_mac1_key chk' = cc_message_mac1_key chk.
Proof. unfold make_cookie. intros [= <- <-]. by destruct (wg_birthdate_has_expired _ _ _). Qed.

End Proofs.

(** ** Theorems *)

(** The state of two parties: the responder's checker and the initiator's
    cookie state agree on the responder's public key. *)
Definition keys_for `{CookieCrypto} (pub : list Z) (chk : cookie_checker) (ck : cookie) : Prop :=
  chk = wg_cookie_checker_precompute_device_keys (Some pub) chk /\ ck = wg_cookie_checker_precompute_peer_keys pub ck.


(** A cookie is bound to the address and port of its receiver.  If the same
    bytes are found to carry a valid cookie when they come from two different
    sources while the responder's secret is the same, then the keyed hash has
    a collision: of the two sources under the secret, or of the two cookies on
    the message. *)
Theorem cookie_bound_to_source `{L : CookieCryptoLaws} {R} (allow : packet -> R -> option (bool * R))
    chk skb skb' now now1 rnd now' now1' rnd' rl rl' s1 chk1 rl1 s2 chk2 rl2 :
  hk_data skb' = hk_data skb -> cookie_input skb' <> cookie_input skb ->
  wg_cookie_validate_packet allow chk skb true now now1 rnd rl = Some (s1, chk1, rl1) ->
  wg_cookie_validate_packet allow chk1 skb' true now' now1' rnd' rl' = Some (s2, chk2, rl2) ->
  cc_secret chk2 = cc_secret chk1 ->
  s1 <> INVALID_MAC -> s1 <> VALID_MAC_BUT_NO_COOKIE -> s2 <> INVALID_MAC -> s2 <> VALID_MAC_BUT_NO_COOKIE ->
  (exists a b, a <> b /\ blake2s_key (cc_secret chk1) a COOKIE_LEN = blake2s_key (cc_secret chk1) b COOKIE_LEN) \/
  (exists k k' m, k <> k' /\ blake2s_key k m COOKIE_LEN = blake2s_key k' m COOKIE_LEN).
Proof.
  intros Ed Hd V1 V2 Es A1 A2 A3 A4. unfold wg_cookie_validate_packet in V1, V2. rewrite Ed in V2. destruct (len (hk_data skb) <? sizeof_macs); [done|].
  destruct (bool_decide (compute_mac1 _ (cc_message_mac1_key chk) = _)); cbn [negb] in V1; [|simplify_eq].
  destruct (make_cookie skb now now1 rnd chk) as [c1 k1] eqn:M1. destruct (bool_decide (compute_mac2 _ c1 = _)) eqn:B1; cbn [negb] in V1; [|simplify_eq]. apply bool_decide_eq_true in B1.
  assert (chk1 = k1) as -> by (destruct (allow _ _) as [[[] ?]|]; congruence).
  destruct (bool_decide (compute_mac1 _ (cc_message_mac1_key k1) = _)); cbn [negb] in V2; [|simplify_eq].
  destruct (make_cookie skb' now' now1' rnd' k1) as [c2 k2] eqn:M2. destruct (bool_decide (compute_mac2 _ c2 = _)) eqn:B2; cbn [negb] in V2; [|simplify_eq]. apply bool_decide_eq_true in B2.
  assert (chk2 = k2) as -> by (destruct (allow _ _) as [[[] ?]|]; congruence).
  apply make_cookie_keys in M1 as (E1 & _). apply make_cookie_keys in M2 as (E2 & _). rewrite Es in E2.
  destruct (decide (c1 = c2)) as [D|D]; [left; exists (cookie_input skb'), (cookie_input skb); split; [done|congruence]|].
  right. exists c1, c2. unfold compute_mac2 in *. eexists. split; [done|]. by rewrite B1, B2.
Qed.

(** A cookie reply is accepted only as the answer to a message that is still
    waiting for one, and only once: after a reply was accepted, every further
    reply, in particular a replay of it, changes nothing for the peer until the
    next handshake message is sent to it. *)
Theorem cookie_reply_once `{C : CookieCrypto} ck src now replies :
  let ck1 := consume_cookie src now ck in
  (ck1 <> ck -> ck_have_sent_mac1 ck = true /\ ck_have_sent_mac1 ck1 = false /\
     Some (ck_cookie ck1) = xchacha20poly1305_decrypt (mc_encrypted_cookie src) (ck_last_mac1_sent ck) (mc_nonce src) (ck_cookie_decryption_key ck) /\
     fold_left (fun c (r : message_handshake_cookie * Z) => consume_cookie r.1 r.2 c) replies ck1 = ck1).
Proof.
  intros ck1 Hne. unfold ck1, consume_cookie in Hne |- *. destruct (ck_have_sent_mac1 ck); cbn [negb] in *; [|done].
  destruct (xchacha20poly1305_decrypt _ _ _ _) as [c|] eqn:E; [|done]. ands; [done|done|done|]. induction replies as [|r rs IH]; [done|]. exact IH.
Qed.

(** *** Witnesses *)

Section Witness.

(** A toy hash and cipher. *)
#[local] Instance toy_cookie : CookieCrypto := {|
  blake2s_key k m n := map (fun i => (fold_left Z.add k 7 + fold_left (fun a b => 3 * a + b) m 1 + Z.of_nat i) mod 256) (seq 0 (Z.to_nat n));
  xchacha20poly1305_encrypt p ad n k := fold_left Z.add ad 0 :: fold_left Z.add n 0 :: fold_left Z.add k 0 :: p;
  xchacha20poly1305_decrypt c ad n k :=
    match c with
    | a :: b :: d :: p => if (a =? fold_left Z.add ad 0) && (b =? fold_left Z.add n 0) && (d =? fold_left Z.add k 0) then Some p else None
    | _ => None
    end
|}.

#[local] Instance toy_cookie_laws : CookieCryptoLaws toy_cookie.
Proof.
  split.
  - intros k m n Hn. unfold len. cbn. rewrite length_map, length_seq. lia.
  - intros p ad n k. cbn. by rewrite !Z.eqb_refl.
Qed.

Definition toy_chk : cookie_checker := wg_cookie_checker_precompute_device_keys (Some [1; 2]) (wg_cookie_checker_init 5 [9; 9]).
Definition toy_ck : cookie := wg_cookie_checker_precompute_peer_keys [1; 2] wg_cookie_init.
Definition toy_net : packet := Packet ETH_P_IP [192; 0; 2; 1] [192; 0; 2; 2].
Definition toy_tbl : index_hashtable := IndexTable {[ 1 := IndexEntry (Some 7) INDEX_HASHTABLE_HANDSHAKE 33 ]} {[ 33 := [1] ]}.
Definition toy_allow (p : packet) (n : Z) : option (bool * Z) := Some (0 <? n, n - 1).
Definition toy_m : list Z := [1; 0; 0; 0; 5] ++ zeros 32.


(** Two sources that collide in the toy hash. *)
Definition toy_net' : packet := Packet ETH_P_IP [192; 0; 2; 2] [192; 0; 2; 2].
Definition toy_signed : list Z :=
  (wg_cookie_add_mac_to_packet toy_m 40 (Cookie 30 true (make_cookie (HandshakeSkb [] toy_net [7; 0]) 0 0 [] toy_chk).1 false [] [] (ck_message_mac1_key toy_ck))).1.

Lemma cookie_bound_to_source_witness :
  (exists a b, a <> b /\ blake2s_key (cc_secret toy_chk) a COOKIE_LEN = blake2s_key (cc_secret toy_chk) b COOKIE_LEN) \/
  (exists k k' m, k <> k' /\ blake2s_key k m COOKIE_LEN = blake2s_key k' m COOKIE_LEN).
Proof.
  apply (cookie_bound_to_source toy_allow toy_chk (HandshakeSkb toy_signed toy_net [7; 0]) (HandshakeSkb toy_signed toy_net' [4; 0]) 50 50 [] 51 51 [] 1 0
    VALID_MAC_WITH_COOKIE toy_chk 0 VALID_MAC_WITH_COOKIE_BUT_RATELIMITED toy_chk (-1)); try done; vm_compute; reflexivity.
Defined.

Lemma cookie_reply_once_witness :
  let ck := (wg_cookie_add_mac_to_packet toy_m 10 toy_ck).2 in
  let reply := (wg_cookie_message_create (HandshakeSkb (wg_cookie_add_mac_to_packet toy_m 10 toy_ck).1 toy_net [4; 5]) 33 3 20 20 [1; 1] [8; 8] toy_chk).1 in
  ck_have_sent_mac1 ck = true /\ consume_cookie reply 31 (consume_cookie reply 30 ck) = consume_cookie reply 30 ck.
Proof.
  intros ck reply. destruct (cookie_reply_once ck reply 30 [(reply, 31)]) as (H1 & _ & _ & H2); [by vm_compute|]. split; [exact H1|exact H2].
Defined.

End Witness.
