(* ===== verification/Config.v ===== *)
(** * Configuration of the obfuscation layer ([src/device.c], [src/netlink.c])

    The device's magic headers, junk sizes and signature packets: their initial
    values ([wg_setup]), the assignments of a netlink request
    ([wg_set_device]) and the consistency check at its end
    ([wg_device_handle_post_config]).  A request writes into the live
    configuration and is checked afterwards; a rejected request leaves what it
    wrote behind. *)

From S2P Require Import Prelude Messages MagicHeader Imitate Junk.
From stdpp Require Import list.
#[local] Open Scope Z_scope.

(** The fields of [struct wg_device] that a request configures. *)
Record awg_config := AwgConfig {
  cf_advanced_security : bool;
  cf_jc : Z;
  cf_jmin : Z;
  cf_jmax : Z;
  cf_junk_size : list Z;
  cf_headers : list magic_header;
  cf_ispecs : list jp_spec;
  cf_imitate_proto : imitate_proto
}.

Definition junk_size (c : awg_config) (i : nat) : Z := nth i (cf_junk_size c) 0.
Definition header (c : awg_config) (i : nat) : magic_header := nth i (cf_headers c) (MagicHdr 0 0).

Definition set_advanced (c : awg_config) : awg_config :=
  AwgConfig true (cf_jc c) (cf_jmin c) (cf_jmax c) (cf_junk_size c) (cf_headers c) (cf_ispecs c) (cf_imitate_proto c).
Definition set_jc (v : Z) (c : awg_config) : awg_config :=
  AwgConfig (cf_advanced_security c) v (cf_jmin c) (cf_jmax c) (cf_junk_size c) (cf_headers c) (cf_ispecs c) (cf_imitate_proto c).
Definition set_jmin (v : Z) (c : awg_config) : awg_config :=
  AwgConfig (cf_advanced_security c) (cf_jc c) v (cf_jmax c) (cf_junk_size c) (cf_headers c) (cf_ispecs c) (cf_imitate_proto c).
Definition set_jmax (v : Z) (c : awg_config) : awg_config :=
  AwgConfig (cf_advanced_security c) (cf_jc c) (cf_jmin c) v (cf_junk_size c) (cf_headers c) (cf_ispecs c) (cf_imitate_proto c).
Definition set_junk_size (i : nat) (v : Z) (c : awg_config) : awg_config :=
  AwgConfig (cf_advanced_security c) (cf_jc c) (cf_jmin c) (cf_jmax c) (<[i := v]> (cf_junk_size c)) (cf_headers c) (cf_ispecs c) (cf_imitate_proto c).
Definition set_header (i : nat) (v : magic_header) (c : awg_config) : awg_config :=
  AwgConfig (cf_advanced_security c) (cf_jc c) (cf_jmin c) (cf_jmax c) (cf_junk_size c) (<[i := v]> (cf_headers c)) (cf_ispecs c) (cf_imitate_proto c).
Definition set_ispecs (v : list jp_spec) (c : awg_config) : awg_config :=
  AwgConfig (cf_advanced_security c) (cf_jc c) (cf_jmin c) (cf_jmax c) (cf_junk_size c) (cf_headers c) v (cf_imitate_proto c).
Definition set_imitate (v : imitate_proto) (c : awg_config) : awg_config :=
  AwgConfig (cf_advanced_security c) (cf_jc c) (cf_jmin c) (cf_jmax c) (cf_junk_size c) (cf_headers c) (cf_ispecs c) v.

(** The configuration of a new device, from [wg_setup]. *)
Definition wg_setup_config : awg_config :=
  AwgConfig false 0 0 0 [0; 0; 0; 0]
    [MagicHdr MESSAGE_HANDSHAKE_INITIATION MESSAGE_HANDSHAKE_INITIATION; MagicHdr MESSAGE_HANDSHAKE_RESPONSE MESSAGE_HANDSHAKE_RESPONSE;
     MagicHdr MESSAGE_HANDSHAKE_COOKIE MESSAGE_HANDSHAKE_COOKIE; MagicHdr MESSAGE_DATA MESSAGE_DATA]
    (replicate 5 (JpSpec None None [] 0)) IMITATE_NONE.

(** ** The check *)

(** [!(b.end < a.start || a.end < b.start)] *)
Definition overlap (a b : magic_header) : bool := negb ((mh_end b <? mh_start a) || (mh_end a <? mh_start b)).

(** The two nested loops over the headers. *)
Fixpoint any_overlap (l : list magic_header) : bool :=
  match l with
  | [] => false
  | a :: l' => existsb (overlap a) l' || any_overlap l'
  end.

Section Config.

Context `{K : Kstrto}.

(** The loop over the signature packets: it stops at the first that fails. *)
Fixpoint setup_ispecs (done todo : list jp_spec) (a : list bool) : option (Z * list jp_spec * list bool) :=
  match todo with
  | [] => Some (0, done, a)
  | spec :: todo' =>
      match jp_spec_setup spec a with
      | None => None
      | Some (err, spec', a) => if negb (err =? 0) then Some (err, done ++ spec' :: todo', a) else setup_ispecs (done ++ [spec']) todo' a
      end
  end.

(** [a] are the allocator's answers; [None] is a store outside a packet. *)
Definition wg_device_handle_post_config (c : awg_config) (a : list bool) : option (Z * awg_config * list bool) :=
  if negb (cf_advanced_security c) then Some (0, c, a)
  else if cf_jc c <? 0 then Some (- EINVAL, c, a)
  else
    let c := if negb (cf_jc c =? 0) && (cf_jmin c =? cf_jmax c) then set_jmax (u16 (cf_jmax c + 1)) c else c in
    if cf_jmax c >=? MESSAGE_MAX_SIZE then Some (- EINVAL, c, a)
    else if negb (cf_jmax c =? 0) && (cf_jmax c <? cf_jmin c) then Some (- EINVAL, c, a)
    else if junk_size c MSGIDX_HANDSHAKE_INIT + MESSAGE_INITIATION_SIZE >? MESSAGE_MAX_SIZE then Some (- EINVAL, c, a)
    else if junk_size c MSGIDX_HANDSHAKE_RESPONSE + MESSAGE_RESPONSE_SIZE >? MESSAGE_MAX_SIZE then Some (- EINVAL, c, a)
    else if junk_size c MSGIDX_HANDSHAKE_COOKIE + MESSAGE_COOKIE_REPLY_SIZE >? MESSAGE_MAX_SIZE then Some (- EINVAL, c, a)
    else if junk_size c MSGIDX_TRANSPORT + MESSAGE_TRANSPORT_SIZE >? MESSAGE_MAX_SIZE then Some (- EINVAL, c, a)
    else if any_overlap (cf_headers c) then Some (- EINVAL, c, a)
    else
      match setup_ispecs [] (cf_ispecs c) a with
      | None => None
      | Some (err, specs, a) => Some (err, set_ispecs specs c, a)
      end.

(** ** The request *)

(** The attributes of a request that concern this layer.  A number is a [u16].
    A text is given by its attribute and by what [nla_strdup] makes of it,
    [None] when the memory is missing. *)
Record awg_attrs := AwgAttrs {
  at_jc : option Z; at_jmin : option Z; at_jmax : option Z;
  at_s1 : option Z; at_s2 : option Z; at_s3 : option Z; at_s4 : option Z;
  at_h1 : option (option (list Z)); at_h2 : option (option (list Z)); at_h3 : option (option (list Z)); at_h4 : option (option (list Z));
  at_i1 : option (option (list Z)); at_i2 : option (option (list Z)); at_i3 : option (option (list Z));
  at_i4 : option (option (list Z)); at_i5 : option (option (list Z));
  at_imitate : option (option (list Z))
}.

(** [if (attr) { wg->advanced_security = true; ... }] *)
Definition on_attr {A} (attr : option A) (f : A -> awg_config -> awg_config) (c : awg_config) : awg_config :=
  match attr with Some v => f v (set_advanced c) | None => c end.

(** The same for a header: the value is parsed in place, and an error ends the
    request. *)
Definition on_header (attr : option (option (list Z))) (i : nat) (rc : Z * awg_config) : Z * awg_config :=
  let '(ret, c) := rc in
  if negb (ret =? 0) then (ret, c)
  else
    match attr with
    | None => (ret, c)
    | Some str => let '(ret, mh) := mh_parse (header c i) str in (ret, set_header i mh (set_advanced c))
    end.

Definition set_desc (i : nat) (str : option (list Z)) (c : awg_config) : awg_config :=
  set_ispecs (alter (fun s => JpSpec str (spec_pkt s) (spec_mods s) (spec_pkt_size s)) i (cf_ispecs c)) c.

(** The assignments of [wg_set_device]. *)
Definition set_awg_attrs (at' : awg_attrs) (c : awg_config) : Z * awg_config :=
  let c := on_attr (at_jc at') set_jc c in
  let c := on_attr (at_jmin at') set_jmin c in
  let c := on_attr (at_jmax at') set_jmax c in
  let c := on_attr (at_s1 at') (set_junk_size MSGIDX_HANDSHAKE_INIT) c in
  let c := on_attr (at_s2 at') (set_junk_size MSGIDX_HANDSHAKE_RESPONSE) c in
  let rc := on_header (at_h1 at') MSGIDX_HANDSHAKE_INIT (0, c) in
  let rc := on_header (at_h2 at') MSGIDX_HANDSHAKE_RESPONSE rc in
  let rc := on_header (at_h3 at') MSGIDX_HANDSHAKE_COOKIE rc in
  let '(ret, c) := on_header (at_h4 at') MSGIDX_TRANSPORT rc in
  if negb (ret =? 0) then (ret, c)
  else
    let c := on_attr (at_s3 at') (set_junk_size MSGIDX_HANDSHAKE_COOKIE) c in
    let c := on_attr (at_s4 at') (set_junk_size MSGIDX_TRANSPORT) c in
    let c := on_attr (at_i1 at') (set_desc 0) c in
    let c := on_attr (at_i2 at') (set_desc 1) c in
    let c := on_attr (at_i3 at') (set_desc 2) c in
    let c := on_attr (at_i4 at') (set_desc 3) c in
    let c := on_attr (at_i5 at') (set_desc 4) c in
    match at_imitate at' with
    | None => (0, c)
    | Some None => (- ENOMEM, set_advanced c)
    | Some (Some str) => (0, set_imitate (imitate_proto_parse (Some str)) (set_advanced c))
    end.

(** [wg_set_device], what it does to this layer. *)
Definition wg_set_device (at' : awg_attrs) (a : list bool) (c : awg_config) : option (Z * awg_config * list bool) :=
  let '(ret, c) := set_awg_attrs at' c in
  if negb (ret =? 0) then Some (ret, c, a) else wg_device_handle_post_config c a.

(** A sequence of requests; the result of the last. *)
Fixpoint run_requests (reqs : list awg_attrs) (ret : Z) (c : awg_config) (a : list bool) : option (Z * awg_config * list bool) :=
  match reqs with
  | [] => Some (ret, c, a)
  | r :: reqs' => match wg_set_device r a c with None => None | Some (ret, c, a) => run_requests reqs' ret c a end
  end.

End Config.

(** ** Properties *)

(** A consistent configuration. *)
Record config_ok (c : awg_config) : Prop := {
  co_headers : length (cf_headers c) = 4%nat;
  co_sizes : length (cf_junk_size c) = 4%nat;
  (* junk packets are only sent when both numbers are non-zero *)
  co_junk : cf_jc c <> 0 -> cf_jmax c <> 0 -> 0 <= cf_jmin c <= cf_jmax c /\ cf_jmax c < MESSAGE_MAX_SIZE;
  co_s1 : 0 <= junk_size c MSGIDX_HANDSHAKE_INIT <= MESSAGE_MAX_SIZE - MESSAGE_INITIATION_SIZE;
  co_s2 : 0 <= junk_size c MSGIDX_HANDSHAKE_RESPONSE <= MESSAGE_MAX_SIZE - MESSAGE_RESPONSE_SIZE;
  co_s3 : 0 <= junk_size c MSGIDX_HANDSHAKE_COOKIE <= MESSAGE_MAX_SIZE - MESSAGE_COOKIE_REPLY_SIZE;
  co_s4 : 0 <= junk_size c MSGIDX_TRANSPORT <= MESSAGE_MAX_SIZE - MESSAGE_TRANSPORT_SIZE;
  co_disjoint : forall i j x, (i < 4)%nat -> (j < 4)%nat -> i <> j -> mh_validate x (header c i) = true -> mh_validate x (header c j) = false
}.

Lemma overlap_sound a b x : overlap a b = false -> mh_validate x a = true -> mh_validate x b = true -> False.
Proof.
  unfold overlap. rewrite !mh_validate_spec. intros O%negb_false_iff Ha Hb. apply orb_true_iff in O as [O%Z.ltb_lt|O%Z.ltb_lt]; lia.
Qed.

Lemma any_overlap_sound l i j x a b : any_overlap l = false -> (i < j)%nat -> l !! i = Some a -> l !! j = Some b ->
  mh_validate x a = true -> mh_validate x b = true -> False.
Proof.
  revert i j. induction l as [|h l IH]; intros i j O Hij Hi Hj Ha Hb; [done|]. cbn in O. apply orb_false_iff in O as [O1 O2].
  destruct i as [|i], j as [|j]; cbn in Hi, Hj; try lia.
  - injection Hi as ->. apply (overlap_sound a b x); try done. rewrite <- not_true_iff_false in O1 |- *. intros Ho. apply O1, existsb_exists.
    exists b. split; [|done]. by apply list_elem_of_In, (list_elem_of_lookup_2 l j).
  - apply (IH i j); try done. lia.
Qed.

Lemma headers_disjoint l : length l = 4%nat -> any_overlap l = false -> forall i j x, (i < 4)%nat -> (j < 4)%nat -> i <> j ->
  mh_validate x (nth i l (MagicHdr 0 0)) = true -> mh_validate x (nth j l (MagicHdr 0 0)) = false.
Proof.
  intros Hl O i j x Hi Hj D Ha. apply not_true_iff_false. intros Hb.
  destruct (lookup_lt_is_Some_2 l i ltac:(lia)) as [a Ea]. destruct (lookup_lt_is_Some_2 l j ltac:(lia)) as [b Eb].
  rewrite (nth_lookup_Some _ _ _ _ Ea) in Ha. rewrite (nth_lookup_Some _ _ _ _ Eb) in Hb.
  destruct (decide (i < j)%nat); [exact (any_overlap_sound l i j x a b O ltac:(lia) Ea Eb Ha Hb)|exact (any_overlap_sound l j i x b a O ltac:(lia) Eb Ea Hb Ha)].
Qed.

(** What holds of a configuration whatever requests were made. *)
Record config_inv (c : awg_config) : Prop := {
  ci_headers : length (cf_headers c) = 4%nat;
  ci_sizes : length (cf_junk_size c) = 4%nat;
  ci_u16 : 0 <= cf_jc c < 65536 /\ 0 <= cf_jmin c < 65536 /\ 0 <= cf_jmax c < 65536 /\ Forall (fun s => 0 <= s < 65536) (cf_junk_size c);
  ci_plain : cf_advanced_security c = false -> c = wg_setup_config
}.

Definition u16_attr (o : option Z) : Prop := match o with Some v => 0 <= v < 65536 | None => True end.
Definition attrs_ok (t : awg_attrs) : Prop := Forall u16_attr [at_jc t; at_jmin t; at_jmax t; at_s1 t; at_s2 t; at_s3 t; at_s4 t].

Lemma setup_inv : config_inv wg_setup_config.
Proof. split; try done. cbn. ands; try lia. repeat constructor; lia. Qed.

Lemma on_attr_inv {A} (o : option A) f c : (forall v, config_inv c -> config_inv (f v (set_advanced c))) -> config_inv c -> config_inv (on_attr o f c).
Proof. intros F I. destruct o as [v|]; [by apply F|done]. Qed.

Lemma on_attr_u16 o f c : u16_attr o -> (forall v, 0 <= v < 65536 -> config_inv c -> config_inv (f v (set_advanced c))) -> config_inv c -> config_inv (on_attr o f c).
Proof. intros U F I. destruct o as [v|]; [by apply F|done]. Qed.

Lemma set_desc_inv i v c : config_inv c -> config_inv (set_desc i v (set_advanced c)).
Proof. intros [I1 I2 I3 I4]. by split. Qed.

Lemma set_junk_size_inv i v c : 0 <= v < 65536 -> config_inv c -> config_inv (set_junk_size i v (set_advanced c)).
Proof. intros V [I1 I2 (? & ? & ? & ?) I4]. split; cbn; rewrite ?length_insert; try done. ands; try lia. by apply Forall_insert. Qed.

Lemma set_j_inv v c : 0 <= v < 65536 -> config_inv c ->
  config_inv (set_jc v (set_advanced c)) /\ config_inv (set_jmin v (set_advanced c)) /\ config_inv (set_jmax v (set_advanced c)).
Proof. intros V [I1 I2 (? & ? & ? & ?) I4]. ands; split; cbn; try done; ands; try lia; done. Qed.

Lemma on_header_inv `{Kstrto} o i rc : config_inv rc.2 -> config_inv (on_header o i rc).2.
Proof.
  destruct rc as [ret c]. unfold on_header. cbn. intros [I1 I2 I3 I7]. destruct (negb (ret =? 0)); [done|]. destruct o as [str|]; [|done].
  destruct (mh_parse _ _) as [r mh]. split; cbn; rewrite ?length_insert; done.
Qed.

Lemma set_awg_attrs_inv `{Kstrto} t c : attrs_ok t -> config_inv c -> config_inv (set_awg_attrs t c).2.
Proof.
  intros V I. unfold attrs_ok in V. rewrite !Forall_cons in V. destruct V as (V1 & V2 & V3 & V4 & V5 & V6 & V7 & _). unfold set_awg_attrs. cbv zeta.
  set (c5 := on_attr (at_s2 t) _ _).
  assert (I5 : config_inv c5).
  { unfold c5. do 2 (apply on_attr_u16; [done|intros; by apply set_junk_size_inv|]).
    do 3 (apply on_attr_u16; [done|intros; by apply set_j_inv|]). done. }
  destruct (on_header (at_h4 t) _ _) as [ret c'] eqn:E.
  assert (I' : config_inv c').
  { change c' with (ret, c').2. rewrite <- E. do 4 apply on_header_inv. done. }
  destruct (negb (ret =? 0)); [done|].
  set (c7 := on_attr (at_i5 t) _ _).
  assert (I7 : config_inv c7).
  { unfold c7. do 5 (apply on_attr_inv; [intros; by apply set_desc_inv|]). do 2 (apply on_attr_u16; [done|intros; by apply set_junk_size_inv|]). done. }
  destruct (at_imitate t) as [[str|]|]; cbn [snd]; [| |done]; destruct I7; split; cbn; done.
Qed.

Lemma setup_config_ok : config_ok wg_setup_config.
Proof. split; try done. apply (headers_disjoint (cf_headers wg_setup_config)); by vm_compute. Qed.

(** The check at the end of a request. *)
Lemma post_config_inv `{Kstrto} c a ret c' a' : config_inv c -> wg_device_handle_post_config c a = Some (ret, c', a') ->
  config_inv c' /\ (ret = 0 -> config_ok c').
Proof.
  intros I. unfold wg_device_handle_post_config. destruct (cf_advanced_security c) eqn:A; cbn [negb].
  2:{ intros [= <- <- <-]. split; [done|]. intros _. rewrite (ci_plain _ I A). apply setup_config_ok. }
  destruct (Z.ltb_spec (cf_jc c) 0) as [J|J]; [by intros [= <- <- <-]|].
  set (c1 := if negb (cf_jc c =? 0) && _ then _ else c).
  assert (I1 : config_inv c1 /\ cf_advanced_security c1 = true).
  { unfold c1. destruct (_ && _); [|done]. split; [|done]. destruct I as [? ? (? & ? & ? & ?) I4]. split; cbn; try done; [|congruence]. pose proof (u16_range (cf_jmax c + 1)).
    ands; try lia. done. }
  destruct I1 as [I1 A1]. clearbody c1. clear I J A.
  destruct (cf_jmax c1 >=? MESSAGE_MAX_SIZE) eqn:T1; [by intros [= <- <- <-]|].
  destruct (negb (cf_jmax c1 =? 0) && (cf_jmax c1 <? cf_jmin c1)) eqn:T2; [by intros [= <- <- <-]|].
  destruct (junk_size c1 MSGIDX_HANDSHAKE_INIT + _ >? _) eqn:T3; [by intros [= <- <- <-]|].
  destruct (junk_size c1 MSGIDX_HANDSHAKE_RESPONSE + _ >? _) eqn:T4; [by intros [= <- <- <-]|].
  destruct (junk_size c1 MSGIDX_HANDSHAKE_COOKIE + _ >? _) eqn:T5; [by intros [= <- <- <-]|].
  destruct (junk_size c1 MSGIDX_TRANSPORT + _ >? _) eqn:T6; [by intros [= <- <- <-]|].
  destruct (any_overlap (cf_headers c1)) eqn:T7; [by intros [= <- <- <-]|].
  destruct (setup_ispecs _ _ _) as [[[err specs] a1]|]; [|done]. intros [= <- <- <-].
  destruct I1 as [L1 L2 (U1 & U2 & U3 & U4) P]. split; [split; cbn; try done; congruence|]. intros _.
  assert (S : forall i, (i < 4)%nat -> 0 <= junk_size c1 i).
  { intros i Hi. unfold junk_size. destruct (lookup_lt_is_Some_2 (cf_junk_size c1) i ltac:(lia)) as [s Es]. rewrite (nth_lookup_Some _ _ _ _ Es).
    pose proof (Forall_lookup_1 _ _ _ _ U4 Es). cbn in *. lia. }
  pose proof (S 0%nat ltac:(lia)). pose proof (S 1%nat ltac:(lia)). pose proof (S 2%nat ltac:(lia)). pose proof (S 3%nat ltac:(lia)). zbool.
  unfold MSGIDX_HANDSHAKE_INIT, MSGIDX_HANDSHAKE_RESPONSE, MSGIDX_HANDSHAKE_COOKIE, MSGIDX_TRANSPORT in *.
  split; cbn [cf_headers cf_junk_size cf_jc cf_jmin cf_jmax set_ispecs]; try done;
    try (change (junk_size (set_ispecs specs c1)) with (junk_size c1); unfold MSGIDX_HANDSHAKE_INIT, MSGIDX_HANDSHAKE_RESPONSE, MSGIDX_HANDSHAKE_COOKIE, MSGIDX_TRANSPORT; lia).
  apply (headers_disjoint (cf_headers c1)); done.
Qed.

Lemma request_inv `{Kstrto} t a c ret c' a' : attrs_ok t -> config_inv c -> wg_set_device t a c = Some (ret, c', a') ->
  config_inv c' /\ (ret = 0 -> config_ok c').
Proof.
  intros V I. unfold wg_set_device. pose proof (set_awg_attrs_inv t c V I) as I1. destruct (set_awg_attrs t c) as [r c1]. cbn in I1.
  destruct (Z.eqb_spec r 0) as [->|D]; cbn [negb]; [by apply post_config_inv|]. intros [= <- <- <-]. by split.
Qed.

Lemma requests_inv `{Kstrto} reqs : Forall attrs_ok reqs -> forall r c a ret c' a', config_inv c -> (r = 0 -> config_ok c) ->
  run_requests reqs r c a = Some (ret, c', a') -> config_inv c' /\ (ret = 0 -> config_ok c').
Proof.
  induction 1 as [|t reqs V _ IH]; intros r c a ret c' a' I Ok; cbn [run_requests]; [by intros [= <- <- <-]|].
  destruct (wg_set_device t a c) as [[[r1 c1] a1]|] eqn:E; [|done]. destruct (request_inv t a c r1 c1 a1 V I E) as [I1 Ok1]. by apply IH.
Qed.

(** C13: Whatever sequence of requests configures a device, also with failing
    ones in between, a request that succeeds leaves a consistent
    configuration: no 32-bit value belongs to two message types, every message with
    its junk prefix fits a datagram, and when junk packets are sent their sizes
    are drawn from an ordered range below the size of the buffer. *)
Theorem set_device_consistent `{K : Kstrto} reqs a ret c a' : Forall attrs_ok reqs ->
  run_requests reqs 0 wg_setup_config a = Some (ret, c, a') -> ret = 0 -> config_ok c.
Proof. intros V E R. exact (proj2 (requests_inv reqs V _ _ _ _ _ _ setup_inv (fun _ => setup_config_ok) E) R). Qed.

Definition no_attrs : awg_attrs :=
  AwgAttrs None None None None None None None None None None None None None None None None None.
Definition headers_attrs (h1 h2 : string) : awg_attrs :=
  AwgAttrs (Some 3) (Some 40) (Some 70) (Some 15) (Some 72) None None (Some (Some (B h1))) (Some (Some (B h2))) None None None None None None None None.

Definition sample_config : awg_config :=
  AwgConfig true 3 40 70 [15; 72; 0; 0] [MagicHdr 100 200; MagicHdr 201 300; MagicHdr 3 3; MagicHdr 4 4] (replicate 5 (JpSpec None None [] 0)) IMITATE_NONE.

Lemma sample_run :
  run_requests (K := KstrtoRef.ops) [headers_attrs "100-200" "150"; headers_attrs "100-200" "201-300"] 0 wg_setup_config [] = Some (0, sample_config, []).
Proof. vm_compute. reflexivity. Qed.

Lemma set_device_consistent_witness : config_ok sample_config.
Proof.
  refine (set_device_consistent (K := KstrtoRef.ops) _ [] 0 _ [] _ sample_run eq_refl). repeat constructor; cbn; lia.
Defined.

(** A rejected request stays in effect.  A request that makes the ranges of
    two message types overlap is answered with an error, but the device uses
    the new range from then on; and a range written backwards, which
    [mh_parse] rejects, stays and survives a later successful request. *)
Theorem set_device_keeps_rejected :
  (exists c, wg_set_device (K := KstrtoRef.ops) (headers_attrs "4" "2") [] wg_setup_config = Some (- EINVAL, c, []) /\
     mh_validate MESSAGE_DATA (header c MSGIDX_HANDSHAKE_INIT) = true /\ mh_validate MESSAGE_DATA (header c MSGIDX_TRANSPORT) = true) /\
  (exists c, run_requests (K := KstrtoRef.ops) [headers_attrs "9-7" "2"; no_attrs] 0 wg_setup_config [] = Some (0, c, []) /\
     header c MSGIDX_HANDSHAKE_INIT = MagicHdr 9 7).
Proof.
  split.
  - exists (AwgConfig true 3 40 70 [15; 72; 0; 0] [MagicHdr 4 4; MagicHdr 2 2; MagicHdr 3 3; MagicHdr 4 4] (replicate 5 (JpSpec None None [] 0)) IMITATE_NONE). by vm_compute.
  - exists (AwgConfig true 3 40 70 [15; 72; 0; 0] [MagicHdr 9 7; MagicHdr 2 2; MagicHdr 3 3; MagicHdr 4 4] (replicate 5 (JpSpec None None [] 0)) IMITATE_NONE). by vm_compute.
Qed.
