(* ===== verification/Dispatch.v ===== *)
(** * Classification of received datagrams ([src/receive.c])

    [prepare_awg_message] recognises a message by its total length and by the
    32-bit word behind the junk prefix of that type; [prepare_skb_header] finds the
    UDP payload; [wg_packet_receive] puts handshake messages on the device's
    ring and hands data messages on.  A packet is the bytes from [skb->head] to
    its tail with the offset of [skb->data]; failing allocations are inputs. *)

From S2P Require Import Prelude Words Messages MagicHeader IpBits Imitate Junk Config PtrRing.
From stdpp Require Import list.
#[local] Open Scope Z_scope.

(** ** Packets *)

Record skb := Skb { sk_bytes : list Z; sk_data : Z }.

Definition skb_len (s : skb) : Z := len (sk_bytes s) - sk_data s.
Definition skb_bytes (s : skb) : list Z := skipn (Z.to_nat (sk_data s)) (sk_bytes s).

(** [skb_pull] does nothing when the packet is too short. *)
Definition skb_pull (n : Z) (s : skb) : skb := if n >? skb_len s then s else Skb (sk_bytes s) (sk_data s + n).
Definition skb_push (n : Z) (s : skb) : skb := Skb (sk_bytes s) (sk_data s - n).

(** [SKB_TYPE_LE32]: the first word of the data. *)
Definition skb_type (s : skb) : Z := le_word (firstn 4 (skb_bytes s)).

(** [pskb_may_pull]: fails when the packet is too short, or when it is not
    linear and [ok] is false.  [pskb_trim]: may fail for lack of memory. *)
Definition pskb_may_pull (n : Z) (ok : bool) (s : skb) : bool := (n <=? skb_len s) && ok.
Definition pskb_trim (n : Z) (ok : bool) (s : skb) : option skb :=
  if n <? skb_len s then (if ok then Some (Skb (firstn (Z.to_nat (sk_data s + n)) (sk_bytes s)) (sk_data s)) else None) else Some s.

(** ** Recognising the message *)

Section Dispatch.

Context (c : awg_config).

(** One of the four tests: the lengths agree; the type is looked at behind the
    prefix, and the prefix is put back when it is not in the range. *)
Definition try_type (i : nat) (s : skb) : bool * skb :=
  let s := skb_pull (junk_size c i) s in
  if mh_validate (skb_type s) (header c i) then (true, s) else (false, skb_push (junk_size c i) s).

(** [lin] is whether [skb_linearize] succeeds, if it is called. *)
Definition prepare_awg_message (lin : bool) (s : skb) : Z * skb :=
  if negb lin then (0, s)
  else
    let '(found, s) := if skb_len s =? junk_size c MSGIDX_HANDSHAKE_INIT + MESSAGE_INITIATION_SIZE then try_type MSGIDX_HANDSHAKE_INIT s else (false, s) in
    if found then (MESSAGE_INITIATION_SIZE, s)
    else
      let '(found, s) := if skb_len s =? junk_size c MSGIDX_HANDSHAKE_RESPONSE + MESSAGE_RESPONSE_SIZE then try_type MSGIDX_HANDSHAKE_RESPONSE s else (false, s) in
      if found then (MESSAGE_RESPONSE_SIZE, s)
      else
        let '(found, s) := if skb_len s =? junk_size c MSGIDX_HANDSHAKE_COOKIE + MESSAGE_COOKIE_REPLY_SIZE then try_type MSGIDX_HANDSHAKE_COOKIE s else (false, s) in
        if found then (MESSAGE_HANDSHAKE_COOKIE, s)
        else
          let '(found, s) := if skb_len s >=? junk_size c MSGIDX_TRANSPORT + MESSAGE_TRANSPORT_SIZE then try_type MSGIDX_TRANSPORT s else (false, s) in
          if found then (MESSAGE_TRANSPORT_SIZE, s) else (0, s).

Definition sizeof_udphdr : Z := 8.

(** [udp->len] for a UDP header at offset [th] of the bytes. *)
Definition udp_len (th : Z) (s : skb) : Z :=
  match skipn (Z.to_nat (th + 4)) (sk_bytes s) with a :: b :: _ => 256 * a + b | _ => 0 end.

(** [proto] is [wg_check_packet_protocol]; [th] is the offset of the transport
    header from [skb->head], which is negative when it lies before it. *)
Definition prepare_skb_header (proto : bool) (th : Z) (lin pull1 trim pull2 : bool) (s : skb) : Z * skb :=
  if negb proto || (th <? 0) || (th + sizeof_udphdr >? len (sk_bytes s)) then (- EINVAL, s)
  else
    let data_offset := u64 (th - sk_data s) in
    if (data_offset >? 65535) || (data_offset + sizeof_udphdr >? skb_len s) then (- EINVAL, s)
    else
      let data_len := udp_len th s in
      if (data_len <? sizeof_udphdr) || (data_len >? skb_len s - data_offset) then (- EINVAL, s)
      else
        let data_len := data_len - sizeof_udphdr in
        let data_offset := th + sizeof_udphdr - sk_data s in
        if negb (pskb_may_pull (data_offset + sizeof_header) pull1 s) then (- EINVAL, s)
        else
          match pskb_trim (data_len + data_offset) trim s with
          | None => (- EINVAL, s)
          | Some s =>
              let s := skb_pull data_offset s in
              if negb (skb_len s =? data_len) then (- EINVAL, s)
              else
                let '(header_len, s) := prepare_awg_message lin s in
                if header_len =? 0 then (- EINVAL, s)
                else
                  let s := skb_push data_offset s in
                  if negb (pskb_may_pull (data_offset + header_len) pull2 s) then (- EINVAL, s)
                  else (0, Skb (sk_bytes s) (sk_data s + data_offset))
          end.

(** ** Handing the packet on *)

Inductive verdict :=
  | Dropped                     (* freed at [err] *)
  | QueuedHandshake (s : skb)   (* on the handshake ring *)
  | ConsumedData (s : skb)      (* given to [wg_packet_consume_data] *)
  | Warned.                     (* the [WARN] of an unknown type *)

Definition EBUSY : Z := 16.

(** The handshake ring holds pointers; [ptr] is this packet's.  [trylock] is
    whether the producer lock is free. *)
Definition wg_packet_receive (proto : bool) (th : Z) (lin pull1 trim pull2 : bool) (rng_is_initialized trylock : bool) (ptr : Z) (s : skb)
    (ring : ptr_ring) (queue_len : Z) : verdict * ptr_ring * Z :=
  let '(err, s) := prepare_skb_header proto th lin pull1 trim pull2 s in
  if err <? 0 then (Dropped, ring, queue_len)
  else if mh_validate (skb_type s) (header c MSGIDX_HANDSHAKE_INIT) || mh_validate (skb_type s) (header c MSGIDX_HANDSHAKE_RESPONSE) ||
          mh_validate (skb_type s) (header c MSGIDX_HANDSHAKE_COOKIE) then
    if negb rng_is_initialized then (Dropped, ring, queue_len)
    else
      let '(ret, ring) :=
        if queue_len >? MAX_QUEUED_INCOMING_HANDSHAKES / 2 then (if trylock then ptr_ring_produce ring ptr else (- EBUSY, ring))
        else ptr_ring_produce ring ptr in
      if negb (ret =? 0) then (Dropped, ring, queue_len) else (QueuedHandshake s, ring, queue_len + 1)
  else if mh_validate (skb_type s) (header c MSGIDX_TRANSPORT) then (ConsumedData s, ring, queue_len)
  else (Warned, ring, queue_len).

End Dispatch.

(** ** Properties *)

(** The size of a handshake message, the least size of a data message, and
    what [prepare_awg_message] returns for it. *)
Definition kind_size (i : nat) : Z :=
  match i with 0%nat => MESSAGE_INITIATION_SIZE | 1%nat => MESSAGE_RESPONSE_SIZE | 2%nat => MESSAGE_COOKIE_REPLY_SIZE | _ => MESSAGE_TRANSPORT_SIZE end.
Definition kind_return (i : nat) : Z :=
  match i with 0%nat => MESSAGE_INITIATION_SIZE | 1%nat => MESSAGE_RESPONSE_SIZE | 2%nat => MESSAGE_HANDSHAKE_COOKIE | _ => MESSAGE_TRANSPORT_SIZE end.
Definition kind_length_ok (i : nat) (n : Z) : Prop := if decide (i < 3)%nat then n = kind_size i else kind_size i <= n.

(** The length test of a kind, before the prefix is removed. *)
Definition length_test (c : awg_config) (i : nat) (n : Z) : bool :=
  if decide (i < 3)%nat then n =? junk_size c i + kind_size i else n >=? junk_size c i + kind_size i.

(** The packet with the prefix of kind [i] removed. *)
Definition stripped (c : awg_config) (i : nat) (s : skb) : skb := Skb (sk_bytes s) (sk_data s + junk_size c i).

(** The tests from kind [i] on. *)
Fixpoint classify (c : awg_config) (n i : nat) (s : skb) : Z * skb :=
  match n with
  | O => (0, s)
  | S n' =>
      if length_test c i (skb_len s) && mh_validate (skb_type (stripped c i s)) (header c i) then (kind_return i, stripped c i s)
      else classify c n' (S i) s
  end.

Lemma junk_nonneg c i : config_ok c -> (i < 4)%nat -> 0 <= junk_size c i.
Proof. intros [? ? ? ? ? ? ? _] Hi. do 4 (destruct i as [|i]; [by unfold MSGIDX_HANDSHAKE_INIT, MSGIDX_HANDSHAKE_RESPONSE, MSGIDX_HANDSHAKE_COOKIE, MSGIDX_TRANSPORT in *; lia|]). lia. Qed.

Lemma kind_size_pos i : 16 <= kind_size i.
Proof. destruct i as [|[|[|i]]]; by vm_compute. Qed.

Lemma try_type_spec c i s : junk_size c i <= skb_len s ->
  try_type c i s = if mh_validate (skb_type (stripped c i s)) (header c i) then (true, stripped c i s) else (false, s).
Proof.
  intros H. unfold try_type, skb_pull. rewrite Z.gtb_ltb, (proj2 (Z.ltb_ge _ _)) by lia. fold (stripped c i s). destruct (mh_validate _ _); [done|].
  unfold stripped, skb_push. cbn. rewrite Z.add_simpl_r. by destruct s.
Qed.

Lemma prepare_classify c s : config_ok c -> prepare_awg_message c true s = classify c 4 0 s.
Proof.
  intros Ok. assert (T : forall i, (i < 4)%nat -> (if length_test c i (skb_len s) then try_type c i s else (false, s)) =
    if length_test c i (skb_len s) && mh_validate (skb_type (stripped c i s)) (header c i) then (true, stripped c i s) else (false, s)).
  { intros i Hi. destruct (length_test c i (skb_len s)) eqn:L; [|done]. cbn [andb]. apply try_type_spec. pose proof (kind_size_pos i).
    unfold length_test in L. destruct (decide (i < 3)%nat); zbool; lia. }
  pose proof (T 0%nat ltac:(lia)) as T0. pose proof (T 1%nat ltac:(lia)) as T1. pose proof (T 2%nat ltac:(lia)) as T2. pose proof (T 3%nat ltac:(lia)) as T3.
  unfold prepare_awg_message, MSGIDX_HANDSHAKE_INIT, MSGIDX_HANDSHAKE_RESPONSE, MSGIDX_HANDSHAKE_COOKIE, MSGIDX_TRANSPORT. cbn [negb classify].
  change (skb_len s =? junk_size c 0 + MESSAGE_INITIATION_SIZE) with (length_test c 0 (skb_len s)). rewrite T0.
  destruct (length_test c 0 _ && _); [done|].
  change (skb_len s =? junk_size c 1 + MESSAGE_RESPONSE_SIZE) with (length_test c 1 (skb_len s)). rewrite T1.
  destruct (length_test c 1 _ && _); [done|].
  change (skb_len s =? junk_size c 2 + MESSAGE_COOKIE_REPLY_SIZE) with (length_test c 2 (skb_len s)). rewrite T2.
  destruct (length_test c 2 _ && _); [done|].
  change (skb_len s >=? junk_size c 3 + MESSAGE_TRANSPORT_SIZE) with (length_test c 3 (skb_len s)). rewrite T3.
  by destruct (length_test c 3 _ && _).
Qed.

Lemma stripped_len c i s : skb_len (stripped c i s) = skb_len s - junk_size c i.
Proof. unfold skb_len, stripped. cbn. lia. Qed.

Lemma classify_sound c n i s h s' : classify c n i s = (h, s') -> h <> 0 ->
  exists j, (i <= j < i + n)%nat /\ h = kind_return j /\ s' = stripped c j s /\ mh_validate (skb_type s') (header c j) = true /\ kind_length_ok j (skb_len s').
Proof.
  revert i. induction n as [|n IH]; intros i; cbn [classify]; [intros [= <- <-]; done|].
  destruct (length_test c i (skb_len s)) eqn:L; cbn [andb]; [|intros E Hh; destruct (IH _ E Hh) as (j & Hj & ?); exists j; split; [lia|done]].
  destruct (mh_validate _ _) eqn:V; [|intros E Hh; destruct (IH _ E Hh) as (j & Hj & ?); exists j; split; [lia|done]].
  intros [= <- <-] _. exists i. ands; try done; try lia. rewrite stripped_len. unfold length_test, kind_length_ok in *. destruct (decide (i < 3)%nat); zbool; lia.
Qed.

Lemma classify_complete c n i j s : (i <= j < i + n)%nat -> length_test c j (skb_len s) = true -> mh_validate (skb_type (stripped c j s)) (header c j) = true ->
  (forall k, (i <= k < j)%nat -> length_test c k (skb_len s) = true -> mh_validate (skb_type (stripped c k s)) (header c k) = false) ->
  classify c n i s = (kind_return j, stripped c j s).
Proof.
  revert i. induction n as [|n IH]; intros i Hj L V N; [lia|]. cbn [classify]. destruct (decide (i = j)) as [->|D]; [by rewrite L, V|].
  destruct (length_test c i (skb_len s)) eqn:Li; cbn [andb]; [rewrite (N i) by (done || lia)|]; apply IH; try done; try lia; intros k Hk; apply N; lia.
Qed.

(** A packet as the socket delivers it: the data lies within the bytes. *)
Definition skb_ok (s : skb) : Prop := 0 <= sk_data s <= len (sk_bytes s) /\ len (sk_bytes s) < 2 ^ 31 /\ all_bytes (sk_bytes s).

(** A branch that returns [- EINVAL]. *)
Ltac einval := let E := fresh in intros E; exfalso; apply (f_equal fst) in E; discriminate E.

(** An accepted packet. *)
Lemma prepare_header_sound c proto th lin pull1 trim pull2 s s' : config_ok c -> skb_ok s -> prepare_skb_header c proto th lin pull1 trim pull2 s = (0, s') ->
  exists j, (j < 4)%nat /\ sk_data s' = th + sizeof_udphdr + junk_size c j /\
    sk_bytes s' = firstn (Z.to_nat (th + udp_len th s)) (sk_bytes s) /\
    mh_validate (skb_type s') (header c j) = true /\ kind_length_ok j (skb_len s').
Proof.
  intros Ok ((H1 & H2) & H3 & H4). unfold prepare_skb_header. cbv zeta. destruct (negb proto || _ || _) eqn:T1; [einval|].
  destruct ((_ >? 65535) || _) eqn:T2; [einval|]. destruct ((_ <? sizeof_udphdr) || _) eqn:T3; [einval|].
  destruct (negb (pskb_may_pull _ pull1 s)) eqn:T4; [einval|].
  apply orb_false_iff in T1 as [T1 T1c]. apply orb_false_iff in T1 as [_ T1b]. apply orb_false_iff in T2 as [T2a T2b]. apply orb_false_iff in T3 as [T3a T3b].
  apply negb_false_iff, andb_true_iff in T4 as [T4 _]. rewrite Z.gtb_ltb in *. zbool. set (ul := udp_len th s) in *.
  assert (Hoff : u64 (th - sk_data s) = th - sk_data s /\ sk_data s <= th).
  { unfold sizeof_udphdr in *. destruct (Z_lt_le_dec th (sk_data s)) as [D|D].
    - exfalso. unfold u64 in T2a. rewrite <- (Z.mod_unique (th - sk_data s) (2 ^ 64) (-1) (th - sk_data s + 2 ^ 64)) in T2a by lia. lia.
    - split; [|done]. apply u64_small. lia. }
  destruct Hoff as [Hoff Hth]. rewrite Hoff in *. unfold pskb_trim. unfold skb_len in T2b, T3b, T4.
  set (d := th + sizeof_udphdr - sk_data s). set (n := ul - sizeof_udphdr + d).
  assert (F : exists b, (if n <? skb_len s then if trim then Some (Skb (firstn (Z.to_nat (sk_data s + n)) (sk_bytes s)) (sk_data s)) else None else Some s) =
      (if b : bool then Some (Skb (firstn (Z.to_nat (th + ul)) (sk_bytes s)) (sk_data s)) else None)).
  { unfold skb_len. destruct (Z.ltb_spec n (len (sk_bytes s) - sk_data s)); [exists trim; by replace (sk_data s + n) with (th + ul) by (unfold n, d; lia)|]. exists true. destruct s as [bs dt]. cbn in *.
    rewrite take_ge; [done|]. unfold len in *. lia. }
  destruct F as [b ->]. destruct b; [|einval]. set (bs := firstn _ _).
  assert (Hbs : len bs = th + ul) by (unfold bs; apply len_take; unfold sizeof_udphdr, len in *; lia).
  assert (P : skb_pull d (Skb bs (sk_data s)) = Skb bs (sk_data s + d)).
  { unfold skb_pull, skb_len. cbn [sk_bytes sk_data]. by rewrite Hbs, Z.gtb_ltb, (proj2 (Z.ltb_ge _ d)) by (unfold d, sizeof_udphdr in *; lia). }
  rewrite P. destruct (negb (skb_len _ =? _)); [einval|].
  destruct lin; [|einval]. rewrite prepare_classify by done. destruct (classify c 4 0 _) as [h s1] eqn:E. destruct (Z.eqb_spec h 0) as [|Hh]; [einval|].
  destruct (classify_sound _ _ _ _ _ _ E Hh) as (j & Hj & _ & -> & V & KL).
  destruct (negb (pskb_may_pull _ _ _)); [einval|]. intros [= <-]. exists j. unfold stripped, skb_push in *. cbn [sk_bytes sk_data] in *.
  replace (sk_data s + d + junk_size c j - d + d) with (sk_data s + d + junk_size c j) by lia. ands; try done; try lia.
Qed.

(** The word behind another prefix. *)
Definition word_at (off : Z) (l : list Z) : Z := le_word (firstn 4 (skipn (Z.to_nat off) l)).

(** Classifying a datagram [junk ++ m] that starts at the data. *)
Lemma classify_message c i (junk m : list Z) pre : config_ok c -> (i < 4)%nat -> len junk = junk_size c i -> kind_length_ok i (len m) ->
  mh_validate (le_word (firstn 4 m)) (header c i) = true ->
  (forall k, (k < i)%nat -> junk_size c k <> junk_size c i -> junk_size c k + kind_size k = len junk + len m ->
     mh_validate (word_at (junk_size c k) (junk ++ m)) (header c k) = false) ->
  classify c 4 0 (Skb (pre ++ junk ++ m) (len pre)) = (kind_return i, Skb (pre ++ junk ++ m) (len pre + junk_size c i)).
Proof.
  intros Ok Hi Hj Hm V N. set (s := Skb _ (len pre)). assert (Ls : skb_len s = len junk + len m) by (unfold skb_len, s; cbn [sk_bytes sk_data]; rewrite !len_app; lia).
  assert (D : forall k, (k < 4)%nat -> skb_type (stripped c k s) = word_at (junk_size c k) (junk ++ m)).
  { intros k Hk. pose proof (junk_nonneg c k Ok Hk). unfold skb_type, skb_bytes, stripped, word_at, s. cbn [sk_bytes sk_data]. do 2 f_equal.
    rewrite Z2Nat.inj_add by (unfold len; lia). unfold len at 1. rewrite Nat2Z.id, <- drop_drop, drop_app_length. done. }
  assert (W : word_at (junk_size c i) (junk ++ m) = le_word (firstn 4 m)).
  { unfold word_at. rewrite <- Hj. unfold len. by rewrite Nat2Z.id, drop_app_length. }
  apply (classify_complete c 4 0 i s); [lia| |by rewrite D, W by done|].
  - unfold length_test, kind_length_ok in *. rewrite Ls, Hj. destruct (decide (i < 3)%nat); [apply Z.eqb_eq; lia|rewrite Z.geb_leb; apply Z.leb_le; lia].
  - intros k Hk L. rewrite D by lia. destruct (Z.eq_dec (junk_size c k) (junk_size c i)) as [E|E].
    + rewrite E, W. apply (co_disjoint _ Ok i k); try done; lia.
    + apply N; [lia|done|]. unfold length_test in L. destruct (decide (k < 3)%nat); [|lia]. apply Z.eqb_eq in L. lia.
Qed.

Lemma dispatch_accepts c i d pre udp lh ll junk m post : config_ok c -> (i < 4)%nat ->
  0 <= d <= len pre -> len pre - d <= 65535 -> length udp = 4%nat -> len (pre ++ udp ++ [lh; ll; 0; 0] ++ junk ++ m ++ post) < 2 ^ 31 ->
  256 * lh + ll = 8 + len junk + len m -> len junk = junk_size c i -> kind_length_ok i (len m) ->
  mh_validate (le_word (firstn 4 m)) (header c i) = true ->
  (forall k, (k < i)%nat -> junk_size c k <> junk_size c i -> junk_size c k + kind_size k = len junk + len m ->
     mh_validate (word_at (junk_size c k) (junk ++ m)) (header c k) = false) ->
  exists s, prepare_skb_header c true (len pre) true true true true (Skb (pre ++ udp ++ [lh; ll; 0; 0] ++ junk ++ m ++ post) d) = (0, s) /\ skb_bytes s = m.
Proof.
  intros Ok Hi Hd Hd' Hu Htot Hl Hj Hm V N. set (bs := pre ++ _) in *. pose proof (kind_size_pos i) as Kp.
  assert (Lm : 16 <= len m) by (unfold kind_length_ok in Hm; destruct (decide (i < 3)%nat); lia).
  assert (Lb : len bs = len pre + 8 + len junk + len m + len post) by (unfold bs; rewrite !len_app; unfold len; cbn [length]; rewrite Hu; lia).
  pose proof (len_nonneg junk). pose proof (len_nonneg post). pose proof (len_nonneg pre).
  assert (U : udp_len (len pre) (Skb bs d) = 8 + len junk + len m).
  { unfold udp_len, bs. cbn [sk_bytes]. rewrite (app_assoc pre udp). replace (Z.to_nat (len pre + 4)) with (length (pre ++ udp)) by (rewrite length_app; unfold len; lia).
    rewrite drop_app_length. cbn [app]. lia. }
  set (full := pre ++ udp ++ [lh; ll; 0; 0]). assert (Lf : len full = len pre + 8) by (unfold full; rewrite !len_app; unfold len; cbn [length]; rewrite Hu; lia).
  assert (Cl : classify c 4 0 (Skb (full ++ junk ++ m) (len full)) = (kind_return i, Skb (full ++ junk ++ m) (len full + junk_size c i))) by (by apply classify_message).
  assert (Tr : firstn (Z.to_nat (d + (8 + len junk + len m - sizeof_udphdr + (len pre + sizeof_udphdr - d)))) bs = full ++ junk ++ m).
  { replace bs with ((full ++ junk ++ m) ++ post) by (unfold bs, full; by rewrite <- !app_assoc). rewrite take_app_length'; [done|]. rewrite !length_app. unfold sizeof_udphdr, len in *. lia. }
  unfold prepare_skb_header. cbv zeta. rewrite U. unfold skb_len. cbn [sk_bytes sk_data negb orb]. rewrite u64_small by lia. rewrite !Z.gtb_ltb.
  rewrite (proj2 (Z.ltb_ge (len pre) 0)), !(proj2 (Z.ltb_ge (len bs) _)), (proj2 (Z.ltb_ge 65535 _)), (proj2 (Z.ltb_ge (len bs - d) _)) by (unfold sizeof_udphdr; lia). cbn [orb].
  rewrite (proj2 (Z.ltb_ge _ sizeof_udphdr)), (proj2 (Z.ltb_ge (len bs - d - _) _)) by (unfold sizeof_udphdr; lia). cbn [orb].
  unfold pskb_may_pull at 1. unfold skb_len. cbn [sk_bytes sk_data]. rewrite (proj2 (Z.leb_le _ (len bs - d))) by (unfold sizeof_udphdr, sizeof_header; lia). cbn [andb negb].
  assert (T : pskb_trim (8 + len junk + len m - sizeof_udphdr + (len pre + sizeof_udphdr - d)) true (Skb bs d) = Some (Skb (full ++ junk ++ m) d)).
  { unfold pskb_trim, skb_len. cbn [sk_bytes sk_data]. rewrite <- Tr. destruct (Z.ltb_spec (8 + len junk + len m - sizeof_udphdr + (len pre + sizeof_udphdr - d)) (len bs - d)); [done|].
    rewrite take_ge; [done|]. unfold sizeof_udphdr, len in *. lia. }
  rewrite T. assert (Lx : len (full ++ junk ++ m) = len full + len junk + len m) by (rewrite !len_app; lia).
  assert (P : skb_pull (len pre + sizeof_udphdr - d) (Skb (full ++ junk ++ m) d) = Skb (full ++ junk ++ m) (len full)).
  { unfold skb_pull, skb_len. cbn [sk_bytes sk_data]. rewrite Lx, Z.gtb_ltb, (proj2 (Z.ltb_ge _ _)) by (unfold sizeof_udphdr; lia). f_equal. unfold sizeof_udphdr. lia. }
  rewrite P. cbn [sk_bytes sk_data]. rewrite Lx, (proj2 (Z.eqb_eq _ _)) by (unfold sizeof_udphdr; lia). cbn [negb]. rewrite prepare_classify, Cl by done.
  rewrite (proj2 (Z.eqb_neq (kind_return i) 0)) by (destruct i as [|[|[|i]]]; by vm_compute).
  unfold skb_push, pskb_may_pull, skb_len. cbn [sk_bytes sk_data]. rewrite Lx.
  assert (Kr : kind_return i <= len m) by (unfold kind_length_ok in Hm; destruct (decide (i < 3)%nat), i as [|[|[|i]]]; cbn [kind_return kind_size] in *; unfold MESSAGE_HANDSHAKE_COOKIE; lia).
  rewrite (proj2 (Z.leb_le _ _)) by (unfold sizeof_udphdr; lia). cbn [andb negb]. eexists. split; [reflexivity|].
  unfold skb_bytes. cbn [sk_bytes sk_data]. rewrite (app_assoc full). replace (Z.to_nat _) with (length (full ++ junk)) by (rewrite length_app; unfold sizeof_udphdr, len in *; lia).
  apply drop_app_length.
Qed.

(** C9: What one side sends the other recognises.  A message of kind [i] with a
    type from its range, behind a junk prefix of the configured length, in a
    UDP datagram at any place of the buffer and possibly followed by padding, is
    accepted, and the packet's data afterwards is exactly the message;
    unless another kind with a different prefix length has the same total length and the
    bytes that lie at its offset happen to be in its range. *)
Theorem dispatch_roundtrip c i d pre udp lh ll junk m post : config_ok c -> (i < 4)%nat ->
  0 <= d <= len pre -> len pre - d <= 65535 -> length udp = 4%nat -> len (pre ++ udp ++ [lh; ll; 0; 0] ++ junk ++ m ++ post) < 2 ^ 31 ->
  256 * lh + ll = 8 + len junk + len m -> len junk = junk_size c i -> kind_length_ok i (len m) ->
  mh_validate (le_word (firstn 4 m)) (header c i) = true ->
  (forall k, (k < i)%nat -> junk_size c k <> junk_size c i -> junk_size c k + kind_size k = len junk + len m ->
     mh_validate (word_at (junk_size c k) (junk ++ m)) (header c k) = false) ->
  exists s, prepare_skb_header c true (len pre) true true true true (Skb (pre ++ udp ++ [lh; ll; 0; 0] ++ junk ++ m ++ post) d) = (0, s) /\ skb_bytes s = m.
Proof. apply dispatch_accepts. Qed.




(** *** Witnesses *)

Lemma sample_config_ok : config_ok sample_config.
Proof.
  split; try done; try (cbn; unfold MESSAGE_MAX_SIZE; lia). apply (headers_disjoint (cf_headers sample_config)); by vm_compute.
Qed.

Definition sample_message : list Z := [4; 0; 0; 0] ++ replicate 12 9.

Lemma dispatch_roundtrip_witness :
  exists s, prepare_skb_header sample_config true 0 true true true true (Skb ([0; 1; 0; 2; 0; 24; 0; 0] ++ sample_message ++ [5]) 0) = (0, s) /\ skb_bytes s = sample_message.
Proof.
  apply (dispatch_roundtrip sample_config 3 0 [] [0; 1; 0; 2] 0 24 [] sample_message [5] sample_config_ok); try done; try lia; try by vm_compute.
  intros k Hk _. do 3 (destruct k as [|k]; [by vm_compute|]). lia.
Defined.

