(* ===== verification/Wire.v ===== *)
(** * Messages as bytes ([src/messages.h])

    The memory layout of the four message structures: little-endian integers
    and arrays one after the other, without padding.  The code casts between
    the packet's bytes and the structures; these are the casts. *)

From S2P Require Import Prelude Words Messages.
From stdpp Require Import list.
#[local] Open Scope Z_scope.

Definition macs_bytes (m : message_macs) : list Z := mac1 m ++ mac2 m.
Definition macs_of (b : list Z) : message_macs := {| mac1 := field 0 COOKIE_LEN b; mac2 := field COOKIE_LEN COOKIE_LEN b |}.

Definition initiation_bytes (m : message_handshake_initiation) : list Z :=
  le_bytes 4 (mi_type m) ++ le_bytes 4 (mi_sender_index m) ++ mi_unencrypted_ephemeral m ++ mi_encrypted_static m ++ mi_encrypted_timestamp m ++ macs_bytes (mi_macs m).
Definition initiation_of (b : list Z) : message_handshake_initiation := {|
  mi_type := le_word (field 0 4 b);
  mi_sender_index := le_word (field 4 4 b);
  mi_unencrypted_ephemeral := field 8 NOISE_PUBLIC_KEY_LEN b;
  mi_encrypted_static := field 40 (noise_encrypted_len NOISE_PUBLIC_KEY_LEN) b;
  mi_encrypted_timestamp := field 88 (noise_encrypted_len NOISE_TIMESTAMP_LEN) b;
  mi_macs := macs_of (field 116 sizeof_macs b) |}.

Definition response_bytes (m : message_handshake_response) : list Z :=
  le_bytes 4 (mr_type m) ++ le_bytes 4 (mr_sender_index m) ++ le_bytes 4 (mr_receiver_index m) ++ mr_unencrypted_ephemeral m ++ mr_encrypted_nothing m ++
  macs_bytes (mr_macs m).
Definition response_of (b : list Z) : message_handshake_response := {|
  mr_type := le_word (field 0 4 b);
  mr_sender_index := le_word (field 4 4 b);
  mr_receiver_index := le_word (field 8 4 b);
  mr_unencrypted_ephemeral := field 12 NOISE_PUBLIC_KEY_LEN b;
  mr_encrypted_nothing := field 44 (noise_encrypted_len 0) b;
  mr_macs := macs_of (field 60 sizeof_macs b) |}.

Definition cookie_bytes (m : message_handshake_cookie) : list Z :=
  le_bytes 4 (mc_type m) ++ le_bytes 4 (mc_receiver_index m) ++ mc_nonce m ++ mc_encrypted_cookie m.
Definition cookie_of (b : list Z) : message_handshake_cookie := {|
  mc_type := le_word (field 0 4 b);
  mc_receiver_index := le_word (field 4 4 b);
  mc_nonce := field 8 COOKIE_NONCE_LEN b;
  mc_encrypted_cookie := field 32 (noise_encrypted_len COOKIE_LEN) b |}.

Definition data_bytes (m : message_data) : list Z :=
  le_bytes 4 (md_type m) ++ le_bytes 4 (md_key_idx m) ++ le_bytes 8 (md_counter m) ++ md_encrypted_data m.
Definition data_of (b : list Z) : message_data := {|
  md_type := le_word (field 0 4 b);
  md_key_idx := le_word (field 4 4 b);
  md_counter := le_word (field 8 8 b);
  md_encrypted_data := skipn 16 b |}.

(** ** Round trips *)

Definition is_u32 (x : Z) : Prop := 0 <= x < 2 ^ 32.

Record macs_wf (m : message_macs) : Prop := { mw_1 : len (mac1 m) = COOKIE_LEN; mw_2 : len (mac2 m) = COOKIE_LEN }.

Record initiation_wf (m : message_handshake_initiation) : Prop := {
  iw_type : is_u32 (mi_type m);
  iw_index : is_u32 (mi_sender_index m);
  iw_ephemeral : len (mi_unencrypted_ephemeral m) = NOISE_PUBLIC_KEY_LEN;
  iw_static : len (mi_encrypted_static m) = noise_encrypted_len NOISE_PUBLIC_KEY_LEN;
  iw_timestamp : len (mi_encrypted_timestamp m) = noise_encrypted_len NOISE_TIMESTAMP_LEN;
  iw_macs : macs_wf (mi_macs m)
}.

Record response_wf (m : message_handshake_response) : Prop := {
  rw_type : is_u32 (mr_type m);
  rw_sender : is_u32 (mr_sender_index m);
  rw_receiver : is_u32 (mr_receiver_index m);
  rw_ephemeral : len (mr_unencrypted_ephemeral m) = NOISE_PUBLIC_KEY_LEN;
  rw_nothing : len (mr_encrypted_nothing m) = noise_encrypted_len 0;
  rw_macs : macs_wf (mr_macs m)
}.

Record cookie_wf (m : message_handshake_cookie) : Prop := {
  cw_type : is_u32 (mc_type m);
  cw_receiver : is_u32 (mc_receiver_index m);
  cw_nonce : len (mc_nonce m) = COOKIE_NONCE_LEN;
  cw_cookie : len (mc_encrypted_cookie m) = noise_encrypted_len COOKIE_LEN
}.

Record data_wf (m : message_data) : Prop := {
  dw_type : is_u32 (md_type m);
  dw_index : is_u32 (md_key_idx m);
  dw_counter : 0 <= md_counter m < 2 ^ 64
}.

Lemma le_word4 x : is_u32 x -> le_word (le_bytes 4 x) = x.
Proof. intros H. by apply le_word_bytes. Qed.

(** Finds a field behind the parts in front of it. *)
Ltac wire_lia := rewrite ?len_le_bytes; unfold noise_encrypted_len, NOISE_PUBLIC_KEY_LEN, NOISE_TIMESTAMP_LEN, NOISE_AUTHTAG_LEN, COOKIE_LEN, COOKIE_NONCE_LEN, sizeof_macs in *; lia.
Ltac fields :=
  repeat (rewrite field_skip by wire_lia);
  match goal with |- context [field ?o ?n ?l] => replace o with 0 by wire_lia end;
  first [rewrite field_here by wire_lia | rewrite field_end by wire_lia]; try done.

Lemma macs_roundtrip m : macs_wf m -> macs_of (macs_bytes m) = m /\ len (macs_bytes m) = sizeof_macs.
Proof.
  intros [H1 H2]. destruct m as [a b]. unfold macs_of, macs_bytes. cbn [mac1 mac2] in *. rewrite len_app. split; [f_equal; fields|unfold sizeof_macs; lia].
Qed.

Lemma initiation_roundtrip m : initiation_wf m -> initiation_of (initiation_bytes m) = m /\ len (initiation_bytes m) = MESSAGE_INITIATION_SIZE.
Proof.
  intros [H1 H2 H3 H4 H5 H6]. destruct (macs_roundtrip _ H6) as [M Lm]. destruct m as [ty ix e es et macs]. unfold initiation_of, initiation_bytes.
  cbn [mi_type mi_sender_index mi_unencrypted_ephemeral mi_encrypted_static mi_encrypted_timestamp mi_macs] in *. split.
  - f_equal; [fields; by apply le_word4|fields; by apply le_word4|fields|fields|fields|fields].
  - rewrite !len_app, !len_le_bytes. unfold MESSAGE_INITIATION_SIZE, sizeof_header in *. lia.
Qed.

Lemma response_roundtrip m : response_wf m -> response_of (response_bytes m) = m /\ len (response_bytes m) = MESSAGE_RESPONSE_SIZE.
Proof.
  intros [H1 H2 H3 H4 H5 H6]. destruct (macs_roundtrip _ H6) as [M Lm]. destruct m as [ty ix ri e en macs]. unfold response_of, response_bytes.
  cbn [mr_type mr_sender_index mr_receiver_index mr_unencrypted_ephemeral mr_encrypted_nothing mr_macs] in *. split.
  - f_equal; [fields; by apply le_word4|fields; by apply le_word4|fields; by apply le_word4|fields|fields|fields].
  - rewrite !len_app, !len_le_bytes. unfold MESSAGE_RESPONSE_SIZE, sizeof_header in *. lia.
Qed.

Lemma cookie_roundtrip m : cookie_wf m -> cookie_of (cookie_bytes m) = m /\ len (cookie_bytes m) = MESSAGE_COOKIE_REPLY_SIZE.
Proof.
  intros [H1 H2 H3 H4]. destruct m as [ty ix n e]. unfold cookie_of, cookie_bytes. cbn [mc_type mc_receiver_index mc_nonce mc_encrypted_cookie] in *. split.
  - f_equal; [fields; by apply le_word4|fields; by apply le_word4|fields|fields].
  - rewrite !len_app, !len_le_bytes. unfold MESSAGE_COOKIE_REPLY_SIZE, sizeof_header in *. lia.
Qed.

Lemma data_roundtrip m : data_wf m -> data_of (data_bytes m) = m /\ len (data_bytes m) = MESSAGE_TRANSPORT_SIZE + len (md_encrypted_data m).
Proof.
  intros [H1 H2 H3]. destruct m as [ty ix n e]. unfold data_of, data_bytes. cbn [md_type md_key_idx md_counter md_encrypted_data] in *. split.
  - f_equal; [fields; by apply le_word4|fields; by apply le_word4|fields; by apply le_word_bytes].
  - rewrite !len_app, !len_le_bytes. unfold MESSAGE_TRANSPORT_SIZE, sizeof_header. lia.
Qed.
