(* ===== verification/Timers.v ===== *)
(** * Timers of a peer ([src/timers.c], [src/send.c])

    The five timers of a peer with the counters and flags that drive them, the
    queueing of handshake initiations and the erasure of keys.  A timer is
    [Some expires] while it is pending.  What a function asks of other parts
    of the peer is the list of its calls, in order. *)

From S2P Require Import Prelude Messages.
From stdpp Require Import list.
#[local] Open Scope Z_scope.

(** ** State *)

Record peer_timers := PeerTimers {
  timer_retransmit_handshake : option Z;
  timer_send_keepalive : option Z;
  timer_new_handshake : option Z;
  timer_zero_key_material : option Z;
  timer_persistent_keepalive : option Z;
  timer_handshake_attempts : Z;
  persistent_keepalive_interval : Z;
  timer_need_another_keepalive : bool;
  sent_lastminute_handshake : bool;
  walltime_last_handshake : Z;
  last_sent_handshake : Z;
  transmit_handshake_work : bool;   (* queued *)
  clear_peer_work : bool;           (* queued *)
  peer_refs : Z                     (* [refcount] *)
}.

Definition set_retransmit (v : option Z) (t : peer_timers) : peer_timers :=
  PeerTimers v (timer_send_keepalive t) (timer_new_handshake t) (timer_zero_key_material t) (timer_persistent_keepalive t) (timer_handshake_attempts t)
    (persistent_keepalive_interval t) (timer_need_another_keepalive t) (sent_lastminute_handshake t) (walltime_last_handshake t) (last_sent_handshake t)
    (transmit_handshake_work t) (clear_peer_work t) (peer_refs t).
Definition set_keepalive (v : option Z) (t : peer_timers) : peer_timers :=
  PeerTimers (timer_retransmit_handshake t) v (timer_new_handshake t) (timer_zero_key_material t) (timer_persistent_keepalive t) (timer_handshake_attempts t)
    (persistent_keepalive_interval t) (timer_need_another_keepalive t) (sent_lastminute_handshake t) (walltime_last_handshake t) (last_sent_handshake t)
    (transmit_handshake_work t) (clear_peer_work t) (peer_refs t).
Definition set_new_handshake (v : option Z) (t : peer_timers) : peer_timers :=
  PeerTimers (timer_retransmit_handshake t) (timer_send_keepalive t) v (timer_zero_key_material t) (timer_persistent_keepalive t) (timer_handshake_attempts t)
    (persistent_keepalive_interval t) (timer_need_another_keepalive t) (sent_lastminute_handshake t) (walltime_last_handshake t) (last_sent_handshake t)
    (transmit_handshake_work t) (clear_peer_work t) (peer_refs t).
Definition set_zero_key (v : option Z) (t : peer_timers) : peer_timers :=
  PeerTimers (timer_retransmit_handshake t) (timer_send_keepalive t) (timer_new_handshake t) v (timer_persistent_keepalive t) (timer_handshake_attempts t)
    (persistent_keepalive_interval t) (timer_need_another_keepalive t) (sent_lastminute_handshake t) (walltime_last_handshake t) (last_sent_handshake t)
    (transmit_handshake_work t) (clear_peer_work t) (peer_refs t).
Definition set_persistent (v : option Z) (t : peer_timers) : peer_timers :=
  PeerTimers (timer_retransmit_handshake t) (timer_send_keepalive t) (timer_new_handshake t) (timer_zero_key_material t) v (timer_handshake_attempts t)
    (persistent_keepalive_interval t) (timer_need_another_keepalive t) (sent_lastminute_handshake t) (walltime_last_handshake t) (last_sent_handshake t)
    (transmit_handshake_work t) (clear_peer_work t) (peer_refs t).
Definition set_attempts (v : Z) (t : peer_timers) : peer_timers :=
  PeerTimers (timer_retransmit_handshake t) (timer_send_keepalive t) (timer_new_handshake t) (timer_zero_key_material t) (timer_persistent_keepalive t) v
    (persistent_keepalive_interval t) (timer_need_another_keepalive t) (sent_lastminute_handshake t) (walltime_last_handshake t) (last_sent_handshake t)
    (transmit_handshake_work t) (clear_peer_work t) (peer_refs t).
Definition set_need_another (v : bool) (t : peer_timers) : peer_timers :=
  PeerTimers (timer_retransmit_handshake t) (timer_send_keepalive t) (timer_new_handshake t) (timer_zero_key_material t) (timer_persistent_keepalive t)
    (timer_handshake_attempts t) (persistent_keepalive_interval t) v (sent_lastminute_handshake t) (walltime_last_handshake t) (last_sent_handshake t)
    (transmit_handshake_work t) (clear_peer_work t) (peer_refs t).
Definition set_lastminute (v : bool) (t : peer_timers) : peer_timers :=
  PeerTimers (timer_retransmit_handshake t) (timer_send_keepalive t) (timer_new_handshake t) (timer_zero_key_material t) (timer_persistent_keepalive t)
    (timer_handshake_attempts t) (persistent_keepalive_interval t) (timer_need_another_keepalive t) v (walltime_last_handshake t) (last_sent_handshake t)
    (transmit_handshake_work t) (clear_peer_work t) (peer_refs t).
Definition set_walltime (v : Z) (t : peer_timers) : peer_timers :=
  PeerTimers (timer_retransmit_handshake t) (timer_send_keepalive t) (timer_new_handshake t) (timer_zero_key_material t) (timer_persistent_keepalive t)
    (timer_handshake_attempts t) (persistent_keepalive_interval t) (timer_need_another_keepalive t) (sent_lastminute_handshake t) v (last_sent_handshake t)
    (transmit_handshake_work t) (clear_peer_work t) (peer_refs t).
Definition set_last_sent (v : Z) (t : peer_timers) : peer_timers :=
  PeerTimers (timer_retransmit_handshake t) (timer_send_keepalive t) (timer_new_handshake t) (timer_zero_key_material t) (timer_persistent_keepalive t)
    (timer_handshake_attempts t) (persistent_keepalive_interval t) (timer_need_another_keepalive t) (sent_lastminute_handshake t) (walltime_last_handshake t) v
    (transmit_handshake_work t) (clear_peer_work t) (peer_refs t).
Definition set_transmit_work (v : bool) (t : peer_timers) : peer_timers :=
  PeerTimers (timer_retransmit_handshake t) (timer_send_keepalive t) (timer_new_handshake t) (timer_zero_key_material t) (timer_persistent_keepalive t)
    (timer_handshake_attempts t) (persistent_keepalive_interval t) (timer_need_another_keepalive t) (sent_lastminute_handshake t) (walltime_last_handshake t)
    (last_sent_handshake t) v (clear_peer_work t) (peer_refs t).
Definition set_clear_work (v : bool) (t : peer_timers) : peer_timers :=
  PeerTimers (timer_retransmit_handshake t) (timer_send_keepalive t) (timer_new_handshake t) (timer_zero_key_material t) (timer_persistent_keepalive t)
    (timer_handshake_attempts t) (persistent_keepalive_interval t) (timer_need_another_keepalive t) (sent_lastminute_handshake t) (walltime_last_handshake t)
    (last_sent_handshake t) (transmit_handshake_work t) v (peer_refs t).
Definition set_refs (v : Z) (t : peer_timers) : peer_timers :=
  PeerTimers (timer_retransmit_handshake t) (timer_send_keepalive t) (timer_new_handshake t) (timer_zero_key_material t) (timer_persistent_keepalive t)
    (timer_handshake_attempts t) (persistent_keepalive_interval t) (timer_need_another_keepalive t) (sent_lastminute_handshake t) (walltime_last_handshake t)
    (last_sent_handshake t) (transmit_handshake_work t) (clear_peer_work t) v.

(** What a call reads: the tick count, the boot-time and the wall clock,
    whether the device is up and the peer dead, and the bounded random
    source. *)
Record timer_env := TimerEnv {
  te_jiffies : Z;
  te_clock : Z;
  te_wall : Z;
  te_running : bool;
  te_dead : bool;
  te_below : Z -> Z
}.

(** Calls of other parts of the peer. *)
Inductive timer_call :=
  | PurgeStagedPackets
  | ClearEndpointSrc
  | SendKeepalive
  | HandshakeClear
  | KeypairsClear.

Section Timers.

(** Ticks per second. *)
Context (HZ : Z).

Definition REKEY_TIMEOUT_JITTER_MAX_JIFFIES : Z := HZ / 3.

(** ** Queueing a handshake initiation *)

(** [wg_peer_get], and [wg_peer_put] when the work was queued already. *)
Definition queue_with_ref (queued : bool) (mark : peer_timers -> peer_timers) (t : peer_timers) : peer_timers :=
  let t := set_refs (peer_refs t + 1) t in
  if queued then set_refs (peer_refs t - 1) t else mark t.

Definition wg_packet_send_queued_handshake_initiation (e : timer_env) (is_retry : bool) (t : peer_timers) : peer_timers :=
  let t := if negb is_retry then set_attempts 0 t else t in
  if negb (wg_birthdate_has_expired (last_sent_handshake t) REKEY_TIMEOUT (te_clock e)) || te_dead e then t
  else queue_with_ref (transmit_handshake_work t) (set_transmit_work true) t.

(** ** Setting timers *)

Definition mod_peer_timer (e : timer_env) (set : option Z -> peer_timers -> peer_timers) (expires : Z) (t : peer_timers) : peer_timers :=
  if te_running e && negb (te_dead e) then set (Some expires) t else t.

Definition timer_pending (timer : option Z) : bool := match timer with Some _ => true | None => false end.

Definition jitter (e : timer_env) : Z := te_below e REKEY_TIMEOUT_JITTER_MAX_JIFFIES.

Definition wg_timers_data_sent (e : timer_env) (t : peer_timers) : peer_timers :=
  if negb (timer_pending (timer_new_handshake t))
  then mod_peer_timer e set_new_handshake (te_jiffies e + (KEEPALIVE_TIMEOUT + REKEY_TIMEOUT) * HZ + jitter e) t
  else t.

Definition wg_timers_data_received (e : timer_env) (t : peer_timers) : peer_timers :=
  if te_running e then
    if negb (timer_pending (timer_send_keepalive t)) then mod_peer_timer e set_keepalive (te_jiffies e + KEEPALIVE_TIMEOUT * HZ) t
    else set_need_another true t
  else t.

Definition wg_timers_any_authenticated_packet_sent (t : peer_timers) : peer_timers := set_keepalive None t.

Definition wg_timers_any_authenticated_packet_received (t : peer_timers) : peer_timers := set_new_handshake None t.

Definition wg_timers_handshake_initiated (e : timer_env) (t : peer_timers) : peer_timers :=
  mod_peer_timer e set_retransmit (te_jiffies e + REKEY_TIMEOUT * HZ + jitter e) t.

Definition wg_timers_handshake_complete (e : timer_env) (t : peer_timers) : peer_timers :=
  set_walltime (te_wall e) (set_lastminute false (set_attempts 0 (set_retransmit None t))).

Definition wg_timers_session_derived (e : timer_env) (t : peer_timers) : peer_timers :=
  mod_peer_timer e set_zero_key (te_jiffies e + REJECT_AFTER_TIME * 3 * HZ) t.

Definition wg_timers_any_authenticated_packet_traversal (e : timer_env) (t : peer_timers) : peer_timers :=
  if negb (persistent_keepalive_interval t =? 0)
  then mod_peer_timer e set_persistent (te_jiffies e + persistent_keepalive_interval t * HZ) t
  else t.

(** ** Expired timers

    The kernel has taken the timer off its list when it calls these. *)

Definition wg_expired_retransmit_handshake (e : timer_env) (t : peer_timers) : list timer_call * peer_timers :=
  if timer_handshake_attempts t >? MAX_TIMER_HANDSHAKES then
    let t := set_keepalive None t in
    ([PurgeStagedPackets],
     if negb (timer_pending (timer_zero_key_material t)) then mod_peer_timer e set_zero_key (te_jiffies e + REJECT_AFTER_TIME * 3 * HZ) t else t)
  else
    let t := set_attempts (u32 (timer_handshake_attempts t + 1)) t in
    ([ClearEndpointSrc], wg_packet_send_queued_handshake_initiation e true t).

Definition wg_expired_send_keepalive (e : timer_env) (t : peer_timers) : list timer_call * peer_timers :=
  ([SendKeepalive],
   if timer_need_another_keepalive t
   then mod_peer_timer e set_keepalive (te_jiffies e + KEEPALIVE_TIMEOUT * HZ) (set_need_another false t)
   else t).

Definition wg_expired_new_handshake (e : timer_env) (t : peer_timers) : list timer_call * peer_timers :=
  ([ClearEndpointSrc], wg_packet_send_queued_handshake_initiation e false t).

Definition wg_expired_zero_key_material (e : timer_env) (t : peer_timers) : list timer_call * peer_timers :=
  ([], if negb (te_dead e) then queue_with_ref (clear_peer_work t) (set_clear_work true) t else t).

(** The work function; the workqueue has marked the work as not queued. *)
Definition wg_queued_expired_zero_key_material (t : peer_timers) : list timer_call * peer_timers :=
  ([HandshakeClear; KeypairsClear], set_refs (peer_refs t - 1) t).

Definition wg_expired_send_persistent_keepalive (t : peer_timers) : list timer_call * peer_timers :=
  (if negb (persistent_keepalive_interval t =? 0) then [SendKeepalive] else [], t).

(** ** Life cycle *)

(** A zeroed peer whose counters are set; [interval] and the rest are set by
    the configuration and by [wg_peer_create]. *)
Definition wg_timers_init (t : peer_timers) : peer_timers :=
  PeerTimers None None None None None 0 (persistent_keepalive_interval t) false false (walltime_last_handshake t) (last_sent_handshake t)
    (transmit_handshake_work t) false (peer_refs t).

(** [flush_work] runs the work that is queued. *)
Definition wg_timers_stop (t : peer_timers) : list timer_call * peer_timers :=
  let t := set_persistent None (set_zero_key None (set_new_handshake None (set_keepalive None (set_retransmit None t)))) in
  if clear_peer_work t then wg_queued_expired_zero_key_material (set_clear_work false t) else ([], t).

(** ** Runs *)

Inductive timer_event :=
  | DataSent
  | DataReceived
  | AnySent
  | AnyReceived
  | HandshakeInitiated
  | HandshakeComplete
  | SessionDerived
  | Traversal.

Definition run_timer_event (e : timer_env) (ev : timer_event) (t : peer_timers) : peer_timers :=
  match ev with
  | DataSent => wg_timers_data_sent e t
  | DataReceived => wg_timers_data_received e t
  | AnySent => wg_timers_any_authenticated_packet_sent t
  | AnyReceived => wg_timers_any_authenticated_packet_received t
  | HandshakeInitiated => wg_timers_handshake_initiated e t
  | HandshakeComplete => wg_timers_handshake_complete e t
  | SessionDerived => wg_timers_session_derived e t
  | Traversal => wg_timers_any_authenticated_packet_traversal e t
  end.

(** The timing of [wg_packet_send_handshake_initiation]; [created] is whether
    [wg_noise_handshake_create_initiation] makes a message. *)
Definition send_initiation_timing (e : timer_env) (created : bool) (t : peer_timers) : peer_timers :=
  if negb (wg_birthdate_has_expired (last_sent_handshake t) REKEY_TIMEOUT (te_clock e)) then t
  else
    let t := set_last_sent (te_clock e) t in
    if created then
      let t := wg_timers_any_authenticated_packet_traversal e t in
      let t := wg_timers_any_authenticated_packet_sent t in
      let t := set_last_sent (te_clock e) t in
      wg_timers_handshake_initiated e t
    else t.

(** [wg_packet_handshake_send_worker] *)
Definition handshake_send_worker (e : timer_env) (created : bool) (t : peer_timers) : peer_timers :=
  let t := send_initiation_timing e created (set_transmit_work false t) in
  set_refs (peer_refs t - 1) t.

Inductive timer := Retransmit | Keepalive | NewHandshake | ZeroKey | Persistent.

Definition timer_of (k : timer) (t : peer_timers) : option Z :=
  match k with
  | Retransmit => timer_retransmit_handshake t
  | Keepalive => timer_send_keepalive t
  | NewHandshake => timer_new_handshake t
  | ZeroKey => timer_zero_key_material t
  | Persistent => timer_persistent_keepalive t
  end.

Definition expire (k : timer) (e : timer_env) (t : peer_timers) : list timer_call * peer_timers :=
  match k with
  | Retransmit => wg_expired_retransmit_handshake e (set_retransmit None t)
  | Keepalive => wg_expired_send_keepalive e (set_keepalive None t)
  | NewHandshake => wg_expired_new_handshake e (set_new_handshake None t)
  | ZeroKey => wg_expired_zero_key_material e (set_zero_key None t)
  | Persistent => wg_expired_send_persistent_keepalive (set_persistent None t)
  end.

(** What happens to a peer's timers. *)
Inductive timer_op :=
  | OpEvent (ev : timer_event)
  | OpExpire (k : timer)
  | OpQueue (is_retry : bool)
  | OpSendWorker (created : bool)
  | OpClearWorker
  | OpStop.

(** An operation that can happen: a timer expires when it is pending and its
    time has come, a worker runs when its work is queued. *)
Definition can_run (op : timer_op) (e : timer_env) (t : peer_timers) : bool :=
  match op with
  | OpExpire k => match timer_of k t with Some expires => expires <=? te_jiffies e | None => false end
  | OpSendWorker _ => transmit_handshake_work t
  | OpClearWorker => clear_peer_work t
  | _ => true
  end.

Definition run_timer_op (op : timer_op) (e : timer_env) (t : peer_timers) : list timer_call * peer_timers :=
  match op with
  | OpEvent ev => ([], run_timer_event e ev t)
  | OpExpire k => expire k e t
  | OpQueue is_retry => ([], wg_packet_send_queued_handshake_initiation e is_retry t)
  | OpSendWorker created => ([], handshake_send_worker e created t)
  | OpClearWorker => wg_queued_expired_zero_key_material (set_clear_work false t)
  | OpStop => wg_timers_stop t
  end.

End Timers.

(** ** What the packet paths ask of other parts

    In the order in which they ask. *)
Inductive effect :=
  | Datagram (bytes : list Z)                (* given to the socket *)
  | TimerEvent (p : Z) (ev : timer_event)    (* a call of [src/timers.c] *)
  | SetEndpoint (p : Z)                      (* the peer's endpoint becomes the source of the packet *)
  | KeepaliveTo (p : Z)                      (* [wg_packet_send_keepalive] *)
  | SendStaged (p : Z)                       (* [wg_packet_send_staged_packets] *)
  | QueueInitiation (p : Z)                  (* [wg_packet_send_queued_handshake_initiation], not a retry *)
  | RxStats (p len : Z)                      (* [update_rx_stats] *)
  | RxError (p : Z)                          (* the error counters *)
  | NapiReceive (p : Z) (bytes : list Z).    (* a packet for the network stack *)

Definition datagrams (l : list effect) : list (list Z) := omap (fun f => match f with Datagram b => Some b | _ => None end) l.
Definition timer_events (l : list effect) : list timer_event := omap (fun f => match f with TimerEvent _ ev => Some ev | _ => None end) l.

Lemma timer_events_app a b : timer_events (a ++ b) = timer_events a ++ timer_events b.
Proof. apply omap_app. Qed.

(** * Properties *)

(** Splits the tests of an operation. *)
Ltac timer_cases :=
  repeat match goal with
  | |- context [if ?b then _ else _] => destruct b eqn:?
  | |- context [match ?m with Some _ => _ | None => _ end] => destruct m eqn:?
  end.

Section Facts.

Context (HZ : Z).

(** A run: every operation can happen when it does. *)
Fixpoint run_timers (steps : list (timer_op * timer_env)) (t : peer_timers) : option (list timer_call * peer_timers) :=
  match steps with
  | [] => Some ([], t)
  | (op, e) :: steps' =>
      if can_run op e t then
        let '(calls, t) := run_timer_op HZ op e t in
        '(calls', t) ← run_timers steps' t; Some (calls ++ calls', t)
      else None
  end.

Definition queued (b : bool) : Z := if b then 1 else 0.

(** The references not held by queued work. *)
Definition free_refs (t : peer_timers) : Z := peer_refs t - queued (transmit_handshake_work t) - queued (clear_peer_work t).

Definition attempts_ok (t : peer_timers) : Prop := 0 <= timer_handshake_attempts t <= MAX_TIMER_HANDSHAKES + 1.

(** Operations that start the count of attempts again. *)
Definition resets (op : timer_op) : bool :=
  match op with OpEvent HandshakeComplete | OpQueue false | OpExpire NewHandshake => true | _ => false end.

Definition is_retry_call (c : timer_call) : bool := match c with ClearEndpointSrc => true | _ => false end.
Definition retries (calls : list timer_call) : Z := Z.of_nat (length (List.filter is_retry_call calls)).

Lemma retries_app c1 c2 : retries (c1 ++ c2) = retries c1 + retries c2.
Proof. unfold retries. rewrite List.filter_app, length_app. lia. Qed.

Lemma queue_initiation_frame e r t : let t' := wg_packet_send_queued_handshake_initiation e r t in
  free_refs t' = free_refs t /\ timer_handshake_attempts t' = (if r then timer_handshake_attempts t else 0).
Proof.
  unfold wg_packet_send_queued_handshake_initiation, queue_with_ref, free_refs. destruct r; cbn [negb]; timer_cases; cbn in *;
    repeat match goal with H : transmit_handshake_work t = _ |- _ => rewrite H end; cbn; lia.
Qed.

Lemma event_frame e ev t : let t' := run_timer_event HZ e ev t in
  free_refs t' = free_refs t /\ (timer_handshake_attempts t' = timer_handshake_attempts t \/ ev = HandshakeComplete /\ timer_handshake_attempts t' = 0).
Proof.
  destruct ev; cbn [run_timer_event]; unfold wg_timers_data_sent, wg_timers_data_received, wg_timers_handshake_initiated, wg_timers_session_derived,
    wg_timers_any_authenticated_packet_traversal, mod_peer_timer; timer_cases; cbn; auto.
Qed.

Lemma worker_frame e created t : transmit_handshake_work t = true ->
  let t' := handshake_send_worker HZ e created t in free_refs t' = free_refs t /\ timer_handshake_attempts t' = timer_handshake_attempts t.
Proof.
  intros Hq. unfold handshake_send_worker, send_initiation_timing, wg_timers_handshake_initiated, wg_timers_any_authenticated_packet_traversal, mod_peer_timer, free_refs.
  timer_cases; cbn; rewrite Hq; cbn; lia.
Qed.

Lemma clear_frame t : clear_peer_work t = true ->
  free_refs (wg_queued_expired_zero_key_material (set_clear_work false t)).2 = free_refs t.
Proof. intros Hq. unfold free_refs. cbn. rewrite Hq. cbn. lia. Qed.

Lemma stop_frame t : let '(calls, t') := wg_timers_stop t in
  free_refs t' = free_refs t /\ timer_handshake_attempts t' = timer_handshake_attempts t /\ retries calls = 0.
Proof.
  unfold wg_timers_stop. cbn [set_persistent set_zero_key set_new_handshake set_keepalive set_retransmit clear_peer_work]. destruct (clear_peer_work t) eqn:Hq; [|done].
  unfold free_refs, retries. cbn. rewrite Hq. cbn. lia.
Qed.

Lemma expire_frame k e t : attempts_ok t -> let '(calls, t') := expire HZ k e t in
  free_refs t' = free_refs t /\ attempts_ok t' /\ (k <> NewHandshake -> timer_handshake_attempts t' = timer_handshake_attempts t + retries calls).
Proof.
  intros Ha. unfold attempts_ok in *. destruct k; cbn [expire].
  - unfold wg_expired_retransmit_handshake. cbn [timer_handshake_attempts set_retransmit]. destruct (Z.gtb_spec (timer_handshake_attempts t) MAX_TIMER_HANDSHAKES).
    + unfold mod_peer_timer. timer_cases; cbn; ands; try done; unfold retries; cbn; lia.
    + destruct (queue_initiation_frame e true (set_attempts (u32 (timer_handshake_attempts t + 1)) (set_retransmit None t))) as [-> E]. rewrite E.
      cbn [timer_handshake_attempts set_attempts]. unfold MAX_TIMER_HANDSHAKES, REKEY_TIMEOUT in *. rewrite u32_small by lia.
      ands; [done|lia|lia|]. intros _. unfold retries. cbn. lia.
  - unfold wg_expired_send_keepalive, mod_peer_timer. timer_cases; cbn; unfold retries; cbn; ands; try done; lia.
  - unfold wg_expired_new_handshake. destruct (queue_initiation_frame e false (set_new_handshake None t)) as [-> ->]. ands; try done; unfold MAX_TIMER_HANDSHAKES, REKEY_TIMEOUT; lia.
  - unfold wg_expired_zero_key_material, queue_with_ref, free_refs. cbn. timer_cases; cbn; unfold retries; cbn;
      repeat match goal with H : clear_peer_work t = _ |- _ => rewrite H end; cbn; ands; lia.
  - unfold wg_expired_send_persistent_keepalive. timer_cases; cbn; unfold retries; cbn; ands; try done; lia.
Qed.

Lemma timer_op_frame op e t : can_run op e t = true -> attempts_ok t -> let '(calls, t') := run_timer_op HZ op e t in
  free_refs t' = free_refs t /\ attempts_ok t' /\ (resets op = false -> timer_handshake_attempts t' = timer_handshake_attempts t + retries calls).
Proof.
  intros Hc Ha. destruct op as [ev|k|r|created| |]; cbn [run_timer_op resets can_run] in *.
  - destruct (event_frame e ev t) as [F [E|[-> E]]]; unfold attempts_ok, retries in *; rewrite E; cbn; ands; try done; lia.
  - pose proof (expire_frame k e t Ha) as H. destruct (expire HZ k e t) as [calls t']. destruct H as (H1 & H2 & H3). split; [done|]. split; [done|]. intros Hk. apply H3. by destruct k.
  - destruct (queue_initiation_frame e r t) as [F E]. unfold attempts_ok, retries in *. rewrite E. destruct r; cbn; ands; try done; try lia; unfold MAX_TIMER_HANDSHAKES, REKEY_TIMEOUT; lia.
  - destruct (worker_frame e created t Hc) as [F E]. unfold attempts_ok, retries in *. rewrite E. cbn. ands; try done; lia.
  - pose proof (clear_frame t Hc) as F. cbn in *. unfold attempts_ok, retries in *. cbn. ands; try done; lia.
  - pose proof (stop_frame t) as H. destruct (wg_timers_stop t) as [calls t']. destruct H as (F & E & R). unfold attempts_ok in *. rewrite E, R. ands; try done; lia.
Qed.

Lemma run_timers_frame steps : forall t calls t', run_timers steps t = Some (calls, t') -> attempts_ok t ->
  free_refs t' = free_refs t /\ attempts_ok t' /\
  (Forall (fun s => resets s.1 = false) steps -> timer_handshake_attempts t' = timer_handshake_attempts t + retries calls).
Proof.
  induction steps as [|[op e] steps IH]; intros t calls t' Hr Ha; cbn in Hr.
  { injection Hr as <- <-. ands; try done; try apply Ha. unfold retries. cbn. lia. }
  destruct (can_run op e t) eqn:Hc; [|done]. pose proof (timer_op_frame op e t Hc Ha) as H. destruct (run_timer_op HZ op e t) as [c1 t1]. destruct H as (F1 & A1 & E1).
  apply bind_Some in Hr as ([c2 t2] & Hr & [= <- <-]). destruct (IH t1 c2 t2 Hr A1) as (F2 & A2 & E2).
  split; [congruence|]. split; [done|]. intros [Hop Hrest]%Forall_cons. rewrite retries_app, (E2 Hrest), (E1 Hop). lia.
Qed.

End Facts.

(** The retries of a handshake are bounded, and queued work keeps its peer
    alive.  In every run of a peer's timers each queued work holds exactly one
    reference of the peer, and as long as nothing starts a new handshake
    there are at most 19 retries. *)
Theorem timers_bounded HZ steps t calls t' : attempts_ok t -> run_timers HZ steps t = Some (calls, t') ->
  peer_refs t' = peer_refs t - queued (transmit_handshake_work t) - queued (clear_peer_work t) + queued (transmit_handshake_work t') + queued (clear_peer_work t') /\
  attempts_ok t' /\
  (Forall (fun s => resets s.1 = false) steps -> timer_handshake_attempts t' = timer_handshake_attempts t + retries calls /\ retries calls <= 19).
Proof.
  intros Ha Hr. destruct (run_timers_frame HZ steps t calls t' Hr Ha) as (F & A & E). unfold free_refs in F. split; [lia|]. split; [done|]. intros Hn. specialize (E Hn).
  unfold attempts_ok, MAX_TIMER_HANDSHAKES, REKEY_TIMEOUT in *. lia.
Qed.

(** ** An unanswered handshake *)

Section Unanswered.

Context (HZ : Z) (HZ_pos : 0 < HZ) (below : Z -> Z -> Z) (wall : Z -> Z).

(** The coarse boot-time clock advances with the ticks. *)
Definition boot_clock (j : Z) : Z := j * NSEC_PER_SEC / HZ.
Definition env_at (j : Z) : timer_env := TimerEnv j (boot_clock j) (wall j) true false (below j).

(** The retransmission timer fires at [x], the worker runs at [w]. *)
Definition round (xw : Z * Z) : list (timer_op * timer_env) :=
  [(OpExpire Retransmit, env_at xw.1); (OpSendWorker true, env_at xw.2)].

(** Nothing happens too early: a timer fires when its time has come, or later,
    and so do the workers. *)
Fixpoint rounds_ok (w : Z) (rounds : list (Z * Z)) : Prop :=
  match rounds with
  | [] => True
  | (x, w') :: rounds' => w + REKEY_TIMEOUT * HZ + jitter HZ (env_at w) <= x <= w' /\ rounds_ok w' rounds'
  end.

(** An initiation was sent at [w], the [k]-th retry. *)
Record waiting (w k : Z) (t : peer_timers) : Prop := {
  wt_attempts : timer_handshake_attempts t = k;
  wt_timer : timer_retransmit_handshake t = Some (w + REKEY_TIMEOUT * HZ + jitter HZ (env_at w));
  wt_work : transmit_handshake_work t = false;
  wt_sent : last_sent_handshake t = boot_clock w
}.

Lemma boot_clock_later j d : boot_clock (j + d * HZ) = boot_clock j + d * NSEC_PER_SEC.
Proof. unfold boot_clock. replace ((j + d * HZ) * NSEC_PER_SEC) with (j * NSEC_PER_SEC + d * NSEC_PER_SEC * HZ) by ring. by rewrite Z.div_add by lia. Qed.
Lemma boot_clock_mono j j' : j <= j' -> boot_clock j <= boot_clock j'.
Proof. intros. unfold boot_clock, NSEC_PER_SEC. apply Z.div_le_mono; lia. Qed.

(** Far from the end of the clock. *)
Definition clock_ok (j : Z) : Prop := 0 <= j /\ boot_clock j < 2 ^ 62.

Lemma expired_later w x : clock_ok w -> clock_ok x -> w + REKEY_TIMEOUT * HZ <= x -> wg_birthdate_has_expired (boot_clock w) REKEY_TIMEOUT (boot_clock x) = true.
Proof.
  intros [W0 W] [X0 X] Hle. pose proof (boot_clock_mono _ _ Hle) as Hm. rewrite boot_clock_later in Hm. pose proof (boot_clock_mono _ _ W0) as H0. pose proof (boot_clock_mono _ _ X0) as H1.
  change (boot_clock 0) with (0 / HZ) in H0, H1. rewrite Z.div_0_l in H0, H1 by lia.
  rewrite birthdate_expired; unfold REKEY_TIMEOUT, NSEC_PER_SEC in *; lia.
Qed.

Definition jitter_ok : Prop := forall j, 0 <= jitter HZ (env_at j).

(** The worker sends an initiation and waits for the answer. *)
Lemma worker_waits w w0 k t : clock_ok w0 -> clock_ok w -> w0 + REKEY_TIMEOUT * HZ <= w -> last_sent_handshake t = boot_clock w0 ->
  timer_handshake_attempts t = k -> waiting w k (handshake_send_worker HZ (env_at w) true t).
Proof.
  intros C0 C Hle Hs Hk. unfold handshake_send_worker, send_initiation_timing. cbn [last_sent_handshake set_transmit_work te_clock env_at].
  rewrite Hs, (expired_later w0 w) by done. cbn [negb]. unfold wg_timers_handshake_initiated, wg_timers_any_authenticated_packet_traversal, mod_peer_timer.
  cbn [te_running te_dead env_at andb negb]. destruct (_ =? 0); split; try done.
Qed.

Lemma expire_queues w x k t : clock_ok w -> clock_ok x -> waiting w k t -> 0 <= k <= MAX_TIMER_HANDSHAKES -> jitter_ok ->
  w + REKEY_TIMEOUT * HZ + jitter HZ (env_at w) <= x ->
  let '(calls, t') := expire HZ Retransmit (env_at x) t in
  calls = [ClearEndpointSrc] /\ transmit_handshake_work t' = true /\ last_sent_handshake t' = boot_clock w /\ timer_handshake_attempts t' = k + 1.
Proof.
  intros Cw Cx [A T W S'] Hk J Hle. specialize (J w). cbn [expire]. unfold wg_expired_retransmit_handshake. cbn [timer_handshake_attempts set_retransmit]. rewrite A.
  destruct (Z.gtb_spec k MAX_TIMER_HANDSHAKES); [lia|]. unfold wg_packet_send_queued_handshake_initiation. cbn [negb last_sent_handshake set_attempts set_retransmit te_clock env_at te_dead].
  rewrite S', (expired_later w x) by (done || lia). cbn [negb orb transmit_handshake_work set_attempts set_retransmit]. rewrite W. unfold queue_with_ref. cbn. ands; try done.
  unfold MAX_TIMER_HANDSHAKES, REKEY_TIMEOUT in *. apply u32_small. lia.
Qed.

Lemma round_ok w x w' k t : clock_ok w -> clock_ok w' -> waiting w k t -> 0 <= k <= MAX_TIMER_HANDSHAKES -> jitter_ok ->
  w + REKEY_TIMEOUT * HZ + jitter HZ (env_at w) <= x <= w' ->
  exists t', run_timers HZ (round (x, w')) t = Some ([ClearEndpointSrc], t') /\ waiting w' (k + 1) t'.
Proof.
  intros Cw Cw' Wt Hk J [Hx Hw]. assert (Cx : clock_ok x).
  { destruct Cw as [? ?], Cw' as [? ?]. specialize (J w). pose proof (boot_clock_mono _ _ Hw). unfold REKEY_TIMEOUT in *. split; lia. }
  pose proof (expire_queues w x k t Cw Cx Wt Hk J Hx) as H. unfold round. cbn [run_timers fst snd can_run timer_of run_timer_op te_jiffies env_at].
  rewrite (wt_timer _ _ _ Wt). destruct (Z.leb_spec (w + REKEY_TIMEOUT * HZ + jitter HZ (env_at w)) x); [|lia].
  destruct (expire HZ Retransmit (env_at x) t) as [calls t1]. destruct H as (-> & W1 & S1 & A1). rewrite W1. cbn [mbind option_bind app].
  eexists. split; [reflexivity|]. apply (worker_waits w' w); try done. specialize (J w). unfold REKEY_TIMEOUT in *. lia.
Qed.

Lemma run_timers_app s1 : forall s2 t c1 t1 c2 t2, run_timers HZ s1 t = Some (c1, t1) -> run_timers HZ s2 t1 = Some (c2, t2) ->
  run_timers HZ (s1 ++ s2) t = Some (c1 ++ c2, t2).
Proof.
  induction s1 as [|[op e] s1 IH]; intros s2 t c1 t1 c2 t2 H1 H2; cbn in *; [by injection H1 as <- <-|].
  destruct (can_run op e t); [|done]. destruct (run_timer_op HZ op e t) as [c t']. apply bind_Some in H1 as ([c' t''] & H1 & [= <- <-]).
  rewrite (IH s2 t' c' t'' c2 t2 H1 H2). cbn. by rewrite app_assoc.
Qed.

Definition last_worker (w : Z) (rounds : list (Z * Z)) : Z := fold_left (fun _ xw => xw.2) rounds w.

Lemma rounds_run rounds : forall w k t, clock_ok w -> Forall (fun xw => clock_ok xw.2) rounds -> rounds_ok w rounds -> jitter_ok -> waiting w k t ->
  0 <= k -> k + Z.of_nat (length rounds) <= MAX_TIMER_HANDSHAKES + 1 ->
  exists t', run_timers HZ (concat (map round rounds)) t = Some (replicate (length rounds) ClearEndpointSrc, t') /\
    waiting (last_worker w rounds) (k + Z.of_nat (length rounds)) t'.
Proof.
  induction rounds as [|[x w'] rounds IH]; intros w k t Cw Cs Hr J Wt Hk Hn; cbn [map concat length replicate].
  { exists t. split; [done|]. by replace (k + Z.of_nat 0) with k by lia. }
  apply Forall_cons in Cs as [Cw' Cs]. cbn [length] in Hn. destruct Hr as [Hx Hr].
  destruct (round_ok w x w' k t) as (t1 & E1 & Wt1); try done; [lia|].
  destruct (IH w' (k + 1) t1) as (t2 & E2 & Wt2); try done; [lia|lia|].
  exists t2. split; [exact (run_timers_app _ _ _ _ _ _ _ E1 E2)|].
  replace (k + Z.of_nat (S (length rounds))) with (k + 1 + Z.of_nat (length rounds)) by lia.
  exact Wt2.
Qed.

End Unanswered.

(** C18: A handshake that is never answered is tried 20 times and then given up.
    Whenever the timer fires and the worker runs, each of the first 19
    expiries leads to another initiation, none is lost to the rate limit, and
    the twentieth expiry drops the waiting packets, leaves no timer or work that
    could send another initiation and makes sure that keys are erased. *)
Theorem handshake_given_up HZ below wall w0 w t rounds x : 0 < HZ -> jitter_ok HZ below wall ->
  clock_ok HZ w0 -> clock_ok HZ w -> w0 + REKEY_TIMEOUT * HZ <= w ->
  last_sent_handshake t = boot_clock HZ w0 -> timer_handshake_attempts t = 0 -> transmit_handshake_work t = true ->
  length rounds = 19%nat -> Forall (fun xw => clock_ok HZ xw.2) rounds -> rounds_ok HZ below wall w rounds ->
  last_worker w rounds + REKEY_TIMEOUT * HZ + jitter HZ (env_at HZ below wall (last_worker w rounds)) <= x ->
  exists t', run_timers HZ ((OpSendWorker true, env_at HZ below wall w) :: concat (map (round HZ below wall) rounds) ++ [(OpExpire Retransmit, env_at HZ below wall x)]) t =
      Some (replicate 19 ClearEndpointSrc ++ [PurgeStagedPackets], t') /\
    timer_retransmit_handshake t' = None /\ transmit_handshake_work t' = false /\ timer_send_keepalive t' = None /\ timer_zero_key_material t' <> None.
Proof.
  intros Hz J C0 Cw Hle Hs Ha Hq Hlen Cs Hr Hx. pose proof (worker_waits HZ Hz below wall w w0 0 t C0 Cw Hle Hs Ha) as W0.
  destruct (rounds_run HZ Hz below wall rounds w 0 _ Cw Cs Hr J W0 ltac:(lia)) as (t1 & E1 & [A1 T1 Q1 S1]); [rewrite Hlen; unfold MAX_TIMER_HANDSHAKES, REKEY_TIMEOUT; lia|].
  rewrite Hlen in *. set (t2 := (expire HZ Retransmit (env_at HZ below wall x) t1).2).
  assert (E2 : run_timers HZ [(OpExpire Retransmit, env_at HZ below wall x)] t1 = Some ([PurgeStagedPackets], t2) /\
    timer_retransmit_handshake t2 = None /\ transmit_handshake_work t2 = false /\ timer_send_keepalive t2 = None /\ timer_zero_key_material t2 <> None).
  { unfold t2. cbn [run_timers can_run timer_of run_timer_op te_jiffies env_at]. rewrite T1. destruct (Z.leb_spec (last_worker w rounds + REKEY_TIMEOUT * HZ + jitter HZ (env_at HZ below wall (last_worker w rounds))) x); [|lia].
    cbn [expire]. unfold wg_expired_retransmit_handshake. cbn [timer_handshake_attempts set_retransmit]. rewrite A1.
    unfold mod_peer_timer. cbn [te_running te_dead env_at andb negb]. change (0 + Z.of_nat 19 >? MAX_TIMER_HANDSHAKES) with true. cbn [timer_zero_key_material set_keepalive set_retransmit].
    destruct (timer_zero_key_material t1) as [z|] eqn:Ez; cbn; rewrite ?Q1, ?Ez; done. }
  destruct E2 as [E2 R]. exists t2. split; [|exact R]. cbn [run_timers can_run run_timer_op]. rewrite Hq.
  by rewrite (run_timers_app HZ _ _ _ _ _ _ _ E1 E2).
Qed.

(** ** Answering data *)

Section Owed.

Context (HZ : Z) (HZ_pos : 0 < HZ).

(** Time does not run backwards. *)
Fixpoint times_from (j : Z) (steps : list (timer_op * timer_env)) : Prop :=
  match steps with [] => True | (_, e) :: steps' => j <= te_jiffies e /\ times_from (te_jiffies e) steps' end.
Definition end_time (j : Z) (steps : list (timer_op * timer_env)) : Z := fold_left (fun _ s => te_jiffies s.2) steps j.

(** The operations that send an authenticated packet, and the end of the timers. *)
Definition answers (op : timer_op) : bool :=
  match op with OpEvent AnySent | OpExpire Keepalive | OpSendWorker true | OpStop => true | _ => false end.

Definition keepalive_by (j : Z) (t : peer_timers) : Prop := forall x, timer_send_keepalive t = Some x -> x <= j + KEEPALIVE_TIMEOUT * HZ.

(** Only these touch the keepalive timer; and handing out data sets it if it is
    not pending. *)
Lemma op_keepalive op e t : let '(calls, t') := run_timer_op HZ op e t in
  timer_send_keepalive t' = timer_send_keepalive t \/ timer_send_keepalive t' = None /\ (answers op = true \/ PurgeStagedPackets ∈ calls) \/
  timer_send_keepalive t' = Some (te_jiffies e + KEEPALIVE_TIMEOUT * HZ) /\ (answers op = true \/ timer_send_keepalive t = None).
Proof.
  destruct op as [ev|k|r|created| |]; cbn [run_timer_op answers].
  - destruct ev; cbn [run_timer_event]; unfold wg_timers_data_sent, wg_timers_data_received, wg_timers_handshake_initiated, wg_timers_session_derived,
      wg_timers_any_authenticated_packet_traversal, mod_peer_timer, timer_pending; timer_cases; cbn in *; auto.
    destruct (timer_send_keepalive t); [done|]. auto.
  - destruct k; cbn [expire]; unfold wg_expired_retransmit_handshake, wg_expired_send_keepalive, wg_expired_new_handshake, wg_expired_zero_key_material, wg_expired_send_persistent_keepalive,
      wg_packet_send_queued_handshake_initiation, mod_peer_timer, queue_with_ref; timer_cases; cbn in *; auto; right; left; (split; [done|]); auto; right; constructor.
  - unfold wg_packet_send_queued_handshake_initiation, queue_with_ref. timer_cases; cbn; auto.
  - unfold handshake_send_worker, send_initiation_timing, wg_timers_handshake_initiated, wg_timers_any_authenticated_packet_traversal, mod_peer_timer. timer_cases; cbn; auto.
  - cbn. auto.
  - unfold wg_timers_stop. cbn. timer_cases; cbn; auto.
Qed.

Lemma run_keepalive_by steps : forall j t calls t', run_timers HZ steps t = Some (calls, t') -> times_from j steps -> keepalive_by j t -> keepalive_by (end_time j steps) t'.
Proof.
  induction steps as [|[op e] steps IH]; intros j t calls t' Hr Ht Hk; cbn in Hr; [by injection Hr as <- <-|]. destruct (can_run op e t); [|done].
  destruct Ht as [Hj Ht]. pose proof (op_keepalive op e t) as H. destruct (run_timer_op HZ op e t) as [c t1]. apply bind_Some in Hr as ([c2 t2] & Hr & [= <- <-]).
  apply (IH (te_jiffies e) t1 c2 t2 Hr Ht). intros x Hx. destruct H as [E|[[E _]|[E _]]]; rewrite E in Hx; [specialize (Hk x Hx); lia|done|injection Hx as <-; lia].
Qed.

Lemma run_keepalive_kept steps : forall t calls t' x, run_timers HZ steps t = Some (calls, t') -> Forall (fun s => answers s.1 = false) steps -> PurgeStagedPackets ∉ calls ->
  timer_send_keepalive t = Some x -> timer_send_keepalive t' = Some x.
Proof.
  induction steps as [|[op e] steps IH]; intros t calls t' x Hr Ha Hp Hx; cbn in Hr; [by injection Hr as <- <-|]. destruct (can_run op e t); [|done].
  pose proof (op_keepalive op e t) as H. destruct (run_timer_op HZ op e t) as [c t1]. apply bind_Some in Hr as ([c2 t2] & Hr & [= <- <-]). apply Forall_cons in Ha as [Ha Has]. cbn [fst] in Ha.
  rewrite elem_of_app in Hp. apply (IH t1 c2 t2 x Hr Has); [naive_solver|]. destruct H as [E|[[E [H|H]]|[E [H|H]]]]; naive_solver congruence.
Qed.

End Owed.

(** C24: Data is answered in time.  After a data packet was received on a device
    that is up, until a packet has been sent or the handshake is given up, a
    keepalive is due at most 10 seconds after that packet, whatever else happens in
    between; and when it is due it is sent. *)
Theorem keepalive_owed HZ t0 before e after calls1 t1 calls2 t2 j : 0 < HZ ->
  run_timers HZ before (wg_timers_init t0) = Some (calls1, t1) -> times_from j (before ++ [(OpEvent DataReceived, e)]) -> te_running e = true -> te_dead e = false ->
  run_timers HZ ((OpEvent DataReceived, e) :: after) t1 = Some (calls2, t2) -> Forall (fun s => answers s.1 = false) after -> PurgeStagedPackets ∉ calls2 ->
  exists x, timer_send_keepalive t2 = Some x /\ x <= te_jiffies e + KEEPALIVE_TIMEOUT * HZ /\
    forall e', x <= te_jiffies e' -> can_run (OpExpire Keepalive) e' t2 = true /\ (run_timer_op HZ (OpExpire Keepalive) e' t2).1 = [SendKeepalive].
Proof.
  intros Hz Hb Ht Hr Hd Ha Hn Hp. assert (Hj : times_from j before /\ end_time j before <= te_jiffies e).
  { clear -Ht. revert j Ht. induction before as [|[op e'] before IH]; intros j Ht; cbn in *; [tauto|]. destruct Ht as [? Ht]. specialize (IH _ Ht). tauto. }
  pose proof (run_keepalive_by HZ before j _ _ _ Hb (proj1 Hj) ltac:(done)) as Hk. cbn [run_timers can_run run_timer_op run_timer_event] in Ha.
  apply bind_Some in Ha as ([c2 t2'] & Ha & [= <- <-]). cbn [app] in Hp.
  assert (Hx : exists x, timer_send_keepalive (wg_timers_data_received HZ e t1) = Some x /\ x <= te_jiffies e + KEEPALIVE_TIMEOUT * HZ).
  { unfold wg_timers_data_received, mod_peer_timer. rewrite Hr, Hd. destruct (timer_send_keepalive t1) as [x|] eqn:E; cbn [timer_pending negb andb].
    - exists x. split; [done|]. specialize (Hk x E). unfold KEEPALIVE_TIMEOUT in *. lia.
    - by eexists. }
  destruct Hx as (x & Hx & Hle). pose proof (run_keepalive_kept HZ after _ _ _ x Ha Hn Hp Hx) as Hx2. exists x. ands; [done|done|]. intros e' He'. cbn [can_run timer_of].
  rewrite Hx2. split; [by apply Z.leb_le|done].
Qed.

(** ** Examples, with ten ticks per second *)

Definition timers_example : peer_timers := PeerTimers None None None None None 0 0 false false 0 0 true false 2.
Definition env_example (j : Z) : timer_env := env_at 10 (fun _ _ => 1) (fun _ => 0) j.
Definition rounds_example : list (Z * Z) := map (fun k => (101 + 51 * Z.of_nat k, 101 + 51 * Z.of_nat k)) (seq 0 19).

Definition steps_example : list (timer_op * timer_env) := [(OpSendWorker true, env_example 50); (OpExpire Retransmit, env_example 101)].
Definition timers_example_end : peer_timers := PeerTimers None None None None None 1 0 false false 0 5000000000 true false 2.

Lemma steps_example_run : run_timers 10 steps_example timers_example = Some ([ClearEndpointSrc], timers_example_end).
Proof. vm_compute. reflexivity. Qed.

Lemma timers_bounded_witness : attempts_ok timers_example_end /\ retries [ClearEndpointSrc] <= 19.
Proof.
  assert (A : attempts_ok timers_example) by (split; vm_compute; discriminate).
  destruct (timers_bounded 10 steps_example timers_example [ClearEndpointSrc] timers_example_end A steps_example_run) as (_ & H1 & H2).
  split; [exact H1|]. apply H2. repeat constructor.
Defined.

Lemma handshake_given_up_witness : exists t',
  run_timers 10 ((OpSendWorker true, env_example 50) :: concat (map (round 10 (fun _ _ => 1) (fun _ => 0)) rounds_example) ++ [(OpExpire Retransmit, env_example 1070)]) timers_example =
    Some (replicate 19 ClearEndpointSrc ++ [PurgeStagedPackets], t') /\ timer_retransmit_handshake t' = None.
Proof.
  assert (Hc : forall j, (0 <=? j) && (j <? 10000) = true -> clock_ok 10 j).
  { intros j Hj. zbool. split; [lia|]. unfold boot_clock, NSEC_PER_SEC. apply Z.div_lt_upper_bound; lia. }
  assert (Hr : Forall (fun xw => clock_ok 10 xw.2) rounds_example) by (repeat constructor; by apply Hc).
  assert (Ho : rounds_ok 10 (fun _ _ => 1) (fun _ => 0) 50 rounds_example) by (cbn; unfold REKEY_TIMEOUT; repeat split; lia).
  destruct (handshake_given_up 10 (fun _ _ => 1) (fun _ => 0) 0 50 timers_example rounds_example 1070) as (t' & E & R & _);
    [lia|intros j; cbn; lia|by apply Hc|by apply Hc|unfold REKEY_TIMEOUT; lia|done|done|done|done|exact Hr|exact Ho|vm_compute; discriminate|].
  exists t'. split; [exact E|exact R].
Defined.

Lemma keepalive_owed_witness : exists x t2,
  run_timers 10 [(OpEvent DataReceived, env_example 70); (OpEvent DataReceived, env_example 90)] (wg_timers_init timers_example) = Some ([], t2) /\
  timer_send_keepalive t2 = Some x /\ x <= 170.
Proof.
  destruct (keepalive_owed 10 timers_example [] (env_example 70) [(OpEvent DataReceived, env_example 90)] [] (wg_timers_init timers_example) []
    (wg_timers_data_received 10 (env_example 90) (wg_timers_data_received 10 (env_example 70) (wg_timers_init timers_example))) 0) as (x & E & H & _);
    [lia|done|cbn; lia|done|done|done|by repeat constructor|by intros ?%elem_of_nil|].
  exists x. eexists. split; [vm_compute; reflexivity|]. split; [exact E|]. cbn in H. unfold KEEPALIVE_TIMEOUT in H. lia.
Defined.
