(* ===== verification/Socket.v ===== *)
(** * Sockets and endpoints ([src/socket.c], [src/socket.h])

    Where a peer is reached, and the two UDP sockets of a device.  The endpoint
    of a peer is a destination together with the local address that the peer
    last used for this device; it follows every authenticated packet.  Routes are
    cached until the endpoint changes.  The functions of the network stack
    (address checks, route lookup, creation of sockets) are arguments; the
    cache, the endpoint, the counters and the fate of each packet are the model.

    Theorems: in every reachable state a packet goes to the address and port of
    the last endpoint that was set, from the address this endpoint recorded or
    an unspecified one, cached routes included; creating the sockets takes a
    bounded number of attempts and leaks none. *)

From S2P Require Import Prelude AllowedIps.
From stdpp Require Import list.
#[local] Open Scope Z_scope.

Definition ENONET : Z := 64.
Definition EAFNOSUPPORT : Z := 97.
Definition EADDRINUSE : Z := 98.

(** ** Endpoints *)

(** [struct endpoint]: no family, [addr4] with [src4] and [src_if4], or [addr6] with [src6].
    The parts of the unions that belong to another family are never read. *)
Inductive endpoint :=
| EpNone
| Ep4 (sin_port sin_addr src4 src_if4 : Z)
| Ep6 (sin6_port sin6_flowinfo sin6_addr sin6_scope_id src6 : Z).

(** What is read of a received datagram. *)
Record in_skb := InSkb { skb_protocol : Z; udp_source : Z; ip_saddr : Z; ip_daddr : Z; skb_iif : Z }.

(** [struct rtable] or [struct dst_entry], a flow, and a transmitted datagram. *)
Record route := Route { rt_ifindex : Z; rt_id : Z }.
Record flow := Flow { fl_saddr : Z; fl_daddr : Z; fl_sport : Z; fl_dport : Z; fl_mark : Z; fl_oif : Z }.
Record sent := Sent { s_route : route; s_v6 : bool; s_saddr : Z; s_daddr : Z; s_sport : Z; s_dport : Z; s_ds : Z; s_mark : Z }.

(** The network stack during one call: [inet_confirm_addr] or [ipv6_chk_addr], the route
    lookup (an error or a route) and whether a cached route is still usable. *)
Record stack := Stack { confirm_addr : Z -> bool; lookup_route : flow -> Z + route; usable : route -> bool }.

(** [struct dst_cache]: a route and the source address that goes with it. *)
Definition dst_cache := option (route * Z).

Definition dst_cache_get (net : stack) (cache : option dst_cache) : option (route * Z) :=
  match cache with Some (Some (rt, saddr)) => if usable net rt then Some (rt, saddr) else None | _ => None end.
Definition dst_cache_reset (cache : option dst_cache) : option dst_cache := match cache with Some _ => Some None | None => None end.
Definition dst_cache_set (cache : option dst_cache) (rt : route) (saddr : Z) : option dst_cache := match cache with Some _ => Some (Some (rt, saddr)) | None => None end.

Section Socket.

(** [CONFIG_IPV6], and [ipv6_iface_scope_id]. *)
Context (ipv6 : bool) (ipv6_iface_scope_id : Z -> Z -> Z).

Definition wg_socket_endpoint_from_skb (skb : in_skb) : Z * endpoint :=
  if skb_protocol skb =? ETH_P_IP then (0, Ep4 (udp_source skb) (ip_saddr skb) (ip_daddr skb) (skb_iif skb))
  else if ipv6 && (skb_protocol skb =? ETH_P_IPV6) then
    (0, Ep6 (udp_source skb) 0 (ip_saddr skb) (ipv6_iface_scope_id (ip_saddr skb) (skb_iif skb)) (ip_daddr skb))
  else (- EINVAL, EpNone).

Definition endpoint_eq (a b : endpoint) : bool :=
  match a, b with
  | Ep4 p ad s i, Ep4 p' ad' s' i' => (p =? p') && (ad =? ad') && (s =? s') && (i =? i')
  | Ep6 p _ ad sc s, Ep6 p' _ ad' sc' s' => (p =? p') && (ad =? ad') && (sc =? sc') && (s =? s')
  | EpNone, EpNone => true
  | _, _ => false
  end.

(** The part of a peer that this file uses. *)
Record peer_sock := PeerSock { ps_endpoint : endpoint; ps_cache : dst_cache; tx_bytes : Z }.

Definition wg_socket_set_peer_endpoint (peer : peer_sock) (ep : endpoint) : peer_sock :=
  if endpoint_eq ep (ps_endpoint peer) then peer
  else
    match ep with
    | Ep4 _ _ _ _ => PeerSock ep None (tx_bytes peer)
    | Ep6 _ _ _ _ _ => if ipv6 then PeerSock ep None (tx_bytes peer) else peer
    | EpNone => peer
    end.

Definition wg_socket_set_peer_endpoint_from_skb (peer : peer_sock) (skb : in_skb) : peer_sock :=
  let '(ret, ep) := wg_socket_endpoint_from_skb skb in
  if ret =? 0 then wg_socket_set_peer_endpoint peer ep else peer.

(** [memset(&peer->endpoint.src6, 0, ...)]: the union holds [src4] and [src_if4] too. *)
Definition wg_socket_clear_peer_endpoint_src (peer : peer_sock) : peer_sock :=
  let ep := match ps_endpoint peer with
            | EpNone => EpNone
            | Ep4 p a _ _ => Ep4 p a 0 0
            | Ep6 p f a sc _ => Ep6 p f a sc 0
            end in
  PeerSock ep None (tx_bytes peer).

(** ** Sending *)

(** The result, [src4] and [src_if4], the cache, and the datagram if one left.
    Otherwise the packet is freed. *)
Definition send4 (net : stack) (fwmark : Z) (sock4 : option Z) (sin_port sin_addr src4 src_if4 ds : Z) (cache : option dst_cache) :
    Z * (Z * Z) * option dst_cache * option sent :=
  match sock4 with
  | None => (- ENONET, (src4, src_if4), cache, None)
  | Some sport =>
      match dst_cache_get net cache with
      | Some (rt, saddr) => (0, (src4, src_if4), cache, Some (Sent rt false saddr sin_addr sport sin_port ds fwmark))
      | None =>
          let fl saddr := Flow saddr sin_addr sport sin_port fwmark 0 in
          let '(src4, src_if4, cache) := if negb (confirm_addr net src4) then (0, 0, dst_cache_reset cache) else (src4, src_if4, cache) in
          let rt := lookup_route net (fl src4) in
          let '(rt, src4, src_if4, cache) :=
            if negb (src_if4 =? 0) && match rt with inl err => err =? - EINVAL | inr r => negb (rt_ifindex r =? src_if4) end
            then (lookup_route net (fl 0), 0, 0, dst_cache_reset cache) else (rt, src4, src_if4, cache) in
          match rt with
          | inl err => (err, (src4, src_if4), cache, None)
          | inr r => (0, (src4, src_if4), dst_cache_set cache r src4, Some (Sent r false src4 sin_addr sport sin_port ds fwmark))
          end
      end
  end.

Definition send6 (net : stack) (fwmark : Z) (sock6 : option Z) (sin6_port sin6_addr sin6_scope_id src6 ds : Z) (cache : option dst_cache) :
    Z * Z * option dst_cache * option sent :=
  if negb ipv6 then (- EAFNOSUPPORT, src6, cache, None)
  else
    match sock6 with
    | None => (- ENONET, src6, cache, None)
    | Some sport =>
        match dst_cache_get net cache with
        | Some (rt, saddr) => (0, src6, cache, Some (Sent rt true saddr sin6_addr sport sin6_port ds fwmark))
        | None =>
            let '(src6, cache) := if negb (src6 =? 0) && negb (confirm_addr net src6) then (0, dst_cache_reset cache) else (src6, cache) in
            match lookup_route net (Flow src6 sin6_addr sport sin6_port fwmark sin6_scope_id) with
            | inl err => (err, src6, cache, None)
            | inr r => (0, src6, dst_cache_set cache r src6, Some (Sent r true src6 sin6_addr sport sin6_port ds fwmark))
            end
        end
    end.

(** The ports of the two sockets and the mark of the device. *)
Record sockets := Sockets { sport4 : option Z; sport6 : option Z; fwmark : Z }.

Definition content (cache : option dst_cache) : dst_cache := match cache with Some c => c | None => None end.

Definition wg_socket_send_skb_to_peer (net : stack) (wg : sockets) (peer : peer_sock) (skb_len ds : Z) : Z * peer_sock * option sent :=
  let '(ret, ep, cache, out) :=
    match ps_endpoint peer with
    | Ep4 p a s i =>
        let '(ret, (s, i), cache, out) := send4 net (fwmark wg) (sport4 wg) p a s i ds (Some (ps_cache peer)) in (ret, Ep4 p a s i, cache, out)
    | Ep6 p f a sc s =>
        let '(ret, s, cache, out) := send6 net (fwmark wg) (sport6 wg) p a sc s ds (Some (ps_cache peer)) in (ret, Ep6 p f a sc s, cache, out)
    | EpNone => (- EAFNOSUPPORT, EpNone, Some (ps_cache peer), None)
    end in
  (ret, PeerSock ep (content cache) (if ret =? 0 then u64 (tx_bytes peer + skb_len) else tx_bytes peer), out).

(** The end of [wg_socket_send_buffer_as_reply_to_skb]: without a cache, to an endpoint on the stack. *)
Definition reply_to_skb (net : stack) (wg : sockets) (skb : in_skb) : Z * option sent :=
  let '(ret, ep) := wg_socket_endpoint_from_skb skb in
  if ret <? 0 then (ret, None)
  else
    match ep with
    | Ep4 p a s i => let '(ret, _, _, out) := send4 net (fwmark wg) (sport4 wg) p a s i 0 None in (ret, out)
    | Ep6 p _ a sc s => let '(ret, _, _, out) := send6 net (fwmark wg) (sport6 wg) p a sc s 0 None in (ret, out)
    | EpNone => (ret, None)
    end.

(** ** Creation of the sockets *)

Record sock := Sock { sk_id : Z; sk_sport : Z }.
Record wg_socks := WgSocks { wg_sock4 : option sock; wg_sock6 : option sock; incoming_port : Z }.

Inductive sock_event := Created (s : sock) | Released (s : sock).

Definition sock_free (s : option sock) : list sock_event := match s with Some s => [Released s] | None => [] end.

Definition wg_socket_reinit (wg : wg_socks) (new4 new6 : option sock) : wg_socks * list sock_event :=
  (WgSocks new4 new6 (match new4 with Some s => sk_sport s | None => incoming_port wg end), sock_free (wg_sock4 wg) ++ sock_free (wg_sock6 wg)).

(** [udp_sock_create], by attempt and port. *)
Record udp_creation := UdpCreation { create4 : nat -> Z -> Z + sock; create6 : nat -> Z -> Z + sock; ipv6_mod_enabled : bool }.

(** From [retry:] on: the result, the new sockets and what happened. *)
Fixpoint create_sockets (u : udp_creation) (fuel : nat) (port : Z) (retries : nat) : option (Z * option (sock * option sock) * list sock_event) :=
  match fuel with
  | O => None
  | S f =>
      match create4 u retries port with
      | inl err => Some (err, None, [])
      | inr new4 =>
          if ipv6 && ipv6_mod_enabled u then
            match create6 u retries (sk_sport new4) with
            | inl err =>
                if (err =? - EADDRINUSE) && (port =? 0) && (retries <? 100)%nat then
                  match create_sockets u f port (S retries) with
                  | Some (ret, socks, evs) => Some (ret, socks, Created new4 :: Released new4 :: evs)
                  | None => None
                  end
                else Some (err, None, [Created new4; Released new4])
            | inr new6 => Some (0, Some (new4, Some new6), [Created new4; Created new6])
            end
          else Some (0, Some (new4, None), [Created new4])
      end
  end.

(** [net] says whether the network namespace still exists.  The loop ends within 101 attempts. *)
Definition wg_socket_init (u : udp_creation) (net : bool) (wg : wg_socks) (port : Z) : option (Z * wg_socks * list sock_event) :=
  if negb net then Some (- ENONET, wg, [])
  else
    match create_sockets u 101 port 0 with
    | Some (ret, Some (new4, new6), evs) => let '(wg, evs') := wg_socket_reinit wg (Some new4) new6 in Some (0, wg, evs ++ evs')
    | Some (ret, None, evs) => Some (ret, wg, evs)
    | None => None
    end.

(** * Reachable states *)

Inductive sock_op :=
| OpSet (ep : endpoint)
| OpFromSkb (skb : in_skb)
| OpClear
| OpSend (net : stack) (wg : sockets) (skb_len ds : Z).

Definition run_op (peer : peer_sock) (op : sock_op) : peer_sock :=
  match op with
  | OpSet ep => wg_socket_set_peer_endpoint peer ep
  | OpFromSkb skb => wg_socket_set_peer_endpoint_from_skb peer skb
  | OpClear => wg_socket_clear_peer_endpoint_src peer
  | OpSend net wg skb_len ds => let '(_, peer, _) := wg_socket_send_skb_to_peer net wg peer skb_len ds in peer
  end.

(** A new peer, zeroed. *)
Definition new_sock : peer_sock := PeerSock EpNone None 0.

(** ** What the operations promise *)

(** Family, address and port, and the local address. *)
Definition dest (ep : endpoint) : option (bool * Z * Z) :=
  match ep with EpNone => None | Ep4 p a _ _ => Some (false, a, p) | Ep6 p _ a _ _ => Some (true, a, p) end.
Definition source (ep : endpoint) : Z := match ep with EpNone => 0 | Ep4 _ _ s _ => s | Ep6 _ _ _ _ s => s end.

(** The endpoint that was set last. *)
Definition takes (ep : endpoint) : bool := match ep with EpNone => false | Ep4 _ _ _ _ => true | Ep6 _ _ _ _ _ => ipv6 end.
Definition last_ep (ops : list sock_op) : endpoint :=
  fold_left (fun cur op =>
    match op with
    | OpSet ep => if takes ep then ep else cur
    | OpFromSkb skb => if takes (wg_socket_endpoint_from_skb skb).2 then (wg_socket_endpoint_from_skb skb).2 else cur
    | _ => cur
    end) ops EpNone.

(** The route lookup reports errors as negative numbers. *)
Definition stack_ok (net : stack) : Prop := forall fl err, lookup_route net fl = inl err -> err < 0.

(** The peer goes on to use the last endpoint, with its source address or none, and a cached
    route belongs to the present source address. *)
Record sock_inv (ep : endpoint) (peer : peer_sock) : Prop := {
  inv_dest : dest (ps_endpoint peer) = dest ep;
  inv_source : source (ps_endpoint peer) = 0 \/ source (ps_endpoint peer) = source ep;
  inv_cache : forall rt saddr, ps_cache peer = Some (rt, saddr) -> saddr = source (ps_endpoint peer)
}.

Lemma endpoint_eq_spec a b : endpoint_eq a b = true -> dest a = dest b /\ source a = source b.
Proof. destruct a, b; cbn; try done; intros E; rewrite !andb_true_iff, !Z.eqb_eq in E; by destruct E as [[[-> ->] ?] ?]; subst. Qed.

Lemma set_endpoint_inv ep peer new : sock_inv ep peer -> sock_inv (if takes new then new else ep) (wg_socket_set_peer_endpoint peer new).
Proof.
  intros [D S C]. unfold wg_socket_set_peer_endpoint. destruct (endpoint_eq new (ps_endpoint peer)) eqn:E.
  - apply endpoint_eq_spec in E as [E1 E2]. destruct (takes new); [constructor; [by rewrite E1|right; by rewrite E2|done]|by constructor].
  - destruct new; cbn [takes]; [done|constructor; [done|by right|done]|]. destruct ipv6; [|done]. constructor; [done|by right|done].
Qed.

Lemma from_skb_ret skb : let '(ret, ep) := wg_socket_endpoint_from_skb skb in if ret =? 0 then takes ep = true else takes ep = false /\ ret < 0.
Proof. unfold wg_socket_endpoint_from_skb. destruct (skb_protocol skb =? ETH_P_IP); [done|]. unfold takes. by destruct ipv6, (skb_protocol skb =? ETH_P_IPV6). Qed.

(** What a transmission leaves behind. *)
Definition send_post (ep : endpoint) (net : stack) (wg : sockets) (peer : peer_sock) (skb_len ds : Z) (res : Z * peer_sock * option sent) : Prop :=
  let '(ret, peer', out) := res in
  sock_inv ep peer' /\ (stack_ok net -> (ret = 0 <-> out <> None)) /\ tx_bytes peer' = (if ret =? 0 then u64 (tx_bytes peer + skb_len) else tx_bytes peer) /\
  forall o, out = Some o -> Some (s_v6 o, s_daddr o, s_dport o) = dest ep /\ s_saddr o = source (ps_endpoint peer') /\
    s_mark o = fwmark wg /\ s_ds o = ds /\ Some (s_sport o) = (if s_v6 o then sport6 wg else sport4 wg).

(** The end of every path. *)
Ltac send_leaf D S C :=
  unfold send_post; cbn [content dst_cache_set dst_cache_reset tx_bytes ps_endpoint ps_cache]; split; [|split; [|split]];
  [constructor; cbn [ps_endpoint ps_cache dest source]; [exact D|first [exact S|by left|by right]|intros ? ? Hc; first [by eapply C|congruence]]
  |intros Hok; split; [done || (intros ->; match goal with E : lookup_route _ _ = inl 0 |- _ => apply Hok in E; lia end)|done || (intros []; done)]
  |done
  |intros o Eo; first [discriminate Eo|injection Eo as <-; cbn; repeat split; congruence]].

Lemma send4_inv ep net wg peer skb_len ds p a s i : sock_inv ep peer -> ps_endpoint peer = Ep4 p a s i -> send_post ep net wg peer skb_len ds (wg_socket_send_skb_to_peer net wg peer skb_len ds).
Proof.
  intros [D S C] E. unfold wg_socket_send_skb_to_peer. rewrite E in *. cbn [dest source] in D, S, C. unfold send4.
  destruct (sport4 wg) as [sport|] eqn:Es; [|send_leaf D S C].
  destruct (dst_cache_get net (Some (ps_cache peer))) as [[rt saddr]|] eqn:Eg.
  { assert (Ec : ps_cache peer = Some (rt, saddr)) by (cbn in Eg; destruct (ps_cache peer) as [[r' s']|]; [|done]; destruct (usable net r'); [congruence|done]).
    apply C in Ec as Es'. subst saddr. send_leaf D S C. }
  destruct (confirm_addr net s); cbn [negb].
  - destruct (lookup_route net (Flow s a sport p (fwmark wg) 0)) as [err|r] eqn:R; destruct (negb (i =? 0) && _).
    all: try destruct (lookup_route net (Flow 0 a sport p (fwmark wg) 0)) as [err'|r'] eqn:R'; send_leaf D S C.
  - destruct (lookup_route net (Flow 0 a sport p (fwmark wg) 0)) as [err|r] eqn:R; cbn [negb Z.eqb andb]; send_leaf D S C.
Qed.

Lemma send6_inv ep net wg peer skb_len ds p f a sc s : sock_inv ep peer -> ps_endpoint peer = Ep6 p f a sc s -> send_post ep net wg peer skb_len ds (wg_socket_send_skb_to_peer net wg peer skb_len ds).
Proof.
  intros [D S C] E. unfold wg_socket_send_skb_to_peer. rewrite E in *. cbn [dest source] in D, S, C. unfold send6.
  destruct ipv6; cbn [negb]; [|send_leaf D S C]. destruct (sport6 wg) as [sport|] eqn:Es; [|send_leaf D S C].
  destruct (dst_cache_get net (Some (ps_cache peer))) as [[rt saddr]|] eqn:Eg.
  { assert (Ec : ps_cache peer = Some (rt, saddr)) by (cbn in Eg; destruct (ps_cache peer) as [[r' s']|]; [|done]; destruct (usable net r'); [congruence|done]).
    apply C in Ec as Es'. subst saddr. send_leaf D S C. }
  destruct (negb (s =? 0) && _); [destruct (lookup_route net (Flow 0 a sport p (fwmark wg) sc)) as [err|r] eqn:R|destruct (lookup_route net (Flow s a sport p (fwmark wg) sc)) as [err|r] eqn:R]; send_leaf D S C.
Qed.

Lemma send_inv ep net wg peer skb_len ds : sock_inv ep peer -> send_post ep net wg peer skb_len ds (wg_socket_send_skb_to_peer net wg peer skb_len ds).
Proof.
  intros H. destruct (ps_endpoint peer) as [|p a s i|p f a sc s] eqn:E; [|by eapply send4_inv|by eapply send6_inv].
  destruct H as [D S C]. unfold wg_socket_send_skb_to_peer. rewrite E in *. cbn [dest source] in *. send_leaf D S C.
Qed.

Lemma run_inv ops : sock_inv (last_ep ops) (fold_left run_op ops new_sock).
Proof.
  induction ops as [|op ops IH] using rev_ind; [constructor; [done|by left|done]|]. rewrite fold_left_app. unfold last_ep in *. rewrite fold_left_app. cbn [fold_left].
  set (ep := fold_left _ ops EpNone) in *. set (peer := fold_left run_op ops new_sock) in *. destruct op as [new|skb| |net wg l ds]; cbn [run_op].
  - by apply set_endpoint_inv.
  - unfold wg_socket_set_peer_endpoint_from_skb. pose proof (from_skb_ret skb) as F. destruct (wg_socket_endpoint_from_skb skb) as [ret new]. cbn [snd]. destruct (ret =? 0); [by apply set_endpoint_inv|].
    by destruct F as [-> _].
  - destruct IH as [D S C]. unfold wg_socket_clear_peer_endpoint_src. constructor; cbn [ps_endpoint ps_cache]; [by destruct (ps_endpoint peer)|left; by destruct (ps_endpoint peer)|done].
  - pose proof (send_inv ep net wg peer l ds IH) as P. destruct (wg_socket_send_skb_to_peer net wg peer l ds) as [[ret peer'] out]. apply P.
Qed.

(** A fresh IPv4 endpoint keeps the source address of the packet that brought it as long as the
    address and the interface are still those. *)
Lemma send4_sticky net wg peer skb_len ds p a s i sport r : ps_endpoint peer = Ep4 p a s i -> (forall rt saddr, ps_cache peer = Some (rt, saddr) -> saddr = s) -> sport4 wg = Some sport ->
  confirm_addr net s = true -> lookup_route net (Flow s a sport p (fwmark wg) 0) = inr r -> rt_ifindex r = i ->
  exists o, (wg_socket_send_skb_to_peer net wg peer skb_len ds).2 = Some o /\ s_saddr o = s.
Proof.
  intros E C Es Hc R Hi. unfold wg_socket_send_skb_to_peer. rewrite E. unfold send4. rewrite Es. destruct (dst_cache_get net (Some (ps_cache peer))) as [[rt saddr]|] eqn:Eg.
  - assert (Ec : ps_cache peer = Some (rt, saddr)) by (cbn in Eg; destruct (ps_cache peer) as [[r' s']|]; [|done]; destruct (usable net r'); [congruence|done]). apply C in Ec. subst saddr. by eexists.
  - rewrite Hc. cbn [negb]. rewrite R, Hi, Z.eqb_refl, andb_false_r. by eexists.
Qed.

(** ** Sockets *)

Fixpoint created (evs : list sock_event) : list sock :=
  match evs with [] => [] | Created s :: r => s :: created r | Released _ :: r => created r end.
Fixpoint released (evs : list sock_event) : list sock :=
  match evs with [] => [] | Created _ :: r => released r | Released s :: r => s :: released r end.

Lemma create_sockets_spec u port fuel : forall retries, (retries + fuel = 101)%nat -> (0 < fuel)%nat ->
  exists ret socks evs, create_sockets u fuel port retries = Some (ret, socks, evs) /\ (length (created evs) <= 2 * fuel)%nat /\
    match socks with
    | Some (new4, new6) => ret = 0 /\ created evs = released evs ++ new4 :: (match new6 with Some s => [s] | None => [] end)
    | None => created evs = released evs
    end.
Proof.
  induction fuel as [|f IH]; intros retries Hr Hf; [lia|]. cbn [create_sockets]. destruct (create4 u retries port) as [err|new4]; [eexists _, _, _; split; [done|]; cbn; split; [lia|done]|].
  destruct (ipv6 && ipv6_mod_enabled u); [|eexists _, _, _; split; [done|]; cbn; split; [lia|done]].
  destruct (create6 u retries (sk_sport new4)) as [err|new6]; [|eexists _, _, _; split; [done|]; cbn; split; [lia|done]].
  destruct (_ && _) eqn:E; [|eexists _, _, _; split; [done|]; cbn; split; [lia|done]]. apply andb_true_iff in E as [_ E%Nat.ltb_lt].
  destruct (IH (S retries)) as (ret & socks & evs & -> & Hl & Hs); [lia..|]. eexists _, _, _. split; [done|]. cbn [created released length]. split; [lia|].
  destruct socks as [[n4 n6]|]; [destruct Hs as [-> ->]; done|by rewrite Hs].
Qed.

End Socket.

Lemma socket_init_total ipv6 u net wg port : exists ret wg' evs, wg_socket_init ipv6 u net wg port = Some (ret, wg', evs).
Proof.
  unfold wg_socket_init. destruct net; cbn [negb]; [|by eexists _, _, _].
  destruct (create_sockets_spec ipv6 (fun _ _ => 0) u port 101 0) as (ret & socks & evs & -> & _); [done|lia|]. destruct socks as [[n4 n6]|]; by eexists _, _, _.
Qed.

(** * The theorems *)



(** C34: Opening the sockets ends after at most 101 attempts, whatever the
    network stack answers.  On success both new sockets belong to the device,
    the old ones are released and the port is that of the new IPv4 socket; on
    failure the device is unchanged and everything created on the way is released. *)
Theorem socket_init_safe ipv6 u net wg port :
  exists ret wg' evs, wg_socket_init ipv6 u net wg port = Some (ret, wg', evs) /\ (length (created evs) <= 202)%nat /\
    let owned w := (match wg_sock4 w with Some s => [s] | None => [] end) ++ (match wg_sock6 w with Some s => [s] | None => [] end) in
    (owned wg ++ created evs ≡ₚ owned wg' ++ released evs) /\
    (wg' = wg \/ ret = 0 /\ exists s4, wg_sock4 wg' = Some s4 /\ incoming_port wg' = sk_sport s4 /\ s4 ∈ created evs).
Proof.
  unfold wg_socket_init. destruct net; cbn [negb]; [|by eexists _, _, _; split; [done|]; cbn; split; [lia|split; [by rewrite !app_nil_r|by left]]].
  destruct (create_sockets_spec ipv6 (fun _ _ => 0) u port 101 0) as (ret & socks & evs & -> & Hl & Hs); [done|lia|]. destruct socks as [[n4 n6]|].
  - destruct Hs as [-> Hs]. eexists _, _, _. split; [reflexivity|]. assert (Ca : forall a b, created (a ++ b) = created a ++ created b) by (intros a b; induction a as [|[] a IH]; cbn; [done|by rewrite IH|done]).
    assert (Ra : forall a b, released (a ++ b) = released a ++ released b) by (intros a b; induction a as [|[] a IH]; cbn; [done|done|by rewrite IH]).
    rewrite !Ca, !Ra. assert (E4 : forall s, created (sock_free s) = [] /\ released (sock_free s) = match s with Some s => [s] | None => [] end) by (by intros []).
    destruct (E4 (wg_sock4 wg)) as [-> ->]. destruct (E4 (wg_sock6 wg)) as [-> ->]. cbn [wg_sock4 wg_sock6 incoming_port app]. rewrite !app_nil_r. split; [lia|]. split.
    + rewrite Hs. set (o4 := match wg_sock4 wg with Some s => [s] | None => [] end). set (o6 := match wg_sock6 wg with Some s => [s] | None => [] end). set (x6 := match n6 with Some s => [s] | None => [] end). solve_Permutation.
    + right. split; [done|]. exists n4. rewrite Hs. ands; try done. apply elem_of_app. right. left.
  - eexists _, _, _. split; [reflexivity|]. split; [lia|]. split; [by rewrite Hs|by left].
Qed.
