(* ===== verification/Peer.v ===== *)
(** * The life of a peer ([src/peer.c])

    Creation, death and destruction of the peers of a device, with everything
    that refers to a peer: the list of peers, the public-key table, the
    allowed-address table, the index table, the references that the data path
    holds and the readers that are in an RCU read-side critical section.  A
    peer is its address in a heap; an access to an address that is not
    allocated is [None].

    A removal waits for the readers ([synchronize_net]) between marking the
    peer dead and destroying what belongs to it, and the memory is released
    after a second grace period ([call_rcu]).  The step relation interleaves
    these two halves with the data path. *)

From S2P Require Import Prelude Messages IpBits Trie AllowedIps AllowedIpsSpec PeerLookup Socket.
From stdpp Require Import gmap gmultiset list fin_maps.
#[local] Open Scope Z_scope.

(** ** State *)

(** What user space configures, and what it reads. *)
Record peer_conf := PeerConf {
  pc_preshared_key : list Z;
  pc_sock : peer_sock;
  pc_keepalive : Z;               (* [persistent_keepalive_interval] *)
  pc_advanced_security : bool
}.
Record peer_stat := PeerStat { st_rx_bytes : Z; st_walltime_sec : Z; st_walltime_nsec : Z }.

Record wg_peer := WgPeer {
  wp_remote_static : list Z;
  wp_is_dead : bool;
  wp_refcount : Z;
  wp_internal_id : Z;
  wp_keypairs : list Z;           (* the index entries of its keypairs *)
  wp_timers : list Z;             (* the timers that are pending *)
  wp_napi : bool;                 (* enabled and on the device's list *)
  wp_staged : list Z;             (* [staged_packet_queue] *)
  wp_conf : peer_conf;
  wp_stat : peer_stat
}.

Definition set_dead (x : wg_peer) : wg_peer :=
  WgPeer (wp_remote_static x) true (wp_refcount x) (wp_internal_id x) (wp_keypairs x) (wp_timers x) (wp_napi x) (wp_staged x) (wp_conf x) (wp_stat x).
Definition set_ref (n : Z) (x : wg_peer) : wg_peer :=
  WgPeer (wp_remote_static x) (wp_is_dead x) n (wp_internal_id x) (wp_keypairs x) (wp_timers x) (wp_napi x) (wp_staged x) (wp_conf x) (wp_stat x).
Definition set_keypairs (l : list Z) (x : wg_peer) : wg_peer :=
  WgPeer (wp_remote_static x) (wp_is_dead x) (wp_refcount x) (wp_internal_id x) l (wp_timers x) (wp_napi x) (wp_staged x) (wp_conf x) (wp_stat x).
Definition set_timers (l : list Z) (x : wg_peer) : wg_peer :=
  WgPeer (wp_remote_static x) (wp_is_dead x) (wp_refcount x) (wp_internal_id x) (wp_keypairs x) l (wp_napi x) (wp_staged x) (wp_conf x) (wp_stat x).
Definition set_napi (b : bool) (x : wg_peer) : wg_peer :=
  WgPeer (wp_remote_static x) (wp_is_dead x) (wp_refcount x) (wp_internal_id x) (wp_keypairs x) (wp_timers x) b (wp_staged x) (wp_conf x) (wp_stat x).
Definition set_staged (l : list Z) (x : wg_peer) : wg_peer :=
  WgPeer (wp_remote_static x) (wp_is_dead x) (wp_refcount x) (wp_internal_id x) (wp_keypairs x) (wp_timers x) (wp_napi x) l (wp_conf x) (wp_stat x).
Definition set_conf (c : peer_conf) (x : wg_peer) : wg_peer :=
  WgPeer (wp_remote_static x) (wp_is_dead x) (wp_refcount x) (wp_internal_id x) (wp_keypairs x) (wp_timers x) (wp_napi x) (wp_staged x) c (wp_stat x).

(** A reader: the peers it may have found since it began, and those it has
    seen alive. *)
Record reader := Reader { rd_sees : gset Z; rd_checked : gset Z }.

Record world := World {
  mem : gmap Z wg_peer;                  (* the allocated peers *)
  peer_list : list Z;
  num_peers : Z;
  peer_counter : Z;
  peer_allowedips : table;
  peer_hashtable : pubkey_hashtable;
  index_table : index_hashtable;
  readers : gmap Z reader;               (* RCU read-side critical sections *)
  rcu_queue : list (Z * gset Z)          (* [call_rcu]: the readers it waits for *)
}.

Definition set_mem (m : gmap Z wg_peer) (w : world) : world :=
  World m (peer_list w) (num_peers w) (peer_counter w) (peer_allowedips w) (peer_hashtable w) (index_table w) (readers w) (rcu_queue w).
Definition set_list (l : list Z) (w : world) : world :=
  World (mem w) l (num_peers w) (peer_counter w) (peer_allowedips w) (peer_hashtable w) (index_table w) (readers w) (rcu_queue w).
Definition set_num (n : Z) (w : world) : world :=
  World (mem w) (peer_list w) n (peer_counter w) (peer_allowedips w) (peer_hashtable w) (index_table w) (readers w) (rcu_queue w).
Definition set_ips (t : table) (w : world) : world :=
  World (mem w) (peer_list w) (num_peers w) (peer_counter w) t (peer_hashtable w) (index_table w) (readers w) (rcu_queue w).
Definition set_pubkeys (t : pubkey_hashtable) (w : world) : world :=
  World (mem w) (peer_list w) (num_peers w) (peer_counter w) (peer_allowedips w) t (index_table w) (readers w) (rcu_queue w).
Definition set_ix (t : index_hashtable) (w : world) : world :=
  World (mem w) (peer_list w) (num_peers w) (peer_counter w) (peer_allowedips w) (peer_hashtable w) t (readers w) (rcu_queue w).
Definition set_readers (r : gmap Z reader) (w : world) : world :=
  World (mem w) (peer_list w) (num_peers w) (peer_counter w) (peer_allowedips w) (peer_hashtable w) (index_table w) r (rcu_queue w).
Definition set_rcu (q : list (Z * gset Z)) (w : world) : world :=
  World (mem w) (peer_list w) (num_peers w) (peer_counter w) (peer_allowedips w) (peer_hashtable w) (index_table w) (readers w) q.

(** An access to a peer. *)
Definition on_peer (p : Z) (f : wg_peer -> wg_peer) (w : world) : option world :=
  match mem w !! p with Some x => Some (set_mem (<[p := f x]> (mem w)) w) | None => None end.

(** ** Operations *)

Section Operations.

(** The keyed hash of the public-key table, and the address of the member
    [handshake.entry] of a peer. *)
Context (siphash : list Z -> Z) (handshake_entry : Z -> Z).

(** A new peer at the address the allocator returned; the cookie, the queues
    and the locks start as their own components' initial states.
    [INIT_LIST_HEAD] leaves the new peer an empty list of allowed addresses. *)
Definition wg_peer_create (w : world) (alloc : option Z) (dst_cache_ok : bool) (public_key : list Z) (preshared_key : option (list Z)) : (Z + Z) * world :=
  if MAX_PEERS_PER_DEVICE <=? num_peers w then (inl (- ENOMEM), w)
  else
    match alloc with
    | None => (inl (- ENOMEM), w)
    | Some a =>
        if negb dst_cache_ok then (inl (- ENOMEM), w)
        else
          let id := u64 (peer_counter w + 1) in
          let psk := default (zeros NOISE_SYMMETRIC_KEY_LEN) preshared_key in
          let peer := WgPeer public_key false 1 id [] [] true [] (PeerConf psk (PeerSock EpNone None 0) 0 false) (PeerStat 0 0 0) in
          let ix := index_table w in
          (inr a, World (<[a := peer]> (mem w)) (peer_list w ++ [a]) (num_peers w + 1) id
                    (set_lists (delete a) (peer_allowedips w)) (wg_pubkey_hashtable_add siphash (peer_hashtable w) a public_key)
                    (IndexTable (<[handshake_entry a := IndexEntry (Some a) INDEX_HASHTABLE_HANDSHAKE 0]> (ix_entries ix)) (ix_heads ix))
                    (readers w) (rcu_queue w))
    end.

Definition wg_peer_get_maybe_zero (w : world) (peer : option Z) : option (option Z * world) :=
  match peer with
  | None => Some (None, w)
  | Some p =>
      match mem w !! p with
      | None => None
      | Some x => if wp_refcount x =? 0 then Some (None, w)
                  else Some (Some p, set_mem (<[p := set_ref (wp_refcount x + 1) x]> (mem w)) w)
      end
  end.

Definition wg_peer_get (w : world) (p : Z) : option world := on_peer p (fun x => set_ref (wp_refcount x + 1) x) w.

(** The last reference is gone: out of the index table, staged packets
    dropped, memory handed to RCU. *)
Definition kref_release (p : Z) (w : world) : option world :=
  w ← on_peer p (set_staged []) (set_ix (wg_index_hashtable_remove (index_table w) (handshake_entry p)) w);
  Some (set_rcu (rcu_queue w ++ [(p, dom (readers w))]) w).

Definition wg_peer_put (w : world) (peer : option Z) : option world :=
  match peer with
  | None => Some w
  | Some p =>
      match mem w !! p with
      | None => None
      | Some x =>
          let w := set_mem (<[p := set_ref (wp_refcount x - 1) x]> (mem w)) w in
          if wp_refcount x - 1 =? 0 then kref_release p w else Some w
      end
  end.

(** Zeroed and freed: the callback leaves the queue. *)
Definition rcu_release (p : Z) (w : world) : option world :=
  match mem w !! p with
  | None => None
  | Some _ => Some (set_rcu (filter (fun e => e.1 <> p) (rcu_queue w)) (set_mem (delete p (mem w)) w))
  end.

Definition peer_make_dead (p : Z) (w : world) : option world :=
  let w := set_list (filter (fun q => q <> p) (peer_list w)) w in
  '(_, t) ← wg_allowedips_remove_by_peer p (peer_allowedips w);
  let w := set_pubkeys (wg_pubkey_hashtable_remove (peer_hashtable w) p) (set_ips t w) in
  on_peer p set_dead w.

(** [wg_noise_keypairs_clear]: each keypair leaves the index table. *)
Definition keypairs_clear (p : Z) (w : world) : option world :=
  match mem w !! p with
  | None => None
  | Some x => Some (set_mem (<[p := set_keypairs [] x]> (mem w))
                      (set_ix (fold_left wg_index_hashtable_remove (wp_keypairs x) (index_table w)) w))
  end.

(** [wg_timers_stop], and [napi_disable] with [netif_napi_del]; the flushes of
    the work queues wait and change nothing here. *)
Definition peer_remove_after_dead (p : Z) (w : world) : option world :=
  w ← keypairs_clear p w;
  w ← on_peer p (set_timers []) w;
  w ← on_peer p (set_napi false) w;
  wg_peer_put (set_num (num_peers w - 1) w) (Some p).

(** [synchronize_net] is between the two. *)
Definition wg_peer_remove (w : world) (peer : option Z) : option world :=
  match peer with
  | None => Some w
  | Some p => w ← peer_make_dead p w; peer_remove_after_dead p w
  end.

(** The loops of [wg_peer_remove_all]: each peer of the list dies, and, after
    the grace period, each of them is destroyed. *)
Definition peers_each (f : Z -> world -> option world) (l : list Z) (w : world) : option world :=
  fold_left (fun r p => r ≫= f p) l (Some w).

Definition remove_all_begin (w : world) : option world :=
  '(_, t) ← wg_allowedips_free (peer_allowedips w);
  peers_each peer_make_dead (peer_list w) (set_ips t w).

Definition wg_peer_remove_all (w : world) : option world :=
  w' ← remove_all_begin w; peers_each peer_remove_after_dead (peer_list w) w'.

(** ** What a reader can find *)

(** The peers that the three tables lead to. *)
Definition reachable_peers (w : world) : gset Z :=
  list_to_set (concat (map snd (map_to_list (pk_heads (peer_hashtable w))))) ∪
  list_to_set (omap (fun e => peer e.2) (map_to_list (heap (peer_allowedips w)))) ∪
  list_to_set (omap (fun e => ix_entries (index_table w) !! e ≫= ie_peer) (concat (map snd (map_to_list (ix_heads (index_table w)))))).

(** A peer that becomes reachable can be found by the readers there are. *)
Definition publish (p : Z) (w : world) : world :=
  set_readers ((fun r => Reader ({[p]} ∪ rd_sees r) (rd_checked r)) <$> readers w) w.

(** ** The step relation *)

(** The references that contexts hold, and the removal in progress: who holds
    [device_update_lock] for it, the dead peers and the readers waited for. *)
Record life := Life { dev : world; held : gmultiset Z; locked : bool; dying : list Z; waits : gset Z }.

Inductive event :=
| EvCreate (alloc : option Z) (dst_cache_ok : bool) (public_key : list Z) (preshared_key : option (list Z))
| EvAllowedip (remove v6 : bool) (ip : list Z) (c p : Z)
| EvRemoveBegin (p : Z)
| EvRemoveAllBegin
| EvRemoveEnd
| EvReadBegin (r : Z)
| EvReadGet (r p : Z)
| EvReadCheck (r p : Z)
| EvAddKeypair (r p k : Z)
| EvModTimer (r p t : Z)
| EvReadEnd (r : Z)
| EvIndex (p : Z) (rnd : list Z)
| EvStage (p skb : Z)
| EvGet (p : Z)
| EvPut (p : Z)
| EvRelease (p : Z).

Definition refs_of (w : world) (p : Z) : bool := match mem w !! p with Some x => negb (wp_refcount x =? 0) | None => false end.

(** When a context can do it.  A creation follows a failed lookup of the key
    and gets unused memory; the other configuration calls have a peer of the
    list; whoever writes to a peer holds a reference; a grace period ends
    when its readers have. *)
Definition enabled (e : event) (s : life) : Prop :=
  let w := dev s in
  match e with
  | EvCreate alloc _ pk _ =>
      locked s = false /\ wg_pubkey_hashtable_lookup siphash (peer_hashtable w) pk (refs_of w) = None /\
      match alloc with
      | Some a => mem w !! a = None /\ forall p x, mem w !! p = Some x -> handshake_entry a ∉ wp_keypairs x
      | None => True
      end
  | EvAllowedip _ v6 ip c p => locked s = false /\ p ∈ peer_list w /\ len ip = wbits v6 / 8 /\ all_bytes ip /\ 0 <= c < 256
  | EvRemoveBegin p => locked s = false /\ p ∈ peer_list w
  | EvRemoveAllBegin => locked s = false
  | EvRemoveEnd => locked s = true /\ waits s = ∅
  | EvReadBegin r => readers w !! r = None
  | EvReadGet r p => exists v, readers w !! r = Some v /\ p ∈ rd_sees v
  | EvReadCheck r p | EvModTimer r p _ => is_Some (readers w !! r) /\ p ∈ held s
  | EvAddKeypair r p k => is_Some (readers w !! r) /\ p ∈ held s /\
      forall q x, mem w !! q = Some x -> k <> handshake_entry q /\ k ∉ wp_keypairs x
  | EvReadEnd r => is_Some (readers w !! r)
  | EvIndex p rnd => p ∈ held s /\ wg_index_hashtable_insert (index_table w) (handshake_entry p) rnd <> None
  | EvStage p _ | EvGet p | EvPut p => p ∈ held s
  | EvRelease p => exists ws, (p, ws) ∈ rcu_queue w /\ ws = ∅
  end.

(** Whether the reader has seen the peer alive. *)
Definition has_checked (w : world) (r p : Z) : bool :=
  match readers w !! r with Some v => bool_decide (p ∈ rd_checked v) | None => false end.

Definition with_dev (s : life) (w : option world) : option life :=
  match w with Some w => Some (Life w (held s) (locked s) (dying s) (waits s)) | None => None end.
Definition end_reader (r : Z) (s : life) : life :=
  let w := dev s in
  Life (set_rcu (prod_map id (fun ws => ws ∖ {[r]}) <$> rcu_queue w) (set_readers (delete r (readers w)) w))
    (held s) (locked s) (dying s) (waits s ∖ {[r]}).

Definition exec (e : event) (s : life) : option life :=
  let w := dev s in
  match e with
  | EvCreate alloc dst pk psk =>
      let '(r, w) := wg_peer_create w alloc dst pk psk in
      with_dev s (Some (match r with inr a => publish a w | inl _ => w end))
  | EvAllowedip rm v6 ip c p =>
      '(_, t) ← AllowedIpsSpec.run_op (if rm then OpRemove v6 ip c (Some p) else OpInsert v6 ip c (Some p)) (peer_allowedips w);
      with_dev s (Some (publish p (set_ips t w)))
  | EvRemoveBegin p => w' ← peer_make_dead p w; Some (Life w' (held s) true [p] (dom (readers w)))
  | EvRemoveAllBegin => w' ← remove_all_begin w; Some (Life w' (held s) true (peer_list w) (dom (readers w)))
  | EvRemoveEnd => w' ← peers_each peer_remove_after_dead (dying s) w; Some (Life w' (held s) false [] ∅)
  | EvReadBegin r => with_dev s (Some (set_readers (<[r := Reader (reachable_peers w) ∅]> (readers w)) w))
  | EvReadGet r p =>
      '(got, w) ← wg_peer_get_maybe_zero w (Some p);
      Some (Life w (match got with Some p => {[+ p +]} ⊎ held s | None => held s end) (locked s) (dying s) (waits s))
  | EvReadCheck r p =>
      x ← mem w !! p;
      with_dev s (Some (if wp_is_dead x then w
                        else set_readers (alter (fun v => Reader (rd_sees v) ({[p]} ∪ rd_checked v)) r (readers w)) w))
  | EvAddKeypair r p k =>
      if has_checked w r p then
        w ← on_peer p (fun x => set_keypairs (k :: wp_keypairs x) x) w;
        let ix := index_table w in
        let ix := IndexTable (<[k := IndexEntry (Some p) INDEX_HASHTABLE_KEYPAIR 0]> (ix_entries ix)) (ix_heads ix) in
        with_dev s (Some (publish p (set_ix (wg_index_hashtable_replace ix (handshake_entry p) k).2 w)))
      else Some s
  | EvModTimer r p t =>
      if has_checked w r p then with_dev s (on_peer p (fun x => set_timers (t :: wp_timers x) x) w) else Some s
  | EvReadEnd r => Some (end_reader r s)
  | EvIndex p rnd =>
      match wg_index_hashtable_insert (index_table w) (handshake_entry p) rnd with
      | Some (_, ix) => with_dev s (Some (publish p (set_ix ix w)))
      | None => None
      end
  | EvStage p skb => with_dev s (on_peer p (fun x => set_staged (wp_staged x ++ [skb]) x) w)
  | EvGet p => w ← wg_peer_get w p; Some (Life w ({[+ p +]} ⊎ held s) (locked s) (dying s) (waits s))
  | EvPut p => w ← wg_peer_put w (Some p); Some (Life w (held s ∖ {[+ p +]}) (locked s) (dying s) (waits s))
  | EvRelease p => with_dev s (rcu_release p w)
  end.

(** A device without peers. *)
Definition no_peers (ans : list bool) : world :=
  World ∅ [] 0 0 (wg_allowedips_init ans) wg_pubkey_hashtable_alloc wg_index_hashtable_alloc ∅ [].

Inductive reach : life -> Prop :=
| reach_start ans : reach (Life (no_peers ans) ∅ false [] ∅)
| reach_step e s s' : reach s -> enabled e s -> exec e s = Some s' -> reach s'.

End Operations.

(** ** Invariant *)

Definition ref_at (w : world) (p : Z) : option Z := wp_refcount <$> mem w !! p.
Definition dead_at (w : world) (p : Z) : option bool := wp_is_dead <$> mem w !! p.
Definition key_at (w : world) (p : Z) : option (list Z) := wp_remote_static <$> mem w !! p.
Definition kps_at (w : world) (p : Z) : list Z := default [] (wp_keypairs <$> mem w !! p).

(** Nothing of the peer can run any more. *)
Definition idle (x : wg_peer) : bool :=
  match wp_keypairs x, wp_timers x, wp_napi x with [], [], false => true | _, _, _ => false end.
Definition idle_at (w : world) (p : Z) : option bool := idle <$> mem w !! p.

(** The peer an index entry leads to. *)
Definition owner (w : world) (e : Z) : option Z := ix_entries (index_table w) !! e ≫= ie_peer.

(** The references there should be. *)
Definition refs (s : life) (p : Z) : Z :=
  Z.of_nat (multiplicity p (held s)) + (if bool_decide (p ∈ peer_list (dev s) ++ dying s) then 1 else 0).

Section Invariant.
Context (siphash : list Z -> Z) (handshake_entry : Z -> Z).

Record refs_ok (w : world) (exp : Z -> Z) : Prop := {
  r_exp : forall p, 0 <= exp p /\ match ref_at w p with Some n => n = exp p | None => exp p = 0 end;
  r_nodup : NoDup (rcu_queue w).*1;
  r_rcu : forall p, p ∈ (rcu_queue w).*1 <-> ref_at w p = Some 0;
  r_entry : forall p, is_Some (ref_at w p) -> owner w (handshake_entry p) = Some p;
  r_kentry : forall p k, k ∈ kps_at w p -> owner w k = Some p;
  r_ix : forall e, linked (ix_heads (index_table w)) e -> exists p, owner w e = Some p /\
    ((e = handshake_entry p /\ exists n, ref_at w p = Some n /\ n <> 0) \/ e ∈ kps_at w p);
  r_sees : forall r v p, readers w !! r = Some v -> p ∈ rd_sees v -> is_Some (ref_at w p) /\ forall ws, (p, ws) ∈ rcu_queue w -> r ∈ ws;
  r_ws : forall p ws, (p, ws) ∈ rcu_queue w -> ws ⊆ dom (readers w)
}.

Record conf_ok (w : world) (lock : bool) (dyi : list Z) (wts : gset Z) : Prop := {
  c_nodup : NoDup (peer_list w ++ dyi);
  c_num : num_peers w = len (peer_list w ++ dyi);
  c_max : num_peers w <= MAX_PEERS_PER_DEVICE;
  c_lock : lock = false -> dyi = [];
  c_live : forall p, p ∈ peer_list w <-> dead_at w p = Some false;
  c_dying : forall p, p ∈ dyi -> dead_at w p = Some true;
  c_pk : exists m, pk_represents siphash (peer_hashtable w) m /\
    forall k p, m !! k = Some p <-> p ∈ peer_list w /\ key_at w p = Some k;
  c_ips : exists m, holds (peer_allowedips w) m /\ forall v q p, m v !! q = Some p -> p ∈ peer_list w;
  c_dead : forall p, dead_at w p = Some true -> p ∉ dyi -> idle_at w p = Some true;
  c_checked : forall r v p, readers w !! r = Some v -> p ∈ rd_checked v -> dead_at w p = Some true -> p ∈ dyi /\ r ∈ wts;
  c_waits : wts ⊆ dom (readers w)
}.

Definition life_ok (s : life) : Prop := refs_ok (dev s) (refs s) /\ conf_ok (dev s) (locked s) (dying s) (waits s).

(** ** Frames *)

(** What the references and the staged packets do not touch. *)
Definition clear (x : wg_peer) : wg_peer := set_ref 0 (set_staged [] x).
Definition same_peers (w w' : world) : Prop := forall p, clear <$> mem w' !! p = clear <$> mem w !! p.

Lemma via_clear {A} (f : wg_peer -> A) w w' : (forall x, f (clear x) = f x) -> same_peers w w' -> forall p, f <$> mem w' !! p = f <$> mem w !! p.
Proof.
  intros Hf Hs p. specialize (Hs p). destruct (mem w' !! p) as [x|], (mem w !! p) as [y|]; try done.
  cbn [fmap option_fmap option_map] in *. apply (inj Some) in Hs. apply (f_equal Some). rewrite <- (Hf x), <- (Hf y).
  by rewrite Hs.
Qed.

Lemma refs_ok_ext w w' exp exp' : (forall p, exp' p = exp p) -> (forall p, ref_at w' p = ref_at w p) -> (forall p, kps_at w' p = kps_at w p) ->
  rcu_queue w' = rcu_queue w -> index_table w' = index_table w -> readers w' = readers w -> refs_ok w exp -> refs_ok w' exp'.
Proof.
  intros He Hr Hk Hq Hi Hd []. split; unfold owner in *; rewrite ?Hq, ?Hi, ?Hd in *; try done.
  - intros p. by rewrite Hr, He.
  - intros p. by rewrite Hr.
  - intros p. rewrite Hr. auto.
  - intros p k. rewrite Hk. auto.
  - intros e Hl. destruct (r_ix0 e Hl) as (p & Ho & Hp). exists p. by rewrite Hr, Hk.
  - intros r v p. rewrite Hr. eauto.
Qed.

Lemma conf_ok_ext w w' lock dyi wts : same_peers w w' -> peer_list w' = peer_list w -> num_peers w' = num_peers w ->
  peer_hashtable w' = peer_hashtable w -> peer_allowedips w' = peer_allowedips w -> dom (readers w') = dom (readers w) ->
  (forall r v', readers w' !! r = Some v' -> exists v, readers w !! r = Some v /\ rd_checked v' = rd_checked v) ->
  conf_ok w lock dyi wts -> conf_ok w' lock dyi wts.
Proof.
  intros Hs Hl Hn Hh Hi Hdom Hr []. split; rewrite ?Hl, ?Hn, ?Hh, ?Hi, ?Hdom; try done.
  - intros p. unfold dead_at. rewrite (via_clear wp_is_dead w w') by done. apply c_live0.
  - intros p. unfold dead_at. rewrite (via_clear wp_is_dead w w') by done. apply c_dying0.
  - destruct c_pk0 as (m & Hm & Hk). exists m. split; [done|]. intros k p. unfold key_at.
    rewrite (via_clear wp_remote_static w w') by done. apply Hk.
  - intros p. unfold dead_at, idle_at. rewrite (via_clear wp_is_dead w w'), (via_clear idle w w') by done. apply c_dead0.
  - intros r v' p Hv' Hp. unfold dead_at. rewrite (via_clear wp_is_dead w w') by done.
    destruct (Hr r v' Hv') as (v & Hv & Hc). rewrite Hc in Hp. eauto.
Qed.

(** Writing to one peer. *)
Lemma same_peers_insert w p x y : mem w !! p = Some x -> clear y = clear x -> same_peers w (set_mem (<[p := y]> (mem w)) w).
Proof. intros Hx Hc q. cbn. rewrite lookup_insert. case_decide; [|done]. subst q. rewrite Hx. cbn. by rewrite Hc. Qed.

Lemma ref_at_insert w p y q : ref_at (set_mem (<[p := y]> (mem w)) w) q = if decide (p = q) then Some (wp_refcount y) else ref_at w q.
Proof. unfold ref_at. cbn. rewrite lookup_insert. by case_decide. Qed.

Lemma kps_at_same w w' p : same_peers w w' -> kps_at w' p = kps_at w p.
Proof. intros Hs. unfold kps_at. by rewrite (via_clear wp_keypairs w w'). Qed.

Lemma ref_pos w exp p : refs_ok w exp -> 0 < exp p -> exists x, mem w !! p = Some x /\ wp_refcount x = exp p.
Proof.
  intros [He _ _ _ _ _ _ _] Hp. specialize (He p) as [_ He]. unfold ref_at in He.
  destruct (mem w !! p) as [x|]; cbn in He; [eauto|lia].
Qed.

Lemma ref_not_queued w exp p ws : refs_ok w exp -> 0 < exp p -> (p, ws) ∉ rcu_queue w.
Proof.
  intros Ho Hp Hin. destruct (ref_pos w exp p Ho Hp) as (x & Hx & Hr). assert (p ∈ (rcu_queue w).*1) as Hq.
  { apply list_elem_of_fmap. by exists (p, ws). }
  apply (r_rcu _ _ Ho) in Hq. unfold ref_at in Hq. rewrite Hx in Hq. cbn in Hq. injection Hq as Hq. lia.
Qed.

Definition bump_at (p d : Z) (exp : Z -> Z) : Z -> Z := fun q => if decide (p = q) then exp q + d else exp q.

(** The count of a peer changes and stays positive. *)
Lemma reref_ok w exp p x d : refs_ok w exp -> mem w !! p = Some x -> wp_refcount x <> 0 -> 0 < exp p + d ->
  refs_ok (set_mem (<[p := set_ref (wp_refcount x + d) x]> (mem w)) w) (bump_at p d exp).
Proof.
  intros Ho Hx Hn Hd. assert (ref_at w p = Some (wp_refcount x)) as Hr by (unfold ref_at; by rewrite Hx).
  assert (wp_refcount x = exp p /\ 0 <= exp p) as [Hxe Hpos] by (pose proof (r_exp _ _ Ho p) as H; rewrite Hr in H; tauto).
  set (w' := set_mem _ w). assert (same_peers w w') as Hs by (by eapply same_peers_insert).
  assert (forall q, ref_at w' q = if decide (p = q) then Some (exp p + d) else ref_at w q) as Hr'.
  { intros q. unfold w'. rewrite ref_at_insert. cbn. by rewrite Hxe. }
  assert (forall q, is_Some (ref_at w' q) <-> is_Some (ref_at w q)) as Hsome.
  { intros q. rewrite Hr'. case_decide as D; [subst; rewrite Hr; split; eauto|done]. }
  destruct Ho as [He Hnd Hq Hen Hk Hix Hse Hws0]. split; try done.
  - intros q. unfold bump_at. rewrite Hr'. case_decide as D; [subst q; lia|apply He].
  - intros q. cbn. rewrite Hq, Hr'. case_decide as D; [subst q; rewrite Hr; split; intros [= E]; lia|done].
  - intros q Hq'. apply Hen. by apply Hsome.
  - intros q k. rewrite (kps_at_same w w') by done. apply Hk.
  - intros e Hl. destruct (Hix e Hl) as (q & Hoq & Hcase). exists q. split; [done|]. rewrite (kps_at_same w w') by done.
    destruct Hcase as [(-> & n & Hn' & Hz)|Hkp]; [left; split; [done|]|by right]. rewrite Hr'. case_decide as D; [|eauto].
    eexists. split; [done|]. lia.
  - intros r v q Hv Hsq. rewrite Hsome. exact (Hse r v q Hv Hsq).
Qed.

(** The last reference. *)
Lemma release_ok w exp p x : refs_ok w exp -> mem w !! p = Some x -> exp p = 1 -> kps_at w p = [] ->
  exists w', kref_release handshake_entry p (set_mem (<[p := set_ref 0 x]> (mem w)) w) = Some w' /\ refs_ok w' (bump_at p (-1) exp) /\ same_peers w w' /\
    peer_list w' = peer_list w /\ num_peers w' = num_peers w /\ peer_hashtable w' = peer_hashtable w /\
    peer_allowedips w' = peer_allowedips w /\ readers w' = readers w.
Proof.
  intros Ho Hx H1 Hkp. unfold kref_release, on_peer. cbn. rewrite lookup_insert_eq. cbn. rewrite insert_insert_eq.
  eexists. split; [reflexivity|]. set (w' := set_rcu _ _).
  assert (forall q, mem w' !! q = if decide (p = q) then Some (set_staged [] (set_ref 0 x)) else mem w !! q) as Hm by (intros q; apply lookup_insert).
  assert (same_peers w w') as Hs.
  { intros q. rewrite Hm. case_decide; [subst q; by rewrite Hx|done]. }
  assert (ref_at w p = Some 1) as Hr by (pose proof (r_exp _ _ Ho p) as [_ H]; unfold ref_at in *; rewrite Hx in *; cbn in *; by rewrite H, H1).
  assert (forall q, ref_at w' q = if decide (p = q) then Some 0 else ref_at w q) as Hr' by (intros q; unfold ref_at; rewrite Hm; by case_decide).
  assert (forall q, is_Some (ref_at w' q) <-> is_Some (ref_at w q)) as Hsome.
  { intros q. rewrite Hr'. case_decide as D; [subst; rewrite Hr; split; eauto|done]. }
  assert (forall ws, (p, ws) ∉ rcu_queue w) as Hnq by (intros ws; apply (ref_not_queued w exp); [done|lia]).
  assert ((rcu_queue w').*1 = (rcu_queue w).*1 ++ [p]) as Hq' by (cbn; by rewrite fmap_app).
  split; [|ands; done]. destruct Ho as [He Hnd Hq Hen Hk Hix Hse Hws0]. split; rewrite ?Hq'.
  - intros q. unfold bump_at. rewrite Hr'. case_decide as D; [subst q; lia|apply He].
  - apply NoDup_app. split; [done|]. split; [|apply NoDup_singleton]. intros q Hin ->%list_elem_of_singleton.
    apply Hq in Hin. congruence.
  - intros q. rewrite elem_of_app, list_elem_of_singleton, Hq, Hr'. case_decide as D; [subst q; rewrite Hr; naive_solver|naive_solver].
  - intros q Hq0. apply Hen. by apply Hsome.
  - intros q k. rewrite (kps_at_same w w') by done. apply Hk.
  - intros e [Hl Hne]%linked_del. destruct (Hix e Hl) as (q & Hoq & Hcase). exists q. split; [done|]. rewrite (kps_at_same w w') by done.
    destruct Hcase as [(-> & n & Hn' & Hz)|Hkq]; [left; split; [done|]|by right]. rewrite Hr', decide_False by congruence. eauto.
  - intros r v q Hv Hsq. rewrite Hsome. destruct (Hse r v q Hv Hsq) as [Hi Hws]. split; [done|].
    intros ws [Hin|Hin]%elem_of_app; [auto|]. apply list_elem_of_singleton in Hin as [= -> ->]. apply elem_of_dom. by exists v.
  - intros q ws [Hin|Hin]%elem_of_app; [by apply (Hws0 q ws)|]. by apply list_elem_of_singleton in Hin as [= -> ->].
Qed.

(** One reference less. *)
Lemma peer_put_ok w exp p : refs_ok w exp -> 0 < exp p -> (exp p = 1 -> kps_at w p = []) ->
  exists w', wg_peer_put handshake_entry w (Some p) = Some w' /\ refs_ok w' (bump_at p (-1) exp) /\ same_peers w w' /\
    peer_list w' = peer_list w /\ num_peers w' = num_peers w /\ peer_hashtable w' = peer_hashtable w /\
    peer_allowedips w' = peer_allowedips w /\ readers w' = readers w.
Proof.
  intros Ho Hp Hk. destruct (ref_pos w exp p Ho Hp) as (x & Hx & Hr). unfold wg_peer_put. rewrite Hx, Hr.
  destruct (Z.eqb_spec (exp p - 1) 0) as [H1|H1].
  - rewrite H1. apply release_ok; auto with lia.
  - eexists. split; [reflexivity|]. split; [|split; [|ands; done]].
    + change (exp p - 1) with (exp p + -1). rewrite <- Hr. apply reref_ok; (done || lia).
    + by eapply same_peers_insert.
Qed.

(** ** References and readers *)

Lemma held_pos (h : gmultiset Z) p : p ∈ h -> (0 < multiplicity p h)%nat.
Proof. exact (proj1 (elem_of_multiplicity p h)). Qed.

Lemma refs_held s p : p ∈ held s -> 0 < refs s p.
Proof. intros Hp%held_pos. unfold refs. case_bool_decide; lia. Qed.
Lemma refs_owned s p : p ∈ peer_list (dev s) ++ dying s -> 0 < refs s p.
Proof. intros Hp. unfold refs. rewrite bool_decide_eq_true_2 by done. lia. Qed.
Lemma refs_listed s p : p ∈ peer_list (dev s) -> 0 < refs s p.
Proof. intros Hp. apply refs_owned, elem_of_app. by left. Qed.

Lemma refs_get s w l wt p q : peer_list w = peer_list (dev s) ->
  refs (Life w ({[+ p +]} ⊎ held s) l (dying s) wt) q = bump_at p 1 (refs s) q.
Proof.
  intros Hl. unfold refs, bump_at. cbn [dev held dying]. rewrite Hl, multiplicity_disj_union, multiplicity_singleton. repeat case_decide; subst; try done; lia.
Qed.
Lemma refs_put s w l wt p q : peer_list w = peer_list (dev s) -> p ∈ held s ->
  refs (Life w (held s ∖ {[+ p +]}) l (dying s) wt) q = bump_at p (-1) (refs s) q.
Proof.
  intros Hl Hp%held_pos. unfold refs, bump_at. cbn [dev held dying]. rewrite Hl, multiplicity_difference, multiplicity_singleton.
  repeat case_decide; subst; try done; lia.
Qed.

(** A peer that is neither listed nor dying is dead and idle. *)
Lemma unowned_idle s p x : life_ok s -> mem (dev s) !! p = Some x -> p ∉ peer_list (dev s) ++ dying s -> wp_is_dead x = true /\ idle x = true.
Proof.
  intros [Hr Hc] Hx Hno. assert (p ∉ peer_list (dev s) /\ p ∉ dying s) as [Hl Hd] by (rewrite elem_of_app in Hno; tauto).
  assert (dead_at (dev s) p = Some (wp_is_dead x)) as Hdx by (unfold dead_at; by rewrite Hx).
  destruct (wp_is_dead x) eqn:E; [|destruct Hl; by apply (c_live _ _ _ _ Hc)]. split; [done|].
  pose proof (c_dead _ _ _ _ Hc p Hdx Hd) as Hi. unfold idle_at in Hi. rewrite Hx in Hi. by injection Hi.
Qed.

Lemma idle_no_keypairs x : idle x = true -> wp_keypairs x = [].
Proof. unfold idle. by destruct (wp_keypairs x). Qed.

Lemma last_held_idle s p : life_ok s -> p ∈ held s -> refs s p = 1 -> kps_at (dev s) p = [].
Proof.
  intros Hok Hp H1. pose proof Hp as Hm%held_pos. destruct (ref_pos _ _ p (proj1 Hok) ltac:(lia)) as (x & Hx & _).
  unfold kps_at. rewrite Hx. cbn. apply idle_no_keypairs, (unowned_idle s p x Hok Hx). unfold refs in H1. case_bool_decide; [lia|done].
Qed.

Lemma released_idle s p x : life_ok s -> mem (dev s) !! p = Some x -> wp_refcount x = 0 ->
  p ∉ held s /\ p ∉ peer_list (dev s) ++ dying s /\ wp_is_dead x = true /\ wp_keypairs x = [].
Proof.
  intros Hok Hx H0. pose proof (r_exp _ _ (proj1 Hok) p) as [_ He]. unfold ref_at in He. rewrite Hx in He. cbn in He.
  assert (p ∉ peer_list (dev s) ++ dying s) as Hno by (intros H%refs_owned; lia). split; [intros H%refs_held; lia|].
  split; [done|]. destruct (unowned_idle s p x Hok Hx Hno) as [Hd Hi]. split; [done|]. by apply idle_no_keypairs.
Qed.

(** ** What the tables lead to *)

Lemma linked_concat (t : gmap Z (list Z)) x : x ∈ concat (map snd (map_to_list t)) <-> linked t x.
Proof.
  rewrite list_elem_of_In, in_concat. split.
  - intros (l & Hl & Hx). apply in_map_iff in Hl as ([i l'] & <- & Hi%list_elem_of_In). apply elem_of_map_to_list in Hi.
    exists i. unfold bucket. rewrite Hi. by apply list_elem_of_In.
  - intros [i Hx]. unfold bucket in Hx. destruct (t !! i) as [l|] eqn:E; [|by apply not_elem_of_nil in Hx]. exists l. split; [|by apply list_elem_of_In].
    apply in_map_iff. exists (i, l). split; [done|]. apply list_elem_of_In. by apply elem_of_map_to_list.
Qed.

Lemma reachable_alive s p : life_ok s -> p ∈ reachable_peers (dev s) -> exists x, mem (dev s) !! p = Some x /\ 0 < wp_refcount x.
Proof.
  intros Hok Hp. pose proof Hok as [Hr Hc].
  assert (p ∈ peer_list (dev s) -> exists x, mem (dev s) !! p = Some x /\ 0 < wp_refcount x) as Hlisted.
  { intros Hl%refs_listed. destruct (ref_pos _ _ p Hr Hl) as (x & Hx & Hn). exists x. split; [done|lia]. }
  unfold reachable_peers in Hp. rewrite !elem_of_union, !elem_of_list_to_set in Hp. destruct Hp as [[Hp|Hp]|Hp].
  - apply linked_concat in Hp. destruct (c_pk _ _ _ _ Hc) as (m & [Hpk Hm] & Hml). destruct Hp as [i Hi].
    destruct (pk_place _ _ Hpk i p Hi) as (k & Hk & _). apply Hlisted, (Hml k p), Hm. split; [by exists i|done].
  - apply list_elem_of_omap in Hp as ([a nd] & Ha%elem_of_map_to_list & Hpe). cbn in Hpe.
    destruct (c_ips _ _ _ _ Hc) as (m & Hh & Hml). assert (a ∈ plist (peer_allowedips (dev s)) p) as Hin.
    { destruct Hh as (tr & Hi & _). apply (inv_list _ _ Hi). unfold hp. rewrite Ha. cbn. by rewrite Hpe. }
    destruct (allowedips_read_node_prefix _ m p a Hh Hin) as (? & v & ip & c & _ & _ & Hmp & _). by apply Hlisted, (Hml v (prefix_of_ip v ip c)).
  - apply list_elem_of_omap in Hp as (e & He%linked_concat & Hpe). destruct (r_ix _ _ Hr e He) as (q & Hq & Hcase).
    unfold owner in Hq. rewrite Hpe in Hq. injection Hq as ->. pose proof (r_exp _ _ Hr q) as Hexp.
    destruct Hcase as [(_ & n & Hn & Hz)|Hkp]; unfold ref_at, kps_at in *; destruct (mem (dev s) !! q) as [x|] eqn:Ex; cbn in *; try done.
    + exists x. split; [done|]. injection Hn as Hn. lia.
    + exists x. split; [done|]. destruct (decide (wp_refcount x = 0)) as [H0|]; [|lia].
      destruct (released_idle s q x Hok Ex H0) as (_ & _ & _ & E). rewrite E in Hkp. by apply not_elem_of_nil in Hkp.
    + by apply not_elem_of_nil in Hkp.
Qed.

(** ** Steps *)

Lemma ev_get_ok s p : life_ok s -> p ∈ held s ->
  exists s', exec siphash handshake_entry (EvGet p) s = Some s' /\ life_ok s'.
Proof.
  intros [Hr Hc] Hp. destruct (ref_pos _ _ p Hr (refs_held s p Hp)) as (x & Hx & Hn). pose proof (refs_held s p Hp).
  cbn. unfold wg_peer_get, on_peer. rewrite Hx. cbn. eexists. split; [reflexivity|]. split; cbn.
  - eapply refs_ok_ext; [..|apply (reref_ok _ _ p x 1 Hr Hx)]; try done; [|lia|lia]. intros q. by apply refs_get.
  - eapply conf_ok_ext; [..|exact Hc]; try done; [by eapply same_peers_insert|]. intros r v Hv. by exists v.
Qed.

Lemma ev_put_ok s p : life_ok s -> p ∈ held s ->
  exists s', exec siphash handshake_entry (EvPut p) s = Some s' /\ life_ok s'.
Proof.
  intros Hok Hp. pose proof Hok as [Hr Hc]. destruct (peer_put_ok _ _ p Hr (refs_held s p Hp)) as (w' & Hw & Hr' & Hs & Hl & Hnum & Hh & Hi & Hrd).
  { by apply last_held_idle. }
  cbn [exec]. rewrite Hw. eexists. split; [reflexivity|]. split; cbn.
  - eapply refs_ok_ext; [..|exact Hr']; try done. intros q. by apply refs_put.
  - eapply conf_ok_ext; [..|exact Hc]; try done; [by rewrite Hrd|]. intros r v Hv. rewrite Hrd in Hv. by exists v.
Qed.

(** Writes that leave the references and the keypairs alone. *)
Lemma write_ok s p x f : life_ok s -> mem (dev s) !! p = Some x -> clear (f x) = clear x -> wp_refcount (f x) = wp_refcount x ->
  life_ok (Life (set_mem (<[p := f x]> (mem (dev s))) (dev s)) (held s) (locked s) (dying s) (waits s)).
Proof.
  intros [Hr Hc] Hx Hf Hn. assert (same_peers (dev s) (set_mem (<[p := f x]> (mem (dev s))) (dev s))) as Hs by (by eapply same_peers_insert).
  split; cbn.
  - eapply refs_ok_ext; [..|exact Hr]; try done; intros q; [|by apply kps_at_same].
    rewrite ref_at_insert. case_decide; [|done]. subst q. unfold ref_at. rewrite Hx. cbn. by rewrite Hn.
  - eapply conf_ok_ext; [..|exact Hc]; try done. intros r v Hv. by exists v.
Qed.

Lemma ev_stage_ok s p skb : life_ok s -> p ∈ held s ->
  exists s', exec siphash handshake_entry (EvStage p skb) s = Some s' /\ life_ok s'.
Proof.
  intros Hok Hp. destruct (ref_pos _ _ p (proj1 Hok) (refs_held s p Hp)) as (x & Hx & _).
  cbn. unfold on_peer. rewrite Hx. eexists. split; [reflexivity|]. by apply (write_ok s p x (fun x => set_staged (wp_staged x ++ [skb]) x)).
Qed.

Lemma ref_some_mem w p : is_Some (ref_at w p) <-> is_Some (mem w !! p).
Proof. unfold ref_at. apply fmap_is_Some. Qed.

Lemma ev_read_begin_ok s r : life_ok s -> readers (dev s) !! r = None ->
  exists s', exec siphash handshake_entry (EvReadBegin r) s = Some s' /\ life_ok s'.
Proof.
  intros Hok Hn. pose proof Hok as [Hr Hc]. cbn. eexists. split; [reflexivity|].
  assert (forall ws : gset Z, ws ⊆ dom (readers (dev s)) -> ws ⊆ dom (<[r := Reader (reachable_peers (dev s)) ∅]> (readers (dev s)))) as Hmono.
  { intros ws Hws. rewrite dom_insert_L. set_solver. }
  split; cbn.
  - pose proof Hr as [He Hnd Hq Hen Hk Hix Hse Hws0]. split; try done; [|eauto]. intros r' v p. cbn. rewrite lookup_insert. case_decide as D; [|apply Hse].
    intros [= <-] Hp. destruct (reachable_alive s p Hok Hp) as (x & Hx & Hpos). split; [by apply ref_some_mem|]. intros ws Hin.
    exfalso. apply (ref_not_queued _ _ p ws Hr) in Hin; [done|]. pose proof (r_exp _ _ Hr p) as [_ H]. unfold ref_at in H. rewrite Hx in H. cbn in H. lia.
  - destruct Hc as [C1 C2 C3 C4 C5 C6 C7 C8 C9 C10 C11]. split; try done; [|by apply Hmono]. intros r' v p. cbn. rewrite lookup_insert. case_decide; [|apply C10].
    intros [= <-] Hp. by apply not_elem_of_empty in Hp.
Qed.

Lemma ev_read_get_ok s r p : life_ok s -> (exists v, readers (dev s) !! r = Some v /\ p ∈ rd_sees v) ->
  exists s', exec siphash handshake_entry (EvReadGet r p) s = Some s' /\ life_ok s'.
Proof.
  intros Hok (v & Hv & Hp). pose proof Hok as [Hr Hc]. destruct (r_sees _ _ Hr r v p Hv Hp) as [[x Hx]%ref_some_mem _].
  cbn. rewrite Hx. destruct (Z.eqb_spec (wp_refcount x) 0) as [H0|H0]; eexists; (split; [reflexivity|]).
  - by destruct s.
  - pose proof (r_exp _ _ Hr p) as [Hp0 He]. unfold ref_at in He. rewrite Hx in He. cbn in He. split; cbn.
    + eapply refs_ok_ext; [..|apply (reref_ok _ _ p x 1 Hr Hx)]; try done; [|lia]. intros q. by apply refs_get.
    + eapply conf_ok_ext; [..|exact Hc]; try done; [by eapply same_peers_insert|]. intros r' v' Hv'. by exists v'.
Qed.

Lemma ev_read_check_ok s r p : life_ok s -> is_Some (readers (dev s) !! r) /\ p ∈ held s ->
  exists s', exec siphash handshake_entry (EvReadCheck r p) s = Some s' /\ life_ok s'.
Proof.
  intros Hok [[v Hv] Hp]. pose proof Hok as [Hr Hc]. destruct (ref_pos _ _ p Hr (refs_held s p Hp)) as (x & Hx & _).
  cbn. rewrite Hx. cbn. eexists. split; [reflexivity|]. destruct (wp_is_dead x) eqn:Ed; [by destruct s|].
  set (rs := alter _ _ _). assert (forall r' v', rs !! r' = Some v' -> exists v0, readers (dev s) !! r' = Some v0 /\ rd_sees v' = rd_sees v0 /\
    forall q, q ∈ rd_checked v' -> q = p \/ q ∈ rd_checked v0) as Hrs.
  { intros r' v' Hv'. unfold rs in Hv'. rewrite lookup_alter_Some in Hv'. destruct Hv' as [(<- & v0 & Hv0 & ->)|[? ?]]; [|eauto].
    exists v0. split; [done|]. split; [done|]. cbn. intros q. rewrite elem_of_union, elem_of_singleton. tauto. }
  assert (dom rs = dom (readers (dev s))) as Hdom by apply dom_alter_L.
  split; cbn.
  - destruct Hr as [He Hnd Hq Hen Hk Hix Hse Hws0]. split; try done; [|cbn; by rewrite Hdom]. intros r' v' q Hv' Hq'. destruct (Hrs r' v' Hv') as (v0 & Hv0 & E & _).
    rewrite E in Hq'. by apply (Hse r' v0 q).
  - destruct Hc as [C1 C2 C3 C4 C5 C6 C7 C8 C9 C10 C11]. split; try done; [|cbn; by rewrite Hdom]. intros r' v' q Hv' Hq' Hd. destruct (Hrs r' v' Hv') as (v0 & Hv0 & _ & Hcase).
    destruct (Hcase q Hq') as [->|Hq0]; [|by apply (C10 r' v0 q)]. unfold dead_at in Hd. cbn in Hd. rewrite Hx in Hd. cbn in Hd. congruence.
Qed.

Lemma ev_read_end_ok s r : life_ok s ->
  exists s', exec siphash handshake_entry (EvReadEnd r) s = Some s' /\ life_ok s'.
Proof.
  intros [Hr Hc]. cbn. eexists. split; [reflexivity|]. unfold end_reader. set (w' := set_rcu _ _).
  assert ((rcu_queue w').*1 = (rcu_queue (dev s)).*1) as Hq1.
  { cbn. rewrite <- list_fmap_compose. by apply list_fmap_ext. }
  split; cbn.
  - destruct Hr as [He Hnd Hq Hen Hk Hix Hse Hws0]. split; rewrite ?Hq1; try done.
    2: { intros p ws Hin. cbn in Hin. apply list_elem_of_fmap in Hin as ([p0 ws0] & [= -> ->] & Hin). cbn. rewrite dom_delete_L. apply Hws0 in Hin. set_solver. }
    intros r' v p Hv Hp. cbn in Hv.
    apply lookup_delete_Some in Hv as [Hne Hv]. destruct (Hse r' v p Hv Hp) as [Hs Hws]. split; [done|].
    intros ws Hin. cbn in Hin. apply list_elem_of_fmap in Hin as ([p0 ws0] & [= -> ->] & Hin). cbn.
    apply elem_of_difference. split; [by apply Hws|]. rewrite elem_of_singleton. congruence.
  - destruct Hc as [C1 C2 C3 C4 C5 C6 C7 C8 C9 C10 C11]. split; try done; [|cbn; rewrite dom_delete_L; set_solver]. intros r' v p Hv Hp Hd. cbn in Hv.
    apply lookup_delete_Some in Hv as [Hne Hv]. destruct (C10 r' v p Hv Hp Hd) as [H1 H2]. split; [done|].
    apply elem_of_difference. split; [done|]. rewrite elem_of_singleton. congruence.
Qed.

(** A write that keeps the key, and the life of the peer. *)
Lemma conf_touch w lock dyi wts p x y : conf_ok w lock dyi wts -> mem w !! p = Some x -> wp_remote_static y = wp_remote_static x ->
  wp_is_dead y = wp_is_dead x -> (wp_is_dead x = true -> p ∈ dyi \/ idle y = true) ->
  conf_ok (set_mem (<[p := y]> (mem w)) w) lock dyi wts.
Proof.
  intros [C1 C2 C3 C4 C5 C6 C7 C8 C9 C10 C11] Hx Hk Hd Hi. set (w' := set_mem _ w).
  assert (forall q, dead_at w' q = dead_at w q) as Hdead.
  { intros q. unfold dead_at. cbn. rewrite lookup_insert. case_decide as D; [subst q; rewrite Hx; cbn; by rewrite Hd|done]. }
  assert (forall q, key_at w' q = key_at w q) as Hkey.
  { intros q. unfold key_at. cbn. rewrite lookup_insert. case_decide as D; [subst q; rewrite Hx; cbn; by rewrite Hk|done]. }
  split; try done.
  - intros q. rewrite Hdead. apply C5.
  - intros q. rewrite Hdead. apply C6.
  - destruct C7 as (m & Hm & Hml). exists m. split; [done|]. intros k q. rewrite Hkey. apply Hml.
  - intros q. rewrite Hdead. intros Hq Hn. unfold idle_at. cbn. rewrite lookup_insert. case_decide as D; [|by apply C9].
    subst q. cbn. unfold dead_at in Hq. rewrite Hx in Hq. injection Hq as Hq. by destruct (Hi Hq) as [?| ->].
  - intros r v q. rewrite Hdead. apply C10.
Qed.

Lemma checked_dying s r p : life_ok s -> has_checked (dev s) r p = true -> dead_at (dev s) p = Some true -> p ∈ dying s.
Proof.
  intros [_ Hc]. unfold has_checked. destruct (readers (dev s) !! r) as [v|] eqn:E; [|done].
  rewrite bool_decide_eq_true. intros Hp Hd. exact (proj1 (c_checked _ _ _ _ Hc r v p E Hp Hd)).
Qed.

Lemma ev_mod_timer_ok s r p t : life_ok s -> p ∈ held s ->
  exists s', exec siphash handshake_entry (EvModTimer r p t) s = Some s' /\ life_ok s'.
Proof.
  intros Hok Hp. pose proof Hok as [Hr Hc]. cbn. destruct (has_checked (dev s) r p) eqn:Eh; [|by exists s].
  destruct (ref_pos _ _ p Hr (refs_held s p Hp)) as (x & Hx & _). unfold on_peer. rewrite Hx. eexists. split; [reflexivity|]. split; cbn.
  - eapply refs_ok_ext; [..|exact Hr]; try done; intros q.
    + rewrite ref_at_insert. case_decide; [|done]. subst q. unfold ref_at. by rewrite Hx.
    + unfold kps_at. cbn. rewrite lookup_insert. case_decide; [|done]. subst q. by rewrite Hx.
  - eapply conf_touch; [exact Hc|exact Hx|done|done|]. intros Hd. left. apply (checked_dying s r p Hok Eh). unfold dead_at. rewrite Hx. cbn. by rewrite Hd.
Qed.

(** ** Publication *)

Lemma publish_lookup p w r v : readers (publish p w) !! r = Some v ->
  exists v0, readers w !! r = Some v0 /\ rd_checked v = rd_checked v0 /\ forall q, q ∈ rd_sees v -> q = p \/ q ∈ rd_sees v0.
Proof.
  cbn. rewrite lookup_fmap_Some. intros (v0 & <- & Hv0). exists v0. split; [done|]. split; [done|]. cbn. intros q.
  rewrite elem_of_union, elem_of_singleton. tauto.
Qed.

Lemma publish_refs w exp p : refs_ok w exp -> 0 < exp p -> refs_ok (publish p w) exp.
Proof.
  intros Hr Hp. pose proof Hr as [He Hnd Hq Hen Hk Hix Hse Hws0]. split; try done; [|cbn; by rewrite dom_fmap_L]. intros r v q Hv Hsq.
  destruct (publish_lookup p w r v Hv) as (v0 & Hv0 & _ & Hcase). destruct (Hcase q Hsq) as [->|Hq0]; [|by apply (Hse r v0 q)].
  destruct (ref_pos w exp p Hr Hp) as (x & Hx & _). split; [apply ref_some_mem; by exists x|].
  intros ws Hin. by destruct (ref_not_queued w exp p ws Hr Hp).
Qed.

Lemma publish_conf w lock dyi wts p : conf_ok w lock dyi wts -> conf_ok (publish p w) lock dyi wts.
Proof.
  intros Hc. eapply conf_ok_ext; [..|exact Hc]; try done; [cbn; by rewrite dom_fmap_L|]. intros r v Hv. destruct (publish_lookup p w r v Hv) as (v0 & Hv0 & E & _). by exists v0.
Qed.

(** ** The index table *)

Lemma owner_set_index x i t e : ix_entries (set_index x i t) !! e ≫= ie_peer = ix_entries t !! e ≫= ie_peer.
Proof. unfold set_index. cbn. rewrite lookup_alter. case_decide as D; [|done]. subst e. by destruct (ix_entries t !! x). Qed.

Lemma search_unused_owner rnd : forall t x r t', search_unused_slot t x rnd = Some (r, t') ->
  (forall e, ix_entries t' !! e ≫= ie_peer = ix_entries t !! e ≫= ie_peer) /\ (forall e, linked (ix_heads t') e <-> e = x \/ linked (ix_heads t) e).
Proof.
  induction rnd as [|r0 rnd IH]; intros t x r t'; [done|]. cbn [search_unused_slot].
  pose proof (owner_set_index x r0 t) as Hset.
  destruct (index_used (set_index x r0 t) r0).
  - intros H. destruct (IH _ _ _ _ H) as [H1 H2]. split; [intros e; by rewrite H1, Hset|exact H2].
  - intros [= <- <-]. split; [exact Hset|]. intros e. apply linked_add.
Qed.

Lemma index_insert_owner t x rnd r t' : wg_index_hashtable_insert t x rnd = Some (r, t') ->
  (forall e, ix_entries t' !! e ≫= ie_peer = ix_entries t !! e ≫= ie_peer) /\ (forall e, linked (ix_heads t') e -> e = x \/ linked (ix_heads t) e).
Proof.
  intros H. destruct (search_unused_owner _ _ _ _ _ H) as [H1 H2]. split; [exact H1|]. intros e He%H2. destruct He as [->|He]; [by left|].
  cbn in He. apply linked_del in He as [He _]. by right.
Qed.

Lemma ev_index_ok s p rnd : life_ok s -> p ∈ held s -> wg_index_hashtable_insert (index_table (dev s)) (handshake_entry p) rnd <> None ->
  exists s', exec siphash handshake_entry (EvIndex p rnd) s = Some s' /\ life_ok s'.
Proof.
  intros Hok Hp Hi. pose proof Hok as [Hr Hc]. cbn. destruct (wg_index_hashtable_insert _ _ rnd) as [[i ix]|] eqn:E; [|done].
  apply index_insert_owner in E as [Ho Hl]. eexists. split; [reflexivity|]. pose proof (refs_held s p Hp) as Hpos. split; cbn.
  - apply publish_refs; [|exact Hpos]. destruct (ref_pos _ _ p Hr Hpos) as (x & Hx & Hn). destruct Hr as [He Hnd Hq Hen Hk Hix Hse Hws0].
    split; unfold owner in *; cbn in *; try done.
    + intros q Hq0. rewrite Ho. by apply Hen.
    + intros q k Hkq. rewrite Ho. by apply Hk.
    + intros e [->|Hle]%Hl; rewrite Ho.
      * exists p. split; [apply Hen, ref_some_mem; by exists x|]. left. split; [done|]. exists (wp_refcount x). unfold ref_at. cbn. rewrite Hx. split; [done|lia].
      * exact (Hix e Hle).
  - apply publish_conf. eapply conf_ok_ext; [..|exact Hc]; try done. intros r v Hv. by exists v.
Qed.

Lemma index_replace_owner t old new : let t' := (wg_index_hashtable_replace t old new).2 in
  (forall e, ix_entries t' !! e ≫= ie_peer = ix_entries t !! e ≫= ie_peer) /\ (forall e, linked (ix_heads t') e -> e = new \/ linked (ix_heads t) e).
Proof.
  cbn. unfold wg_index_hashtable_replace. destruct (hashed (ix_heads t) old); [|cbn; auto]. destruct (ix_index t old) as [i|]; [|cbn; auto].
  cbn. split; [apply owner_set_index|]. intros e [[-> _]|[He _]]%linked_replace; auto.
Qed.

(** A keypair entry for a peer that has a reference, as [wg_noise_handshake_begin_session] adds it. *)
Lemma keypair_refs w w' exp p k : refs_ok w exp -> 0 < exp p ->
  (forall q, k ∉ kps_at w q) -> (forall q, is_Some (ref_at w q) -> k <> handshake_entry q) ->
  (forall q, ref_at w' q = ref_at w q) -> (forall q, kps_at w' q = if decide (p = q) then k :: kps_at w p else kps_at w q) ->
  (forall e, owner w' e = if decide (k = e) then Some p else owner w e) ->
  (forall e, linked (ix_heads (index_table w')) e -> e = k \/ linked (ix_heads (index_table w)) e) ->
  rcu_queue w' = rcu_queue w -> readers w' = readers w -> refs_ok w' exp.
Proof.
  intros [He Hnd Hq Hen Hk Hix Hse Hws0] Hpos Hnk Hnh Href Hkps Hown Hl Erc Erd. split; rewrite ?Erc, ?Erd; try done.
  - intros q. rewrite Href. apply He.
  - intros q. rewrite Href. apply Hq.
  - intros q. rewrite Href. intros Hs. rewrite Hown, decide_False by (by apply Hnh). by apply Hen.
  - intros q k'. rewrite Hkps, Hown. case_decide as D; [subst q; intros [->|Hin]%elem_of_cons|intros Hin]; [by rewrite decide_True|..];
      (rewrite decide_False; [by apply Hk|]); intros ->; by apply Hnk in Hin.
  - intros e Hle%Hl. rewrite Hown. destruct (decide (k = e)) as [D|D].
    + subst e. exists p. split; [done|]. right. rewrite Hkps, decide_True by done. apply elem_of_cons. by left.
    + destruct Hle as [?|Hle]; [congruence|]. destruct (Hix e Hle) as (q & Hq1 & Hcase). exists q. split; [done|]. rewrite Href, Hkps.
      destruct Hcase as [?|Hin]; [by left|right]. case_decide; [subst q; apply elem_of_cons; by right|done].
  - intros r' v q Hv Hsq. rewrite Href. exact (Hse r' v q Hv Hsq).
Qed.

Lemma ev_add_keypair_ok s r p k : life_ok s -> p ∈ held s ->
  (forall q x, mem (dev s) !! q = Some x -> k <> handshake_entry q /\ k ∉ wp_keypairs x) ->
  exists s', exec siphash handshake_entry (EvAddKeypair r p k) s = Some s' /\ life_ok s'.
Proof.
  intros Hok Hp Hfresh. pose proof Hok as [Hr Hc]. cbn [exec]. destruct (has_checked (dev s) r p) eqn:Eh; [|by exists s].
  pose proof (refs_held s p Hp) as Hpos. destruct (ref_pos _ _ p Hr Hpos) as (x & Hx & Hn). unfold on_peer. rewrite Hx. cbn [mbind option_bind].
  set (ix0 := IndexTable _ _). destruct (index_replace_owner ix0 (handshake_entry p) k) as [Ho Hl]. cbn [index_table set_mem] in ix0.
  set (w1 := set_mem _ (dev s)) in *. eexists. split; [reflexivity|]. split; cbn [dev locked dying waits].
  - apply publish_refs; [|exact Hpos]. eapply (keypair_refs (dev s) _ _ p k); [exact Hr|exact Hpos|..]; try done.
    + intros q. unfold kps_at. destruct (mem (dev s) !! q) as [z|] eqn:E; [by apply (Hfresh q z)|apply not_elem_of_nil].
    + intros q [z Hz]%ref_some_mem. by apply (Hfresh q z).
    + intros q. change (ref_at w1 q = ref_at (dev s) q). unfold w1. rewrite ref_at_insert. case_decide; [subst q; unfold ref_at; by rewrite Hx|done].
    + intros q. unfold kps_at. cbn. rewrite lookup_insert. case_decide; [by rewrite Hx|done].
    + intros e. unfold owner. cbn [index_table set_ix]. rewrite Ho. unfold ix0. cbn. rewrite lookup_insert. by case_decide.
  - apply publish_conf. assert (conf_ok w1 (locked s) (dying s) (waits s)) as Hc1.
    { eapply conf_touch; [exact Hc|exact Hx|done|done|]. intros Hd. left. apply (checked_dying s r p Hok Eh). unfold dead_at. rewrite Hx. cbn. by rewrite Hd. }
    eapply conf_ok_ext; [..|exact Hc1]; try done. intros r' v Hv. by exists v.
Qed.

(** ** The end of a grace period *)

Lemma ev_release_ok s p ws : life_ok s -> (p, ws) ∈ rcu_queue (dev s) -> ws = ∅ ->
  exists s', exec siphash handshake_entry (EvRelease p) s = Some s' /\ life_ok s' /\ mem (dev s') = delete p (mem (dev s)) /\
    rcu_queue (dev s') = filter (fun e => e.1 <> p) (rcu_queue (dev s)) /\ peer_list (dev s') = peer_list (dev s) /\
    s' = Life (dev s') (held s) (locked s) (dying s) (waits s) /\ readers (dev s') = readers (dev s).
Proof.
  intros Hok Hin ->. pose proof Hok as [Hr Hc]. assert (ref_at (dev s) p = Some 0) as H0.
  { apply (r_rcu _ _ Hr). apply list_elem_of_fmap. by exists (p, ∅). }
  assert (exists x, mem (dev s) !! p = Some x /\ wp_refcount x = 0) as (x & Hx & Hx0).
  { unfold ref_at in H0. destruct (mem (dev s) !! p) as [x|]; [|done]. exists x. split; [done|]. by injection H0. }
  destruct (released_idle s p x Hok Hx Hx0) as (Hnh & Hno & Hdead & Hkp).
  cbn. unfold rcu_release. rewrite Hx. eexists. split; [reflexivity|]. set (w' := set_rcu _ _). split; [|ands; done].
  assert (forall q, mem w' !! q = if decide (p = q) then None else mem (dev s) !! q) as Hm by (intros q; apply lookup_delete).
  assert (forall q, ref_at w' q = if decide (p = q) then None else ref_at (dev s) q) as Href by (intros q; unfold ref_at; rewrite Hm; by case_decide).
  assert (forall q, kps_at w' q = kps_at (dev s) q) as Hkps.
  { intros q. unfold kps_at. rewrite Hm. case_decide; [subst q; rewrite Hx; cbn; by rewrite Hkp|done]. }
  assert (refs s p = 0) as He0 by (pose proof (r_exp _ _ Hr p) as [_ H]; rewrite H0 in H; by symmetry).
  split; cbn [dev locked dying waits].
  - destruct Hr as [He Hnd Hq Hen Hk Hix Hse Hws0]. split.
    + intros q. rewrite Href. change (refs _ q) with (refs s q). case_decide; [subst q; lia|apply He].
    + cbn. eapply sublist_NoDup; [exact Hnd|]. apply fmap_sublist, sublist_filter.
    + intros q. rewrite Href. cbn. rewrite list_elem_of_fmap. split.
      * intros ([q' ws] & -> & [Hne Hin']%list_elem_of_filter). cbn in *. rewrite decide_False by done. apply Hq, list_elem_of_fmap. by exists (q', ws).
      * case_decide; [done|]. intros Hq0%Hq. apply list_elem_of_fmap in Hq0 as ([q' ws] & -> & Hin'). exists (q', ws). split; [done|]. apply list_elem_of_filter. by split.
    + intros q. rewrite Href. case_decide; [by intros [? ?]|]. apply Hen.
    + intros q k. rewrite Hkps. apply Hk.
    + intros e Hl. destruct (Hix e Hl) as (q & Hoq & Hcase). exists q. split; [done|]. rewrite Hkps, Href.
      destruct Hcase as [(-> & n & Hn & Hz)|Hkq]; [left|by right]. case_decide; [subst q; congruence|]. eauto.
    + intros r v q Hv Hsq. destruct (Hse r v q Hv Hsq) as [Hs Hws]. rewrite Href. case_decide as D.
      * subst q. apply Hws in Hin. by apply not_elem_of_empty in Hin.
      * split; [done|]. cbn. intros ws [_ Hw]%list_elem_of_filter. auto.
    + cbn. intros q ws [_ Hw]%list_elem_of_filter. by apply (Hws0 q).
  - rewrite elem_of_app in Hno. assert (forall q, dead_at w' q = if decide (p = q) then None else dead_at (dev s) q) as Hda by (intros q; unfold dead_at; rewrite Hm; by case_decide).
    destruct Hc as [C1 C2 C3 C4 C5 C6 C7 C8 C9 C10 C11]. split; try done.
    + intros q. rewrite Hda. change (peer_list w') with (peer_list (dev s)). case_decide; [subst q; split; [tauto|done]|apply C5].
    + intros q Hq'. rewrite Hda, decide_False by (intros ->; tauto). auto.
    + destruct C7 as (m & Hpk & Hml). exists m. split; [done|]. intros k q. rewrite Hml. unfold key_at. rewrite Hm. change (peer_list w') with (peer_list (dev s)).
      case_decide; [subst q; tauto|done].
    + intros q. rewrite Hda. unfold idle_at. rewrite Hm. case_decide; [done|]. apply C9.
    + intros r v q Hv Hq'. rewrite Hda. case_decide; [done|]. by apply (C10 r v q).
Qed.

(** ** Configuration *)

Lemma holds_delete_list st m a : holds st m -> (forall v q, m v !! q <> Some a) -> holds (set_lists (delete a) st) m.
Proof.
  intros Hh Hno. assert (plist st a = []) as Hnil.
  { destruct (plist st a) as [|b l] eqn:E; [done|]. destruct (allowedips_read_node_prefix st m a b Hh) as (? & v & ip & c & _ & _ & H & _).
    - rewrite E. apply elem_of_cons. by left.
    - by destruct (Hno _ _ H). }
  assert (forall q, plist (set_lists (delete a) st) q = plist st q) as Hpl.
  { intros q. unfold plist at 1. cbn. rewrite lookup_delete. case_decide; [subst q; by rewrite Hnil|done]. }
  destruct Hh as (tr & [] & Hm). exists tr. split; [|done]. split; try done; intros q; rewrite Hpl; auto.
Qed.

Lemma create_refs w w' exp exp' a x `{!Inj (=) (=) handshake_entry} : refs_ok w exp -> mem w !! a = None ->
  (forall q, exp' q = if decide (a = q) then 1 else exp q) -> wp_refcount x = 1 -> wp_keypairs x = [] ->
  (forall q, mem w' !! q = if decide (a = q) then Some x else mem w !! q) ->
  (forall e, owner w' e = if decide (handshake_entry a = e) then Some a else owner w e) ->
  (forall q, handshake_entry a ∉ kps_at w q) ->
  ix_heads (index_table w') = ix_heads (index_table w) -> rcu_queue w' = rcu_queue w -> readers w' = readers w -> refs_ok w' exp'.
Proof.
  intros Hr Ha Hexp H1 Hnil Hm Hown Hnk Eh Eq Erd. assert (ref_at w a = None) as Hra by (unfold ref_at; by rewrite Ha).
  assert (forall q, ref_at w' q = if decide (a = q) then Some 1 else ref_at w q) as Href.
  { intros q. unfold ref_at. rewrite Hm. case_decide; [cbn; by rewrite H1|done]. }
  assert (forall q, kps_at w' q = kps_at w q) as Hkps.
  { intros q. unfold kps_at. rewrite Hm. case_decide; [subst q; rewrite Ha; cbn; by rewrite Hnil|done]. }
  assert (forall ws, (a, ws) ∉ rcu_queue w) as Hnq.
  { intros ws Hin. assert (a ∈ (rcu_queue w).*1) as Hq by (apply list_elem_of_fmap; by exists (a, ws)). apply (r_rcu _ _ Hr) in Hq. congruence. }
  destruct Hr as [He Hnd Hq Hen Hk Hix Hse Hws0]. split; rewrite ?Eh, ?Eq, ?Erd; try done.
  - intros q. rewrite Hexp, Href. case_decide; [lia|apply He].
  - intros q. rewrite Hq, Href. case_decide; [subst q; rewrite Hra; done|done].
  - intros q. rewrite Href, Hown. case_decide; [subst q; by rewrite decide_True|]. intros Hs. rewrite decide_False by naive_solver. by apply Hen.
  - intros q k. rewrite Hkps, Hown. intros Hin. rewrite decide_False; [by apply Hk|]. intros <-. by apply Hnk in Hin.
  - intros e Hl. destruct (Hix e Hl) as (q & Hoq & Hcase). exists q. rewrite Hown, Hkps, Href.
    destruct Hcase as [(-> & n & Hn & Hz)|Hkq].
    + assert (a <> q) by congruence. rewrite !decide_False by naive_solver. eauto 6.
    + rewrite (decide_False (P := handshake_entry a = e)); [by auto|]. intros <-. by apply Hnk in Hkq.
  - intros r v q Hv Hsq. destruct (Hse r v q Hv Hsq) as [[n Hn] Hws]. rewrite Href. case_decide; [subst q; congruence|]. eauto.
Qed.

Lemma create_conf w w' lock wts a x pk m : conf_ok w lock [] wts -> mem w !! a = None -> num_peers w < MAX_PEERS_PER_DEVICE ->
  wp_remote_static x = pk -> wp_is_dead x = false ->
  pk_represents siphash (peer_hashtable w) m -> (forall k p, m !! k = Some p <-> p ∈ peer_list w /\ key_at w p = Some k) -> m !! pk = None ->
  (forall q, mem w' !! q = if decide (a = q) then Some x else mem w !! q) -> peer_list w' = peer_list w ++ [a] -> num_peers w' = num_peers w + 1 ->
  peer_hashtable w' = wg_pubkey_hashtable_add siphash (peer_hashtable w) a pk -> peer_allowedips w' = set_lists (delete a) (peer_allowedips w) ->
  readers w' = readers w -> conf_ok w' lock [] wts.
Proof.
  intros [C1 C2 C3 C4 C5 C6 C7 C8 C9 C10 C11] Ha Hmax Hk Hd Hpk Hml Hnone Hm El En Eh Ei Erd. rewrite !app_nil_r in *.
  assert (a ∉ peer_list w) as Hal by (intros H%C5; unfold dead_at in H; by rewrite Ha in H).
  assert (forall q, dead_at w' q = if decide (a = q) then Some false else dead_at w q) as Hda by (intros q; unfold dead_at; rewrite Hm; case_decide; [cbn; by rewrite Hd|done]).
  split; rewrite ?app_nil_r, ?El, ?En, ?Eh, ?Ei, ?Erd; try done.
  - apply NoDup_app. split; [done|]. split; [|apply NoDup_singleton]. intros q Hq ->%list_elem_of_singleton. done.
  - unfold len in *. rewrite length_app. cbn. lia.
  - lia.
  - intros q. rewrite elem_of_app, list_elem_of_singleton, Hda, C5. case_decide; naive_solver.
  - intros q Hq. by apply not_elem_of_nil in Hq.
  - exists (<[pk := a]> m). split; [apply pk_add_ok; [done| |done]; intros k' H%Hml; tauto|]. intros k q.
    rewrite lookup_insert, elem_of_app, list_elem_of_singleton. unfold key_at in *. rewrite Hm. destruct (decide (a = q)) as [<-|D].
    + cbn. rewrite Hk. case_decide; [naive_solver|]. rewrite Hml. split; [tauto|]. intros [_ [= ?]]. done.
    + case_decide; [subst k|rewrite Hml; naive_solver]. split; [congruence|]. intros [[?|?] Hq]; [|congruence].
      assert (m !! pk = Some q) by (by apply Hml). congruence.
  - destruct C8 as (mi & Hh & Hv). exists mi. split; [apply holds_delete_list; [done|]; intros v q H%Hv; done|].
    intros v q p' H%Hv. apply elem_of_app. by left.
  - intros q. rewrite Hda. unfold idle_at. rewrite Hm. case_decide; [done|]. apply C9.
  - intros r v q. rewrite Hda. case_decide; [done|]. apply C10.
Qed.

Lemma ev_create_ok s alloc dst pk psk `{!Inj (=) (=) handshake_entry} : life_ok s -> enabled siphash handshake_entry (EvCreate alloc dst pk psk) s ->
  exists s', exec siphash handshake_entry (EvCreate alloc dst pk psk) s = Some s' /\ life_ok s'.
Proof.
  intros Hok (Hlock & Hlook & Halloc). pose proof Hok as [Hr Hc]. cbn [exec]. unfold wg_peer_create.
  destruct (Z.leb_spec MAX_PEERS_PER_DEVICE (num_peers (dev s))) as [Hmax|Hmax]; [eexists; split; [reflexivity|by destruct s]|].
  destruct alloc as [a|]; [|eexists; split; [reflexivity|by destruct s]]. destruct dst; [|eexists; split; [reflexivity|by destruct s]].
  cbn [negb]. destruct Halloc as [Ha Hkfresh]. set (x := WgPeer _ _ _ _ _ _ _ _ _ _). set (w1 := World _ _ _ _ _ _ _ _ _).
  eexists. split; [reflexivity|]. pose proof (c_lock _ _ _ _ Hc Hlock) as Hdy.
  assert (a ∉ peer_list (dev s)) as Hal by (intros H%(c_live _ _ _ _ Hc); unfold dead_at in H; by rewrite Ha in H).
  assert (refs s a = 0) as He0 by (pose proof (r_exp _ _ Hr a) as [_ H]; unfold ref_at in H; by rewrite Ha in H).
  set (s1 := Life w1 (held s) (locked s) (dying s) (waits s)). assert (forall q, refs s1 q = if decide (a = q) then 1 else refs s q) as Hrefs.
  { intros q. unfold refs, s1. cbn. rewrite Hdy, !app_nil_r. destruct (decide (a = q)) as [<-|D].
    - rewrite bool_decide_eq_true_2 by (rewrite elem_of_app, list_elem_of_singleton; auto). unfold refs in He0. case_bool_decide; lia.
    - f_equal. rewrite (bool_decide_ext _ (q ∈ peer_list (dev s))); [done|]. rewrite elem_of_app, list_elem_of_singleton. naive_solver. }
  destruct (c_pk _ _ _ _ Hc) as (m & Hpk & Hml). assert (m !! pk = None) as Hnone.
  { unfold wg_pubkey_hashtable_lookup in Hlook. rewrite (pk_find _ _ m) in Hlook by done. destruct (m !! pk) as [q|] eqn:E; [|done]. exfalso.
    apply Hml in E as [Hq%refs_listed _]. destruct (ref_pos _ _ q Hr Hq) as (y & Hy & Hn). unfold refs_of in Hlook. rewrite Hy in Hlook.
    destruct (Z.eqb_spec (wp_refcount y) 0); [lia|done]. }
  split; cbn [dev locked dying waits].
  - apply (publish_refs w1 (refs s1)); [|rewrite Hrefs, decide_True by done; lia].
    eapply (create_refs (dev s) w1 (refs s) _ a x); try done.
    + intros q. apply lookup_insert.
    + intros e. unfold owner, w1. cbn. rewrite lookup_insert. by case_decide.
    + intros q. unfold kps_at. destruct (mem (dev s) !! q) as [z|] eqn:E; [by apply (Hkfresh q z)|apply not_elem_of_nil].
  - apply publish_conf. rewrite Hdy in *. eapply (create_conf (dev s) w1 _ _ a x pk m); try done. intros q. apply lookup_insert.
Qed.

Lemma ev_allowedip_ok s rm v6 ip c p : life_ok s -> enabled siphash handshake_entry (EvAllowedip rm v6 ip c p) s ->
  exists s', exec siphash handshake_entry (EvAllowedip rm v6 ip c p) s = Some s' /\ life_ok s'.
Proof.
  intros [Hr Hc] (Hlock & Hp & Hop). destruct (c_ips _ _ _ _ Hc) as (m & Hh & Hml). cbn [exec].
  set (o := if rm then _ else _). assert (op_ok o) as Ho by (unfold o; by destruct rm). destruct (op_refines _ m o Hh Ho) as (ret & t & Hrun & Ht & _).
  rewrite Hrun. eexists. split; [reflexivity|]. split; cbn [dev locked dying waits].
  - apply publish_refs; [|by apply refs_listed]. eapply refs_ok_ext; [..|exact Hr]; done.
  - apply publish_conf. destruct Hc as [C1 C2 C3 C4 C5 C6 C7 C8 C9 C10 C11]. split; try done. exists (spec_op o ret m). split; [done|].
    intros v q p'. unfold o. destruct rm; cbn.
    + destruct ((ret =? 0) && _); [|apply Hml]. unfold c_set. destruct (Bool.eqb v v6) eqn:E; [|apply Hml]. apply eqb_prop in E as ->.
      rewrite lookup_delete_Some. intros [_ H]. by apply Hml in H.
    + destruct (ret =? 0); [|apply Hml]. unfold c_set. destruct (Bool.eqb v v6) eqn:E; [|apply Hml]. apply eqb_prop in E as ->.
      rewrite lookup_insert_Some. intros [[_ <-]|[_ H]]; [done|]. by apply Hml in H.
Qed.

(** ** Removal *)

Lemma filter_out (l : list Z) p : NoDup l -> p ∈ l -> l ≡ₚ p :: filter (fun q => q <> p) l.
Proof.
  induction l as [|q l IH]; intros Hnd Hp; [by apply not_elem_of_nil in Hp|]. apply NoDup_cons in Hnd as [Hq Hnd]. rewrite filter_cons.
  destruct (decide (q = p)) as [->|D].
  - rewrite decide_False by auto. constructor. by rewrite filter_notin.
  - apply elem_of_cons in Hp as [?|Hp]; [congruence|]. rewrite decide_True by done. rewrite (IH Hnd Hp) at 1. constructor.
Qed.

Lemma remove_by_peer_run st m p : holds st m -> exists t, wg_allowedips_remove_by_peer p st = Some (tt, t) /\ holds t (fun v => filter (fun x => x.2 <> p) (m v)).
Proof.
  intros Hh. destruct (remove_by_peer_refines st m p Hh) as (t & Hr & Ht). exists t. split; [|exact Ht].
  cbn [AllowedIpsSpec.run_op] in Hr. unfold mbind, M_bind in Hr. destruct (wg_allowedips_remove_by_peer p st) as [[[] t']|]; [|done]. by injection Hr as ->.
Qed.

Lemma make_dead_ok s p : life_ok s -> locked s = true -> waits s = dom (readers (dev s)) -> p ∈ peer_list (dev s) ->
  exists w', peer_make_dead p (dev s) = Some w' /\ life_ok (Life w' (held s) true (dying s ++ [p]) (waits s)) /\
    peer_list w' = filter (fun q => q <> p) (peer_list (dev s)) /\ readers w' = readers (dev s).
Proof.
  intros [Hr Hc] Hlock Hw Hp. destruct (ref_pos _ _ p Hr (refs_listed s p Hp)) as (x & Hx & _). destruct (c_ips _ _ _ _ Hc) as (m & Hh & Hml).
  destruct (remove_by_peer_run _ m p Hh) as (t & Ht & Hht). unfold peer_make_dead, on_peer. cbn. rewrite Ht. cbn. rewrite Hx.
  eexists. split; [reflexivity|]. set (w' := set_mem _ _). split; [|done].
  assert (peer_list (dev s) ++ dying s ≡ₚ peer_list w' ++ dying s ++ [p]) as Hperm.
  { cbn. rewrite (filter_out (peer_list (dev s)) p) at 1; [|exact (proj1 (proj1 (NoDup_app _ _) (c_nodup _ _ _ _ Hc)))|done]. cbn. rewrite (assoc (++)), <- Permutation_cons_append. done. }
  assert (forall q, dead_at w' q = if decide (p = q) then Some true else dead_at (dev s) q) as Hda by (intros q; unfold dead_at; cbn; rewrite lookup_insert; by case_decide).
  split; cbn [dev locked dying waits].
  - eapply refs_ok_ext; [..|exact Hr]; try done; intros q.
    + unfold refs. cbn [dev held dying]. f_equal. by rewrite (bool_decide_ext _ (q ∈ peer_list (dev s) ++ dying s)) by (by rewrite Hperm).
    + unfold ref_at. cbn. rewrite lookup_insert. case_decide; [subst q; by rewrite Hx|done].
    + unfold kps_at. cbn. rewrite lookup_insert. case_decide; [subst q; by rewrite Hx|done].
  - destruct Hc as [C1 C2 C3 C4 C5 C6 C7 C8 C9 C10 C11]. split; try done.
    + by rewrite <- Hperm.
    + cbn [num_peers w' set_mem set_pubkeys set_ips set_list]. rewrite C2. unfold len. by rewrite Hperm.
    + intros q. rewrite Hda. cbn. rewrite list_elem_of_filter, C5. case_decide; naive_solver.
    + intros q. rewrite Hda, elem_of_app, list_elem_of_singleton. case_decide; [done|]. intros [?|?]; [by apply C6|congruence].
    + destruct C7 as (mk & Hpk & Hmk). exists (filter (fun kv => kv.2 <> p) mk). split.
      * by apply (pubkey_hashtable_refines siphash (peer_hashtable (dev s)) mk).
      * intros k q. rewrite map_lookup_filter_Some, Hmk. cbn. rewrite list_elem_of_filter. unfold key_at. cbn. rewrite lookup_insert. case_decide; naive_solver.
    + eexists. split; [exact Hht|]. intros v q p'. rewrite map_lookup_filter_Some. cbn. intros [H%Hml Hne]. by apply list_elem_of_filter.
    + intros q. rewrite Hda, elem_of_app, list_elem_of_singleton. intros Hd Hn. assert (p <> q) as Hne by (intros ->; tauto). rewrite decide_False in Hd by done. unfold idle_at. cbn. rewrite lookup_insert_ne by done.
      apply C9; tauto.
    + intros r v q Hv Hq. rewrite Hda, elem_of_app, list_elem_of_singleton. case_decide as D.
      * intros _. subst q. split; [by right|]. rewrite Hw. apply elem_of_dom. by exists v.
      * intros Hd. destruct (C10 r v q Hv Hq Hd). tauto.
Qed.

(** The device is locked and the readers there are will be waited for. *)
Lemma lock_ok s : life_ok s -> locked s = false -> life_ok (Life (dev s) (held s) true [] (dom (readers (dev s)))) /\ dying s = [].
Proof.
  intros [Hr Hc] Hl. pose proof (c_lock _ _ _ _ Hc Hl) as Hd. split; [|done]. split; cbn [dev locked dying waits].
  - eapply refs_ok_ext; [..|exact Hr]; try done. intros q. unfold refs. by rewrite Hd.
  - rewrite Hd in Hc. destruct Hc as [C1 C2 C3 C4 C5 C6 C7 C8 C9 C10 C11]. split; try done. intros r v q Hv Hq Hdq.
    destruct (C10 r v q Hv Hq Hdq) as [H _]. by apply not_elem_of_nil in H.
Qed.

Lemma make_dead_each l : forall s, life_ok s -> locked s = true -> waits s = dom (readers (dev s)) -> peer_list (dev s) = l ->
  exists w', peers_each peer_make_dead l (dev s) = Some w' /\ life_ok (Life w' (held s) true (dying s ++ l) (waits s)) /\ peer_list w' = [] /\ readers w' = readers (dev s).
Proof.
  unfold peers_each. induction l as [|p l IH]; intros s Hok Hlock Hw Hl; cbn [fold_left].
  - exists (dev s). rewrite app_nil_r. destruct s. cbn in *. by subst.
  - destruct (make_dead_ok s p Hok Hlock Hw) as (w1 & Hd & Hok1 & Hl1 & Hr1); [rewrite Hl; apply elem_of_cons; by left|].
    cbn [mbind option_bind]. rewrite Hd. destruct (IH (Life w1 (held s) true (dying s ++ [p]) (waits s))) as (w' & Hf & Hok' & Hl' & Hrd'); try done.
    + cbn. by rewrite Hr1.
    + cbn. rewrite Hl1, Hl, filter_cons_False by auto. pose proof (c_nodup _ _ _ _ (proj2 Hok)) as Hnd. rewrite Hl in Hnd.
      apply NoDup_app in Hnd as (Hnd & _). apply NoDup_cons in Hnd as [Hnp _]. by apply filter_notin.
    + exists w'. split; [exact Hf|]. cbn in Hok', Hrd'. rewrite <- (assoc (++)) in Hok'. ands; try done. by rewrite Hrd'.
Qed.

(** Removing entries from the index table. *)
Lemma fold_remove l : forall t, ix_entries (fold_left wg_index_hashtable_remove l t) = ix_entries t /\
  forall e, linked (ix_heads (fold_left wg_index_hashtable_remove l t)) e <-> linked (ix_heads t) e /\ e ∉ l.
Proof.
  induction l as [|k l IH]; intros t; cbn [fold_left].
  - split; [done|]. intros e. split; [|tauto]. intros H. split; [done|]. apply not_elem_of_nil.
  - destruct (IH (wg_index_hashtable_remove t k)) as [H1 H2]. split; [exact H1|]. intros e. rewrite H2. cbn. rewrite linked_del, not_elem_of_cons. tauto.
Qed.

(** Keypairs, timers and polling of a peer end. *)
Lemma quiesce_refs w exp p x : refs_ok w exp -> mem w !! p = Some x ->
  refs_ok (set_mem (<[p := set_napi false (set_timers [] (set_keypairs [] x))]> (mem w))
             (set_ix (fold_left wg_index_hashtable_remove (wp_keypairs x) (index_table w)) w)) exp.
Proof.
  intros Hr Hx. set (w' := set_mem _ _). destruct (fold_remove (wp_keypairs x) (index_table w)) as [Hent Hl].
  assert (forall q, ref_at w' q = ref_at w q) as Href by (intros q; unfold ref_at; cbn; rewrite lookup_insert; case_decide; [subst q; by rewrite Hx|done]).
  assert (forall q, kps_at w' q = if decide (p = q) then [] else kps_at w q) as Hkps by (intros q; unfold kps_at; cbn; rewrite lookup_insert; by case_decide).
  assert (forall e, owner w' e = owner w e) as Hown by (intros e; unfold owner; cbn; by rewrite Hent).
  destruct Hr as [He Hnd Hq Hen Hk Hix Hse Hws0]. split; try done.
  - intros q. rewrite Href. apply He.
  - intros q. rewrite Href. apply Hq.
  - intros q. rewrite Href, Hown. apply Hen.
  - intros q k. rewrite Hkps, Hown. case_decide; [intros Hnil; by apply not_elem_of_nil in Hnil|apply Hk].
  - intros e [Hle Hn]%Hl. destruct (Hix e Hle) as (q & Hoq & Hcase). exists q. rewrite Hown, Href, Hkps. split; [done|].
    destruct Hcase as [?|Hkq]; [by left|]. right. case_decide; [|done]. subst q. unfold kps_at in Hkq. by rewrite Hx in Hkq.
  - intros r v q Hv Hsq. rewrite Href. exact (Hse r v q Hv Hsq).
Qed.

Lemma after_dead_ok s p rest : life_ok s -> dying s = p :: rest -> waits s = ∅ -> locked s = true ->
  exists w', peer_remove_after_dead handshake_entry p (dev s) = Some w' /\ life_ok (Life w' (held s) true rest ∅) /\ readers w' = readers (dev s).
Proof.
  intros Hok Hd Hw Hlock. pose proof Hok as [Hr Hc]. assert (0 < refs s p) as Hpos by (apply refs_owned; rewrite Hd, elem_of_app, elem_of_cons; auto).
  destruct (ref_pos _ _ p Hr Hpos) as (x & Hx & Hn). unfold peer_remove_after_dead, keypairs_clear, on_peer. rewrite Hx. cbn [mbind option_bind mem set_mem set_ix].
  rewrite lookup_insert_eq. cbn [mbind option_bind mem set_mem set_ix]. rewrite lookup_insert_eq. cbn [mbind option_bind].
  rewrite !insert_insert_eq. pose proof (quiesce_refs _ _ p x Hr Hx) as Hr1.
  set (w1 := set_mem _ _) in Hr1. set (w2 := set_num _ _). assert (refs_ok w2 (refs s)) as Hr2 by (eapply refs_ok_ext; [..|exact Hr1]; done).
  destruct (peer_put_ok w2 (refs s) p Hr2 Hpos) as (w' & Hput & Hr' & Hs & Hl & Hnum & Hh & Hi & Hrd); [intros _; unfold kps_at; cbn; by rewrite lookup_insert_eq|].
  exists w'. split; [exact Hput|]. split; [|by rewrite Hrd]. pose proof (c_nodup _ _ _ _ Hc) as Hnd. rewrite Hd in Hnd.
  assert (p ∉ peer_list (dev s) /\ p ∉ rest) as [Hnl Hnr].
  { apply NoDup_app in Hnd as (_ & Hno & Hnd). apply NoDup_cons in Hnd as [Hnr _]. split; [|done]. intros H. apply (Hno p H), elem_of_cons. by left. }
  split; cbn [dev locked dying waits].
  - eapply refs_ok_ext; [..|exact Hr']; try done. intros q. unfold refs, bump_at. cbn [dev held dying]. rewrite Hl, Hd. cbn [peer_list w2 set_num set_mem set_ix].
    rewrite (bool_decide_ext (q ∈ peer_list (dev s) ++ p :: rest) (q = p \/ q ∈ peer_list (dev s) ++ rest)) by (rewrite !elem_of_app, elem_of_cons; tauto).
    destruct (decide (p = q)) as [<-|D]; repeat case_bool_decide; try lia; rewrite ?elem_of_app in *; naive_solver.
  - assert (conf_ok w1 true (p :: rest) ∅) as Hc1.
    { rewrite Hd, Hw, Hlock in Hc. apply (conf_touch (set_ix _ (dev s)) _ _ _ p x); try done.
      - eapply conf_ok_ext; [..|exact Hc]; try done. intros r v Hv. by exists v.
      - intros _. left. apply elem_of_cons. by left. }
    assert (conf_ok w2 true rest ∅) as Hc2.
    { destruct Hc1 as [C1 C2 C3 C4 C5 C6 C7 C8 C9 C10 C11]. cbn [peer_list w1 set_mem set_ix num_peers] in *. split; try done.
      - apply NoDup_app in Hnd as (H1 & H2 & H3). apply NoDup_cons in H3 as [_ H3]. apply NoDup_app. ands; try done. intros q Hq Hq'. apply (H2 q Hq), elem_of_cons. by right.
      - unfold len in *. cbn [num_peers w2 set_num set_mem peer_list set_ix]. rewrite length_app in *. cbn in *. lia.
      - cbn [num_peers w2 set_num set_mem set_ix]. lia.
      - intros q Hq. apply C6, elem_of_cons. by right.
      - intros q Hq Hq'. destruct (decide (p = q)) as [<-|D]; [|apply C9; [done|]; rewrite elem_of_cons; naive_solver].
        unfold idle_at. cbn. by rewrite lookup_insert_eq.
      - intros r v q Hv Hq Hdq. destruct (C10 r v q Hv Hq Hdq) as [_ H]. by apply not_elem_of_empty in H. }
    eapply conf_ok_ext; [..|exact Hc2]; try done; [by rewrite Hrd|]. intros r v Hv. rewrite Hrd in Hv. by exists v.
Qed.

Lemma ev_remove_begin_ok s p : life_ok s -> locked s = false -> p ∈ peer_list (dev s) ->
  exists s', exec siphash handshake_entry (EvRemoveBegin p) s = Some s' /\ life_ok s'.
Proof.
  intros Hok Hl Hp. destruct (lock_ok s Hok Hl) as [Hok1 _]. destruct (make_dead_ok _ p Hok1 eq_refl eq_refl Hp) as (w' & Hd & Hok' & _).
  cbn [dev] in Hd. cbn. rewrite Hd. eexists. split; [reflexivity|exact Hok'].
Qed.

Lemma ips_free_ok s : life_ok s -> exists t, wg_allowedips_free (peer_allowedips (dev s)) = Some (tt, t) /\
  life_ok (Life (set_ips t (dev s)) (held s) (locked s) (dying s) (waits s)).
Proof.
  intros [Hr Hc]. destruct (c_ips _ _ _ _ Hc) as (m & Hh & Hml). destruct (free_refines _ m Hh) as (t & Hrun & Ht & _). exists t.
  cbn [AllowedIpsSpec.run_op] in Hrun. unfold mbind, M_bind in Hrun. destruct (wg_allowedips_free _) as [[[] t']|]; [|done]. injection Hrun as ->.
  split; [done|]. split; cbn.
  - eapply refs_ok_ext; [..|exact Hr]; done.
  - destruct Hc as [C1 C2 C3 C4 C5 C6 C7 C8 C9 C10 C11]. split; try done. exists (fun _ => ∅). split; [done|]. intros v q p. by rewrite lookup_empty.
Qed.

Lemma ev_remove_all_begin_ok s : life_ok s -> locked s = false ->
  exists s', exec siphash handshake_entry EvRemoveAllBegin s = Some s' /\ life_ok s'.
Proof.
  intros Hok Hl. destruct (lock_ok s Hok Hl) as [Hok1 _]. destruct (ips_free_ok _ Hok1) as (t & Ht & Hok2). cbn [dev locked dying waits held] in *.
  destruct (make_dead_each (peer_list (dev s)) _ Hok2 eq_refl eq_refl eq_refl) as (w' & Hd & Hok' & _). cbn [dev held dying waits] in *.
  cbn. unfold remove_all_begin. rewrite Ht. cbn [mbind option_bind]. rewrite Hd. eexists. split; [reflexivity|exact Hok'].
Qed.

Lemma after_dead_each l : forall s, life_ok s -> dying s = l -> waits s = ∅ -> locked s = true ->
  exists w', peers_each (peer_remove_after_dead handshake_entry) l (dev s) = Some w' /\ life_ok (Life w' (held s) true [] ∅) /\ readers w' = readers (dev s).
Proof.
  unfold peers_each. induction l as [|p l IH]; intros s Hok Hd Hw Hl; cbn [fold_left].
  - exists (dev s). split; [done|]. split; [|done]. destruct s. cbn in *. by subst.
  - destruct (after_dead_ok s p l Hok Hd Hw Hl) as (w1 & H1 & Hok1 & Hr1). cbn [mbind option_bind]. rewrite H1.
    destruct (IH (Life w1 (held s) true l ∅) Hok1 eq_refl eq_refl eq_refl) as (w' & Hf & Hok' & Hr'). exists w'. ands; try done. by rewrite Hr'.
Qed.

Lemma unlock_ok w h : life_ok (Life w h true [] ∅) -> life_ok (Life w h false [] ∅).
Proof. intros [Hr Hc]. split; [exact Hr|]. cbn in *. destruct Hc as [C1 C2 C3 C4 C5 C6 C7 C8 C9 C10 C11]. by split. Qed.

Lemma ev_remove_end_ok s : life_ok s -> locked s = true -> waits s = ∅ ->
  exists s', exec siphash handshake_entry EvRemoveEnd s = Some s' /\ life_ok s' /\ held s' = held s /\ locked s' = false /\ readers (dev s') = readers (dev s).
Proof.
  intros Hok Hl Hw. destruct (after_dead_each (dying s) s Hok eq_refl Hw Hl) as (w' & Hd & Hok' & Hrd). cbn [exec]. rewrite Hd.
  eexists. split; [reflexivity|]. split; [|done]. by apply unlock_ok.
Qed.

(** ** Every step *)

Context `{!Inj (=) (=) handshake_entry}.

Lemma exec_ok e s : life_ok s -> enabled siphash handshake_entry e s ->
  exists s', exec siphash handshake_entry e s = Some s' /\ life_ok s'.
Proof.
  intros Hok Hen. destruct e.
  - by apply ev_create_ok.
  - by apply ev_allowedip_ok.
  - destruct Hen. by apply ev_remove_begin_ok.
  - by apply ev_remove_all_begin_ok.
  - destruct Hen. destruct (ev_remove_end_ok s) as (s' & ? & ? & _); eauto.
  - by apply ev_read_begin_ok.
  - by apply ev_read_get_ok.
  - by apply ev_read_check_ok.
  - destruct Hen as (? & ? & ?). by apply ev_add_keypair_ok.
  - destruct Hen. by apply ev_mod_timer_ok.
  - by apply ev_read_end_ok.
  - destruct Hen. by apply ev_index_ok.
  - by apply ev_stage_ok.
  - by apply ev_get_ok.
  - by apply ev_put_ok.
  - destruct Hen as (ws & Hin & ->). destruct (ev_release_ok s p ∅ Hok Hin eq_refl) as (s' & ? & ? & _). eauto.
Qed.

Lemma start_ok ans : life_ok (Life (no_peers ans) ∅ false [] ∅).
Proof.
  assert (forall e, ~ linked ∅ e) as Hno by (intros e [i Hi]; rewrite bucket_empty in Hi; by apply not_elem_of_nil in Hi). split; cbn.
  - split; try done.
    + cbn. constructor.
    + intros p. cbn. split; [|done]. intros H. by apply not_elem_of_nil in H.
    + intros p. cbn. by intros [? ?].
    + intros p k H. by apply not_elem_of_nil in H.
    + intros e H. by destruct (Hno e).
    + intros p ws H. by apply not_elem_of_nil in H.
  - split; cbn; try done.
    + constructor.
    + intros p. split; [|done]. intros H. by apply not_elem_of_nil in H.
    + intros p H. by apply not_elem_of_nil in H.
    + exists ∅. split; [split; [split|]|].
      * intros i x. rewrite bucket_empty. intros H. by apply not_elem_of_nil in H.
      * intros x y k H. by destruct (Hno x).
      * intros k x. rewrite lookup_empty. split; [done|]. intros [H _]. by destruct (Hno x).
      * intros k p. rewrite lookup_empty. split; [done|]. intros [H _]. by apply not_elem_of_nil in H.
    + exists (fun _ => ∅). split; [apply init_holds|]. intros v q p. by rewrite lookup_empty.
Qed.

Lemma reach_ok s : reach siphash handshake_entry s -> life_ok s.
Proof.
  induction 1 as [ans|e s s' _ IH Hen Hex]; [apply start_ok|]. destruct (exec_ok e s IH Hen) as (s1 & H1 & Hok). congruence.
Qed.

(** Several steps. *)
Inductive steps : life -> life -> Prop :=
| steps_nil s : steps s s
| steps_cons e s s1 s2 : enabled siphash handshake_entry e s -> exec siphash handshake_entry e s = Some s1 -> steps s1 s2 -> steps s s2.

Lemma steps_trans s1 s2 s3 : steps s1 s2 -> steps s2 s3 -> steps s1 s3.
Proof. induction 1; [done|]. intros H3. econstructor; eauto. Qed.

(** With nobody reading and no reference held, the queued peers can be freed. *)
Lemma release_all n : forall s, life_ok s -> length (rcu_queue (dev s)) = n -> readers (dev s) = ∅ ->
  exists s', steps s s' /\ rcu_queue (dev s') = [] /\ life_ok s' /\ held s' = held s /\ locked s' = locked s /\ peer_list (dev s') = peer_list (dev s).
Proof.
  induction n as [n IH] using lt_wf_ind. intros s Hok Hn Hrd. destruct (rcu_queue (dev s)) as [|[p ws] q] eqn:Eq.
  { exists s. split; [constructor|]. by rewrite Eq. }
  assert (ws = ∅) as ->.
  { assert (ws ⊆ dom (readers (dev s))) as H by (apply (r_ws _ _ (proj1 Hok) p); rewrite Eq; apply elem_of_cons; by left). rewrite Hrd, dom_empty_L in H. set_solver. }
  assert ((p, ∅) ∈ rcu_queue (dev s)) as Hin by (rewrite Eq; apply elem_of_cons; by left).
  destruct (ev_release_ok s p ∅ Hok Hin eq_refl) as (s1 & Hex & Hok1 & _ & Hq1 & Hl1 & Hs1 & Hr1).
  destruct (IH (length (rcu_queue (dev s1)))) with (s := s1) as (s' & Hst & ? & ? & Hh & Hlk & Hl); try done.
  - rewrite Hq1, Eq, filter_cons_False by (cbn; auto). pose proof (length_filter (fun e : Z * gset Z => e.1 <> p) q). cbn in Hn. lia.
  - congruence.
  - exists s'. split; [econstructor; [|exact Hex|exact Hst]; by exists ∅|]. rewrite Hs1 in Hh, Hlk. cbn in Hh, Hlk. ands; congruence.
Qed.

End Invariant.

(** ** Theorems *)

Lemma fmap_Some_false (o : option wg_peer) : wp_is_dead <$> o = Some false <-> exists x, o = Some x /\ wp_is_dead x = false.
Proof. rewrite fmap_Some. split; intros (x & H1 & H2); exists x; by split. Qed.

(** C26: in every state that configuration calls, lookups, reference counting
    and grace periods can lead to, no step accesses memory that is not
    allocated; every peer that a table leads to is allocated and referenced;
    the count of a peer is the number of references held, plus one while it
    is on the device's list or being destroyed; a destroyed peer never again has a keypair, a
    pending timer or polling enabled; the list holds the live peers, each
    once, and the device counts them within its limit. *)
Theorem peer_lifecycle siphash handshake_entry `{!Inj (=) (=) handshake_entry} s : reach siphash handshake_entry s ->
  (forall e, enabled siphash handshake_entry e s -> exists s', exec siphash handshake_entry e s = Some s') /\
  (forall p, p ∈ reachable_peers (dev s) -> exists x, mem (dev s) !! p = Some x /\ 0 < wp_refcount x) /\
  (forall p x, mem (dev s) !! p = Some x ->
     wp_refcount x = Z.of_nat (multiplicity p (held s)) + (if bool_decide (p ∈ peer_list (dev s) ++ dying s) then 1 else 0)) /\
  (forall p x, mem (dev s) !! p = Some x -> wp_is_dead x = true -> p ∉ dying s -> wp_keypairs x = [] /\ wp_timers x = [] /\ wp_napi x = false) /\
  (forall p, p ∈ peer_list (dev s) <-> exists x, mem (dev s) !! p = Some x /\ wp_is_dead x = false) /\
  NoDup (peer_list (dev s)) /\ num_peers (dev s) = len (peer_list (dev s)) + len (dying s) /\ num_peers (dev s) <= MAX_PEERS_PER_DEVICE.
Proof.
  intros Hre. pose proof (reach_ok _ _ s Hre) as Hok. pose proof Hok as [Hr Hc]. ands.
  - intros e Hen. destruct (exec_ok _ _ e s Hok Hen) as (s' & Hs' & _). by exists s'.
  - intros p. by apply (reachable_alive siphash handshake_entry).
  - intros p x Hx. pose proof (r_exp _ _ _ Hr p) as [_ H]. unfold ref_at in H. by rewrite Hx in H.
  - intros p x Hx Hd Hn. pose proof (c_dead _ _ _ _ _ Hc p) as H. unfold dead_at, idle_at in H. rewrite Hx in H. cbn in H. rewrite Hd in H.
    specialize (H eq_refl Hn). injection H as H. unfold idle in H. destruct (wp_keypairs x), (wp_timers x), (wp_napi x); done.
  - intros p. rewrite (c_live _ _ _ _ _ Hc). unfold dead_at. apply fmap_Some_false.
  - exact (proj1 (proj1 (NoDup_app _ _) (c_nodup _ _ _ _ _ Hc))).
  - rewrite (c_num _ _ _ _ _ Hc). unfold len. rewrite length_app. lia.
  - exact (c_max _ _ _ _ _ Hc).
Qed.

(** A peer is created and found by a reader, which takes a reference. *)
Definition example_entry (p : Z) : Z := 2 * p + 1.
#[global] Instance example_entry_inj : Inj (=) (=) example_entry.
Proof. intros p q. unfold example_entry. lia. Qed.

Definition example_hash (_ : list Z) : Z := 7.
Definition exec_all (es : list event) (s : life) : option life := fold_left (fun r e => r ≫= exec example_hash example_entry e) es (Some s).
Definition example_start : life := Life (no_peers []) ∅ false [] ∅.
Definition example_state (es : list event) : life := default example_start (exec_all es example_start).
Definition example_create : list event := [EvCreate (Some 2) true [1; 2; 3] None].
Definition example_read : list event := example_create ++ [EvReadBegin 0; EvReadGet 0 2].

Lemma example_step es e : reach example_hash example_entry (example_state es) -> enabled example_hash example_entry e (example_state es) ->
  exec example_hash example_entry e (example_state es) = Some (example_state (es ++ [e])) -> reach example_hash example_entry (example_state (es ++ [e])).
Proof. apply reach_step. Qed.

Lemma example_create_reach : reach example_hash example_entry (example_state example_create).
Proof.
  apply (example_step []); [apply (reach_start _ _ [])| |reflexivity].
  split; [done|]. split; [done|]. split; [done|]. intros p x. cbn. by rewrite lookup_empty.
Qed.

Lemma example_read_reach : reach example_hash example_entry (example_state example_read).
Proof.
  apply (example_step (example_create ++ [EvReadBegin 0]) (EvReadGet 0 2)); [|exists (Reader {[2]} ∅); split; [vm_compute; reflexivity|cbn [rd_sees]; set_solver]|vm_compute; reflexivity].
  apply (example_step example_create (EvReadBegin 0)); [exact example_create_reach|vm_compute; reflexivity|vm_compute; reflexivity].
Qed.

Lemma peer_lifecycle_witness : (wp_refcount <$> mem (dev (example_state example_read)) !! 2) = Some 2 /\
  forall p, p ∈ reachable_peers (dev (example_state example_read)) -> exists x, mem (dev (example_state example_read)) !! p = Some x /\ 0 < wp_refcount x.
Proof. split; [vm_compute; reflexivity|]. apply (peer_lifecycle example_hash example_entry _ example_read_reach). Defined.

(** C28: once nobody reads and no context holds a reference, a removal in
    progress can finish and every peer that was removed is freed: there are steps to
    a state whose allocated peers are exactly those of the device's list. *)
Theorem removed_peers_freed siphash handshake_entry `{!Inj (=) (=) handshake_entry} s : reach siphash handshake_entry s ->
  held s = ∅ -> readers (dev s) = ∅ ->
  exists s', steps siphash handshake_entry s s' /\ locked s' = false /\ forall p, is_Some (mem (dev s') !! p) <-> p ∈ peer_list (dev s').
Proof.
  intros Hre Hh Hrd. pose proof (reach_ok _ _ s Hre) as Hok.
  assert (exists s1, steps siphash handshake_entry s s1 /\ life_ok siphash handshake_entry s1 /\ held s1 = ∅ /\ locked s1 = false /\ readers (dev s1) = ∅)
    as (s1 & Hs1 & Hok1 & Hh1 & Hl1 & Hr1).
  { destruct (locked s) eqn:El; [|exists s; split; [constructor|done]]. assert (waits s = ∅) as Hw.
    { pose proof (c_waits _ _ _ _ _ (proj2 Hok)) as H. rewrite Hrd, dom_empty_L in H. set_solver. }
    destruct (ev_remove_end_ok _ _ s Hok El Hw) as (s1 & Hex & ? & E1 & ? & E2). exists s1. split; [|ands; congruence].
    eapply (steps_cons _ _ EvRemoveEnd); [done|exact Hex|constructor]. }
  destruct (release_all _ _ _ s1 Hok1 eq_refl Hr1) as (s2 & Hs2 & Hq & Hok2 & Hh2 & Hl2 & _). exists s2.
  split; [by eapply steps_trans|]. split; [congruence|]. intros p. destruct Hok2 as [Hr Hc]. rewrite (c_live _ _ _ _ _ Hc). unfold dead_at. split.
  - intros [x Hx]. rewrite Hx. cbn. pose proof (r_exp _ _ _ Hr p) as [_ He]. unfold ref_at in He. rewrite Hx in He. cbn in He.
    pose proof (proj2 (r_rcu _ _ _ Hr p)) as H0. rewrite Hq in H0. unfold ref_at in H0. rewrite Hx in H0. cbn in H0.
    assert (dying s2 = []) as Hd by (apply (c_lock _ _ _ _ _ Hc); congruence). unfold refs in He. rewrite Hh2, Hh1, multiplicity_empty, Hd, app_nil_r in He.
    case_bool_decide as Hin; [apply (c_live _ _ _ _ _ Hc) in Hin; unfold dead_at in Hin; by rewrite Hx in Hin|].
    exfalso. apply (not_elem_of_nil p), H0. by rewrite He.
  - intros H%fmap_Some_false. naive_solver.
Qed.

(** The peer of the example is removed again. *)
Definition example_removed : list event := example_create ++ [EvRemoveBegin 2; EvRemoveEnd].

Lemma example_removed_reach : reach example_hash example_entry (example_state example_removed).
Proof.
  apply (example_step (example_create ++ [EvRemoveBegin 2]) EvRemoveEnd); [|split; vm_compute; reflexivity|vm_compute; reflexivity].
  apply (example_step example_create (EvRemoveBegin 2)); [exact example_create_reach|split; [reflexivity|apply elem_of_cons; by left]|vm_compute; reflexivity].
Qed.

Lemma removed_peers_freed_witness : exists s', steps example_hash example_entry (example_state example_removed) s' /\
  forall p, is_Some (mem (dev s') !! p) <-> p ∈ peer_list (dev s').
Proof.
  destruct (removed_peers_freed example_hash example_entry _ example_removed_reach) as (s' & H1 & _ & H2); [vm_compute; reflexivity|vm_compute; reflexivity|].
  exists s'. by split.
Defined.
