(* ===== verification/Netlink.v ===== *)
(** * Configuration by user space ([src/netlink.c])

    The whole of [wg_set_device]: ports and marks, the obfuscation attributes
    of [Config], the replacement of all peers, a new private key, and the list
    of peers with their endpoints and allowed addresses, on the state of
    [Peer].  The parsing of attributes is the kernel's: a request is what
    [nla_parse] made of it.  What the request starts in other parts of the
    module is the list of its calls, in order.

    The specification is a table of peers by public key with their settings
    and a table of prefixes with the public key each belongs to. *)

From S2P Require Import Prelude Messages MagicHeader Imitate Junk IpBits Trie AllowedIps AllowedIpsSpec PeerLookup Noise Memneq Config Socket Peer.
From stdpp Require Import gmap gmultiset list fin_maps.
#[local] Open Scope Z_scope.

Definition EPFNOSUPPORT : Z := 96.

Definition WGDEVICE_F_REPLACE_PEERS : Z := 1.
Definition WGPEER_F_REMOVE_ME : Z := 1.
Definition WGPEER_F_REPLACE_ALLOWEDIPS : Z := 2.
Definition WGPEER_F_UPDATE_ONLY : Z := 4.
Definition WGPEER_F_HAS_ADVANCED_SECURITY : Z := 8.
Definition WGALLOWEDIP_F_REMOVE_ME : Z := 1.

(** [flags & f] *)
Definition has_flag (flags f : Z) : bool := negb (Z.land flags f =? 0).

(** ** Requests *)

Record allowedip_attrs := AllowedipAttrs { aa_family : option Z; aa_ipaddr : option (list Z); aa_cidr : option Z; aa_flags : option Z }.

(** The address of an endpoint attribute: its length, its family, and the
    members of [struct sockaddr_in] or [struct sockaddr_in6]. *)
Record sockaddr_attr := SockaddrAttr { sa_len : Z; sa_family : Z; sa_port : Z; sa_addr : Z; sa_flowinfo : Z; sa_scope_id : Z }.

(** An element of a nested list is what [nla_parse_nested] returned for it: an
    error or the attributes. *)
Record peer_attrs := PeerAttrs {
  pa_public_key : option (list Z);
  pa_preshared_key : option (list Z);
  pa_flags : option Z;
  pa_endpoint : option sockaddr_attr;
  pa_keepalive : option Z;
  pa_allowedips : option (list (Z + allowedip_attrs));
  pa_protocol_version : option Z;
  pa_advanced_security : bool
}.

(** What the allocators answer while a peer is configured; the address of a
    new peer depends on what is in use. *)
Record peer_env := PeerEnv { pe_alloc : world -> option Z; pe_dst_cache : bool }.

Inductive call :=
| CallPrecompute (p : Z)          (* [wg_noise_precompute_static_static] *)
| CallExpire (p : Z)              (* [wg_noise_expire_current_peer_keypairs] *)
| CallDeviceKeys                  (* [wg_cookie_checker_precompute_device_keys] *)
| CallKeepalive (p : Z)           (* [wg_packet_send_keepalive] *)
| CallStaged (p : Z)              (* [wg_packet_send_staged_packets] *)
| CallSock (e : sock_event).      (* a socket created or released *)

(** An attribute of the device; an element of the list of peers comes with its
    own answers of the allocators. *)
Record device_attrs := DeviceAttrs {
  da_flags : option Z;
  da_listen_port : option Z;
  da_fwmark : option Z;
  da_awg : awg_attrs;
  da_private_key : option (list Z);
  da_peers : option (list (Z + peer_attrs * peer_env))
}.

(** What else a request meets: whether the network namespace of the device
    exists and whether user space may administer it, the UDP layer, and the
    allocator. *)
Record device_env := DeviceEnv { de_net : bool; de_capable : bool; de_udp : udp_creation; de_alloc : list bool }.

Record wg_device := WgDevice {
  wd_world : world;
  wd_identity : noise_static_identity;
  wd_config : awg_config;
  wd_socks : wg_socks;
  wd_fwmark : Z;
  wd_running : bool;              (* [netif_running] *)
  wd_gen : Z                      (* [device_update_gen] *)
}.

Definition set_world (w : world) (d : wg_device) : wg_device :=
  WgDevice w (wd_identity d) (wd_config d) (wd_socks d) (wd_fwmark d) (wd_running d) (wd_gen d).
Definition set_identity (i : noise_static_identity) (d : wg_device) : wg_device :=
  WgDevice (wd_world d) i (wd_config d) (wd_socks d) (wd_fwmark d) (wd_running d) (wd_gen d).
Definition set_config (c : awg_config) (d : wg_device) : wg_device :=
  WgDevice (wd_world d) (wd_identity d) c (wd_socks d) (wd_fwmark d) (wd_running d) (wd_gen d).
Definition set_socks (s : wg_socks) (d : wg_device) : wg_device :=
  WgDevice (wd_world d) (wd_identity d) (wd_config d) s (wd_fwmark d) (wd_running d) (wd_gen d).
Definition set_fwmark (m : Z) (d : wg_device) : wg_device :=
  WgDevice (wd_world d) (wd_identity d) (wd_config d) (wd_socks d) m (wd_running d) (wd_gen d).
Definition bump_gen (d : wg_device) : wg_device :=
  WgDevice (wd_world d) (wd_identity d) (wd_config d) (wd_socks d) (wd_fwmark d) (wd_running d) (u32 (wd_gen d + 1)).

(** ** A peer *)

(** Changes to the settings of a peer. *)
Definition with_psk (k : list Z) (c : peer_conf) : peer_conf := PeerConf k (pc_sock c) (pc_keepalive c) (pc_advanced_security c).
Definition with_sock (s : peer_sock) (c : peer_conf) : peer_conf := PeerConf (pc_preshared_key c) s (pc_keepalive c) (pc_advanced_security c).
Definition with_keepalive (v : Z) (c : peer_conf) : peer_conf := PeerConf (pc_preshared_key c) (pc_sock c) v (pc_advanced_security c).
Definition with_advanced (b : bool) (c : peer_conf) : peer_conf := PeerConf (pc_preshared_key c) (pc_sock c) (pc_keepalive c) b.
Definition on_conf (p : Z) (f : peer_conf -> peer_conf) (w : world) : option world := on_peer p (fun x => set_conf (f (wp_conf x)) x) w.

Section Netlink.

Context (siphash : list Z -> Z) (handshake_entry : Z -> Z).
Context `{K : Kstrto} `{NC : NoiseCrypto} (ipv6 : bool).

Definition set_allowedip (p : Z) (a : allowedip_attrs) (t : table) : option (Z * table) :=
  match aa_family a, aa_ipaddr a, aa_cidr a with
  | Some family, Some ip, Some cidr =>
      let flags := default 0 (aa_flags a) in
      if (family =? AF_INET) && (cidr <=? 32) && (len ip =? 4) then
        if has_flag flags WGALLOWEDIP_F_REMOVE_ME then wg_allowedips_remove_v4 ip cidr (Some p) t else wg_allowedips_insert_v4 ip cidr (Some p) t
      else if (family =? AF_INET6) && (cidr <=? 128) && (len ip =? 16) then
        if has_flag flags WGALLOWEDIP_F_REMOVE_ME then wg_allowedips_remove_v6 ip cidr (Some p) t else wg_allowedips_insert_v6 ip cidr (Some p) t
      else Some (- EINVAL, t)
  | _, _, _ => Some (- EINVAL, t)
  end.

(** The loop over the allowed addresses: it stops at the first error. *)
Fixpoint set_allowedips (p : Z) (l : list (Z + allowedip_attrs)) (ret : Z) (t : table) : option (Z * table) :=
  match l with
  | [] => Some (ret, t)
  | inl err :: l' => if err <? 0 then Some (err, t) else set_allowedips p l' err t
  | inr a :: l' =>
      '(ret, t) ← set_allowedip p a t;
      if ret <? 0 then Some (ret, t) else set_allowedips p l' ret t
  end.

(** [wg_pubkey_hashtable_lookup], which takes a reference. *)
Definition lookup_peer (public_key : list Z) (w : world) : option (option Z * world) :=
  wg_peer_get_maybe_zero w (wg_pubkey_hashtable_lookup siphash (peer_hashtable w) public_key (refs_of w)).

Definition endpoint_attr (a : sockaddr_attr) (s : peer_sock) : peer_sock :=
  if (sa_len a =? 16) && (sa_family a =? AF_INET) then wg_socket_set_peer_endpoint ipv6 s (Ep4 (sa_port a) (sa_addr a) 0 0)
  else if (sa_len a =? 28) && (sa_family a =? AF_INET6) then
    wg_socket_set_peer_endpoint ipv6 s (Ep6 (sa_port a) (sa_flowinfo a) (sa_addr a) (sa_scope_id a) 0)
  else s.

(** The preshared key, the endpoint and the allowed addresses of a peer that is
    there and stays: from [if (preshared_key)] on. *)
Definition set_peer_addresses (w : world) (p flags : Z) (preshared_key : option (list Z)) (a : peer_attrs) : option (Z * world) :=
  w ← match preshared_key with Some k => on_conf p (with_psk k) w | None => Some w end;
  w ← match pa_endpoint a with Some sa => on_conf p (fun c => with_sock (endpoint_attr sa (pc_sock c)) c) w | None => Some w end;
  '(_, t) ← (if has_flag flags WGPEER_F_REPLACE_ALLOWEDIPS then wg_allowedips_remove_by_peer p (peer_allowedips w) else Some (tt, peer_allowedips w));
  '(ret, t) ← match pa_allowedips a with Some l => set_allowedips p l 0 t | None => Some (0, t) end;
  Some (ret, set_ips t w).

(** All of it, up to the label [out]. *)
Definition set_peer_settings (d : wg_device) (p flags : Z) (preshared_key : option (list Z)) (a : peer_attrs) : option (Z * wg_device * list call) :=
  '(ret, w) ← set_peer_addresses (wd_world d) p flags preshared_key a;
  if ret <? 0 then Some (ret, set_world w d, [])
  else
    x ← mem w !! p;
    let send_keepalive := match pa_keepalive a with
                          | Some v => (pc_keepalive (wp_conf x) =? 0) && negb (v =? 0) && wd_running d
                          | None => false
                          end in
    w ← match pa_keepalive a with Some v => on_conf p (with_keepalive v) w | None => Some w end;
    w ← match (if has_flag flags WGPEER_F_HAS_ADVANCED_SECURITY then Some (cf_advanced_security (wd_config d) && pa_advanced_security a) else None) with
        | Some b => on_conf p (with_advanced b) w
        | None => Some w
        end;
    Some (ret, set_world w d, (if send_keepalive then [CallKeepalive p] else []) ++ (if wd_running d then [CallStaged p] else [])).

(** The peer of a request: found, created, or none with the value to return. *)
Definition find_or_create (d : wg_device) (env : peer_env) (flags : Z) (public_key : list Z) (preshared_key : option (list Z)) :
    option ((Z + (Z * Z)) * world) :=
  '(peer, w) ← lookup_peer public_key (wd_world d);
  match peer with
  | Some p => Some (inr (p, flags), w)
  | None =>
      if has_flag flags (Z.lor WGPEER_F_REMOVE_ME WGPEER_F_UPDATE_ONLY) then Some (inl 0, w)
      else
        let flags := Z.land flags (Z.lnot WGPEER_F_REPLACE_ALLOWEDIPS) in
        if has_identity (wd_identity d) && bool_decide (public_key = static_public (wd_identity d)) then Some (inl 0, w)
        else
          match wg_peer_create siphash handshake_entry w (pe_alloc env w) (pe_dst_cache env) public_key preshared_key with
          | (inl err, w) => Some (inl err, w)
          | (inr p, w) => w ← wg_peer_get w p; Some (inr (p, flags), w)
          end
  end.

Definition key_attr (attr : option (list Z)) (size : Z) : option (list Z) :=
  match attr with Some k => if len k =? size then Some k else None | None => None end.

Definition set_peer (d : wg_device) (env : peer_env) (a : peer_attrs) : option (Z * wg_device * list call) :=
  match key_attr (pa_public_key a) NOISE_PUBLIC_KEY_LEN with
  | None => Some (- EINVAL, d, [])
  | Some public_key =>
      let preshared_key := key_attr (pa_preshared_key a) NOISE_SYMMETRIC_KEY_LEN in
      let flags := default 0 (pa_flags a) in
      if match pa_protocol_version a with Some v => negb (v =? 1) | None => false end then Some (- EPFNOSUPPORT, d, [])
      else
        '(found, w) ← find_or_create d env flags public_key preshared_key;
        match found with
        | inl ret => Some (ret, set_world w d, [])
        | inr (p, flags) =>
            '(ret, d, calls) ← (if has_flag flags WGPEER_F_REMOVE_ME
                                then w ← wg_peer_remove handshake_entry w (Some p); Some (0, set_world w d, [])
                                else set_peer_settings (set_world w d) p flags preshared_key a);
            w ← wg_peer_put handshake_entry (wd_world d) (Some p);
            Some (ret, set_world w d, calls)
        end
  end.

(** ** The device *)

Definition clear_all_src (w : world) : option world :=
  peers_each (fun p => on_conf p (fun c => with_sock (wg_socket_clear_peer_endpoint_src (pc_sock c)) c)) (peer_list w) w.

Definition set_port (d : wg_device) (env : device_env) (port : Z) : option (Z * wg_device * list call) :=
  if incoming_port (wd_socks d) =? port then Some (0, d, [])
  else
    w ← clear_all_src (wd_world d);
    let d := set_world w d in
    if negb (wd_running d) then Some (0, set_socks (WgSocks (wg_sock4 (wd_socks d)) (wg_sock6 (wd_socks d)) port) d, [])
    else '(ret, s, evs) ← wg_socket_init ipv6 (de_udp env) (de_net env) (wd_socks d) port; Some (ret, set_socks s d, map CallSock evs).

(** A new private key: the peer that has the device's new public key is
    removed first; then the sessions of all peers expire. *)
Definition set_private_key (d : wg_device) (private_key : list Z) : option (wg_device * list call) :=
  if bool_decide (static_private (wd_identity d) = private_key) then Some (d, [])
  else
    w ← match curve25519_generate_public private_key with
        | Some public_key =>
            '(peer, w) ← lookup_peer public_key (wd_world d);
            match peer with
            | Some p => w ← wg_peer_put handshake_entry w (Some p); wg_peer_remove handshake_entry w (Some p)
            | None => Some w
            end
        | None => Some (wd_world d)
        end;
    let d := set_identity (wg_noise_set_static_identity_private_key (wd_identity d) private_key) (set_world w d) in
    Some (d, concat (map (fun p => [CallPrecompute p; CallExpire p]) (peer_list w)) ++ [CallDeviceKeys]).

Fixpoint set_peers (l : list (Z + peer_attrs * peer_env)) (d : wg_device) : option (Z * wg_device * list call) :=
  match l with
  | [] => Some (0, d, [])
  | inl err :: l' => if err <? 0 then Some (err, d, []) else set_peers l' d
  | inr (a, env) :: l' =>
      '(ret, d, calls) ← set_peer d env a;
      if ret <? 0 then Some (ret, d, calls)
      else '(ret, d, calls') ← set_peers l' d; Some (ret, d, calls ++ calls')
  end.

(** From the flags' [WGDEVICE_F_REPLACE_PEERS] to the end. *)
Definition set_device_peers (d : wg_device) (env : device_env) (a : device_attrs) : option (Z * wg_device * list call) :=
  w ← (if has_flag (default 0 (da_flags a)) WGDEVICE_F_REPLACE_PEERS then wg_peer_remove_all handshake_entry (wd_world d) else Some (wd_world d));
  let d := set_world w d in
  '(d, calls) ← match key_attr (da_private_key a) NOISE_PUBLIC_KEY_LEN with Some k => set_private_key d k | None => Some (d, []) end;
  '(ret, c, _) ← wg_device_handle_post_config (wd_config d) (de_alloc env);
  let d := set_config c d in
  if ret <? 0 then Some (ret, d, calls)
  else
    match da_peers a with
    | Some l => '(ret, d, calls') ← set_peers l d; Some (ret, d, calls ++ calls')
    | None => Some (0, d, calls)
    end.

Definition wg_set_device (d : wg_device) (env : device_env) (a : device_attrs) : option (Z * wg_device * list call) :=
  let needs_cap := match da_listen_port a, da_fwmark a with None, None => false | _, _ => true end in
  if needs_cap && negb (de_net env && de_capable env) then Some (- EPERM, d, [])
  else
    let d := bump_gen d in
    d ← match da_fwmark a with
        | Some m => w ← clear_all_src (wd_world d); Some (set_world w (set_fwmark m d))
        | None => Some d
        end;
    '(ret, d, calls) ← match da_listen_port a with Some port => set_port d env port | None => Some (0, d, []) end;
    if negb (ret =? 0) then Some (ret, d, calls)
    else
      let '(ret, c) := set_awg_attrs (da_awg a) (wd_config d) in
      let d := set_config c d in
      if negb (ret =? 0) then Some (ret, d, calls)
      else '(ret, d, calls') ← set_device_peers d env a; Some (ret, d, calls ++ calls').

End Netlink.

(** ** Specification *)

(** Peers by public key, and prefixes with the key of the peer they belong to. *)
Record net_conf := NetConf { nc_peers : gmap (list Z) peer_conf; nc_ips : gmap (bool * list bool) (list Z) }.

Definition no_conf : net_conf := NetConf ∅ ∅.
Definition without_peer (k : list Z) (c : net_conf) : net_conf := NetConf (delete k (nc_peers c)) (filter (fun e => e.2 <> k) (nc_ips c)).
Definition clear_src (c : net_conf) : net_conf :=
  NetConf ((fun cf => with_sock (wg_socket_clear_peer_endpoint_src (pc_sock cf)) cf) <$> nc_peers c) (nc_ips c).

(** A well-formed address: family, bytes, length, and whether it is to be
    removed. *)
Definition ip_valid (a : allowedip_attrs) : option (bool * list Z * Z * bool) :=
  match aa_family a, aa_ipaddr a, aa_cidr a with
  | Some family, Some ip, Some cidr =>
      let remove := has_flag (default 0 (aa_flags a)) WGALLOWEDIP_F_REMOVE_ME in
      if (family =? AF_INET) && (cidr <=? 32) && (len ip =? 4) then Some (false, ip, cidr, remove)
      else if (family =? AF_INET6) && (cidr <=? 128) && (len ip =? 16) then Some (true, ip, cidr, remove)
      else None
  | _, _, _ => None
  end.

(** The key of the longest prefix of an address. *)
Fixpoint key_lpm (i : gmap (bool * list bool) (list Z)) (v6 : bool) (addr : list bool) (n : nat) : option (list Z) :=
  match i !! (v6, firstn n addr) with
  | Some k => Some k
  | None => match n with O => None | S n' => key_lpm i v6 addr n' end
  end.

Section Spec.
Context (ipv6 : bool).

Abbreviation ips := (gmap (bool * list bool) (list Z)).

Definition spec_ip (k : list Z) (a : allowedip_attrs) (r : Z) (i i' : ips) : Prop :=
  match ip_valid a with
  | None => r = - EINVAL /\ i' = i
  | Some (v6, ip, c, false) => (r = 0 /\ i' = <[(v6, prefix_of_ip v6 ip c) := k]> i) \/ (r = - ENOMEM /\ i' = i)
  | Some (v6, ip, c, true) =>
      r = 0 /\ i' = if bool_decide (i !! (v6, prefix_of_ip v6 ip c) = Some k) then delete (v6, prefix_of_ip v6 ip c) i else i
  end.

(** The addresses in order, up to the first error. *)
Inductive spec_ips (k : list Z) : list (Z + allowedip_attrs) -> ips -> Z -> ips -> Prop :=
| spec_ips_nil i : spec_ips k [] i 0 i
| spec_ips_parse err l i : err < 0 -> spec_ips k (inl err :: l) i err i
| spec_ips_ok a l i i1 r i2 : spec_ip k a 0 i i1 -> spec_ips k l i1 r i2 -> spec_ips k (inr a :: l) i r i2
| spec_ips_err a l i i1 r : r < 0 -> spec_ip k a r i i1 -> spec_ips k (inr a :: l) i r i1.

(** The preshared key, the endpoint and the prefixes. *)
Definition spec_addresses (k : list Z) (flags : Z) (psk : option (list Z)) (a : peer_attrs) (c : net_conf) (r : Z) (c' : net_conf) : Prop :=
  exists cf i, nc_peers c !! k = Some cf /\
    let cf := match psk with Some s => with_psk s cf | None => cf end in
    let cf := match pa_endpoint a with Some sa => with_sock (endpoint_attr ipv6 sa (pc_sock cf)) cf | None => cf end in
    let i0 := if has_flag flags WGPEER_F_REPLACE_ALLOWEDIPS then filter (fun e => e.2 <> k) (nc_ips c) else nc_ips c in
    match pa_allowedips a with Some l => spec_ips k l i0 r i | None => r = 0 /\ i = i0 end /\
    c' = NetConf (<[k := cf]> (nc_peers c)) i.

(** The rest of the settings, unless an error came before. *)
Definition rest_conf (adv : bool) (flags : Z) (a : peer_attrs) (cf : peer_conf) : peer_conf :=
  let cf := match pa_keepalive a with Some v => with_keepalive v cf | None => cf end in
  match (if has_flag flags WGPEER_F_HAS_ADVANCED_SECURITY then Some (adv && pa_advanced_security a) else None) with
  | Some b => with_advanced b cf
  | None => cf
  end.

Definition spec_settings (adv : bool) (k : list Z) (flags : Z) (psk : option (list Z)) (a : peer_attrs) (c : net_conf) (r : Z) (c' : net_conf) : Prop :=
  exists c1, spec_addresses k flags psk a c r c1 /\
    c' = if r <? 0 then c1 else NetConf (alter (rest_conf adv flags a) k (nc_peers c1)) (nc_ips c1).

Definition new_conf (psk : option (list Z)) : peer_conf := PeerConf (default (zeros NOISE_SYMMETRIC_KEY_LEN) psk) (PeerSock EpNone None 0) 0 false.

(** When a peer cannot be created. *)
Definition create_fails (env : peer_env) (c : net_conf) : Prop :=
  MAX_PEERS_PER_DEVICE <= Z.of_nat (size (nc_peers c)) \/ (exists w, pe_alloc env w = None) \/ pe_dst_cache env = false.

(** A request about a peer, on a device whose own public key is [own]. *)
Definition spec_peer (own : option (list Z)) (adv : bool) (env : peer_env) (a : peer_attrs) (c : net_conf) (r : Z) (c' : net_conf) : Prop :=
  match key_attr (pa_public_key a) NOISE_PUBLIC_KEY_LEN with
  | None => r = - EINVAL /\ c' = c
  | Some k =>
      let psk := key_attr (pa_preshared_key a) NOISE_SYMMETRIC_KEY_LEN in
      let flags := default 0 (pa_flags a) in
      if match pa_protocol_version a with Some v => negb (v =? 1) | None => false end then r = - EPFNOSUPPORT /\ c' = c
      else
        match nc_peers c !! k with
        | Some _ => if has_flag flags WGPEER_F_REMOVE_ME then r = 0 /\ c' = without_peer k c else spec_settings adv k flags psk a c r c'
        | None =>
            if has_flag flags (Z.lor WGPEER_F_REMOVE_ME WGPEER_F_UPDATE_ONLY) then r = 0 /\ c' = c
            else if bool_decide (own = Some k) then r = 0 /\ c' = c
            else (r = - ENOMEM /\ c' = c /\ create_fails env c) \/
                 spec_settings adv k (Z.land flags (Z.lnot WGPEER_F_REPLACE_ALLOWEDIPS)) psk a (NetConf (<[k := new_conf psk]> (nc_peers c)) (nc_ips c)) r c'
        end
  end.

Inductive spec_peers (own : option (list Z)) (adv : bool) : list (Z + peer_attrs * peer_env) -> net_conf -> Z -> net_conf -> Prop :=
| spec_peers_nil c : spec_peers own adv [] c 0 c
| spec_peers_parse err l c : err < 0 -> spec_peers own adv (inl err :: l) c err c
| spec_peers_ok a env l c r1 c1 r c2 : 0 <= r1 -> spec_peer own adv env a c r1 c1 -> spec_peers own adv l c1 r c2 -> spec_peers own adv (inr (a, env) :: l) c r c2
| spec_peers_err a env l c r c1 : r < 0 -> spec_peer own adv env a c r c1 -> spec_peers own adv (inr (a, env) :: l) c r c1.

End Spec.

(** What the kernel's parser guarantees: an error is negative, and an address
    consists of bytes with a [u8] for its length. *)
Definition allowedip_ok (a : Z + allowedip_attrs) : Prop :=
  match a with
  | inl err => err < 0
  | inr a => match aa_ipaddr a with Some ip => all_bytes ip | None => True end /\ match aa_cidr a with Some c => 0 <= c < 256 | None => True end
  end.
Definition peer_attrs_ok (a : peer_attrs) : Prop := match pa_allowedips a with Some l => Forall allowedip_ok l | None => True end.

(** ** Allowed addresses *)

Section AllowedIps.

(** The peers of the device, and their keys. *)
Context (listed : Z -> Prop) (key : Z -> option (list Z)).
Hypothesis key_some : forall p, listed p -> is_Some (key p).
Hypothesis key_inj : forall p q, listed p -> listed q -> key p = key q -> p = q.

(** A table of peers and the same table with keys. *)
Definition ips_of (m : contents) (i : gmap (bool * list bool) (list Z)) : Prop :=
  (forall v q p, m v !! q = Some p -> listed p) /\ forall v q, i !! (v, q) = m v !! q ≫= key.

Lemma ips_of_insert m i v6 q p k : ips_of m i -> listed p -> key p = Some k ->
  ips_of (c_set m v6 (<[q := p]> (m v6))) (<[(v6, q) := k]> i).
Proof.
  intros [Hl Hi] Hp Hk. split.
  - intros v q' p'. unfold c_set. destruct (Bool.eqb v v6) eqn:E; [|apply Hl]. rewrite lookup_insert_Some. intros [[_ <-]|[_ H]]; [done|by apply Hl in H].
  - intros v q'. unfold c_set. destruct (Bool.eqb v v6) eqn:E.
    + apply eqb_prop in E as ->. rewrite !lookup_insert. destruct (decide (q = q')) as [->|D]; [by rewrite decide_True|]. rewrite decide_False by congruence. apply Hi.
    + apply eqb_false_iff in E. rewrite lookup_insert_ne by congruence. apply Hi.
Qed.

Lemma ips_of_delete m i v6 q : ips_of m i -> ips_of (c_set m v6 (delete q (m v6))) (delete (v6, q) i).
Proof.
  intros [Hl Hi]. split.
  - intros v q' p'. unfold c_set. destruct (Bool.eqb v v6) eqn:E; [|apply Hl]. rewrite lookup_delete_Some. intros [_ H]. by apply Hl in H.
  - intros v q'. unfold c_set. destruct (Bool.eqb v v6) eqn:E.
    + apply eqb_prop in E as ->. rewrite !lookup_delete. destruct (decide (q = q')) as [->|D]; [by rewrite decide_True|]. rewrite decide_False by congruence. apply Hi.
    + apply eqb_false_iff in E. rewrite lookup_delete_ne by congruence. apply Hi.
Qed.

Lemma ips_of_lookup m i v q p k : ips_of m i -> listed p -> key p = Some k -> m v !! q = Some p <-> i !! (v, q) = Some k.
Proof.
  intros [Hl Hi] Hp Hk. rewrite Hi. split; [intros ->; exact Hk|]. destruct (m v !! q) as [p'|] eqn:E; [|done]. cbn. intros Hk'.
  f_equal. apply key_inj; [by apply (Hl v q)|done|congruence].
Qed.

Lemma ips_of_filter m i p k : ips_of m i -> listed p -> key p = Some k ->
  ips_of (fun v => filter (fun x => x.2 <> p) (m v)) (filter (fun e => e.2 <> k) i).
Proof.
  intros H Hp Hk. pose proof H as [Hl Hi]. split.
  - intros v q p'. rewrite map_lookup_filter_Some. intros [H1 _]. by apply Hl in H1.
  - intros v q. apply option_eq. intros k'. rewrite map_lookup_filter_Some. cbn. rewrite Hi, !bind_Some. setoid_rewrite map_lookup_filter_Some. cbn. split.
    + intros [(p' & Hm & Hk') Hne]. exists p'. split; [|done]. split; [done|]. intros ->. congruence.
    + intros (p' & [Hm Hne] & Hk'). split; [by exists p'|]. intros ->. apply Hne, key_inj; [by apply (Hl v q)|done|congruence].
Qed.

(** The operation an address asks for. *)
Definition ip_op (p : Z) (x : bool * list Z * Z * bool) : op :=
  let '(v6, ip, c, remove) := x in if remove then OpRemove v6 ip c (Some p) else OpInsert v6 ip c (Some p).

Lemma set_allowedip_op p a t : set_allowedip p a t = match ip_valid a with Some x => AllowedIpsSpec.run_op (ip_op p x) t | None => Some (- EINVAL, t) end.
Proof.
  unfold set_allowedip, ip_valid. destruct (aa_family a), (aa_ipaddr a), (aa_cidr a); try done. cbn zeta.
  destruct (_ && _ && _); [by destruct (has_flag _ _)|]. destruct (_ && _ && _); [by destruct (has_flag _ _)|done].
Qed.

Lemma ip_valid_ok p a x : allowedip_ok (inr a) -> ip_valid a = Some x -> op_ok (ip_op p x) /\ let '(v6, _, c, _) := x in c <= wbits v6.
Proof.
  intros [Hb Hc]. unfold ip_valid. destruct (aa_family a) as [f|], (aa_ipaddr a) as [ip|], (aa_cidr a) as [c|]; try done. cbn zeta.
  destruct (_ && _ && _) eqn:E.
  - intros [= <-]. apply andb_true_iff in E as [E1%andb_true_iff E2%Z.eqb_eq]. destruct E1 as [_ E1%Z.leb_le].
    split; [destruct (has_flag _ _); cbn; ands; try done; lia|cbn; lia].
  - clear E. destruct (_ && _ && _) eqn:E; [|done]. intros [= <-]. apply andb_true_iff in E as [E1%andb_true_iff E2%Z.eqb_eq]. destruct E1 as [_ E1%Z.leb_le].
    split; [destruct (has_flag _ _); cbn; ands; try done; lia|cbn; lia].
Qed.

Lemma set_allowedip_ok p k a t m i : holds t m -> ips_of m i -> listed p -> key p = Some k -> allowedip_ok (inr a) ->
  exists r t' m' i', set_allowedip p a t = Some (r, t') /\ holds t' m' /\ ips_of m' i' /\ spec_ip k a r i i' /\ r <= 0.
Proof.
  intros Hh Hi Hp Hk Ha. rewrite set_allowedip_op. unfold spec_ip. destruct (ip_valid a) as [[[[v6 ip] c] remove]|] eqn:E; [|exists (- EINVAL), t, m, i; done].
  destruct (ip_valid_ok p a _ Ha E) as [Hop Hc]. destruct (op_refines t m _ Hh Hop) as (r & t' & Hrun & Ht' & Hret).
  cbn in Hc. exists r, t', (spec_op (ip_op p (v6, ip, c, remove)) r m). destruct remove; cbn in *.
  - rewrite (proj2 (Z.ltb_ge _ _)) in Hret by lia. subst r. cbn in *.
    rewrite (bool_decide_ext _ _ (ips_of_lookup m i v6 (prefix_of_ip v6 ip c) p k Hi Hp Hk)) in *.
    case_bool_decide; eexists; (split; [done|]); (split; [done|]); (split; [|done]); [by apply ips_of_delete|done].
  - rewrite (proj2 (Z.ltb_ge _ _)) in Hret by lia. cbn in Hret. destruct Hret as [->|[-> _]].
    + eexists. split; [done|]. split; [done|]. split; [by apply ips_of_insert|]. split; [by left|done].
    + eexists. split; [done|]. split; [done|]. split; [exact Hi|]. split; [by right|done].
Qed.

Lemma set_allowedips_ok p k l : listed p -> key p = Some k -> Forall allowedip_ok l -> forall t m i, holds t m -> ips_of m i ->
  exists r t' m' i', set_allowedips p l 0 t = Some (r, t') /\ holds t' m' /\ ips_of m' i' /\ spec_ips k l i r i' /\ r <= 0.
Proof.
  intros Hp Hk. induction 1 as [|[err|a] l Ha _ IH]; intros t m i Hh Hi; cbn [set_allowedips].
  - exists 0, t, m, i. ands; try done. constructor.
  - cbn in Ha. rewrite (proj2 (Z.ltb_lt _ _)) by lia. exists err, t, m, i. ands; try done; [by constructor|lia].
  - destruct (set_allowedip_ok p k a t m i Hh Hi Hp Hk Ha) as (r & t1 & m1 & i1 & Hr & Hh1 & Hi1 & Hs & Hr0). rewrite Hr. cbn [mbind option_bind].
    destruct (Z.ltb_spec r 0) as [Hneg|Hpos]; [exists r, t1, m1, i1; ands; try done; by econstructor|].
    assert (r = 0) as -> by lia. destruct (IH t1 m1 i1 Hh1 Hi1) as (r2 & t2 & m2 & i2 & H1 & H2 & H3 & H4 & H5).
    exists r2, t2, m2, i2. ands; try done. by econstructor.
Qed.

End AllowedIps.

(** ** The peers of a device *)

Section World.
Context (siphash : list Z -> Z) (handshake_entry : Z -> Z) `{!Inj (=) (=) handshake_entry}.

(** Between requests: the invariant of [Peer], with the references that other
    contexts hold, when no reader is waited for. *)
Definition net_ok (w : world) (h : gmultiset Z) : Prop := life_ok siphash handshake_entry (Life w h false [] ∅) /\ readers w = ∅.

(** The device has exactly these peers and prefixes. *)
Record reps (w : world) (c : net_conf) : Prop := {
  rp_peers : forall k cf, nc_peers c !! k = Some cf <-> exists p x, p ∈ peer_list w /\ mem w !! p = Some x /\ wp_remote_static x = k /\ wp_conf x = cf;
  rp_ips : exists m, holds (peer_allowedips w) m /\ ips_of (fun p => p ∈ peer_list w) (key_at w) m (nc_ips c)
}.

Lemma listed_mem w h p : net_ok w h -> p ∈ peer_list w -> exists x, mem w !! p = Some x /\ wp_is_dead x = false /\ 0 < wp_refcount x.
Proof.
  intros [[Hr Hc] _] Hp. cbn in *. pose proof (proj1 (c_live _ _ _ _ _ Hc p) Hp) as Hd. unfold dead_at in Hd.
  destruct (mem w !! p) as [x|] eqn:E; [|done]. exists x. split; [done|]. split; [by injection Hd|].
  destruct (ref_pos _ _ _ p Hr) as (y & Hy & Hn); [by apply (refs_listed handshake_entry)|]. pose proof (refs_listed handshake_entry (Life w h false [] ∅) p Hp). rewrite E in Hy. injection Hy as ->. lia.
Qed.

Lemma key_unique w h p q : net_ok w h -> p ∈ peer_list w -> q ∈ peer_list w -> key_at w p = key_at w q -> p = q.
Proof.
  intros Hok Hp Hq Hk. destruct (listed_mem w h p Hok Hp) as (x & Hx & _). destruct Hok as [[_ Hc] _]. destruct (c_pk _ _ _ _ _ Hc) as (m & _ & Hml). cbn in *.
  assert (key_at w p = Some (wp_remote_static x)) as Hkp by (unfold key_at; by rewrite Hx).
  assert (m !! wp_remote_static x = Some p) as H1 by (by apply Hml). assert (m !! wp_remote_static x = Some q) as H2 by (apply Hml; split; congruence). congruence.
Qed.

(** What does not touch keys, settings, the list and the addresses. *)
Lemma reps_same w w' c : same_peers w w' -> peer_list w' = peer_list w -> peer_allowedips w' = peer_allowedips w -> reps w c -> reps w' c.
Proof.
  intros Hs Hl Hi [Hp (m & Hh & Hm)]. split.
  - intros k cf. rewrite Hp, Hl. assert (forall p, (fun x => (wp_remote_static x, wp_conf x)) <$> mem w' !! p = (fun x => (wp_remote_static x, wp_conf x)) <$> mem w !! p) as He.
    { intros p. by apply (via_clear (fun x => (wp_remote_static x, wp_conf x)) w w'). }
    split; intros (p & x & H1 & H2 & H3 & H4); specialize (He p); rewrite H2 in He; cbn in He;
      [|symmetry in He]; apply fmap_Some in He as (y & Hy & E); injection E as E1 E2; exists p, y; ands; try done; congruence.
  - exists m. rewrite Hi. split; [done|]. destruct Hm as [Hm1 Hm2]. split; [by rewrite Hl|]. intros v q. rewrite Hm2. destruct (m v !! q) as [p|]; [|done].
    cbn. unfold key_at. by rewrite (via_clear wp_remote_static w w').
Qed.

Lemma net_ok_life w h : net_ok w h -> life_ok siphash handshake_entry (Life w h false [] ∅).
Proof. by intros [H _]. Qed.

Lemma peer_get_ok w h p x c : net_ok w h -> reps w c -> mem w !! p = Some x -> wp_refcount x <> 0 ->
  let w' := set_mem (<[p := set_ref (wp_refcount x + 1) x]> (mem w)) w in net_ok w' ({[+ p +]} ⊎ h) /\ reps w' c.
Proof.
  intros [[Hr Hc] Hrd] Hrep Hx Hn. cbn in *. assert (same_peers w (set_mem (<[p := set_ref (wp_refcount x + 1) x]> (mem w)) w)) as Hs by (by eapply same_peers_insert).
  split; [|by apply (reps_same w)]. split; [|done]. split; cbn.
  - eapply refs_ok_ext; [..|apply (reref_ok _ _ _ p x 1 Hr Hx Hn)]; try done; [intros q; by apply (refs_get handshake_entry (Life w h false [] ∅))|].
    pose proof (r_exp _ _ _ Hr p) as [_ He]. unfold ref_at in He. rewrite Hx in He. cbn in He. pose proof (r_exp _ _ _ Hr p) as [He0 _]. lia.
  - eapply conf_ok_ext; [..|exact Hc]; try done. intros r v Hv. by exists v.
Qed.

Lemma net_put_ok w h p c : net_ok w ({[+ p +]} ⊎ h) -> reps w c ->
  exists w', wg_peer_put handshake_entry w (Some p) = Some w' /\ net_ok w' h /\ reps w' c /\ peer_list w' = peer_list w /\ same_peers w w'.
Proof.
  intros [Hok Hrd] Hrep. set (s := Life w ({[+ p +]} ⊎ h) false [] ∅) in *. assert (p ∈ held s) as Hp by (cbn [s held]; multiset_solver).
  destruct (peer_put_ok handshake_entry w (refs s) p (proj1 Hok)) as (w' & Hput & Hr' & Hs & Hl & Hnum & Hh & Hi & Hrd').
  { by apply (refs_held handshake_entry). } { by apply (last_held_idle siphash handshake_entry). }
  exists w'. split; [done|]. split; [|split; [by apply (reps_same w)|done]]. split; [|by rewrite Hrd'].
  assert (held s ∖ {[+ p +]} = h) as Hd by (cbn [s held]; multiset_solver). split; cbn.
  - rewrite <- Hd. eapply refs_ok_ext; [..|exact Hr']; try done. intros q. by apply (refs_put handshake_entry s).
  - eapply conf_ok_ext; [..|exact (proj2 Hok)]; try done; [by rewrite Hrd'|]. intros r v Hv. rewrite Hrd' in Hv. by exists v.
Qed.

Lemma lookup_peer_ok w h c k : net_ok w h -> reps w c ->
  match nc_peers c !! k with
  | None => lookup_peer siphash k w = Some (None, w)
  | Some cf => exists p x w', lookup_peer siphash k w = Some (Some p, w') /\ p ∈ peer_list w /\ mem w !! p = Some x /\ wp_remote_static x = k /\ wp_conf x = cf /\
      net_ok w' ({[+ p +]} ⊎ h) /\ reps w' c /\ peer_list w' = peer_list w /\ same_peers w w'
  end.
Proof.
  intros Hok Hrep. pose proof Hok as [[_ Hc] _]. destruct (c_pk _ _ _ _ _ Hc) as (m & Hpk & Hml). cbn in *.
  unfold lookup_peer, wg_pubkey_hashtable_lookup. rewrite (pk_find _ _ m k Hpk). destruct (m !! k) as [p|] eqn:E.
  - apply Hml in E as [Hp Hk]. destruct (listed_mem w h p Hok Hp) as (x & Hx & _ & Hn). unfold key_at in Hk. rewrite Hx in Hk. injection Hk as Hk.
    assert (nc_peers c !! k = Some (wp_conf x)) as Hcf by (apply (rp_peers _ _ Hrep); eauto 6). rewrite Hcf. unfold refs_of. rewrite Hx.
    destruct (Z.eqb_spec (wp_refcount x) 0) as [?|Hne]; [lia|]. cbn [negb]. unfold wg_peer_get_maybe_zero. rewrite Hx, (proj2 (Z.eqb_neq _ _) Hne).
    destruct (peer_get_ok w h p x c Hok Hrep Hx Hne) as [H1 H2]. eexists p, x, _. ands; try done. by eapply same_peers_insert.
  - destruct (nc_peers c !! k) as [cf|] eqn:E2; [|done]. apply (rp_peers _ _ Hrep) in E2 as (p & x & Hp & Hx & Hk & _).
    assert (m !! k = Some p) by (apply Hml; split; [done|]; unfold key_at; rewrite Hx; cbn; by rewrite Hk). congruence.
Qed.

(** *** Settings *)

(** Writing the settings of a listed peer. *)
Lemma on_conf_net w h p f : net_ok w h -> p ∈ peer_list w ->
  exists x, mem w !! p = Some x /\ on_conf p f w = Some (set_mem (<[p := set_conf (f (wp_conf x)) x]> (mem w)) w) /\
    net_ok (set_mem (<[p := set_conf (f (wp_conf x)) x]> (mem w)) w) h.
Proof.
  intros Hok Hp. destruct (listed_mem w h p Hok Hp) as (x & Hx & Hdead & _). exists x. split; [done|]. unfold on_conf, on_peer. rewrite Hx. split; [done|].
  destruct Hok as [[Hr Hc] Hrd]. split; [|done]. split; cbn in *.
  - eapply refs_ok_ext; [..|exact Hr]; try done; intros q.
    + unfold ref_at. cbn. rewrite lookup_insert. case_decide; [subst q; by rewrite Hx|done].
    + unfold kps_at. cbn. rewrite lookup_insert. case_decide; [subst q; by rewrite Hx|done].
  - eapply conf_touch; [exact Hc|exact Hx|done|done|]. congruence.
Qed.

Lemma on_conf_ok w h c p k cf f : net_ok w h -> reps w c -> p ∈ peer_list w -> key_at w p = Some k -> nc_peers c !! k = Some cf ->
  exists w', on_conf p f w = Some w' /\ net_ok w' h /\ reps w' (NetConf (<[k := f cf]> (nc_peers c)) (nc_ips c)) /\
    peer_list w' = peer_list w /\ key_at w' p = Some k /\ peer_allowedips w' = peer_allowedips w.
Proof.
  intros Hok Hrep Hp Hk Hcf. destruct (on_conf_net w h p f Hok Hp) as (x & Hx & Hw & Hok'). rewrite Hw.
  eexists. split; [reflexivity|]. set (w' := set_mem _ w) in *. unfold key_at in Hk. rewrite Hx in Hk. injection Hk as Hk.
  assert (forall q, key_at w' q = key_at w q) as Hkey.
  { intros q. unfold key_at. cbn. rewrite lookup_insert. case_decide; [subst q; by rewrite Hx|done]. }
  assert (wp_conf x = cf) as Hxc.
  { apply (rp_peers _ _ Hrep) in Hcf as (q & y & Hq & Hy & Hky & <-). assert (p = q) as <-; [|congruence].
    apply (key_unique w h); try done. unfold key_at. rewrite Hx, Hy. cbn. congruence. }
  split; [|split; [|ands; try done; rewrite Hkey; unfold key_at; rewrite Hx; cbn; by rewrite Hk]].
  - exact Hok'.
  - destruct Hrep as [Hpe (m & Hh & Hm1 & Hm2)]. split; cbn.
    + intros k' cf'. rewrite lookup_insert_Some, Hpe. split.
      * intros [[<- <-]|(Hne & q & y & Hq & Hy & Hky & Hcy)].
        -- exists p, (set_conf (f (wp_conf x)) x). rewrite lookup_insert_eq. cbn. ands; congruence.
        -- exists q, y. rewrite lookup_insert_ne by (intros ->; congruence). done.
      * intros (q & y & Hq & Hy & Hky & Hcy). rewrite lookup_insert in Hy. case_decide as D.
        -- subst q. injection Hy as <-. left. cbn in *. split; congruence.
        -- right. split; [|eauto 8]. intros ->. apply D, (key_unique w h); try done. unfold key_at. rewrite Hx, Hy. cbn. congruence.
    + exists m. split; [done|]. split; [done|]. intros v q. rewrite Hm2. destruct (m v !! q); [|done]. cbn. by rewrite Hkey.
Qed.

(** The same change to the settings of several peers. *)
Lemma each_conf_ok f l : forall w h, net_ok w h -> NoDup l -> (forall p, p ∈ l -> p ∈ peer_list w) ->
  exists w', peers_each (fun p => on_conf p f) l w = Some w' /\ net_ok w' h /\ peer_list w' = peer_list w /\ peer_allowedips w' = peer_allowedips w /\
    forall q, mem w' !! q = (fun x => if decide (q ∈ l) then set_conf (f (wp_conf x)) x else x) <$> mem w !! q.
Proof.
  unfold peers_each. induction l as [|p l IH]; intros w h Hok Hnd Hl; cbn [fold_left].
  - exists w. ands; try done. intros q. destruct (mem w !! q); [|done]. cbn. rewrite decide_False; [done|]. apply not_elem_of_nil.
  - apply NoDup_cons in Hnd as [Hnp Hnd]. destruct (on_conf_net w h p f Hok) as (x & Hx & Hw & Hok1); [apply Hl, elem_of_cons; by left|].
    cbn [mbind option_bind]. rewrite Hw. destruct (IH _ h Hok1 Hnd) as (w' & Hf & Hok' & Hl' & Hi' & Hm'); [intros q Hq; apply Hl, elem_of_cons; by right|].
    exists w'. ands; try done. intros q. rewrite Hm'. cbn. rewrite lookup_insert. destruct (decide (p = q)) as [<-|D].
    + rewrite Hx. cbn. rewrite decide_False by done. rewrite decide_True by (apply elem_of_cons; by left). done.
    + destruct (mem w !! q); [|done]. cbn. f_equal. destruct (decide (q ∈ l)); [rewrite decide_True by (apply elem_of_cons; by right)|rewrite decide_False by (rewrite elem_of_cons; naive_solver)]; done.
Qed.

(** A change to the settings of all peers. *)
Lemma all_conf_ok f w h c : net_ok w h -> reps w c ->
  exists w', peers_each (fun p => on_conf p f) (peer_list w) w = Some w' /\ net_ok w' h /\ reps w' (NetConf (f <$> nc_peers c) (nc_ips c)).
Proof.
  intros Hok [Hpe (m & Hh & Hm1 & Hm2)]. assert (NoDup (peer_list w)) as Hnd.
  { destruct Hok as [[_ Hc] _]. exact (proj1 (proj1 (NoDup_app _ _) (c_nodup _ _ _ _ _ Hc))). }
  destruct (each_conf_ok f (peer_list w) w h Hok Hnd ltac:(done)) as (w' & Hf & Hok' & Hl' & Hi' & Hm'). exists w'. split; [done|]. split; [done|].
  assert (forall q, key_at w' q = key_at w q) as Hkey.
  { intros q. unfold key_at. rewrite Hm'. destruct (mem w !! q); [|done]. cbn. by case_decide. }
  split; cbn.
  - intros k cf. rewrite lookup_fmap_Some, Hl'. split.
    + intros (cf0 & <- & Hcf). apply Hpe in Hcf as (p & x & Hp & Hx & Hk & <-). exists p, (set_conf (f (wp_conf x)) x). rewrite Hm', Hx. cbn. rewrite decide_True by done. done.
    + intros (p & y & Hp & Hy & Hk & <-). rewrite Hm' in Hy. destruct (mem w !! p) as [x|] eqn:Hx; [|done]. cbn in Hy. rewrite decide_True in Hy by done. injection Hy as <-.
      exists (wp_conf x). split; [done|]. apply Hpe. eauto 8.
  - exists m. rewrite Hi'. split; [done|]. split; [by rewrite Hl'|]. intros v q. rewrite Hm2. destruct (m v !! q); [|done]. cbn. by rewrite Hkey.
Qed.

(** A new table of allowed addresses. *)
Lemma set_ips_ok w h c t m i : net_ok w h -> reps w c -> holds t m -> ips_of (fun p => p ∈ peer_list w) (key_at w) m i ->
  net_ok (set_ips t w) h /\ reps (set_ips t w) (NetConf (nc_peers c) i).
Proof.
  intros [[Hr Hc] Hrd] [Hpe _] Hh Hi. split.
  - split; [|done]. split; cbn in *; [eapply refs_ok_ext; [..|exact Hr]; done|].
    destruct Hc as [C1 C2 C3 C4 C5 C6 C7 C8 C9 C10 C11]. split; try done. exists m. split; [done|]. exact (proj1 Hi).
  - split; [exact Hpe|]. by exists m.
Qed.

Lemma ips_keys w h c : net_ok w h -> reps w c -> exists m, holds (peer_allowedips w) m /\ ips_of (fun p => p ∈ peer_list w) (key_at w) m (nc_ips c) /\
  forall p q, p ∈ peer_list w -> q ∈ peer_list w -> key_at w p = key_at w q -> p = q.
Proof. intros Hok [_ (m & Hh & Hm)]. exists m. ands; try done. intros p q. by apply (key_unique w h). Qed.

(** *** Creation *)

(** The device counts the peers of the specification. *)
Lemma reps_size w h c : net_ok w h -> reps w c -> num_peers w = Z.of_nat (size (nc_peers c)).
Proof.
  intros Hok Hrep. pose proof Hok as [[_ Hc] _]. cbn in Hc. rewrite (c_num _ _ _ _ _ Hc), app_nil_r. unfold len. f_equal.
  pose proof (c_nodup _ _ _ _ _ Hc) as Hnd. rewrite app_nil_r in Hnd.
  assert (forall l, (forall p, p ∈ l -> p ∈ peer_list w) -> NoDup l -> NoDup (omap (key_at w) l) /\ length (omap (key_at w) l) = length l) as Hl.
  { induction l as [|p l IH]; intros Hin Hn; [split; [constructor|done]|]. apply NoDup_cons in Hn as [Hp Hn]. destruct (IH ltac:(intros q Hq; apply Hin, elem_of_cons; by right) Hn) as [H1 H2].
    assert (p ∈ peer_list w) as Hpl by (apply Hin, elem_of_cons; by left). destruct (listed_mem w h p Hok Hpl) as (x & Hx & _).
    assert (key_at w p = Some (wp_remote_static x)) as Hk by (unfold key_at; by rewrite Hx). cbn. rewrite Hk. split; [|cbn; by rewrite H2].
    apply NoDup_cons. split; [|done]. rewrite list_elem_of_omap. intros (q & Hq & Hkq). apply Hp. rewrite (key_unique w h p q Hok Hpl); [done| |congruence]. apply Hin, elem_of_cons. by right. }
  destruct (Hl (peer_list w) ltac:(done) Hnd) as [H1 H2]. rewrite <- H2, <- (size_list_to_set (C := gset (list Z)) _ H1), <- size_dom. f_equal. apply set_eq. intros k.
  rewrite elem_of_list_to_set, elem_of_dom, list_elem_of_omap. split.
  - intros (p & Hp & Hk). destruct (listed_mem w h p Hok Hp) as (x & Hx & _). unfold key_at in Hk. rewrite Hx in Hk. injection Hk as Hk. exists (wp_conf x). apply (rp_peers _ _ Hrep). eauto 8.
  - intros [cf Hcf]. apply (rp_peers _ _ Hrep) in Hcf as (p & x & Hp & Hx & Hk & _). exists p. split; [done|]. unfold key_at. rewrite Hx. cbn. by rewrite Hk.
Qed.

Definition fresh_alloc (env : peer_env) : Prop :=
  forall w a, pe_alloc env w = Some a -> mem w !! a = None /\ forall p x, mem w !! p = Some x -> handshake_entry a ∉ wp_keypairs x.

Lemma publish_nothing p w : readers w = ∅ -> publish p w = w.
Proof. intros H. unfold publish. rewrite H, fmap_empty. destruct w. cbn in *. by subst. Qed.

Lemma create_ok w h c env k psk : net_ok w h -> reps w c -> fresh_alloc env -> nc_peers c !! k = None ->
  (exists err, wg_peer_create siphash handshake_entry w (pe_alloc env w) (pe_dst_cache env) k psk = (inl err, w) /\ err = - ENOMEM /\ create_fails env c) \/
  (exists p w', wg_peer_create siphash handshake_entry w (pe_alloc env w) (pe_dst_cache env) k psk = (inr p, w') /\
     net_ok w' h /\ reps w' (NetConf (<[k := new_conf psk]> (nc_peers c)) (nc_ips c)) /\ p ∈ peer_list w' /\ key_at w' p = Some k /\
     exists x, mem w' !! p = Some x /\ wp_refcount x = 1).
Proof.
  intros Hok Hrep Henv Hk. pose proof (lookup_peer_ok w h c k Hok Hrep) as Hlook. rewrite Hk in Hlook.
  assert (enabled siphash handshake_entry (EvCreate (pe_alloc env w) (pe_dst_cache env) k psk) (Life w h false [] ∅)) as Hen.
  { split; [done|]. split; [|destruct (pe_alloc env w) as [a|] eqn:E; [by apply Henv|done]]. cbn. unfold lookup_peer in Hlook.
    destruct (wg_pubkey_hashtable_lookup _ _ _ _) as [q|] eqn:E; [|done]. exfalso. cbn in Hlook. unfold wg_pubkey_hashtable_lookup in E.
    destruct (find _ _) as [q'|]; [|done]. destruct (refs_of w q') eqn:Er; [|done]. injection E as ->. unfold refs_of in Er.
    destruct (mem w !! q) as [x|]; [|done]. by destruct (wp_refcount x =? 0). }
  destruct (ev_create_ok siphash handshake_entry _ _ _ _ _ (net_ok_life w h Hok) Hen) as (s' & Hex & Hok'). cbn [exec] in Hex. unfold wg_peer_create in *.
  cbn [dev] in *. unfold create_fails. rewrite <- (reps_size w h c Hok Hrep).
  destruct (Z.leb_spec MAX_PEERS_PER_DEVICE (num_peers w)) as [Hmax|_]; [left; eexists; eauto|]. destruct (pe_alloc env w) as [a|] eqn:Ea; [|left; eexists; eauto 6]. destruct (pe_dst_cache env) eqn:Edst; [|left; eexists; eauto 6].
  cbn [negb] in *. right. destruct (Henv w a Ea) as [Hnew _]. exists a. eexists. split; [reflexivity|]. set (w' := World _ _ _ _ _ _ _ _ _) in *.
  rewrite publish_nothing in Hex by (exact (proj2 Hok)). injection Hex as <-. split; [split; [exact Hok'|exact (proj2 Hok)]|].
  assert (a ∉ peer_list w) as Hal by (intros (x & Hx & _)%(listed_mem w h _ Hok); congruence).
  assert (forall q, q <> a -> mem w' !! q = mem w !! q) as Hother by (intros q Hq; cbn; by rewrite lookup_insert_ne).
  assert (forall q, q ∈ peer_list w -> key_at w' q = key_at w q) as Hkey.
  { intros q Hq. unfold key_at. rewrite Hother; [done|]. by intros ->. }
  split; [|split; [cbn; apply elem_of_app; right; by apply list_elem_of_singleton|split; [unfold key_at; cbn; by rewrite lookup_insert_eq|eexists; cbn; rewrite lookup_insert_eq; done]]].
  destruct Hrep as [Hpe (m & Hh & Hm1 & Hm2)]. split.
  - intros k' cf'. cbn [nc_peers]. rewrite lookup_insert_Some, Hpe. cbn [peer_list w']. setoid_rewrite elem_of_app. setoid_rewrite list_elem_of_singleton. split.
    + intros [[<- <-]|(Hne & q & y & Hq & Hy & Hr)]; [eexists a, _; split; [by right|]; cbn; rewrite lookup_insert_eq; done|].
      exists q, y. split; [by left|]. rewrite Hother; [done|]. by intros ->.
    + intros (q & y & [Hq| ->] & Hy & Hky & Hcy).
      * right. rewrite Hother in Hy by (by intros ->). split; [|eauto 8]. intros <-. assert (nc_peers c !! k = Some cf') by (apply Hpe; eauto 8). congruence.
      * left. cbn in Hy. rewrite lookup_insert_eq in Hy. injection Hy as <-. done.
  - exists m. split; [apply holds_delete_list; [done|]; intros v q Hq; by apply Hm1 in Hq|]. split.
    + intros v q p' Hq. cbn. apply elem_of_app. left. by apply Hm1 in Hq.
    + intros v q. cbn [nc_ips]. rewrite Hm2. destruct (m v !! q) as [p'|] eqn:E; [|done]. cbn. symmetry. apply Hkey. by apply Hm1 in E.
Qed.

(** *** Removal *)

Lemma make_dead_effect p w w' m : peer_make_dead p w = Some w' -> holds (peer_allowedips w) m ->
  holds (peer_allowedips w') (fun v => filter (fun x => x.2 <> p) (m v)) /\ peer_list w' = filter (fun q => q <> p) (peer_list w) /\
  forall q, q <> p -> mem w' !! q = mem w !! q.
Proof.
  intros Hd Hh. destruct (remove_by_peer_run _ m p Hh) as (t & Ht & Hht). unfold peer_make_dead, on_peer in Hd. cbn in Hd. rewrite Ht in Hd. cbn in Hd.
  destruct (mem w !! p) as [x|]; [|done]. injection Hd as <-. ands; try done. intros q Hq. cbn. by rewrite lookup_insert_ne.
Qed.

Lemma put_effect p w w' : wg_peer_put handshake_entry w (Some p) = Some w' ->
  peer_allowedips w' = peer_allowedips w /\ peer_list w' = peer_list w /\ forall q, q <> p -> mem w' !! q = mem w !! q.
Proof.
  unfold wg_peer_put, kref_release, on_peer. destruct (mem w !! p) as [x|]; [|done]. destruct (_ =? 0).
  - cbn. rewrite lookup_insert_eq. intros [= <-]. ands; try done. intros q Hq. cbn. by rewrite !lookup_insert_ne.
  - intros [= <-]. ands; try done. intros q Hq. cbn. by rewrite lookup_insert_ne.
Qed.

Lemma after_dead_effect p w w' : peer_remove_after_dead handshake_entry p w = Some w' ->
  peer_allowedips w' = peer_allowedips w /\ peer_list w' = peer_list w /\ forall q, q <> p -> mem w' !! q = mem w !! q.
Proof.
  unfold peer_remove_after_dead, keypairs_clear, on_peer. destruct (mem w !! p) as [x|]; [|done]. cbn [mbind option_bind mem set_mem set_ix].
  rewrite lookup_insert_eq. cbn [mbind option_bind mem set_mem set_ix]. rewrite lookup_insert_eq. cbn [mbind option_bind]. intros H.
  apply put_effect in H as (H1 & H2 & H3). ands; [done|done|]. intros q Hq. rewrite H3 by done. cbn. by rewrite !lookup_insert_ne.
Qed.

Lemma reps_removed w w' h c p k m : net_ok w h -> reps w c -> p ∈ peer_list w -> key_at w p = Some k ->
  holds (peer_allowedips w) m -> ips_of (fun p => p ∈ peer_list w) (key_at w) m (nc_ips c) ->
  holds (peer_allowedips w') (fun v => filter (fun x => x.2 <> p) (m v)) -> peer_list w' = filter (fun q => q <> p) (peer_list w) ->
  (forall q, q <> p -> mem w' !! q = mem w !! q) -> reps w' (without_peer k c).
Proof.
  intros Hok [Hpe _] Hp Hk Hh Hi Hh' Hl Hm. assert (forall q, q <> p -> key_at w' q = key_at w q) as Hkey by (intros q Hq; unfold key_at; by rewrite Hm).
  assert (forall q, q ∈ peer_list w -> key_at w q = Some k -> q = p) as Huniq by (intros q Hq Hkq; apply (key_unique w h); congruence).
  split; cbn.
  - intros k' cf. rewrite lookup_delete_Some, Hpe, Hl. setoid_rewrite list_elem_of_filter. split.
    + intros (Hne & q & y & Hq & Hy & Hky & Hcy). assert (q <> p). { intros ->. unfold key_at in Hk. rewrite Hy in Hk. injection Hk as Hk. congruence. }
      exists q, y. rewrite Hm by done. ands; done.
    + intros (q & y & [Hne Hq] & Hy & Hky & Hcy). rewrite Hm in Hy by done. split; [|eauto 8]. intros <-. apply Hne, Huniq; [done|]. unfold key_at. rewrite Hy. cbn. by rewrite Hky.
  - exists (fun v => filter (fun x => x.2 <> p) (m v)). split; [done|]. destruct (ips_of_filter _ _ (fun a b => key_unique w h a b Hok) m (nc_ips c) p k Hi Hp Hk) as [F1 F2]. split.
    + intros v q p' Hq. rewrite Hl. apply list_elem_of_filter. rewrite map_lookup_filter_Some in Hq. destruct Hq as [Hq Hne]. split; [done|]. by apply (proj1 Hi) in Hq.
    + intros v q. rewrite F2. destruct (filter _ (m v) !! q) as [p'|] eqn:E; [|done]. cbn. symmetry. apply Hkey. by apply map_lookup_filter_Some in E as [_ ?].
Qed.

Lemma net_remove_ok w h c p k : net_ok w h -> reps w c -> p ∈ peer_list w -> key_at w p = Some k ->
  exists w', wg_peer_remove handshake_entry w (Some p) = Some w' /\ net_ok w' h /\ reps w' (without_peer k c).
Proof.
  intros Hok Hrep Hp Hk. pose proof Hok as [Hlife Hrd]. destruct (lock_ok _ _ _ Hlife eq_refl) as [Hlock _]. cbn [dev held readers] in Hlock. rewrite Hrd, dom_empty_L in Hlock.
  destruct (make_dead_ok siphash handshake_entry (Life w h true [] ∅) p Hlock eq_refl) as (w1 & Hd & Hok1 & Hl1 & Hr1); [cbn; by rewrite Hrd, dom_empty_L|done|].
  destruct (after_dead_ok siphash handshake_entry (Life w1 h true [p] ∅) p [] Hok1 eq_refl eq_refl eq_refl) as (w2 & Ha & Hok2 & Hr2).
  destruct (ips_keys w h c Hok Hrep) as (m & Hh & Hi & _). cbn [dev] in *. exists w2. cbn. rewrite Hd. cbn. split; [exact Ha|].
  destruct (make_dead_effect p w w1 m Hd Hh) as (E1 & E2 & E3). destruct (after_dead_effect p w1 w2 Ha) as (F1 & F2 & F3). split.
  - split; [|by rewrite Hr2, Hr1]. by apply unlock_ok.
  - apply (reps_removed w w2 h c p k m); try done; [by rewrite F1|by rewrite F2|]. intros q Hq. by rewrite F3, E3.
Qed.

(** Without a peer there is no configuration. *)
Lemma reps_nobody w h : net_ok w h -> peer_list w = [] -> reps w no_conf.
Proof.
  intros [[_ Hc] _] Hl. split; cbn.
  - intros k cf. rewrite lookup_empty, Hl. split; [done|]. intros (p & x & H & _). by apply not_elem_of_nil in H.
  - destruct (c_ips _ _ _ _ _ Hc) as (m & Hh & Hm). exists m. split; [done|]. split; [exact Hm|]. intros v q. rewrite lookup_empty.
    destruct (m v !! q) as [p|] eqn:E; [|done]. apply Hm in E. cbn in E. rewrite Hl in E. by apply not_elem_of_nil in E.
Qed.

Lemma after_dead_each_list l : forall w w', peers_each (peer_remove_after_dead handshake_entry) l w = Some w' -> peer_list w' = peer_list w.
Proof.
  unfold peers_each. induction l as [|p l IH]; intros w w'; cbn [fold_left]; [congruence|]. cbn [mbind option_bind].
  destruct (peer_remove_after_dead handshake_entry p w) as [w1|] eqn:E.
  - intros H. rewrite (IH w1 w' H). by apply (after_dead_effect p).
  - intros H. exfalso. clear IH E. induction l; cbn in H; [done|]. auto.
Qed.

Lemma net_remove_all_ok w h : net_ok w h -> exists w', wg_peer_remove_all handshake_entry w = Some w' /\ net_ok w' h /\ reps w' no_conf.
Proof.
  intros [Hlife Hrd]. destruct (lock_ok _ _ _ Hlife eq_refl) as [Hlock _]. destruct (ips_free_ok _ _ _ Hlock) as (t & Ht & Hok1). cbn [dev held locked dying waits] in *.
  rewrite Hrd, dom_empty_L in Hok1. destruct (make_dead_each siphash handshake_entry (peer_list w) (Life (set_ips t w) h true [] ∅) Hok1 eq_refl) as (w1 & Hd & Hok2 & Hl1 & Hr1); [cbn; by rewrite Hrd, dom_empty_L|done|].
  cbn [dev held dying waits app] in *. destruct (after_dead_each siphash handshake_entry (peer_list w) (Life w1 h true (peer_list w) ∅) Hok2 eq_refl eq_refl eq_refl) as (w2 & Ha & Hok3 & Hr3).
  cbn [dev held] in *. exists w2. unfold wg_peer_remove_all, remove_all_begin. rewrite Ht. cbn [mbind option_bind]. rewrite Hd. cbn [mbind option_bind]. split; [exact Ha|].
  assert (net_ok w2 h) as Hok.
  { split; [|rewrite Hr3, Hr1; exact Hrd]. by apply unlock_ok. }
  split; [done|]. apply (reps_nobody w2 h); [done|]. by rewrite (after_dead_each_list _ _ _ Ha).
Qed.

End World.

(** ** Requests *)

Section Requests.
Context (siphash : list Z -> Z) (handshake_entry : Z -> Z) `{!Inj (=) (=) handshake_entry} (ipv6 : bool).

Abbreviation net_ok := (net_ok siphash handshake_entry).

(** The device's own key is not that of a peer. *)
Definition own_key (id : noise_static_identity) : option (list Z) := if has_identity id then Some (static_public id) else None.
Definition not_own (id : noise_static_identity) (c : net_conf) : Prop := forall k, own_key id = Some k -> nc_peers c !! k = None.

(** The state of a device between the requests of an administrator. *)
Definition dev_ok (d : wg_device) (h : gmultiset Z) (c : net_conf) : Prop :=
  net_ok (wd_world d) h /\ reps (wd_world d) c /\ not_own (wd_identity d) c.

(** An optional write to the settings. *)
Lemma opt_conf_ok {A} (o : option A) (f : A -> peer_conf -> peer_conf) w h c p k cf : net_ok w h -> reps w c -> p ∈ peer_list w -> key_at w p = Some k ->
  nc_peers c !! k = Some cf ->
  exists w', match o with Some v => on_conf p (f v) w | None => Some w end = Some w' /\ net_ok w' h /\
    reps w' (NetConf (<[k := match o with Some v => f v cf | None => cf end]> (nc_peers c)) (nc_ips c)) /\
    peer_list w' = peer_list w /\ key_at w' p = Some k /\ peer_allowedips w' = peer_allowedips w.
Proof.
  intros Hok Hrep Hp Hk Hcf. destruct o as [v|]; [by apply on_conf_ok|]. exists w. ands; try done. rewrite insert_id by done. by destruct c.
Qed.

Lemma replace_ips_ok (b : bool) w h c p k : net_ok w h -> reps w c -> p ∈ peer_list w -> key_at w p = Some k ->
  exists t m, (if b then wg_allowedips_remove_by_peer p (peer_allowedips w) else Some (tt, peer_allowedips w)) = Some (tt, t) /\ holds t m /\
    ips_of (fun p => p ∈ peer_list w) (key_at w) m (if b then filter (fun e => e.2 <> k) (nc_ips c) else nc_ips c).
Proof.
  intros Hok Hrep Hp Hk. destruct (ips_keys _ _ w h c Hok Hrep) as (m & Hh & Hi & Hu). destruct b; [|by eexists _, m].
  destruct (remove_by_peer_run _ m p Hh) as (t & Ht & Hht). eexists t, _. split; [done|]. split; [exact Hht|]. by apply ips_of_filter.
Qed.

Lemma listed_conf w h c p k : net_ok w h -> reps w c -> p ∈ peer_list w -> key_at w p = Some k -> exists cf, nc_peers c !! k = Some cf.
Proof.
  intros Hok Hrep Hp Hk. destruct (listed_mem _ _ w h p Hok Hp) as (x & Hx & _). unfold key_at in Hk. rewrite Hx in Hk. injection Hk as Hk.
  exists (wp_conf x). apply (rp_peers _ _ Hrep). eauto 8.
Qed.

Lemma set_peer_addresses_ok w h c p k flags psk a : net_ok w h -> reps w c -> p ∈ peer_list w -> key_at w p = Some k -> peer_attrs_ok a ->
  exists r w' c', set_peer_addresses ipv6 w p flags psk a = Some (r, w') /\ net_ok w' h /\ reps w' c' /\ spec_addresses ipv6 k flags psk a c r c' /\ r <= 0 /\
    p ∈ peer_list w' /\ key_at w' p = Some k.
Proof.
  intros Hok Hrep Hp Hk Ha. destruct (listed_conf _ h c p k Hok Hrep Hp Hk) as [cf0 Hcf0].
  destruct (opt_conf_ok psk with_psk _ h c p k cf0 Hok Hrep Hp Hk Hcf0) as (w1 & H1 & Hok1 & Hrep1 & Hl1 & Hk1 & Hi1).
  set (cf1 := match psk with Some v => with_psk v cf0 | None => cf0 end) in *. set (c1 := NetConf _ _) in Hrep1. rewrite <- Hl1 in Hp.
  destruct (opt_conf_ok (pa_endpoint a) (fun sa c => with_sock (endpoint_attr ipv6 sa (pc_sock c)) c) w1 h c1 p k cf1 Hok1 Hrep1 Hp Hk1)
    as (w2 & H2 & Hok2 & Hrep2 & Hl2 & Hk2 & Hi2); [by apply lookup_insert_eq|].
  set (cf2 := match pa_endpoint a with Some sa => _ | None => cf1 end) in *. cbn [nc_peers nc_ips c1] in Hrep2. rewrite insert_insert_eq in Hrep2.
  set (c2 := NetConf _ _) in Hrep2. rewrite <- Hl2 in Hp.
  destruct (replace_ips_ok (has_flag flags WGPEER_F_REPLACE_ALLOWEDIPS) w2 h c2 p k Hok2 Hrep2 Hp Hk2) as (t & m & H3 & Ht & Hi). cbn [nc_ips c2] in Hi.
  set (i0 := if has_flag flags WGPEER_F_REPLACE_ALLOWEDIPS then _ else nc_ips c) in *.
  assert (exists r t' m' i, match pa_allowedips a with Some l => set_allowedips p l 0 t | None => Some (0, t) end = Some (r, t') /\ holds t' m' /\
    ips_of (fun p => p ∈ peer_list w2) (key_at w2) m' i /\ match pa_allowedips a with Some l => spec_ips k l i0 r i | None => r = 0 /\ i = i0 end /\ r <= 0)
    as (r & t' & m' & i & H4 & Ht' & Hi' & Hspec & Hr0).
  { unfold peer_attrs_ok in Ha. destruct (pa_allowedips a) as [l|]; [|exists 0, t, m, i0; done].
    apply (set_allowedips_ok (fun p => p ∈ peer_list w2) (key_at w2)) with (m := m); try done. intros p1 p2. by apply (key_unique siphash handshake_entry w2 h). }
  destruct (set_ips_ok siphash handshake_entry w2 h c2 t' m' i Hok2 Hrep2 Ht' Hi') as [Hok3 Hrep3].
  unfold set_peer_addresses. rewrite H1. cbn [mbind option_bind]. rewrite H2. cbn [mbind option_bind]. rewrite H3. cbn [mbind option_bind]. rewrite H4.
  exists r, (set_ips t' w2), (NetConf (nc_peers c2) i). ands; try done. by exists cf0, i.
Qed.

Lemma set_peer_settings_ok d h c p k flags psk a : net_ok (wd_world d) h -> reps (wd_world d) c -> p ∈ peer_list (wd_world d) -> key_at (wd_world d) p = Some k ->
  peer_attrs_ok a ->
  exists r w' calls c', set_peer_settings ipv6 d p flags psk a = Some (r, set_world w' d, calls) /\ net_ok w' h /\ reps w' c' /\
    spec_settings ipv6 (cf_advanced_security (wd_config d)) k flags psk a c r c' /\ r <= 0.
Proof.
  intros Hok Hrep Hp Hk Ha. destruct (set_peer_addresses_ok _ h c p k flags psk a Hok Hrep Hp Hk Ha) as (r & w1 & c1 & H1 & Hok1 & Hrep1 & Hspec & Hr0 & Hp1 & Hk1).
  unfold set_peer_settings, spec_settings. rewrite H1. cbn [mbind option_bind].
  destruct (Z.ltb_spec r 0) as [Hneg|Hpos]; [exists r, w1, [], c1; ands; try done; exists c1; by rewrite (proj2 (Z.ltb_lt _ _))|].
  destruct (listed_mem _ _ w1 h p Hok1 Hp1) as (x & Hx & _). rewrite Hx. cbn [mbind option_bind]. destruct (listed_conf w1 h c1 p k Hok1 Hrep1 Hp1 Hk1) as [cf1 Hcf1].
  destruct (opt_conf_ok (pa_keepalive a) with_keepalive w1 h c1 p k cf1 Hok1 Hrep1 Hp1 Hk1 Hcf1) as (w2 & H2 & Hok2 & Hrep2 & Hl2 & Hk2 & _).
  rewrite <- Hl2 in Hp1. rewrite H2. cbn [mbind option_bind]. set (o := if has_flag flags WGPEER_F_HAS_ADVANCED_SECURITY then Some _ else None).
  set (cf2 := match pa_keepalive a with Some v => _ | None => cf1 end) in *.
  destruct (opt_conf_ok o with_advanced w2 h _ p k cf2 Hok2 Hrep2 Hp1 Hk2) as (w3 & H3 & Hok3 & Hrep3 & _); [by apply lookup_insert_eq|]. rewrite H3. cbn [mbind option_bind nc_peers nc_ips] in *. rewrite insert_insert_eq in Hrep3.
  eexists r, w3, _, _. split; [reflexivity|]. split; [done|]. split; [exact Hrep3|]. split; [|done]. exists c1. split; [done|].
  rewrite (proj2 (Z.ltb_ge _ _)) by done. f_equal. rewrite <- (insert_id (nc_peers c1) k cf1 Hcf1) at 2. by rewrite alter_insert_eq.
Qed.

(** A new peer is not to be removed. *)
Lemma new_not_removed flags : has_flag flags (Z.lor WGPEER_F_REMOVE_ME WGPEER_F_UPDATE_ONLY) = false ->
  has_flag (Z.land flags (Z.lnot WGPEER_F_REPLACE_ALLOWEDIPS)) WGPEER_F_REMOVE_ME = false.
Proof.
  unfold has_flag. rewrite !negb_false_iff, !Z.eqb_eq. intros H. rewrite <- Z.land_assoc.
  change (Z.land (Z.lnot WGPEER_F_REPLACE_ALLOWEDIPS) WGPEER_F_REMOVE_ME) with (Z.land (Z.lor WGPEER_F_REMOVE_ME WGPEER_F_UPDATE_ONLY) WGPEER_F_REMOVE_ME).
  rewrite Z.land_assoc, H. reflexivity.
Qed.

Lemma spec_settings_keys adv k flags psk a c r c' k' : spec_settings ipv6 adv k flags psk a c r c' -> k' <> k -> nc_peers c !! k' = None -> nc_peers c' !! k' = None.
Proof.
  intros (c1 & (cf & i & _ & _ & ->) & ->) Hne Hk. destruct (r <? 0); cbn; rewrite ?lookup_alter_ne, lookup_insert_ne by done; done.
Qed.

Lemma spec_peer_own own adv env a c r c' k' : spec_peer ipv6 own adv env a c r c' -> own = Some k' -> nc_peers c !! k' = None -> nc_peers c' !! k' = None.
Proof.
  unfold spec_peer. intros H Ho Hk. destruct (key_attr _ _) as [k|]; [|destruct H; congruence]. destruct (match pa_protocol_version a with Some _ => _ | None => _ end); [destruct H; congruence|].
  destruct (nc_peers c !! k) as [cf|] eqn:E.
  - assert (k' <> k) by congruence. destruct (has_flag _ _); [destruct H as [_ ->]; cbn; by rewrite lookup_delete_ne|]. by eapply spec_settings_keys.
  - destruct (has_flag _ _); [destruct H; congruence|]. case_bool_decide as D; [destruct H; congruence|]. destruct H as [(_ & -> & _)|H]; [done|].
    assert (k' <> k) by congruence. eapply spec_settings_keys; [exact H|done|]. cbn. by rewrite lookup_insert_ne.
Qed.

(** The peer of a request: it was there, it is new, or there is none. *)
Lemma find_or_create_ok d h c env flags k psk : dev_ok d h c -> fresh_alloc handshake_entry env ->
  exists res w, find_or_create siphash handshake_entry d env flags k psk = Some (res, w) /\
    match res with
    | inl r => net_ok w h /\ reps w c /\ nc_peers c !! k = None /\ r <= 0 /\
        (if has_flag flags (Z.lor WGPEER_F_REMOVE_ME WGPEER_F_UPDATE_ONLY) then r = 0
         else if bool_decide (own_key (wd_identity d) = Some k) then r = 0 else r = - ENOMEM /\ create_fails env c)
    | inr (p, flags') => exists c', net_ok w ({[+ p +]} ⊎ h) /\ reps w c' /\ p ∈ peer_list w /\ key_at w p = Some k /\
        ((flags' = flags /\ c' = c /\ is_Some (nc_peers c !! k)) \/
         (flags' = Z.land flags (Z.lnot WGPEER_F_REPLACE_ALLOWEDIPS) /\ c' = NetConf (<[k := new_conf psk]> (nc_peers c)) (nc_ips c) /\ nc_peers c !! k = None /\
          has_flag flags (Z.lor WGPEER_F_REMOVE_ME WGPEER_F_UPDATE_ONLY) = false /\ bool_decide (own_key (wd_identity d) = Some k) = false))
    end.
Proof.
  intros (Hok & Hrep & _) Henv. pose proof (lookup_peer_ok _ _ _ h c k Hok Hrep) as Hl. unfold find_or_create. destruct (nc_peers c !! k) as [cf|] eqn:E.
  { destruct Hl as (p & x & w & Hl & Hp & Hx & Hkx & _ & Hok' & Hrep' & Hlist & Hs). rewrite Hl. cbn [mbind option_bind]. eexists (inr (p, flags)), w. split; [done|].
    exists c. ands; try done; [by rewrite Hlist| |left; eauto]. unfold key_at. rewrite (via_clear wp_remote_static _ _ ltac:(done) Hs), Hx. cbn. by rewrite Hkx. }
  rewrite Hl. cbn [mbind option_bind]. destruct (has_flag flags (Z.lor _ _)) eqn:Ef; [eexists (inl 0), _; split; [done|]; ands; done|].
  assert (has_identity (wd_identity d) && bool_decide (k = static_public (wd_identity d)) = bool_decide (own_key (wd_identity d) = Some k)) as ->.
  { unfold own_key. destruct (has_identity _); cbn; [|done]. apply bool_decide_ext. naive_solver. }
  case_bool_decide as D; [eexists (inl 0), _; split; [done|]; ands; done|].
  destruct (create_ok _ _ _ h c env k psk Hok Hrep Henv E) as [(err & Hc & -> & Hf)|(p & w & Hc & Hok1 & Hrep1 & Hp1 & Hk1 & x & Hx & H1)]; rewrite Hc.
  { eexists (inl _), _. split; [done|]. ands; try done. }
  unfold wg_peer_get, on_peer. rewrite Hx. cbn [mbind option_bind]. destruct (peer_get_ok _ _ w h p x _ Hok1 Hrep1 Hx ltac:(lia)) as [Hok2 Hrep2].
  eexists (inr (p, _)), _. split; [done|]. eexists. split; [exact Hok2|]. split; [exact Hrep2|]. split; [done|]. split; [|right; ands; try done; by rewrite bool_decide_eq_false].
  unfold key_at in *. cbn. rewrite lookup_insert_eq. by rewrite Hx in Hk1.
Qed.

Lemma net_set_peer_ok d h c env a : dev_ok d h c -> peer_attrs_ok a -> fresh_alloc handshake_entry env ->
  exists r w calls c', set_peer siphash handshake_entry ipv6 d env a = Some (r, set_world w d, calls) /\ dev_ok (set_world w d) h c' /\
    spec_peer ipv6 (own_key (wd_identity d)) (cf_advanced_security (wd_config d)) env a c r c' /\ r <= 0.
Proof.
  intros Hd Ha Henv. set (spec := spec_peer ipv6 (own_key (wd_identity d)) (cf_advanced_security (wd_config d)) env a c).
  assert (forall r w c', net_ok w h -> reps w c' -> r <= 0 -> spec r c' -> dev_ok (set_world w d) h c' /\ spec r c' /\ r <= 0) as Hend.
  { intros r w c' H1 H2 H3 H4. split; [|done]. split; [done|]. split; [done|]. intros k Hk. eapply spec_peer_own; [exact H4|exact Hk|]. by apply Hd. }
  pose proof Hd as (Hok & Hrep & _). assert (d = set_world (wd_world d) d) as Hself by (by destruct d).
  unfold set_peer, spec, spec_peer in *. destruct (key_attr (pa_public_key a) _) as [k|]; [|exists (- EINVAL), (wd_world d), [], c; rewrite <- Hself; done].
  set (psk := key_attr (pa_preshared_key a) _) in *. set (flags := default 0 (pa_flags a)) in *.
  destruct (match pa_protocol_version a with Some _ => _ | None => _ end); [exists (- EPFNOSUPPORT), (wd_world d), [], c; rewrite <- Hself; done|].
  destruct (find_or_create_ok d h c env flags k psk Hd Henv) as (res & w & Hf & Hres). rewrite Hf. cbn [mbind option_bind]. destruct res as [r|[p flags']].
  { destruct Hres as (Hok1 & Hrep1 & Hk & Hr & Hcase). rewrite Hk in *. exists r, w, [], c. split; [done|]. apply Hend; try done. clear Hend. revert Hcase.
    destruct (has_flag flags (Z.lor WGPEER_F_REMOVE_ME WGPEER_F_UPDATE_ONLY)); [by intros|]. case_bool_decide; [by intros|]. intros [-> Hf']. by left. }
  destruct Hres as (c1 & Hok1 & Hrep1 & Hp & Hkp & Hcase). destruct (has_flag flags' WGPEER_F_REMOVE_ME) eqn:Er.
  - destruct (net_remove_ok _ _ w _ c1 p k Hok1 Hrep1 Hp Hkp) as (w2 & Hrm & Hok2 & Hrep2). rewrite Hrm. cbn [mbind option_bind wd_world set_world].
    destruct (net_put_ok _ _ w2 h p _ Hok2 Hrep2) as (w3 & Hput & Hok3 & Hrep3 & _). rewrite Hput. cbn [mbind option_bind].
    destruct Hcase as [(-> & -> & [cf Hcf])|(-> & _ & _ & Hfl & _)]; [|by rewrite new_not_removed in Er]. rewrite Hcf, Er in *.
    eexists 0, w3, [], _. split; [done|]. by apply Hend.
  - destruct (set_peer_settings_ok (set_world w d) _ c1 p k flags' psk a Hok1 Hrep1 Hp Hkp Ha) as (r & w2 & calls & c2 & Hs & Hok2 & Hrep2 & Hspec & Hr).
    rewrite Hs. cbn [mbind option_bind wd_world set_world].
    destruct (net_put_ok _ _ w2 h p _ Hok2 Hrep2) as (w3 & Hput & Hok3 & Hrep3 & _). rewrite Hput. cbn [mbind option_bind]. exists r, w3, calls, c2. split; [done|].
    destruct Hcase as [(-> & -> & [cf Hcf])|(-> & -> & Hnone & Hfl & Hown)].
    + rewrite Hcf, Er in *. by apply Hend.
    + rewrite Hnone, Hfl, Hown in *. apply Hend; try done. by right.
Qed.

(** *** The device *)

Definition request_ok (x : Z + peer_attrs * peer_env) : Prop :=
  match x with inl err => err < 0 | inr (a, env) => peer_attrs_ok a /\ fresh_alloc handshake_entry env end.

Lemma set_peers_ok l : Forall request_ok l -> forall d h c, dev_ok d h c ->
  exists r w calls c', set_peers siphash handshake_entry ipv6 l d = Some (r, set_world w d, calls) /\ dev_ok (set_world w d) h c' /\
    spec_peers ipv6 (own_key (wd_identity d)) (cf_advanced_security (wd_config d)) l c r c' /\ r <= 0.
Proof.
  induction 1 as [|x l Hx _ IH]; intros d h c Hd; assert (d = set_world (wd_world d) d) as Hself by (by destruct d); cbn [set_peers].
  - exists 0, (wd_world d), [], c. rewrite <- Hself. ands; try done. constructor.
  - destruct x as [err|[a env]]; cbn in Hx.
    + rewrite (proj2 (Z.ltb_lt _ _) Hx). exists err, (wd_world d), [], c. rewrite <- Hself. ands; try done; [by constructor|lia].
    + destruct Hx as [Ha Henv]. destruct (net_set_peer_ok d h c env a Hd Ha Henv) as (r & w & calls & c1 & Hr & Hd1 & Hs & Hr0). rewrite Hr. cbn [mbind option_bind].
      destruct (Z.ltb_spec r 0) as [Hneg|Hpos]; [exists r, w, calls, c1; ands; try done; by econstructor|].
      destruct (IH (set_world w d) h c1 Hd1) as (r2 & w2 & calls2 & c2 & H1 & H2 & H3 & H4). rewrite H1. cbn [mbind option_bind].
      exists r2, w2, (calls ++ calls2), c2. ands; try done. by econstructor.
Qed.

Lemma without_absent w c k : reps w c -> nc_peers c !! k = None -> without_peer k c = c.
Proof.
  intros [Hpe (m & Hh & Hm1 & Hm2)] Hk. destruct c as [ps i]. unfold without_peer. cbn in *. f_equal; [by apply delete_id|].
  apply map_filter_id. intros [v q] k' Hi. cbn. intros ->. rewrite Hm2 in Hi. apply bind_Some in Hi as (p & Hp & Hkp). apply Hm1 in Hp.
  unfold key_at in Hkp. destruct (mem w !! p) as [x|] eqn:Hx; [|done]. injection Hkp as Hkx.
  assert (ps !! k = Some (wp_conf x)) by (apply Hpe; eauto 8). congruence.
Qed.

Context `{K : Kstrto} `{NC : NoiseCrypto}.

(** The identity and the peers after a private key was set. *)
Definition spec_key (d : wg_device) (key : option (list Z)) (c : net_conf) : noise_static_identity * net_conf :=
  match key with
  | Some key =>
      if bool_decide (static_private (wd_identity d) = key) then (wd_identity d, c)
      else (wg_noise_set_static_identity_private_key (wd_identity d) key,
            match curve25519_generate_public key with Some pub => without_peer pub c | None => c end)
  | None => (wd_identity d, c)
  end.

Lemma set_private_key_ok d h c key : dev_ok d h c ->
  exists w calls, set_private_key siphash handshake_entry d key = Some (set_identity (spec_key d (Some key) c).1 (set_world w d), calls) /\
    dev_ok (set_identity (spec_key d (Some key) c).1 (set_world w d)) h (spec_key d (Some key) c).2.
Proof.
  intros Hd. pose proof Hd as (Hok & Hrep & Hown). unfold set_private_key, spec_key. case_bool_decide as D.
  { exists (wd_world d), []. assert (set_identity (wd_identity d) (set_world (wd_world d) d) = d) as E by (by destruct d). cbn [fst snd]. by rewrite E. }
  cbn [fst snd]. unfold wg_noise_set_static_identity_private_key. destruct (curve25519_generate_public key) as [pub|] eqn:Eg.
  2: { cbn [mbind option_bind]. eexists (wd_world d), _. split; [reflexivity|]. split; [done|]. split; [done|]. intros k. unfold own_key. cbn. done. }
  pose proof (lookup_peer_ok _ _ _ h c pub Hok Hrep) as Hl. destruct (nc_peers c !! pub) as [cf|] eqn:Ec.
  - destruct Hl as (p & x & w1 & Hl & Hp & Hx & Hkx & _ & Hok1 & Hrep1 & Hlist & Hs). rewrite Hl. cbn [mbind option_bind].
    destruct (net_put_ok _ _ w1 h p c Hok1 Hrep1) as (w2 & Hput & Hok2 & Hrep2 & Hlist2 & Hs2). rewrite Hput. cbn [mbind option_bind].
    destruct (net_remove_ok _ _ w2 h c p pub Hok2 Hrep2) as (w3 & Hrm & Hok3 & Hrep3); [by rewrite Hlist2, Hlist| |].
    { unfold key_at. rewrite (via_clear wp_remote_static _ _ ltac:(done) Hs2), (via_clear wp_remote_static _ _ ltac:(done) Hs), Hx. cbn. by rewrite Hkx. }
    rewrite Hrm. cbn [mbind option_bind]. eexists w3, _. split; [reflexivity|]. split; [done|]. split; [done|]. intros k [= <-]. cbn. by apply lookup_delete_eq.
  - rewrite Hl. cbn [mbind option_bind]. eexists (wd_world d), _. split; [reflexivity|]. rewrite (without_absent _ c pub Hrep Ec). split; [done|]. split; [done|]. by intros k [= <-].
Qed.

Lemma clear_all_src_ok d h c : dev_ok d h c -> exists w, clear_all_src (wd_world d) = Some w /\ dev_ok (set_world w d) h (clear_src c).
Proof.
  intros (Hok & Hrep & Hown). destruct (all_conf_ok _ _ (fun cf => with_sock (wg_socket_clear_peer_endpoint_src (pc_sock cf)) cf) _ h c Hok Hrep) as (w & Hw & Hok' & Hrep').
  exists w. split; [exact Hw|]. split; [done|]. split; [done|]. intros k Hk. cbn. rewrite lookup_fmap, (Hown k Hk). done.
Qed.

(** *** A whole request *)

(** The source addresses that a new mark and a new port make stale. *)
Definition spec_sources (d : wg_device) (a : device_attrs) (c : net_conf) : net_conf :=
  let c := match da_fwmark a with Some _ => clear_src c | None => c end in
  match da_listen_port a with
  | Some port => if incoming_port (wd_socks d) =? port then c else clear_src c
  | None => c
  end.

(** What opening a new port returns. *)
Definition port_result (d : wg_device) (env : device_env) (a : device_attrs) : Z :=
  match da_listen_port a with
  | None => 0
  | Some port =>
      if (incoming_port (wd_socks d) =? port) || negb (wd_running d) then 0
      else match wg_socket_init ipv6 (de_udp env) (de_net env) (wd_socks d) port with Some (r, _, _) => r | None => 0 end
  end.

(** What a request does: nothing without the capability; only stale sources
    when the port or an obfuscation attribute is refused; the removal of peers
    when the whole configuration is refused; otherwise all of it, up to the
    first peer that is refused. *)
Definition spec_request (d : wg_device) (env : device_env) (a : device_attrs) (c : net_conf) (r : Z) (d' : wg_device) (c' : net_conf) : Prop :=
  let c2 := spec_sources d a c in
  let c3 := if has_flag (default 0 (da_flags a)) WGDEVICE_F_REPLACE_PEERS then no_conf else c2 in
  let '(id, c4) := spec_key d (key_attr (da_private_key a) NOISE_PUBLIC_KEY_LEN) c3 in
  let needs_cap := match da_listen_port a, da_fwmark a with None, None => false | _, _ => true end in
  let '(ra, cf) := set_awg_attrs (da_awg a) (wd_config d) in
  if needs_cap && negb (de_net env && de_capable env) then r = - EPERM /\ d' = d /\ c' = c
  else if negb (port_result d env a =? 0) then r = port_result d env a /\ wd_identity d' = wd_identity d /\ wd_config d' = wd_config d /\ c' = c2
  else if negb (ra =? 0) then r = ra /\ wd_identity d' = wd_identity d /\ wd_config d' = cf /\ c' = c2
  else
    match wg_device_handle_post_config cf (de_alloc env) with
    | None => False
    | Some (rc, cf', _) =>
        wd_identity d' = id /\ wd_config d' = cf' /\
        (if rc <? 0 then r = rc /\ c' = c4
         else match da_peers a with
              | Some l => spec_peers ipv6 (own_key id) (cf_advanced_security cf') l c4 r c'
              | None => r = 0 /\ c' = c4
              end)
    end.

Definition device_attrs_ok (a : device_attrs) : Prop := match da_peers a with Some l => Forall request_ok l | None => True end.

(** Laying out the signature packets writes outside one of them. *)
Definition overruns (env : device_env) : Prop := exists c, wg_device_handle_post_config c (de_alloc env) = None.

Lemma remove_all_opt_ok (b : bool) d h c : dev_ok d h c ->
  exists w, (if b then wg_peer_remove_all handshake_entry (wd_world d) else Some (wd_world d)) = Some w /\ dev_ok (set_world w d) h (if b then no_conf else c).
Proof.
  intros (Hok & Hrep & Hown). destruct b; [|by exists (wd_world d)]. destruct (net_remove_all_ok _ _ _ h Hok) as (w & Hw & Hok' & Hrep'). exists w. split; [done|]. by split.
Qed.

Lemma set_device_peers_ok d env a h c : dev_ok d h c -> device_attrs_ok a ->
  let c3 := if has_flag (default 0 (da_flags a)) WGDEVICE_F_REPLACE_PEERS then no_conf else c in
  let '(id, c4) := spec_key d (key_attr (da_private_key a) NOISE_PUBLIC_KEY_LEN) c3 in
  (set_device_peers siphash handshake_entry ipv6 d env a = None /\ overruns env) \/
  exists r d' calls c' rc cf' al, set_device_peers siphash handshake_entry ipv6 d env a = Some (r, d', calls) /\ dev_ok d' h c' /\
    wg_device_handle_post_config (wd_config d) (de_alloc env) = Some (rc, cf', al) /\ wd_identity d' = id /\ wd_config d' = cf' /\
    if rc <? 0 then r = rc /\ c' = c4
    else match da_peers a with Some l => spec_peers ipv6 (own_key id) (cf_advanced_security cf') l c4 r c' | None => r = 0 /\ c' = c4 end.
Proof.
  intros Hd Hpeers. cbn zeta. destruct (remove_all_opt_ok (has_flag (default 0 (da_flags a)) WGDEVICE_F_REPLACE_PEERS) d h c Hd) as (w3 & H3 & Hd3).
  set (c3 := if has_flag (default 0 (da_flags a)) WGDEVICE_F_REPLACE_PEERS then no_conf else c) in *. unfold set_device_peers. rewrite H3. cbn [mbind option_bind]. clear H3.
  set (d3 := set_world w3 d) in *. change (spec_key d) with (spec_key d3). change (wd_config d) with (wd_config d3). clearbody d3 c3. clear w3 Hd. set (key := key_attr (da_private_key a) NOISE_PUBLIC_KEY_LEN).
  assert (exists d4 calls, match key with Some k => set_private_key siphash handshake_entry d3 k | None => Some (d3, []) end = Some (d4, calls) /\
    dev_ok d4 h (spec_key d3 key c3).2 /\ wd_identity d4 = (spec_key d3 key c3).1 /\ wd_config d4 = wd_config d3) as (d4 & calls & H4 & Hd4 & Hid & Hcf).
  { destruct key as [k|]; [|by eexists d3, []]. destruct (set_private_key_ok d3 h c3 k Hd3) as (w & calls & Hw & Hd4). by eexists _, calls. }
  rewrite H4. cbn [mbind option_bind]. destruct (spec_key d3 key c3) as [id c4]. cbn [fst snd] in *.
  rewrite Hcf. destruct (wg_device_handle_post_config (wd_config d3) (de_alloc env)) as [[[rc cf] al]|] eqn:Ep; [|left; split; [done|]; by eexists].
  right. cbn [mbind option_bind]. destruct (Z.ltb_spec rc 0) as [Hneg|Hpos].
  { eexists rc, (set_config cf d4), calls, c4, rc, cf, al. rewrite (proj2 (Z.ltb_lt _ _) Hneg). ands; done. }
  unfold device_attrs_ok in Hpeers. destruct (da_peers a) as [l|]; [|eexists 0, _, _, c4, rc, cf, al; rewrite (proj2 (Z.ltb_ge _ _) Hpos); split; [reflexivity|]; ands; done].
  destruct (set_peers_ok l Hpeers (set_config cf d4) h c4 Hd4) as (r' & w & calls' & c' & Hs & Hd' & Hsp & _). rewrite Hs. cbn [mbind option_bind].
  eexists r', _, _, c', rc, cf, al. rewrite (proj2 (Z.ltb_ge _ _) Hpos). split; [reflexivity|]. cbn in Hsp. rewrite Hid in Hsp. ands; done.
Qed.

Lemma set_port_ok d env a h c port : dev_ok d h c -> da_listen_port a = Some port ->
  exists d' calls, set_port ipv6 d env port = Some (port_result d env a, d', calls) /\ dev_ok d' h (if incoming_port (wd_socks d) =? port then c else clear_src c) /\
    wd_identity d' = wd_identity d /\ wd_config d' = wd_config d.
Proof.
  intros Hd Hport. unfold set_port, port_result. rewrite Hport. destruct (incoming_port (wd_socks d) =? port); [by exists d, []|].
  destruct (clear_all_src_ok d h c Hd) as (w & Hw & Hd'). rewrite Hw. cbn [mbind option_bind orb wd_running set_world wd_socks].
  destruct (negb _); [eexists _, []; split; [reflexivity|]; by split|].
  destruct (socket_init_total ipv6 (de_udp env) (de_net env) (wd_socks d) port) as (r & s' & evs & Hs). rewrite Hs. cbn [mbind option_bind].
  eexists _, _. split; [reflexivity|]. by split.
Qed.

(** The mark and the port. *)
Lemma set_sources_ok d env a h c : dev_ok d h c ->
  exists d1, match da_fwmark a with Some m => w ← clear_all_src (wd_world d); Some (set_world w (set_fwmark m d)) | None => Some d end = Some d1 /\
  exists d2 calls, match da_listen_port a with Some port => set_port ipv6 d1 env port | None => Some (0, d1, []) end = Some (port_result d env a, d2, calls) /\
    dev_ok d2 h (spec_sources d a c) /\ wd_identity d2 = wd_identity d /\ wd_config d2 = wd_config d.
Proof.
  intros Hd. unfold spec_sources. assert (exists d1, match da_fwmark a with Some m => w ← clear_all_src (wd_world d); Some (set_world w (set_fwmark m d)) | None => Some d end = Some d1 /\
    dev_ok d1 h (match da_fwmark a with Some _ => clear_src c | None => c end) /\ wd_identity d1 = wd_identity d /\ wd_config d1 = wd_config d /\ wd_socks d1 = wd_socks d /\
    port_result d1 env a = port_result d env a) as (d1 & H1 & Hd1 & Hid1 & Hcf1 & Hs1 & Hp1).
  { destruct (da_fwmark a) as [m|]; [|by exists d]. destruct (clear_all_src_ok d h c Hd) as (w & Hw & Hd1). rewrite Hw. by eexists. }
  exists d1. split; [done|]. rewrite <- Hp1. destruct (da_listen_port a) as [port|] eqn:Ep.
  - destruct (set_port_ok d1 env a h _ port Hd1 Ep) as (d2 & calls & H2 & Hd2 & Hid2 & Hcf2). exists d2, calls. rewrite <- Hs1. ands; congruence.
  - exists d1, []. unfold port_result. by rewrite Ep.
Qed.

Lemma wg_set_device_ok d env a h c : dev_ok d h c -> device_attrs_ok a ->
  (wg_set_device siphash handshake_entry ipv6 d env a = None /\ overruns env) \/
  exists r d' calls c', wg_set_device siphash handshake_entry ipv6 d env a = Some (r, d', calls) /\ dev_ok d' h c' /\ spec_request d env a c r d' c'.
Proof.
  intros Hd Ha. unfold wg_set_device, spec_request. destruct (spec_key d _ _) as [id c4] eqn:Ek. destruct (set_awg_attrs (da_awg a) (wd_config d)) as [ra cf] eqn:Ea.
  destruct (_ && _); [right; by exists (- EPERM), d, [], c|].
  destruct (set_sources_ok (bump_gen d) env a h c Hd) as (d1 & H1 & d2 & calls & H2 & Hd2 & Hid2 & Hcf2). rewrite H1. cbn [mbind option_bind]. rewrite H2. cbn [mbind option_bind].
  change (port_result (bump_gen d) env a) with (port_result d env a). change (spec_sources (bump_gen d) a c) with (spec_sources d a c) in Hd2.
  destruct (Z.eqb_spec (port_result d env a) 0) as [Hr|Hr]; cbn [negb]; [|right; by exists (port_result d env a), d2, calls, (spec_sources d a c)].
  rewrite Hcf2. cbn [wd_config bump_gen]. rewrite Ea. destruct (Z.eqb_spec ra 0) as [->|Hra]; cbn [negb]; [|right; by eexists ra, _, calls, (spec_sources d a c)].
  pose proof (set_device_peers_ok (set_config cf d2) env a h _ Hd2 Ha) as Hp. cbn zeta in Hp.
  assert (spec_key (set_config cf d2) (key_attr (da_private_key a) NOISE_PUBLIC_KEY_LEN)
    (if has_flag (default 0 (da_flags a)) WGDEVICE_F_REPLACE_PEERS then no_conf else spec_sources d a c) = (id, c4)) as Ek'.
  { rewrite <- Ek. unfold spec_key. cbn. by rewrite Hid2. }
  rewrite Ek' in Hp. destruct Hp as [[Hn Ho]|(r & d' & calls' & c' & rc & cf' & al & Hs & Hd' & Hpost & Hid' & Hcf' & Hcase)]; [left; by rewrite Hn|]. right. rewrite Hs. cbn [mbind option_bind].
  cbn [wd_config set_config] in Hpost. rewrite Hpost. by eexists r, d', _, c'.
Qed.

(** *** What the data path sees *)

Lemma reps_route w h c v ip : net_ok w h -> reps w c -> len ip = wbits v / 8 -> all_bytes ip ->
  exists o, allowedips_lookup [(peer_allowedips w, refs_of w)] v ip = Some o /\
    (o ≫= key_at w) = key_lpm (nc_ips c) v (prefix_of_ip v ip (wbits v)) (nbits v).
Proof.
  intros Hok [_ (m & Hh & Hm1 & Hm2)] Hl Hb. rewrite (lookup_refines _ [(m, refs_of w)]) by (done || by repeat constructor). cbn [spec_lookup].
  assert (forall n, key_lpm (nc_ips c) v (prefix_of_ip v ip (wbits v)) n = lpm (fun q => m v !! q) (prefix_of_ip v ip (wbits v)) n ≫= key_at w) as Hlpm.
  { induction n as [|n IH]; cbn [key_lpm lpm]; rewrite Hm2; destruct (m v !! _) as [p|] eqn:E; cbn; try done.
    all: apply Hm1 in E; destruct (listed_mem _ _ w h p Hok E) as (x & Hx & _); unfold key_at; by rewrite Hx. }
  unfold spec_match. rewrite Hlpm. destruct (lpm _ _ _) as [p|] eqn:E; [|by eexists].
  assert (refs_of w p = true) as ->; [|by exists (Some p)]. assert (exists q, m v !! q = Some p) as [q Hq].
  { revert E. generalize (nbits v). intros n. induction n as [|n IH]; cbn [lpm]; (destruct (m v !! _) eqn:E2; [intros [= <-]; eauto|]); [done|exact IH]. }
  apply Hm1 in Hq. destruct (listed_mem _ _ w h p Hok Hq) as (x & Hx & _ & Hn). unfold refs_of. rewrite Hx. destruct (Z.eqb_spec (wp_refcount x) 0); [lia|done].
Qed.

Lemma reps_lookup w h c k : net_ok w h -> reps w c ->
  match wg_pubkey_hashtable_lookup siphash (peer_hashtable w) k (refs_of w) with
  | Some p => (wp_conf <$> mem w !! p) = nc_peers c !! k /\ key_at w p = Some k
  | None => nc_peers c !! k = None
  end.
Proof.
  intros Hok Hrep. pose proof Hok as [[_ Hc] _]. destruct (c_pk _ _ _ _ _ Hc) as (m & Hpk & Hml). cbn in *.
  unfold wg_pubkey_hashtable_lookup. rewrite (pk_find _ _ m k Hpk). destruct (m !! k) as [p|] eqn:E.
  - apply Hml in E as [Hp Hk]. destruct (listed_mem _ _ w h p Hok Hp) as (x & Hx & _ & Hn). unfold refs_of. rewrite Hx.
    destruct (Z.eqb_spec (wp_refcount x) 0) as [?|_]; [lia|]. cbn [negb]. rewrite Hx. split; [|done]. unfold key_at in Hk. rewrite Hx in Hk. injection Hk as Hk.
    symmetry. apply (rp_peers _ _ Hrep). eauto 8.
  - destruct (nc_peers c !! k) as [cf|] eqn:E2; [|done]. apply (rp_peers _ _ Hrep) in E2 as (p & x & Hp & Hx & Hk & _).
    assert (m !! k = Some p) by (apply Hml; split; [done|]; unfold key_at; rewrite Hx; cbn; by rewrite Hk). congruence.
Qed.

(** *** Sequences of requests *)

Fixpoint run_device (reqs : list (device_env * device_attrs)) (d : wg_device) : option (list Z * wg_device) :=
  match reqs with
  | [] => Some ([], d)
  | (env, a) :: reqs' =>
      '(r, d, _) ← wg_set_device siphash handshake_entry ipv6 d env a;
      '(rs, d) ← run_device reqs' d; Some (r :: rs, d)
  end.

Inductive spec_run : list (device_env * device_attrs) -> wg_device -> net_conf -> list Z -> wg_device -> net_conf -> Prop :=
| spec_run_nil d c : spec_run [] d c [] d c
| spec_run_cons env a reqs d c r d1 c1 rs d2 c2 : spec_request d env a c r d1 c1 -> spec_run reqs d1 c1 rs d2 c2 ->
    spec_run ((env, a) :: reqs) d c (r :: rs) d2 c2.

Lemma run_device_ok reqs : Forall (fun x => device_attrs_ok x.2) reqs -> forall d h c, dev_ok d h c ->
  match run_device reqs d with
  | None => exists env a, (env, a) ∈ reqs /\ overruns env
  | Some (rs, d') => exists c', spec_run reqs d c rs d' c' /\ dev_ok d' h c'
  end.
Proof.
  induction 1 as [|[env a] reqs Ha _ IH]; intros d h c Hd; cbn [run_device].
  - exists c. split; [constructor|done].
  - destruct (wg_set_device_ok d env a h c Hd Ha) as [[Hn Ho]|(r & d1 & calls & c1 & Hs & Hd1 & Hspec)].
    + rewrite Hn. cbn. exists env, a. split; [apply elem_of_cons; by left|done].
    + rewrite Hs. cbn [mbind option_bind]. specialize (IH d1 h c1 Hd1). destruct (run_device reqs d1) as [[rs d2]|]; cbn [mbind option_bind].
      * destruct IH as (c2 & Hrun & Hd2). exists c2. split; [by econstructor|done].
      * destruct IH as (env' & a' & Hin & Ho). exists env', a'. split; [apply elem_of_cons; by right|done].
Qed.

End Requests.

(** A device that was just created. *)
Definition new_device (ans : list bool) : wg_device :=
  WgDevice (no_peers ans) (StaticIdentity (zeros 32) (zeros 32) false) wg_setup_config (WgSocks None None 0) 0 false 0.

Lemma new_device_ok siphash handshake_entry ans : dev_ok siphash handshake_entry (new_device ans) ∅ no_conf.
Proof.
  assert (net_ok siphash handshake_entry (no_peers ans) ∅) as Hok by (split; [apply start_ok|done]).
  split; [done|]. split; [by apply (reps_nobody siphash handshake_entry _ ∅)|]. intros k. done.
Qed.


(** A device gets a private key and a first peer with a prefix and an endpoint. *)
Definition example_crypto : NoiseCrypto := {|
  blake2s m := zeros 32;
  curve25519 a p := None;
  curve25519_generate_public a := Some (zeros 31 ++ [9]);
  curve25519_clamp_secret a := a;
  chacha20poly1305_encrypt p ad n k := p ++ zeros 16;
  chacha20poly1305_decrypt c ad n k := Some (firstn (length c - 16) c)
|}.

Definition example_env : peer_env := PeerEnv (fun w => match map_to_list (mem w) with [] => Some 2 | _ => None end) true.
Definition example_peer : peer_attrs :=
  PeerAttrs (Some (replicate 32 7)) None None (Some (SockaddrAttr 16 AF_INET 51820 0x7f000001 0 0)) (Some 25)
    (Some [inr (AllowedipAttrs (Some AF_INET) (Some [10; 0; 0; 0]) (Some 8) None)]) None false.
Definition example_request : device_attrs := DeviceAttrs None None None no_attrs (Some (replicate 32 5)) (Some [inr (example_peer, example_env)]).
Definition example_denv : device_env := DeviceEnv true true (UdpCreation (fun _ _ => inl 0) (fun _ _ => inl 0) false) [].
Definition example_run : option (list Z * wg_device) :=
  run_device (K := KstrtoRef.ops) (NC := example_crypto) example_hash example_entry true [(example_denv, example_request)] (new_device []).

Lemma example_request_ok : Forall (fun x => device_attrs_ok example_entry x.2) [(example_denv, example_request)].
Proof.
  repeat constructor; cbn; try lia.
  - unfold example_env, pe_alloc in *. destruct (map_to_list (mem w)) as [|] eqn:E; [|done]. apply map_to_list_empty_iff in E. by rewrite E, lookup_empty.
  - unfold example_env, pe_alloc in *. destruct (map_to_list (mem w)) as [|] eqn:E; [|done]. apply map_to_list_empty_iff in E. rewrite E. intros p x. by rewrite lookup_empty.
Qed.

