(* ===== verification/Dump.v ===== *)
(** * Reading the configuration ([src/netlink.c], the requests that get)

    User space reads the configuration of a device with a dump: the kernel asks
    for one message after another until the dump is complete.  A message that
    is full ends in the middle of the list of peers, or in the middle of the
    allowed addresses of a peer, and the next one goes on from there; between
    two messages the configuration may change.

    A message is the tree of its attributes with the room that is left.  The
    sizes of attributes are the kernel's and are parameters. *)

From S2P Require Import Prelude Words Messages MagicHeader Imitate Junk IpBits Trie AllowedIps AllowedIpsSpec PeerLookup Noise Config Socket Peer Netlink.
From stdpp Require Import gmap gmultiset list fin_maps.
#[local] Open Scope Z_scope.

Definition EMSGSIZE : Z := 90.
Definition EBADR : Z := 53.
Definition ENODEV : Z := 19.
Definition EOPNOTSUPP : Z := 95.

Definition WGDEVICE_A_IFINDEX : Z := 1.
Definition WGDEVICE_A_IFNAME : Z := 2.
Definition WGDEVICE_A_PRIVATE_KEY : Z := 3.
Definition WGDEVICE_A_PUBLIC_KEY : Z := 4.
Definition WGDEVICE_A_LISTEN_PORT : Z := 6.
Definition WGDEVICE_A_FWMARK : Z := 7.
Definition WGDEVICE_A_PEERS : Z := 8.
Definition WGDEVICE_A_JC : Z := 9.
Definition WGDEVICE_A_JMIN : Z := 10.
Definition WGDEVICE_A_JMAX : Z := 11.
Definition WGDEVICE_A_S1 : Z := 12.
Definition WGDEVICE_A_S2 : Z := 13.
Definition WGDEVICE_A_H1 : Z := 14.
Definition WGDEVICE_A_H2 : Z := 15.
Definition WGDEVICE_A_H3 : Z := 16.
Definition WGDEVICE_A_H4 : Z := 17.
Definition WGDEVICE_A_S3 : Z := 19.
Definition WGDEVICE_A_S4 : Z := 20.
Definition WGDEVICE_A_I1 : Z := 21.
Definition WGDEVICE_A_IMITATE_PROTOCOL : Z := 26.

Definition WGPEER_A_PUBLIC_KEY : Z := 1.
Definition WGPEER_A_PRESHARED_KEY : Z := 2.
Definition WGPEER_A_FLAGS : Z := 3.
Definition WGPEER_A_ENDPOINT : Z := 4.
Definition WGPEER_A_PERSISTENT_KEEPALIVE_INTERVAL : Z := 5.
Definition WGPEER_A_LAST_HANDSHAKE_TIME : Z := 6.
Definition WGPEER_A_RX_BYTES : Z := 7.
Definition WGPEER_A_TX_BYTES : Z := 8.
Definition WGPEER_A_ALLOWEDIPS : Z := 9.
Definition WGPEER_A_PROTOCOL_VERSION : Z := 10.
Definition WGPEER_A_ADVANCED_SECURITY : Z := 11.

Definition WGALLOWEDIP_A_FAMILY : Z := 1.
Definition WGALLOWEDIP_A_IPADDR : Z := 2.
Definition WGALLOWEDIP_A_CIDR_MASK : Z := 3.

(** ** Messages *)

(** What an attribute holds: a number of 8, 16, 32 or 64 bits, nothing, bytes,
    a string, a time, [struct sockaddr_in] or [struct sockaddr_in6]. *)
Inductive value :=
| VU8 (n : Z) | VU16 (n : Z) | VU32 (n : Z) | VU64 (n : Z)
| VFlag
| VBytes (b : list Z)
| VString (s : list Z)
| VTimespec (sec nsec : Z)
| VSock4 (port addr : Z)
| VSock6 (port flowinfo addr scope_id : Z).

Inductive nlattr := Attr (t : Z) (v : value) | Nest (t : Z) (l : list nlattr).

#[global] Instance value_eq_dec : EqDecision value.
Proof. solve_decision. Defined.

(** A message being written: the room that is left, what is in the innermost
    nest that is open, and the open nests, each with its type, the room there
    was before it and what is before it in the nest around it. *)
Record msg := Msg { room : Z; items : list nlattr; frames : list (Z * Z * list nlattr) }.

Definition nest : Type := nat.

(** [nla_nest_end]: a nest that was left open inside keeps the length of its
    header, so what follows its header belongs to the nest around it. *)
Fixpoint close_frames (k : nat) (l : list nlattr) (fs : list (Z * Z * list nlattr)) : list nlattr * list (Z * Z * list nlattr) :=
  match k, fs with
  | _, [] => (l, [])
  | O, (t, _, outer) :: fs' => (outer ++ [Nest t l], fs')
  | S k', (t, _, outer) :: fs' => close_frames k' (outer ++ Nest t [] :: l) fs'
  end.

Definition nla_nest_end (n : nest) (m : msg) : msg :=
  let '(l, fs) := close_frames (length (frames m) - S n) (items m) (frames m) in Msg (room m) l fs.

(** [nla_nest_cancel] cuts the message at the nest. *)
Definition nla_nest_cancel (n : nest) (m : msg) : msg :=
  match drop (length (frames m) - S n) (frames m) with
  | (_, r, outer) :: fs => Msg r outer fs
  | [] => m
  end.

Section Dump.

Context (siphash : list Z -> Z) (handshake_entry : Z -> Z).

(** The sizes of the generic netlink header, of an attribute, which for a
    64-bit number depends on the alignment, and of the header of a nest. *)
Context (hdr_size : Z) (attr_size : Z -> value -> Z) (nest_size : Z).

Definition nla_put (t : Z) (v : value) (m : msg) : option msg :=
  let n := attr_size (room m) v in
  if room m <? n then None else Some (Msg (room m - n) (items m ++ [Attr t v]) (frames m)).

(** A sequence of attributes up to the first that does not fit. *)
Fixpoint put_all (l : list (Z * value)) (m : msg) : option msg :=
  match l with
  | [] => Some m
  | (t, v) :: l' => match nla_put t v m with Some m => put_all l' m | None => None end
  end.

Definition nla_nest_start (t : Z) (m : msg) : option (nest * msg) :=
  if room m <? nest_size then None
  else Some (length (frames m), Msg (room m - nest_size) [] ((t, room m, items m) :: frames m)).

(** [genlmsg_put] into a message of [cap] bytes *)
Definition genlmsg_put (cap : Z) : option msg := if cap <? hdr_size then None else Some (Msg (cap - hdr_size) [] []).

(** ** Allowed addresses *)

Definition ip_attrs (ip : list Z) (cidr family : Z) : list (Z * value) :=
  [(WGALLOWEDIP_A_CIDR_MASK, VU8 cidr); (WGALLOWEDIP_A_FAMILY, VU16 family);
   (WGALLOWEDIP_A_IPADDR, VBytes (firstn (if family =? AF_INET6 then 16 else 4) ip))].

Definition get_allowedips (m : msg) (ip : list Z) (cidr family : Z) : Z * msg :=
  match nla_nest_start 0 m with
  | None => (- EMSGSIZE, m)
  | Some (allowedip_nest, m) =>
      match put_all (ip_attrs ip cidr family) m with
      | None => (- EMSGSIZE, nla_nest_cancel allowedip_nest m)
      | Some m => (0, nla_nest_end allowedip_nest m)
      end
  end.

(** [list_for_each_entry_from]: the part of the list that begins at [a];
    [None] when [a] is not on it. *)
Fixpoint entry_from (a : Z) (l : list Z) : option (list Z) :=
  match l with
  | [] => None
  | b :: l' => if a =? b then Some l else entry_from a l'
  end.

(** The loop over the allowed addresses: the node that did not fit, if any. *)
Fixpoint put_ips (t : table) (l : list Z) (m : msg) : option (option Z * msg) :=
  match l with
  | [] => Some (None, m)
  | a :: l' =>
      nd ← heap t !! a;
      '(family, ip, cidr) ← wg_allowedips_read_node nd;
      let '(ret, m) := get_allowedips m ip cidr family in
      if ret =? 0 then put_ips t l' m else Some (Some a, m)
  end.

(** ** Made-up endpoints *)

(** [in4_pton] and [in6_pton] on a whole string. *)
Context `{K : Kstrto} (in4_pton in6_pton : list Z -> option (list Z)).

Definition INET_ADDRSTRLEN : Z := 16.
Definition INET6_ADDRSTRLEN : Z := 48.

(** The text before and after the first slash. *)
Fixpoint strchr_slash (s : list Z) : option (list Z * list Z) :=
  match s with
  | [] => None
  | c :: s' => if c =? 47 then Some ([], s') else (fun x => (c :: x.1, x.2)) <$> strchr_slash s'
  end.

Definition parse_prefix (pton : list Z -> option (list Z)) (addrstrlen bits : Z) (s : option (list Z)) : res (list Z * Z) :=
  match s with
  | None => Err (- EINVAL)
  | Some s =>
      match strchr_slash s with
      | None => Err (- EINVAL)
      | Some (addr_str, rest) =>
          if addrstrlen <=? len addr_str then Err (- EINVAL)
          else
            match kstrtoint10 rest with
            | Err e => Err e
            | Ok n =>
                if (n <? 0) || (bits <? n) then Err (- EINVAL)
                else match pton addr_str with None => Err (- EINVAL) | Some addr => Ok (addr, n) end
            end
      end
  end.

Definition parse_ipv4_prefix : option (list Z) -> res (list Z * Z) := parse_prefix in4_pton INET_ADDRSTRLEN 32.
Definition parse_ipv6_prefix : option (list Z) -> res (list Z * Z) := parse_prefix in6_pton INET6_ADDRSTRLEN 128.

(** Bytes in network order as a number. *)
Definition be_word (l : list Z) : Z := le_word (rev l).

(** [None]: a shift by the width of the type. *)
Definition generate_ipv4_address_with_prefix (prefix : list Z * Z) (rnd : Z) : option Z :=
  let prefix_host_order := be_word prefix.1 in
  if prefix.2 =? 0 then None
  else
    let suffix_mask := if prefix.2 =? 32 then 0 else u32 (Z.shiftl 1 (32 - prefix.2) - 1) in
    let random_suffix := Z.land (u32 rnd) suffix_mask in
    Some (Z.lor (Z.land prefix_host_order (u32 (Z.lnot suffix_mask))) random_suffix).

(** [rnd] are the random bytes that go to the address, [random_byte] the extra one. *)
Definition generate_ipv6_address_with_prefix (prefix : list Z * Z) (rnd : list Z) (random_byte : Z) : Z :=
  let prefix_bytes := prefix.2 / 8 in
  let prefix_bits := prefix.2 mod 8 in
  if prefix_bytes <? 16 then
    let addr := firstn (Z.to_nat prefix_bytes) prefix.1 ++ firstn (Z.to_nat (16 - prefix_bytes)) rnd in
    if negb (prefix_bits =? 0) then
      let mask := u8 (Z.shiftl 255 (8 - prefix_bits)) in
      let b := nth (Z.to_nat prefix_bytes) addr 0 in
      be_word (<[Z.to_nat prefix_bytes := u8 (Z.lor (Z.land b mask) (Z.land random_byte (Z.lnot mask)))]> addr)
    else be_word addr
  else be_word prefix.1.

(** The module's parameters and the random numbers for one peer. *)
Record bogus := Bogus {
  bogus_endpoints : Z;
  bogus_endpoints_prefix : option (list Z);
  bogus_endpoints_prefix6 : option (list Z);
  bg_rnd4 : Z;
  bg_rnd6 : list Z;
  bg_byte : Z
}.

(** ** A peer *)

Record dump_ctx := DumpCtx {
  next_peer : option Z;
  allowedips_seq : Z;
  next_allowedip : option Z;
  prev_seq : Z                     (* [cb->prev_seq] *)
}.
Definition set_next_allowedip (a : option Z) (s : Z) (c : dump_ctx) : dump_ctx := DumpCtx (next_peer c) s a (prev_seq c).
Definition set_next_peer (p : option Z) (c : dump_ctx) : dump_ctx := DumpCtx p (allowedips_seq c) (next_allowedip c) (prev_seq c).
Definition set_prev_seq (s : Z) (c : dump_ctx) : dump_ctx := DumpCtx (next_peer c) (allowedips_seq c) (next_allowedip c) s.

(** The endpoint as it is shown; [pre] are the two prefixes when endpoints are made up. *)
Definition endpoint_attrs (b : bogus) (pre : option ((list Z * Z) * (list Z * Z))) (ep : endpoint) : option (list (Z * value)) :=
  match ep with
  | EpNone => Some []
  | Ep4 port addr _ _ =>
      addr ← match pre with Some (p4, _) => generate_ipv4_address_with_prefix p4 (bg_rnd4 b) | None => Some addr end;
      Some [(WGPEER_A_ENDPOINT, VSock4 port addr)]
  | Ep6 port flow addr scope _ =>
      let addr := match pre with Some (_, p6) => generate_ipv6_address_with_prefix p6 (bg_rnd6 b) (bg_byte b) | None => addr end in
      Some [(WGPEER_A_ENDPOINT, VSock6 port flow addr scope)]
  end.

Definition id_attrs (x : wg_peer) : list (Z * value) :=
  (WGPEER_A_FLAGS, VU32 WGPEER_F_HAS_ADVANCED_SECURITY) ::
  (if pc_advanced_security (wp_conf x) then [(WGPEER_A_ADVANCED_SECURITY, VFlag)] else []) ++
  [(WGPEER_A_PUBLIC_KEY, VBytes (wp_remote_static x))].

Definition settings_attrs (x : wg_peer) : list (Z * value) :=
  [(WGPEER_A_PRESHARED_KEY, VBytes (pc_preshared_key (wp_conf x)));
   (WGPEER_A_LAST_HANDSHAKE_TIME, VTimespec (st_walltime_sec (wp_stat x)) (st_walltime_nsec (wp_stat x)));
   (WGPEER_A_PERSISTENT_KEEPALIVE_INTERVAL, VU16 (pc_keepalive (wp_conf x)));
   (WGPEER_A_TX_BYTES, VU64 (tx_bytes (pc_sock (wp_conf x))));
   (WGPEER_A_RX_BYTES, VU64 (st_rx_bytes (wp_stat x)));
   (WGPEER_A_PROTOCOL_VERSION, VU32 1)].

(** What precedes the allowed addresses; the settings are left out when the
    dump goes on in the middle of the peer. *)
Definition peer_head (b : bogus) (pre : option ((list Z * Z) * (list Z * Z))) (first : bool) (x : wg_peer) : option (list (Z * value)) :=
  if first then ep ← endpoint_attrs b pre (ps_endpoint (pc_sock (wp_conf x))); Some (id_attrs x ++ settings_attrs x ++ ep)
  else Some (id_attrs x).

(** The two prefixes, or the error of the first that does not parse. *)
Definition bogus_prefixes (b : bogus) : res (option ((list Z * Z) * (list Z * Z))) :=
  if bogus_endpoints b =? 0 then Ok None
  else
    match parse_ipv4_prefix (bogus_endpoints_prefix b) with
    | Err e => Err e
    | Ok p4 => match parse_ipv6_prefix (bogus_endpoints_prefix6 b) with Err e => Err e | Ok p6 => Ok (Some (p4, p6)) end
    end.

(** From [if (!allowedips_node)] on: the allowed addresses. *)
Definition get_peer_ips (t : table) (p : Z) (peer_nest : nest) (node : option Z) (m : msg) (ctx : dump_ctx) : option (Z * msg * dump_ctx) :=
  let no_allowedips := Some (0, nla_nest_end peer_nest m, set_next_allowedip None 0 ctx) in
  match node with
  | None => no_allowedips
  | Some a =>
      let ctx' := if allowedips_seq ctx =? 0 then set_next_allowedip (next_allowedip ctx) (AllowedIps.seq t) ctx else ctx in
      if negb (allowedips_seq ctx =? 0) && negb (allowedips_seq ctx =? AllowedIps.seq t) then no_allowedips
      else
        match nla_nest_start WGPEER_A_ALLOWEDIPS m with
        | None => Some (- EMSGSIZE, nla_nest_cancel peer_nest m, ctx')
        | Some (allowedips_nest, m) =>
            l ← entry_from a (plist t p);
            '(stop, m) ← put_ips t l m;
            let m := nla_nest_end peer_nest (nla_nest_end allowedips_nest m) in
            match stop with
            | Some a => Some (- EMSGSIZE, m, set_next_allowedip (Some a) (allowedips_seq ctx') ctx')
            | None => Some (0, m, set_next_allowedip None 0 ctx')
            end
        end
  end.

(** [None] is an access to memory that is not allocated. *)
Definition get_peer (w : world) (b : bogus) (p : Z) (m : msg) (ctx : dump_ctx) : option (Z * msg * dump_ctx) :=
  x ← mem w !! p;
  match nla_nest_start 0 m with
  | None => Some (- EMSGSIZE, m, ctx)
  | Some (peer_nest, m) =>
      match bogus_prefixes b with
      | Err e => Some (e, m, ctx)
      | Ok pre =>
          let first := bool_decide (next_allowedip ctx = None) in
          l ← peer_head b pre first x;
          match put_all l m with
          | None => Some (- EMSGSIZE, nla_nest_cancel peer_nest m, ctx)
          | Some m =>
              let node := if first then head (plist (peer_allowedips w) p) else next_allowedip ctx in
              get_peer_ips (peer_allowedips w) p peer_nest node m ctx
          end
      end
  end.

(** ** The device *)

(** [wg->dev->ifindex] and [wg->dev->name] *)
Context (ifindex : Z) (ifname : list Z).

Definition string_attr (t : Z) (s : option (list Z)) : list (Z * value) := match s with Some s => [(t, VString s)] | None => [] end.

(** A header is shown unless [mh_genspec] returns 0. *)
Definition header_attr (t : Z) (h : magic_header) : list (Z * value) :=
  match mh_genspec h 32 with [] => [] | s => [(t, VString s)] end.

Definition ispec_attrs (c : awg_config) : list (Z * value) :=
  concat (map (fun i => string_attr (WGDEVICE_A_I1 + Z.of_nat i) (cf_ispecs c !! i ≫= spec_desc)) (List.seq 0 5)).

Definition device_head (d : wg_device) : list (Z * value) :=
  let c := wd_config d in
  [(WGDEVICE_A_LISTEN_PORT, VU16 (incoming_port (wd_socks d))); (WGDEVICE_A_FWMARK, VU32 (wd_fwmark d));
   (WGDEVICE_A_IFINDEX, VU32 ifindex); (WGDEVICE_A_IFNAME, VString ifname);
   (WGDEVICE_A_JC, VU16 (cf_jc c)); (WGDEVICE_A_JMIN, VU16 (cf_jmin c)); (WGDEVICE_A_JMAX, VU16 (cf_jmax c));
   (WGDEVICE_A_S1, VU16 (junk_size c MSGIDX_HANDSHAKE_INIT)); (WGDEVICE_A_S2, VU16 (junk_size c MSGIDX_HANDSHAKE_RESPONSE))] ++
  header_attr WGDEVICE_A_H1 (header c MSGIDX_HANDSHAKE_INIT) ++ header_attr WGDEVICE_A_H2 (header c MSGIDX_HANDSHAKE_RESPONSE) ++
  header_attr WGDEVICE_A_H3 (header c MSGIDX_HANDSHAKE_COOKIE) ++ header_attr WGDEVICE_A_H4 (header c MSGIDX_TRANSPORT) ++
  [(WGDEVICE_A_S3, VU16 (junk_size c MSGIDX_HANDSHAKE_COOKIE)); (WGDEVICE_A_S4, VU16 (junk_size c MSGIDX_TRANSPORT))] ++
  ispec_attrs c ++
  (match cf_imitate_proto c with IMITATE_NONE => [] | pr => [(WGDEVICE_A_IMITATE_PROTOCOL, VString (imitate_proto_name pr))] end) ++
  (if has_identity (wd_identity d)
   then [(WGDEVICE_A_PRIVATE_KEY, VBytes (static_private (wd_identity d))); (WGDEVICE_A_PUBLIC_KEY, VBytes (static_public (wd_identity d)))]
   else []).

(** [list_for_each_entry_continue]: whether it came to the end, and the last
    peer that is complete. *)
Fixpoint get_peers (w : world) (env : Z -> bogus) (l : list Z) (m : msg) (ctx : dump_ctx) (cursor : option Z) :
    option (bool * msg * dump_ctx * option Z) :=
  match l with
  | [] => Some (true, m, ctx, cursor)
  | p :: l' =>
      '(ret, m, ctx) ← get_peer w (env p) p m ctx;
      if negb (ret =? 0) then Some (false, m, ctx, cursor) else get_peers w env l' m ctx (Some p)
  end.

(** The peers after the cursor. *)
Definition peers_after (p : option Z) (l : list Z) : option (list Z) :=
  match p with None => Some l | Some p => (drop 1) <$> entry_from p l end.

(** A message that user space gets: its attributes and [NLM_F_DUMP_INTR]. *)
Record dumped := Dumped { du_items : list nlattr; du_intr : bool }.

(** What is between [genlmsg_put] and the label [out]: [None] when [ret] is
    [-EMSGSIZE]. *)
Definition dump_body (d : wg_device) (env : Z -> bogus) (m : msg) (ctx : dump_ctx) : option (option (bool * msg * dump_ctx * option Z)) :=
  let w := wd_world d in
  match (match next_peer ctx with None => put_all (device_head d) m | Some _ => Some m end) with
  | None => Some None
  | Some m =>
      match nla_nest_start WGDEVICE_A_PEERS m with
      | None => Some None
      | Some (peers_nest, m) =>
          gone ← (match peer_list w with
                  | [] => Some true
                  | _ => match next_peer ctx with None => Some false | Some p => wp_is_dead <$> mem w !! p end
                  end);
          if gone : bool then Some (Some (true, nla_nest_cancel peers_nest m, ctx, next_peer ctx))
          else
            l ← peers_after (next_peer ctx) (peer_list w);
            '(done, m, ctx, cursor) ← get_peers w env l m ctx (next_peer ctx);
            Some (Some (done, nla_nest_end peers_nest m, ctx, cursor))
      end
  end.

(** The message is discarded; the cursor is put but kept. *)
Definition dump_fail (d : wg_device) (ctx : dump_ctx) : option (Z * option dumped * dump_ctx * wg_device) :=
  w ← wg_peer_put handshake_entry (wd_world d) (next_peer ctx); Some (- EMSGSIZE, None, ctx, set_world w d).

(** The returned value, the message if one is sent, and the new state. *)
Definition wg_get_device_dump (d : wg_device) (cap : Z) (env : Z -> bogus) (ctx : dump_ctx) : option (Z * option dumped * dump_ctx * wg_device) :=
  match genlmsg_put cap with
  | None => dump_fail d ctx
  | Some m =>
      let intr := negb (prev_seq ctx =? 0) && negb (wd_gen d =? prev_seq ctx) in
      let ctx := set_prev_seq (wd_gen d) ctx in
      match dump_body d env m ctx with
      | None => None
      | Some None => dump_fail d ctx
      | Some (Some (done, m, ctx, cursor)) =>
          w ← match cursor with Some p => if (done : bool) then Some (wd_world d) else wg_peer_get (wd_world d) p | None => Some (wd_world d) end;
          w ← wg_peer_put handshake_entry w (next_peer ctx);
          let ctx := set_next_peer (if done then None else cursor) ctx in
          Some (if done then 0 else cap - room m, Some (Dumped (items m) intr), ctx, set_world w d)
      end
  end.

Definition wg_get_device_done (w : world) (ctx : dump_ctx) : option world := wg_peer_put handshake_entry w (next_peer ctx).

(** Netlink asks for messages of [cap] bytes while the returned value is
    positive; then the dump is done. *)
Fixpoint run_dump (fuel : nat) (d : wg_device) (cap : Z) (env : Z -> bogus) (ctx : dump_ctx) : option (Z * list dumped * wg_device) :=
  match fuel with
  | O => None
  | S fuel' =>
      '(ret, m, ctx, d) ← wg_get_device_dump d cap env ctx;
      if 0 <? ret then '(ret, ms, d) ← run_dump fuel' d cap env ctx; Some (ret, option_list m ++ ms, d)
      else w ← wg_get_device_done (wd_world d) ctx; Some (ret, option_list m, set_world w d)
  end.

End Dump.

(** [wg_get_device_start] *)
Definition start_ctx : dump_ctx := DumpCtx None 0 None 0.

(** ** What user space reads *)

Definition attrs_of (l : list (Z * value)) : list nlattr := map (fun x => Attr x.1 x.2) l.

Fixpoint find_attr (t : Z) (l : list nlattr) : option value :=
  match l with
  | [] => None
  | Attr t' v :: l' => if t =? t' then Some v else find_attr t l'
  | Nest _ _ :: l' => find_attr t l'
  end.

(** The contents of the nests of a type. *)
Definition nested (t : Z) (l : list nlattr) : list nlattr :=
  concat (map (fun a => match a with Nest t' l' => if t =? t' then l' else [] | Attr _ _ => [] end) l).
Definition is_attr (a : nlattr) : bool := match a with Attr _ _ => true | Nest _ _ => false end.

(** The fragments of peers in a message. *)
Definition fragments (m : dumped) : list (list nlattr) :=
  concat (map (fun a => match a with Nest _ l => [l] | Attr _ _ => [] end) (nested WGDEVICE_A_PEERS (du_items m))).

(** A fragment with the key of the one before it goes on with the allowed
    addresses of the same peer.  The last peer comes first. *)
Definition add_fragment (acc : list (list nlattr * list nlattr)) (f : list nlattr) : list (list nlattr * list nlattr) :=
  let ips := nested WGPEER_A_ALLOWEDIPS f in
  match acc with
  | (attrs, l) :: acc' =>
      if bool_decide (find_attr WGPEER_A_PUBLIC_KEY attrs = find_attr WGPEER_A_PUBLIC_KEY f) then (attrs, l ++ ips) :: acc'
      else (List.filter is_attr f, ips) :: acc
  | [] => [(List.filter is_attr f, ips)]
  end.
Definition assemble (fs : list (list nlattr)) : list (list nlattr * list nlattr) := rev (fold_left add_fragment fs []).

(** An allowed address as a prefix. *)
Definition read_ip (a : nlattr) : option (bool * list bool) :=
  match a with
  | Attr _ _ => None
  | Nest _ l =>
      match find_attr WGALLOWEDIP_A_FAMILY l, find_attr WGALLOWEDIP_A_IPADDR l, find_attr WGALLOWEDIP_A_CIDR_MASK l with
      | Some (VU16 family), Some (VBytes ip), Some (VU8 cidr) => let v6 := family =? AF_INET6 in Some (v6, prefix_of_ip v6 ip cidr)
      | _, _, _ => None
      end
  end.

(** *** What it should read *)

(** The endpoint: the real one, or an address in the configured prefix; of a
    prefix for version 6 only whole bytes count. *)
Definition endpoint_seen (parse4 parse6 : option (list Z) -> res (list Z * Z)) (b : bogus) (ep : endpoint) (o : option value) : Prop :=
  match ep with
  | EpNone => o = None
  | Ep4 port addr _ _ => exists a, o = Some (VSock4 port a) /\ (bogus_endpoints b = 0 -> a = addr) /\
      (bogus_endpoints b <> 0 -> forall net n, parse4 (bogus_endpoints_prefix b) = Ok (net, n) -> a / 2 ^ (32 - n) = be_word net / 2 ^ (32 - n))
  | Ep6 port flow addr scope _ => exists a, o = Some (VSock6 port flow a scope) /\ (bogus_endpoints b = 0 -> a = addr) /\
      (bogus_endpoints b <> 0 -> forall net n, parse6 (bogus_endpoints_prefix6 b) = Ok (net, n) -> n mod 8 = 0 -> a / 2 ^ (128 - n) = be_word net / 2 ^ (128 - n))
  end.

(** An assembled peer shows the settings of the peer with key [k] and exactly
    its prefixes. *)
Record shows (seen : endpoint -> option value -> Prop) (c : net_conf) (k : list Z) (cf : peer_conf) (e : list nlattr * list nlattr) : Prop := {
  sh_key : find_attr WGPEER_A_PUBLIC_KEY e.1 = Some (VBytes k);
  sh_psk : find_attr WGPEER_A_PRESHARED_KEY e.1 = Some (VBytes (pc_preshared_key cf));
  sh_keepalive : find_attr WGPEER_A_PERSISTENT_KEEPALIVE_INTERVAL e.1 = Some (VU16 (pc_keepalive cf));
  sh_advanced : find_attr WGPEER_A_ADVANCED_SECURITY e.1 = if pc_advanced_security cf then Some VFlag else None;
  sh_endpoint : seen (ps_endpoint (pc_sock cf)) (find_attr WGPEER_A_ENDPOINT e.1);
  sh_nodup : NoDup (read_ip <$> e.2);
  sh_ips : forall v q, Some (v, q) ∈ (read_ip <$> e.2) <-> nc_ips c !! (v, q) = Some k
}.

(** ** Addresses in a prefix *)

Lemma be_word_app l1 l2 : be_word (l1 ++ l2) = be_word l1 * 256 ^ len l2 + be_word l2.
Proof.
  unfold be_word. rewrite rev_app_distr. replace (len l2) with (len (rev l2)) by (unfold len; by rewrite length_rev). induction (rev l2) as [|b l IH]; cbn [app]; [change (256 ^ len (@nil Z)) with 1; cbn; lia|].
  rewrite !le_word_cons, IH. replace (len (b :: l)) with (len l + 1) by (unfold len; cbn; lia). rewrite Z.pow_add_r by (unfold len; lia). lia.
Qed.

Lemma be_word_range l : all_bytes l -> 0 <= be_word l < 256 ^ len l.
Proof. intros H. unfold be_word. replace (len l) with (len (rev l)) by (unfold len; by rewrite length_rev). apply le_word_range. by apply Forall_rev. Qed.

Lemma be_word_div l1 l2 : all_bytes l2 -> be_word (l1 ++ l2) / 256 ^ len l2 = be_word l1.
Proof. intros H%be_word_range. rewrite be_word_app, Z.div_add_l by lia. rewrite Z.div_small by lia. lia. Qed.

(** The suffix is random, the prefix stays. *)
Lemma generate4_prefix net n rnd a : length net = 4%nat -> all_bytes net -> 0 <= n <= 32 ->
  generate_ipv4_address_with_prefix (net, n) rnd = Some a -> a / 2 ^ (32 - n) = be_word net / 2 ^ (32 - n).
Proof.
  intros Hl Hb Hn. unfold generate_ipv4_address_with_prefix. cbn [fst snd]. destruct (Z.eqb_spec n 0); [done|]. intros [= <-].
  pose proof (be_word_range net Hb) as Hr. replace (256 ^ len net) with (2 ^ 32) in Hr by (unfold len; rewrite Hl; reflexivity).
  assert ((if n =? 32 then 0 else u32 (Z.shiftl 1 (32 - n) - 1)) = Z.ones (32 - n)) as ->.
  { destruct (Z.eqb_spec n 32) as [->|]; [done|]. rewrite Z.shiftl_1_l. unfold Z.ones. rewrite Z.shiftl_1_l, <- Z.sub_1_r. unfold u32. apply Z.mod_small.
    pose proof (Z.pow_pos_nonneg 2 (32 - n)). pose proof (Z.pow_lt_mono_r 2 (32 - n) 32). lia. }
  rewrite <- !Z.shiftr_div_pow2 by lia. apply Z.bits_inj'. intros i Hi. rewrite !Z.shiftr_spec, Z.lor_spec, !Z.land_spec by done. rewrite (Z.ones_spec_high (32 - n)) by lia.
  rewrite andb_false_r, orb_false_r. unfold u32. destruct (Z.ltb_spec (i + (32 - n)) 32).
  - rewrite Z.mod_pow2_bits_low, Z.lnot_spec, Z.ones_spec_high by lia. apply andb_true_r.
  - rewrite (testbit_small (be_word net) 32) by lia. done.
Qed.

Lemma pow_bytes k : 0 <= k -> 256 ^ k = 2 ^ (8 * k).
Proof. intros Hk. by rewrite Z.pow_mul_r by lia. Qed.

Lemma generate6_prefix net n rnd b : length net = 16%nat -> all_bytes net -> length rnd = 16%nat -> all_bytes rnd -> 0 <= n <= 128 -> n mod 8 = 0 ->
  generate_ipv6_address_with_prefix (net, n) rnd b / 2 ^ (128 - n) = be_word net / 2 ^ (128 - n).
Proof.
  intros Hl Hb Hrl Hrb Hn Hm. unfold generate_ipv6_address_with_prefix. cbn [fst snd]. rewrite Hm, Z.eqb_refl. cbn [negb].
  destruct (Z.ltb_spec (n / 8) 16) as [Hk|]; [|done]. set (k := Z.to_nat (n / 8)).
  assert (Hpow : forall l : list Z, len l = 16 - n / 8 -> 2 ^ (128 - n) = 256 ^ len l) by (intros l ->; rewrite pow_bytes by lia; f_equal; lia).
  rewrite (Hpow (firstn (Z.to_nat (16 - n / 8)) rnd)) at 1 by (unfold len; rewrite length_take; lia). rewrite be_word_div by (by apply Forall_take).
  rewrite <- (take_drop k net) at 2. rewrite (Hpow (drop k net)) by (unfold len; rewrite length_drop; lia). by rewrite be_word_div by (by apply Forall_drop).
Qed.

(** The address up to the byte that the prefix cuts. *)
Lemma be_word_cut net k j x rest : all_bytes rest -> len rest = 15 - k -> 0 <= k <= 15 -> 0 < j < 8 ->
  be_word (net ++ x :: rest) / 2 ^ (128 - (8 * k + j)) = be_word net * 2 ^ j + x / 2 ^ (8 - j).
Proof.
  intros Hr Hl Hk Hj. assert (2 ^ (128 - (8 * k + j)) = 256 ^ len rest * 2 ^ (8 - j)) as -> by (rewrite Hl, pow_bytes by lia; rewrite <- Z.pow_add_r by lia; f_equal; lia).
  pose proof (be_word_range rest Hr) as Hrr. rewrite <- Z.div_div by lia. replace (net ++ x :: rest) with ((net ++ [x]) ++ rest) by (by rewrite <- app_assoc). rewrite be_word_div by done.
  rewrite be_word_app. change (256 ^ len [x]) with 256. change (be_word [x]) with (x + 256 * 0). replace 256 with (2 ^ j * 2 ^ (8 - j)) at 1 by (rewrite <- Z.pow_add_r by lia; by replace (j + (8 - j)) with 8 by lia).
  rewrite Z.mul_assoc, Z.div_add_l by lia. f_equal. f_equal. lia.
Qed.

Lemma generate6_cut net n rnd b : length net = 16%nat -> length rnd = 16%nat -> 0 <= n < 128 -> n mod 8 <> 0 ->
  exists x rest, net = firstn (Z.to_nat (n / 8)) net ++ x :: rest /\ len rest = 15 - n / 8 /\
    generate_ipv6_address_with_prefix (net, n) rnd b =
      be_word (firstn (Z.to_nat (n / 8)) net ++ u8 (Z.lor (Z.land (nth 0 rnd 0) (u8 (Z.shiftl 255 (8 - n mod 8)))) (Z.land b (Z.lnot (u8 (Z.shiftl 255 (8 - n mod 8)))))) :: firstn (Z.to_nat (15 - n / 8)) (skipn 1 rnd)).
Proof.
  intros Hl Hrl Hn Hm. set (k := n / 8) in *. assert (0 <= k <= 15) as Hk by (unfold k; lia). destruct (drop (Z.to_nat k) net) as [|x rest] eqn:E.
  { apply (f_equal length) in E. rewrite length_drop in E. cbn in E. lia. }
  exists x, rest. assert (length (drop (Z.to_nat k) net) = length (x :: rest)) as E2 by (by rewrite E). rewrite length_drop in E2. cbn [length] in E2.
  split; [by rewrite <- E, take_drop|]. split; [unfold len; lia|]. unfold generate_ipv6_address_with_prefix. cbn [fst snd]. fold k.
  destruct (Z.ltb_spec k 16); [|lia]. destruct (Z.eqb_spec (n mod 8) 0); [done|]. cbn [negb]. destruct rnd as [|r0 rnd]; [done|].
  replace (Z.to_nat (16 - k)) with (S (Z.to_nat (15 - k))) by lia. cbn [firstn nth skipn].
  assert (length (firstn (Z.to_nat k) net) = Z.to_nat k) as Hlen by (rewrite length_take; lia).
  rewrite app_nth2, Hlen, Nat.sub_diag by lia. cbn [nth]. rewrite insert_app_r_alt, Hlen, Nat.sub_diag by lia. done.
Qed.

(** ** References *)

Section References.

Context (siphash : list Z -> Z) (handshake_entry : Z -> Z) `{!Inj (=) (=) handshake_entry}.
#[local] Notation net_ok := (net_ok siphash handshake_entry).

(** Two states of a device that differ only in references. *)
Definition alike (w w' : world) : Prop := same_peers w w' /\ peer_list w' = peer_list w /\ peer_allowedips w' = peer_allowedips w.

#[global] Instance alike_preorder : PreOrder alike.
Proof.
  split; [done|]. intros a b c (H1 & H2 & H3) (H4 & H5 & H6). split; [|split; congruence]. intros p. by rewrite (H4 p), (H1 p).
Qed.

Definition cursor_refs (o : option Z) : gmultiset Z := match o with Some p => {[+ p +]} | None => ∅ end.

(** The cursor of the next call is taken and that of this call is put. *)
Lemma move_cursor w h c old new : net_ok w (cursor_refs old ⊎ h) -> reps w c -> (forall p, new = Some p -> p ∈ peer_list w) ->
  exists w1 w', match new with Some p => wg_peer_get w p | None => Some w end = Some w1 /\ wg_peer_put handshake_entry w1 old = Some w' /\
    net_ok w' (cursor_refs new ⊎ h) /\ reps w' c /\ alike w w'.
Proof.
  intros Hok Hrep Hnew.
  assert (exists w1, match new with Some p => wg_peer_get w p | None => Some w end = Some w1 /\ net_ok w1 (cursor_refs new ⊎ (cursor_refs old ⊎ h)) /\ reps w1 c /\ alike w w1)
    as (w1 & Hw1 & Hok1 & Hrep1 & Ha1).
  { destruct new as [p|]; [|exists w; ands; try done; cbn [cursor_refs]; by rewrite (left_id_L ∅ _)]. specialize (Hnew p eq_refl). destruct (listed_mem _ _ _ _ _ Hok Hnew) as (x & Hx & _ & Hn).
    destruct (peer_get_ok _ _ w _ p x c Hok Hrep Hx) as [H1 H2]; [lia|]. eexists. split; [unfold wg_peer_get, on_peer; by rewrite Hx|]. ands; try done. split; [by eapply same_peers_insert|done]. }
  exists w1. destruct old as [q|].
  - replace (cursor_refs new ⊎ (cursor_refs (Some q) ⊎ h)) with ({[+ q +]} ⊎ (cursor_refs new ⊎ h)) in Hok1 by (cbn [cursor_refs]; multiset_solver).
    destruct (net_put_ok _ _ w1 _ q c Hok1 Hrep1) as (w' & Hput & Hok' & Hrep' & Hl & Hs). pose proof (put_effect _ _ _ _ Hput) as (Ht & _ & _).
    exists w'. ands; try done. by transitivity w1.
  - exists w1. ands; try done. cbn [cursor_refs] in *. by rewrite (left_id_L ∅ _) in Hok1.
Qed.

End References.

(** ** The message *)

Section Message.

Context (hdr_size : Z) (attr_size : Z -> value -> Z) (nest_size : Z).
#[local] Notation nla_put := (nla_put attr_size).
#[local] Notation put_all := (put_all attr_size).
#[local] Notation nla_nest_start := (nla_nest_start nest_size).
#[local] Notation get_allowedips := (get_allowedips attr_size nest_size).
#[local] Notation put_ips := (put_ips attr_size nest_size).

(** A bound on the size of an attribute. *)
Context (attr_max : value -> Z).
Hypothesis size_max : forall r v, 0 <= attr_size r v <= attr_max v.
Hypothesis nest_pos : 0 <= nest_size.

Fixpoint cost (l : list (Z * value)) : Z := match l with [] => 0 | (_, v) :: l' => attr_max v + cost l' end.

Lemma cost_app l l' : cost (l ++ l') = cost l + cost l'.
Proof. induction l as [|[t v] l IH]; cbn; [done|]. rewrite IH. lia. Qed.
Lemma cost_pos l : 0 <= cost l.
Proof. induction l as [|[t v] l IH]; cbn; [done|]. pose proof (size_max 0 v). lia. Qed.

(** Attributes follow those that are there and cost at most their bound. *)
Lemma put_all_ok l m : match put_all l m with
  | Some m' => items m' = items m ++ attrs_of l /\ frames m' = frames m /\ room m - cost l <= room m' <= room m
  | None => room m < cost l
  end.
Proof.
  revert m. induction l as [|[t v] l IH]; intros m; cbn [Dump.put_all cost]; [rewrite app_nil_r; ands; lia || done|].
  unfold Dump.nla_put. pose proof (size_max (room m) v) as Hs. pose proof (cost_pos l) as Hc. destruct (Z.ltb_spec (room m) (attr_size (room m) v)); [lia|].
  specialize (IH (Msg (room m - attr_size (room m) v) (items m ++ [Attr t v]) (frames m))). cbn [room items frames] in IH.
  destruct (put_all l _) as [m'|]; [|lia]. destruct IH as (H1 & H2 & H3). ands; [|done|lia..]. by rewrite H1, <- app_assoc.
Qed.

Lemma close_ok m t r outer fs : frames m = (t, r, outer) :: fs -> nla_nest_end (length fs) m = Msg (room m) (outer ++ [Nest t (items m)]) fs.
Proof. intros H. unfold nla_nest_end. rewrite H. cbn [length]. rewrite Nat.sub_diag. done. Qed.

Lemma cancel_ok m t r outer fs : frames m = (t, r, outer) :: fs -> nla_nest_cancel (length fs) m = Msg r outer fs.
Proof. intros H. unfold nla_nest_cancel. rewrite H. cbn [length]. rewrite Nat.sub_diag. done. Qed.

Lemma msg_eta m : Msg (room m) (items m) (frames m) = m.
Proof. by destruct m. Qed.

Lemma nest_start_ok t m : match nla_nest_start t m with
  | Some (n, m') => n = length (frames m) /\ m' = Msg (room m - nest_size) [] ((t, room m, items m) :: frames m)
  | None => room m < nest_size
  end.
Proof. unfold Dump.nla_nest_start. destruct (Z.ltb_spec (room m) nest_size); done. Qed.

(** One allowed address: it is written, or the message is as before. *)
Lemma get_allowedips_ok m ip cidr fam : match get_allowedips m ip cidr fam with
  | (ret, m') => (ret = 0 /\ items m' = items m ++ [Nest 0 (attrs_of (ip_attrs ip cidr fam))] /\ frames m' = frames m /\
                    room m - (nest_size + cost (ip_attrs ip cidr fam)) <= room m' <= room m) \/
                 (ret = - EMSGSIZE /\ m' = m /\ room m < nest_size + cost (ip_attrs ip cidr fam))
  end.
Proof.
  unfold Dump.get_allowedips. pose proof (nest_start_ok 0 m) as Hn. pose proof (cost_pos (ip_attrs ip cidr fam)) as Hc.
  destruct (nla_nest_start 0 m) as [[n m1]|]; [|right; ands; done || lia]. destruct Hn as [-> ->].
  match goal with |- context [Dump.put_all _ _ ?m1] => pose proof (put_all_ok (ip_attrs ip cidr fam) m1) as Hp end.
  destruct (put_all _ _) as [m2|]; cbn [room items frames] in Hp.
  - destruct Hp as (Hi & Hf & Hr). left. rewrite (close_ok _ _ _ _ _ Hf). cbn [room items frames]. ands; [done|by rewrite Hi|done|lia..].
  - right. rewrite (cancel_ok _ 0 (room m) (items m) (frames m)) by done. rewrite msg_eta. ands; done || lia.
Qed.

(** ** Allowed addresses *)

(** What is shown of a node. *)
Definition ip_nest (t : table) (a : Z) : nlattr :=
  match (nd ← heap t !! a; wg_allowedips_read_node nd) with
  | Some (fam, ip, cidr) => Nest 0 (attrs_of (ip_attrs ip cidr fam))
  | None => Nest 0 []
  end.
Definition ip_cost (t : table) (a : Z) : Z :=
  match (nd ← heap t !! a; wg_allowedips_read_node nd) with
  | Some (fam, ip, cidr) => nest_size + cost (ip_attrs ip cidr fam)
  | None => 0
  end.

Lemma put_ips_ok t l : Forall (fun a => is_Some (nd ← heap t !! a; wg_allowedips_read_node nd)) l -> forall m,
  exists stop m', put_ips t l m = Some (stop, m') /\ frames m' = frames m /\ room m' <= room m /\
    ((stop = None /\ items m' = items m ++ map (ip_nest t) l) \/
     exists l1 a l2, stop = Some a /\ l = l1 ++ a :: l2 /\ items m' = items m ++ map (ip_nest t) l1 /\
       (l1 = [] -> room m < ip_cost t a)).
Proof.
  induction 1 as [|a l [[[fam ip] cidr] Ha] Hl IH]; intros m; cbn [Dump.put_ips].
  { exists None, m. ands; [done..|]. left. by rewrite app_nil_r. }
  destruct (heap t !! a) as [nd|] eqn:Hnd; [|done]. cbn [mbind option_bind] in Ha |- *. rewrite Ha. cbn [mbind option_bind].
  assert (ip_nest t a = Nest 0 (attrs_of (ip_attrs ip cidr fam)) /\ ip_cost t a = nest_size + cost (ip_attrs ip cidr fam)) as [Hin Hic].
  { unfold ip_nest, ip_cost. rewrite Hnd. cbn [mbind option_bind]. by rewrite Ha. }
  pose proof (get_allowedips_ok m ip cidr fam) as Hg. destruct (get_allowedips m ip cidr fam) as [ret m1].
  destruct Hg as [(-> & Hi & Hf & Hr)|(-> & -> & Hr)]; cbn [Z.eqb].
  - destruct (IH m1) as (stop & m' & Hrun & Hf' & Hr' & Hres). exists stop, m'. rewrite Hrun. ands; [done|congruence|lia|].
    destruct Hres as [(-> & Hit)|(l1 & b & l2 & -> & -> & Hit & _)]; [left|right].
    + split; [done|]. cbn. by rewrite Hit, Hi, Hin, <- app_assoc.
    + exists (a :: l1), b, l2. ands; [done..| |done]. cbn. by rewrite Hit, Hi, Hin, <- app_assoc.
  - exists (Some a), m. ands; [done..|lia|]. right. exists [], a, l. ands; [done..|by rewrite app_nil_r|lia].
Qed.

Lemma entry_from_ok a l1 l2 : a ∉ l1 -> entry_from a (l1 ++ a :: l2) = Some (a :: l2).
Proof.
  induction l1 as [|b l1 IH]; cbn; [by rewrite Z.eqb_refl|]. intros [Hb Hl]%not_elem_of_cons.
  destruct (Z.eqb_spec a b); [done|auto].
Qed.

(** ** A dump of a device that does not change *)

(** The settings that decide what a dump shows of a peer: its memory, the made-up endpoints and the table. *)
Context `{K : Kstrto} (in4_pton in6_pton : list Z -> option (list Z)).
#[local] Notation bogus_prefixes := (bogus_prefixes in4_pton in6_pton).
#[local] Notation get_peer := (get_peer attr_size nest_size in4_pton in6_pton).
#[local] Notation get_peer_ips := (get_peer_ips attr_size nest_size).

Section Position.

Context (w : world) (env : Z -> bogus).
#[local] Notation t := (peer_allowedips w).

Definition full_head (p : Z) : list (Z * value) :=
  match mem w !! p, bogus_prefixes (env p) with Some x, Ok pre => default [] (peer_head (env p) pre true x) | _, _ => [] end.
Definition id_head (p : Z) : list (Z * value) := match mem w !! p with Some x => id_attrs x | None => [] end.
Definition key_of (p : Z) : option value := VBytes <$> key_at w p.

(** A peer can be shown: the endpoints that are made up have prefixes, and the nodes on its list are there. *)
Record readable (p : Z) : Prop := {
  rd_head : exists x pre l, mem w !! p = Some x /\ bogus_prefixes (env p) = Ok pre /\ peer_head (env p) pre true x = Some l;
  rd_nodes : Forall (fun a => is_Some (nd ← heap t !! a; wg_allowedips_read_node nd)) (plist t p);
  rd_nodup : NoDup (plist t p)
}.

(** A peer as it is shown, and a fragment of it. *)
Definition shown (p : Z) : list nlattr * list nlattr := (attrs_of (full_head p), map (ip_nest t) (plist t p)).
Definition fragment (p : Z) (first : bool) (ips : list Z) (some : bool) : list nlattr :=
  attrs_of (if first then full_head p else id_head p) ++ (if some then [Nest WGPEER_A_ALLOWEDIPS (map (ip_nest t) ips)] else []).

(** The peers [ds] are complete, and of the first of [ps] the addresses [i1]. *)
Definition at_pos (ctx : dump_ctx) (ds ps i1 : list Z) : Prop :=
  peer_list w = ds ++ ps /\
  match next_allowedip ctx with
  | None => i1 = [] /\ (allowedips_seq ctx = 0 \/ allowedips_seq ctx = AllowedIps.seq t)
  | Some a => allowedips_seq ctx = AllowedIps.seq t /\ exists p ps' i2, ps = p :: ps' /\ plist t p = i1 ++ a :: i2
  end.
Definition acc_at (ctx : dump_ctx) (ds ps i1 : list Z) : list (list nlattr * list nlattr) :=
  match next_allowedip ctx, ps with
  | Some _, p :: _ => (attrs_of (full_head p), map (ip_nest t) i1) :: map shown (rev ds)
  | _, _ => map shown (rev ds)
  end.

(** There is room for the peer with at least one of its addresses. *)
Definition roomy (r p : Z) : Prop :=
  nest_size + cost (full_head p) <= r /\ forall a, a ∈ plist t p -> nest_size + cost (full_head p) + nest_size + ip_cost t a <= r.

Lemma find_id x l : find_attr WGPEER_A_PUBLIC_KEY (attrs_of (id_attrs x) ++ l) = Some (VBytes (wp_remote_static x)).
Proof. unfold id_attrs. by destruct (pc_advanced_security (wp_conf x)). Qed.

Lemma full_head_id p : readable p -> exists l, full_head p = id_head p ++ l.
Proof.
  intros [(x & pre & l & Hx & Hb & Hl) _ _]. unfold full_head, id_head. rewrite Hx, Hb, Hl. cbn. unfold peer_head in Hl.
  destruct (endpoint_attrs _ _ _) as [ep|]; [|done]. injection Hl as <-. eauto.
Qed.

Lemma frag_find_key p (first : bool) l : readable p -> find_attr WGPEER_A_PUBLIC_KEY (attrs_of (if first then full_head p else id_head p) ++ l) = key_of p.
Proof.
  intros Hp. destruct (full_head_id p Hp) as [l' Hl']. destruct Hp as [(x & _ & _ & Hx & _) _ _]. unfold key_of, key_at. unfold id_head in *. rewrite Hx in *.
  destruct first; [rewrite Hl'; unfold attrs_of; rewrite map_app, <- app_assoc|]; apply find_id.
Qed.

Lemma filter_attrs l k : List.filter is_attr (attrs_of l ++ k) = attrs_of l ++ List.filter is_attr k.
Proof. induction l as [|[a v] l IH]; [done|]. cbn. by f_equal. Qed.
Lemma nested_attrs n l k : nested n (attrs_of l ++ k) = nested n k.
Proof. induction l as [|[a v] l IH]; [done|]. exact IH. Qed.

Lemma fragment_ips p first ips some : nested WGPEER_A_ALLOWEDIPS (fragment p first ips some) = if some then map (ip_nest t) ips else [].
Proof. unfold fragment. rewrite nested_attrs. destruct some; cbn; by rewrite ?app_nil_r. Qed.

(** The first fragment of a peer with a key of its own, and a further one. *)
Lemma add_first acc p ips some : readable p -> Forall (fun e => find_attr WGPEER_A_PUBLIC_KEY e.1 <> key_of p) acc ->
  add_fragment acc (fragment p true ips some) = (attrs_of (full_head p), if some then map (ip_nest t) ips else []) :: acc.
Proof.
  intros Hp Hacc. unfold add_fragment. rewrite fragment_ips. assert (List.filter is_attr (fragment p true ips some) = attrs_of (full_head p)) as ->.
  { unfold fragment. rewrite filter_attrs. destruct some; cbn; by rewrite app_nil_r. }
  destruct acc as [|[a l] acc]; [done|]. apply Forall_cons in Hacc as [Ha _]. rewrite bool_decide_eq_false_2; [done|].
  unfold fragment. by rewrite (frag_find_key p true).
Qed.

Lemma add_more acc p l ips : readable p ->
  add_fragment ((attrs_of (full_head p), l) :: acc) (fragment p false ips true) = (attrs_of (full_head p), l ++ map (ip_nest t) ips) :: acc.
Proof.
  intros Hp. unfold add_fragment. rewrite fragment_ips, bool_decide_eq_true_2; [done|].
  pose proof (frag_find_key p true [] Hp) as H. rewrite app_nil_r in H. rewrite H. unfold fragment. symmetry. by apply (frag_find_key p false).
Qed.

(** The addresses of a peer whose nest is open: all of them, a part, or the
    peer is cut. *)
Lemma get_peer_ips_ok p a i1 i2 m ctx r outer fs : frames m = (0, r, outer) :: fs -> readable p -> plist t p = i1 ++ a :: i2 ->
  (allowedips_seq ctx = 0 \/ allowedips_seq ctx = AllowedIps.seq t) ->
  exists ret m' ctx', get_peer_ips t p (length fs) (Some a) m ctx = Some (ret, m', ctx') /\ frames m' = fs /\ (room m' <= room m \/ room m' = r) /\
    next_peer ctx' = next_peer ctx /\ prev_seq ctx' = prev_seq ctx /\
    ((ret = 0 /\ items m' = outer ++ [Nest 0 (items m ++ [Nest WGPEER_A_ALLOWEDIPS (map (ip_nest t) (a :: i2))])] /\
        next_allowedip ctx' = None /\ allowedips_seq ctx' = 0) \/
     (ret <> 0 /\ allowedips_seq ctx' = AllowedIps.seq t /\ exists l1 b l2, a :: i2 = l1 ++ b :: l2 /\
        items m' = outer ++ [Nest 0 (items m ++ [Nest WGPEER_A_ALLOWEDIPS (map (ip_nest t) l1)])] /\ next_allowedip ctx' = Some b /\
        (l1 = [] -> room m < nest_size + ip_cost t a)) \/
     (ret <> 0 /\ allowedips_seq ctx' = AllowedIps.seq t /\ items m' = outer /\ next_allowedip ctx' = next_allowedip ctx /\ room m < nest_size)).
Proof.
  intros Hf Hp Hpl Hseq. unfold Dump.get_peer_ips.
  set (ctx' := if allowedips_seq ctx =? 0 then _ else ctx).
  assert (allowedips_seq ctx' = AllowedIps.seq t /\ next_allowedip ctx' = next_allowedip ctx /\ next_peer ctx' = next_peer ctx /\ prev_seq ctx' = prev_seq ctx) as (Hc1 & Hc2 & Hc3 & Hc4).
  { unfold ctx'. destruct (Z.eqb_spec (allowedips_seq ctx) 0); [done|]. destruct Hseq; [done|]. done. }
  assert (negb (allowedips_seq ctx =? 0) && negb (allowedips_seq ctx =? AllowedIps.seq t) = false) as ->.
  { destruct Hseq as [->|Hs]; [done|]. rewrite Hs, Z.eqb_refl. apply andb_false_r. }
  pose proof (nest_start_ok WGPEER_A_ALLOWEDIPS m) as Hn. destruct (nla_nest_start _ m) as [[n m1]|].
  2:{ rewrite (cancel_ok _ _ _ _ _ Hf). eexists _, _, _. split; [reflexivity|]. cbn [frames room items]. ands; auto. right. right. ands; done || lia. }
  destruct Hn as [-> ->]. pose proof (rd_nodup _ Hp) as Hnd. pose proof (rd_nodes _ Hp) as Hnodes. rewrite Hpl in Hnd, Hnodes.
  apply NoDup_app in Hnd as (_ & Hnd & _). rewrite Hpl, entry_from_ok by (intros Ha; by eapply Hnd; [exact Ha|left]). cbn [mbind option_bind].
  apply Forall_app in Hnodes as [_ Hnodes]. match goal with |- context [Dump.put_ips _ _ _ _ ?m1] => destruct (put_ips_ok t (a :: i2) Hnodes m1) as (stop & m' & Hrun & Hf' & Hr' & Hres) end.
  rewrite Hrun. cbn [mbind option_bind]. cbn [frames room items app] in *.
  rewrite (close_ok m' _ _ _ _ Hf'). rewrite Hf. rewrite (close_ok _ 0 r outer fs) by done. cbn [frames room items].
  destruct Hres as [(-> & Hit)|(l1 & b & l2 & -> & Hl & Hit & Hroom)]; rewrite Hit.
  - eexists _, _, _. split; [reflexivity|]. cbn [frames room items]. ands; try done; [left; lia|]. left. ands; done.
  - eexists _, _, _. split; [reflexivity|]. cbn [frames room items]. ands; try done; [left; lia|]. right. left. ands; try done.
    exists l1, b, l2. ands; try done. intros ->. injection Hl as -> _. specialize (Hroom eq_refl). lia.
Qed.

Hypothesis all_readable : forall p, p ∈ peer_list w -> readable p.
Hypothesis list_nodup : NoDup (peer_list w).
Hypothesis keys_differ : forall p q, p ∈ peer_list w -> q ∈ peer_list w -> key_of p = key_of q -> p = q.

Lemma done_keys ds p ps : peer_list w = ds ++ p :: ps -> Forall (fun e => find_attr WGPEER_A_PUBLIC_KEY e.1 <> key_of p) (map shown (rev ds)).
Proof.
  intros Hl. apply Forall_forall. intros e. rewrite list_elem_of_fmap. intros (q & -> & Hq%list_elem_of_In%in_rev%list_elem_of_In).
  assert (q ∈ peer_list w /\ p ∈ peer_list w) as [Hq' Hp'] by (rewrite Hl; set_solver).
  cbn. pose proof (frag_find_key q true [] (all_readable q Hq')) as Hk. rewrite app_nil_r in Hk. rewrite Hk. intros E%keys_differ; [|done..]. subst q.
  rewrite Hl in list_nodup. apply NoDup_app in list_nodup as (_ & Hd & _). apply (Hd p Hq). left.
Qed.

Lemma cost_head p (first : bool) : readable p -> cost (if first then full_head p else id_head p) <= cost (full_head p).
Proof. intros Hp. destruct (full_head_id p Hp) as [l ->]. destruct first; [lia|]. rewrite cost_app. pose proof (cost_pos l). lia. Qed.

Lemma head_put p (first : bool) : readable p -> exists x pre, mem w !! p = Some x /\ bogus_prefixes (env p) = Ok pre /\
  peer_head (env p) pre first x = Some (if first then full_head p else id_head p).
Proof.
  intros [(x & pre & l & Hx & Hb & Hl) _ _]. exists x, pre. split; [done|]. split; [done|]. unfold full_head, id_head. rewrite Hx, Hb.
  destruct first; [by rewrite Hl|done].
Qed.

(** What a fragment adds to the peers read so far. *)
Lemma add_at ctx ds p ps i1 ips (some : bool) : at_pos ctx ds (p :: ps) i1 -> (some = false -> next_allowedip ctx = None /\ ips = []) ->
  add_fragment (acc_at ctx ds (p :: ps) i1) (fragment p (bool_decide (next_allowedip ctx = None)) ips some) =
    (attrs_of (full_head p), map (ip_nest t) (i1 ++ ips)) :: map shown (rev ds).
Proof.
  intros [Hl Hpos] Hsome. assert (readable p) as Hp by (apply all_readable; rewrite Hl; set_solver). pose proof (done_keys _ _ _ Hl) as Hkeys.
  unfold acc_at. destruct (next_allowedip ctx) as [a|].
  - rewrite bool_decide_eq_false_2 by done. destruct some; [|by destruct (Hsome eq_refl)]. rewrite add_more by done. by rewrite map_app.
  - rewrite bool_decide_eq_true_2 by done. rewrite add_first by done. destruct Hpos as [-> _]. destruct some; [done|]. by destruct (Hsome eq_refl) as [_ ->].
Qed.

(** One peer: complete, a part of it, or nothing. *)
Definition peer_out (ctx : dump_ctx) (ds : list Z) (p : Z) (ps i1 : list Z) (m : msg) (ret : Z) (m' : msg) (ctx' : dump_ctx) : Prop :=
  frames m' = frames m /\ room m' <= room m /\ next_peer ctx' = next_peer ctx /\ prev_seq ctx' = prev_seq ctx /\
  exists fs, items m' = items m ++ map (Nest 0) fs /\
  ((ret = 0 /\ at_pos ctx' (ds ++ [p]) ps [] /\ fold_left add_fragment fs (acc_at ctx ds (p :: ps) i1) = acc_at ctx' (ds ++ [p]) ps []) \/
   (ret <> 0 /\ exists i1', at_pos ctx' ds (p :: ps) i1' /\ fold_left add_fragment fs (acc_at ctx ds (p :: ps) i1) = acc_at ctx' ds (p :: ps) i1' /\
      (length i1 <= length i1' <= length (plist t p))%nat /\ (roomy (room m) p -> (length i1 < length i1')%nat))).

Lemma out_nothing ctx ds p ps i1 m ret m' ctx' : at_pos ctx ds (p :: ps) i1 -> ret <> 0 -> items m' = items m -> frames m' = frames m -> room m' <= room m ->
  next_allowedip ctx' = next_allowedip ctx -> next_peer ctx' = next_peer ctx -> prev_seq ctx' = prev_seq ctx ->
  (allowedips_seq ctx' = allowedips_seq ctx \/ allowedips_seq ctx' = AllowedIps.seq t) -> ~ roomy (room m) p -> peer_out ctx ds p ps i1 m ret m' ctx'.
Proof.
  intros [Hl Hpos] Hret Hi Hf Hr Hna Hnp Hps Hseq Hroom. unfold peer_out. ands; try done. exists []. split; [by rewrite Hi, app_nil_r|]. right. split; [done|]. exists i1.
  split; [|split; [unfold acc_at; by rewrite Hna|]]; [split; [done|]; rewrite Hna|].
  - destruct (next_allowedip ctx); [destruct Hpos as [Hs Hpos]; split; [destruct Hseq; congruence|done]|].
    destruct Hpos as [-> Hpos]. split; [done|]. destruct Hseq as [->| ->]; auto.
  - split; [|done]. split; [done|]. destruct (next_allowedip ctx); [|destruct Hpos as [-> _]; cbn; lia].
    destruct Hpos as (_ & p' & ps' & i2 & [= <- <-] & ->). rewrite length_app. lia.
Qed.

Lemma out_done ctx ds p ps i1 ips some m m' ctx' : at_pos ctx ds (p :: ps) i1 -> (some = false -> next_allowedip ctx = None /\ ips = []) ->
  plist t p = i1 ++ ips -> items m' = items m ++ [Nest 0 (fragment p (bool_decide (next_allowedip ctx = None)) ips some)] -> frames m' = frames m -> room m' <= room m ->
  next_allowedip ctx' = None -> allowedips_seq ctx' = 0 -> next_peer ctx' = next_peer ctx -> prev_seq ctx' = prev_seq ctx -> peer_out ctx ds p ps i1 m 0 m' ctx'.
Proof.
  intros Hpos Hsome Hpl Hi Hf Hr Hna Hseq Hnp Hps. unfold peer_out. ands; try done. exists [fragment p (bool_decide (next_allowedip ctx = None)) ips some].
  split; [done|]. left. split; [done|]. split; [split; [by rewrite <- app_assoc; apply Hpos|rewrite Hna; auto]|].
  cbn [fold_left]. rewrite (add_at _ _ _ _ _ _ _ Hpos Hsome). unfold acc_at. rewrite Hna, rev_app_distr. cbn. unfold shown at 2. by rewrite Hpl.
Qed.

Lemma out_part ctx ds p ps i1 l1 b l2 ret m m' ctx' : at_pos ctx ds (p :: ps) i1 -> ret <> 0 ->
  plist t p = i1 ++ l1 ++ b :: l2 -> items m' = items m ++ [Nest 0 (fragment p (bool_decide (next_allowedip ctx = None)) l1 true)] -> frames m' = frames m -> room m' <= room m ->
  next_allowedip ctx' = Some b -> allowedips_seq ctx' = AllowedIps.seq t -> next_peer ctx' = next_peer ctx -> prev_seq ctx' = prev_seq ctx ->
  (roomy (room m) p -> l1 <> []) -> peer_out ctx ds p ps i1 m ret m' ctx'.
Proof.
  intros Hpos Hret Hpl Hi Hf Hr Hna Hseq Hnp Hps Hroom. unfold peer_out. ands; try done. exists [fragment p (bool_decide (next_allowedip ctx = None)) l1 true].
  split; [done|]. right. split; [done|]. exists (i1 ++ l1).
  split; [split; [apply Hpos|]; rewrite Hna; split; [done|]; exists p, ps, l2; split; [done|]; by rewrite <- app_assoc|].
  split; [cbn [fold_left]; rewrite (add_at _ _ _ _ _ _ _ Hpos) by done; unfold acc_at; by rewrite Hna|].
  split; [rewrite Hpl, !length_app; cbn; lia|]. intros H%Hroom. rewrite length_app. destruct l1; [done|cbn; lia].
Qed.

Lemma get_peer_ok ctx ds p ps i1 m : at_pos ctx ds (p :: ps) i1 ->
  exists ret m' ctx', get_peer w (env p) p m ctx = Some (ret, m', ctx') /\ peer_out ctx ds p ps i1 m ret m' ctx'.
Proof.
  intros Hat. pose proof Hat as [Hl Hpos]. assert (readable p) as Hp by (apply all_readable; rewrite Hl; set_solver).
  set (first := bool_decide (next_allowedip ctx = None)). destruct (head_put p first Hp) as (x & pre & Hx & Hb & Hh).
  pose proof (cost_head p first Hp) as Hcost. pose proof (cost_pos (if first then full_head p else id_head p)) as Hc0.
  unfold Dump.get_peer. rewrite Hx. cbn [mbind option_bind]. pose proof (nest_start_ok 0 m) as Hn. destruct (nla_nest_start 0 m) as [[n m1]|].
  2:{ eexists _, _, _. split; [reflexivity|]. apply out_nothing; auto; [lia|]. intros [? _]. lia. }
  destruct Hn as [-> ->]. rewrite Hb. fold first. rewrite Hh. cbn [mbind option_bind].
  match goal with |- context [Dump.put_all _ ?l ?m1] => pose proof (put_all_ok l m1) as Hput; destruct (put_all l m1) as [m2|] eqn:Ep end; cbn [room items frames app] in Hput.
  2:{ rewrite (cancel_ok _ 0 (room m) (items m) (frames m)) by done. eexists _, _, _. split; [reflexivity|]. apply out_nothing; auto; [cbn; lia|]. intros [? _]. lia. }
  destruct Hput as (Hi2 & Hf2 & Hr2).
  assert (exists node, (if first then head (plist t p) else next_allowedip ctx) = node /\
    match node with None => next_allowedip ctx = None /\ plist t p = [] /\ i1 = [] | Some a => exists i2, plist t p = i1 ++ a :: i2 end) as (node & Hnode & Hnd).
  { eexists. split; [reflexivity|]. unfold first. destruct (next_allowedip ctx) as [a|].
    - rewrite bool_decide_eq_false_2 by done. destruct Hpos as (_ & p' & ps' & i2 & [= <- <-] & ->). eauto.
    - rewrite bool_decide_eq_true_2 by done. destruct Hpos as [-> _]. destruct (plist t p) as [|a l]; cbn; eauto. }
  rewrite Hnode. destruct node as [a|].
  2:{ destruct Hnd as (Hna & Hpl & ->). unfold Dump.get_peer_ips. rewrite (close_ok _ _ _ _ _ Hf2). eexists _, _, _. split; [reflexivity|].
      apply (out_done ctx ds p ps [] [] false); cbn [items room frames]; auto; [|lia]. rewrite Hi2. unfold fragment. fold first. by rewrite app_nil_r. }
  destruct Hnd as [i2 Hpl]. assert (allowedips_seq ctx = 0 \/ allowedips_seq ctx = AllowedIps.seq t) as Hseq.
  { destruct (next_allowedip ctx); [right; apply Hpos|apply Hpos]. }
  destruct (get_peer_ips_ok p a i1 i2 m2 ctx _ _ _ Hf2 Hp Hpl Hseq) as (ret & m' & ctx' & Hrun & Hf' & Hr' & Hnp & Hps & Hres).
  exists ret, m', ctx'. split; [exact Hrun|]. assert (room m' <= room m) as Hrm by (destruct Hr'; lia).
  assert (forall ips, items m2 ++ [Nest WGPEER_A_ALLOWEDIPS (map (ip_nest t) ips)] = fragment p first ips true) as Hfrag by (intros; rewrite Hi2; done).
  destruct Hres as [(-> & Hit & Hna & Hs)|[(Hret & Hs & l1 & b & l2 & Hsp & Hit & Hna & Hroom)|(Hret & Hs & Hit & Hna & Hroom)]]; rewrite ?Hfrag in Hit.
  - by apply (out_done ctx ds p ps i1 (a :: i2) true).
  - apply (out_part ctx ds p ps i1 l1 b l2); auto; [by rewrite Hpl, Hsp|]. intros [_ Hall] ->. specialize (Hroom eq_refl). specialize (Hall a ltac:(rewrite Hpl; set_solver)). lia.
  - apply out_nothing; auto. intros [_ Hall]. specialize (Hall a ltac:(rewrite Hpl; set_solver)).
    assert (0 <= ip_cost t a); [|lia]. unfold ip_cost. destruct (_ ≫= _) as [[[? ?] ?]|]; [|lia]. pose proof (cost_pos (ip_attrs l z0 z)). lia.
Qed.

#[local] Notation get_peers := (get_peers attr_size nest_size in4_pton in6_pton).

(** How much is left to show. *)
Fixpoint work (ps : list Z) : nat := match ps with [] => O | p :: ps' => S (length (plist t p)) + work ps' end.

(** The loop over the peers: it comes to the end, or it stops at a peer, and
    the first peer makes progress when there is room for it. *)
Lemma get_peers_ok ps : forall ctx ds i1 m, at_pos ctx ds ps i1 ->
  exists done m' ctx' ds' ps' i1' fs, get_peers w env ps m ctx (last ds) = Some (done, m', ctx', last ds') /\
    frames m' = frames m /\ room m' <= room m /\ next_peer ctx' = next_peer ctx /\ prev_seq ctx' = prev_seq ctx /\ items m' = items m ++ map (Nest 0) fs /\
    at_pos ctx' ds' ps' i1' /\ fold_left add_fragment fs (acc_at ctx ds ps i1) = acc_at ctx' ds' ps' i1' /\ (done = true <-> ps' = []) /\
    (length i1' + work ps <= length i1 + work ps' -> ps = [] \/ exists p, head ps = Some p /\ ~ roomy (room m) p)%nat /\ (length i1 + work ps' <= length i1' + work ps)%nat.
Proof.
  induction ps as [|p ps IH]; intros ctx ds i1 m Hat; cbn [Dump.get_peers].
  { exists true, m, ctx, ds, [], i1, []. ands; try done; [by rewrite app_nil_r|by left]. }
  destruct (get_peer_ok ctx ds p ps i1 m Hat) as (ret & m1 & ctx1 & Hrun & Hf & Hr & Hnp & Hps & fs & Hit & Hres). rewrite Hrun. cbn [mbind option_bind].
  assert (length i1 <= length (plist t p))%nat as Hi1.
  { destruct Hat as [_ Hat]. destruct (next_allowedip ctx); [|destruct Hat as [-> _]; cbn; lia]. destruct Hat as (_ & ? & ? & i2 & [= <- <-] & ->). rewrite length_app. lia. }
  destruct Hres as [(-> & Hat1 & Hacc)|(Hret & i1' & Hat1 & Hacc & Hlen & Hroom)].
  - cbn [Z.eqb negb]. destruct (IH ctx1 (ds ++ [p]) [] m1 Hat1) as (done & m' & ctx' & ds' & ps' & i1' & fs' & Hrun' & Hf' & Hr' & Hnp' & Hps' & Hit' & Hat' & Hacc' & Hdone & _ & Hwork).
    rewrite last_snoc in Hrun'. exists done, m', ctx', ds', ps', i1', (fs ++ fs'). rewrite Hrun'. ands; try done; try congruence; [lia|by rewrite Hit', Hit, map_app, app_assoc|by rewrite fold_left_app, Hacc| |]; cbn [work length] in *; lia.
  - apply Z.eqb_neq in Hret. rewrite Hret. cbn [negb]. exists false, m1, ctx1, ds, (p :: ps), i1', fs. ands; try done; [|lia].
    intros Hle. right. exists p. split; [done|]. intros Hro. specialize (Hroom Hro). lia.
Qed.

(** *** One message *)

Context (ifindex : Z) (ifname : list Z).
#[local] Notation device_head := (device_head ifindex ifname).
#[local] Notation dump_body := (dump_body attr_size nest_size in4_pton in6_pton ifindex ifname).
Hypothesis all_live : forall p, p ∈ peer_list w -> wp_is_dead <$> mem w !! p = Some false.

Lemma last_split (ds : list Z) p : last ds = Some p -> exists ds', ds = ds' ++ [p].
Proof. intros [l ->]%last_Some. eauto. Qed.

Lemma peers_after_ok ds ps : peer_list w = ds ++ ps -> peers_after (last ds) (peer_list w) = Some ps.
Proof.
  intros Hl. rewrite Hl in list_nodup |- *. destruct (last ds) as [p|] eqn:E; cbn [peers_after].
  - apply last_split in E as [ds' ->]. rewrite <- app_assoc in *. cbn [app] in *. apply NoDup_app in list_nodup as (_ & Hd & _).
    rewrite entry_from_ok by (intros Hp; apply (Hd p Hp); left). done.
  - apply last_None in E as ->. done.
Qed.

Lemma fragments_ok l fs intr : fragments (Dumped (attrs_of l ++ [Nest WGDEVICE_A_PEERS (map (Nest 0) fs)]) intr) = fs.
Proof.
  unfold fragments. cbn [du_items]. rewrite nested_attrs. cbn. rewrite app_nil_r. induction fs as [|f fs IH]; [done|]. cbn. by rewrite IH.
Qed.
Lemma fragments_none l intr : fragments (Dumped (attrs_of l) intr) = [].
Proof. unfold fragments. cbn [du_items]. rewrite <- (app_nil_r (attrs_of l)), nested_attrs. done. Qed.

(** The attributes of the device, which precede the first peer. *)
Definition front (d : wg_device) (ctx : dump_ctx) : list (Z * value) := match next_peer ctx with None => device_head d | Some _ => [] end.

Lemma dump_body_ok d ctx ds ps i1 m : wd_world d = w -> next_peer ctx = last ds -> (ps = [] -> ds = []) -> at_pos ctx ds ps i1 ->
  frames m = [] -> items m = [] -> cost (device_head d) + nest_size <= room m ->
  exists done m' ctx' ds' ps' i1' fs, dump_body d env m ctx = Some (Some (done, m', ctx', last ds')) /\ room m' <= room m /\
    next_peer ctx' = next_peer ctx /\ prev_seq ctx' = prev_seq ctx /\ (forall intr, fragments (Dumped (items m') intr) = fs) /\
    (exists l, items m' = attrs_of (front d ctx) ++ l) /\
    at_pos ctx' ds' ps' i1' /\ fold_left add_fragment fs (acc_at ctx ds ps i1) = acc_at ctx' ds' ps' i1' /\ (done = true <-> ps' = []) /\
    (ps' = [] \/ length i1 + work ps' < length i1' + work ps \/ exists p, p ∈ peer_list w /\ ~ roomy (room m - (cost (device_head d) + nest_size)) p)%nat.
Proof.
  intros Hw Hnp Hend Hat Hf Hi Hr. unfold Dump.dump_body. rewrite Hw.
  assert (exists m1, match next_peer ctx with None => put_all (device_head d) m | Some _ => Some m end = Some m1 /\ items m1 = attrs_of (front d ctx) /\ frames m1 = [] /\
    room m - cost (device_head d) <= room m1 <= room m) as (m1 & -> & Hi1 & Hf1 & Hr1).
  { unfold front. pose proof (put_all_ok (device_head d) m) as Hp. pose proof (cost_pos (device_head d)). destruct (next_peer ctx); [exists m; ands; done || lia|].
    destruct (put_all _ m) as [m1|]; [|lia]. destruct Hp as (Hp1 & Hp2 & Hp3). exists m1. rewrite Hp1, Hp2, Hi. ands; done || lia. }
  pose proof (nest_start_ok WGDEVICE_A_PEERS m1) as Hn. destruct (nla_nest_start _ m1) as [[n m2]|]; [|lia]. destruct Hn as [-> ->]. pose proof Hat as [Hl _].
  assert (match peer_list w with [] => Some true | _ :: _ => match next_peer ctx with None => Some false | Some p => wp_is_dead <$> mem w !! p end end =
    Some (bool_decide (peer_list w = []))) as ->.
  { destruct (peer_list w) as [|p0 l0] eqn:El; [done|]. rewrite bool_decide_eq_false_2 by done. destruct (next_peer ctx) as [p|]; [|done]. symmetry in Hnp. apply last_split in Hnp as [ds' ->].
    apply all_live. rewrite Hl. set_solver. }
  cbn [mbind option_bind]. case_bool_decide as Hemp.
  - rewrite Hemp in Hl. destruct ds; [|done]. destruct ps; [|done]. rewrite (cancel_ok _ WGDEVICE_A_PEERS (room m1) (items m1) (frames m1)) by done.
    exists true, m1, ctx, [], [], i1, []. rewrite msg_eta, Hnp. ands; try done; [lia|intros intr; rewrite Hi1; apply fragments_none|exists []; by rewrite Hi1, app_nil_r|by left].
  - rewrite Hnp, (peers_after_ok ds ps Hl). cbn [mbind option_bind].
    match goal with |- context [Dump.get_peers _ _ _ _ _ _ _ ?m2] => destruct (get_peers_ok ps ctx ds i1 m2 Hat) as (done & m' & ctx' & ds' & ps' & i1' & fs & Hrun & Hf' & Hr' & Hnp' & Hps' & Hit' & Hat' & Hacc' & Hdone & Hprog & _) end.
    rewrite Hrun. cbn [mbind option_bind]. cbn [room items frames app] in *. rewrite (close_ok _ _ _ _ _ Hf'), Hit', Hi1. eexists done, _, ctx', ds', ps', i1', fs. split; [reflexivity|].
    cbn [room items]. ands; try done; [lia|by rewrite Hnp'|intros; apply fragments_ok|eauto|]. destruct (decide (length i1 + work ps' < length i1' + work ps)%nat); [auto|]. right. right.
    destruct Hprog as [->|(p & Hp & Hro)]; [lia| |]. { specialize (Hend eq_refl) as ->. by rewrite Hl in Hemp. }
    exists p. destruct ps as [|p' ps]; [done|]. injection Hp as ->. split; [rewrite Hl; set_solver|]. intros [H1 H2]. apply Hro. split; [lia|]. intros a Ha. specialize (H2 a Ha). lia.
Qed.

End Position.
(** *** Calls *)

Section Calls.

Context (siphash : list Z -> Z) (handshake_entry : Z -> Z) `{!Inj (=) (=) handshake_entry}.
Context (ifindex : Z) (ifname : list Z) (env : Z -> bogus).
Hypothesis hdr_pos : 0 < hdr_size.
#[local] Notation device_head := (device_head ifindex ifname).
#[local] Notation wg_get_device_dump := (wg_get_device_dump handshake_entry hdr_size attr_size nest_size in4_pton in6_pton ifindex ifname).
#[local] Notation net_ok := (net_ok siphash handshake_entry).

Lemma full_head_alike w w' p : alike w w' -> full_head w' env p = full_head w env p.
Proof.
  intros (Hs & _). unfold full_head. destruct (bogus_prefixes (env p)) as [pre|e]; [|by destruct (mem w' !! p), (mem w !! p)].
  pose proof (via_clear (fun x => default [] (peer_head (env p) pre true x)) w w' (fun x => eq_refl) Hs p) as He.
  destruct (mem w' !! p), (mem w !! p); try done. by apply (inj Some) in He.
Qed.

Lemma at_pos_alike w w' ctx ds ps i1 : alike w w' -> at_pos w ctx ds ps i1 -> at_pos w' ctx ds ps i1.
Proof. intros (_ & Hl & Ht). unfold at_pos. by rewrite Hl, Ht. Qed.

Lemma acc_at_alike w w' ctx ds ps i1 : alike w w' -> acc_at w' env ctx ds ps i1 = acc_at w env ctx ds ps i1.
Proof.
  intros Ha. pose proof Ha as (_ & _ & Ht). assert (forall l, map (shown w' env) l = map (shown w env) l) as Hm.
  { intros l. apply map_ext. intros p. unfold shown. by rewrite (full_head_alike _ _ _ Ha), Ht. }
  unfold acc_at. destruct (next_allowedip ctx), ps; rewrite ?Hm, ?(full_head_alike _ _ _ Ha), ?Ht; done.
Qed.

Lemma work_alike w w' ps : alike w w' -> work w' ps = work w ps.
Proof. intros (_ & _ & Ht). induction ps as [|p ps IH]; [done|]. cbn. by rewrite Ht, IH. Qed.

Lemma roomy_alike w w' r p : alike w w' -> roomy w env r p -> roomy w' env r p.
Proof. intros Ha. pose proof Ha as (_ & _ & Ht). unfold roomy. by rewrite (full_head_alike _ _ _ Ha), Ht. Qed.

(** Endpoints can be made up for every peer that has one. *)
Definition env_ok (w : world) : Prop :=
  forall p x, p ∈ peer_list w -> mem w !! p = Some x -> exists pre l, bogus_prefixes (env p) = Ok pre /\ peer_head (env p) pre true x = Some l.

Lemma env_ok_alike w w' : alike w w' -> env_ok w -> env_ok w'.
Proof.
  intros (Hs & Hl & _) He p x Hp Hx. rewrite Hl in Hp. pose proof (Hs p) as Hc. rewrite Hx in Hc. destruct (mem w !! p) as [y|] eqn:Hy; [|done].
  destruct (He p y Hp Hy) as (pre & l & Hb & Hh). exists pre, l. split; [done|]. rewrite <- Hh.
  pose proof (via_clear (fun x => peer_head (env p) pre true x) w w' (fun x => eq_refl) Hs p) as Hv. rewrite Hx, Hy in Hv. by injection Hv.
Qed.

Lemma listed_readable w h p : net_ok w h -> env_ok w -> p ∈ peer_list w -> readable w env p.
Proof.
  intros Hok He Hp. destruct (listed_mem _ _ w h p Hok Hp) as (x & Hx & _). destruct Hok as [[_ Hc] _]. destruct (c_ips _ _ _ _ _ Hc) as (m & Hh & _). cbn in Hh.
  destruct (He p x Hp Hx) as (pre & l & Hb & Hl). split; [eauto 8| |].
  - apply Forall_forall. intros a Ha. destruct (allowedips_read_node_prefix _ m p a Hh Ha) as (nd & v & ip & c & Hnd & Hr & _). rewrite Hnd. cbn. by rewrite Hr.
  - destruct Hh as (tr & Hi & _). apply (inv_list_nodup _ _ Hi).
Qed.

(** A message can hold its header, the attributes of the device and any one
    peer with one of its addresses. *)
Definition fits (d : wg_device) (cap : Z) : Prop :=
  hdr_size + (cost (device_head d) + nest_size) <= cap /\
  forall p, p ∈ peer_list (wd_world d) -> roomy (wd_world d) env (cap - hdr_size - (cost (device_head d) + nest_size)) p.

Lemma keys_of_differ w h : net_ok w h -> forall p q, p ∈ peer_list w -> q ∈ peer_list w -> key_of w p = key_of w q -> p = q.
Proof.
  intros Hok p q Hp Hq Hk. apply (key_unique siphash handshake_entry w h); try done. unfold key_of in Hk.
  destruct (key_at w p), (key_at w q); cbn in Hk; congruence.
Qed.

(** Where a dump stands: what is shown, the position, and the reference on the cursor. *)
Record dumping (d : wg_device) (h : gmultiset Z) (c : net_conf) (ctx : dump_ctx) (ds ps i1 : list Z) : Prop := {
  dp_ok : net_ok (wd_world d) (cursor_refs (next_peer ctx) ⊎ h);
  dp_reps : reps (wd_world d) c;
  dp_env : env_ok (wd_world d);
  dp_next : next_peer ctx = last ds;
  dp_end : ps = [] -> ds = [];
  dp_at : at_pos (wd_world d) ctx ds ps i1
}.

(** One call: it sends a message and ends the dump, or gets on with it. *)
Lemma dump_call_ok d h c ctx ds ps i1 cap : dumping d h c ctx ds ps i1 -> fits d cap ->
  exists ret m ctx' w', wg_get_device_dump d cap env ctx = Some (ret, Some m, ctx', set_world w' d) /\ alike (wd_world d) w' /\
    du_intr m = negb (prev_seq ctx =? 0) && negb (wd_gen d =? prev_seq ctx) /\ prev_seq ctx' = wd_gen d /\
    (exists l, du_items m = attrs_of (front ifindex ifname d ctx) ++ l) /\
    ((ret = 0 /\ next_peer ctx' = None /\ net_ok w' h /\ reps w' c /\
        fold_left add_fragment (fragments m) (acc_at (wd_world d) env ctx ds ps i1) = map (shown (wd_world d) env) (rev (peer_list (wd_world d)))) \/
     (0 < ret /\ exists ds' ps' i1', dumping (set_world w' d) h c ctx' ds' ps' i1' /\ (length i1 + work (wd_world d) ps' < length i1' + work (wd_world d) ps)%nat /\
        fold_left add_fragment (fragments m) (acc_at (wd_world d) env ctx ds ps i1) = acc_at w' env ctx' ds' ps' i1')).
Proof.
  intros [Hok Hrep Henv Hnext Hend Hat] [Hfit Hroom]. set (w := wd_world d) in *. unfold Dump.wg_get_device_dump, genlmsg_put. fold w.
  pose proof (cost_pos (device_head d)) as Hc0. destruct (Z.ltb_spec cap hdr_size); [lia|]. set (ctx0 := set_prev_seq (wd_gen d) ctx).
  pose proof Hok as [[_ Hc] _]. cbn in Hc.
  destruct (dump_body_ok w env (fun p Hp => listed_readable w _ p Hok Henv Hp)
    ltac:(pose proof (c_nodup _ _ _ _ _ Hc) as Hn; by apply NoDup_app in Hn as [Hn _]) (keys_of_differ w _ Hok) ifindex ifname (fun p Hp => proj1 (c_live _ _ _ _ _ Hc p) Hp)
    d ctx0 ds ps i1 (Msg (cap - hdr_size) [] []) eq_refl Hnext Hend Hat eq_refl eq_refl ltac:(cbn [room]; lia))
    as (done & m' & ctx' & ds' & ps' & i1' & fs & Hrun & Hr & Hnp & Hps & Hfr & Hfront & Hat' & Hacc & Hdone & Hprog).
  rewrite Hrun. cbn [room] in *. change (acc_at w env ctx0 ds ps i1) with (acc_at w env ctx ds ps i1) in Hacc.
  assert (length i1 + work w ps' < length i1' + work w ps \/ ps' = [])%nat as Hprog'.
  { destruct Hprog as [|[|(p & Hp & Hno)]]; [by right|by left|]. destruct Hno. by apply Hroom. }
  destruct (move_cursor siphash handshake_entry w h c (next_peer ctx) (if done then None else last ds') Hok Hrep) as (w1 & w' & Hget & Hput & Hok' & Hrep' & Ha).
  { intros p Hp. destruct done; [done|]. destruct Hat' as [-> _]. apply last_split in Hp as [? ->]. set_solver. }
  assert (match last ds' with Some p => if done then Some w else wg_peer_get w p | None => Some w end = Some w1) as -> by (destruct done, (last ds'); done).
  cbn [mbind option_bind]. rewrite Hnp. cbn [ctx0 set_prev_seq next_peer]. rewrite Hput. cbn [mbind option_bind].
  eexists _, _, _, w'. split; [reflexivity|]. split; [done|]. split; [done|]. split; [exact Hps|]. split; [done|].
  rewrite Hfr. destruct done; [left|right].
  - rewrite (proj1 Hdone eq_refl) in *. cbn [cursor_refs] in Hok'. rewrite (left_id_L ∅ _) in Hok'. ands; try done. rewrite Hacc. unfold acc_at.
    destruct Hat' as [Hl _]. rewrite app_nil_r in Hl. rewrite Hl. by destruct (next_allowedip ctx').
  - split; [lia|]. exists ds', ps', i1'. assert (ps' <> []) as Hne by (intros E; by apply Hdone in E). destruct Hprog' as [Hprog'|]; [|done]. ands.
    + split; cbn [wd_world set_world set_next_peer next_peer]; try done; [by apply (env_ok_alike w)|]. by apply (at_pos_alike w).
    + done.
    + rewrite (acc_at_alike w w') by done. done.
Qed.

#[local] Notation run_dump := (run_dump handshake_entry hdr_size attr_size nest_size in4_pton in6_pton ifindex ifname).

(** The device does not change while the dump runs: the dump ends within its
    work, and the messages together show every peer once and completely. *)
Lemma run_dump_ok fuel : forall d h c ctx ds ps i1 cap, dumping d h c ctx ds ps i1 -> fits d cap -> (prev_seq ctx = 0 \/ prev_seq ctx = wd_gen d) ->
  (work (wd_world d) ps < length i1 + fuel)%nat ->
  exists ms w', run_dump fuel d cap env ctx = Some (0, ms, set_world w' d) /\ net_ok w' h /\ reps w' c /\ alike (wd_world d) w' /\
    fold_left add_fragment (concat (map fragments ms)) (acc_at (wd_world d) env ctx ds ps i1) = map (shown (wd_world d) env) (rev (peer_list (wd_world d))) /\
    Forall (fun m => du_intr m = false) ms /\ exists m ms' l, ms = m :: ms' /\ du_items m = attrs_of (front ifindex ifname d ctx) ++ l.
Proof.
  induction fuel as [|fuel IH]; intros d h c ctx ds ps i1 cap Hd Hfit Hgen Hfuel.
  { exfalso. destruct (dp_at _ _ _ _ _ _ _ Hd) as [_ Hat]. destruct (next_allowedip ctx); [|destruct Hat as [-> _]; cbn in *; lia].
    destruct Hat as (_ & p & ps' & i2 & -> & Hpl). cbn [work] in Hfuel. rewrite Hpl, length_app in Hfuel. cbn in Hfuel. lia. }
  cbn [Dump.run_dump]. destruct (dump_call_ok d h c ctx ds ps i1 cap Hd Hfit) as (ret & m & ctx' & w' & Hrun & Ha & Hintr & Hps & (l & Hl) & Hres).
  rewrite Hrun. cbn [mbind option_bind]. assert (du_intr m = false) as Hno.
  { rewrite Hintr. destruct Hgen as [->| ->]; [done|]. rewrite Z.eqb_refl. apply andb_false_r. }
  destruct Hres as [(-> & Hnp & Hok & Hrep & Hacc)|(Hret & ds' & ps' & i1' & Hd' & Hwork & Hacc)].
  - cbn [Z.ltb Z.compare]. unfold wg_get_device_done. rewrite Hnp. cbn [wg_peer_put mbind option_bind wd_world set_world]. exists [m], w'.
    ands; try done; [cbn; by rewrite app_nil_r|by constructor|by exists m, [], l].
  - rewrite (proj2 (Z.ltb_lt 0 ret) Hret). destruct (IH (set_world w' d) h c ctx' ds' ps' i1' cap Hd') as (ms & w2 & Hrun2 & Hok & Hrep & Ha2 & Hacc2 & Hms & _).
    + destruct Hfit as [H1 H2]. split; [done|]. intros p Hp. cbn [wd_world set_world] in *. apply (roomy_alike (wd_world d)); [done|]. apply H2. by rewrite <- (proj1 (proj2 Ha)).
    + right. done.
    + cbn [wd_world set_world]. rewrite (work_alike (wd_world d)) by done. lia.
    + rewrite Hrun2. cbn [mbind option_bind option_list app]. exists (m :: ms), w2. ands; try done; [by transitivity w'| |by constructor|by exists m, ms, l].
      cbn [map concat]. rewrite fold_left_app, Hacc. cbn [wd_world set_world] in Hacc2. rewrite Hacc2. rewrite (proj1 (proj2 Ha)). apply map_ext. intros p.
      unfold shown. by rewrite (full_head_alike _ _ _ Ha), (proj2 (proj2 Ha)).
Qed.

(** *** What is shown *)

Lemma read_ip_nest tb a : is_Some (nd ← heap tb !! a; wg_allowedips_read_node nd) -> read_ip (ip_nest tb a) = node_prefix tb a.
Proof.
  intros [[[fam ip] c] H]. unfold ip_nest, node_prefix. rewrite H. destruct (heap tb !! a) as [nd|]; [|done]. cbn [mbind option_bind] in *. rewrite H. cbn [mbind option_bind].
  unfold ip_attrs, prefix_of_ip. cbn -[Z.mul AF_INET6]. unfold prefix_of_ip. destruct (fam =? AF_INET6); cbn [wbits]; rewrite firstn_firstn; done.
Qed.

(** Addresses that convert have their length, and enough bytes are random. *)
Hypothesis in4_ok : forall s l, in4_pton s = Some l -> length l = 4%nat /\ all_bytes l.
Hypothesis in6_ok : forall s l, in6_pton s = Some l -> length l = 16%nat /\ all_bytes l.
Hypothesis rnd_ok : forall p, length (bg_rnd6 (env p)) = 16%nat /\ all_bytes (bg_rnd6 (env p)).
#[local] Notation seen p := (endpoint_seen (parse_ipv4_prefix in4_pton) (parse_ipv6_prefix in6_pton) (env p)).

Lemma parse_prefix_ok pton sl bits s net n : parse_prefix pton sl bits s = Ok (net, n) -> 0 <= n <= bits /\ exists s', pton s' = Some net.
Proof.
  unfold parse_prefix. destruct s as [s|]; [|done]. destruct (strchr_slash s) as [[a r]|]; [|done]. destruct (sl <=? len a); [done|].
  destruct (kstrtoint10 r) as [n'|]; [|done]. destruct ((n' <? 0) || (bits <? n')) eqn:E; [done|]. destruct (pton a) as [net'|] eqn:Ep; [|done]. intros [= -> ->]. zbool. split; [lia|eauto].
Qed.

Lemma endpoint_shown p ep pre l : bogus_prefixes (env p) = Ok pre -> endpoint_attrs (env p) pre ep = Some l ->
  seen p ep (find_attr WGPEER_A_ENDPOINT (attrs_of l)).
Proof.
  unfold Dump.bogus_prefixes. intros Hb Hl. destruct (Z.eqb_spec (bogus_endpoints (env p)) 0) as [H0|H0].
  { injection Hb as <-. destruct ep; cbn in *; injection Hl as <-; cbn; eauto; (eexists; split; [reflexivity|]); split; intros; done. }
  destruct (parse_ipv4_prefix in4_pton _) as [[n4 c4]|] eqn:E4; [|done]. destruct (parse_ipv6_prefix in6_pton _) as [[n6 c6]|] eqn:E6; [|done]. injection Hb as <-.
  destruct ep as [|port addr ? ?|port flow addr scope ?]; cbn [endpoint_attrs endpoint_seen] in *; [by injection Hl as <-|..].
  - destruct (generate_ipv4_address_with_prefix _ _) as [a|] eqn:Ea; [|done]. injection Hl as <-. exists a. split; [done|]. split; [done|]. intros _ net n Hp. rewrite E4 in Hp. injection Hp as -> ->.
    apply parse_prefix_ok in E4 as [Hn [s Hs]]. destruct (in4_ok _ _ Hs). by eapply generate4_prefix.
  - injection Hl as <-. eexists. split; [reflexivity|]. split; [done|]. intros _ net n Hp Hm. rewrite E6 in Hp. injection Hp as -> ->.
    apply parse_prefix_ok in E6 as [Hn [s Hs]]. destruct (in6_ok _ _ Hs). destruct (rnd_ok p). by apply generate6_prefix.
Qed.

Lemma shown_shows w h c p x : net_ok w h -> reps w c -> env_ok w -> p ∈ peer_list w -> mem w !! p = Some x ->
  shows (seen p) c (wp_remote_static x) (wp_conf x) (shown w env p).
Proof.
  intros Hok Hrep Henv Hp Hx. destruct (Henv p x Hp Hx) as (pre & l & Hb & Hl). pose proof (listed_readable w h p Hok Henv Hp) as Hrd.
  assert (full_head w env p = l) as Hh by (unfold full_head; rewrite Hx, Hb, Hl; done). unfold peer_head in Hl. destruct (endpoint_attrs _ _ _) as [ep|] eqn:Ee; [|done]. injection Hl as Hl. subst l.
  destruct (rp_ips _ _ Hrep) as (m & Hm & Hips). destruct (plist_prefixes _ m p Hm) as [Hnd Hin].
  assert ((read_ip <$> (shown w env p).2) = (node_prefix (peer_allowedips w) <$> plist (peer_allowedips w) p)) as Hr.
  { cbn. rewrite <- list_fmap_compose. apply list_fmap_ext. intros i a Ha. apply read_ip_nest. pose proof (rd_nodes _ _ _ Hrd) as Hn. rewrite Forall_lookup in Hn. by apply (Hn i). }
  assert (forall n, (n = WGPEER_A_PRESHARED_KEY \/ n = WGPEER_A_PERSISTENT_KEEPALIVE_INTERVAL \/ n = WGPEER_A_ADVANCED_SECURITY) -> find_attr n (attrs_of ep) = None) as Hep.
  { intros n Hn. destruct (ps_endpoint (pc_sock (wp_conf x))); cbn in Ee; [by injection Ee as <-|..].
    - destruct pre as [[p4 p6]|]; [destruct (generate_ipv4_address_with_prefix _ _)|]; try done; injection Ee as <-; by destruct Hn as [->|[->| ->]].
    - injection Ee as <-. by destruct Hn as [->|[->| ->]]. }
  split; rewrite ?Hr; try done; cbn [shown fst]; rewrite ?Hh; unfold id_attrs, settings_attrs, attrs_of; rewrite ?map_app.
  - by destruct (pc_advanced_security (wp_conf x)).
  - by destruct (pc_advanced_security (wp_conf x)).
  - by destruct (pc_advanced_security (wp_conf x)).
  - destruct (pc_advanced_security (wp_conf x)); [done|]. cbn -[attrs_of]. apply (Hep WGPEER_A_ADVANCED_SECURITY). auto.
  - pose proof (endpoint_shown p _ pre ep Hb Ee) as Hs. by destruct (pc_advanced_security (wp_conf x)).
  - intros v q. rewrite Hin. assert (key_at w p = Some (wp_remote_static x)) as Hk by (unfold key_at; by rewrite Hx).
    eapply (ips_of_lookup (fun p => p ∈ peer_list w) (key_at w)); try done. intros p1 p2. apply (key_unique siphash handshake_entry w h). done.
Qed.

End Calls.
End Message.

(** ** The dump of a device *)

Lemma assembled w env fs `{K : Kstrto} p4 p6 : fold_left add_fragment fs [] = map (shown p4 p6 w env) (rev (peer_list w)) -> assemble fs = map (shown p4 p6 w env) (peer_list w).
Proof. intros H. unfold assemble. by rewrite H, <- map_rev, rev_involutive. Qed.


(** A device of the example, read with attributes of a fixed header and small messages. *)
Definition example_size (v : value) : Z := 4 + match v with VBytes b | VString b => len b | VSock6 _ _ _ _ => 28 | _ => 16 end.
Definition no_bogus : bogus := Bogus 0 None None 0 (zeros 16) 0.
Definition example_device : wg_device := default (new_device []) (snd <$> example_run).
Definition fits_b (d : wg_device) (cap : Z) : bool :=
  let w := wd_world d in
  let head := cost example_size (device_head 1 [119; 103; 48] d) + 4 in
  (20 + head <=? cap) &&
  forallb (fun p => let n := 4 + cost example_size (full_head (K := KstrtoRef.ops) (fun _ => None) (fun _ => None) w (fun _ => no_bogus) p) in
    (n <=? cap - 20 - head) && forallb (fun a => n + 4 + ip_cost 4 example_size (peer_allowedips w) a <=? cap - 20 - head) (plist (peer_allowedips w) p)) (peer_list w).

Lemma example_size_ok r v : 0 <= (fun (_ : Z) v => example_size v) r v <= example_size v.
Proof. unfold example_size, len. destruct v; lia. Qed.

Lemma fits_b_ok d cap : fits_b d cap = true -> fits (K := KstrtoRef.ops) 20 4 example_size (fun _ => None) (fun _ => None) 1 [119; 103; 48] (fun _ => no_bogus) d cap.
Proof.
  unfold fits_b. intros [H1 H2]%andb_true_iff. rewrite forallb_forall in H2. split; [apply Z.leb_le in H1; lia|]. intros p Hp. specialize (H2 p (proj1 (list_elem_of_In _ _) Hp)).
  apply andb_true_iff in H2 as [H2 H3]. rewrite forallb_forall in H3. split; [apply Z.leb_le in H2; lia|]. intros a Ha. specialize (H3 a (proj1 (list_elem_of_In _ _) Ha)). apply Z.leb_le in H3. lia.
Qed.


(** ** Made-up endpoints that fail *)

(** C36: With made-up endpoints switched on and a prefix that does not parse, a
    dump of a device that has a peer never ends: every call returns a message
    with an empty peer and the next call starts where this one did. *)
Theorem dump_bogus_endless handshake_entry `{K : Kstrto} hdr_size attr_size nest_size attr_max in4_pton in6_pton ifindex ifname env d cap p ps x e :
  0 < hdr_size -> (forall r v, 0 <= attr_size r v <= attr_max v) -> 0 <= nest_size ->
  peer_list (wd_world d) = p :: ps -> mem (wd_world d) !! p = Some x ->
  bogus_endpoints (env p) <> 0 -> parse_ipv4_prefix in4_pton (bogus_endpoints_prefix (env p)) = Err e -> e < 0 ->
  hdr_size + cost attr_max (device_head ifindex ifname d) + 2 * nest_size <= cap ->
  let dump := wg_get_device_dump handshake_entry hdr_size attr_size nest_size in4_pton in6_pton ifindex ifname in
  (forall ctx, next_peer ctx = None -> exists ret m ctx', dump d cap env ctx = Some (ret, Some m, ctx', d) /\ 0 < ret /\ next_peer ctx' = None /\ fragments m = [[]]) /\
  forall fuel, run_dump handshake_entry hdr_size attr_size nest_size in4_pton in6_pton ifindex ifname fuel d cap env start_ctx = None.
Proof.
  intros Hhdr Hsz Hnest Hl Hx Hb Hp He Hcap dump.
  assert (forall ctx, next_peer ctx = None -> exists ret m ctx', dump d cap env ctx = Some (ret, Some m, ctx', d) /\ 0 < ret /\ next_peer ctx' = None /\ fragments m = [[]]) as Hcall.
  { intros ctx Hctx. unfold dump, wg_get_device_dump, genlmsg_put. pose proof (cost_pos attr_size attr_max Hsz (device_head ifindex ifname d)) as Hc. destruct (Z.ltb_spec cap hdr_size); [lia|].
    unfold dump_body. cbn [next_peer set_prev_seq]. rewrite Hctx.
    match goal with |- context [put_all _ ?l ?m] => pose proof (put_all_ok attr_size attr_max Hsz l m) as Hput; destruct (put_all attr_size l m) as [m1|] end; cbn [room items frames app] in Hput; [|lia].
    destruct Hput as (Hi & Hf & Hr). pose proof (nest_start_ok nest_size WGDEVICE_A_PEERS m1) as Hn. destruct (nla_nest_start nest_size WGDEVICE_A_PEERS m1) as [[n m2]|]; [|lia]. destruct Hn as [-> ->].
    rewrite Hl. cbn [peers_after mbind option_bind get_peers]. unfold get_peer. rewrite Hx. cbn [mbind option_bind].
    match goal with |- context [nla_nest_start nest_size 0 ?m] => pose proof (nest_start_ok nest_size 0 m) as Hn; destruct (nla_nest_start nest_size 0 m) as [[n m3]|] end; cbn [room items frames] in Hn; [|lia].
    destruct Hn as [-> ->]. unfold bogus_prefixes. rewrite (proj2 (Z.eqb_neq _ _) Hb), Hp. cbn [mbind option_bind]. destruct (Z.eqb_spec e 0); [lia|]. cbn [negb mbind option_bind].
    unfold nla_nest_end. cbn [frames length items room]. rewrite Hf. cbn [length Nat.sub close_frames app]. cbn [next_peer set_prev_seq]. rewrite Hctx. cbn [wg_peer_put mbind option_bind].
    replace (set_world (wd_world d) d) with d by (by destruct d). eexists _, _, _. split; [reflexivity|]. split; [cbn [room]; lia|]. split; [done|]. rewrite Hi. exact (fragments_ok _ [[]] _). }
  split; [exact Hcall|]. intros fuel. assert (forall ctx, next_peer ctx = None -> run_dump handshake_entry hdr_size attr_size nest_size in4_pton in6_pton ifindex ifname fuel d cap env ctx = None) as H; [|by apply H].
  induction fuel as [|fuel IH]; intros ctx Hctx; [done|]. cbn [run_dump]. destruct (Hcall ctx Hctx) as (ret & m & ctx' & Hd & Hret & Hn & _). fold dump. rewrite Hd. cbn [mbind option_bind].
  rewrite (proj2 (Z.ltb_lt _ _) Hret), (IH ctx' Hn). done.
Qed.

Lemma dump_bogus_endless_witness : exists d, peer_list (wd_world d) = [2] /\
  forall fuel, run_dump (K := KstrtoRef.ops) example_entry 20 (fun _ => example_size) 4 (fun _ => None) (fun _ => None) 1 [119; 103; 48] fuel d 900
    (fun _ => Bogus 1 (Some [49]) None 0 [] 0) start_ctx = None.
Proof.
  exists example_device. assert (peer_list (wd_world example_device) = [2]) as Hl by (vm_compute; reflexivity). split; [exact Hl|].
  assert (exists x, mem (wd_world example_device) !! 2 = Some x) as [x Hx] by (vm_compute; eexists; reflexivity).
  refine (proj2 (dump_bogus_endless (K := KstrtoRef.ops) example_entry 20 (fun _ => example_size) 4 example_size (fun _ => None) (fun _ => None) 1 [119; 103; 48]
    (fun _ => Bogus 1 (Some [49]) None 0 [] 0) example_device 900 2 [] x (- EINVAL) _ example_size_ok _ Hl Hx _ _ _ _)); try lia; try reflexivity.
  - intros H. discriminate H.
  - vm_compute. intros H. discriminate H.
Defined.

(** A made-up address of version 6 need not lie in the configured prefix:
    when the length of the prefix is not a multiple of eight, the bits of the
    prefix in its last byte are overwritten by random ones. *)
Theorem bogus6_outside_prefix net n : length net = 16%nat -> all_bytes net -> 0 <= n < 128 -> n mod 8 <> 0 ->
  exists rnd b, length rnd = 16%nat /\ all_bytes rnd /\ is_byte b /\
    generate_ipv6_address_with_prefix (net, n) rnd b / 2 ^ (128 - n) <> be_word net / 2 ^ (128 - n).
Proof.
  intros Hl Hb Hn Hm. set (j := n mod 8) in *. assert (0 < j < 8 /\ n = 8 * (n / 8) + j) as [Hj Hnj] by (unfold j; lia).
  pose proof (fun r b H => generate6_cut net n r b Hl H Hn Hm) as Hcut. set (x := nth (Z.to_nat (n / 8)) net 0).
  set (rnd := (if x <? 128 then 128 else 0) :: zeros 15). assert (all_bytes rnd) as Hrb by (unfold rnd; destruct (x <? 128); repeat constructor; cbn; lia).
  exists rnd, 0. split; [done|]. split; [done|]. split; [split; lia|]. destruct (Hcut rnd 0 eq_refl) as (y & rest & Hnet & Hrest & ->).
  assert (y = x) as ->. { unfold x. rewrite Hnet at 1. rewrite app_nth2; rewrite length_take; [|lia]. replace (_ - _)%nat with 0%nat by lia. done. }
  assert (is_byte x /\ all_bytes rest) as [Hx Hrest']. { rewrite Hnet in Hb. apply Forall_app in Hb as [_ Hb]. by apply Forall_cons in Hb. }
  rewrite Hnet at 2. replace (128 - n) with (128 - (8 * (n / 8) + j)) by lia. rewrite !(be_word_cut _ (n / 8) j); try done; try lia; [|by apply Forall_take, Forall_drop|unfold len; rewrite length_take, length_drop; change (length rnd) with 16%nat; lia].
  intros E. assert (forall a b c : Z, a + b = a + c -> b = c) as Hc by lia. apply Hc in E. revert E. unfold rnd, is_byte in *. cbn [nth].
  assert (j = 1 \/ j = 2 \/ j = 3 \/ j = 4 \/ j = 5 \/ j = 6 \/ j = 7) as Hj7 by lia. fold j. destruct (Z.ltb_spec x 128);
    destruct Hj7 as [->|[->|[->|[->|[->|[->| ->]]]]]]; match goal with |- context [u8 ?e] => let v := eval vm_compute in (u8 e) in change (u8 e) with v end;
    match goal with |- context [2 ^ ?e] => let v := eval vm_compute in (2 ^ e) in change (2 ^ e) with v end; lia.
Qed.

Lemma bogus6_outside_prefix_witness : exists rnd b, generate_ipv6_address_with_prefix (32 :: 1 :: zeros 14, 20) rnd b / 2 ^ (128 - 20) <> be_word (32 :: 1 :: zeros 14) / 2 ^ (128 - 20).
Proof.
  destruct (bogus6_outside_prefix (32 :: 1 :: zeros 14) 20) as (rnd & b & _ & _ & _ & H); [reflexivity|repeat constructor; cbn; lia|lia|discriminate|]. exists rnd, b. exact H.
Defined.
