(* ===== verification/Evolve.v ===== *)
(** * What a configuration request may change

    A dump of a device is interrupted by requests between its messages.  What
    it keeps from one message to the next, a peer and a node of the allowed
    addresses, stays usable because of how requests change the device: peers
    are only removed from the list or appended to it, and [peer_allowedips.seq]
    counts every change of a peer's list of addresses. *)

From S2P Require Import Prelude Messages IpBits Trie AllowedIps AllowedIpsSpec PeerLookup Noise Config Socket Peer Netlink.
From stdpp Require Import gmap gmultiset list fin_maps.
#[local] Open Scope Z_scope.
#[local] Abbreviation seq := AllowedIps.seq.

(** ** The table *)

(** A computation that leaves [seq] alone. *)
Definition keeps {A} (m : M A) : Prop := forall st x st', m st = Some (x, st') -> seq st' = seq st.

Lemma keeps_ret {A} (x : A) : keeps (mret x).
Proof. by intros st y st' [= _ <-]. Qed.
Lemma keeps_bind {A B} (m : M A) (k : A -> M B) : keeps m -> (forall x, keeps (k x)) -> keeps (m ≫= k).
Proof.
  intros Hm Hk st y st'. unfold mbind, M_bind. destruct (m st) as [[x st1]|] eqn:E; [|done]. intros H. rewrite (Hk x st1 y st' H). by eapply Hm.
Qed.
Lemma keeps_none {A} : keeps (fun _ => None : option (A * table)).
Proof. done. Qed.
Lemma keeps_lift {A} (o : option A) : keeps (lift o).
Proof. intros st x st'. unfold lift. destruct o; [|done]. by intros [= _ <-]. Qed.
Lemma keeps_get_node a : keeps (get_node a).
Proof. intros st x st'. unfold get_node. destruct (heap st !! a); [|done]. by intros [= _ <-]. Qed.
Lemma keeps_modify a f : keeps (modify a f).
Proof. intros st x st'. unfold modify. destruct (heap st !! a); [|done]. by intros [= _ <-]. Qed.
Lemma keeps_zalloc : keeps kmem_cache_zalloc.
Proof. intros st x st'. unfold kmem_cache_zalloc. destruct (answers st) as [|[] ?]; by intros [= _ <-]. Qed.
Lemma keeps_free a : keeps (kmem_cache_free a).
Proof. intros st x st'. unfold kmem_cache_free. destruct (heap st !! a); [|done]. by intros [= _ <-]. Qed.
Lemma keeps_list_del a : keeps (list_del a).
Proof. by intros st x st' [= _ <-]. Qed.
Lemma keeps_list_add a p : keeps (list_add_tail a p).
Proof. by intros st x st' [= _ <-]. Qed.
Lemma keeps_read_slot s : keeps (read_slot s).
Proof. destruct s; [by intros st x st' [= _ <-]|]. apply keeps_bind; [apply keeps_get_node|intros; apply keeps_ret]. Qed.
Lemma keeps_write_slot s q : keeps (write_slot s q).
Proof. destruct s; [by intros st x st' [= _ <-]|]. apply keeps_modify. Qed.
Lemma keeps_placement v6 key c bs : keeps (placement v6 key c bs).
Proof. intros st x st'. unfold placement. destruct (node_placement _ _ _ _ _ _ _); [|done]. by intros [= _ <-]. Qed.

Create HintDb keeps.
#[export] Hint Resolve keeps_ret keeps_none keeps_lift keeps_get_node keeps_modify keeps_zalloc keeps_free keeps_list_del keeps_list_add keeps_read_slot keeps_write_slot keeps_placement : keeps.

Ltac keeps :=
  repeat first
    [ progress intros
    | solve [auto with keeps]
    | match goal with |- keeps (match ?x with _ => _ end) => destruct x end
    | match goal with |- keeps (mbind _ _) => apply keeps_bind end
    | progress cbv zeta ].

Lemma keeps_connect s a : keeps (connect_node s a).
Proof. unfold connect_node. keeps. Qed.
#[export] Hint Resolve keeps_connect : keeps.
Lemma keeps_choose pa a : keeps (choose_and_connect_node pa a).
Proof. unfold choose_and_connect_node. keeps. Qed.
#[export] Hint Resolve keeps_choose : keeps.
Lemma keeps_copy a src c bs : keeps (copy_and_assign_cidr a src c bs).
Proof. unfold copy_and_assign_cidr. keeps. Qed.
#[export] Hint Resolve keeps_copy : keeps.
Lemma keeps_below v6 pa a : keeps (connect_below v6 pa a).
Proof. unfold connect_below. keeps. Qed.
#[export] Hint Resolve keeps_below : keeps.
Lemma keeps_init a key c bs p : keeps (init_node a key c bs p).
Proof. unfold init_node. keeps. Qed.
#[export] Hint Resolve keeps_init : keeps.
Lemma keeps_above v6 bs key c pa down new : keeps (add_above v6 bs key c pa down new).
Proof. unfold add_above. keeps. Qed.
#[export] Hint Resolve keeps_above : keeps.
Lemma keeps_add_new v6 bs key c p node : keeps (add_new v6 bs key c p node).
Proof. unfold add_new. keeps. Qed.
#[export] Hint Resolve keeps_add_new : keeps.
Lemma keeps_move a p : keeps (list_move_tail a p).
Proof. unfold list_move_tail. keeps. Qed.
#[export] Hint Resolve keeps_move : keeps.
Lemma keeps_add v6 bs key c p : keeps (allowedips_add v6 bs key c p).
Proof. unfold allowedips_add. keeps. Qed.
Lemma keeps_replace s ch : keeps (replace_by s ch).
Proof. unfold replace_by. keeps. Qed.
#[export] Hint Resolve keeps_replace : keeps.
Lemma keeps_remove_node a : keeps (remove_node a).
Proof. unfold remove_node. keeps. Qed.
#[export] Hint Resolve keeps_remove_node : keeps.
Lemma keeps_remove v6 bs key c p : keeps (allowedips_remove v6 bs key c p).
Proof. unfold allowedips_remove. keeps. Qed.

Lemma keeps_each fuel p : forall node, keeps (remove_each fuel p node).
Proof.
  induction fuel as [|f IH]; intros [a|]; cbn [remove_each]; [keeps..|]. 2: keeps.
  intros st x st' H. assert (keeps (get_node a ≫= fun _ => remove_node a ≫= fun _ => remove_each f p (list_next (plist st p) a))) as Hk by keeps. exact (Hk st x st' H).
Qed.
Lemma keeps_lists fuel : forall stack, keeps (root_remove_peer_lists fuel stack).
Proof. induction fuel as [|f IH]; intros [|a stack]; cbn [root_remove_peer_lists]; keeps. Qed.
Lemma keeps_nodes fuel : forall stack, keeps (root_free_rcu fuel stack).
Proof. induction fuel as [|f IH]; intros [|a stack]; cbn [root_free_rcu]; keeps. Qed.
Lemma keeps_free_root r : keeps (free_root r).
Proof.
  intros st x st'. unfold free_root. destruct r as [a|]; [|by intros [= _ <-]].
  refine (keeps_bind _ _ _ _ st x st'); [apply keeps_lists|intros; apply keeps_nodes].
Qed.

(** The exported operations count one change, except the removal of nothing. *)
Lemma bump_keeps {A} (m : M A) st x st' : keeps m -> (bump ≫= fun _ => m) st = Some (x, st') -> seq st' = u64 (seq st + 1).
Proof. intros Hm H. exact (Hm _ _ _ H). Qed.

Lemma remove_by_peer_seq p st x st' : wg_allowedips_remove_by_peer p st = Some (x, st') -> (plist st p = [] /\ st' = st) \/ seq st' = u64 (seq st + 1).
Proof.
  unfold wg_allowedips_remove_by_peer. destruct (plist st p) as [|a l] eqn:E; [intros [= _ <-]; by left|]. intros H. right. eapply bump_keeps; [|exact H]. apply keeps_each.
Qed.

Lemma free_seq st x st' : wg_allowedips_free st = Some (x, st') -> seq st' = u64 (seq st + 1).
Proof.
  unfold wg_allowedips_free. intros H. eapply bump_keeps; [|exact H]. keeps; apply keeps_free_root.
Qed.

Lemma set_allowedip_seq p a st r st' : set_allowedip p a st = Some (r, st') -> st' = st \/ seq st' = u64 (seq st + 1).
Proof.
  unfold set_allowedip. destruct (aa_family a), (aa_ipaddr a), (aa_cidr a); try (intros [= _ <-]; by left).
  repeat match goal with |- context [if ?b then _ else _] => destruct b end; try (intros [= _ <-]; by left); intros H; right; (eapply bump_keeps; [|exact H]); apply keeps_add || apply keeps_remove.
Qed.

(** ** The device *)

(** The peers of the list and those that are held are allocated. *)
Definition placed (w : world) (h : gmultiset Z) : Prop :=
  NoDup (peer_list w) /\ (forall p, p ∈ peer_list w -> is_Some (mem w !! p)) /\ forall p, p ∈ h -> is_Some (mem w !! p).

(** From [w] to [w'] with [n] changes of the table, while [h] is held: what is
    held stays; the peers that stay on the list keep their order, and new ones,
    which are not among the held, come after them.  Without a change of the table the
    peers that have addresses stay, and so do their lists. *)
Definition evolves (h : gmultiset Z) (n : Z) (w w' : world) : Prop :=
  0 <= n /\ (0 <= seq (peer_allowedips w) -> seq (peer_allowedips w) + n < 2 ^ 64 -> seq (peer_allowedips w') = seq (peer_allowedips w) + n) /\
  (placed w h -> placed w' h /\ exists keep new, peer_list w' = keep ++ new /\ keep `sublist_of` peer_list w /\ (forall p, p ∈ h -> p ∉ new) /\
     (n = 0 -> forall p, p ∈ peer_list w -> plist (peer_allowedips w) p <> [] -> p ∈ keep /\ plist (peer_allowedips w') p = plist (peer_allowedips w) p)).

Lemma evolves_trans h n m w w1 w2 : evolves h n w w1 -> evolves h m w1 w2 -> evolves h (n + m) w w2.
Proof.
  intros (Hn & Hs & Hp) (Hn' & Hs' & Hp'). split; [lia|]. split; [intros; rewrite Hs', Hs by (rewrite ?Hs; lia); lia|]. intros Hpl.
  destruct (Hp Hpl) as (Hpl1 & k1 & n1 & Hl1 & Hk1 & Hh1 & Hz1). destruct (Hp' Hpl1) as (Hpl2 & k2 & n2 & Hl2 & Hk2 & Hh2 & Hz2). split; [done|].
  rewrite Hl1 in Hk2. apply sublist_app_r in Hk2 as (ka & kb & -> & Hka & Hkb). exists ka, (kb ++ n2). split; [by rewrite app_assoc|]. split; [by etrans|]. split.
  - intros p Hin. specialize (Hh1 p Hin). specialize (Hh2 p Hin). rewrite not_elem_of_app. split; [|done]. intros Hkb'. apply Hh1. by eapply elem_of_sublist.
  - intros H0 p Hin Hne. destruct (Hz1 ltac:(lia) p Hin Hne) as [Hk Hpl']. destruct (Hz2 ltac:(lia) p) as [Hk' Hpl'']; [rewrite Hl1; set_solver|congruence|].
    split; [|congruence]. apply elem_of_app in Hk' as [|Hb]; [done|]. exfalso. destruct Hpl1 as [Hnd _]. rewrite Hl1 in Hnd. apply NoDup_app in Hnd as (_ & Hd & _).
    apply (Hd p Hk). by eapply elem_of_sublist.
Qed.

(** At most [b] changes. *)
Definition grows (h : gmultiset Z) (b : Z) (w w' : world) : Prop := exists n, n <= b /\ evolves h n w w'.

Lemma grows_trans h b c w w1 w2 : grows h b w w1 -> grows h c w1 w2 -> grows h (b + c) w w2.
Proof. intros (n & Hn & H) (m & Hm & H'). exists (n + m). split; [lia|]. by eapply evolves_trans. Qed.
Lemma grows_weaken h b c w w' : b <= c -> grows h b w w' -> grows h c w w'.
Proof. intros Hb (n & Hn & H). exists n. split; [lia|done]. Qed.

(** What leaves the list and the table alone. *)
Lemma grows_same h w w' : peer_list w' = peer_list w -> peer_allowedips w' = peer_allowedips w -> (forall p, is_Some (mem w !! p) -> is_Some (mem w' !! p)) -> grows h 0 w w'.
Proof.
  intros Hl Ht Hm. exists 0. split; [done|]. split; [done|]. rewrite Ht. split; [lia|]. intros (H1 & H2 & H3). unfold placed. rewrite Hl. split; [ands; eauto|].
  exists (peer_list w), []. rewrite app_nil_r. ands; try done. set_solver.
Qed.
Lemma grows_refl h w : grows h 0 w w.
Proof. by apply grows_same. Qed.

(** A change of the table. *)
Lemma grows_table h w t : seq t = u64 (seq (peer_allowedips w) + 1) -> grows h 1 w (set_ips t w).
Proof.
  intros Ht. exists 1. split; [done|]. split; [done|]. split; [intros; cbn; rewrite Ht; unfold u64; apply Z.mod_small; lia|]. intros H. split; [exact H|].
  exists (peer_list w), []. rewrite app_nil_r. ands; try done. set_solver.
Qed.

Lemma grows_ips_same h w : grows h 0 w (set_ips (peer_allowedips w) w).
Proof. by apply grows_same. Qed.

Lemma on_peer_grows h p f w w' : on_peer p f w = Some w' -> grows h 0 w w'.
Proof.
  unfold on_peer. destruct (mem w !! p) as [x|] eqn:E; [|done]. intros [= <-]. apply grows_same; try done. intros q. cbn. rewrite lookup_insert. case_decide; [done|auto].
Qed.

Lemma each_none (f : Z -> world -> option world) l : fold_left (fun r p => r ≫= f p) l None = None.
Proof. by induction l. Qed.

Lemma each_grows f b h : 0 <= b -> (forall p w w', f p w = Some w' -> grows h b w w') -> forall l w w', peers_each f l w = Some w' -> grows h (b * len l) w w'.
Proof.
  intros Hb Hf l. induction l as [|p l IH]; intros w w' H; [injection H as <-; change (len (@nil Z)) with 0; rewrite Z.mul_0_r; apply grows_refl|].
  unfold peers_each in H. cbn in H. destruct (f p w) as [w1|] eqn:E; [|by rewrite each_none in H]. replace (b * len (p :: l)) with (b + b * len l) by (unfold len; cbn [length]; lia).
  eapply grows_trans; [by eapply Hf|]. by apply IH.
Qed.

Section Peers.
Context (siphash : list Z -> Z) (handshake_entry : Z -> Z).

Lemma put_grows h o w w' : wg_peer_put handshake_entry w o = Some w' -> grows h 0 w w'.
Proof.
  destruct o as [p|]; [|intros [= <-]; apply grows_refl]. unfold wg_peer_put, kref_release, on_peer. destruct (mem w !! p) as [x|] eqn:E; [|done]. destruct (_ =? 0).
  - cbn. rewrite lookup_insert_eq. intros [= <-]. apply grows_same; try done. intros q. cbn. rewrite !lookup_insert. case_decide; [done|auto].
  - intros [= <-]. apply grows_same; try done. intros q. cbn. rewrite lookup_insert. case_decide; [done|auto].
Qed.

Lemma get_grows h o w o' w' : wg_peer_get_maybe_zero w o = Some (o', w') -> grows h 0 w w'.
Proof.
  unfold wg_peer_get_maybe_zero. destruct o as [p|]; [|intros [= _ <-]; apply grows_refl]. destruct (mem w !! p) as [x|] eqn:E; [|done]. destruct (_ =? 0); intros [= _ <-]; [apply grows_refl|].
  apply grows_same; try done. intros q. cbn. rewrite lookup_insert. case_decide; [done|auto].
Qed.

Lemma create_grows h w alloc dst k psk p w' : wg_peer_create siphash handshake_entry w alloc dst k psk = (p, w') -> (forall a, alloc = Some a -> mem w !! a = None) -> grows h 0 w w'.
Proof.
  unfold wg_peer_create. intros H Hf. destruct (MAX_PEERS_PER_DEVICE <=? num_peers w); [injection H as _ <-; apply grows_refl|]. destruct alloc as [a|]; [|injection H as _ <-; apply grows_refl].
  destruct (negb dst); [injection H as _ <-; apply grows_refl|]. injection H as _ <-. specialize (Hf a eq_refl). exists 0. split; [done|]. split; [done|]. split; [cbn; lia|].
  intros (H1 & H2 & H3). assert (a ∉ peer_list w /\ a ∉ h) as [Ha Hh] by (split; intros Hin; [apply H2 in Hin|apply H3 in Hin]; rewrite Hf in Hin; by destruct Hin). split.
  - unfold placed. cbn. ands.
    + apply NoDup_app. split; [done|]. split; [set_solver|apply NoDup_singleton].
    + intros p0 Hp. rewrite lookup_insert. case_decide; [done|]. apply H2. set_solver.
    + intros p0 Hp. rewrite lookup_insert. case_decide; [done|]. by apply H3.
  - exists (peer_list w), [a]. cbn. ands; try done; [set_solver|]. intros _ p0 Hp _. split; [done|]. unfold plist. cbn. rewrite lookup_delete_ne; [done|]. by intros ->.
Qed.

Lemma make_dead_grows h p w w' : peer_make_dead p w = Some w' -> grows h 1 w w'.
Proof.
  unfold peer_make_dead. cbn. destruct (wg_allowedips_remove_by_peer p (peer_allowedips w)) as [[[] t]|] eqn:E; [|done]. cbn [mbind option_bind]. intros H.
  unfold on_peer in H. cbn in H. destruct (mem w !! p) as [x|] eqn:Ex; [|done]. injection H as <-.
  assert (exists n, 0 <= n <= 1 /\ (0 <= seq (peer_allowedips w) -> seq (peer_allowedips w) + n < 2 ^ 64 -> seq t = seq (peer_allowedips w) + n) /\
    (n = 0 -> plist (peer_allowedips w) p = [] /\ t = peer_allowedips w)) as (n & Hn & Hs & Hz).
  { destruct (remove_by_peer_seq _ _ _ _ E) as [[H1 ->]|Hs]; [exists 0; ands; try done; lia|]. exists 1. ands; try lia. intros. rewrite Hs. unfold u64. apply Z.mod_small. lia. }
  exists n. split; [lia|]. split; [lia|]. split; [done|]. intros (H1 & H2 & H3). split.
  - unfold placed. cbn. ands; [by apply NoDup_filter|..]; intros q Hq; rewrite lookup_insert; (case_decide; [done|]); auto. apply list_elem_of_filter in Hq as [_ Hq]. auto.
  - exists (filter (fun q => q <> p) (peer_list w)), []. cbn. rewrite app_nil_r. ands; try done; [apply sublist_filter|set_solver|].
    intros H0 q Hq Hne. destruct (Hz H0) as [Hp ->]. split; [|done]. apply list_elem_of_filter. split; [|done]. congruence.
Qed.

Lemma after_dead_grows h p w w' : peer_remove_after_dead handshake_entry p w = Some w' -> grows h 0 w w'.
Proof.
  unfold peer_remove_after_dead. destruct (keypairs_clear p w) as [w1|] eqn:E1; [|done]. cbn [mbind option_bind]. destruct (on_peer p (set_timers []) w1) as [w2|] eqn:E2; [|done]. cbn [mbind option_bind].
  destruct (on_peer p (set_napi false) w2) as [w3|] eqn:E3; [|done]. cbn [mbind option_bind]. intros H. change 0 with (0 + (0 + (0 + (0 + 0)))). apply (grows_trans h 0 _ w w1).
  { unfold keypairs_clear in E1. destruct (mem w !! p) as [x|] eqn:Ex; [|done]. injection E1 as <-. apply grows_same; try done; intros q; cbn; rewrite lookup_insert; (case_decide; [done|auto]). }
  apply (grows_trans h 0 _ w1 w2); [by eapply on_peer_grows|]. apply (grows_trans h 0 _ w2 w3); [by eapply on_peer_grows|].
  apply (grows_trans h 0 _ w3 (set_num (num_peers w3 - 1) w3)); [by apply grows_same|by eapply put_grows].
Qed.

Lemma remove_grows h o w w' : wg_peer_remove handshake_entry w o = Some w' -> grows h 1 w w'.
Proof.
  unfold wg_peer_remove. destruct o as [p|]; [|intros [= <-]; by apply (grows_weaken h 0), grows_refl]. destruct (peer_make_dead p w) as [w1|] eqn:E; [|done]. cbn.
  intros H. change 1 with (1 + 0). eapply grows_trans; [by eapply make_dead_grows|by eapply after_dead_grows].
Qed.

Lemma remove_all_grows h w w' : wg_peer_remove_all handshake_entry w = Some w' -> grows h (1 + len (peer_list w)) w w'.
Proof.
  unfold wg_peer_remove_all, remove_all_begin. destruct (wg_allowedips_free (peer_allowedips w)) as [[[] t]|] eqn:E; [|done]. cbn [mbind option_bind].
  destruct (peers_each peer_make_dead _ _) as [w1|] eqn:E1; [|done]. cbn [mbind option_bind]. intros E2. replace (1 + len (peer_list w)) with (1 + (1 * len (peer_list w) + 0 * len (peer_list w))) by lia.
  eapply grows_trans; [apply grows_table; by eapply free_seq|]. eapply grows_trans; [eapply (each_grows peer_make_dead 1); [lia| |exact E1]; intros; by eapply make_dead_grows|].
  eapply (each_grows _ 0); [lia| |exact E2]. intros. by eapply after_dead_grows.
Qed.

End Peers.

(** ** Requests *)

(** Bounds on the changes of the table. *)
Definition peer_weight (a : peer_attrs) : Z := 1 + match pa_allowedips a with Some l => len l | None => 0 end.
Fixpoint peers_weight (l : list (Z + peer_attrs * peer_env)) : Z :=
  match l with
  | [] => 0
  | inl _ :: l' => peers_weight l'
  | inr (a, _) :: l' => peer_weight a + peers_weight l'
  end.
Definition request_weight (a : device_attrs) : Z :=
  2 + MAX_PEERS_PER_DEVICE + match da_peers a with Some l => peers_weight l | None => 0 end.

Lemma peers_weight_pos l : 0 <= peers_weight l.
Proof. induction l as [|[e|[a env]] l IH]; cbn; [done|lia|]. unfold peer_weight. destruct (pa_allowedips a); unfold len; lia. Qed.

Section Requests.
Context (siphash : list Z -> Z) (handshake_entry : Z -> Z).
Context `{K : Kstrto} `{NC : NoiseCrypto} (ipv6 : bool) (h : gmultiset Z).

Lemma set_allowedips_grows p l : forall ret w r t, set_allowedips p l ret (peer_allowedips w) = Some (r, t) -> grows h (len l) w (set_ips t w).
Proof.
  induction l as [|x l IH]; intros ret w r t H; cbn [set_allowedips] in H.
  { injection H as _ <-. apply grows_ips_same. }
  replace (len (x :: l)) with (1 + len l) by (unfold len; cbn [length]; lia). assert (0 <= len l) by (unfold len; lia). destruct x as [e|a].
  - destruct (e <? 0); [injection H as _ <-; apply (grows_weaken h 0); [lia|]; apply grows_ips_same|]. apply (grows_weaken h (len l)); [lia|]. by eapply IH.
  - destruct (set_allowedip p a (peer_allowedips w)) as [[r1 t1]|] eqn:E; [|done]. cbn [mbind option_bind] in H.
    assert (grows h 1 w (set_ips t1 w)) as H1.
    { destruct (set_allowedip_seq _ _ _ _ _ E) as [->|Hs]; [apply (grows_weaken h 0); [lia|]; apply grows_ips_same|by apply grows_table]. }
    destruct (r1 <? 0); [injection H as _ <-; apply (grows_weaken h 1); [lia|done]|]. eapply grows_trans; [exact H1|]. exact (IH r1 (set_ips t1 w) r t H).
Qed.

Lemma on_conf_grows p f w w' : on_conf p f w = Some w' -> grows h 0 w w'.
Proof. apply on_peer_grows. Qed.

Lemma on_conf_opt_grows {A} (o : option A) (f : A -> peer_conf -> peer_conf) p w w' :
  match o with Some x => on_conf p (f x) w | None => Some w end = Some w' -> grows h 0 w w'.
Proof. destruct o; [apply on_conf_grows|]. intros [= <-]. apply grows_refl. Qed.

Lemma set_peer_addresses_grows w p flags psk a r w' : set_peer_addresses ipv6 w p flags psk a = Some (r, w') -> grows h (peer_weight a) w w'.
Proof.
  unfold set_peer_addresses. intros H. destruct (match psk with Some k => on_conf p (with_psk k) w | None => Some w end) as [w1|] eqn:E1; [|done]. cbn [mbind option_bind] in H.
  destruct (match pa_endpoint a with Some sa => _ | None => Some w1 end) as [w2|] eqn:E2; [|done]. cbn [mbind option_bind] in H.
  destruct (if has_flag flags WGPEER_F_REPLACE_ALLOWEDIPS then _ else _) as [[[] t1]|] eqn:E3; [|done]. cbn [mbind option_bind] in H.
  destruct (match pa_allowedips a with Some l => _ | None => Some (0, t1) end) as [[r2 t2]|] eqn:E4; [|done]. injection H as _ <-.
  unfold peer_weight. replace (1 + _) with (0 + (0 + (1 + match pa_allowedips a with Some l => len l | None => 0 end))) by lia.
  apply (grows_trans h 0 _ w w1); [exact (on_conf_opt_grows psk (fun k => with_psk k) p w w1 E1)|].
  apply (grows_trans h 0 _ w1 w2); [exact (on_conf_opt_grows (pa_endpoint a) (fun sa c => with_sock (endpoint_attr ipv6 sa (pc_sock c)) c) p w1 w2 E2)|].
  apply (grows_trans h 1 _ w2 (set_ips t1 w2)).
  - destruct (has_flag _ _); [|injection E3 as <-; apply (grows_weaken h 0); [lia|]; apply grows_ips_same].
    destruct (remove_by_peer_seq _ _ _ _ E3) as [[_ ->]|Hs]; [apply (grows_weaken h 0); [lia|]; apply grows_ips_same|by apply grows_table].
  - destruct (pa_allowedips a) as [l|]; [exact (set_allowedips_grows p l 0 (set_ips t1 w2) r2 t2 E4)|]. injection E4 as _ <-. apply grows_refl.
Qed.

Lemma set_peer_settings_grows d p flags psk a r d' calls : set_peer_settings ipv6 d p flags psk a = Some (r, d', calls) -> grows h (peer_weight a) (wd_world d) (wd_world d').
Proof.
  unfold set_peer_settings. intros H. destruct (set_peer_addresses ipv6 (wd_world d) p flags psk a) as [[r1 w1]|] eqn:E1; [|done]. cbn [mbind option_bind] in H.
  apply set_peer_addresses_grows in E1. destruct (r1 <? 0); [injection H as _ <- _; exact E1|]. destruct (mem w1 !! p) as [x|]; [|done]. cbn [mbind option_bind] in H.
  destruct (match pa_keepalive a with Some v => _ | None => Some w1 end) as [w2|] eqn:E2; [|done]. cbn [mbind option_bind] in H.
  destruct (match (if has_flag flags WGPEER_F_HAS_ADVANCED_SECURITY then _ else None) with Some b => _ | None => Some w2 end) as [w3|] eqn:E3; [|done]. injection H as _ <- _. cbn [wd_world set_world].
  replace (peer_weight a) with (peer_weight a + (0 + 0)) by lia. apply (grows_trans h _ _ _ w1); [done|]. apply (grows_trans h 0 0 _ w2).
  - exact (on_conf_opt_grows (pa_keepalive a) (fun v => with_keepalive v) p w1 w2 E2).
  - exact (on_conf_opt_grows _ (fun b => with_advanced b) p w2 w3 E3).
Qed.

Lemma find_or_create_grows d env flags k psk r w : fresh_alloc handshake_entry env -> find_or_create siphash handshake_entry d env flags k psk = Some (r, w) -> grows h 0 (wd_world d) w.
Proof.
  unfold find_or_create, lookup_peer. intros Hf H. destruct (wg_peer_get_maybe_zero _ _) as [[o w1]|] eqn:E; [|done]. cbn [mbind option_bind] in H. apply (get_grows h) in E.
  destruct o as [p|]; [by injection H as _ <-|]. destruct (has_flag _ _); [by injection H as _ <-|]. destruct (_ && _); [by injection H as _ <-|].
  destruct (wg_peer_create _ _ _ _ _ _ _) as [[e|p] w2] eqn:E2; apply (create_grows _ _ h) in E2; try (intros a Ha; by apply (Hf w1 a)).
  - injection H as _ <-. change 0 with (0 + 0). by apply (grows_trans h 0 0 _ w1).
  - destruct (wg_peer_get w2 p) as [w3|] eqn:E3; [|done]. cbn [mbind option_bind] in H. injection H as _ <-. apply (on_peer_grows h) in E3. change 0 with (0 + (0 + 0)).
    apply (grows_trans h 0 _ _ w1); [done|]. by apply (grows_trans h 0 0 _ w2).
Qed.

Lemma set_peer_grows d env a r d' calls : fresh_alloc handshake_entry env -> set_peer siphash handshake_entry ipv6 d env a = Some (r, d', calls) -> grows h (peer_weight a) (wd_world d) (wd_world d').
Proof.
  unfold set_peer. intros Hf H. assert (0 <= match pa_allowedips a with Some l => len l | None => 0 end) as Hw by (destruct (pa_allowedips a); unfold len; lia).
  assert (0 <= peer_weight a /\ 1 <= peer_weight a) as [Hw0 Hw1] by (unfold peer_weight; lia).
  destruct (key_attr (pa_public_key a) _) as [k|]; [|injection H as _ <- _; apply (grows_weaken h 0); [lia|apply grows_refl]].
  destruct (match pa_protocol_version a with Some v => _ | None => false end); [injection H as _ <- _; apply (grows_weaken h 0); [lia|apply grows_refl]|].
  destruct (find_or_create _ _ _ _ _ _ _) as [[[ret|[p flags]] w]|] eqn:E; [| |done]; cbn [mbind option_bind] in H; apply find_or_create_grows in E; try done.
  { injection H as _ <- _. by apply (grows_weaken h 0). }
  destruct (if has_flag flags WGPEER_F_REMOVE_ME then _ else _) as [[[r1 d1] c1]|] eqn:E1; [|done]. cbn [mbind option_bind] in H.
  destruct (wg_peer_put handshake_entry (wd_world d1) (Some p)) as [w2|] eqn:E2; [|done]. injection H as _ <- _. cbn [wd_world set_world]. apply (put_grows handshake_entry h) in E2.
  replace (peer_weight a) with (0 + (peer_weight a + 0)) by lia. apply (grows_trans h 0 _ _ w); [done|]. apply (grows_trans h _ 0 _ (wd_world d1)); [|done].
  destruct (has_flag flags WGPEER_F_REMOVE_ME).
  - destruct (wg_peer_remove handshake_entry w (Some p)) as [w1|] eqn:E3; [|done]. injection E1 as _ <- _. apply (grows_weaken h 1); [done|]. by eapply remove_grows.
  - by apply set_peer_settings_grows in E1.
Qed.

Lemma set_peers_grows l : Forall (request_ok handshake_entry) l -> forall d r d' calls, set_peers siphash handshake_entry ipv6 l d = Some (r, d', calls) ->
  grows h (peers_weight l) (wd_world d) (wd_world d').
Proof.
  induction 1 as [|x l Hx Hl IH]; intros d r d' calls H; cbn [set_peers] in H; [injection H as _ <- _; apply grows_refl|]. pose proof (peers_weight_pos l) as Hp. destruct x as [e|[a env]]; cbn [peers_weight].
  - destruct (e <? 0); [injection H as _ <- _; apply (grows_weaken h 0); [lia|apply grows_refl]|]. by eapply IH.
  - destruct (set_peer _ _ _ d env a) as [[[r1 d1] c1]|] eqn:E; [|done]. cbn [mbind option_bind] in H. apply set_peer_grows in E; [|apply Hx].
    destruct (r1 <? 0); [injection H as _ <- _; apply (grows_weaken h (peer_weight a)); [lia|done]|].
    destruct (set_peers _ _ _ l d1) as [[[r2 d2] c2]|] eqn:E2; [|done]. injection H as _ <- _. eapply grows_trans; [exact E|]. by eapply IH.
Qed.

Lemma clear_all_src_grows w w' : clear_all_src w = Some w' -> grows h 0 w w'.
Proof. intros H. refine (each_grows _ 0 h _ _ _ w w' H); [lia|]. intros. by eapply on_conf_grows. Qed.

Lemma set_port_grows d env port r d' calls : set_port ipv6 d env port = Some (r, d', calls) -> grows h 0 (wd_world d) (wd_world d').
Proof.
  unfold set_port. intros H. destruct (incoming_port (wd_socks d) =? port); [injection H as _ <- _; apply grows_refl|]. destruct (clear_all_src (wd_world d)) as [w|] eqn:E; [|done].
  cbn [mbind option_bind] in H. apply clear_all_src_grows in E. destruct (negb _); [by injection H as _ <- _|]. destruct (wg_socket_init _ _ _ _ _) as [[[ret s] evs]|]; [|done]. by injection H as _ <- _.
Qed.

Lemma set_private_key_grows d k d' calls : set_private_key siphash handshake_entry d k = Some (d', calls) -> grows h 1 (wd_world d) (wd_world d').
Proof.
  unfold set_private_key. intros H. case_bool_decide; [injection H as <- _; apply (grows_weaken h 0); [lia|apply grows_refl]|].
  destruct (match curve25519_generate_public k with Some pk => _ | None => _ end) as [w|] eqn:E; [|done]. cbn [mbind option_bind] in H. injection H as <- _. cbn [wd_world set_identity set_world].
  destruct (curve25519_generate_public k) as [pk|]; [|injection E as <-; apply (grows_weaken h 0); [lia|apply grows_refl]]. unfold lookup_peer in E.
  destruct (wg_peer_get_maybe_zero _ _) as [[o w1]|] eqn:E1; [|done]. cbn [mbind option_bind] in E. apply (get_grows h) in E1. destruct o as [p|].
  - destruct (wg_peer_put handshake_entry w1 (Some p)) as [w2|] eqn:E2; [|done]. cbn [mbind option_bind] in E. apply (put_grows handshake_entry h) in E2. apply (remove_grows handshake_entry h) in E. change 1 with (0 + (0 + 1)).
    apply (grows_trans h 0 _ _ w1); [done|]. by apply (grows_trans h 0 _ _ w2).
  - injection E as <-. by apply (grows_weaken h 0).
Qed.

Lemma set_device_peers_grows d env a r d' calls c : dev_ok siphash handshake_entry d h c -> device_attrs_ok handshake_entry a ->
  set_device_peers siphash handshake_entry ipv6 d env a = Some (r, d', calls) -> grows h (request_weight a) (wd_world d) (wd_world d').
Proof.
  intros Hd Ha. unfold set_device_peers. intros H. destruct (if has_flag _ _ then wg_peer_remove_all _ _ else _) as [w1|] eqn:E1; [|done]. cbn [mbind option_bind] in H.
  destruct (match key_attr (da_private_key a) _ with Some k => _ | None => _ end) as [[d1 c1]|] eqn:E2; [|done]. cbn [mbind option_bind] in H.
  destruct (wg_device_handle_post_config _ _) as [[[r1 cf] al]|]; [|done]. cbn [mbind option_bind] in H. unfold request_weight.
  assert (0 <= match da_peers a with Some l => peers_weight l | None => 0 end) as Hp by (destruct (da_peers a); [apply peers_weight_pos|done]).
  replace (2 + MAX_PEERS_PER_DEVICE + _) with ((1 + MAX_PEERS_PER_DEVICE) + (1 + match da_peers a with Some l => peers_weight l | None => 0 end)) by lia.
  apply (grows_trans h _ _ _ w1); [|apply (grows_trans h 1 _ _ (wd_world d1))].
  - destruct (has_flag _ _); [|injection E1 as <-; apply (grows_weaken h 0); [done|apply grows_refl]]. apply (remove_all_grows handshake_entry h) in E1. eapply grows_weaken; [|exact E1].
    destruct Hd as [[[_ Hc] _] _]. pose proof (c_num _ _ _ _ _ Hc) as Hn. pose proof (c_max _ _ _ _ _ Hc). cbn in *. rewrite app_nil_r in Hn. lia.
  - destruct (key_attr _ _) as [k|]; [exact (set_private_key_grows (set_world w1 d) k d1 c1 E2)|]. injection E2 as <- _. apply (grows_weaken h 0); [lia|apply grows_refl].
  - destruct (r1 <? 0); [injection H as _ <- _; apply (grows_weaken h 0); [done|apply grows_refl]|]. unfold device_attrs_ok in Ha. destruct (da_peers a) as [l|]; [|injection H as _ <- _; apply grows_refl].
    destruct (set_peers _ _ _ l _) as [[[r2 d2] c2]|] eqn:E3; [|done]. injection H as _ <- _. exact (set_peers_grows l Ha _ r2 d2 c2 E3).
Qed.

(** A request changes the table at most as often as its weight says. *)
Lemma wg_set_device_grows `{!Inj (=) (=) handshake_entry} d env a r d' calls c : dev_ok siphash handshake_entry d h c -> device_attrs_ok handshake_entry a ->
  wg_set_device siphash handshake_entry ipv6 d env a = Some (r, d', calls) -> grows h (request_weight a) (wd_world d) (wd_world d').
Proof.
  intros Hd Ha. unfold wg_set_device. intros H. assert (0 <= request_weight a) as Hw.
  { unfold request_weight. destruct (da_peers a) as [l|]; [pose proof (peers_weight_pos l); unfold MAX_PEERS_PER_DEVICE; lia|done]. }
  destruct (_ && _); [injection H as _ <- _; apply (grows_weaken h 0); [done|apply grows_refl]|].
  destruct (set_sources_ok siphash handshake_entry ipv6 (bump_gen d) env a h c Hd) as (d1 & E1 & d2 & c2 & E2 & Hd2 & _). rewrite E1 in H. cbn [mbind option_bind] in H. rewrite E2 in H. cbn [mbind option_bind] in H.
  assert (grows h 0 (wd_world d) (wd_world d2)) as Hg.
  { change 0 with (0 + 0). apply (grows_trans h 0 0 _ (wd_world d1)).
    - destruct (da_fwmark a) as [m|]; [|injection E1 as <-; apply grows_refl]. destruct (clear_all_src (wd_world (bump_gen d))) as [w|] eqn:Ec; [|done]. injection E1 as <-. by apply clear_all_src_grows.
    - destruct (da_listen_port a) as [port|]; [by eapply set_port_grows|]. injection E2 as _ <- _. apply grows_refl. }
  destruct (negb _); [injection H as _ <- _; by apply (grows_weaken h 0)|]. destruct (set_awg_attrs (da_awg a) (wd_config d2)) as [ra cf].
  destruct (negb _); [injection H as _ <- _; by apply (grows_weaken h 0)|]. destruct (set_device_peers _ _ _ _ _ _) as [[[r3 d3] c3]|] eqn:E3; [|done]. injection H as _ <- _.
  replace (request_weight a) with (0 + request_weight a) by lia. apply (grows_trans h 0 _ _ (wd_world d2)); [done|].
  by eapply (set_device_peers_grows (set_config cf d2)).
Qed.

End Requests.
