(* ===== verification/DumpSafe.v ===== *)
(** * A dump among other requests

    Between two messages of a dump the device may be reconfigured in any way,
    and the memory of removed peers is released.  The dump keeps a peer, on
    which it holds a reference, and a node of the allowed addresses, which it
    only uses when [peer_allowedips.seq] has not changed. *)

From S2P Require Import Prelude Messages IpBits Trie AllowedIps AllowedIpsSpec PeerLookup Noise Config Socket Peer Netlink Dump Evolve.
From stdpp Require Import gmap gmultiset list fin_maps.
#[local] Open Scope Z_scope.
#[local] Abbreviation seq := AllowedIps.seq.

(** ** Interleavings *)

Inductive dump_event :=
| EvCall (cap : Z) (env : Z -> bogus)                  (* netlink asks for a message *)
| EvSet (denv : device_env) (a : device_attrs)         (* a configuration request *)
| EvFree (p : Z).                                      (* the memory of a peer is released *)

Section Interleave.

Context (siphash : list Z -> Z) (handshake_entry : Z -> Z).
Context (hdr_size : Z) (attr_size : Z -> value -> Z) (nest_size : Z).
Context `{K : Kstrto} `{NC : NoiseCrypto} (ipv6 : bool) (in4_pton in6_pton : list Z -> option (list Z)) (ifindex : Z) (ifname : list Z).

(** The device, and the dump unless it is over. *)
Definition dump_step (e : dump_event) (s : wg_device * option dump_ctx) : option (list dumped * (wg_device * option dump_ctx)) :=
  let '(d, o) := s in
  match e with
  | EvCall cap env =>
      match o with
      | None => Some ([], s)
      | Some ctx =>
          '(ret, m, ctx, d) ← wg_get_device_dump handshake_entry hdr_size attr_size nest_size in4_pton in6_pton ifindex ifname d cap env ctx;
          if 0 <? ret then Some (option_list m, (d, Some ctx))
          else w ← wg_get_device_done handshake_entry (wd_world d) ctx; Some (option_list m, (set_world w d, None))
      end
  | EvSet denv a => '(_, d, _) ← wg_set_device siphash handshake_entry ipv6 d denv a; Some ([], (d, o))
  | EvFree p =>
      if bool_decide (p ∈ (rcu_queue (wd_world d)).*1) then w ← rcu_release p (wd_world d); Some ([], (set_world w d, o))
      else Some ([], s)
  end.

Fixpoint dump_steps (es : list dump_event) (s : wg_device * option dump_ctx) : option (list dumped * (wg_device * option dump_ctx)) :=
  match es with
  | [] => Some ([], s)
  | e :: es' => '(ms, s) ← dump_step e s; '(ms', s) ← dump_steps es' s; Some (ms ++ ms', s)
  end.

End Interleave.

(** ** What the dump keeps *)

(** The node that is kept belongs to the peer after the cursor, unless the
    table has changed or the cursor is gone. *)
Definition ctx_ok (w : world) (ctx : dump_ctx) : Prop :=
  0 <= allowedips_seq ctx <= seq (peer_allowedips w) /\
  forall a, next_allowedip ctx = Some a -> 1 <= allowedips_seq ctx /\
    (allowedips_seq ctx = seq (peer_allowedips w) ->
     (exists p, next_peer ctx = Some p /\ p ∉ peer_list w) \/
     exists ds q ps, peer_list w = ds ++ q :: ps /\ last ds = next_peer ctx /\ a ∈ plist (peer_allowedips w) q).

(** Neighbours that both stay are still neighbours. *)
Lemma sublist_neighbours (k ds : list Z) q ps : NoDup (ds ++ q :: ps) -> k `sublist_of` ds ++ q :: ps -> q ∈ k ->
  (forall p, last ds = Some p -> p ∈ k) -> exists k1 k2, k = k1 ++ q :: k2 /\ last k1 = last ds.
Proof.
  intros Hnd Hk Hq Hlast. apply sublist_app_r in Hk as (ka & kb & -> & Hka & Hkb). apply NoDup_app in Hnd as (Hn1 & Hn2 & Hn3%NoDup_cons). destruct Hn3 as [Hq3 Hn3].
  assert (q ∉ ka) as Hqa by (intros H; apply (Hn2 q); [by eapply elem_of_sublist|left]). apply elem_of_app in Hq as [?|Hq]; [done|].
  assert (exists k2, kb = q :: k2) as [k2 ->].
  { apply sublist_cons_r in Hkb as [Hkb|(k2 & -> & _)]; [|eauto]. destruct Hq3. by eapply elem_of_sublist. }
  exists ka, k2. split; [done|]. destruct (last ds) as [p|] eqn:E.
  - apply last_split in E as [ds' ->]. specialize (Hlast p eq_refl). apply elem_of_app in Hlast as [Hp|Hp].
    + apply sublist_app_r in Hka as (k3 & k4 & -> & Hk3 & Hk4). assert (p ∉ k3) as Hp3.
      { intros H. apply NoDup_app in Hn1 as (_ & Hd & _). apply (Hd p); [by eapply elem_of_sublist|left]. }
      apply elem_of_app in Hp as [?|Hp]; [done|]. apply sublist_cons_r in Hk4 as [Hk4|(k5 & -> & Hk5)].
      * apply sublist_nil_r in Hk4 as ->. set_solver.
      * apply sublist_nil_r in Hk5 as ->. apply last_snoc.
    + exfalso. apply (Hn2 p); [set_solver|]. by eapply elem_of_sublist.
  - apply last_None in E as ->. by apply sublist_nil_r in Hka as ->.
Qed.

(** It stays so while requests change the device. *)
Lemma ctx_ok_evolves n w w' ctx : evolves (cursor_refs (next_peer ctx)) n w w' -> placed w (cursor_refs (next_peer ctx)) -> seq (peer_allowedips w) + n < 2 ^ 64 -> ctx_ok w ctx -> ctx_ok w' ctx.
Proof.
  intros (Hn & Hs & Hp) Hpl Hb [Hseq Hna]. specialize (Hs ltac:(lia) Hb). destruct (Hp Hpl) as (Hpl' & keep & new & Hl & Hk & Hh & Hz). split; [lia|].
  intros a Ha. destruct (Hna a Ha) as [H1 Heq]. split; [done|]. intros He. assert (n = 0) as -> by lia. rewrite Z.add_0_r in Hs. destruct Heq as [(p & Hp' & Hnp)|(ds & q & ps & Hq & Hlast & Hin)]; [congruence|..].
  - left. exists p. split; [done|]. rewrite Hl. intros [H|H]%elem_of_app; [by apply Hnp; eapply elem_of_sublist|]. apply (Hh p); [|done]. rewrite Hp'. cbn [cursor_refs]. multiset_solver.
  - destruct (Hz eq_refl q) as [Hqk Hqp]; [rewrite Hq; set_solver|intros E; rewrite E in Hin; inversion Hin|].
    assert ((exists p, next_peer ctx = Some p /\ p ∉ peer_list w') \/ forall p, next_peer ctx = Some p -> p ∈ keep) as [?|Hkeep]; [|by left|].
    { destruct (next_peer ctx) as [p|]; [|by right]. destruct (decide (p ∈ keep)); [right; by intros ? [= <-]|]. left. exists p. split; [done|]. rewrite Hl. rewrite not_elem_of_app. split; [done|].
      apply Hh. cbn [cursor_refs]. multiset_solver. }
    right. destruct Hpl as [Hnd _]. rewrite Hq in Hnd, Hk. destruct (sublist_neighbours keep ds q ps Hnd Hk Hqk) as (k1 & k2 & -> & Hk1); [intros p Hp'; apply Hkeep; congruence|].
    exists k1, q, (k2 ++ new). rewrite Hl, <- app_assoc. ands; [done|congruence|congruence].
Qed.

(** ** One call *)

Section Call.

Context (siphash : list Z -> Z) (handshake_entry : Z -> Z) `{!Inj (=) (=) handshake_entry}.
Context (hdr_size : Z) (attr_size : Z -> value -> Z) (nest_size : Z).
Context `{K : Kstrto} (in4_pton in6_pton : list Z -> option (list Z)) (ifindex : Z) (ifname : list Z).
#[local] Notation get_peer := (get_peer attr_size nest_size in4_pton in6_pton).
#[local] Notation get_peers := (get_peers attr_size nest_size in4_pton in6_pton).
#[local] Notation net_ok := (net_ok siphash handshake_entry).

(** No prefix of length 0 for made-up addresses of version 4, and errors are errors. *)
Definition bogus_safe (b : bogus) : Prop :=
  match bogus_prefixes in4_pton in6_pton b with
  | Ok (Some (p4, _)) => p4.2 <> 0
  | Ok None => True
  | Err e => e <> 0
  end.

Lemma peer_head_some b pre first x : bogus_safe b -> bogus_prefixes in4_pton in6_pton b = Ok pre -> is_Some (peer_head b pre first x).
Proof.
  intros Hs Hb. unfold peer_head. destruct first; [|done]. destruct (ps_endpoint (pc_sock (wp_conf x))) as [|port addr s i|port flow addr sc s]; cbn; [done| |done].
  destruct pre as [[p4 p6]|]; [|done]. unfold generate_ipv4_address_with_prefix. unfold bogus_safe in Hs. rewrite Hb in Hs. by rewrite (proj2 (Z.eqb_neq _ _) Hs).
Qed.

(** The nodes of a peer are there. *)
Definition nodes_there (w : world) (p : Z) : Prop :=
  Forall (fun a => is_Some (nd ← heap (peer_allowedips w) !! a; wg_allowedips_read_node nd)) (plist (peer_allowedips w) p) /\ NoDup (plist (peer_allowedips w) p).

Lemma listed_nodes w h p : net_ok w h -> nodes_there w p.
Proof.
  intros Hok. destruct Hok as [[_ Hc] _]. destruct (c_ips _ _ _ _ _ Hc) as (m & Hh & _). cbn in Hh. split.
  - apply Forall_forall. intros a Ha. destruct (allowedips_read_node_prefix _ m p a Hh Ha) as (nd & v & ip & c & Hnd & Hr & _). rewrite Hnd. cbn. by rewrite Hr.
  - destruct Hh as (tr & Hi & _). apply (inv_list_nodup _ _ Hi).
Qed.

Lemma put_ips_total t l : Forall (fun a => is_Some (nd ← heap t !! a; wg_allowedips_read_node nd)) l -> forall m,
  exists stop m', put_ips attr_size nest_size t l m = Some (stop, m') /\ forall a, stop = Some a -> a ∈ l.
Proof.
  induction 1 as [|a l [[[fam ip] c] Ha] Hl IH]; intros m; cbn [put_ips]; [by eexists _, _|]. destruct (heap t !! a) as [nd|]; [|done]. cbn [mbind option_bind] in *. rewrite Ha. cbn [mbind option_bind].
  destruct (get_allowedips attr_size nest_size m ip c fam) as [ret m1]. destruct (ret =? 0).
  - destruct (IH m1) as (stop & m' & -> & Hs). eexists _, _. split; [reflexivity|]. intros b Hb. right. auto.
  - eexists _, _. split; [reflexivity|]. intros b [= <-]. left.
Qed.

(** What one peer does to the context: the peer is complete, or the node kept
    is on its list, or what is kept is as before. *)
Definition peer_safe (w : world) (p : Z) (ctx : dump_ctx) (ret : Z) (ctx' : dump_ctx) : Prop :=
  next_peer ctx' = next_peer ctx /\ prev_seq ctx' = prev_seq ctx /\
  ((next_allowedip ctx' = None /\ (allowedips_seq ctx' = 0 \/ allowedips_seq ctx' = allowedips_seq ctx \/ allowedips_seq ctx' = seq (peer_allowedips w))) \/
   (ret <> 0 /\ exists a, next_allowedip ctx' = Some a /\ allowedips_seq ctx' = seq (peer_allowedips w) /\ allowedips_seq ctx' <> 0 /\ a ∈ plist (peer_allowedips w) p) \/
   (ret <> 0 /\ next_allowedip ctx' = next_allowedip ctx /\ allowedips_seq ctx' = allowedips_seq ctx)) /\
  (ret = 0 -> next_allowedip ctx' = None).

Lemma entry_from_some a l : a ∈ l -> exists l', entry_from a l = Some l' /\ forall b, b ∈ l' -> b ∈ l.
Proof.
  induction l as [|b l IH]; [by intros ?%not_elem_of_nil|]. cbn. destruct (Z.eqb_spec a b) as [->|Hne]; [eauto|]. intros [?|H]%elem_of_cons; [done|].
  destruct (IH H) as (l' & -> & Hl). exists l'. split; [done|]. intros c Hc. right. auto.
Qed.

Lemma get_peer_ips_safe w p n node m ctx : nodes_there w p -> 1 <= seq (peer_allowedips w) ->
  (node = None -> next_allowedip ctx = None) -> (forall a, next_allowedip ctx = Some a -> 1 <= allowedips_seq ctx) ->
  (forall a, node = Some a -> allowedips_seq ctx = 0 \/ allowedips_seq ctx = seq (peer_allowedips w) -> a ∈ plist (peer_allowedips w) p) ->
  exists ret m' ctx', get_peer_ips attr_size nest_size (peer_allowedips w) p n node m ctx = Some (ret, m', ctx') /\ peer_safe w p ctx ret ctx'.
Proof.
  intros [Hnodes _] Hseq Hnone Hpos Hin. set (t := peer_allowedips w) in *. unfold get_peer_ips.
  assert (peer_safe w p ctx 0 (set_next_allowedip None 0 ctx)) as Hdone by (unfold peer_safe; ands; try done; left; auto).
  destruct node as [a|]; [|eexists _, _, _; split; [reflexivity|done]].
  destruct (negb (allowedips_seq ctx =? 0) && negb (allowedips_seq ctx =? seq t)) eqn:Es; [eexists _, _, _; split; [reflexivity|done]|].
  assert (allowedips_seq ctx = 0 \/ allowedips_seq ctx = seq t) as Hs by (apply andb_false_iff in Es as [Es|Es]; apply negb_false_iff, Z.eqb_eq in Es; auto).
  set (ctx1 := if allowedips_seq ctx =? 0 then _ else ctx).
  assert (allowedips_seq ctx1 = seq t /\ next_allowedip ctx1 = next_allowedip ctx /\ next_peer ctx1 = next_peer ctx /\ prev_seq ctx1 = prev_seq ctx) as (Hc1 & Hc2 & Hc3 & Hc4).
  { unfold ctx1. destruct (Z.eqb_spec (allowedips_seq ctx) 0); [done|]. destruct Hs; [done|]. done. }
  destruct (nla_nest_start _ _ m) as [[n1 m1]|].
  2:{ eexists _, _, _. split; [reflexivity|]. unfold peer_safe. ands; try done. destruct (next_allowedip ctx) as [b|] eqn:En; [|left; auto]. right. right. ands; [done|done|].
      specialize (Hpos b eq_refl). destruct Hs; [lia|congruence]. }
  destruct (entry_from_some a (plist t p) (Hin a eq_refl Hs)) as (l & -> & Hl). cbn [mbind option_bind].
  destruct (put_ips_total t l ltac:(rewrite Forall_forall in Hnodes; apply Forall_forall; auto) m1) as (stop & m2 & -> & Hstop). cbn [mbind option_bind].
  destruct stop as [b|]; eexists _, _, _; (split; [reflexivity|]); unfold peer_safe; cbn [next_peer prev_seq next_allowedip allowedips_seq set_next_allowedip].
  - ands; try done. right. left. split; [done|]. exists b. ands; [done|done|lia|auto].
  - ands; try done. left. auto.
Qed.

Lemma get_peer_safe w b p x m ctx : mem w !! p = Some x -> nodes_there w p -> bogus_safe b -> 1 <= seq (peer_allowedips w) ->
  (forall a, next_allowedip ctx = Some a -> 1 <= allowedips_seq ctx /\ (allowedips_seq ctx = seq (peer_allowedips w) -> a ∈ plist (peer_allowedips w) p)) ->
  exists ret m' ctx', get_peer w b p m ctx = Some (ret, m', ctx') /\ peer_safe w p ctx ret ctx'.
Proof.
  intros Hx Hnodes Hb Hseq Hna. unfold Dump.get_peer. rewrite Hx. cbn [mbind option_bind].
  assert (forall ret, ret <> 0 -> peer_safe w p ctx ret ctx) as Hstay by (intros ret Hr; unfold peer_safe; ands; try done; right; by right).
  destruct (nla_nest_start _ _ m) as [[n m1]|]; [|eexists _, _, _; split; [reflexivity|by apply Hstay]].
  destruct (bogus_prefixes in4_pton in6_pton b) as [pre|e] eqn:Eb.
  2:{ eexists _, _, _. split; [reflexivity|]. apply Hstay. unfold bogus_safe in Hb. by rewrite Eb in Hb. }
  destruct (peer_head_some b pre (bool_decide (next_allowedip ctx = None)) x Hb Eb) as [l ->]. cbn [mbind option_bind].
  destruct (put_all attr_size l m1) as [m2|]; [|eexists _, _, _; split; [reflexivity|by apply Hstay]].
  apply get_peer_ips_safe; try done.
  - case_bool_decide; [done|]. intros ->. done.
  - intros a Ha. by apply (Hna a).
  - intros a Ha Hs. case_bool_decide as D; [apply head_Some_elem_of in Ha; done|]. destruct (Hna a Ha) as [H1 H2]. apply H2. lia.
Qed.

(** The node that is kept belongs to the next peer. *)
Definition next_owns (w : world) (ps : list Z) (ctx : dump_ctx) : Prop :=
  forall a, next_allowedip ctx = Some a -> 1 <= allowedips_seq ctx /\
    (allowedips_seq ctx = seq (peer_allowedips w) -> forall q ps', ps = q :: ps' -> a ∈ plist (peer_allowedips w) q).

Lemma get_peers_safe w h env : net_ok w h -> (forall p, bogus_safe (env p)) -> 1 <= seq (peer_allowedips w) ->
  forall ps ds ctx m, peer_list w = ds ++ ps -> 0 <= allowedips_seq ctx <= seq (peer_allowedips w) -> next_owns w ps ctx ->
  exists done m' ctx' cursor, get_peers w env ps m ctx (last ds) = Some (done, m', ctx', cursor) /\ next_peer ctx' = next_peer ctx /\
    (forall p, cursor = Some p -> p ∈ peer_list w) /\ (done = false -> ctx_ok w (set_next_peer cursor ctx')).
Proof.
  intros Hok Henv Hseq. induction ps as [|p ps IH]; intros ds ctx m Hl Hs Ho; cbn [Dump.get_peers].
  { exists true, m, ctx, (last ds). ands; try done. intros p [ds' ->]%last_split. rewrite Hl. set_solver. }
  assert (p ∈ peer_list w) as Hp by (rewrite Hl; set_solver). destruct (listed_mem _ _ w h p Hok Hp) as (x & Hx & _).
  destruct (get_peer_safe w (env p) p x m ctx Hx (listed_nodes w h p Hok) (Henv p) Hseq) as (ret & m1 & ctx1 & Hrun & Hnp & Hps & Hcase & Hret0).
  { intros a Ha. destruct (Ho a Ha) as [H1 H2]. split; [done|]. intros E. by apply (H2 E p ps). }
  rewrite Hrun. cbn [mbind option_bind]. destruct (Z.eqb_spec ret 0) as [->|Hret]; cbn [negb].
  - destruct (IH (ds ++ [p]) ctx1 m1) as (done & m' & ctx' & cursor & Hrun' & Hnp' & Hc & Hok').
    + by rewrite <- app_assoc.
    + destruct Hcase as [(_ & [->|[->| ->]])|[(? & _)|(? & _)]]; done || lia.
    + intros a Ha. rewrite (Hret0 eq_refl) in Ha. done.
    + rewrite last_snoc in Hrun'. exists done, m', ctx', cursor. ands; try done. congruence.
  - exists false, m1, ctx1, (last ds). split; [done|]. split; [done|]. split; [intros q [ds' ->]%last_split; rewrite Hl; set_solver|]. intros _. unfold ctx_ok. cbn [next_peer allowedips_seq next_allowedip set_next_peer].
    destruct Hcase as [(Hn & Hcs)|[(_ & a & Ha & Hs1 & Hs0 & Hin)|(_ & Hn & Hs1)]].
    + split; [destruct Hcs as [->|[->| ->]]; lia|]. intros a Ha. congruence.
    + split; [lia|]. intros b Hb. split; [lia|]. intros _. right. exists ds, p, ps. ands; try done. congruence.
    + split; [lia|]. rewrite Hn. intros a Ha. destruct (Ho a Ha) as [H1 H2]. split; [lia|]. intros E. right. exists ds, p, ps. ands; try done. apply (H2 ltac:(congruence) p ps). done.
Qed.

Lemma ctx_next_owns w h ctx ds ps : net_ok w h -> peer_list w = ds ++ ps -> next_peer ctx = last ds -> ctx_ok w ctx -> next_owns w ps ctx.
Proof.
  intros [[_ Hc] _] Hl Hn [_ Hna] a Ha. destruct (Hna a Ha) as [H1 H2]. split; [done|]. intros E q ps' ->. pose proof (c_nodup _ _ _ _ _ Hc) as Hnd. cbn in Hnd. rewrite app_nil_r in Hnd.
  destruct (H2 E) as [(p & Hp & Hno)|(ds' & q' & ps'' & Hl' & Hlast & Hin)].
  - rewrite Hn in Hp. apply last_split in Hp as [ds' ->]. destruct Hno. rewrite Hl. set_solver.
  - pose proof (peers_after_ok w Hnd _ _ Hl) as P1. pose proof (peers_after_ok w Hnd _ _ Hl') as P2. rewrite Hlast, Hn, P1 in P2. injection P2 as -> _. done.
Qed.

(** One call: it returns, and what it keeps can be used by the next. *)
#[local] Notation wg_get_device_dump := (wg_get_device_dump handshake_entry hdr_size attr_size nest_size in4_pton in6_pton ifindex ifname).

Lemma dump_body_safe d h env m ctx : net_ok (wd_world d) (cursor_refs (next_peer ctx) ⊎ h) -> (forall p, bogus_safe (env p)) -> 1 <= seq (peer_allowedips (wd_world d)) ->
  ctx_ok (wd_world d) ctx -> nest_size <= room m ->
  match dump_body attr_size nest_size in4_pton in6_pton ifindex ifname d env m ctx with
  | None => False
  | Some None => next_peer ctx = None
  | Some (Some (done, m', ctx', cursor)) => next_peer ctx' = next_peer ctx /\ (done = false -> (forall p, cursor = Some p -> p ∈ peer_list (wd_world d)) /\ ctx_ok (wd_world d) (set_next_peer cursor ctx'))
  end.
Proof.
  intros Hok Henv Hseq Hctx Hroom. set (w := wd_world d) in *. unfold dump_body. fold w.
  assert (exists o, match next_peer ctx with None => put_all attr_size (device_head ifindex ifname d) m | Some _ => Some m end = o /\ match o with Some m1 => next_peer ctx = None \/ m1 = m | None => next_peer ctx = None end)
    as (o & -> & Ho). { destruct (next_peer ctx); [by eexists; split; [reflexivity|]; right|]. eexists. split; [reflexivity|]. destruct (put_all _ _ _); auto. }
  destruct o as [m1|]; [|done]. pose proof (nest_start_ok nest_size WGDEVICE_A_PEERS m1) as Hn. destruct (nla_nest_start nest_size WGDEVICE_A_PEERS m1) as [[n m2]|].
  2:{ destruct Ho as [Ho| ->]; [done|lia]. }
  destruct (match peer_list w with [] => Some true | _ :: _ => match next_peer ctx with None => Some false | Some p => wp_is_dead <$> mem w !! p end end) as [gone|] eqn:Eg.
  2:{ destruct (peer_list w); [done|]. destruct (next_peer ctx) as [p|] eqn:En; [|done]. destruct Hok as [[Hr _] _]. cbn [dev] in Hr.
      destruct (ref_pos _ _ _ p Hr) as (x & Hx & _); [apply (refs_held handshake_entry); cbn [held cursor_refs]; multiset_solver|]. by rewrite Hx in Eg. }
  cbn [mbind option_bind]. destruct gone; [by split|].
  assert (exists ds ps, peer_list w = ds ++ ps /\ next_peer ctx = last ds) as (ds & ps & Hl & Hlast).
  { destruct (next_peer ctx) as [p|]; [|by exists [], (peer_list w)]. assert (p ∈ peer_list w) as Hp.
    { destruct (peer_list w) as [|p0 l0] eqn:E0; [done|]. destruct Hok as [[_ Hc] _]. pose proof (c_live _ _ _ _ _ Hc p) as Hlive. cbn [dev] in Hlive. fold w in Hlive. rewrite E0 in Hlive. by apply Hlive. }
    apply list_elem_of_split in Hp as (l1 & l2 & ->). exists (l1 ++ [p]), l2. rewrite <- app_assoc, last_snoc. done. }
  pose proof Hok as [[_ Hc] _]. pose proof (c_nodup _ _ _ _ _ Hc) as Hnd. cbn in Hnd. rewrite app_nil_r in Hnd. rewrite Hlast, (peers_after_ok w Hnd ds ps Hl). cbn [mbind option_bind].
  destruct (get_peers_safe w _ env Hok Henv Hseq ps ds ctx m2 Hl) as (done & m' & ctx' & cursor & -> & Hnp & Hcur & Hok'); [apply Hctx|by eapply ctx_next_owns|].
  cbn [mbind option_bind]. split; [congruence|]. auto.
Qed.

Lemma ctx_ok_alike w w' ctx : alike w w' -> ctx_ok w ctx -> ctx_ok w' ctx.
Proof. intros (_ & Hl & Ht). unfold ctx_ok. by rewrite Hl, Ht. Qed.

(** A message of the dump is sent or the dump is over. *)
Lemma dump_call_safe d c cap env ctx : dev_ok siphash handshake_entry d (cursor_refs (next_peer ctx)) c -> 1 <= seq (peer_allowedips (wd_world d)) -> ctx_ok (wd_world d) ctx ->
  0 <= nest_size -> hdr_size + nest_size <= cap -> (forall p, bogus_safe (env p)) ->
  exists ret m ctx' w', wg_get_device_dump d cap env ctx = Some (ret, m, ctx', set_world w' d) /\ alike (wd_world d) w' /\
    dev_ok siphash handshake_entry (set_world w' d) (cursor_refs (next_peer ctx')) c /\ (0 < ret -> ctx_ok w' ctx').
Proof.
  intros (Hok & Hrep & Hown) Hseq Hctx Hnest Hcap Henv. set (w := wd_world d) in *. unfold Dump.wg_get_device_dump, genlmsg_put. fold w. destruct (Z.ltb_spec cap hdr_size); [lia|].
  set (ctx0 := set_prev_seq (wd_gen d) ctx). assert (ctx_ok w ctx0) as Hctx0 by exact Hctx.
  assert (net_ok w (cursor_refs (next_peer ctx0) ⊎ ∅)) as Hok0 by (change (next_peer ctx0) with (next_peer ctx); by rewrite (right_id_L ∅ _)).
  pose proof (dump_body_safe d ∅ env (Msg (cap - hdr_size) [] []) ctx0 Hok0 Henv Hseq Hctx0 ltac:(cbn [room]; lia)) as Hbody. fold w in Hbody.
  destruct (dump_body _ _ _ _ _ _ d env _ ctx0) as [[[[[fin m'] ctx'] cursor]|]|]; [| |done].
  - destruct Hbody as [Hnp Hres]. destruct (move_cursor siphash handshake_entry w ∅ c (next_peer ctx0) (if fin then None else cursor) Hok0 Hrep) as (w1 & w' & Hget & Hput & Hok' & Hrep' & Ha).
    { intros p Hp. destruct fin; [done|]. by apply (Hres eq_refl). }
    assert (match cursor with Some p => if fin then Some w else wg_peer_get w p | None => Some w end = Some w1) as -> by (destruct fin, cursor; done).
    cbn [mbind option_bind]. rewrite Hnp, Hput. cbn [mbind option_bind]. eexists _, _, _, w'. split; [reflexivity|]. split; [done|].
    cbn [next_peer set_next_peer]. rewrite (right_id_L ∅ _) in Hok'. split; [done|]. intros Hret. destruct fin; [lia|]. apply (ctx_ok_alike w); [done|]. by apply Hres.
  - unfold dump_fail. fold w. change (next_peer ctx0) with (next_peer ctx) in *. rewrite Hbody in *. cbn [wg_peer_put mbind option_bind]. eexists _, _, _, w. split; [reflexivity|]. split; [done|].
    change (next_peer ctx0) with (next_peer ctx). rewrite Hbody. split; [done|]. intros Hret. unfold EMSGSIZE in Hret. lia.
Qed.

End Call.

(** ** Runs *)

(** How often events may change the table of allowed addresses. *)
Definition event_weight (e : dump_event) : Z := match e with EvSet _ a => request_weight a | _ => 0 end.
Fixpoint weight_of (es : list dump_event) : Z := match es with [] => 0 | e :: es' => event_weight e + weight_of es' end.

Lemma event_weight_pos e : 0 <= event_weight e.
Proof. destruct e; cbn; [done| |done]. unfold request_weight. destruct (da_peers a) as [l|]; [pose proof (peers_weight_pos l)|]; unfold MAX_PEERS_PER_DEVICE; lia. Qed.
Lemma weight_of_pos es : 0 <= weight_of es.
Proof. induction es as [|e es IH]; cbn; [done|]. pose proof (event_weight_pos e). lia. Qed.

Section Run.

Context (siphash : list Z -> Z) (handshake_entry : Z -> Z) `{!Inj (=) (=) handshake_entry}.
Context (hdr_size : Z) (attr_size : Z -> value -> Z) (nest_size : Z).
Context `{K : Kstrto} `{NC : NoiseCrypto} (ipv6 : bool) (in4_pton in6_pton : list Z -> option (list Z)) (ifindex : Z) (ifname : list Z).
Hypothesis nest_pos : 0 <= nest_size.
#[local] Notation step := (dump_step siphash handshake_entry hdr_size attr_size nest_size ipv6 in4_pton in6_pton ifindex ifname).
#[local] Notation net_ok := (net_ok siphash handshake_entry).
#[local] Notation dev_ok := (dev_ok siphash handshake_entry).

Definition cursor_of (o : option dump_ctx) : gmultiset Z := cursor_refs (o ≫= next_peer).

(** The table has changed at most [b] times. *)
Definition run_ok (b : Z) (s : wg_device * option dump_ctx) : Prop :=
  (exists c, dev_ok s.1 (cursor_of s.2) c) /\ 1 <= seq (peer_allowedips (wd_world s.1)) <= b /\ match s.2 with Some ctx => ctx_ok (wd_world s.1) ctx | None => True end.

Definition event_ok (e : dump_event) : Prop :=
  match e with
  | EvCall cap env => hdr_size + nest_size <= cap /\ forall p, bogus_safe in4_pton in6_pton (env p)
  | EvSet _ a => device_attrs_ok handshake_entry a
  | EvFree _ => True
  end.

Lemma net_ok_placed w h : net_ok w h -> placed w h.
Proof.
  intros Hok. pose proof Hok as [[Hr Hc] _]. split; [pose proof (c_nodup _ _ _ _ _ Hc) as Hn; cbn in Hn; by rewrite app_nil_r in Hn|]. split.
  - intros p Hp. destruct (listed_mem _ _ w h p Hok Hp) as (x & Hx & _). by rewrite Hx.
  - intros p Hp. destruct (ref_pos _ _ _ p Hr) as (x & Hx & _); [by apply (refs_held handshake_entry)|]. cbn [dev] in Hx. by rewrite Hx.
Qed.

Lemma reps_delete w p c : p ∉ peer_list w -> reps w c -> forall q, reps (set_rcu q (set_mem (delete p (mem w)) w)) c.
Proof.
  intros Hp [Hr (m & Hm & Hi1 & Hi2)] q. split; cbn.
  - intros k cf. rewrite Hr. split; intros (p' & x & H1 & H2 & H3); exists p', x; (split; [done|]); (split; [|done]); destruct (decide (p = p')) as [->|Hne]; try done;
      [by rewrite lookup_delete_ne|by rewrite lookup_delete_ne in H2].
  - exists m. split; [done|]. split; [done|]. intros v x. rewrite Hi2. destruct (m v !! x) as [p'|] eqn:E; [|done]. cbn. apply Hi1 in E. unfold key_at. cbn. rewrite lookup_delete_ne; [done|]. by intros ->.
Qed.

Lemma free_safe d h c p : dev_ok d h c -> p ∈ (rcu_queue (wd_world d)).*1 ->
  exists w', rcu_release p (wd_world d) = Some w' /\ dev_ok (set_world w' d) h c /\ peer_list w' = peer_list (wd_world d) /\ peer_allowedips w' = peer_allowedips (wd_world d).
Proof.
  intros (Hok & Hrep & Hown) Hp. pose proof Hok as [[Hr Hc] Hrd]. cbn [dev] in Hr. pose proof Hp as Hp0. apply (r_rcu _ _ _ Hr) in Hp0. apply list_elem_of_fmap in Hp as ([p' ws] & -> & Hp). cbn [fst] in *.
  assert (ws = ∅) as ->. { pose proof (r_ws _ _ _ Hr p' ws Hp) as Hws. rewrite Hrd, dom_empty_L in Hws. set_solver. }
  destruct (ev_release_ok siphash handshake_entry (Life (wd_world d) h false [] ∅) p' ∅ (proj1 Hok) Hp eq_refl) as (s' & Hex & Hok' & _ & _ & _ & Hs' & Hrd'). cbn in Hex.
  assert (p' ∉ peer_list (wd_world d)) as Hno.
  { intros Hin. destruct (listed_mem _ _ _ _ _ Hok Hin) as (x & Hx & _ & Hn). unfold ref_at in Hp0. rewrite Hx in Hp0. cbn in Hp0. injection Hp0 as H0. lia. }
  unfold rcu_release in *. destruct (mem (wd_world d) !! p') as [x|] eqn:Ex; [|done]. cbn in Hex. injection Hex as <-. eexists. split; [reflexivity|]. split; [|done].
  split; [split; [exact Hok'|exact Hrd]|]. split; [|done]. by apply reps_delete.
Qed.

(** One step of an interleaving. *)
Lemma step_safe b e s : run_ok b s -> event_ok e -> b + event_weight e < 2 ^ 64 ->
  (step e s = None /\ exists denv a, e = EvSet denv a /\ overruns denv) \/ exists ms s', step e s = Some (ms, s') /\ run_ok (b + event_weight e) s'.
Proof.
  destruct s as [d o]. intros ([c Hd] & Hseq & Hctx) He Hb. cbn [fst snd] in *. destruct e as [cap env|denv a|p]; cbn [event_ok event_weight] in *.
  - right. rewrite Z.add_0_r. cbn [dump_step]. destruct o as [ctx|]; [|eexists _, _; split; [reflexivity|]; split; [by exists c|done]].
    destruct He as [Hcap Henv]. destruct (dump_call_safe siphash handshake_entry hdr_size attr_size nest_size in4_pton in6_pton ifindex ifname d c cap env ctx Hd ltac:(lia) Hctx nest_pos Hcap Henv)
      as (ret & m & ctx' & w' & -> & Ha & Hd' & Hres). cbn [mbind option_bind]. pose proof Ha as (_ & Hl & Ht).
    destruct (Z.ltb_spec 0 ret).
    + eexists _, _. split; [reflexivity|]. split; [by exists c|]. cbn. rewrite Ht. auto.
    + unfold wg_get_device_done. destruct Hd' as (Hok' & Hrep' & Hown'). cbn [wd_world set_world] in *.
      assert (exists w2, wg_peer_put handshake_entry w' (next_peer ctx') = Some w2 /\ net_ok w2 ∅ /\ reps w2 c /\ peer_list w2 = peer_list w' /\ peer_allowedips w2 = peer_allowedips w')
        as (w2 & -> & Hok2 & Hrep2 & Hl2 & Ht2).
      { destruct (next_peer ctx') as [p|]; [|by exists w']. cbn [cursor_refs] in Hok'. rewrite <- (right_id_L ∅ (⊎) {[+ p +]}) in Hok'.
        destruct (net_put_ok _ _ w' ∅ p c Hok' Hrep') as (w2 & Hput & H1 & H2 & H3 & _). pose proof (put_effect _ _ _ _ Hput) as (Ht2 & _). exists w2. ands; done. }
      cbn [mbind option_bind]. eexists _, _. split; [reflexivity|]. split; [by exists c|]. cbn. rewrite Ht2, Ht. done.
  - destruct (wg_set_device_ok siphash handshake_entry ipv6 d denv a (cursor_of o) c Hd He) as [[Hn Ho]|(r & d' & calls & c' & Hset & Hd' & _)].
    { left. cbn [dump_step]. rewrite Hn. split; [done|]. by exists denv, a. }
    right. cbn [dump_step]. rewrite Hset. cbn [mbind option_bind]. eexists _, _. split; [reflexivity|]. destruct (wg_set_device_grows siphash handshake_entry ipv6 (cursor_of o) d denv a r d' calls c Hd He Hset) as (n & Hn & Hev).
    split; [by exists c'|]. pose proof Hev as (Hn0 & Hs & _). cbn [fst snd]. rewrite Hs by lia. split; [lia|]. destruct o as [ctx|]; [|done].
    eapply ctx_ok_evolves; [exact Hev|by apply net_ok_placed; apply Hd|lia|done].
  - right. rewrite Z.add_0_r. cbn [dump_step]. case_bool_decide as Hp; [|eexists _, _; split; [reflexivity|]; split; [by exists c|done]].
    destruct (free_safe d (cursor_of o) c p Hd Hp) as (w' & -> & Hd' & Hl & Ht). cbn [mbind option_bind]. eexists _, _. split; [reflexivity|]. split; [by exists c|]. cbn [fst snd wd_world set_world]. rewrite Ht. split; [done|].
    destruct o as [ctx|]; [|done]. unfold ctx_ok in *. by rewrite Hl, Ht.
Qed.

Lemma steps_safe es : forall b s, run_ok b s -> Forall event_ok es -> b + weight_of es < 2 ^ 64 ->
  match dump_steps siphash handshake_entry hdr_size attr_size nest_size ipv6 in4_pton in6_pton ifindex ifname es s with
  | None => exists denv a, EvSet denv a ∈ es /\ overruns denv
  | Some (_, s') => run_ok (b + weight_of es) s'
  end.
Proof.
  induction es as [|e es IH]; intros b s Hs He Hb; cbn [dump_steps]; [by rewrite Z.add_0_r|]. apply Forall_cons in He as [He Hes]. cbn [weight_of] in *. pose proof (weight_of_pos es) as Hw.
  destruct (step_safe b e s Hs He ltac:(lia)) as [(-> & denv & a & -> & Ho)|(ms & s' & -> & Hs')]; cbn [mbind option_bind]; [exists denv, a; split; [left|done]|].
  specialize (IH _ s' Hs' Hes ltac:(lia)). destruct (dump_steps _ _ _ _ _ _ _ _ _ _ es s') as [[ms' s'']|]; cbn [mbind option_bind].
  - replace (b + (event_weight e + weight_of es)) with (b + event_weight e + weight_of es) by lia. done.
  - destruct IH as (denv & a & Hin & Ho). exists denv, a. split; [by right|done].
Qed.

End Run.


(** A first message with room for the first of two peers only; then all peers
    are removed, and the memory of those that are not referenced is released,
    and the dump is called again with its cursor on a removed peer. *)
Definition second_env : peer_env := PeerEnv (fun w => if bool_decide (dom (mem w) ⊆ ({[2]} : gset Z) /\ map_Forall (fun _ x => example_entry 4 ∉ wp_keypairs x) (mem w)) then Some 4 else None) true.
Definition second_peer : peer_attrs := PeerAttrs (Some (replicate 32 8)) None None None None None None false.
Definition second_request : device_attrs := DeviceAttrs None None None no_attrs None (Some [inr (second_peer, second_env)]).
Definition example_removal : device_attrs := DeviceAttrs (Some WGDEVICE_F_REPLACE_PEERS) None None no_attrs None None.
Definition example_events : list dump_event :=
  [EvSet example_denv example_request; EvSet example_denv second_request; EvCall 620 (fun _ => no_bogus);
   EvSet example_denv example_removal; EvFree 2; EvFree 4; EvCall 620 (fun _ => no_bogus); EvFree 2].
Definition example_steps (es : list dump_event) : option (list dumped * (wg_device * option dump_ctx)) :=
  dump_steps (K := KstrtoRef.ops) (NC := example_crypto) example_hash example_entry 20 (fun _ => example_size) 4 true (fun _ => None) (fun _ => None) 1 [119; 103; 48] es (new_device [], Some start_ctx).

Lemma second_env_fresh : fresh_alloc example_entry second_env.
Proof.
  intros w a. cbn. case_bool_decide as H; [|done]. intros [= <-]. destruct H as [H1 H2]. split; [|intros p x Hp; exact (H2 p x Hp)].
  apply not_elem_of_dom. set_solver.
Qed.

Lemma example_events_ok : Forall (event_ok (K := KstrtoRef.ops) example_entry 20 4 (fun _ => None) (fun _ => None)) example_events.
Proof.
  pose proof example_request_ok as Hr. apply Forall_cons in Hr as [Hr _].
  assert (device_attrs_ok example_entry second_request) as H2 by (apply Forall_singleton; split; [done|exact second_env_fresh]).
  assert (forall p : Z, bogus_safe (K := KstrtoRef.ops) (fun _ => None) (fun _ => None) no_bogus) as Hb by (intros p; exact I).
  repeat (apply Forall_cons_2; [first [exact Hr|exact H2|exact I|split; [lia|exact Hb]]|]). apply Forall_nil_2.
Qed.

