(* ===== verification/Handshake.v ===== *)
(** * Handshake messages end to end ([src/receive.c], [src/send.c], [src/socket.c])

    How the parts come together: a device sends an initiation (with signature
    and junk packets in front and a junk prefix), the worker of the receiving
    device checks the MACs, decides whether it is under load, runs the Noise
    functions and answers.  Random numbers, clock readings and allocations
    are the environment of a call; what it asks of the socket, the timers and
    the statistics is a list of effects. *)

From S2P Require Import Prelude Words Messages MagicHeader Buffer IpBits AllowedIps Imitate Junk Ratelimiter PeerLookup Noise Keypairs Cookie Config Dispatch Wire Timers.
From stdpp Require Import gmap list fin_maps.
#[local] Open Scope Z_scope.

(** ** State *)

Record hs_device := HsDevice {
  hd_config : awg_config;
  hd_noise : noise_device;
  hd_pairs : gmap Z noise_keypair;
  hd_pair_counter : Z;
  hd_slots : gmap Z noise_keypairs;
  hd_checker : cookie_checker;
  hd_cookies : gmap Z cookie;
  hd_last_sent : gmap Z Z;
  hd_junk_counter : Z
}.

Definition set_hd_config (v : awg_config) (d : hs_device) : hs_device :=
  HsDevice v (hd_noise d) (hd_pairs d) (hd_pair_counter d) (hd_slots d) (hd_checker d) (hd_cookies d) (hd_last_sent d) (hd_junk_counter d).
Definition set_hd_noise (v : noise_device) (d : hs_device) : hs_device :=
  HsDevice (hd_config d) v (hd_pairs d) (hd_pair_counter d) (hd_slots d) (hd_checker d) (hd_cookies d) (hd_last_sent d) (hd_junk_counter d).
Definition set_hd_keys (p : Z) (ks : kstate) (d : hs_device) : hs_device :=
  HsDevice (hd_config d) (set_nd_index (ks_index ks) (hd_noise d)) (ks_pairs ks) (keypair_counter ks) (<[p := ks_slots ks]> (hd_slots d))
    (hd_checker d) (hd_cookies d) (hd_last_sent d) (hd_junk_counter d).
Definition set_hd_checker (v : cookie_checker) (d : hs_device) : hs_device :=
  HsDevice (hd_config d) (hd_noise d) (hd_pairs d) (hd_pair_counter d) (hd_slots d) v (hd_cookies d) (hd_last_sent d) (hd_junk_counter d).
Definition set_hd_cookies (v : gmap Z cookie) (d : hs_device) : hs_device :=
  HsDevice (hd_config d) (hd_noise d) (hd_pairs d) (hd_pair_counter d) (hd_slots d) (hd_checker d) v (hd_last_sent d) (hd_junk_counter d).
Definition set_hd_last_sent (p t : Z) (d : hs_device) : hs_device :=
  HsDevice (hd_config d) (hd_noise d) (hd_pairs d) (hd_pair_counter d) (hd_slots d) (hd_checker d) (hd_cookies d) (<[p := t]> (hd_last_sent d)) (hd_junk_counter d).
Definition set_hd_junk_counter (v : Z) (d : hs_device) : hs_device :=
  HsDevice (hd_config d) (hd_noise d) (hd_pairs d) (hd_pair_counter d) (hd_slots d) (hd_checker d) (hd_cookies d) (hd_last_sent d) v.

(** The keypairs of one peer, with the device's index table. *)
Definition peer_keys (p : Z) (d : hs_device) : option kstate :=
  slots ← hd_slots d !! p; Some (KState (hd_pairs d) (nd_index (hd_noise d)) (hd_pair_counter d) slots).

(** The environment of one call. *)
Record env := Env {
  e_clock : nat -> Z;              (* the readings of the coarse boot-time clock, one per place in the code *)
  e_wall : Z * Z;                  (* the wall clock: seconds and nanoseconds *)
  e_inclusive : Z -> Z -> Z;       (* [get_random_u32_inclusive] for a header *)
  e_junk_size : nat -> Z -> Z -> Z;  (* the same for the size of the [i]-th junk packet *)
  e_mods : nat -> nat -> mod_env;  (* what the modifiers of the [i]-th signature packet draw *)
  e_rnd : nat -> Z -> list Z;      (* [get_random_bytes] for the [i]-th packet sent *)
  e_skb : nat -> bool;             (* whether the [i]-th [alloc_skb] succeeds *)
  e_garbage : nat -> Z -> list Z;  (* what its memory holds *)
  e_buffer : bool;                 (* whether the junk buffer could be allocated *)
  e_secret : list Z;               (* [curve25519_generate_secret] *)
  e_nonce : list Z;                (* the nonce of a cookie reply *)
  e_cookie_secret : nat -> list Z; (* new secrets of the cookie checker *)
  e_index : list Z;                (* random indices *)
  e_pair : option Z;               (* the address of a new keypair *)
  e_alive : Z -> bool;             (* whether a reference to a peer can be taken *)
  e_dead : bool;                   (* [peer->is_dead] *)
  e_endpoint : bool * bool         (* the allocation and the validity of an unknown peer's endpoint *)
}.

(** ** Sending *)

(** [wg_socket_send_buffer_to_peer] and [wg_socket_send_buffer_as_reply_to_skb] up to the
    transmission: the datagram, or [Some None] when it could not be allocated;
    [None] is a store outside it. *)
Definition send_buffer (e : env) (i : nat) (proto : imitate_proto) (buffer : list Z) (junk_size : Z) : option (option (list Z)) :=
  if negb (e_skb e i) then Some None
  else match wg_fill_padding proto (e_rnd e i) (junk_size + len buffer) junk_size (e_garbage e i junk_size ++ buffer) with Some d => Some (Some d) | None => None end.

(** The reply goes to the source of a packet, which must be IPv4 or IPv6. *)
Definition send_reply (e : env) (skb : handshake_skb) (proto : imitate_proto) (buffer : list Z) (junk_size : Z) : option (option (list Z)) :=
  if (protocol (hk_net skb) =? ETH_P_IP) || (protocol (hk_net skb) =? ETH_P_IPV6) then send_buffer e 0 proto buffer junk_size else Some None.

Definition sent (o : option (list Z)) : list effect := match o with Some d => [Datagram d] | None => [] end.
(** The loop over the signature packets: those with a size are refreshed and
    sent, packet [i] of the call. *)
Fixpoint send_specs (e : env) (proto : imitate_proto) (i : nat) (done todo : list jp_spec) : option (list effect * list jp_spec) :=
  match todo with
  | [] => Some ([], done)
  | spec :: todo' =>
      if 0 <? spec_pkt_size spec then
        match jp_spec_applymods (e_mods e i) spec with
        | None => None
        | Some spec' =>
            match spec_pkt spec' with
            | None => None
            | Some pkt =>
                match send_buffer e i proto pkt 0 with
                | None => None
                | Some o => match send_specs e proto (S i) (done ++ [spec']) todo' with Some (ds, specs) => Some (sent o ++ ds, specs) | None => None end
                end
            end
        end
      else send_specs e proto (S i) (done ++ [spec]) todo'
  end.

(** The loop over the junk packets; [buffer] is [None] for [NULL]. *)
Fixpoint send_junk (e : env) (c : awg_config) (i n : nat) (buffer : option (list Z)) (counter : Z) : option (list effect * Z) :=
  match n with
  | O => Some ([], counter)
  | S n' =>
      let junk_packet_size := u16 (e_junk_size e i (cf_jmin c) (cf_jmax c)) in
      let '(fill, counter) := wg_fill_junk (cf_imitate_proto c) (e_rnd e i) counter junk_packet_size in
      match (match buffer with Some b => fill b | None => if junk_packet_size =? 0 then Some [] else None end) with
      | None => None
      | Some b =>
          if len b <? junk_packet_size then None
          else
            match send_buffer e i (cf_imitate_proto c) (firstn (Z.to_nat junk_packet_size) b) 0 with
            | None => None
            | Some o => match send_junk e c (S i) n' (match buffer with Some _ => Some b | None => None end) counter with
                        | Some (ds, counter) => Some (sent o ++ ds, counter)
                        | None => None
                        end
            end
      end
  end.

Section Handshake.

Context `{N : NoiseCrypto} `{C : CookieCrypto}.

(** [wg_packet_send_handshake_initiation] to peer [p]: the datagrams in the
    order they are sent, and the device.  [None] is an invalid access, or a
    search for an index that does not end with the numbers given. *)
Definition wg_packet_send_handshake_initiation (e : env) (p : Z) (d : hs_device) : option (list effect * hs_device) :=
  last ← hd_last_sent d !! p;
  np ← nd_peers (hd_noise d) !! p;
  ck ← hd_cookies d !! p;
  if negb (wg_birthdate_has_expired last REKEY_TIMEOUT (e_clock e 0)) then Some ([], d)
  else
    let d := set_hd_last_sent p (e_clock e 1) d in
    let c := hd_config d in
    '(ds1, specs) ← send_specs e (cf_imitate_proto c) 0 [] (cf_ispecs c);
    let d := set_hd_config (set_ispecs specs c) d in
    '(ds2, counter) ←
      (if negb (cf_jc c =? 0) && negb (cf_jmax c =? 0)
       then send_junk e c 5 (Z.to_nat (cf_jc c)) (if e_buffer e then Some (replicate (Z.to_nat (cf_jmax c)) 0) else None) (hd_junk_counter d)
       else Some ([], hd_junk_counter d));
    let d := set_hd_junk_counter counter d in
    let n := (5 + Z.to_nat (cf_jc c))%nat in
    '(m, hs, tbl) ← wg_noise_handshake_create_initiation (nd_identity (hd_noise d)) (np_handshake np) (mh_genheader (e_inclusive e) (header c MSGIDX_HANDSHAKE_INIT))
        (e_secret e) (e_wall e).1 (e_wall e).2 (nd_index (hd_noise d)) (np_entry np) (e_index e);
    let d := set_hd_noise (set_nd_index tbl (set_peer_hs p (NoisePeer hs (np_entry np) (np_advanced_security np)) (hd_noise d))) d in
    match m with
    | None => Some (ds1 ++ ds2, d)
    | Some m =>
        let '(packet, ck) := wg_cookie_add_mac_to_packet (initiation_bytes m) (e_clock e 2) ck in
        let d := set_hd_last_sent p (e_clock e 3) (set_hd_cookies (<[p := ck]> (hd_cookies d)) d) in
        o ← send_buffer e n (cf_imitate_proto c) packet (junk_size c MSGIDX_HANDSHAKE_INIT);
        Some (ds1 ++ ds2 ++ [TimerEvent p Traversal; TimerEvent p AnySent] ++ sent o ++ [TimerEvent p HandshakeInitiated], d)
    end.

(** [wg_noise_handshake_begin_session] on the device. *)
Definition begin_session (e : env) (p : Z) (d : hs_device) : option (bool * hs_device) :=
  np ← nd_peers (hd_noise d) !! p;
  ks ← peer_keys p d;
  '(ok, hs, ks) ← wg_noise_handshake_begin_session (np_handshake np) (np_entry np) p (e_pair e) (e_clock e 7) (e_dead e) ks;
  Some (ok, set_hd_keys p ks (set_hd_noise (set_peer_hs p (NoisePeer hs (np_entry np) (np_advanced_security np)) (hd_noise d)) d)).

Definition wg_packet_send_handshake_response (e : env) (p : Z) (d : hs_device) : option (list effect * hs_device) :=
  np ← nd_peers (hd_noise d) !! p;
  ck ← hd_cookies d !! p;
  let c := hd_config d in
  let d := set_hd_last_sent p (e_clock e 4) d in
  '(m, hs, tbl) ← wg_noise_handshake_create_response (np_handshake np) (mh_genheader (e_inclusive e) (header c MSGIDX_HANDSHAKE_RESPONSE)) (e_secret e)
      (nd_index (hd_noise d)) (np_entry np) (e_index e);
  let d := set_hd_noise (set_nd_index tbl (set_peer_hs p (NoisePeer hs (np_entry np) (np_advanced_security np)) (hd_noise d))) d in
  match m with
  | None => Some ([], d)
  | Some m =>
      let '(packet, ck) := wg_cookie_add_mac_to_packet (response_bytes m) (e_clock e 5) ck in
      let d := set_hd_cookies (<[p := ck]> (hd_cookies d)) d in
      '(ok, d) ← begin_session e p d;
      if negb (ok : bool) then Some ([], d)
      else
        let d := set_hd_last_sent p (e_clock e 6) d in
        o ← send_buffer e 0 (cf_imitate_proto c) packet (junk_size c MSGIDX_HANDSHAKE_RESPONSE);
        Some ([TimerEvent p SessionDerived; TimerEvent p Traversal; TimerEvent p AnySent] ++ sent o, d)
  end.

Definition wg_packet_send_handshake_cookie (e : env) (skb : handshake_skb) (sender_index : Z) (d : hs_device) : option (list effect * hs_device) :=
  let c := hd_config d in
  let '(packet, chk) := wg_cookie_message_create skb sender_index (mh_genheader (e_inclusive e) (header c MSGIDX_HANDSHAKE_COOKIE)) (e_clock e 8) (e_clock e 9)
      (e_nonce e) (e_cookie_secret e 1) (hd_checker d) in
  o ← send_reply e skb (cf_imitate_proto c) (cookie_bytes packet) (junk_size c MSGIDX_HANDSHAKE_COOKIE);
  Some (sent o, set_hd_checker chk d).

(** ** Receiving *)

(** How [wg_receive_handshake_packet] ended. *)
Inductive rx_end :=
  | RxCookieConsumed
  | RxBadMac
  | RxCookieSent
  | RxInvalid
  | RxWarned
  | RxPeer (p : Z).

(** The load test: whether the device is under load, and [last_under_load]. *)
Definition load_test (e : env) (queue_len last_under_load : Z) : bool * Z :=
  if queue_len >=? MAX_QUEUED_INCOMING_HANDSHAKES / 8 then (true, e_clock e 10)
  else if negb (last_under_load =? 0) then
    if negb (wg_birthdate_has_expired last_under_load 1 (e_clock e 11)) then (true, last_under_load) else (false, 0)
  else (false, last_under_load).

Section Receive.

Context {R : Type} (allow : packet -> R -> option (bool * R)).

Definition data_type (skb : handshake_skb) : Z := le_word (firstn 4 (hk_data skb)).

(** How one of the two branches ended: the function returned, or it goes on
    with a peer or none. *)
Inductive branch := Returned (r : rx_end) | Continued (p : option Z).

(** The branch for an initiation; [None] also when the message is not inside
    the packet. *)
Definition receive_initiation (e : env) (siphash : list Z -> Z) (skb : handshake_skb) (needs_cookie : bool) (d : hs_device) :
    option (branch * list effect * hs_device) :=
  if len (hk_data skb) <? MESSAGE_INITIATION_SIZE then None
  else
    let message := initiation_of (hk_data skb) in
    if needs_cookie then
      '(ds, d) ← wg_packet_send_handshake_cookie e skb (mi_sender_index message) d; Some (Returned RxCookieSent, ds, d)
    else
      match wg_noise_handshake_consume_initiation siphash (hd_noise d) message (data_type skb) (e_endpoint e).1 (e_endpoint e).2 (e_alive e) (e_clock e 12) (e_clock e 13) with
      | None => None
      | Some (None, wg, _) => Some (Returned RxInvalid, [], set_hd_noise wg d)
      | Some (Some p, wg, _) => '(ds, d) ← wg_packet_send_handshake_response e p (set_hd_noise wg d); Some (Continued (Some p), SetEndpoint p :: ds, d)
      end.

(** The branch for a response. *)
Definition receive_response (e : env) (skb : handshake_skb) (needs_cookie : bool) (d : hs_device) :
    option (branch * list effect * hs_device) :=
  if len (hk_data skb) <? MESSAGE_RESPONSE_SIZE then None
  else
    let message := response_of (hk_data skb) in
    if needs_cookie then
      '(ds, d) ← wg_packet_send_handshake_cookie e skb (mr_sender_index message) d; Some (Returned RxCookieSent, ds, d)
    else
      match wg_noise_handshake_consume_response (hd_noise d) message (e_alive e) with
      | None => None
      | Some (None, wg) => Some (Returned RxInvalid, [], set_hd_noise wg d)
      | Some (Some p, wg) =>
          '(ok, d) ← begin_session e p (set_hd_noise wg d);
          Some (Continued (Some p), SetEndpoint p :: (if ok : bool then [TimerEvent p SessionDerived; TimerEvent p HandshakeComplete; KeepaliveTo p] else []), d)
      end.

(** The test behind [packet_needs_cookie]; [None] when the packet is dropped. *)
Definition packet_needs_cookie (under_load : bool) (s : cookie_mac_state) : option bool :=
  if (under_load && bool_decide (s = VALID_MAC_WITH_COOKIE)) || (negb under_load && bool_decide (s = VALID_MAC_BUT_NO_COOKIE)) then Some false
  else if under_load && bool_decide (s = VALID_MAC_BUT_NO_COOKIE) then Some true
  else None.

(** The two branches of a packet whose MACs are right. *)
Definition receive_branches (e : env) (siphash : list Z -> Z) (skb : handshake_skb) (needs_cookie : bool) (d : hs_device) :
    option (rx_end * list effect * hs_device) :=
  let c := hd_config d in
  '(b1, ds1, d) ← (if mh_validate (data_type skb) (header c MSGIDX_HANDSHAKE_INIT) then receive_initiation e siphash skb needs_cookie d else Some (Continued None, [], d));
  match b1 with
  | Returned r => Some (r, ds1, d)
  | Continued p1 =>
      '(b2, ds2, d) ← (if mh_validate (data_type skb) (header c MSGIDX_HANDSHAKE_RESPONSE) then receive_response e skb needs_cookie d else Some (Continued p1, [], d));
      Some (match b2 with
            | Returned r => (r, ds1 ++ ds2, d)
            | Continued None => (RxWarned, ds1 ++ ds2, d)
            | Continued (Some p) => (RxPeer p, ds1 ++ ds2 ++ [RxStats p (len (hk_data skb)); TimerEvent p AnyReceived; TimerEvent p Traversal], d)
            end)
  end.

(** [wg_receive_handshake_packet]: how it ended, what was sent, the device,
    [last_under_load] and the rate limiter. *)
Definition wg_receive_handshake_packet (e : env) (siphash : list Z -> Z) (skb : handshake_skb) (queue_len : Z) (d : hs_device) (last : Z) (rl : R) :
    option (rx_end * list effect * hs_device * Z * R) :=
  let c := hd_config d in
  if mh_validate (data_type skb) (header c MSGIDX_HANDSHAKE_COOKIE) then
    if len (hk_data skb) <? MESSAGE_COOKIE_REPLY_SIZE then None
    else
      '(tbl, cookies) ← wg_cookie_message_consume (cookie_of (hk_data skb)) (e_alive e) (e_clock e 14) (nd_index (hd_noise d)) (hd_cookies d);
      Some (RxCookieConsumed, [], set_hd_noise (set_nd_index tbl (hd_noise d)) (set_hd_cookies cookies d), last, rl)
  else
    let '(under_load, last) := load_test e queue_len last in
    '(mac_state, chk, rl) ← wg_cookie_validate_packet allow (hd_checker d) skb under_load (e_clock e 15) (e_clock e 16) (e_cookie_secret e 0) rl;
    let d := set_hd_checker chk d in
    match packet_needs_cookie under_load mac_state with
    | None => Some (RxBadMac, [], d, last, rl)
    | Some needs_cookie => '(r, ds, d) ← receive_branches e siphash skb needs_cookie d; Some (r, ds, d, last, rl)
    end.

End Receive.
End Handshake.

(** * Load *)

Section Load.

Context `{N : NoiseCrypto} `{C : CookieCrypto} (siphash : list Z -> Z) (h2 : Z -> Z -> Z) (h3 : Z -> Z -> Z -> Z).

(** Whether the packet reached the Diffie-Hellman operations of the Noise functions. *)
Definition processed (r : rx_end) : Z := match r with RxPeer _ | RxInvalid => 1 | _ => 0 end.

(** A packet for the worker, with the length of the queue, and what the rate
    limiter reads: namespace, clock and allocator. *)
Record rx_item := RxItem { ri_env : env; ri_skb : handshake_skb; ri_queue_len : Z; ri_net : Z; ri_now : Z; ri_alloc : bool }.

(** Packets, with the rate limiter's garbage collection in between. *)
Inductive rx_event := RxPacket (it : rx_item) | RxGc (now : Z) | RxFree.

Definition item_allow (it : rx_item) (pkt : packet) (rl : ratelimiter) : option (bool * ratelimiter) :=
  wg_ratelimiter_allow h2 h3 pkt (ri_net it) (ri_now it) (ri_alloc it) rl.

Fixpoint run_rx (evs : list rx_event) (d : hs_device) (last : Z) (rl : ratelimiter) : option (list rx_end * hs_device * Z * ratelimiter) :=
  match evs with
  | [] => Some ([], d, last, rl)
  | RxPacket it :: evs' =>
      '(r, _, d, last, rl) ← wg_receive_handshake_packet (item_allow it) (ri_env it) siphash (ri_skb it) (ri_queue_len it) d last rl;
      '(rs, d, last, rl) ← run_rx evs' d last rl; Some (r :: rs, d, last, rl)
  | RxGc now :: evs' => '(rs, d, last, rl) ← run_rx evs' d last (wg_ratelimiter_gc_entries true now rl); Some (RxWarned :: rs, d, last, rl)
  | RxFree :: evs' => '(rs, d, last, rl) ← run_rx evs' d last (if 0 <? pending rl then entry_free rl else rl); Some (RxWarned :: rs, d, last, rl)
  end.

Definition rx_time (ev : rx_event) (now : Z) : Z := match ev with RxPacket it => ri_now it | RxGc t => t | RxFree => now end.
Fixpoint rx_times_ok (now : Z) (evs : list rx_event) : Prop :=
  match evs with [] => True | ev :: evs' => now <= rx_time ev now < 2 ^ 63 /\ rx_times_ok (rx_time ev now) evs' end.
Definition rx_end_time (now : Z) (evs : list rx_event) : Z := fold_left (fun t ev => rx_time ev t) evs now.

(** The queue is long at every packet. *)
Definition loaded (ev : rx_event) : Prop := match ev with RxPacket it => MAX_QUEUED_INCOMING_HANDSHAKES / 8 <= ri_queue_len it | _ => True end.

(** The packets of a source that were processed. *)
Definition rx_counts (s : source) (ev : rx_event) (r : rx_end) : Z :=
  match ev with RxPacket it => if bool_decide (source_of (hk_net (ri_skb it)) (ri_net it) = Some s) then processed r else 0 | _ => 0 end.
Fixpoint rx_processed (s : source) (evs : list rx_event) (rs : list rx_end) : Z :=
  match evs, rs with ev :: evs', r :: rs' => rx_counts s ev r + rx_processed s evs' rs' | _, _ => 0 end.

Lemma branches_cookie e skb d r ds d' : receive_branches e siphash skb true d = Some (r, ds, d') -> processed r = 0.
Proof.
  unfold receive_branches. destruct (mh_validate _ (header _ MSGIDX_HANDSHAKE_INIT)).
  - unfold receive_initiation. destruct (len (hk_data skb) <? _); [done|]. destruct (wg_packet_send_handshake_cookie _ _ _ _) as [[? ?]|]; [|done]. cbn. by intros [= <- _ _].
  - cbn. destruct (mh_validate _ _).
    + unfold receive_response. destruct (len (hk_data skb) <? _); [done|]. destruct (wg_packet_send_handshake_cookie _ _ _ _) as [[? ?]|]; [|done]. cbn. by intros [= <- _ _].
    + cbn. by intros [= <- _ _].
Qed.

(** Under load the expensive work is done only for a packet with a valid cookie that the rate
    limiter admitted. *)
Lemma loaded_packet {R} (allow : packet -> R -> option (bool * R)) e skb n d last rl r ds d' last' rl' : MAX_QUEUED_INCOMING_HANDSHAKES / 8 <= n ->
  wg_receive_handshake_packet allow e siphash skb n d last rl = Some (r, ds, d', last', rl') ->
  (rl' = rl /\ processed r = 0) \/ (exists ok, allow (hk_net skb) rl = Some (ok, rl') /\ (ok = false -> processed r = 0)).
Proof.
  intros Hn. unfold wg_receive_handshake_packet. destruct (mh_validate _ (header _ MSGIDX_HANDSHAKE_COOKIE)).
  { destruct (len (hk_data skb) <? _); [done|]. destruct (wg_cookie_message_consume _ _ _ _ _) as [[? ?]|]; [|done]. cbn. intros [= <- _ _ _ <-]. by left. }
  unfold load_test. rewrite Z.geb_leb, (proj2 (Z.leb_le _ _)) by done. unfold wg_cookie_validate_packet. destruct (len (hk_data skb) <? sizeof_macs); [done|].
  destruct (bool_decide (compute_mac1 _ _ = _)); cbn [negb]; [|cbn; intros [= <- _ _ _ <-]; by left].
  destruct (make_cookie _ _ _ _ _) as [ck chk]. destruct (bool_decide (compute_mac2 _ _ = _)); cbn [negb].
  - destruct (allow (hk_net skb) rl) as [[[] rl1]|]; cbn [mbind option_bind]; [| |done].
    + change (packet_needs_cookie true VALID_MAC_WITH_COOKIE) with (Some false). cbv iota. destruct (receive_branches _ _ _ _ _) as [[[? ?] ?]|]; [|done]. cbn. intros [= <- _ _ _ <-]. right. by eexists.
    + change (packet_needs_cookie true VALID_MAC_WITH_COOKIE_BUT_RATELIMITED) with (@None bool). intros [= <- _ _ _ <-]. right. by eexists.
  - cbn [mbind option_bind]. change (packet_needs_cookie true VALID_MAC_BUT_NO_COOKIE) with (Some true). cbv iota. destruct (receive_branches _ _ _ _ _) as [[[r1 ?] ?]|] eqn:E; [|done]. cbn. intros [= <- _ _ _ <-]. left. split; [done|]. by eapply branches_cookie.
Qed.

Lemma run_rx_level evs : forall d last rl now rs d' last' rl', rl_ok now rl -> 0 <= now -> rx_times_ok now evs -> Forall loaded evs ->
  run_rx evs d last rl = Some (rs, d', last', rl') ->
  rl_ok (rx_end_time now evs) rl' /\
  forall s, PACKET_COST * rx_processed s evs rs + level h2 h3 rl' s (rx_end_time now evs) <= level h2 h3 rl s now + (rx_end_time now evs - now).
Proof.
  induction evs as [|ev evs IH]; intros d last rl now rs d' last' rl' Hok H0 Ht Hl; [cbn; intros [= <- _ _ <-]; split; [done|]; intros s; cbn; lia|].
  destruct Ht as [Ht Hts]. inversion Hl as [|? ? Hl1 Hls]; subst.
  (* one event *)
  assert (One : forall r d1 last1 rl1 rest, (match ev with
      | RxPacket it => exists ds, wg_receive_handshake_packet (item_allow it) (ri_env it) siphash (ri_skb it) (ri_queue_len it) d last rl = Some (r, ds, d1, last1, rl1)
      | RxGc t => r = RxWarned /\ rl1 = wg_ratelimiter_gc_entries true t rl
      | RxFree => r = RxWarned /\ rl1 = (if 0 <? pending rl then entry_free rl else rl)
      end) -> run_rx evs d1 last1 rl1 = Some (rest, d', last', rl') ->
      rl_ok (rx_end_time now (ev :: evs)) rl' /\
      forall s, PACKET_COST * rx_processed s (ev :: evs) (r :: rest) + level h2 h3 rl' s (rx_end_time now (ev :: evs)) <=
        level h2 h3 rl s now + (rx_end_time now (ev :: evs) - now)).
  { intros r d1 last1 rl1 rest Hev Hrun.
    assert (Step : rl_ok (rx_time ev now) rl1 /\ forall s, PACKET_COST * rx_counts s ev r + level h2 h3 rl1 s (rx_time ev now) <= level h2 h3 rl s now + (rx_time ev now - now)).
    { destruct ev as [it|t|].
      - destruct Hev as [ds Hev]. apply loaded_packet in Hev; [|done]. cbn [rx_time rx_counts] in *. destruct Hev as [[-> Hp]|(ok & Ha & Hp)].
        + split; [apply (rl_ok_mono h2 h3 now); [lia|done]|]. intros s. rewrite Hp. assert (level h2 h3 rl s (ri_now it) <= level h2 h3 rl s now + (ri_now it - now)) by (unfold level, level_of; destruct (entry_of h2 h3 rl s); lia).
          destruct (bool_decide _); lia.
        + destruct (step_ok h2 h3 (EvAllow (hk_net (ri_skb it)) (ri_net it) (ri_now it) (ri_alloc it)) rl now Hok H0 Ht) as (ok' & rl2 & Hs & Hok2 & Hlev).
          cbn [step ev_time] in Hs, Hok2, Hlev. unfold item_allow in Ha. rewrite Ha in Hs. injection Hs as <- <-. split; [done|]. intros s. specialize (Hlev s). cbn [counts] in Hlev.
          assert (processed r <= (if ok then 1 else 0)) by (destruct ok; [destruct r; cbn; lia|rewrite Hp by done; lia]). change PACKET_COST with 50000000 in *.
          revert Hlev. destruct (bool_decide _), ok; cbn [andb]; lia.
      - destruct Hev as [-> ->]. destruct (step_ok h2 h3 (EvGc t) rl now Hok H0 Ht) as (? & rl2 & Hs & Hok2 & Hlev). cbn [step ev_time counts] in *. injection Hs as <- <-.
        split; [done|]. intros s. specialize (Hlev s). cbn. lia.
      - destruct Hev as [-> ->]. destruct (step_ok h2 h3 EvFree rl now Hok H0 Ht) as (? & rl2 & Hs & Hok2 & Hlev). cbn [step ev_time counts] in *. injection Hs as <- <-.
        split; [done|]. intros s. specialize (Hlev s). cbn. lia. }
    destruct Step as [Hok1 Hlev1]. destruct (IH _ _ _ _ _ _ _ _ Hok1 ltac:(lia) Hts Hls Hrun) as [Hok2 Hlev2]. split; [done|]. intros s. specialize (Hlev1 s). specialize (Hlev2 s).
    cbn [rx_processed]. change (rx_end_time now (ev :: evs)) with (rx_end_time (rx_time ev now) evs). lia. }
  destruct ev as [it|t|]; cbn [run_rx].
  - destruct (wg_receive_handshake_packet _ _ _ _ _ _ _ _) as [[[[[r ds] d1] last1] rl1]|] eqn:E; [|done]. cbn [mbind option_bind].
    destruct (run_rx evs d1 last1 rl1) as [[[[rest d2] last2] rl2]|] eqn:Er; [|done]. cbn [mbind option_bind]. intros [= <- <- <- <-]. eapply One; [by eexists|exact Er].
  - destruct (run_rx evs d last _) as [[[[rest d2] last2] rl2]|] eqn:Er; [|done]. cbn [mbind option_bind]. intros [= <- <- <- <-]. eapply One; [done|exact Er].
  - destruct (run_rx evs d last _) as [[[[rest d2] last2] rl2]|] eqn:Er; [|done]. cbn [mbind option_bind]. intros [= <- <- <- <-]. eapply One; [done|exact Er].
Qed.

End Load.


(** * A handshake from end to end *)

(** ** Sending *)

(** The kernel's random source, the allocator's memory and the modifiers. *)
Record env_sane (e : env) : Prop := {
  es_rnd : forall i, random_ok (e_rnd e i);
  es_garbage : forall i n, 0 <= n -> len (e_garbage e i n) = n;
  es_mods : forall i j, env_ok (e_mods e i j);
  es_inclusive : rnd_inclusive_ok (e_inclusive e);
  es_junk : forall i, rnd_inclusive_ok (e_junk_size e i);
  es_index : Forall is_u32 (e_index e)
}.

Lemma fill_padding_zero proto rnd total buf : random_ok rnd -> wg_fill_padding proto rnd total 0 buf = Some buf.
Proof.
  intros Hr. unfold wg_fill_padding. destruct (decide (proto = IMITATE_NONE)); [|done]. destruct (Hr 0 ltac:(lia)) as [Hl _]. by destruct (rnd 0).
Qed.

Lemma fill_padding_ok proto rnd junk buf : random_ok rnd -> 0 <= junk -> 0 < len buf \/ junk = 0 ->
  exists l, len l = junk /\ forall pre, len pre = junk -> wg_fill_padding proto rnd (junk + len buf) junk (pre ++ buf) = Some (l ++ buf).
Proof.
  intros Hr Hj Hb. destruct (Z.eq_dec junk 0) as [->|D].
  - exists []. split; [done|]. intros pre Hp. rewrite fill_padding_zero by done. by destruct pre.
  - destruct (fill_padding_frame proto rnd (junk + len buf) junk buf Hr) as (l & Hl & _ & Hf); [lia|lia|]. by exists l.
Qed.

Lemma send_buffer_ok e i proto buf junk : env_sane e -> 0 <= junk -> 0 < len buf \/ junk = 0 ->
  exists l, len l = junk /\ send_buffer e i proto buf junk = Some (if e_skb e i then Some (l ++ buf) else None).
Proof.
  intros He Hj Hb. unfold send_buffer. destruct (fill_padding_ok proto (e_rnd e i) junk buf (es_rnd _ He i) Hj Hb) as (l & Hl & Hf).
  exists l. split; [done|]. rewrite Hf by (by apply es_garbage). by destruct (e_skb e i).
Qed.

Lemma send_specs_ok e proto : env_sane e -> forall todo i done, Forall spec_wf done -> Forall spec_wf todo ->
  exists ds specs, send_specs e proto i done todo = Some (ds, specs) /\ Forall spec_wf specs.
Proof.
  intros He. induction todo as [|spec todo IH]; intros i done Hd Ht; cbn [send_specs]; [eauto|]. inversion Ht as [|? ? H1 H2]; subst.
  assert (forall s, spec_wf s -> Forall spec_wf (done ++ [s])) as Hs by (intros s Hs; by apply Forall_app_2; [|constructor]).
  destruct (Z.ltb_spec 0 (spec_pkt_size spec)); [|apply IH; auto].
  destruct (applymods_safe (e_mods e i) spec (es_mods _ He i) H1) as (spec' & -> & Hw & Hsz). unfold spec_wf in Hw. destruct (spec_pkt spec') as [pkt|] eqn:Ep; [|destruct Hw; lia].
  destruct (send_buffer_ok e i proto pkt 0 He) as (l & _ & ->); [lia|by right|].
  destruct (IH (S i) (done ++ [spec'])) as (ds & specs & -> & Hsp); [apply Hs; unfold spec_wf; by rewrite Ep|done|]. eauto.
Qed.

Lemma fill_junk_frame proto rnd counter n b : random_ok rnd -> 0 <= n <= len b ->
  let '(w, counter') := wg_fill_junk proto rnd counter n in exists b', w b = Some b' /\ len b' = len b.
Proof.
  intros Hr Hn. unfold wg_fill_junk. rewrite <- (take_drop (Z.to_nat n) b).
  assert (forall w, fillsn 0 n w -> exists b', w (take (Z.to_nat n) b ++ drop (Z.to_nat n) b) = Some b' /\ len b' = len (take (Z.to_nat n) b ++ drop (Z.to_nat n) b)) as Hfr.
  { intros w (l & Hl & _ & Hf)%(fillsn_frame _ (drop (Z.to_nat n) b)). eexists. split; [apply Hf, len_take; lia|]. rewrite !len_app, Hl, len_take; lia. }
  destruct (decide (proto = IMITATE_NONE)); apply Hfr.
  - destruct (Hr n) as [E _]; [lia|]. rewrite <- E at 1. apply fillsn_put.
  - apply fillsn_fill_whole; done || lia.
Qed.

Lemma send_junk_ok e c : env_sane e -> 0 <= cf_jmin c <= cf_jmax c -> cf_jmax c < MESSAGE_MAX_SIZE ->
  forall n i b counter, len b = cf_jmax c -> exists ds counter', send_junk e c i n (Some b) counter = Some (ds, counter').
Proof.
  intros He Hj Hm. induction n as [|n IH]; intros i b counter Hb; cbn [send_junk]; [eauto|].
  pose proof (es_junk _ He i (cf_jmin c) (cf_jmax c) ltac:(lia)) as Hs. unfold MESSAGE_MAX_SIZE in Hm. rewrite u16_small by lia. set (size := e_junk_size e i _ _) in *.
  pose proof (fill_junk_frame (cf_imitate_proto c) (e_rnd e i) counter size b (es_rnd _ He i) ltac:(lia)) as F. destruct (wg_fill_junk _ _ _ _) as [w counter']. destruct F as (b' & -> & Lb').
  rewrite (proj2 (Z.ltb_ge _ _)) by lia.
  destruct (send_buffer_ok e i (cf_imitate_proto c) (firstn (Z.to_nat size) b') 0 He) as (l & _ & ->); [lia|by right|].
  destruct (IH (S i) b' counter') as (ds & c' & ->); [lia|]. eauto.
Qed.

(** ** Messages with their MACs *)

Definition with_macs (macs : message_macs) (m : message_handshake_initiation) : message_handshake_initiation := {|
  mi_type := mi_type m; mi_sender_index := mi_sender_index m; mi_unencrypted_ephemeral := mi_unencrypted_ephemeral m;
  mi_encrypted_static := mi_encrypted_static m; mi_encrypted_timestamp := mi_encrypted_timestamp m; mi_macs := macs |}.
Definition with_macs_r (macs : message_macs) (m : message_handshake_response) : message_handshake_response := {|
  mr_type := mr_type m; mr_sender_index := mr_sender_index m; mr_receiver_index := mr_receiver_index m; mr_unencrypted_ephemeral := mr_unencrypted_ephemeral m;
  mr_encrypted_nothing := mr_encrypted_nothing m; mr_macs := macs |}.

Section Macs.

Context `{CL : CookieCryptoLaws}.

(** The MACs of a message replace its last 32 bytes. *)
Lemma add_mac_bytes (body old : list Z) now ck : len old = sizeof_macs ->
  exists macs ck', wg_cookie_add_mac_to_packet (body ++ old) now ck = (body ++ macs_bytes macs, ck') /\ macs_wf macs /\
    mac1 macs = blake2s_key (ck_message_mac1_key ck) body COOKIE_LEN /\
    ck_message_mac1_key ck' = ck_message_mac1_key ck /\ ck_cookie_decryption_key ck' = ck_cookie_decryption_key ck.
Proof.
  intros Ho. destruct (add_mac_layout (body ++ old) now ck) as (E & L1 & L2); [rewrite len_app; pose proof (len_nonneg body); lia|].
  replace (firstn (Z.to_nat (len (body ++ old) - sizeof_macs)) (body ++ old)) with body in *
    by (rewrite len_app, Ho, Z.add_simpl_r; unfold len; by rewrite Nat2Z.id, take_app_length).
  rewrite E. match goal with |- context [body ++ ?a ++ ?b] => exists {| mac1 := a; mac2 := b |} end. eexists. split; [reflexivity|]. ands; done.
Qed.

Lemma initiation_macs m now ck : initiation_wf m ->
  exists macs ck', wg_cookie_add_mac_to_packet (initiation_bytes m) now ck = (initiation_bytes (with_macs macs m), ck') /\
    initiation_wf (with_macs macs m) /\ ck_message_mac1_key ck' = ck_message_mac1_key ck /\ ck_cookie_decryption_key ck' = ck_cookie_decryption_key ck /\
    exists body, initiation_bytes (with_macs macs m) = body ++ mac1 macs ++ mac2 macs /\ macs_wf macs /\ mac1 macs = blake2s_key (ck_message_mac1_key ck) body COOKIE_LEN.
Proof.
  intros [H1 H2 H3 H4 H5 H6]. destruct (macs_roundtrip _ H6) as [_ Lm].
  set (body := le_bytes 4 (mi_type m) ++ le_bytes 4 (mi_sender_index m) ++ mi_unencrypted_ephemeral m ++ mi_encrypted_static m ++ mi_encrypted_timestamp m).
  assert (E : forall macs, initiation_bytes (with_macs macs m) = body ++ macs_bytes macs) by (intros macs; unfold initiation_bytes, body; cbn; by rewrite <- !app_assoc).
  destruct (add_mac_bytes body (macs_bytes (mi_macs m)) now ck Lm) as (macs & ck' & Em & Wm & M1 & K1 & K2). exists macs, ck'.
  split; [rewrite E, <- Em; f_equal; unfold initiation_bytes, body; by rewrite <- !app_assoc|]. ands; try done. exists body. by rewrite E.
Qed.

Lemma response_macs m now ck : response_wf m ->
  exists macs ck', wg_cookie_add_mac_to_packet (response_bytes m) now ck = (response_bytes (with_macs_r macs m), ck') /\
    response_wf (with_macs_r macs m) /\ ck_message_mac1_key ck' = ck_message_mac1_key ck /\ ck_cookie_decryption_key ck' = ck_cookie_decryption_key ck /\
    exists body, response_bytes (with_macs_r macs m) = body ++ mac1 macs ++ mac2 macs /\ macs_wf macs /\ mac1 macs = blake2s_key (ck_message_mac1_key ck) body COOKIE_LEN.
Proof.
  intros [H1 H2 H3 H4 H5 H6]. destruct (macs_roundtrip _ H6) as [_ Lm].
  set (body := le_bytes 4 (mr_type m) ++ le_bytes 4 (mr_sender_index m) ++ le_bytes 4 (mr_receiver_index m) ++ mr_unencrypted_ephemeral m ++ mr_encrypted_nothing m).
  assert (E : forall macs, response_bytes (with_macs_r macs m) = body ++ macs_bytes macs) by (intros macs; unfold response_bytes, body; cbn; by rewrite <- !app_assoc).
  destruct (add_mac_bytes body (macs_bytes (mr_macs m)) now ck Lm) as (macs & ck' & Em & Wm & M1 & K1 & K2). exists macs, ck'.
  split; [rewrite E, <- Em; f_equal; unfold response_bytes, body; by rewrite <- !app_assoc|]. ands; try done. exists body. by rewrite E.
Qed.

End Macs.

(** ** The messages the Noise functions make are well formed *)

Section Formats.

Context `{NL : NoiseCryptoLaws}.

Lemma identity_public_len id : identity_ok id -> len (static_public id) = NOISE_PUBLIC_KEY_LEN.
Proof. intros [_ H]. by apply public_len in H. Qed.

Lemma insert_index_u32 t x rnd r t' : ix_ok t -> is_Some (ix_entries t !! x) -> Forall is_u32 rnd -> wg_index_hashtable_insert t x rnd = Some (r, t') -> is_u32 r.
Proof.
  intros Ht Hx Hr E. pose proof (insert_ok t x rnd Ht Hx) as H. rewrite E in H. destruct H as (Hin & _). exact (proj1 (Forall_forall _ _) Hr r Hin).
Qed.

Lemma create_initiation_wf id hs ty secret sec nsec tbl entry rnd m hs' tbl' : identity_ok id -> ix_ok tbl -> is_Some (ix_entries tbl !! entry) ->
  Forall is_u32 rnd -> is_u32 ty -> wg_noise_handshake_create_initiation id hs ty secret sec nsec tbl entry rnd = Some (Some m, hs', tbl') ->
  initiation_wf m /\ mi_type m = ty.
Proof.
  intros Hid Ht Hx Hr Hty Hc. apply create_initiation_inv in Hc as (e & dh & idx & es & et & ck & h & _ & He & _ & _ & Hins & Htr & -> & _).
  unfold transcript1, message_encrypt in Htr. destruct (handshake_init _) as [ck0 h0]. destruct (message_ephemeral e ck0 h0) as [ck1 h1]. destruct (kdf2 dh ck1) as [ck2 k2].
  destruct (kdf2 _ ck2) as [ck3 k3]. injection Htr as <- <- _ _. split; [|done]. split; cbn; try done.
  - by eapply insert_index_u32.
  - by apply public_len in He.
  - by rewrite aead_seal_len, identity_public_len.
  - by rewrite aead_seal_len.
Qed.

Lemma create_response_wf hs ty secret tbl entry rnd m hs' tbl' : ix_ok tbl -> is_Some (ix_entries tbl !! entry) ->
  Forall is_u32 rnd -> is_u32 ty -> is_u32 (remote_index hs) -> wg_noise_handshake_create_response hs ty secret tbl entry rnd = Some (Some m, hs', tbl') ->
  response_wf m /\ mr_type m = ty.
Proof.
  intros Ht Hx Hr Hty Hri Hc. apply create_response_inv in Hc as (e & ee & se & idx & en & ck & h & _ & He & _ & _ & Hins & Htr & -> & _).
  unfold transcript2, message_encrypt in Htr. destruct (message_ephemeral e _ _) as [ck1 h1]. destruct (mix_psk _ _ _) as [[ck3 h3] k3]. injection Htr as <- _ _.
  split; [|done]. split; cbn; try done.
  - by eapply insert_index_u32.
  - by apply public_len in He.
  - by rewrite aead_seal_len.
Qed.

End Formats.

(** ** Delivery *)

(** A UDP datagram with the payload [dg] somewhere in a packet is recognised,
    and what remains as its data is [data]. *)
Definition delivers (c : awg_config) (dg data : list Z) : Prop :=
  forall d pre udp lh ll post, 0 <= d <= len pre -> len pre - d <= 65535 -> length udp = 4%nat -> len (pre ++ udp ++ [lh; ll; 0; 0] ++ dg ++ post) < 2 ^ 31 ->
    256 * lh + ll = 8 + len dg ->
    exists s, prepare_skb_header c true (len pre) true true true true (Skb (pre ++ udp ++ [lh; ll; 0; 0] ++ dg ++ post) d) = (0, s) /\ skb_bytes s = data.

(** The handshake messages of two configurations do not depend on the rest. *)
Definition same_format (c c' : awg_config) : Prop := cf_headers c' = cf_headers c /\ cf_junk_size c' = cf_junk_size c.

Lemma initiation_type m : initiation_wf m -> le_word (firstn 4 (initiation_bytes m)) = mi_type m.
Proof. intros W. exact (f_equal mi_type (proj1 (initiation_roundtrip m W))). Qed.
Lemma response_type m : response_wf m -> le_word (firstn 4 (response_bytes m)) = mr_type m.
Proof. intros W. exact (f_equal mr_type (proj1 (response_roundtrip m W))). Qed.

Lemma delivers_initiation c l m : config_ok c -> initiation_wf m -> len l = junk_size c MSGIDX_HANDSHAKE_INIT ->
  mh_validate (mi_type m) (header c MSGIDX_HANDSHAKE_INIT) = true -> delivers c (l ++ initiation_bytes m) (initiation_bytes m).
Proof.
  intros Ok W Hl V d pre udp lh ll post H1 H2 H3 H4 H5. rewrite <- !app_assoc in *. rewrite len_app in H5.
  apply (dispatch_accepts c 0); try done; [lia|lia| |by rewrite initiation_type|lia]. unfold kind_length_ok. cbn. by apply initiation_roundtrip.
Qed.

Lemma delivers_response c l m : config_ok c -> response_wf m -> len l = junk_size c MSGIDX_HANDSHAKE_RESPONSE ->
  junk_size c MSGIDX_HANDSHAKE_INIT + 56 <> junk_size c MSGIDX_HANDSHAKE_RESPONSE ->
  mh_validate (mr_type m) (header c MSGIDX_HANDSHAKE_RESPONSE) = true -> delivers c (l ++ response_bytes m) (response_bytes m).
Proof.
  intros Ok W Hl Hs V d pre udp lh ll post H1 H2 H3 H4 H5. destruct (response_roundtrip m W) as [_ Lm]. rewrite <- !app_assoc in *. rewrite len_app in H5.
  apply (dispatch_accepts c 1); try done; [lia|lia|by rewrite response_type|]. intros k Hk _. assert (k = 0%nat) as -> by lia. rewrite Hl, Lm. intros E. exfalso. apply Hs.
  unfold MSGIDX_HANDSHAKE_INIT, MSGIDX_HANDSHAKE_RESPONSE in *. change (kind_size 0) with 148 in E. change MESSAGE_RESPONSE_SIZE with 92 in E. lia.
Qed.

(** ** One device *)

Section Device.

Context `{NL : NoiseCryptoLaws} `{CL : CookieCryptoLaws}.

(** A device with a peer of the given identity. *)
Record party (d : hs_device) (p : Z) (np : noise_peer) (ck : cookie) (other : noise_static_identity) : Prop := {
  pa_config : config_ok (hd_config d);
  pa_specs : Forall spec_wf (cf_ispecs (hd_config d));
  pa_init : mh_wf (header (hd_config d) MSGIDX_HANDSHAKE_INIT);
  pa_resp : mh_wf (header (hd_config d) MSGIDX_HANDSHAKE_RESPONSE);
  pa_identity : identity_ok (nd_identity (hd_noise d));
  pa_peer : nd_peers (hd_noise d) !! p = Some np;
  pa_paired : paired (nd_identity (hd_noise d)) other (np_handshake np);
  pa_cookie : hd_cookies d !! p = Some ck;
  pa_mac1 : ck_message_mac1_key ck = precompute_key (static_public other) mac1_key_label;
  pa_checker : cc_message_mac1_key (hd_checker d) = precompute_key (static_public (nd_identity (hd_noise d))) mac1_key_label;
  pa_index : ix_ok (nd_index (hd_noise d));
  pa_entry : exists idx, ix_entries (nd_index (hd_noise d)) !! np_entry np = Some (IndexEntry (Some p) INDEX_HASHTABLE_HANDSHAKE idx);
  pa_pairs : hd_pairs d !! np_entry np = None
}.

(** Its keypairs, and memory for one more. *)
Definition keys_ready (d : hs_device) (p entry a : Z) (slots : noise_keypairs) (g : refs) : Prop :=
  hd_slots d !! p = Some slots /\ kinv (KState (hd_pairs d) (nd_index (hd_noise d)) (hd_pair_counter d) slots) g /\
  hd_pairs d !! a = None /\ ~ linked (ix_heads (nd_index (hd_noise d))) a /\ a <> entry.

(** Entering a handshake into the index table. *)
Lemma insert_linked t x rnd r t' : ix_ok t -> is_Some (ix_entries t !! x) -> wg_index_hashtable_insert t x rnd = Some (r, t') ->
  ix_ok t' /\ ix_get t' r = Some x /\ linked (ix_heads t') x /\ forall y, linked (ix_heads t') y -> y = x \/ linked (ix_heads t) y.
Proof.
  intros Ht Hx E. pose proof (insert_ok t x rnd Ht Hx) as H. rewrite E in H. destruct H as (_ & _ & Ht' & Hget).
  assert (Gr : ix_get t' r = Some x) by (rewrite Hget; by rewrite decide_True). ands; [done|done|by apply ix_get_iff in Gr as [? _]|].
  intros y [i Hy]. destruct (ix_place _ Ht' i y Hy) as (idx & Hi & _). assert (G : ix_get t' idx = Some y) by (apply ix_get_iff; [done|]; split; [by exists i|done]).
  rewrite Hget in G. destruct (decide (idx = r)); [left; congruence|right]. destruct (ix_get t idx) as [z|] eqn:Gz; [|done]. cbn in G. destruct (z =? x); [done|].
  injection G as <-. by apply ix_get_iff in Gz as [? _].
Qed.

Lemma keys_ready_index d d' p entry a slots g t : keys_ready d p entry a slots g -> hd_slots d' = hd_slots d -> hd_pairs d' = hd_pairs d -> hd_pair_counter d' = hd_pair_counter d ->
  nd_index (hd_noise d') = t -> hd_pairs d !! entry = None -> ix_ok t -> (forall y, linked (ix_heads t) y -> y = entry \/ linked (ix_heads (nd_index (hd_noise d))) y) ->
  keys_ready d' p entry a slots g.
Proof.
  intros (K1 & K2 & K3 & K4 & K5) E1 E2 E3 E4 He Ht Hl. unfold keys_ready. rewrite E1, E2, E3, E4. ands; try done.
  - destruct K2 as [Hix Hc Hout Hdis Hli Hne Hcu]. split; cbn [ks_index ks_pairs ks_slots] in *; try done. intros x Hx Hin. apply Hli; [done|].
    unfold in_index in *. cbn [ks_index] in *. destruct (Hl x Hin) as [->|?]; [|done]. rewrite He in Hx. by destruct Hx.
  - intros H. destruct (Hl a H); done.
Qed.

Lemma begin_session_ok e p d np a slots g ini s r : nd_peers (hd_noise d) !! p = Some np -> keys_ready d p (np_entry np) a slots g -> hd_pairs d !! np_entry np = None ->
  e_pair e = Some a -> e_dead e = false -> session_keys (np_handshake np) (e_clock e 7) = Some (ini, s, r) -> linked (ix_heads (nd_index (hd_noise d))) (np_entry np) ->
  exists d' kp, begin_session e p d = Some (true, d') /\ hd_config d' = hd_config d /\ hd_slots d' !! p = Some (slots_add ini a slots) /\
    hd_pairs d' !! a = Some kp /\ sending kp = s /\ receiving kp = r /\ kp_remote_index kp = remote_index (np_handshake np) /\ i_am_the_initiator kp = ini /\
    (forall idx, ix_get (nd_index (hd_noise d)) idx = Some (np_entry np) -> ix_get (nd_index (hd_noise d')) idx = Some a).
Proof.
  intros Hp (K1 & K2 & K3 & K4 & K5) He Ea Ed Hk Hl. unfold begin_session, peer_keys. rewrite Hp, K1. cbn [mbind option_bind]. rewrite Ea, Ed.
  destruct (begin_ok (np_handshake np) (np_entry np) p a (e_clock e 7) (KState (hd_pairs d) (nd_index (hd_noise d)) (hd_pair_counter d) slots) g (ini, s, r) Hk) as (b & ks' & E & _ & Hsl & Hb & (kp & id & Hkp & Hnew) & Hidx & _);
    [|exact He|exact K2|]; [intros x [= <-]; done|].
  rewrite E. cbn [mbind option_bind]. assert (b = true) as -> by (rewrite Hb; by apply hashed_linked). injection Hnew as N1 N2 N3 N4 N5 N6 N7. cbn in N1, N2, N3, N4, N5, N6.
  eexists _, kp. split; [reflexivity|]. cbn [set_hd_keys set_hd_noise hd_config hd_slots hd_pairs hd_noise set_nd_index nd_index]. rewrite lookup_insert_eq, Hsl. ands; try done.
  intros idx Hi. by apply Hidx.
Qed.

(** A packet that is not under load and whose first MAC is right. *)
Lemma receive_unloaded {R} (allow : packet -> R -> option (bool * R)) e siphash skb n d last last' rl body macs :
  load_test e n last = (false, last') -> mh_validate (data_type skb) (header (hd_config d) MSGIDX_HANDSHAKE_COOKIE) = false ->
  hk_data skb = body ++ mac1 macs ++ mac2 macs -> macs_wf macs -> mac1 macs = blake2s_key (cc_message_mac1_key (hd_checker d)) body COOKIE_LEN ->
  wg_receive_handshake_packet allow e siphash skb n d last rl =
    ('(r, ds, d) ← receive_branches e siphash skb false (set_hd_checker (hd_checker d) d); Some (r, ds, d, last', rl)).
Proof.
  intros Hlt Hc Hd [W1 W2] Hm. unfold wg_receive_handshake_packet. rewrite Hc, Hlt.
  rewrite (validate_layout allow (hd_checker d) skb false _ _ _ rl body (mac1 macs) (mac2 macs) Hd W1 W2), bool_decide_true by done. reflexivity.
Qed.

Lemma header_of_kind c i j ty : config_ok c -> (i < 4)%nat -> (j < 4)%nat -> i <> j -> mh_validate ty (header c i) = true -> mh_validate ty (header c j) = false.
Proof. intros Ok Hi Hj D V. by apply (co_disjoint _ Ok i j). Qed.

Lemma genheader_ok e mh : env_sane e -> mh_wf mh -> is_u32 (mh_genheader (e_inclusive e) mh) /\ mh_validate (mh_genheader (e_inclusive e) mh) mh = true.
Proof.
  intros He [H1 H2]. pose proof (es_inclusive _ He (mh_start mh) (mh_end mh) ltac:(lia)) as H. unfold mh_genheader, is_u32. split; [lia|]. apply mh_validate_spec. lia.
Qed.

(** Sending an initiation. *)
Lemma send_initiation_ok e p d np ck other last m hs tbl : party d p np ck other -> env_sane e -> e_buffer e = true ->
  e_skb e (5 + Z.to_nat (cf_jc (hd_config d))) = true ->
  hd_last_sent d !! p = Some last -> wg_birthdate_has_expired last REKEY_TIMEOUT (e_clock e 0) = true ->
  wg_noise_handshake_create_initiation (nd_identity (hd_noise d)) (np_handshake np) (mh_genheader (e_inclusive e) (header (hd_config d) MSGIDX_HANDSHAKE_INIT))
    (e_secret e) (e_wall e).1 (e_wall e).2 (nd_index (hd_noise d)) (np_entry np) (e_index e) = Some (Some m, hs, tbl) ->
  exists effs ds l macs body ck' specs d1,
    wg_packet_send_handshake_initiation e p d = Some (effs, d1) /\ datagrams effs = ds ++ [l ++ initiation_bytes (with_macs macs m)] /\
    len l = junk_size (hd_config d) MSGIDX_HANDSHAKE_INIT /\ initiation_wf (with_macs macs m) /\
    initiation_bytes (with_macs macs m) = body ++ mac1 macs ++ mac2 macs /\ macs_wf macs /\
    mac1 macs = blake2s_key (precompute_key (static_public other) mac1_key_label) body COOKIE_LEN /\
    mh_validate (mi_type m) (header (hd_config d) MSGIDX_HANDSHAKE_INIT) = true /\ is_u32 (mi_sender_index m) /\
    hd_config d1 = set_ispecs specs (hd_config d) /\
    hd_noise d1 = set_nd_index tbl (set_peer_hs p (NoisePeer hs (np_entry np) (np_advanced_security np)) (hd_noise d)) /\
    hd_pairs d1 = hd_pairs d /\ hd_pair_counter d1 = hd_pair_counter d /\ hd_slots d1 = hd_slots d /\ hd_checker d1 = hd_checker d /\
    hd_cookies d1 !! p = Some ck'.
Proof.
  intros P He Hb Hskb Hlast Hexp Hc. destruct P as [Pc Ps Pi Pr Pid Pp Ppa Pck Pm Pch Pix [idx0 Pen] Ppr].
  destruct (genheader_ok e _ He Pi) as [Tu Tv].
  destruct (create_initiation_wf _ _ _ _ _ _ _ _ _ _ _ _ Pid Pix ltac:(by rewrite Pen) (es_index _ He) Tu Hc) as [W Ety].
  destruct (initiation_macs m (e_clock e 2) ck W) as (macs & ck' & Em & Wm & _ & _ & body & Eb & Wmacs & M1).
  destruct (send_specs_ok e (cf_imitate_proto (hd_config d)) He (cf_ispecs (hd_config d)) 0 [] ltac:(constructor) Ps) as (ds1 & specs & Esp & _).
  unfold wg_packet_send_handshake_initiation. rewrite Hlast, Pp, Pck. cbn [mbind option_bind]. rewrite Hexp. cbn [negb].
  cbn [hd_config set_hd_last_sent]. rewrite Esp. cbn [mbind option_bind set_hd_config hd_junk_counter set_hd_last_sent].
  assert (Jk : exists ds2 counter, (if negb (cf_jc (hd_config d) =? 0) && negb (cf_jmax (hd_config d) =? 0)
       then send_junk e (hd_config d) 5 (Z.to_nat (cf_jc (hd_config d))) (if e_buffer e then Some (replicate (Z.to_nat (cf_jmax (hd_config d))) 0) else None) (hd_junk_counter d)
       else Some ([], hd_junk_counter d)) = Some (ds2, counter)).
  { destruct (_ && _) eqn:B; [|eauto]. zbool. destruct (co_junk _ Pc) as [J1 J2]; [done|done|]. rewrite Hb. apply send_junk_ok; try done. rewrite len_replicate. lia. }
  destruct Jk as (ds2 & counter & ->). cbn [mbind option_bind hd_noise set_hd_junk_counter set_hd_config set_hd_last_sent]. rewrite Hc. cbn [mbind option_bind].
  rewrite Em. destruct (send_buffer_ok e (5 + Z.to_nat (cf_jc (hd_config d))) (cf_imitate_proto (hd_config d)) (initiation_bytes (with_macs macs m)) (junk_size (hd_config d) MSGIDX_HANDSHAKE_INIT) He)
    as (l & Hl & ->); [apply junk_nonneg; [done|unfold MSGIDX_HANDSHAKE_INIT, MSGIDX_HANDSHAKE_RESPONSE; lia]|left; by rewrite (proj2 (initiation_roundtrip _ Wm))|].
  rewrite Hskb. cbn [mbind option_bind sent]. eexists _, (datagrams (ds1 ++ ds2)), l, macs, body, ck', specs, _. split; [reflexivity|]. split; [unfold datagrams; by rewrite !omap_app, app_assoc|].
  cbn [hd_config hd_noise hd_pairs hd_pair_counter hd_slots hd_checker hd_cookies set_hd_last_sent set_hd_cookies set_hd_noise set_hd_junk_counter set_hd_config].
  ands; try done; [by rewrite M1, Pm|by rewrite Ety|apply W|by rewrite lookup_insert_eq].
Qed.

Lemma config_ok_specs specs c : config_ok c -> config_ok (set_ispecs specs c).
Proof. intros [? ? ? ? ? ? ? ?]. by split. Qed.

(** Receiving it. *)
Lemma receive_initiation_ok {R} (allow : packet -> R -> option (bool * R)) e siphash net source n d q np ck other last last' rl slots g a m body macs wg np1 m2 hs2 tbl2 ini s r :
  party d q np ck other -> env_sane e -> e_skb e 0 = true -> keys_ready d q (np_entry np) a slots g -> e_pair e = Some a -> e_dead e = false ->
  load_test e n last = (false, last') ->
  initiation_wf m -> mh_validate (mi_type m) (header (hd_config d) MSGIDX_HANDSHAKE_INIT) = true ->
  initiation_bytes m = body ++ mac1 macs ++ mac2 macs -> macs_wf macs -> mac1 macs = blake2s_key (cc_message_mac1_key (hd_checker d)) body COOKIE_LEN ->
  wg_noise_handshake_consume_initiation siphash (hd_noise d) m (mi_type m) (e_endpoint e).1 (e_endpoint e).2 (e_alive e) (e_clock e 12) (e_clock e 13) = Some (Some q, wg, None) ->
  nd_peers wg !! q = Some np1 -> nd_index wg = nd_index (hd_noise d) -> np_entry np1 = np_entry np -> is_u32 (remote_index (np_handshake np1)) ->
  wg_noise_handshake_create_response (np_handshake np1) (mh_genheader (e_inclusive e) (header (hd_config d) MSGIDX_HANDSHAKE_RESPONSE)) (e_secret e)
    (nd_index wg) (np_entry np1) (e_index e) = Some (Some m2, hs2, tbl2) ->
  session_keys hs2 (e_clock e 7) = Some (ini, s, r) ->
  exists effs l2 macs2 body2 d1 kp,
    wg_receive_handshake_packet allow e siphash (HandshakeSkb (initiation_bytes m) net source) n d last rl = Some (RxPeer q, effs, d1, last', rl) /\
    datagrams effs = [l2 ++ response_bytes (with_macs_r macs2 m2)] /\
    len l2 = junk_size (hd_config d) MSGIDX_HANDSHAKE_RESPONSE /\ response_wf (with_macs_r macs2 m2) /\
    response_bytes (with_macs_r macs2 m2) = body2 ++ mac1 macs2 ++ mac2 macs2 /\ macs_wf macs2 /\
    mac1 macs2 = blake2s_key (precompute_key (static_public other) mac1_key_label) body2 COOKIE_LEN /\
    mh_validate (mr_type m2) (header (hd_config d) MSGIDX_HANDSHAKE_RESPONSE) = true /\
    hd_slots d1 !! q = Some (slots_add ini a slots) /\ hd_pairs d1 !! a = Some kp /\ sending kp = s /\ receiving kp = r /\ kp_remote_index kp = remote_index hs2 /\
    ix_get (nd_index (hd_noise d1)) (mr_sender_index m2) = Some a.
Proof.
  intros P He Hskb K Ea Ed Hlt W V Eb Wm M1 Hcons Hp1 Hix1 Hen Hri Hresp Hk. destruct P as [Pc Ps Pi Pr Pid Pp Ppa Pck Pm Pch Pix [idx0 Pent] Ppr].
  destruct (initiation_roundtrip m W) as [Rm Lm]. assert (Ety : data_type (HandshakeSkb (initiation_bytes m) net source) = mi_type m) by (by apply initiation_type).
  destruct (genheader_ok e _ He Pr) as [Tu Tv].
  rewrite Hix1, Hen in Hresp. destruct (create_response_wf _ _ _ _ _ _ _ _ _ Pix ltac:(by rewrite Pent) (es_index _ He) Tu Hri Hresp) as [W2 Ety2].
  destruct (response_macs m2 (e_clock e 5) ck W2) as (macs2 & ck2 & Em2 & Wm2 & _ & _ & body2 & Eb2 & Wmacs2 & M2).
  destruct (create_response_inv _ _ _ _ _ _ _ _ _ Hresp) as (? & ? & ? & idx & ? & ? & ? & _ & _ & _ & _ & Hins & _ & Em2' & _).
  destruct (insert_linked _ _ _ _ _ Pix ltac:(by rewrite Pent) Hins) as (Ht2 & Gt2 & Lk2 & Sub2).
  rewrite (receive_unloaded allow e siphash _ n d last last' rl body macs Hlt); [|rewrite Ety; apply (header_of_kind _ 0 2); done || lia|done|done|done].
  unfold receive_branches. rewrite Ety. cbn [hd_config set_hd_checker]. rewrite V. unfold receive_initiation. cbn [hk_data]. rewrite Lm, Z.ltb_irrefl.
  rewrite Rm, Ety. cbn [hd_noise set_hd_checker]. rewrite Hcons. unfold wg_packet_send_handshake_response.
  cbn [hd_noise set_hd_noise set_hd_checker hd_cookies hd_config set_hd_last_sent]. rewrite Hp1, Pck. cbn [mbind option_bind]. rewrite Hix1, Hen, Hresp. cbn [mbind option_bind]. rewrite Em2.
  match goal with |- context [begin_session e q ?x] => set (d2 := x) end.
  destruct (begin_session_ok e q d2 (NoisePeer hs2 (np_entry np) (np_advanced_security np1)) a slots g ini s r)
    as (d3 & kp & E3 & C3 & S3 & P3 & R3); [by cbn; rewrite lookup_insert_eq| |done|done|done|done|done|].
  { apply (keys_ready_index d d2 q (np_entry np) a slots g tbl2); try done. }
  rewrite E3. cbn [mbind option_bind negb hd_config set_hd_last_sent set_hd_noise set_hd_checker].
  destruct (send_buffer_ok e 0 (cf_imitate_proto (hd_config d)) (response_bytes (with_macs_r macs2 m2)) (junk_size (hd_config d) MSGIDX_HANDSHAKE_RESPONSE) He)
    as (l2 & Hl2 & ->); [apply junk_nonneg; [done|unfold MSGIDX_HANDSHAKE_INIT, MSGIDX_HANDSHAKE_RESPONSE; lia]|left; by rewrite (proj2 (response_roundtrip _ Wm2))|].
  rewrite Hskb. cbn [mbind option_bind sent]. rewrite (header_of_kind (hd_config d) 0 MSGIDX_HANDSHAKE_RESPONSE (mi_type m) Pc) by (done || unfold MSGIDX_HANDSHAKE_RESPONSE; lia). cbn [mbind option_bind].
  eexists _, l2, macs2, body2, _, kp. split; [reflexivity|]. split; [done|]. destruct R3 as (R3 & R4 & R5 & R6 & R7). cbn [hd_slots set_hd_last_sent hd_pairs hd_noise].
  ands; try done; [by rewrite M2, Pm|by rewrite Ety2|]. apply R7. rewrite Em2'. exact Gt2.
Qed.

(** Receiving the answer. *)
Lemma receive_response_ok {R} (allow : packet -> R -> option (bool * R)) e siphash net source n d p entry last last' rl slots g a m body macs wg np ini s r :
  config_ok (hd_config d) -> keys_ready d p entry a slots g -> hd_pairs d !! entry = None -> e_pair e = Some a -> e_dead e = false ->
  load_test e n last = (false, last') ->
  response_wf m -> mh_validate (mr_type m) (header (hd_config d) MSGIDX_HANDSHAKE_RESPONSE) = true ->
  response_bytes m = body ++ mac1 macs ++ mac2 macs -> macs_wf macs -> mac1 macs = blake2s_key (cc_message_mac1_key (hd_checker d)) body COOKIE_LEN ->
  wg_noise_handshake_consume_response (hd_noise d) m (e_alive e) = Some (Some p, wg) ->
  nd_peers wg !! p = Some np -> np_entry np = entry -> ix_ok (nd_index wg) -> ix_heads (nd_index wg) = ix_heads (nd_index (hd_noise d)) ->
  linked (ix_heads (nd_index wg)) entry -> session_keys (np_handshake np) (e_clock e 7) = Some (ini, s, r) ->
  exists effs d1 kp,
    wg_receive_handshake_packet allow e siphash (HandshakeSkb (response_bytes m) net source) n d last rl = Some (RxPeer p, effs, d1, last', rl) /\
    datagrams effs = [] /\
    hd_slots d1 !! p = Some (slots_add ini a slots) /\ hd_pairs d1 !! a = Some kp /\ sending kp = s /\ receiving kp = r /\
    kp_remote_index kp = remote_index (np_handshake np) /\
    (forall idx, ix_get (nd_index wg) idx = Some entry -> ix_get (nd_index (hd_noise d1)) idx = Some a).
Proof.
  intros Pc K Hpr Ea Ed Hlt W V Eb Wm M1 Hcons Hp <- Hix Hh Hl Hk. destruct (response_roundtrip m W) as [Rm Lm].
  assert (Ety : data_type (HandshakeSkb (response_bytes m) net source) = mr_type m) by (by apply response_type).
  rewrite (receive_unloaded allow e siphash _ n d last last' rl body macs Hlt); [|rewrite Ety; apply (header_of_kind _ 1 2); done || lia|done|done|done].
  unfold receive_branches. rewrite Ety. cbn [hd_config set_hd_checker].
  rewrite (header_of_kind (hd_config d) 1 MSGIDX_HANDSHAKE_INIT (mr_type m) Pc) by (done || unfold MSGIDX_HANDSHAKE_INIT; lia). cbn [mbind option_bind hd_config set_hd_checker].
  rewrite V. unfold receive_response. cbn [hk_data]. rewrite Lm, Z.ltb_irrefl, Rm. cbn [hd_noise set_hd_checker]. rewrite Hcons.
  match goal with |- context [begin_session e p ?x] => set (d2 := x) end.
  destruct (begin_session_ok e p d2 np a slots g ini s r) as (d3 & kp & E3 & C3 & S3 & P3 & R3 & R4 & R5 & _ & R7); try done.
  { apply (keys_ready_index d d2 p (np_entry np) a slots g (nd_index wg)); try done. rewrite Hh. auto. }
  rewrite E3. cbn [mbind option_bind app]. by eexists _, d3, kp.
Qed.

End Device.

(** The sessions of two devices belong together: the initiator's current
    keypair and the responder's next keypair have the same two keys, and each
    side's index leads to the other's keypair. *)
Definition session_agrees (dI dR : hs_device) (p q aI aR : Z) : Prop :=
  exists slotsI slotsR kpI kpR,
    hd_slots dI !! p = Some slotsI /\ current_keypair slotsI = Some aI /\ hd_pairs dI !! aI = Some kpI /\
    hd_slots dR !! q = Some slotsR /\ next_keypair slotsR = Some aR /\ hd_pairs dR !! aR = Some kpR /\
    sk_key (sending kpI) = sk_key (receiving kpR) /\ sk_key (receiving kpI) = sk_key (sending kpR) /\
    ix_get (nd_index (hd_noise dR)) (kp_remote_index kpI) = Some aR /\ ix_get (nd_index (hd_noise dI)) (kp_remote_index kpR) = Some aI.

Lemma same_format_header c c' i : same_format c c' -> header c' i = header c i.
Proof. intros [H _]. unfold header. by rewrite H. Qed.
Lemma same_format_junk c c' i : same_format c c' -> junk_size c' i = junk_size c i.
Proof. intros [_ H]. unfold junk_size. by rewrite H. Qed.

(** C1: A handshake between two configured devices comes about.  When the
    peers know each other, use the same headers and junk sizes
    (with S1 + 56 <> S2) and are not under load, the last datagram the initiator
    sends is recognised by the responder wherever it is in a packet, the
    responder answers it with one datagram, the initiator recognises that
    one, and both end with sessions that belong together. *)
Theorem handshake_end_to_end `{NL : NoiseCryptoLaws} `{CL : CookieCryptoLaws} {R} (allow : packet -> R -> option (bool * R)) siphash eI eR eI2 dI dR p q npI npR ckI ckR
    lastI slotsI gI aI slotsR gR aR m1 hsI1 tblI1 netI srcI nR lastR lastR' rlR netR srcR nI lastI2 lastI2' rlI :
  party dI p npI ckI (nd_identity (hd_noise dR)) -> party dR q npR ckR (nd_identity (hd_noise dI)) -> same_format (hd_config dI) (hd_config dR) ->
  junk_size (hd_config dI) MSGIDX_HANDSHAKE_INIT + 56 <> junk_size (hd_config dI) MSGIDX_HANDSHAKE_RESPONSE ->
  preshared_key (np_handshake npR) = preshared_key (np_handshake npI) ->
  env_sane eI -> e_buffer eI = true -> e_skb eI (5 + Z.to_nat (cf_jc (hd_config dI))) = true ->
  hd_last_sent dI !! p = Some lastI -> wg_birthdate_has_expired lastI REKEY_TIMEOUT (e_clock eI 0) = true ->
  wg_noise_handshake_create_initiation (nd_identity (hd_noise dI)) (np_handshake npI) (mh_genheader (e_inclusive eI) (header (hd_config dI) MSGIDX_HANDSHAKE_INIT))
    (e_secret eI) (e_wall eI).1 (e_wall eI).2 (nd_index (hd_noise dI)) (np_entry npI) (e_index eI) = Some (Some m1, hsI1, tblI1) ->
  env_sane eR -> e_skb eR 0 = true -> keys_ready dR q (np_entry npR) aR slotsR gR -> e_pair eR = Some aR -> e_dead eR = false ->
  load_test eR nR lastR = (false, lastR') ->
  wg_pubkey_hashtable_lookup siphash (nd_pubkeys (hd_noise dR)) (static_public (nd_identity (hd_noise dI))) (e_alive eR) = Some q ->
  replay_attack (tai64n_now (e_wall eI).1 (e_wall eI).2) (np_handshake npR) = false -> flood_attack (e_clock eR 12) (np_handshake npR) = false ->
  keys_ready dI p (np_entry npI) aI slotsI gI -> e_pair eI2 = Some aI -> e_dead eI2 = false -> load_test eI2 nI lastI2 = (false, lastI2') -> e_alive eI2 p = true ->
  exists effs1 ds dg1 msg1 dI1 wgR1 npR1,
    wg_packet_send_handshake_initiation eI p dI = Some (effs1, dI1) /\ datagrams effs1 = ds ++ [dg1] /\ delivers (hd_config dR) dg1 msg1 /\
    wg_noise_handshake_consume_initiation siphash (hd_noise dR) m1 (mi_type m1) (e_endpoint eR).1 (e_endpoint eR).2 (e_alive eR) (e_clock eR 12) (e_clock eR 13) = Some (Some q, wgR1, None) /\
    nd_peers wgR1 !! q = Some npR1 /\
    forall m2 hsR2 tblR2,
      wg_noise_handshake_create_response (np_handshake npR1) (mh_genheader (e_inclusive eR) (header (hd_config dR) MSGIDX_HANDSHAKE_RESPONSE)) (e_secret eR)
        (nd_index (hd_noise dR)) (np_entry npR) (e_index eR) = Some (Some m2, hsR2, tblR2) ->
      exists effs2 dg2 msg2 dR1 effs3 dI2,
        wg_receive_handshake_packet allow eR siphash (HandshakeSkb msg1 netI srcI) nR dR lastR rlR = Some (RxPeer q, effs2, dR1, lastR', rlR) /\
        datagrams effs2 = [dg2] /\ delivers (hd_config dI1) dg2 msg2 /\
        wg_receive_handshake_packet allow eI2 siphash (HandshakeSkb msg2 netR srcR) nI dI1 lastI2 rlI = Some (RxPeer p, effs3, dI2, lastI2', rlI) /\
        session_agrees dI2 dR1 p q aI aR.
Proof.
  intros PI PR F S56 Hpsk HeI HbI HsI HlI HxI Hcr HeR HsR KR EaR EdR LtR Hlook Hrep Hfl KI EaI EdI LtI Hal.
  destruct (send_initiation_ok eI p dI npI ckI _ lastI m1 hsI1 tblI1 PI HeI HbI HsI HlI HxI Hcr)
    as (effs1 & ds & l & macs & body & ck' & specs & dI1 & Es & Eds & Hl & W1 & Eb & Wm & M1 & V1 & U1 & Ec1 & En1 & Ep1 & Ect1 & Esl1 & Eck1 & _).
  destruct (handshake_agreement siphash (hd_noise dI) (hd_noise dR) p q npI npR (e_alive eR) (e_alive eI2) (mh_genheader (e_inclusive eI) (header (hd_config dI) MSGIDX_HANDSHAKE_INIT))
    (e_secret eI) (e_wall eI).1 (e_wall eI).2 (e_index eI) m1 hsI1 tblI1 (mi_type m1) (e_endpoint eR).1 (e_endpoint eR).2 (e_clock eR 12) (e_clock eR 13) (np_advanced_security npI))
    as (wgR1 & npR1 & Hci & HpR1 & HixR1 & HenR1 & Hrest); try done; try apply PI; try apply PR; try done.
  exists effs1, ds, (l ++ initiation_bytes (with_macs macs m1)), (initiation_bytes (with_macs macs m1)), dI1, wgR1, npR1. split; [done|]. split; [done|]. split; [|split; [done|split; [done|]]].
  { apply delivers_initiation; [apply PR|done|by rewrite (same_format_junk _ _ _ F)|by rewrite (same_format_header _ _ _ F)]. }
  intros m2 hsR2 tblR2 Hresp. destruct (Hrest _ _ _ _ _ _ _ _ Hresp) as (wgI2 & npI2 & Hcr2 & HpI2 & HenI2 & HixI2 & _ & HriI & HriR & Hkeys).
  destruct (Hkeys (e_clock eI2 7) (e_clock eR 7)) as (sI & rI & sR & rR & KsI & KsR & Ek1 & Ek2).
  assert (HriR1 : remote_index (np_handshake npR1) = mi_sender_index m1).
  { rewrite <- HriR. by destruct (create_response_inv _ _ _ _ _ _ _ _ _ Hresp) as (? & ? & ? & ? & ? & ? & ? & _ & _ & _ & _ & _ & _ & _ & ->). }
  rewrite <- HixR1, <- HenR1 in Hresp.
  destruct (receive_initiation_ok allow eR siphash netI srcI nR dR q npR ckR _ lastR lastR' rlR slotsR gR aR (with_macs macs m1) body macs wgR1 npR1 m2 hsR2 tblR2 false sR rR PR)
    as (effs2 & l2 & macs2 & body2 & dR1 & kpR & Er & Edg2 & Hl2 & W2 & Eb2 & Wm2 & M2 & V2 & SR & PRa & KRs & KRr & KRi & GR); try done.
  { by rewrite (same_format_header _ _ _ F). } { rewrite M1. by rewrite (pa_checker _ _ _ _ _ PR). } { by rewrite HriR1. }
  destruct (create_initiation_inv _ _ _ _ _ _ _ _ _ _ _ _ Hcr) as (? & ? & idx & ? & ? & ? & ? & _ & _ & _ & _ & Hins & _ & Em1 & _).
  destruct (pa_entry _ _ _ _ _ PI) as [idx0 HentI]. destruct (insert_linked _ _ _ _ _ (pa_index _ _ _ _ _ PI) ltac:(by rewrite HentI) Hins) as (Ht1 & Gt1 & Lk1 & Sub1).
  destruct (index_lookup_ok tblI1 INDEX_HASHTABLE_HANDSHAKE (mi_sender_index m1) (e_alive eI2) Ht1) as (Ht2 & Hh2 & Hg2). cbv zeta in Ht2, Hh2, Hg2. rewrite <- HixI2 in Ht2, Hh2, Hg2.
  assert (F1 : same_format (hd_config dR) (hd_config dI1)) by (rewrite Ec1; split; symmetry; apply F).
  assert (Ok1 : config_ok (hd_config dI1)) by (rewrite Ec1; apply config_ok_specs, PI).
  destruct (receive_response_ok allow eI2 siphash netR srcR nI dI1 p (np_entry npI) lastI2 lastI2' rlI slotsI gI aI (with_macs_r macs2 m2) body2 macs2 wgI2 npI2 true sI rI Ok1)
    as (effs3 & dI2 & kpI & Er2 & _ & SI & PIa & KIs & KIr & KIi & GI); try done.
  { apply (keys_ready_index dI dI1 p (np_entry npI) aI slotsI gI tblI1); try done; [by rewrite En1|apply PI]. }
  { rewrite Ep1. apply PI. } { by rewrite (same_format_header _ _ _ F1). } { rewrite M2, Eck1. by rewrite (pa_checker _ _ _ _ _ PI). }
  { rewrite En1. exact Hcr2. } { by rewrite En1, Hh2. } { by rewrite Hh2. }
  exists effs2, (l2 ++ response_bytes (with_macs_r macs2 m2)), (response_bytes (with_macs_r macs2 m2)), dR1, effs3, dI2. split; [done|]. split; [done|]. split; [|split; [done|]].
  { apply delivers_response; try done; [by rewrite (same_format_junk _ _ _ F1)|by rewrite !(same_format_junk _ _ _ F1), !(same_format_junk _ _ _ F)|by rewrite (same_format_header _ _ _ F1)]. }
  exists (slots_add true aI slotsI), (slots_add false aR slotsR), kpI, kpR. rewrite KRs, KRr, KIs, KIr, KIi, KRi, HriI, HriR. ands; try done.
  apply GI. by rewrite Hg2, Em1.
Qed.

(** ** The timers *)

Lemma sent_no_events o : timer_events (sent o) = [].
Proof. by destruct o. Qed.

Lemma send_specs_no_events e proto todo : forall i done ds specs, send_specs e proto i done todo = Some (ds, specs) -> timer_events ds = [].
Proof.
  induction todo as [|spec todo IH]; intros i done ds specs H; cbn [send_specs] in H; [by injection H as <- _|]. destruct (0 <? spec_pkt_size spec); [|by eapply IH].
  destruct (jp_spec_applymods _ _) as [spec'|]; [|done]. destruct (spec_pkt spec'); [|done]. destruct (send_buffer _ _ _ _ _) as [o|]; [|done].
  destruct (send_specs _ _ _ _ _) as [[ds' specs']|] eqn:E; [|done]. injection H as <- _. rewrite timer_events_app, sent_no_events. by eapply IH.
Qed.

Lemma send_junk_no_events e c n : forall i b k ds k', send_junk e c i n b k = Some (ds, k') -> timer_events ds = [].
Proof.
  induction n as [|n IH]; intros i b k ds k' H; cbn [send_junk] in H; [by injection H as <- _|]. destruct (wg_fill_junk _ _ _ _) as [fill k1].
  destruct (match b with Some _ => _ | None => _ end) as [b'|]; [|done]. destruct (len b' <? _); [done|]. destruct (send_buffer _ _ _ _ _) as [o|]; [|done].
  destruct (send_junk _ _ _ _ _ _) as [[ds' k2]|] eqn:E; [|done]. injection H as <- _. rewrite timer_events_app, sent_no_events. by eapply IH.
Qed.

(** Sending an initiation does to the timers what [send_initiation_timing] says. *)
Lemma initiation_timing `{N : NoiseCrypto} `{C : CookieCrypto} HZ te e p d effs d' t : (forall i, e_clock e i = te_clock te) -> hd_last_sent d !! p = Some (last_sent_handshake t) ->
  wg_packet_send_handshake_initiation e p d = Some (effs, d') ->
  exists created last, hd_last_sent d' !! p = Some last /\
    send_initiation_timing HZ te created t = fold_left (fun t ev => run_timer_event HZ te ev t) (timer_events effs) (set_last_sent last t).
Proof.
  intros Hcl Hl H. unfold wg_packet_send_handshake_initiation in H. rewrite Hl in H. cbn [mbind option_bind] in H.
  destruct (nd_peers (hd_noise d) !! p) as [np|]; [|done]. destruct (hd_cookies d !! p) as [ck|]; [|done]. cbn [mbind option_bind] in H. rewrite !Hcl in H.
  unfold send_initiation_timing. destruct (wg_birthdate_has_expired _ _ _) eqn:Ex; cbn [negb] in *.
  2: { injection H as <- <-. exists false, (last_sent_handshake t). cbn. by destruct t. }
  apply bind_Some in H as ([ds1 specs] & H1 & H). apply bind_Some in H as ([ds2 k] & H2 & H). apply bind_Some in H as ([[m hs] tbl] & H3 & H).
  apply send_specs_no_events in H1. assert (E2 : timer_events ds2 = []) by (destruct (_ && _); [by eapply send_junk_no_events|by injection H2 as <- _]). clear H2.
  destruct m as [m|].
  - destruct (wg_cookie_add_mac_to_packet _ _ _) as [pkt ck']. apply bind_Some in H as (o & H & [= <- <-]). exists true, (te_clock te). split; [cbn; by rewrite lookup_insert_eq|].
    rewrite !timer_events_app, H1, E2. destruct o; cbn; unfold wg_timers_handshake_initiated, wg_timers_any_authenticated_packet_traversal, mod_peer_timer; cbn; timer_cases; done.
  - injection H as <- <-. exists false, (te_clock te). split; [cbn; by rewrite lookup_insert_eq|]. by rewrite timer_events_app, H1, E2.
Qed.

(** ** A pair of devices *)

Section Example.

#[local] Existing Instances toy_crypto toy_laws toy_cookie toy_cookie_laws.

Definition demo_env (clock : Z) (secret index : Z) : env := {|
  e_clock := fun _ => clock; e_wall := (1, 0); e_inclusive := fun lo _ => lo; e_junk_size := fun _ lo _ => lo;
  e_mods := fun _ _ => ModEnv 0 0 zeros (fun _ => 0) (fun st n => (zeros n, st)); e_rnd := fun _ => zeros; e_skb := fun _ => true;
  e_garbage := fun _ => zeros; e_buffer := true; e_secret := secret :: zeros 31; e_nonce := zeros 24; e_cookie_secret := fun _ => zeros 32;
  e_index := [index]; e_pair := Some 2; e_alive := fun _ => true; e_dead := false; e_endpoint := (true, true)
|}.

Definition demo_device (me other : Z) : hs_device := {|
  hd_config := sample_config; hd_noise := toy_device me other; hd_pairs := ∅; hd_pair_counter := 0; hd_slots := {[ 7 := Keypairs None None None ]};
  hd_checker := wg_cookie_checker_precompute_device_keys (Some (static_public (toy_identity me))) (wg_cookie_checker_init 5 (zeros 32));
  hd_cookies := {[ 7 := wg_cookie_checker_precompute_peer_keys (static_public (toy_identity other)) wg_cookie_init ]};
  hd_last_sent := {[ 7 := 0 ]}; hd_junk_counter := 0
|}.

Definition demo_initiation := wg_noise_handshake_create_initiation (toy_identity 3) (np_handshake (toy_peer 3 5)) 100 (11 :: zeros 31) 1 0 ix_example 1 [1234].
Definition demo_m1 : message_handshake_initiation := match demo_initiation with Some (Some m, _, _) => m | _ => toy_message 1 end.
Definition demo_sent : noise_handshake * index_hashtable := match demo_initiation with Some (_, hs, tbl) => (hs, tbl) | _ => toy_initiator end.

(** What device 5 answers. *)
Definition demo_answer : option (option message_handshake_response * noise_handshake * index_hashtable) :=
  '(_, wg, _) ← wg_noise_handshake_consume_initiation toy_siphash (toy_device 5 3) demo_m1 (mi_type demo_m1) true true (fun _ => true) 20000000000 20000000000;
  np ← nd_peers wg !! 7; wg_noise_handshake_create_response (np_handshake np) 201 (13 :: zeros 31) ix_example 1 [99].

Lemma demo_answers : exists m2 hs tbl, demo_answer = Some (Some m2, hs, tbl).
Proof. destruct demo_answer as [[[[m2|] hs] tbl]|] eqn:E; [eauto|vm_compute in E; discriminate..]. Qed.

Lemma demo_env_sane clock secret index : (0 <=? index) && (index <? 2 ^ 32) = true -> env_sane (demo_env clock secret index).
Proof.
  intros Hi. zbool. assert (forall n, 0 <= n -> len (zeros n) = n /\ all_bytes (zeros n)) as Hz by (intros; split; [by apply len_zeros|apply all_bytes_zeros]).
  split; cbn.
  - intros i k Hk. by apply Hz.
  - intros i k Hk. by apply Hz.
  - intros i j. split; [intros k Hk; by apply Hz|intros st k Hk; by apply Hz].
  - intros lo hi Hlo. lia.
  - intros i lo hi Hlo. lia.
  - constructor; [unfold is_u32; lia|done].
Qed.

Lemma demo_party me other : has_identity (toy_identity me) = true -> party (demo_device me other) 7 (toy_peer me other) (wg_cookie_checker_precompute_peer_keys (static_public (toy_identity other)) wg_cookie_init) (toy_identity other).
Proof.
  intros Hi. split; try done.
  - apply sample_config_ok.
  - cbn. repeat constructor.
  - by apply toy_identity_ok.
  - apply (proj1 ix_example_ok).
  - by eexists.
Qed.

Lemma demo_ready me other : keys_ready (demo_device me other) 7 1 2 (Keypairs None None None) (Refs (fun _ => 0) ∅).
Proof.
  unfold keys_ready. ands; try done; [apply kinv_init, (proj1 ix_example_ok)|]. intros [i Hi]. cbn in Hi. rewrite bucket_empty in Hi. inversion Hi.
Qed.

Lemma handshake_end_to_end_witness : exists effs1 ds dg1 msg1 dI1 effs2 dg2 msg2 dR1 effs3 dI2,
  wg_packet_send_handshake_initiation (demo_env 20000000000 11 1234) 7 (demo_device 3 5) = Some (effs1, dI1) /\ datagrams effs1 = ds ++ [dg1] /\
  wg_receive_handshake_packet toy_allow (demo_env 20000000000 13 99) toy_siphash (HandshakeSkb msg1 toy_net [0; 1]) 0 (demo_device 5 3) 0 0 = Some (RxPeer 7, effs2, dR1, 0, 0) /\ datagrams effs2 = [dg2] /\
  wg_receive_handshake_packet toy_allow (demo_env 20000000000 11 1234) toy_siphash (HandshakeSkb msg2 toy_net' [0; 2]) 0 dI1 0 0 = Some (RxPeer 7, effs3, dI2, 0, 0) /\
  delivers sample_config dg1 msg1 /\ session_agrees dI2 dR1 7 7 2 2.
Proof.
  destruct demo_answers as (m2 & hs2 & tbl2 & A).
  destruct (handshake_end_to_end toy_allow toy_siphash (demo_env 20000000000 11 1234) (demo_env 20000000000 13 99) (demo_env 20000000000 11 1234) (demo_device 3 5) (demo_device 5 3) 7 7
    (toy_peer 3 5) (toy_peer 5 3) _ _ 0 _ _ 2 _ _ 2 demo_m1 demo_sent.1 demo_sent.2 toy_net [0; 1] 0 0 0 0 toy_net' [0; 2] 0 0 0 0
    (demo_party 3 5 eq_refl) (demo_party 5 3 eq_refl) (conj eq_refl eq_refl) ltac:(done) eq_refl (demo_env_sane _ 11 1234 eq_refl) eq_refl eq_refl eq_refl eq_refl
    ltac:(vm_compute; reflexivity) (demo_env_sane _ 13 99 eq_refl) eq_refl (demo_ready 5 3) eq_refl eq_refl eq_refl ltac:(vm_compute; reflexivity)
    ltac:(vm_compute; reflexivity) ltac:(vm_compute; reflexivity) (demo_ready 3 5) eq_refl eq_refl eq_refl eq_refl)
    as (effs1 & ds & dg1 & msg1 & dI1 & wg & np & H1 & H1' & H2 & H3 & H4 & H5).
  unfold demo_answer in A. cbn [e_endpoint e_alive e_clock demo_env fst snd hd_noise demo_device] in H3. rewrite H3 in A. cbn [mbind option_bind] in A. rewrite H4 in A.
  destruct (H5 m2 hs2 tbl2 A) as (effs2 & dg2 & msg2 & dR1 & effs3 & dI2 & H6 & H6' & _ & H7 & H8). exists effs1, ds, dg1, msg1, dI1, effs2, dg2, msg2, dR1, effs3, dI2.
  exact (conj H1 (conj H1' (conj H6 (conj H6' (conj H7 (conj H2 H8)))))).
Defined.

(** Two packets of one source while the queue is long: without a cookie the
    first is answered with one, a packet with bad MACs is dropped. *)
Definition demo_load : list rx_event :=
  [RxPacket (RxItem (demo_env 20000000000 13 99) (HandshakeSkb (initiation_bytes demo_m1) pkt_example [0; 1]) 600 7 100 true); RxGc 200;
   RxPacket (RxItem (demo_env 20000000000 13 99) (HandshakeSkb (wg_cookie_add_mac_to_packet (initiation_bytes demo_m1) 0 (wg_cookie_checker_precompute_peer_keys (static_public (toy_identity 5)) wg_cookie_init)).1 pkt_example [0; 1]) 600 7 300 true)].

Lemma demo_load_result : exists d last rl,
  run_rx toy_siphash (fun _ _ => 0) (fun _ _ _ => 0) demo_load (demo_device 5 3) 0 rl_example = Some ([RxBadMac; RxWarned; RxCookieSent], d, last, rl).
Proof.
  assert (E : (fun r => r.1.1.1) <$> run_rx toy_siphash (fun _ _ => 0) (fun _ _ _ => 0) demo_load (demo_device 5 3) 0 rl_example = Some [RxBadMac; RxWarned; RxCookieSent])
    by (vm_compute; reflexivity).
  apply fmap_Some in E as ([[[rs d] last] rl] & -> & ->). by exists d, last, rl.
Qed.


End Example.
