(* ===== verification/Transport.v ===== *)
(** * Data packets ([src/send.c], [src/receive.c])

    The way of a packet through the tunnel: waiting for a key, its nonce,
    padding and encryption on one side; the keypair it names, decryption, the
    replay window, the check of its length and of its source address on the
    other.  The queues in between are the subject of [Pipeline].  The
    congestion bits that [INET_ECN_decapsulate] may set in an inner header
    are a parameter. *)

From S2P Require Import Prelude Words Messages MagicHeader Buffer Replay IpBits AllowedIps AllowedIpsSpec Imitate Junk PeerLookup Noise Keypairs Config Dispatch Wire Timers Handshake Pipeline.
From stdpp Require Import gmap list fin_maps.
#[local] Open Scope Z_scope.

(** ** Packets *)

(** A packet of the tunnel on its way out: its bytes, and [mtu] and [nonce] of
    its control block. *)
Record tx_packet := TxPacket { tp_data : list Z; tp_mtu : Z; tp_nonce : Z }.

Definition set_nonce (n : Z) (p : tx_packet) : tx_packet := TxPacket (tp_data p) (tp_mtu p) n.

(** [ALIGN(x, MESSAGE_PADDING_MULTIPLE)] on an [unsigned int]. *)
Definition align_padding (x : Z) : Z := Z.land (u32 (x + (MESSAGE_PADDING_MULTIPLE - 1))) (u32 (Z.lnot (MESSAGE_PADDING_MULTIPLE - 1))).

Definition calculate_skb_padding (skb_len mtu : Z) : Z :=
  let last_unit := skb_len in
  if mtu =? 0 then u32 (align_padding last_unit - last_unit)
  else
    let last_unit := if last_unit >? mtu then last_unit mod mtu else last_unit in
    let padded_size := Z.min mtu (align_padding last_unit) in
    u32 (padded_size - last_unit).

(** What [encrypt_packet] depends on besides its arguments: allocations, the
    checksum (the packet with its checksums filled in), random bytes, and what new memory holds. *)
Record tx_env := TxEnv {
  tx_cow_data : bool;
  tx_cow_head : bool;
  tx_checksum : list Z -> option (list Z);
  tx_sgvec : bool;
  tx_rnd : Z -> list Z;
  tx_garbage : Z -> list Z
}.

(** ** Waiting for a key *)

(** The loop over the packets: each takes the next value of the counter. *)
Fixpoint assign_nonces (packets : list tx_packet) (sending_counter : Z) : option (list tx_packet) * Z :=
  match packets with
  | [] => (Some [], sending_counter)
  | skb :: packets' =>
      let sending_counter := u64 (sending_counter + 1) in
      let nonce := u64 (sending_counter - 1) in
      if nonce >=? REJECT_AFTER_MESSAGES then (None, sending_counter)
      else let '(r, c) := assign_nonces packets' sending_counter in ((fun l => set_nonce nonce skb :: l) <$> r, c)
  end.

Definition set_sending_counter (c : Z) (kp : noise_keypair) : noise_keypair :=
  Keypair (sending kp) c (receiving kp) (receiving_counter kp) (kp_remote_index kp) (i_am_the_initiator kp) (refcount kp) (internal_id kp).

(** What the data path keeps for a peer: its keypairs, the packets waiting in
    [staged_packet_queue], and [sent_lastminute_handshake]. *)
Record tstate := TState { t_keys : kstate; t_staged : list tx_packet; t_lastminute : bool }.

(** What became of the packets: there were none, they are a batch for the
    keypair, or they wait and a handshake is asked for. *)
Inductive staged_result := StagedEmpty | StagedBatch (keypair : Z) (batch : list tx_packet) | StagedWait.

(** [wg_packet_send_staged_packets] up to [wg_packet_create_data], at the clock
    [now].  Packets that wait keep the nonces they had; the next attempt
    overwrites them. *)
Definition wg_packet_send_staged_packets (now : Z) (st : tstate) : option (staged_result * tstate) :=
  match t_staged st with
  | [] => Some (StagedEmpty, st)
  | packets =>
      '(keypair, ks) ← wg_noise_keypair_get (current_keypair (ks_slots (t_keys st))) (t_keys st);
      match keypair with
      | None => Some (StagedWait, TState ks packets (t_lastminute st))
      | Some x =>
          let out_nokey ks := ks ← wg_noise_keypair_put (Some x) false ks; Some (StagedWait, TState ks packets (t_lastminute st)) in
          kp ← ks_pairs ks !! x;
          if negb (is_valid (sending kp)) then out_nokey ks
          else if wg_birthdate_has_expired (birthdate (sending kp)) REJECT_AFTER_TIME now then out_nokey (set_pair x (invalidate_sending kp) ks)
          else
            match assign_nonces packets (sending_counter kp) with
            | (None, c) => out_nokey (set_pair x (invalidate_sending (set_sending_counter c kp)) ks)
            | (Some batch, c) => Some (StagedBatch x batch, TState (set_pair x (set_sending_counter c kp) ks) [] (t_lastminute st))
            end
      end
  end.

(** A packet that has to wait asks for a handshake. *)
Definition staged_effects (peer : Z) (r : staged_result) : list effect := match r with StagedWait => [QueueInitiation peer] | _ => [] end.

(** [wg_packet_send_keepalive]: an empty packet is staged if nothing waits;
    [mtu] is that of the device and [alloc] whether there is memory. *)
Definition wg_packet_send_keepalive (now mtu : Z) (alloc : bool) (st : tstate) : option (staged_result * tstate) :=
  match t_staged st with
  | [] => if negb alloc then Some (StagedEmpty, st) else wg_packet_send_staged_packets now (TState (t_keys st) [TxPacket [] mtu 0] (t_lastminute st))
  | _ => wg_packet_send_staged_packets now st
  end.

(** [wg_packet_purge_staged_packets]: how many packets were dropped. *)
Definition wg_packet_purge_staged_packets (st : tstate) : Z * tstate := (len (t_staged st), TState (t_keys st) [] (t_lastminute st)).

Section Transport.

Context `{C : NoiseCrypto}.

(** ** Encryption *)

(** [Some None]: the packet could not be encrypted; [None]: a store outside
    the packet. *)
Definition encrypt_packet (proto : imitate_proto) (message_type junk_size : Z) (e : tx_env) (skb : tx_packet) (keypair : noise_keypair) : option (option (list Z)) :=
  let padding_len := calculate_skb_padding (len (tp_data skb)) (tp_mtu skb) in
  let trailer_len := padding_len + noise_encrypted_len 0 in
  let plaintext_len := len (tp_data skb) + padding_len in
  if negb (tx_cow_data e) then Some None
  else if negb (tx_cow_head e) then Some None
  else
    match tx_checksum e (tp_data skb) with
    | None => Some None
    | Some data =>
        let header := data_bytes (Build_message_data message_type (kp_remote_index keypair) (tp_nonce skb) []) in
        let trailer := zeros padding_len ++ tx_garbage e (noise_encrypted_len 0) in
        let skb_len := junk_size + len header + len data + trailer_len in
        match wg_fill_padding proto (tx_rnd e) skb_len junk_size (tx_garbage e junk_size ++ header ++ data ++ trailer) with
        | None => None
        | Some bytes =>
            if negb (tx_sgvec e) then Some None
            else
              let start := Z.to_nat (junk_size + MESSAGE_TRANSPORT_SIZE) in
              let plaintext := firstn (Z.to_nat plaintext_len) (skipn start bytes) in
              Some (Some (firstn start bytes ++ chacha20poly1305_encrypt plaintext [] (tp_nonce skb) (sk_key (sending keypair))))
        end
    end.

(** The loop of [wg_packet_encrypt_worker] over the packets of a batch; the
    first failure makes the batch dead. *)
Fixpoint encrypt_batch (proto : imitate_proto) (types : nat -> Z) (junk_size : Z) (es : nat -> tx_env) (i : nat) (batch : list tx_packet) (keypair : noise_keypair) :
    option (option (list (list Z))) :=
  match batch with
  | [] => Some (Some [])
  | skb :: batch' =>
      match encrypt_packet proto (types i) junk_size (es i) skb keypair with
      | None => None
      | Some None => Some None
      | Some (Some d) => match encrypt_batch proto types junk_size es (S i) batch' keypair with Some (Some ds) => Some (Some (d :: ds)) | r => r end
      end
  end.

(** Whether a new handshake should be started after sending. *)
Definition keep_key_fresh_tx (now : Z) (keypair : option noise_keypair) : bool :=
  match keypair with
  | None => false
  | Some kp =>
      is_valid (sending kp) &&
      ((sending_counter kp >? REKEY_AFTER_MESSAGES) || (i_am_the_initiator kp && wg_birthdate_has_expired (birthdate (sending kp)) REKEY_AFTER_TIME now))
  end.

(** [wg_packet_create_data_done] for the encrypted packets [ds]; [ok] is
    whether the socket takes the [i]-th one, [current] the peer's current keypair. *)
Definition wg_packet_create_data_done (p now : Z) (ok : nat -> bool) (ds : list (list Z)) (current : option noise_keypair) : list effect :=
  let data_sent := existsb (fun id => ok id.1 && negb (len id.2 =? message_data_len 0)) (imap pair ds) in
  [TimerEvent p Traversal; TimerEvent p AnySent] ++ map Datagram ds ++ (if data_sent then [TimerEvent p DataSent] else []) ++
  (if keep_key_fresh_tx now current then [QueueInitiation p] else []).

(** ** Decryption *)

(** What may fail for lack of memory. *)
Record rx_env := RxEnv { rx_cow_data : bool; rx_sgvec : bool; rx_trim : bool }.

Definition invalidate_receiving (kp : noise_keypair) : noise_keypair :=
  Keypair (sending kp) (sending_counter kp) (SymKey (sk_key (receiving kp)) (birthdate (receiving kp)) false) (receiving_counter kp)
    (kp_remote_index kp) (i_am_the_initiator kp) (refcount kp) (internal_id kp).

(** The nonce and the plaintext of the data message [data], and the keypair. *)
Definition decrypt_packet (now : Z) (e : rx_env) (data : list Z) (keypair : noise_keypair) : option (Z * list Z) * noise_keypair :=
  if negb (is_valid (receiving keypair)) || wg_birthdate_has_expired (birthdate (receiving keypair)) REJECT_AFTER_TIME now ||
     (rc_counter (receiving_counter keypair) >=? REJECT_AFTER_MESSAGES)
  then (None, invalidate_receiving keypair)
  else
    let nonce := md_counter (data_of data) in
    if negb (rx_cow_data e) then (None, keypair)
    else if negb (rx_sgvec e) then (None, keypair)
    else
      match chacha20poly1305_decrypt (md_encrypted_data (data_of data)) [] nonce (sk_key (receiving keypair)) with
      | None => (None, keypair)
      | Some plaintext => if negb (rx_trim e) then (None, keypair) else (Some (nonce, plaintext), keypair)
      end.

(** ** Checking what came out *)

(** The IP version of a packet, if its header is inside. *)
Definition ip_version (b : list Z) : Z := match b with x :: _ => Z.shiftr x 4 | [] => 0 end.
Definition sizeof_iphdr : Z := 20.
Definition sizeof_ipv6hdr : Z := 40.

Definition ip_tunnel_parse_protocol (b : list Z) : Z :=
  if (sizeof_iphdr <=? len b) && (ip_version b =? 4) then ETH_P_IP
  else if (sizeof_ipv6hdr <=? len b) && (ip_version b =? 6) then ETH_P_IPV6
  else 0.

(** A big-endian 16-bit field. *)
Definition be16_at (off : Z) (b : list Z) : Z := match skipn (Z.to_nat off) b with x :: y :: _ => 256 * x + y | _ => 0 end.

(** The packet with its protocol and addresses. *)
Definition ip_packet (proto : Z) (b : list Z) : packet :=
  if proto =? ETH_P_IP then Packet proto (field 12 4 b) (field 16 4 b) else Packet proto (field 8 16 b) (field 24 16 b).

(** Why a packet was not delivered. *)
Inductive rx_drop := DropType | DropSize | DropPeer | DropMemory.

(** From the first check of the inner packet to its delivery: the bytes for
    the network stack.  [ecn] is [INET_ECN_decapsulate], [trim] whether
    [pskb_trim] succeeds, [lookup] is [wg_allowedips_lookup_src]. *)
Definition check_inner (ecn : list Z -> list Z) (trim : bool) (lookup : packet -> option (option Z)) (peer : Z) (b : list Z) : option (rx_drop + list Z) :=
  if negb ((sizeof_iphdr <=? len b) && ((ip_version b =? 4) || ((ip_version b =? 6) && (sizeof_ipv6hdr <=? len b)))) then Some (inl DropType)
  else
    let proto := ip_tunnel_parse_protocol b in
    let size :=
      if proto =? ETH_P_IP then (if be16_at 2 b <? sizeof_iphdr then inl DropSize else inr (be16_at 2 b))
      else if proto =? ETH_P_IPV6 then inr (be16_at 4 b + sizeof_ipv6hdr)
      else inl DropType in
    match size with
    | inl d => Some (inl d)
    | inr n =>
        let b := ecn b in
        if n >? len b then Some (inl DropSize)
        else if negb trim && (n <? len b) then Some (inl DropMemory)
        else
          let b := firstn (Z.to_nat n) b in
          routed_peer ← lookup (ip_packet proto b);
          if bool_decide (routed_peer = Some peer) then Some (inr b) else Some (inl DropPeer)
    end.

(** Whether the last-minute handshake should be started after receiving. *)
Definition keep_key_fresh_rx (now : Z) (sent_lastminute : bool) (keypair : option noise_keypair) : bool :=
  if sent_lastminute then false
  else
    match keypair with
    | None => false
    | Some kp =>
        is_valid (sending kp) && i_am_the_initiator kp &&
        wg_birthdate_has_expired (birthdate (sending kp)) (REJECT_AFTER_TIME - KEEPALIVE_TIMEOUT - REKEY_TIMEOUT) now
    end.

(** What [wg_packet_consume_data_done] depends on: the congestion bits
    ([INET_ECN_decapsulate]), whether [pskb_trim] finds memory, the clock, and
    the table of allowed addresses. *)
Record done_env := DoneEnv { d_ecn : list Z -> list Z; d_trim : bool; d_now : Z; d_lookup : packet -> option (option Z) }.

(** What happens to the packet that came out, the batch sent on the occasion,
    and the peer. *)
Definition wg_packet_consume_data_done (e : done_env) (peer keypair : Z) (b : list Z) (st : tstate) : option (list effect * staged_result * tstate) :=
  '(confirmed, ks) ← wg_noise_received_with_keypair keypair (t_keys st);
  let st := TState ks (t_staged st) (t_lastminute st) in
  '(fx, batch, st) ←
    (if confirmed : bool then
       '(r, st) ← wg_packet_send_staged_packets (d_now e) (TState ks (t_staged st) false);
       Some (TimerEvent peer HandshakeComplete :: staged_effects peer r, r, st)
     else Some ([], StagedEmpty, st));
  let current := x ← current_keypair (ks_slots (t_keys st)); ks_pairs (t_keys st) !! x in
  let send := keep_key_fresh_rx (d_now e) (t_lastminute st) current in
  let st := if send then TState (t_keys st) (t_staged st) true else st in
  let fx := SetEndpoint peer :: fx ++ (if send then [QueueInitiation peer] else []) ++ [TimerEvent peer AnyReceived; TimerEvent peer Traversal] in
  if len b =? 0 then Some (fx ++ [RxStats peer (message_data_len 0)], batch, st)
  else
    let fx := fx ++ [TimerEvent peer DataReceived] in
    r ← check_inner (d_ecn e) (d_trim e) (d_lookup e) peer b;
    Some (match r with
          | inl DropMemory => fx
          | inl _ => fx ++ [RxError peer]
          | inr inner => fx ++ [NapiReceive peer inner; RxStats peer (message_data_len (len b))]
          end, batch, st).

Definition set_receiving_counter (c : noise_replay_counter) (kp : noise_keypair) : noise_keypair :=
  Keypair (sending kp) (sending_counter kp) (receiving kp) c (kp_remote_index kp) (i_am_the_initiator kp) (refcount kp) (internal_id kp).

(** A decrypted packet in the loop of [wg_packet_rx_poll]; [endpoint] is
    whether its source can be read. *)
Definition rx_packet (e : done_env) (endpoint : bool) (peer keypair nonce : Z) (b : list Z) (st : tstate) : option (list effect * staged_result * tstate) :=
  kp ← ks_pairs (t_keys st) !! keypair;
  let '(ok, counter) := counter_validate (receiving_counter kp) nonce in
  let st := TState (set_pair keypair (set_receiving_counter counter kp) (t_keys st)) (t_staged st) (t_lastminute st) in
  '(fx, batch, st) ←
    (if negb ok then Some ([], StagedEmpty, st)
     else if negb endpoint then Some ([], StagedEmpty, st)
     else wg_packet_consume_data_done e peer keypair b st);
  ks ← wg_noise_keypair_put (Some keypair) false (t_keys st);
  Some (fx, batch, TState ks (t_staged st) (t_lastminute st)).

(** [wg_packet_consume_data] up to the queues: the keypair and the peer of the
    data message, with a reference to the keypair. *)
Definition wg_packet_consume_data (alive is_dead : Z -> bool) (data : list Z) (ks : kstate) : option (option (Z * Z) * kstate) :=
  let '(found, tbl) := wg_index_hashtable_lookup (ks_index ks) INDEX_HASHTABLE_KEYPAIR (md_key_idx (data_of data)) alive in
  let ks := set_ks_index tbl ks in
  match found with
  | None => Some (None, ks)
  | Some (x, peer) =>
      '(keypair, ks) ← wg_noise_keypair_get (Some x) ks;
      match keypair with
      | None => Some (None, ks)
      | Some x => if is_dead peer then ks ← wg_noise_keypair_put (Some x) false ks; Some (None, ks) else Some (Some (x, peer), ks)
      end
  end.

End Transport.

(** ** Runs *)

Section TransportRuns.

Context `{C : NoiseCrypto}.

(** What can happen to a peer: an operation on its keypairs, a packet to be
    sent, an attempt to send, a keepalive, a worker that decrypts, a decrypted packet, and
    keypairs of other peers that advance the common counter. *)
Inductive top :=
| TKey (op : kop)
| TStage (p : tx_packet)
| TSend (now : Z)
| TKeepalive (now mtu : Z) (alloc : bool)
| TPurge
| TDecrypt (x now : Z) (e : rx_env) (data : list Z)
| TReceive (e : done_env) (endpoint : bool) (peer x nonce : Z) (b : list Z)
| TOthers (n : Z).

(** When: packets hold a reference to their keypair, addresses can be looked
    up, and fewer than [2^64] keypairs are ever made. *)
Definition t_allowed (op : top) (st : tstate) (g : refs) : Prop :=
  match op with
  | TKey op => allowed op (t_keys st) g /\ keypair_counter (t_keys st) + 1 < 2 ^ 64
  | TDecrypt x _ _ _ => 0 < outside g x
  | TReceive e _ _ x nonce _ => 0 < outside g x /\ 0 <= nonce < 2 ^ 64 /\ forall pk, is_Some (d_lookup e pk)
  | TOthers n => keypair_counter (t_keys st) <= n < 2 ^ 64
  | _ => True
  end.

(** The nonces of a batch, each with the identity of its key. *)
Definition batch_nonces (r : staged_result) (ks : kstate) : list (Z * Z) :=
  match r with
  | StagedBatch x batch => match ks_pairs ks !! x with Some kp => map (fun p => (internal_id kp, tp_nonce p)) batch | None => [] end
  | _ => []
  end.

(** The batch holds a reference. *)
Definition batch_refs (r : staged_result) (g : refs) : refs := match r with StagedBatch x _ => add_ref x 1 g | _ => g end.

(** The nonce that the window lets pass. *)
Definition accepted_nonce (x nonce : Z) (ks : kstate) : list (Z * Z) :=
  match ks_pairs ks !! x with Some kp => if (counter_validate (receiving_counter kp) nonce).1 then [(internal_id kp, nonce)] else [] | None => [] end.

(** Whether the packet confirms the keypair. *)
Definition confirms (endpoint : bool) (x nonce : Z) (ks : kstate) : bool :=
  match accepted_nonce x nonce ks with [] => false | _ => endpoint && bool_decide (next_keypair (ks_slots ks) = Some x) end.

(** A peer with the nonces used for sending and those accepted so far. *)
Record trun := TRun { tr_peer : tstate; tr_refs : refs; tr_sent : list (Z * Z); tr_received : list (Z * Z) }.

Definition run_top (op : top) (r : trun) : option trun :=
  let st := tr_peer r in
  let g := tr_refs r in
  let sends x := '(b, st') ← x; Some (TRun st' (batch_refs b g) (batch_nonces b (t_keys st') ++ tr_sent r) (tr_received r)) in
  match op with
  | TKey op => '(ks, g) ← run_kop op (t_keys st) g; Some (TRun (TState ks (t_staged st) (t_lastminute st)) g (tr_sent r) (tr_received r))
  | TStage p => Some (TRun (TState (t_keys st) (t_staged st ++ [p]) (t_lastminute st)) g (tr_sent r) (tr_received r))
  | TSend now => sends (wg_packet_send_staged_packets now st)
  | TKeepalive now mtu alloc => sends (wg_packet_send_keepalive now mtu alloc st)
  | TPurge => Some (TRun (wg_packet_purge_staged_packets st).2 g (tr_sent r) (tr_received r))
  | TDecrypt x now e data =>
      kp ← ks_pairs (t_keys st) !! x;
      Some (TRun (TState (set_pair x (decrypt_packet now e data kp).2 (t_keys st)) (t_staged st) (t_lastminute st)) g (tr_sent r) (tr_received r))
  | TReceive e endpoint peer x nonce b =>
      '(_, batch, st') ← rx_packet e endpoint peer x nonce b st;
      Some (TRun st' (add_ref x (-1) (batch_refs batch (confirm x (confirms endpoint x nonce (t_keys st)) g))) (batch_nonces batch (t_keys st') ++ tr_sent r)
        (accepted_nonce x nonce (t_keys st) ++ tr_received r))
  | TOthers n =>
      let ks := t_keys st in
      Some (TRun (TState (KState (ks_pairs ks) (ks_index ks) n (ks_slots ks)) (t_staged st) (t_lastminute st)) g (tr_sent r) (tr_received r))
  end.

Inductive t_reachable : trun -> Prop :=
| t_reachable_init t kc : ix_ok t -> 0 <= kc < 2 ^ 64 -> t_reachable (TRun (TState (KState ∅ t kc (Keypairs None None None)) [] false) (Refs (fun _ => 0) ∅) [] [])
| t_reachable_step r op r' : t_reachable r -> t_allowed op (tr_peer r) (tr_refs r) -> run_top op r = Some r' -> t_reachable r'.

End TransportRuns.

(** * Nonces *)

(** The counters of a keypair and the life of its sending key. *)
Definition core (kp kp' : noise_keypair) : Prop :=
  internal_id kp' = internal_id kp /\ sending_counter kp' = sending_counter kp /\ receiving_counter kp' = receiving_counter kp /\
  (is_valid (sending kp') = true -> is_valid (sending kp) = true).

(** No keypair is new, and the counters are what they were. *)
Definition kept (ks ks' : kstate) : Prop :=
  keypair_counter ks' = keypair_counter ks /\ forall x kp', ks_pairs ks' !! x = Some kp' -> exists kp, ks_pairs ks !! x = Some kp /\ core kp kp'.

Lemma core_refl kp : core kp kp.
Proof. done. Qed.
Lemma core_trans kp1 kp2 kp3 : core kp1 kp2 -> core kp2 kp3 -> core kp1 kp3.
Proof. intros (A1 & A2 & A3 & A4) (B1 & B2 & B3 & B4). unfold core. rewrite B1, B2, B3. ands; auto. Qed.

Lemma kept_refl ks : kept ks ks.
Proof. split; [done|]. eauto using core_refl. Qed.
Lemma kept_trans ks1 ks2 ks3 : kept ks1 ks2 -> kept ks2 ks3 -> kept ks1 ks3.
Proof.
  intros [A1 A2] [B1 B2]. split; [congruence|]. intros x kp3 H3. destruct (B2 x kp3 H3) as (kp2 & H2 & ?). destruct (A2 x kp2 H2) as (kp1 & H1 & ?).
  eauto using core_trans.
Qed.

(** Changes of one keypair, and of what is not a keypair. *)
Lemma kept_set ks x kp kp' : ks_pairs ks !! x = Some kp -> core kp kp' -> kept ks (set_pair x kp' ks).
Proof.
  intros Hx Hc. split; [done|]. intros y kp1 Hy. cbn in Hy. destruct (decide (y = x)) as [->|D].
  - rewrite lookup_insert_eq in Hy. injection Hy as <-. eauto.
  - rewrite lookup_insert_ne in Hy by done. eauto using core_refl.
Qed.
Lemma kept_same ks ks' : ks_pairs ks' = ks_pairs ks -> keypair_counter ks' = keypair_counter ks -> kept ks ks'.
Proof. intros E1 E2. split; [done|]. rewrite E1. eauto using core_refl. Qed.

Lemma kept_put o u ks ks' : wg_noise_keypair_put o u ks = Some ks' -> kept ks ks'.
Proof.
  destruct o as [x|]; [|intros [= <-]; apply kept_refl]. cbn [wg_noise_keypair_put]. set (ks0 := if u then _ else ks).
  assert (kept ks ks0) as K0 by (destruct u; by apply kept_same). intros (kp & Hkp & [= <-])%bind_Some.
  eapply kept_trans; [exact K0|]. eapply kept_trans; [by apply (kept_set ks0 x kp (set_refcount (refcount kp - 1) kp))|].
  destruct (_ =? 0); by apply kept_same.
Qed.

Lemma kept_get o ks r ks' : wg_noise_keypair_get o ks = Some (r, ks') -> kept ks ks'.
Proof.
  destruct o as [x|]; [|intros [= _ <-]; apply kept_refl]. cbn [wg_noise_keypair_get]. intros (kp & Hkp & E)%bind_Some.
  destruct (refcount kp =? 0); injection E as _ <-; [apply kept_refl|by apply (kept_set ks x kp)].
Qed.

Lemma kept_expire o ks ks' : expire_sending o ks = Some ks' -> kept ks ks'.
Proof.
  destruct o as [x|]; [|intros [= <-]; apply kept_refl]. cbn [expire_sending]. intros (kp & Hkp & [= <-])%bind_Some. by apply (kept_set ks x kp).
Qed.

(** The slots and the table are not keypairs. *)
Lemma kept_slots ks f : kept ks (set_slots f ks).
Proof. by apply kept_same. Qed.
Lemma kept_index ks t : kept ks (set_ks_index t ks).
Proof. by apply kept_same. Qed.

Create HintDb kept.
#[export] Hint Resolve kept_refl kept_put kept_get kept_expire kept_slots kept_index : kept.

(** Chains the steps of an operation. *)
Ltac kept_chain :=
  repeat match goal with
  | H : mbind _ _ = Some _ |- _ => apply bind_Some in H as (? & ? & H)
  | H : Some _ = Some _ |- _ => injection H; clear H; intros; subst
  | H : wg_noise_keypair_put _ _ ?k = Some ?k' |- kept _ ?k' => apply (kept_trans _ k); [clear H|by apply kept_put in H]
  | H : expire_sending _ ?k = Some ?k' |- kept _ ?k' => apply (kept_trans _ k); [clear H|by apply kept_expire in H]
  | |- kept _ (set_current _ ?k) => apply (kept_trans _ k); [|apply kept_slots]
  | |- kept _ (set_previous _ ?k) => apply (kept_trans _ k); [|apply kept_slots]
  | |- kept _ (set_next _ ?k) => apply (kept_trans _ k); [|apply kept_slots]
  | |- kept _ (set_ks_index _ ?k) => apply (kept_trans _ k); [|apply kept_index]
  | |- kept ?k ?k => apply kept_refl
  end.

Lemma kept_clear ks ks' : wg_noise_keypairs_clear ks = Some ks' -> kept ks ks'.
Proof. unfold wg_noise_keypairs_clear. intros H. kept_chain. Qed.

Lemma kept_received x ks b ks' : wg_noise_received_with_keypair x ks = Some (b, ks') -> kept ks ks'.
Proof. unfold wg_noise_received_with_keypair. intros H. repeat case_bool_decide; cbn [negb] in H; kept_chain. Qed.

Lemma kept_add x ks ks' : add_new_keypair x ks = Some ks' -> kept ks ks'.
Proof. unfold add_new_keypair. intros H. apply bind_Some in H as (kp & _ & H). destruct (i_am_the_initiator kp), (next_keypair (ks_slots ks)); kept_chain. Qed.

Lemma kept_expire_all hs entry now ks r ks' : wg_noise_expire_current_peer_keypairs hs entry now ks = Some (r, ks') -> kept ks ks'.
Proof. unfold wg_noise_expire_current_peer_keypairs, wg_noise_handshake_clear. intros H. kept_chain. Qed.

(** One keypair at most is new, with an identity of its own and fresh counters. *)
Definition evolves (ks ks' : kstate) : Prop :=
  keypair_counter ks <= keypair_counter ks' <= keypair_counter ks + 1 /\ exists a, forall x kp', ks_pairs ks' !! x = Some kp' ->
    (exists kp, ks_pairs ks !! x = Some kp /\ core kp kp') \/
    (x = a /\ keypair_counter ks < internal_id kp' <= keypair_counter ks' /\ sending_counter kp' = 0 /\ receiving_counter kp' = replay_init).

Lemma kept_evolves ks ks' : kept ks ks' -> evolves ks ks'.
Proof. intros [E K]. split; [lia|]. exists 0. intros x kp' Hx. left. by apply K. Qed.

Lemma evolves_kept ks ks1 ks2 : evolves ks ks1 -> kept ks1 ks2 -> evolves ks ks2.
Proof.
  intros [L (a & H)] [E K]. split; [lia|]. exists a. intros x kp2 H2. destruct (K x kp2 H2) as (kp1 & H1 & C1). pose proof C1 as (I1 & I2 & I3 & _).
  destruct (H x kp1 H1) as [(kp & H0 & C0)|(-> & H3 & H4 & H5)]; [left; eauto using core_trans|right]. rewrite I1, I2, I3, E. done.
Qed.

Section Nonces.

Context `{C : NoiseCrypto}.

Lemma begin_evolves hs entry peer addr now dead ks b hs' ks' : 0 <= keypair_counter ks -> keypair_counter ks + 1 < 2 ^ 64 ->
  wg_noise_handshake_begin_session hs entry peer addr now dead ks = Some (b, hs', ks') -> evolves ks ks'.
Proof.
  intros H0 Hc H. unfold wg_noise_handshake_begin_session in H. destruct (session_keys hs now) as [keys|]; [|injection H as _ _ <-; apply kept_evolves, kept_refl].
  destruct addr as [a|]; cbn [keypair_create] in H; [|injection H as _ _ <-; apply kept_evolves, kept_refl].
  cbn [ks_pairs] in H. rewrite lookup_insert_eq in H. cbn [mbind option_bind] in H. rewrite u64_small in H by lia. destruct keys as [[ini s] r]. cbn [fill_keypair] in H.
  set (ks1 := set_pair a _ _) in H. assert (E1 : evolves ks ks1).
  { split; [cbn; lia|]. exists a. intros x kp' Hx. cbn in Hx. destruct (decide (x = a)) as [->|D].
    - rewrite lookup_insert_eq in Hx. injection Hx as <-. right. cbn. ands; try done; lia.
    - rewrite !lookup_insert_ne in Hx by done. left. eauto using core_refl. }
  destruct dead; cbn [negb] in H.
  - injection H as _ _ <-. apply (evolves_kept _ ks1); [done|]. split; [done|]. intros x kp' Hx. cbn [keypair_free_rcu ks_pairs] in Hx.
    apply lookup_delete_Some in Hx as [_ Hx]. eauto using core_refl.
  - apply bind_Some in H as (ks2 & Ha & H). destruct (wg_index_hashtable_replace _ _ _) as [ret tbl]. injection H as _ _ <-.
    apply (evolves_kept _ ks1); [done|]. apply (kept_trans _ ks2); [by eapply kept_add|apply kept_index].
Qed.

Lemma kop_evolves op ks g ks' g' : 0 <= keypair_counter ks -> keypair_counter ks + 1 < 2 ^ 64 -> run_kop op ks g = Some (ks', g') -> evolves ks ks'.
Proof.
  intros H0 Hc H. destruct op; cbn [run_kop] in H.
  6:{ apply bind_Some in H as ([[b hs'] k] & H & [= <- _]). by eapply begin_evolves. }
  all: apply kept_evolves.
  - apply bind_Some in H as ([r k] & H & [= <- _]). by eapply kept_get.
  - apply bind_Some in H as (k & H & [= <- _]). by eapply kept_put.
  - apply bind_Some in H as ([r k] & H & [= <- _]). by eapply kept_received.
  - apply bind_Some in H as (k & H & [= <- _]). by eapply kept_clear.
  - apply bind_Some in H as ([r k] & H & E). destruct r. injection E as <- _. by eapply kept_expire_all.
  - injection H as <- _. split; [done|]. intros y kp' Hy. cbn in Hy. apply lookup_delete_Some in Hy as [_ Hy]. eauto using core_refl.
  - injection H as <- _. apply kept_index.
Qed.

End Nonces.

(** ** Assigning nonces *)

Lemma assign_nonces_ok packets : forall c, 0 <= c <= REJECT_AFTER_MESSAGES ->
  let '(r, c') := assign_nonces packets c in
  c <= c' <= REJECT_AFTER_MESSAGES + 1 /\
  forall batch, r = Some batch -> tp_nonce <$> batch = seqZ c (len packets) /\ tp_data <$> batch = tp_data <$> packets /\ c' = c + len packets /\ c' <= REJECT_AFTER_MESSAGES.
Proof.
  pose proof REJECT_value as HRJ. induction packets as [|skb packets IH]; intros c Hc; cbn [assign_nonces].
  { split; [lia|]. intros batch [= <-]. unfold len. cbn. ands; try done; lia. }
  rewrite (u64_small (c + 1)), u64_small by lia. replace (c + 1 - 1) with c by lia. destruct (Z.geb_spec c REJECT_AFTER_MESSAGES); [split; [lia|done]|].
  specialize (IH (c + 1) ltac:(lia)). destruct (assign_nonces packets (c + 1)) as [r c']. destruct IH as [Hle IH]. split; [lia|].
  intros batch (l & -> & ->)%fmap_Some. destruct (IH l eq_refl) as (E1 & E2 & E3 & E4). rewrite len_cons. ands; [|cbn; by f_equal|lia|lia].
  cbn [fmap list_fmap tp_nonce set_nonce]. pose proof (len_nonneg packets). rewrite (seqZ_cons c) by lia. f_equal. etransitivity; [exact E1|]. f_equal; lia.
Qed.

(** ** The invariant *)

(** The nonces [ns] of the key [id]. *)
Abbreviation log_of id ns := (map (pair (id : Z)) (ns : list Z)).

Record pair_ok (sl rl : list (Z * Z)) (kp : noise_keypair) : Prop := {
  po_counter : 0 <= sending_counter kp;
  po_valid : is_valid (sending kp) = true -> sending_counter kp <= REJECT_AFTER_MESSAGES;
  po_sent : forall n, (internal_id kp, n) ∈ sl -> n < sending_counter kp;
  po_received : exists hist, replay_rel hist (receiving_counter kp) /\ forall n, n ∈ hist <-> (internal_id kp, n) ∈ rl
}.

Record nonce_inv (ks : kstate) (sl rl : list (Z * Z)) : Prop := {
  ni_counter : 0 <= keypair_counter ks < 2 ^ 64;
  ni_ids : forall x kp, ks_pairs ks !! x = Some kp -> internal_id kp <= keypair_counter ks;
  ni_distinct : forall x y kx ky, ks_pairs ks !! x = Some kx -> ks_pairs ks !! y = Some ky -> internal_id kx = internal_id ky -> x = y;
  ni_sent : forall id n, (id, n) ∈ sl -> id <= keypair_counter ks /\ 0 <= n < REJECT_AFTER_MESSAGES;
  ni_received : forall id n, (id, n) ∈ rl -> id <= keypair_counter ks;
  ni_pairs : forall x kp, ks_pairs ks !! x = Some kp -> pair_ok sl rl kp;
  ni_sent_once : NoDup sl;
  ni_received_once : NoDup rl
}.

Lemma elem_log id id' n ns : (id', n) ∈ log_of id ns <-> id' = id /\ n ∈ ns.
Proof. rewrite list_elem_of_In, in_map_iff. setoid_rewrite <- list_elem_of_In. naive_solver. Qed.

Lemma log_nodup id ns (l : list (Z * Z)) : NoDup ns -> NoDup l -> (forall n, n ∈ ns -> (id, n) ∉ l) -> NoDup (log_of id ns ++ l).
Proof.
  intros Hn Hl Hd. apply NoDup_app. split; [|split; [|done]].
  - change (log_of id ns) with (pair id <$> ns). apply NoDup_fmap_2; [|done]. by intros a b [=].
  - intros [i n] [-> Hin]%elem_log. by apply Hd.
Qed.

Lemma core_pair_ok sl rl kp kp' : core kp kp' -> pair_ok sl rl kp -> pair_ok sl rl kp'.
Proof. intros (E1 & E2 & E3 & E4) [H1 H2 H3 H4]. split; rewrite ?E1, ?E2, ?E3; auto. Qed.

Lemma nonce_inv_evolves ks ks' sl rl : nonce_inv ks sl rl -> evolves ks ks' -> keypair_counter ks' < 2 ^ 64 -> nonce_inv ks' sl rl.
Proof.
  intros [H1 H2 H3 H4 H5 H6 H7 H8] [Hle (a & Hev)] Hc'. split; try done; [lia|..].
  - intros x kp' Hx. destruct (Hev x kp' Hx) as [(kp & Hkp & (-> & _))|(_ & ? & _)]; [specialize (H2 x kp Hkp)|]; lia.
  - intros x y kx ky Hx Hy E. destruct (Hev x kx Hx) as [(kp & Hkp & (Ex & _))|(-> & Lx & _)], (Hev y ky Hy) as [(kp1 & Hkp1 & (Ey & _))|(-> & Ly & _)]; [|exfalso..|done].
    + apply (H3 x y kp kp1); congruence.
    + specialize (H2 x kp Hkp). lia.
    + specialize (H2 y kp1 Hkp1). lia.
  - intros id n Hin. destruct (H4 id n Hin). lia.
  - intros id n Hin. specialize (H5 id n Hin). lia.
  - intros x kp' Hx. destruct (Hev x kp' Hx) as [(kp & Hkp & Hco)|(-> & Lx & E1 & E2)]; [by eapply core_pair_ok, H6|].
    assert (REJECT_AFTER_MESSAGES > 0) by done. split; rewrite ?E1, ?E2; [lia|lia| |].
    + intros n Hin. destruct (H4 _ n Hin). lia.
    + exists []. split; [apply replay_init_rel|]. intros n. split; [intros Hin; inversion Hin|intros Hin; specialize (H5 _ n Hin); lia].
Qed.

(** Changing one keypair and logging nonces of it. *)
Lemma nonce_inv_set ks sl rl x kp kp' ns ms : nonce_inv ks sl rl -> ks_pairs ks !! x = Some kp -> internal_id kp' = internal_id kp ->
  pair_ok (log_of (internal_id kp) ns ++ sl) (log_of (internal_id kp) ms ++ rl) kp' ->
  NoDup ns -> (forall n, n ∈ ns -> sending_counter kp <= n < REJECT_AFTER_MESSAGES) -> NoDup ms -> (forall n, n ∈ ms -> (internal_id kp, n) ∉ rl) ->
  nonce_inv (set_pair x kp' ks) (log_of (internal_id kp) ns ++ sl) (log_of (internal_id kp) ms ++ rl).
Proof.
  intros [H1 H2 H3 H4 H5 H6 H7 H8] Hx Eid Hok Hns Bns Hms Bms. pose proof (H6 x kp Hx) as [P1 P2 P3 P4].
  assert (forall y ky, ks_pairs (set_pair x kp' ks) !! y = Some ky -> (y = x /\ ky = kp') \/ (y <> x /\ ks_pairs ks !! y = Some ky)) as Hget.
  { intros y ky Hy. cbn in Hy. destruct (decide (y = x)) as [->|D]; [rewrite lookup_insert_eq in Hy; left; naive_solver|rewrite lookup_insert_ne in Hy by done; auto]. }
  split; cbn [keypair_counter set_pair]; try done.
  - intros y ky Hy. destruct (Hget y ky Hy) as [[-> ->]|[_ Hy']]; [rewrite Eid; by apply (H2 x)|by apply (H2 y)].
  - intros y z ky kz Hy Hz E. destruct (Hget y ky Hy) as [[-> ->]|[Dy Hy']], (Hget z kz Hz) as [[-> ->]|[Dz Hz']]; [done|..|by apply (H3 y z ky kz)].
    + apply (H3 x z kp kz); congruence.
    + apply (H3 y x ky kp); congruence.
  - intros id n [[-> Hin]%elem_log|Hin]%elem_of_app; [|by apply H4]. split; [by apply (H2 x)|]. specialize (Bns n Hin). lia.
  - intros id n [[-> Hin]%elem_log|Hin]%elem_of_app; [by apply (H2 x)|by eapply H5].
  - intros y ky Hy. destruct (Hget y ky Hy) as [[-> ->]|[Dy Hy']]; [done|]. destruct (H6 y ky Hy') as [Q1 Q2 Q3 (hist & Q4 & Q5)].
    assert (internal_id ky <> internal_id kp) as Dk by (intros E; by apply Dy, (H3 y x ky kp)). split; [done|done| |].
    + intros n [[E _]%elem_log|Hin]%elem_of_app; [done|auto].
    + exists hist. split; [done|]. intros n. rewrite elem_of_app, elem_log, Q5. naive_solver.
  - apply log_nodup; [done|done|]. intros n Hin Hl. specialize (Bns n Hin). specialize (P3 n Hl). lia.
  - by apply log_nodup.
Qed.

(** Taking the next nonces of a keypair. *)
Lemma nonce_inv_use ks sl rl x kp n : nonce_inv ks sl rl -> ks_pairs ks !! x = Some kp -> 0 <= n -> sending_counter kp + n <= REJECT_AFTER_MESSAGES ->
  nonce_inv (set_pair x (set_sending_counter (sending_counter kp + n) kp) ks) (log_of (internal_id kp) (seqZ (sending_counter kp) n) ++ sl) rl.
Proof.
  intros I Hx Hn Hb. destruct (ni_pairs _ _ _ I x kp Hx) as [P1 P2 P3 P4].
  apply (nonce_inv_set ks sl rl x kp _ _ [] I Hx); [done| |apply NoDup_seqZ|intros m [? ?]%elem_of_seqZ; lia|constructor|intros m Hin; inversion Hin].
  split; cbn [sending_counter set_sending_counter internal_id sending receiving_counter]; [lia|done| |done].
  intros m [[_ Hin]%elem_log|Hin]%elem_of_app; [apply elem_of_seqZ in Hin; lia|specialize (P3 m Hin); lia].
Qed.

(** The nonces of a failed attempt are lost with the key. *)
Lemma nonce_inv_waste ks sl rl x kp c : nonce_inv ks sl rl -> ks_pairs ks !! x = Some kp -> sending_counter kp <= c ->
  nonce_inv (set_pair x (invalidate_sending (set_sending_counter c kp)) ks) sl rl.
Proof.
  intros I Hx Hc. destruct (ni_pairs _ _ _ I x kp Hx) as [P1 P2 P3 P4].
  apply (nonce_inv_set ks sl rl x kp _ [] [] I Hx); [done| |constructor|intros m Hin; inversion Hin|constructor|intros m Hin; inversion Hin].
  split; cbn; [lia|done| |done]. intros m Hin. specialize (P3 m Hin). lia.
Qed.

(** A nonce arrives. *)
Lemma nonce_inv_accept ks sl rl x kp nonce : nonce_inv ks sl rl -> ks_pairs ks !! x = Some kp -> 0 <= nonce < 2 ^ 64 ->
  nonce_inv (set_pair x (set_receiving_counter (counter_validate (receiving_counter kp) nonce).2 kp) ks) sl (accepted_nonce x nonce ks ++ rl).
Proof.
  intros I Hx Hn. destruct (ni_pairs _ _ _ I x kp Hx) as [P1 P2 P3 (hist & P4 & P5)]. unfold accepted_nonce. rewrite Hx.
  pose proof (counter_validate_step hist _ nonce P4 Hn) as S. destruct (counter_validate (receiving_counter kp) nonce) as [ok c']. destruct S as [Eok Hr]. cbn [fst snd].
  assert (ok = true -> nonce ∉ hist) as Hnew by (intros -> Hin; rewrite (window_accepts_in _ _ Hin) in Eok; done).
  destruct ok; [apply (nonce_inv_set ks sl rl x kp _ [] [nonce] I Hx)|apply (nonce_inv_set ks sl rl x kp _ [] [] I Hx)]; try reflexivity;
    try (constructor; fail); try (intros m Hin; inversion Hin; fail).
  - split; cbn; [done|done|done|]. exists (nonce :: hist). split; [done|]. intros m. rewrite !elem_of_cons, P5. naive_solver.
  - apply NoDup_singleton.
  - intros m ->%list_elem_of_singleton Hin. apply P5 in Hin. by apply Hnew.
  - split; cbn; [done|done|done|]. by exists hist.
Qed.

(** ** Every step keeps the invariants *)

Lemma kinv_ext ks g g' : (forall x, outside g x = outside g' x) -> confirmed g = confirmed g' -> kinv ks g -> kinv ks g'.
Proof.
  intros E1 E2 [H1 H2 H3 H4 H5 H6 H7]. split; try done.
  - eapply counted_ext; [|exact H2]. intros x. cbn. by rewrite E1.
  - intros x. rewrite <- E1. apply H3.
  - rewrite <- E2. exact H7.
Qed.

Lemma kinv_set ks g x kp kp' : kinv ks g -> ks_pairs ks !! x = Some kp -> refcount kp' = refcount kp -> i_am_the_initiator kp' = i_am_the_initiator kp -> kinv (set_pair x kp' ks) g.
Proof.
  intros Hinv Hx Er Ei. destruct g as [out conf]. apply (kinv_kept ks (Refs out conf)); [done|done| | |apply Hinv|apply Hinv|done]; intros y; cbn;
    (destruct (decide (y = x)) as [->|D]; [rewrite lookup_insert_eq|by rewrite lookup_insert_ne by done; try apply (kinv_counted _ _ Hinv)]).
  - rewrite Hx. cbn. by rewrite Ei.
  - pose proof (kinv_counted _ _ Hinv x) as Hc. rewrite Hx in Hc. by rewrite Er.
Qed.

Lemma live_outside ks g x : kinv ks g -> 0 < outside g x -> exists kp, ks_pairs ks !! x = Some kp.
Proof.
  intros Hinv Hx. destruct (counted_live _ _ x (kinv_counted _ _ Hinv)) as (kp & Hkp & _); [|by exists kp]. unfold slot_refs. slot_counts x. lia.
Qed.

Lemma get_current_ok ks g x : kinv ks g -> current_keypair (ks_slots ks) = Some x ->
  exists ks' kp, wg_noise_keypair_get (Some x) ks = Some (Some x, ks') /\ kinv ks' (add_ref x 1 g) /\ ks_pairs ks' !! x = Some kp /\ kept ks ks'.
Proof.
  intros Hinv Hx. pose proof (kinv_outside _ _ Hinv x) as Ho. pose proof (slot_current _ _ Hx) as Hs.
  destruct (counted_live _ _ x (kinv_counted _ _ Hinv)) as (kp & Hkp & Hr); [lia|]. destruct (get_ok x ks g Hinv ltac:(by rewrite Hkp)) as (r & ks' & E & Hinv').
  pose proof E as E0. unfold wg_noise_keypair_get in E0. rewrite Hkp in E0. cbn [mbind option_bind] in E0. rewrite (proj2 (Z.eqb_neq (refcount kp) 0)) in E0 by lia. injection E0 as <- Eks.
  exists ks', (set_refcount (refcount kp + 1) kp). split; [done|]. split; [done|]. split; [|by eapply kept_get]. rewrite <- Eks. apply lookup_insert_eq.
Qed.

(** Giving the reference back. *)
Lemma put_back_ok ks g x : kinv ks (add_ref x 1 g) -> 0 <= outside g x -> exists ks', wg_noise_keypair_put (Some x) false ks = Some ks' /\ kinv ks' g /\ kept ks ks'.
Proof.
  intros Hinv Hg. destruct (put_outside_ok x ks _ Hinv) as (ks' & E & H); [cbn; rewrite Z.eqb_refl; lia|]. exists ks'. split; [done|]. split; [|by eapply kept_put].
  apply (kinv_ext ks' (add_ref x (-1) (add_ref x 1 g))); [|done|exact H]. intros y. cbn. destruct (y =? x); lia.
Qed.

Lemma nonce_inv_kept ks ks' sl rl : nonce_inv ks sl rl -> kept ks ks' -> nonce_inv ks' sl rl.
Proof. intros I K. apply (nonce_inv_evolves ks ks'); [done|by apply kept_evolves|]. rewrite (proj1 K). apply I. Qed.

Lemma send_staged_ok now st g sl rl : kinv (t_keys st) g -> nonce_inv (t_keys st) sl rl ->
  exists r st', wg_packet_send_staged_packets now st = Some (r, st') /\ kinv (t_keys st') (batch_refs r g) /\ nonce_inv (t_keys st') (batch_nonces r (t_keys st') ++ sl) rl.
Proof.
  intros Hinv HI. unfold wg_packet_send_staged_packets. destruct (t_staged st) as [|p packets]; [by eexists _, _|]. set (l := p :: packets).
  destruct (current_keypair (ks_slots (t_keys st))) as [x|] eqn:Ec; [|by eexists _, _].
  destruct (get_current_ok _ _ _ Hinv Ec) as (ks1 & kp & -> & Hinv1 & Hkp & K1). pose proof (nonce_inv_kept _ _ _ _ HI K1) as HI1. pose proof (kinv_outside _ _ Hinv x) as Ho.
  cbn [mbind option_bind]. rewrite Hkp. cbn [mbind option_bind].
  assert (W : forall ks2, kinv ks2 (add_ref x 1 g) -> nonce_inv ks2 sl rl ->
    exists r st', (ks ← wg_noise_keypair_put (Some x) false ks2; Some (StagedWait, TState ks l (t_lastminute st))) = Some (r, st') /\
      kinv (t_keys st') (batch_refs r g) /\ nonce_inv (t_keys st') (batch_nonces r (t_keys st') ++ sl) rl).
  { intros ks2 Hk Hn. destruct (put_back_ok ks2 g x Hk Ho) as (ks3 & -> & Hk3 & K3). eexists _, _. split; [done|]. split; [done|]. by eapply nonce_inv_kept. }
  destruct (is_valid (sending kp)) eqn:Ev; cbn [negb]; [|by apply W].
  destruct (wg_birthdate_has_expired _ _ _).
  { apply W; [by apply (kinv_set ks1 _ x kp)|]. by eapply (nonce_inv_kept ks1), (kept_set ks1 x kp). }
  destruct (ni_pairs _ _ _ HI1 x kp Hkp) as [P1 P2 _ _]. pose proof (assign_nonces_ok l (sending_counter kp) (conj P1 (P2 Ev))) as A.
  destruct (assign_nonces l (sending_counter kp)) as [[batch|] c]; destruct A as [A1 A2].
  2:{ apply W; [by apply (kinv_set ks1 _ x kp)|]. apply nonce_inv_waste; [done..|lia]. }
  destruct (A2 batch eq_refl) as (B1 & _ & -> & B2). eexists _, _. split; [done|]. split; [by apply (kinv_set ks1 _ x kp)|].
  cbn [t_keys batch_nonces set_pair ks_pairs]. rewrite lookup_insert_eq. cbn [internal_id set_sending_counter].
  replace (map _ batch) with (log_of (internal_id kp) (seqZ (sending_counter kp) (len l))); [by apply nonce_inv_use; [..|apply len_nonneg|]|].
  rewrite <- B1. clear. induction batch as [|q batch IH]; [done|]. cbn in *. by rewrite IH.
Qed.

Lemma send_keepalive_ok now mtu alloc st g sl rl : kinv (t_keys st) g -> nonce_inv (t_keys st) sl rl ->
  exists r st', wg_packet_send_keepalive now mtu alloc st = Some (r, st') /\ kinv (t_keys st') (batch_refs r g) /\ nonce_inv (t_keys st') (batch_nonces r (t_keys st') ++ sl) rl.
Proof.
  intros Hinv HI. unfold wg_packet_send_keepalive. destruct (t_staged st) as [|p l]; [|by apply send_staged_ok].
  destruct alloc; [by apply send_staged_ok|by eexists _, _].
Qed.

(** The checks of an inner packet succeed or fail, if addresses can be looked up. *)
Lemma check_inner_total ecn trim lookup peer b : (forall pk, is_Some (lookup pk)) -> is_Some (check_inner ecn trim lookup peer b).
Proof.
  intros Hl. unfold check_inner. destruct (negb _); [done|]. cbv zeta. destruct (if _ =? ETH_P_IP then _ else _) as [d|n]; [done|].
  destruct (_ >? _); [done|]. destruct (negb trim && _); [done|]. destruct (Hl (ip_packet (ip_tunnel_parse_protocol b) (firstn (Z.to_nat n) (ecn b)))) as [o ->]. cbn. by case_bool_decide.
Qed.

(** Dropping a reference does not change the identity of a batch's key. *)
Lemma batch_nonces_put r o u ks ks' g : wg_noise_keypair_put o u ks = Some ks' -> kinv ks (batch_refs r g) -> (forall x, 0 <= outside g x) -> batch_nonces r ks' = batch_nonces r ks.
Proof.
  intros E Hinv Hg. destruct r as [|x batch|]; [done| |done]. cbn [batch_refs batch_nonces] in *.
  destruct (live_outside ks _ x Hinv) as (kp & Hkp); [cbn; rewrite Z.eqb_refl; specialize (Hg x); lia|].
  apply kept_put in E as K1. destruct K1 as [_ K]. destruct (ks_pairs ks' !! x) as [kp'|] eqn:Hkp'; [|exfalso].
  - destruct (K x kp' Hkp') as (kp1 & Hkp1 & (E' & _)). rewrite Hkp in Hkp1. injection Hkp1 as <-. by rewrite Hkp, E'.
  - destruct o as [y|]; cbn [wg_noise_keypair_put] in E; [|injection E as <-; congruence]. apply bind_Some in E as (ky & _ & [= <-]).
    assert (ks_pairs (set_pair y (set_refcount (refcount ky - 1) ky) (if u then set_ks_index (wg_index_hashtable_remove (ks_index ks) y) ks else ks)) !! x = None) as Hn.
    { by destruct (refcount ky - 1 =? 0). }
    cbn in Hn. apply lookup_insert_None in Hn as [Hn _]. destruct u; cbn in Hn; congruence.
Qed.

Lemma consume_done_ok e peer x b st g sl rl : kinv (t_keys st) g -> nonce_inv (t_keys st) sl rl -> (forall pk, is_Some (d_lookup e pk)) ->
  exists fx r st', wg_packet_consume_data_done e peer x b st = Some (fx, r, st') /\
    kinv (t_keys st') (batch_refs r (confirm x (bool_decide (next_keypair (ks_slots (t_keys st)) = Some x)) g)) /\
    nonce_inv (t_keys st') (batch_nonces r (t_keys st') ++ sl) rl.
Proof.
  intros Hinv HI Hl. unfold wg_packet_consume_data_done. destruct (received_ok x _ g Hinv) as (c & ks1 & E & -> & Hinv1 & _). rewrite E. apply kept_received in E as K1.
  pose proof (nonce_inv_kept _ _ _ _ HI K1) as HI1. cbn [mbind option_bind]. set (c := bool_decide _) in *. change (Refs _ _) with (confirm x c g) in Hinv1. clearbody c.
  match goal with |- context [mbind ?f (if c then ?a else ?b)] =>
    assert (A : exists fx r st1, (if c then a else b) = Some (fx, r, st1) /\ kinv (t_keys st1) (batch_refs r (confirm x c g)) /\ nonce_inv (t_keys st1) (batch_nonces r (t_keys st1) ++ sl) rl) end.
  { destruct c; [|by eexists _, _, _]. cbn [t_staged t_lastminute]. destruct (send_staged_ok (d_now e) (TState ks1 (t_staged st) false) _ sl rl Hinv1 HI1) as (r & st1 & -> & A1 & A2). cbn. by eexists _, _, _. }
  destruct A as (fx & r & st1 & -> & A1 & A2). cbn [mbind option_bind]. cbv zeta. set (fresh := keep_key_fresh_rx _ _ _). clearbody fresh.
  assert (t_keys (if fresh then TState (t_keys st1) (t_staged st1) true else st1) = t_keys st1) as Ek by (by destruct fresh).
  destruct (len b =? 0); [eexists _, _, _; split; [done|]; by rewrite Ek|].
  destruct (check_inner_total (d_ecn e) (d_trim e) (d_lookup e) peer b Hl) as [v ->]. cbn [mbind option_bind]. eexists _, _, _. split; [done|]. by rewrite Ek.
Qed.

Lemma rx_packet_ok e endpoint peer x nonce b st g sl rl : kinv (t_keys st) g -> nonce_inv (t_keys st) sl rl -> 0 < outside g x -> 0 <= nonce < 2 ^ 64 ->
  (forall pk, is_Some (d_lookup e pk)) ->
  exists fx r st', rx_packet e endpoint peer x nonce b st = Some (fx, r, st') /\
    kinv (t_keys st') (add_ref x (-1) (batch_refs r (confirm x (confirms endpoint x nonce (t_keys st)) g))) /\
    nonce_inv (t_keys st') (batch_nonces r (t_keys st') ++ sl) (accepted_nonce x nonce (t_keys st) ++ rl).
Proof.
  intros Hinv HI Hx Hn Hl. destruct (live_outside _ _ x Hinv Hx) as (kp & Hkp). unfold rx_packet. rewrite Hkp. cbn [mbind option_bind].
  pose proof (nonce_inv_accept _ _ _ x kp nonce HI Hkp Hn) as HI1. unfold confirms. unfold accepted_nonce in *. rewrite Hkp in *.
  destruct (counter_validate (receiving_counter kp) nonce) as [ok c]. cbn [fst snd] in *.
  assert (kinv (set_pair x (set_receiving_counter c kp) (t_keys st)) g) as Hinv1 by (by apply (kinv_set _ _ x kp)).
  set (st1 := TState (set_pair x (set_receiving_counter c kp) (t_keys st)) (t_staged st) (t_lastminute st)).
  set (acc := if ok then _ else _) in *.
  match goal with |- context [mbind ?f (if negb ok then ?a else ?b)] =>
    assert (A : exists fx r st2, (if negb ok then a else b) = Some (fx, r, st2) /\
      kinv (t_keys st2) (batch_refs r (confirm x (match acc with [] => false | _ => endpoint && bool_decide (next_keypair (ks_slots (t_keys st)) = Some x) end) g)) /\
      nonce_inv (t_keys st2) (batch_nonces r (t_keys st2) ++ sl) (acc ++ rl)) end.
  { subst acc. destruct ok; cbn [negb]; [|by eexists _, _, _; destruct g]. destruct endpoint; cbn [negb andb]; [|by eexists _, _, _; destruct g].
    by apply (consume_done_ok e peer x b st1). }
  destruct A as (fx & r & st2 & -> & A1 & A2). cbn [mbind option_bind].
  assert (0 < outside (batch_refs r (confirm x (match acc with [] => false | _ => endpoint && bool_decide (next_keypair (ks_slots (t_keys st)) = Some x) end) g)) x) as Hx2.
  { destruct r as [|y l|]; cbn; [lia| |lia]. destruct (x =? y); lia. }
  destruct (put_outside_ok x _ _ A1 Hx2) as (ks3 & E3 & Hk3). rewrite E3. cbn [mbind option_bind]. eexists _, _, _. split; [done|]. split; [done|]. cbn [t_keys].
  rewrite (batch_nonces_put r _ _ _ _ _ E3 A1); [by eapply nonce_inv_kept, kept_put|]. intros y. cbn. apply Hinv.
Qed.

Section NonceTheorem.

Context `{C : NoiseCrypto}.

Definition tinv (r : trun) : Prop := kinv (t_keys (tr_peer r)) (tr_refs r) /\ nonce_inv (t_keys (tr_peer r)) (tr_sent r) (tr_received r).

Lemma top_ok op r : tinv r -> t_allowed op (tr_peer r) (tr_refs r) -> exists r', run_top op r = Some r' /\ tinv r'.
Proof.
  intros [Hinv HI] Hal. destruct r as [st g sl rl]. cbn [tr_peer tr_refs tr_sent tr_received] in *. unfold run_top, tinv. cbn [tr_peer tr_refs tr_sent tr_received].
  destruct op as [op|p|now|now mtu alloc| |x now e data|e endpoint peer x nonce b|n]; cbn [t_allowed] in Hal.
  - destruct Hal as [Hal Hc]. destruct (kop_ok op _ g Hinv Hal) as (ks' & g' & E & Hinv'). rewrite E. cbn. eexists. split; [done|]. split; [done|]. cbn.
    apply (kop_evolves op (t_keys st) g) in E; [|apply HI|done]. apply (nonce_inv_evolves (t_keys st)); [done|done|]. destruct E; lia.
  - by eexists.
  - destruct (send_staged_ok now st g sl rl Hinv HI) as (r & st' & -> & A1 & A2). cbn. by eexists.
  - destruct (send_keepalive_ok now mtu alloc st g sl rl Hinv HI) as (r & st' & -> & A1 & A2). cbn. by eexists.
  - by eexists.
  - destruct (live_outside _ _ x Hinv Hal) as (kp & Hkp). rewrite Hkp. cbn [mbind option_bind]. eexists. split; [done|]. cbn [tr_peer tr_refs tr_sent tr_received t_keys].
    assert (D : (decrypt_packet now e data kp).2 = kp \/ (decrypt_packet now e data kp).2 = invalidate_receiving kp).
    { unfold decrypt_packet. repeat case_match; auto. }
    destruct D as [-> | ->]; (split; [by apply (kinv_set _ _ x kp)|]); by eapply nonce_inv_kept, (kept_set _ x kp).
  - destruct Hal as (Hx & Hn & Hl). destruct (rx_packet_ok e endpoint peer x nonce b st g sl rl Hinv HI Hx Hn Hl) as (fx & r & st' & -> & A1 & A2). cbn. by eexists.
  - eexists. split; [done|]. cbn. destruct HI as [H1 H2 H3 H4 H5 H6 H7 H8]. split; [by destruct Hinv|]. split; try done; cbn; [lia|..].
    + intros x kp Hx. specialize (H2 x kp Hx). lia.
    + intros id m Hin. destruct (H4 id m Hin). lia.
    + intros id m Hin. specialize (H5 id m Hin). lia.
Qed.

Lemma t_reachable_inv r : t_reachable r -> tinv r.
Proof.
  induction 1 as [t kc Ht Hkc|r op r' _ IH Hal Hrun].
  - split; [by apply kinv_init|]. split; cbn; try done; try (by intros x kp Hx); try (intros id n Hin; inversion Hin); constructor.
  - destruct (top_ok op r IH Hal) as (r1 & E & H). rewrite Hrun in E. by injection E as <-.
Qed.

(** C3: a nonce is never used twice with the same key, in either direction.  In
    every state a peer can reach, by any interleaving of packets to send,
    keepalives, received packets, handshakes, expirations and grace periods: the
    nonces of all batches ever sent with one keypair are distinct and below
    REJECT_AFTER_MESSAGES, also across failed attempts that had to be taken
    back; no nonce of a keypair is accepted twice from the network; and every
    further step is safe (no step touches a keypair that has been freed). *)
Theorem transport_nonces_unique r : t_reachable r ->
  NoDup (tr_sent r) /\ NoDup (tr_received r) /\ (forall id n, (id, n) ∈ tr_sent r -> 0 <= n < REJECT_AFTER_MESSAGES) /\
  forall op, t_allowed op (tr_peer r) (tr_refs r) -> is_Some (run_top op r).
Proof.
  intros Hi%t_reachable_inv. pose proof Hi as [Hinv HI]. ands; [apply HI|apply HI|intros id n Hin; by apply (ni_sent _ _ _ HI id n)|].
  intros op Hal. destruct (top_ok op r Hi Hal) as (r' & -> & _). done.
Qed.

End NonceTheorem.

(** Two packets sent over a session we initiated. *)
Definition t_example : trun := TRun (TState kp_example [] false) (Refs (fun _ => 0) ∅) [] [].
Definition t_example_ops : list top :=
  [TKey (KBegin (hs_example HANDSHAKE_CONSUMED_RESPONSE) 1 7 (Some 100) 0 false); TStage (TxPacket [] 0 0); TStage (TxPacket [] 0 0); TSend 1; TKeepalive 2 0 true].
Fixpoint run_tops `{C : NoiseCrypto} (ops : list top) (r : trun) : option trun := match ops with [] => Some r | op :: ops => r ← run_top op r; run_tops ops r end.

Lemma t_example_run : tr_sent <$> run_tops (C := toy_crypto) t_example_ops t_example = Some [(1, 2); (1, 0); (1, 1)].
Proof. vm_compute. reflexivity. Qed.

Lemma transport_nonces_unique_witness : exists r, run_tops (C := toy_crypto) t_example_ops t_example = Some r /\ tr_sent r = [(1, 2); (1, 0); (1, 1)] /\ NoDup (tr_sent r).
Proof.
  destruct (proj1 (fmap_Some _ _ _) t_example_run) as (r & E & Es). exists r. split; [exact E|]. split; [by symmetry|].
  apply (transport_nonces_unique (C := toy_crypto) r). revert E. cbn [run_tops t_example_ops]. intros (r1 & E1 & (r2 & E2 & (r3 & E3 & (r4 & E4 & (r5 & E5 & [= <-])%bind_Some)%bind_Some)%bind_Some)%bind_Some)%bind_Some.
  assert (H1 : t_reachable (C := toy_crypto) r1).
  { eapply t_reachable_step; [apply (t_reachable_init (ks_index kp_example) 0); [apply ix_example_ok|lia]| |exact E1]. split; [split; [apply kp_example_fresh|done]|cbn; lia]. }
  apply (t_reachable_step r4 (TKeepalive 2 0 true)), E5; [|exact I]. apply (t_reachable_step r3 (TSend 1)), E4; [|exact I].
  apply (t_reachable_step r2 (TStage (TxPacket [] 0 0))), E3; [|exact I]. by apply (t_reachable_step r1 (TStage (TxPacket [] 0 0))), E2.
Defined.

(** * Padding *)

Lemma align_padding_value x : 0 <= x < 2 ^ 32 - 15 -> align_padding x = 16 * ((x + 15) / 16).
Proof.
  intros Hx. unfold align_padding, MESSAGE_PADDING_MULTIPLE. change (16 - 1) with 15. rewrite (u32_small (x + 15)) by lia.
  change (u32 (Z.lnot 15)) with (Z.shiftl (Z.ones 28) 4). assert (0 <= (x + 15) / 16 < 2 ^ 28) as B by lia.
  rewrite <- (Z.mod_small ((x + 15) / 16) (2 ^ 28)), <- Z.land_ones by lia. change 16 with (2 ^ 4). rewrite <- Z.shiftr_div_pow2, Z.mul_comm, <- Z.shiftl_mul_pow2 by lia.
  rewrite Z.shiftl_land. apply Z.bits_inj'. intros n Hn. rewrite !Z.land_spec. destruct (Z.testbit (Z.shiftl (Z.ones 28) 4) n) eqn:E; [|by rewrite !andb_false_r].
  rewrite !andb_true_r. destruct (Z.ltb_spec n 4); [rewrite Z.shiftl_spec_low in E by lia; done|]. rewrite Z.shiftl_spec, Z.shiftr_spec by lia. f_equal. lia.
Qed.

Lemma calculate_skb_padding_ok skb_len mtu : 0 <= skb_len < 2 ^ 31 -> 0 <= mtu < 2 ^ 31 ->
  let r := calculate_skb_padding skb_len mtu in
  0 <= r < 16 /\ (mtu = 0 -> (skb_len + r) mod 16 = 0) /\
  (0 < mtu -> let unit := if skb_len >? mtu then skb_len mod mtu else skb_len in
     unit + r <= mtu /\ ((unit + r) mod 16 = 0 \/ unit + r = mtu)).
Proof.
  intros Hl Hm. cbv zeta. unfold calculate_skb_padding. destruct (Z.eqb_spec mtu 0) as [->|Dm].
  { rewrite align_padding_value by lia. rewrite u32_small by lia. split; [lia|]. split; [intros _|lia]. replace (_ + _) with (16 * ((skb_len + 15) / 16)) by lia. rewrite Z.mul_comm. by apply Z.mod_mul. }
  set (unit := if _ >? _ then _ else _). assert (0 <= unit <= mtu) as Hu by (subst unit; destruct (Z.gtb_spec skb_len mtu); [pose proof (Z.mod_pos_bound skb_len mtu)|]; lia).
  rewrite align_padding_value by lia. rewrite u32_small by lia. split; [lia|]. split; [lia|]. intros _. split; [lia|].
  destruct (Z.min_spec mtu (16 * ((unit + 15) / 16))) as [[_ ->]|[_ ->]]; [right; lia|left].
  replace (_ + _) with (((unit + 15) / 16) * 16) by lia. by apply Z.mod_mul.
Qed.

(** The padding of a packet of realistic size is less than a unit of 16
    bytes and never overflows.  Without an MTU it fills the last unit.  A packet that
    fits the MTU still fits it with its padding, and is padded to a full unit
    or to the MTU; of a packet beyond the MTU what exceeds the last full MTU is treated in
    that way. *)
Theorem calculate_skb_padding_bounds skb_len mtu : 0 <= skb_len < 2 ^ 31 -> 0 <= mtu < 2 ^ 31 ->
  let r := calculate_skb_padding skb_len mtu in
  0 <= r < 16 /\ (mtu = 0 -> (skb_len + r) mod 16 = 0) /\
  (0 < mtu -> let unit := if skb_len >? mtu then skb_len mod mtu else skb_len in
     unit + r <= mtu /\ ((unit + r) mod 16 = 0 \/ unit + r = mtu)).
Proof. apply calculate_skb_padding_ok. Qed.

Lemma calculate_skb_padding_bounds_witness : calculate_skb_padding 1415 1420 = 5 /\ 0 <= calculate_skb_padding 1415 1420 < 16.
Proof. split; [reflexivity|]. apply (calculate_skb_padding_bounds 1415 1420); lia. Defined.

(** * From one end to the other *)

(** Memory is available and what it holds has the size asked for. *)
Record tx_ready (e : tx_env) : Prop := {
  tr_cow_data : tx_cow_data e = true;
  tr_cow_head : tx_cow_head e = true;
  tr_sgvec : tx_sgvec e = true;
  tr_rnd : random_ok (tx_rnd e);
  tr_garbage : forall n, 0 <= n -> len (tx_garbage e n) = n
}.

(** An IP packet whose header tells its length. *)
Definition ip_ok (b : list Z) : Prop :=
  (ip_version b = 4 /\ sizeof_iphdr <= len b /\ be16_at 2 b = len b) \/ (ip_version b = 6 /\ sizeof_ipv6hdr <= len b /\ be16_at 4 b + sizeof_ipv6hdr = len b).

Lemma be16_at_app off b z : 0 <= off -> off + 2 <= len b -> be16_at off (b ++ z) = be16_at off b.
Proof.
  intros Ho Hl. unfold be16_at. rewrite skipn_app. replace (Z.to_nat off - length b)%nat with 0%nat by (unfold len in Hl; lia). cbn [skipn].
  assert (2 <= length (skipn (Z.to_nat off) b))%nat by (rewrite length_drop; unfold len in Hl; lia). by destruct (skipn (Z.to_nat off) b) as [|? [|? ?]]; cbn in *; [lia|lia|].
Qed.

Lemma ip_version_app b z : 0 < len b -> ip_version (b ++ z) = ip_version b.
Proof. by destruct b. Qed.

Lemma parse_v4 b : ip_version b = 4 -> sizeof_iphdr <= len b -> ip_tunnel_parse_protocol b = ETH_P_IP.
Proof. intros V L. unfold ip_tunnel_parse_protocol. by rewrite V, (proj2 (Z.leb_le _ _) L). Qed.
Lemma parse_v6 b : ip_version b = 6 -> sizeof_ipv6hdr <= len b -> ip_tunnel_parse_protocol b = ETH_P_IPV6.
Proof. intros V L. unfold ip_tunnel_parse_protocol. by rewrite V, (proj2 (Z.leb_le _ _) L), andb_false_r. Qed.

(** The padding is cut off again. *)
Lemma check_inner_padded ecn lookup peer b n : (forall l, ecn l = l) -> ip_ok b -> lookup (ip_packet (ip_tunnel_parse_protocol b) b) = Some (Some peer) ->
  check_inner ecn true lookup peer (b ++ zeros n) = Some (inr b).
Proof.
  intros He Hb Hl. pose proof (len_nonneg (zeros n)) as Hz. set (z := zeros n) in *. clearbody z.
  assert (F : firstn (Z.to_nat (len b)) (b ++ z) = b) by (unfold len; by rewrite Nat2Z.id, take_app_length).
  assert (V0 : ip_version (b ++ z) = ip_version b) by (apply ip_version_app; unfold ip_ok, sizeof_iphdr, sizeof_ipv6hdr in Hb; lia).
  unfold check_inner. destruct Hb as [(V & L & E)|(V & L & E)].
  - rewrite (parse_v4 b V L) in Hl. unfold sizeof_iphdr, sizeof_ipv6hdr in *. rewrite (parse_v4 (b ++ z)), V0, V by (rewrite ?V0, ?len_app; unfold sizeof_iphdr; lia).
    rewrite len_app, (proj2 (Z.leb_le 20 (len b + len z))), be16_at_app, E, He, (proj2 (Z.ltb_ge (len b) 20)), len_app by lia. cbn [Z.eqb Pos.eqb andb orb negb ETH_P_IP].
    cbv zeta. change (ETH_P_IP =? ETH_P_IP) with true. cbv iota. rewrite Z.gtb_ltb, (proj2 (Z.ltb_ge (len b + len z) (len b))) by lia. rewrite F, Hl. cbn. by rewrite bool_decide_true.
  - rewrite (parse_v6 b V L) in Hl. unfold sizeof_iphdr, sizeof_ipv6hdr in *. rewrite (parse_v6 (b ++ z)), V0, V by (rewrite ?V0, ?len_app; unfold sizeof_ipv6hdr; lia).
    rewrite len_app, (proj2 (Z.leb_le 20 (len b + len z))), (proj2 (Z.leb_le 40 (len b + len z))), (be16_at_app 4), E, He, len_app by lia. cbn [Z.eqb Pos.eqb andb orb negb ETH_P_IP].
    cbv zeta. change (ETH_P_IPV6 =? ETH_P_IP) with false. change (ETH_P_IPV6 =? ETH_P_IPV6) with true. cbv iota.
    rewrite Z.gtb_ltb, (proj2 (Z.ltb_ge (len b + len z) (len b))) by lia. rewrite F, Hl. cbn. by rewrite bool_decide_true.
Qed.

(** A delivered packet. *)
Lemma consume_done_delivers e peer x b st fx r st' inner : wg_packet_consume_data_done e peer x b st = Some (fx, r, st') -> len b <> 0 ->
  check_inner (d_ecn e) (d_trim e) (d_lookup e) peer b = Some (inr inner) -> NapiReceive peer inner ∈ fx.
Proof.
  intros H Hb Hc. unfold wg_packet_consume_data_done in H. apply bind_Some in H as ([c ks] & _ & H). apply bind_Some in H as ([[fx0 r0] st0] & _ & H).
  rewrite (proj2 (Z.eqb_neq _ _) Hb), Hc in H. cbn [mbind option_bind] in H. injection H as <- _ _. set_solver.
Qed.

Section EndToEnd.

Context `{NL : NoiseCryptoLaws}.

(** The datagram of a packet: the prefix, the header, the sealed packet with its padding. *)
Definition sealed (message_type : Z) (skb : tx_packet) (data : list Z) (kp : noise_keypair) : message_data :=
  Build_message_data message_type (kp_remote_index kp) (tp_nonce skb)
    (chacha20poly1305_encrypt (data ++ zeros (calculate_skb_padding (len (tp_data skb)) (tp_mtu skb))) [] (tp_nonce skb) (sk_key (sending kp))).

Lemma encrypt_packet_ok proto message_type junk e skb kp data : tx_ready e -> 0 <= junk -> tx_checksum e (tp_data skb) = Some data -> len data = len (tp_data skb) ->
  len data < 2 ^ 31 -> 0 <= tp_mtu skb < 2 ^ 31 ->
  exists l, len l = junk /\ encrypt_packet proto message_type junk e skb kp = Some (Some (l ++ data_bytes (sealed message_type skb data kp))).
Proof.
  intros [H1 H2 H3 H4 H5] Hj Hck Hlen Hd Hm. unfold encrypt_packet. rewrite H1, H2, Hck. cbn [negb]. cbv zeta. unfold sealed.
  set (pad := calculate_skb_padding _ _). assert (0 <= pad) as Hp. { rewrite Hlen in Hd. pose proof (len_nonneg (tp_data skb)). apply (calculate_skb_padding_ok (len (tp_data skb)) (tp_mtu skb)); lia. }
  set (hd := data_bytes _). assert (len hd = 16) as Lh by (unfold hd, data_bytes; rewrite !len_app, !len_le_bytes; done).
  set (tail := zeros pad ++ tx_garbage e (noise_encrypted_len 0)). assert (len tail = pad + noise_encrypted_len 0) as Lt by (unfold tail; rewrite len_app, len_zeros, H5; done).
  destruct (fill_padding_ok proto (tx_rnd e) junk (hd ++ data ++ tail) H4 Hj) as (l & Hl & Hf); [left; rewrite !len_app; pose proof (len_nonneg data); pose proof (len_nonneg tail); lia|].
  replace (junk + len hd + len data + (pad + noise_encrypted_len 0)) with (junk + len (hd ++ data ++ tail)) by (rewrite !len_app; lia).
  rewrite (Hf _ (H5 junk Hj)), H3. cbn [negb]. exists l. split; [done|]. do 2 f_equal.
  replace (Z.to_nat (junk + MESSAGE_TRANSPORT_SIZE)) with (length (l ++ hd)) by (rewrite length_app; unfold len in Hl, Lh; change MESSAGE_TRANSPORT_SIZE with 16; lia).
  rewrite app_assoc, take_app_length, drop_app_length. unfold tail. rewrite (app_assoc data).
  replace (Z.to_nat (len (tp_data skb) + pad)) with (length (data ++ zeros pad)) by (rewrite length_app; pose proof (len_zeros pad Hp) as Z0; unfold len in *; lia).
  rewrite take_app_length. unfold hd, data_bytes. cbn [md_type md_key_idx md_counter md_encrypted_data]. by rewrite app_nil_r, <- !app_assoc.
Qed.

Lemma delivers_data c l m : config_ok c -> data_wf m -> len l = junk_size c MSGIDX_TRANSPORT -> mh_validate (md_type m) (header c MSGIDX_TRANSPORT) = true ->
  (forall k, (k < 3)%nat -> junk_size c k <> junk_size c MSGIDX_TRANSPORT -> junk_size c k + kind_size k <> len (l ++ data_bytes m)) ->
  delivers c (l ++ data_bytes m) (data_bytes m).
Proof.
  intros Ok W Hl V N d pre udp lh ll post H1 H2 H3 H4 H5. destruct (data_roundtrip m W) as [Rm Lm]. rewrite <- !app_assoc in *. rewrite len_app in H5.
  apply (dispatch_accepts c 3); try done; [lia|lia| | |].
  - unfold kind_length_ok. cbn [decide]. rewrite Lm. change (MESSAGE_TRANSPORT_SIZE <= MESSAGE_TRANSPORT_SIZE + len (md_encrypted_data m)). pose proof (len_nonneg (md_encrypted_data m)). lia.
  - by rewrite (f_equal md_type Rm : le_word (firstn 4 (data_bytes m)) = _).
  - intros k Hk D E. exfalso. apply (N k Hk D). by rewrite len_app.
Qed.

(** What the receiver of a data message needs. *)
Record rx_ready (er : rx_env) (now : Z) (kp : noise_keypair) : Prop := {
  rr_cow : rx_cow_data er = true;
  rr_sg : rx_sgvec er = true;
  rr_trim : rx_trim er = true;
  rr_valid : is_valid (receiving kp) = true;
  rr_fresh : wg_birthdate_has_expired (birthdate (receiving kp)) REJECT_AFTER_TIME now = false;
  rr_count : rc_counter (receiving_counter kp) < REJECT_AFTER_MESSAGES
}.

Lemma decrypt_sealed er now kpS kpR ty skb data : rx_ready er now kpR -> sk_key (sending kpS) = sk_key (receiving kpR) -> data_wf (sealed ty skb data kpS) ->
  decrypt_packet now er (data_bytes (sealed ty skb data kpS)) kpR =
    (Some (tp_nonce skb, data ++ zeros (calculate_skb_padding (len (tp_data skb)) (tp_mtu skb))), kpR).
Proof.
  intros [H1 H2 H3 H4 H5 H6] Ek W. unfold decrypt_packet. destruct (data_roundtrip _ W) as [-> _]. rewrite H4, H5. destruct (Z.geb_spec (rc_counter (receiving_counter kpR)) REJECT_AFTER_MESSAGES); [lia|].
  cbn [negb orb]. rewrite H1, H2, H3. cbn [negb sealed md_counter md_encrypted_data]. by rewrite Ek, aead_open_seal.
Qed.

(** What the window of a reachable keypair lets pass. *)
Lemma window_open ks sl rl x kp nonce : nonce_inv ks sl rl -> ks_pairs ks !! x = Some kp -> 0 <= nonce < REJECT_AFTER_MESSAGES -> (internal_id kp, nonce) ∉ rl ->
  rc_counter (receiving_counter kp) <= nonce + 1 + COUNTER_WINDOW_SIZE -> (counter_validate (receiving_counter kp) nonce).1 = true.
Proof.
  intros I Hx Hn Hnew Hw. destruct (ni_pairs _ _ _ I x kp Hx) as [_ _ _ (hist & Hr & Hh)]. pose proof REJECT_value.
  pose proof (counter_validate_step hist _ nonce Hr ltac:(lia)) as V. destruct (counter_validate _ nonce) as [ok c']. destruct V as [-> _]. cbn [fst].
  unfold window_accepts. rewrite <- (rr_counter _ _ Hr), (proj2 (Z.ltb_lt _ _)), (proj2 (Z.leb_le _ _)), bool_decide_true by (lia || by rewrite Hh). done.
Qed.

(** C2: a packet gets through.  An IP packet that is encrypted under one half
    of a session leaves as a datagram that the other device takes for a data
    message, wherever it is in a packet; it names the receiver's index; it
    decrypts to the packet and its padding; and unless its nonce was accepted
    before or has left the window, exactly the packet is handed to the network
    stack, provided its source address belongs to the peer.  The hypothesis on
    the sizes excludes datagrams that have the length of a handshake message of another prefix. *)
Theorem transport_end_to_end c proto ty e skb data kpS r x kpR er now ed peer :
  config_ok c -> is_u32 ty -> mh_validate ty (header c MSGIDX_TRANSPORT) = true -> tx_ready e -> tx_checksum e (tp_data skb) = Some data ->
  len data = len (tp_data skb) -> ip_ok data -> len data < 2 ^ 16 -> 0 <= tp_mtu skb < 2 ^ 31 -> 0 <= tp_nonce skb < REJECT_AFTER_MESSAGES -> is_u32 (kp_remote_index kpS) ->
  (forall k, (k < 3)%nat -> junk_size c k <> junk_size c MSGIDX_TRANSPORT ->
     junk_size c k + kind_size k <> junk_size c MSGIDX_TRANSPORT + message_data_len (len data + calculate_skb_padding (len data) (tp_mtu skb))) ->
  t_reachable r -> ks_pairs (t_keys (tr_peer r)) !! x = Some kpR -> 0 < outside (tr_refs r) x -> rx_ready er now kpR -> sk_key (sending kpS) = sk_key (receiving kpR) ->
  (internal_id kpR, tp_nonce skb) ∉ tr_received r -> rc_counter (receiving_counter kpR) <= tp_nonce skb + 1 + COUNTER_WINDOW_SIZE ->
  (forall b, d_ecn ed b = b) -> d_trim ed = true -> (forall pk, is_Some (d_lookup ed pk)) -> d_lookup ed (ip_packet (ip_tunnel_parse_protocol data) data) = Some (Some peer) ->
  exists dg msg b fx batch st',
    encrypt_packet proto ty (junk_size c MSGIDX_TRANSPORT) e skb kpS = Some (Some dg) /\
    len dg = junk_size c MSGIDX_TRANSPORT + message_data_len (len data + calculate_skb_padding (len data) (tp_mtu skb)) /\
    delivers c dg msg /\ md_key_idx (data_of msg) = kp_remote_index kpS /\
    decrypt_packet now er msg kpR = (Some (tp_nonce skb, b), kpR) /\
    rx_packet ed true peer x (tp_nonce skb) b (tr_peer r) = Some (fx, batch, st') /\ NapiReceive peer data ∈ fx.
Proof.
  intros Ok Hty V He Hck Hlen Hip Hd Hm Hn Hri Hsz Hr Hx Hout Hrx Ek Hnew Hw Hecn Htr Hlk Hpeer. apply t_reachable_inv in Hr as [Hinv HI].
  assert (0 <= junk_size c MSGIDX_TRANSPORT) as Hj by (apply Ok; unfold MSGIDX_TRANSPORT; lia).
  destruct (encrypt_packet_ok proto ty (junk_size c MSGIDX_TRANSPORT) e skb kpS data) as (l & Hl & Ee); try done; [lia|].
  pose proof REJECT_value as HRJ. assert (W : data_wf (sealed ty skb data kpS)) by (split; [done|done|cbn; lia]). destruct (data_roundtrip _ W) as [Rm Lm].
  pose proof (len_nonneg data) as Hd0. destruct (calculate_skb_padding_ok (len data) (tp_mtu skb)) as [Hp _]; [lia|lia|].
  assert (Ld : len (l ++ data_bytes (sealed ty skb data kpS)) = junk_size c MSGIDX_TRANSPORT + message_data_len (len data + calculate_skb_padding (len data) (tp_mtu skb))).
  { rewrite len_app, Lm, Hl. cbn [sealed md_encrypted_data]. rewrite aead_seal_len, len_app, <- Hlen, len_zeros by lia.
    unfold message_data_len, noise_encrypted_len, MESSAGE_TRANSPORT_SIZE, NOISE_AUTHTAG_LEN. unfold sizeof_header. lia. }
  set (b := data ++ zeros (calculate_skb_padding (len data) (tp_mtu skb))).
  assert (len b <> 0) as Hb. { unfold b. rewrite len_app, len_zeros by lia. unfold ip_ok, sizeof_iphdr, sizeof_ipv6hdr in Hip. lia. }
  destruct (rx_packet_ok ed true peer x (tp_nonce skb) b _ _ _ _ Hinv HI Hout) as (fx & batch & st' & Er & _); [lia|done|].
  eexists _, _, b, fx, batch, st'. split; [exact Ee|]. split; [done|]. split; [apply delivers_data; try done; intros k Hk D; rewrite Ld; by apply Hsz|].
  split; [by rewrite Rm|]. split; [unfold b; rewrite Hlen; by apply decrypt_sealed|]. split; [done|].
  pose proof (window_open _ _ _ x kpR _ HI Hx Hn Hnew Hw) as Hwin. unfold rx_packet in Er. rewrite Hx in Er. cbn [mbind option_bind] in Er. destruct (counter_validate _ _) as [ok c'].
  cbn [fst] in Hwin. subst ok. cbn [negb] in Er. apply bind_Some in Er as ([[fx1 b1] st1] & Ec & Er). apply bind_Some in Er as (ks & _ & [= <- _ _]).
  eapply consume_done_delivers; [exact Ec|done|]. rewrite Htr. by apply check_inner_padded.
Qed.

End EndToEnd.

(** A header of 20 bytes from 10.1.2.3 over the session of the first example. *)
Definition demo_packet : list Z := [69; 0; 0; 20; 0; 0; 0; 0; 64; 17; 0; 0; 10; 1; 2; 3; 10; 2; 2; 3].
Definition demo_tx : tx_env := TxEnv true true Some true zeros zeros.
Definition demo_rx_ops : list top := [TKey (KBegin (hs_example HANDSHAKE_CREATED_RESPONSE) 1 7 (Some 100) 0 false); TKey (KGet 100)].
Definition demo_done : done_env := DoneEnv (fun b => b) true 1 (fun pk => Some (if bool_decide (saddr pk = [10; 1; 2; 3]) then Some 7 else None)).
Definition demo_rx : trun := default t_example (run_tops (C := toy_crypto) demo_rx_ops t_example).
Definition demo_pair : noise_keypair := default (Keypair no_key 0 no_key replay_init 0 false 0 0) (ks_pairs (t_keys (tr_peer demo_rx)) !! 100).
Definition demo_sender : noise_keypair := Keypair (receiving demo_pair) 0 (sending demo_pair) replay_init 77 true 1 9.

Lemma demo_rx_reachable : t_reachable (C := toy_crypto) demo_rx.
Proof.
  assert (E : is_Some (run_tops (C := toy_crypto) demo_rx_ops t_example)) by (vm_compute; eauto). unfold demo_rx. destruct E as [r E]. rewrite E. cbn [default]. revert E.
  cbn [run_tops demo_rx_ops]. intros (r1 & E1 & (r2 & E2 & [= <-])%bind_Some)%bind_Some.
  assert (H1 : t_reachable (C := toy_crypto) r1).
  { eapply t_reachable_step; [apply (t_reachable_init (ks_index kp_example) 0); [apply ix_example_ok|lia]| |exact E1]. split; [split; [apply kp_example_fresh|done]|cbn; lia]. }
  apply (t_reachable_step r1 (TKey (KGet 100))), E2; [done|]. cbn in E1. injection E1 as <-. split; [by eexists|by vm_compute].
Qed.

Lemma transport_end_to_end_witness : exists dg msg b fx batch st',
  encrypt_packet (C := toy_crypto) IMITATE_NONE 4 0 demo_tx (TxPacket demo_packet 1420 5) demo_sender = Some (Some dg) /\ delivers sample_config dg msg /\
  decrypt_packet (C := toy_crypto) 1 (RxEnv true true true) msg demo_pair = (Some (5, b), demo_pair) /\
  rx_packet demo_done true 7 100 5 b (tr_peer demo_rx) = Some (fx, batch, st') /\ NapiReceive 7 demo_packet ∈ fx.
Proof.
  destruct (transport_end_to_end (NL := toy_laws) sample_config IMITATE_NONE 4 demo_tx (TxPacket demo_packet 1420 5) demo_packet demo_sender demo_rx 100 demo_pair (RxEnv true true true) 1 demo_done 7)
    as (dg & msg & b & fx & batch & st' & H1 & _ & H2 & _ & H3 & H4 & H5).
  - apply sample_config_ok.
  - unfold is_u32. lia.
  - reflexivity.
  - split; try reflexivity; [|intros n Hn; by apply len_zeros]. intros n Hn. split; [by apply len_zeros|apply all_bytes_zeros].
  - reflexivity.
  - reflexivity.
  - left. repeat split; by vm_compute.
  - by vm_compute.
  - cbn. lia.
  - by vm_compute.
  - unfold is_u32. cbn. lia.
  - intros k Hk. destruct k as [|[|[|k]]]; [by vm_compute..|lia].
  - exact demo_rx_reachable.
  - by vm_compute.
  - by vm_compute.
  - split; by vm_compute.
  - reflexivity.
  - intros Hin. assert (tr_received demo_rx = []) as E by (by vm_compute). rewrite E in Hin. inversion Hin.
  - by vm_compute.
  - reflexivity.
  - reflexivity.
  - intros pk. by eexists.
  - reflexivity.
  - exists dg, msg, b, fx, batch, st'. exact (conj H1 (conj H2 (conj H3 (conj H4 H5)))).
Defined.

(** * Only what may get through gets through *)

(** The length that the header of an IP packet tells. *)
Definition ip_total (b : list Z) : Z := if ip_tunnel_parse_protocol b =? ETH_P_IP then be16_at 2 b else be16_at 4 b + sizeof_ipv6hdr.
Definition is_v6 (b : list Z) : bool := ip_tunnel_parse_protocol b =? ETH_P_IPV6.
(** The source address of a packet. *)
Definition ip_source (v6 : bool) (b : list Z) : list Z := if v6 then field 8 16 b else field 12 4 b.

Lemma be16_nonneg off b : all_bytes b -> 0 <= be16_at off b.
Proof.
  intros Hb. unfold be16_at. assert (H : all_bytes (skipn (Z.to_nat off) b)) by (by apply Forall_drop). destruct (skipn (Z.to_nat off) b) as [|x [|y l]]; [lia..|].
  inversion H as [|? ? Hx H']; subst. inversion H' as [|? ? Hy _]; subst. unfold is_byte in *. lia.
Qed.

Lemma check_inner_inv ecn trim lookup peer b inner : all_bytes b -> check_inner ecn trim lookup peer b = Some (inr inner) ->
  ip_total b <= len (ecn b) /\ inner = firstn (Z.to_nat (ip_total b)) (ecn b) /\ lookup (ip_packet (ip_tunnel_parse_protocol b) inner) = Some (Some peer) /\
  if is_v6 b then ip_tunnel_parse_protocol b = ETH_P_IPV6 /\ sizeof_ipv6hdr <= ip_total b else ip_tunnel_parse_protocol b = ETH_P_IP /\ sizeof_iphdr <= ip_total b.
Proof.
  intros Hb. unfold check_inner, ip_total, is_v6. destruct (negb _); [done|]. cbv zeta. set (pr := ip_tunnel_parse_protocol b). pose proof (be16_nonneg 4 b Hb) as H4.
  destruct (Z.eqb_spec pr ETH_P_IP) as [E|E]; [rewrite E; change (ETH_P_IP =? ETH_P_IPV6) with false; destruct (Z.ltb_spec (be16_at 2 b) sizeof_iphdr) as [|L]; [done|]|
    destruct (Z.eqb_spec pr ETH_P_IPV6) as [E6|]; [rewrite E6|done]].
  all: match goal with |- context [?a >? ?c] => destruct (Z.gtb_spec a c); [done|] end; destruct (negb _ && _); [done|].
  all: intros (o & Ho & Hr)%bind_Some; case_bool_decide as Eo; [|done]; injection Hr as <-; subst o; split; [lia|]; split; [done|]; split; [done|]; split; [done|lia].
Qed.

Lemma consume_done_inv e peer x b st fx r st' p inner : wg_packet_consume_data_done e peer x b st = Some (fx, r, st') -> NapiReceive p inner ∈ fx ->
  p = peer /\ check_inner (d_ecn e) (d_trim e) (d_lookup e) peer b = Some (inr inner).
Proof.
  intros H Hin. unfold wg_packet_consume_data_done in H. apply bind_Some in H as ([c ks] & _ & H). apply bind_Some in H as ([[fx0 r0] st0] & H0 & H).
  assert (NapiReceive p inner ∉ fx0) as N0.
  { destruct c; [apply bind_Some in H0 as ([r1 st1] & _ & [= <- <- <-])|injection H0 as <- <- <-; set_solver]. destruct r1; cbn; set_solver. }
  set (f := keep_key_fresh_rx _ _ _) in H. clearbody f. cbv zeta in H. destruct (len b =? 0).
  { injection H as <- _ _. destruct f; set_solver. }
  destruct (check_inner _ _ _ _ _) as [[d|i]|]; cbn [mbind option_bind] in H; [| |done]; injection H as <- _ _.
  - exfalso. destruct f, d; set_solver.
  - assert (NapiReceive p inner = NapiReceive peer i) as E by (destruct f; set_solver). by injection E as -> ->.
Qed.

Lemma rx_packet_inv e endpoint peer x nonce b st kp fx r st' p inner : rx_packet e endpoint peer x nonce b st = Some (fx, r, st') -> ks_pairs (t_keys st) !! x = Some kp ->
  NapiReceive p inner ∈ fx -> p = peer /\ (counter_validate (receiving_counter kp) nonce).1 = true /\ check_inner (d_ecn e) (d_trim e) (d_lookup e) peer b = Some (inr inner).
Proof.
  intros H Hx Hin. unfold rx_packet in H. rewrite Hx in H. cbn [mbind option_bind] in H. destruct (counter_validate _ nonce) as [ok c].
  apply bind_Some in H as ([[fx1 b1] st1] & H1 & H). apply bind_Some in H as (ks & _ & [= <- <- <-]).
  destruct ok; cbn [negb] in H1; [|injection H1 as <- _ _; inversion Hin]. destruct endpoint; cbn [negb] in H1; [|injection H1 as <- _ _; inversion Hin].
  destruct (consume_done_inv _ _ _ _ _ _ _ _ _ _ H1 Hin). done.
Qed.

Lemma decrypt_inv `{C : NoiseCrypto} now er msg kp nonce b kp' : decrypt_packet now er msg kp = (Some (nonce, b), kp') ->
  nonce = md_counter (data_of msg) /\ chacha20poly1305_decrypt (md_encrypted_data (data_of msg)) [] nonce (sk_key (receiving kp)) = Some b /\
  is_valid (receiving kp) = true /\ wg_birthdate_has_expired (birthdate (receiving kp)) REJECT_AFTER_TIME now = false.
Proof.
  unfold decrypt_packet. destruct (is_valid (receiving kp)), (wg_birthdate_has_expired _ _ _); cbn [negb orb]; try done. destruct (_ >=? _); [done|].
  destruct (negb (rx_cow_data er)); [done|]. destruct (negb (rx_sgvec er)); [done|]. destruct (chacha20poly1305_decrypt _ _ _ _) as [pl|] eqn:E; [|done].
  destruct (negb (rx_trim er)); [done|]. by intros [= <- <- _].
Qed.

(** The allowed source of a packet. *)
Lemma source_allowed views mviews proto inner peer n : Forall2 (fun a b => holds a.1 b.1 /\ a.2 = b.2) views mviews -> all_bytes inner -> len inner = n ->
  (proto = ETH_P_IPV6 /\ sizeof_ipv6hdr <= n) \/ (proto = ETH_P_IP /\ sizeof_iphdr <= n) ->
  wg_allowedips_lookup_src views (ip_packet proto inner) = Some (Some peer) -> spec_lookup mviews (proto =? ETH_P_IPV6) (ip_source (proto =? ETH_P_IPV6) inner) = Some (Some peer).
Proof.
  intros Hv Hb Hl Hp. unfold wg_allowedips_lookup_src, ip_packet, lookup_by, ip_source.
  assert (F : forall off k, all_bytes (field off k inner)) by (intros; apply Forall_take, Forall_drop, Hb).
  assert (L : forall off k, 0 <= off -> 0 <= k -> off + k <= n -> len (field off k inner) = k) by (intros; unfold field, len in *; rewrite length_take, length_drop; lia).
  unfold sizeof_ipv6hdr, sizeof_iphdr in Hp. destruct Hp as [[-> Hn]|[-> Hn]]; cbn [Z.eqb Pos.eqb ETH_P_IP ETH_P_IPV6 protocol saddr]; intros <-; symmetry;
    apply lookup_refines; try done; rewrite L by lia; done.
Qed.


(** The table of the example gives 10.1.0.0/16 to the peer 2. *)
Definition demo_table : table := match run_ops example_ops (wg_allowedips_init []) with Some (_, st) => st | None => wg_allowedips_init [] end.
Definition demo_contents : contents := spec_ops example_ops [0; 0; 0; 0] (fun _ => ∅).
Definition demo_done2 : done_env := DoneEnv (fun b => b) true 1 (wg_allowedips_lookup_src [(demo_table, fun _ => true)]).
Definition demo_message : list Z := data_bytes (sealed (C := toy_crypto) 4 (TxPacket demo_packet 1420 5) demo_packet demo_sender).

Lemma demo_table_holds : holds demo_table demo_contents.
Proof.
  destruct (ops_refine example_ops _ _ (init_holds []) example_ops_ok) as (rs & st & E & _ & H). unfold demo_table, demo_contents. rewrite E.
  assert (fst <$> run_ops example_ops (wg_allowedips_init []) = Some [0; 0; 0; 0]) as Er by (vm_compute; reflexivity). rewrite E in Er. injection Er as ->. exact H.
Qed.

Lemma demo_delivery : (fun r => r.1.1) <$> rx_packet demo_done2 true 2 100 5 (demo_packet ++ zeros 12) (tr_peer demo_rx) =
  Some [SetEndpoint 2; TimerEvent 2 HandshakeComplete; TimerEvent 2 AnyReceived; TimerEvent 2 Traversal; TimerEvent 2 DataReceived; NapiReceive 2 demo_packet; RxStats 2 64].
Proof. vm_compute. reflexivity. Qed.


(** * Keepalives *)

(** C39: A keepalive counts as data when data messages have a prefix.  The datagram
    of an empty packet has the length of a keepalive only without a prefix
    (S4 = 0); with one, [wg_packet_create_data_done] takes the keepalive for data and
    tells the timers, which then expect an answer. *)
Theorem keepalive_counted_as_data `{NL : NoiseCryptoLaws} proto ty junk e mtu nonce kp p now current : tx_ready e -> 0 <= junk -> 0 <= mtu < 2 ^ 31 -> tx_checksum e [] = Some [] ->
  exists dg, encrypt_packet proto ty junk e (TxPacket [] mtu nonce) kp = Some (Some dg) /\ len dg = junk + message_data_len 0 /\
    (TimerEvent p DataSent ∈ wg_packet_create_data_done p now (fun _ => true) [dg] current <-> 0 < junk).
Proof.
  intros He Hj Hm Hc. destruct (encrypt_packet_ok proto ty junk e (TxPacket [] mtu nonce) kp [] He Hj Hc eq_refl) as (l & Hl & E); [done|done|]. eexists. split; [exact E|].
  assert (P0 : calculate_skb_padding 0 mtu = 0). { unfold calculate_skb_padding. destruct (Z.eqb_spec mtu 0); [done|]. destruct (Z.gtb_spec 0 mtu); [lia|]. change (align_padding 0) with 0. rewrite Z.min_r by lia. done. }
  set (dg := l ++ _). assert (L : len dg = junk + message_data_len 0).
  { unfold dg, data_bytes. rewrite !len_app, !len_le_bytes, Hl. cbn [sealed md_encrypted_data tp_data tp_mtu]. rewrite aead_seal_len, len_app. change (len []) with 0. rewrite P0. reflexivity. }
  split; [exact L|]. unfold wg_packet_create_data_done. cbn [imap existsb fst snd andb]. rewrite L. cbn [orb]. rewrite orb_false_r.
  destruct (Z.eqb_spec (junk + message_data_len 0) (message_data_len 0)); cbn [negb]; split; try lia; intros H; destruct (keep_key_fresh_tx _ _); cbn in H |- *; set_solver.
Qed.

Lemma keepalive_counted_as_data_witness : exists dg, encrypt_packet (C := toy_crypto) IMITATE_NONE 4 15 demo_tx (TxPacket [] 1420 5) demo_sender = Some (Some dg) /\
  TimerEvent 2 DataSent ∈ wg_packet_create_data_done 2 1 (fun _ => true) [dg] None.
Proof.
  destruct (keepalive_counted_as_data (NL := toy_laws) IMITATE_NONE 4 15 demo_tx 1420 5 demo_sender 2 1 None) as (dg & E & _ & H); [|lia|lia|reflexivity|].
  - split; try reflexivity; [|intros n Hn; by apply len_zeros]. intros n Hn. split; [by apply len_zeros|apply all_bytes_zeros].
  - exists dg. split; [exact E|]. apply H. reflexivity.
Defined.
