(* ===== verification/Device.v ===== *)
(** * The network device ([src/device.c])

    What the kernel asks of the interface: bringing it up and down, sending a
    packet, and the notifications that the machine suspends, that the
    virtual machine was duplicated, and that a network namespace goes away.
    The operations act on the peers of a device in their composition of
    [Keypairs], [Transport], [Timers], [Socket] and [Noise], which share the
    index table of the device.  What an operation gives to the
    packet queues, to the network stack or back to the allocator is its output.

    Theorems: a packet goes to the peer that has the longest allowed prefix of its
    destination and to no other; a device that is down holds no packets and no
    keys; suspending erases the keys; after the machine was duplicated nothing is
    sent under a key that both copies know. *)

From S2P Require Import Prelude Words Messages Replay IpBits Trie AllowedIps AllowedIpsSpec PeerLookup Noise Keypairs PtrRing Config Dispatch Timers Socket Handshake Transport.
From stdpp Require Import gmap list fin_maps.
#[local] Open Scope Z_scope.

Definition ENOKEY : Z := 126.
Definition EDESTADDRREQ : Z := 89.
Definition EPROTONOSUPPORT : Z := 93.

(** ** State *)

(** A peer: its keypairs, the packets that wait, the handshake, the timers
    (with the reference count and the times of handshakes) and the endpoint. *)
Record dev_peer := DevPeer {
  v_pairs : gmap Z noise_keypair;
  v_slots : noise_keypairs;
  v_staged : list tx_packet;
  v_handshake : noise_handshake;
  v_timers : peer_timers;
  v_sock : peer_sock
}.

(** A device; [v_counter] is [keypair_counter] of [src/noise.c]. *)
Record device := Device {
  v_peers : gmap Z dev_peer;
  v_list : list Z;
  v_index : index_hashtable;
  v_counter : Z;
  v_ips : table;
  v_ring : ptr_ring;
  v_queue_len : Z;
  v_socks : wg_socks;
  v_net : option Z;
  v_mtu : Z
}.

Definition set_v_peer (p : Z) (x : dev_peer) (d : device) : device :=
  Device (<[p := x]> (v_peers d)) (v_list d) (v_index d) (v_counter d) (v_ips d) (v_ring d) (v_queue_len d) (v_socks d) (v_net d) (v_mtu d).
Definition set_v_index (t : index_hashtable) (d : device) : device :=
  Device (v_peers d) (v_list d) t (v_counter d) (v_ips d) (v_ring d) (v_queue_len d) (v_socks d) (v_net d) (v_mtu d).
Definition set_v_queue (r : ptr_ring) (n : Z) (d : device) : device :=
  Device (v_peers d) (v_list d) (v_index d) (v_counter d) (v_ips d) r n (v_socks d) (v_net d) (v_mtu d).
Definition set_v_socks (s : wg_socks) (d : device) : device :=
  Device (v_peers d) (v_list d) (v_index d) (v_counter d) (v_ips d) (v_ring d) (v_queue_len d) s (v_net d) (v_mtu d).
Definition set_v_net (n : option Z) (d : device) : device :=
  Device (v_peers d) (v_list d) (v_index d) (v_counter d) (v_ips d) (v_ring d) (v_queue_len d) (v_socks d) n (v_mtu d).

Definition set_v_keys (ks : kstate) (x : dev_peer) : dev_peer := DevPeer (ks_pairs ks) (ks_slots ks) (v_staged x) (v_handshake x) (v_timers x) (v_sock x).
Definition set_v_staged (l : list tx_packet) (x : dev_peer) : dev_peer := DevPeer (v_pairs x) (v_slots x) l (v_handshake x) (v_timers x) (v_sock x).
Definition set_v_handshake (hs : noise_handshake) (x : dev_peer) : dev_peer := DevPeer (v_pairs x) (v_slots x) (v_staged x) hs (v_timers x) (v_sock x).
Definition set_v_timers (t : peer_timers) (x : dev_peer) : dev_peer := DevPeer (v_pairs x) (v_slots x) (v_staged x) (v_handshake x) t (v_sock x).
Definition set_v_sock (s : peer_sock) (x : dev_peer) : dev_peer := DevPeer (v_pairs x) (v_slots x) (v_staged x) (v_handshake x) (v_timers x) s.

(** A peer with the parts of the device that the keypairs use. *)
Definition keys (d : device) (x : dev_peer) : kstate := KState (v_pairs x) (v_index d) (v_counter d) (v_slots x).
Definition traffic (d : device) (x : dev_peer) : tstate := TState (keys d x) (v_staged x) (sent_lastminute_handshake (v_timers x)).

(** Storing them back; the table of indices is the device's. *)
Definition put_keys (p : Z) (ks : kstate) (x : dev_peer) (d : device) : device := set_v_index (ks_index ks) (set_v_peer p (set_v_keys ks x) d).

Definition with_peer (f : dev_peer -> dev_peer) (p : Z) (d : device) : option device := x ← v_peers d !! p; Some (set_v_peer p (f x) d).

Section Device.

(** The entry of a peer's handshake in the index table. *)
Context (handshake_entry : Z -> Z).

(** ** Parts of the operations *)

Definition handshake_clear (p : Z) (d : device) : option device :=
  x ← v_peers d !! p;
  let '(t, hs) := wg_noise_handshake_clear (handshake_entry p) (v_index d) (v_handshake x) in
  Some (set_v_index t (set_v_peer p (set_v_handshake hs x) d)).

Definition clear_keypairs (p : Z) (d : device) : option device :=
  x ← v_peers d !! p; ks ← wg_noise_keypairs_clear (keys d x); Some (put_keys p ks x d).

(** The calls that [flush_work] makes while the timers are stopped; no others occur. *)
Definition flush_call (p : Z) (c : timer_call) (d : device) : option device :=
  match c with HandshakeClear => handshake_clear p d | KeypairsClear => clear_keypairs p d | _ => None end.
Fixpoint flush_calls (p : Z) (l : list timer_call) (d : device) : option device :=
  match l with [] => Some d | c :: l' => d ← flush_call p c d; flush_calls p l' d end.

(** A loop over the list of peers. *)
Fixpoint each_peer (f : Z -> device -> option device) (l : list Z) (d : device) : option device :=
  match l with [] => Some d | p :: l' => d ← f p d; each_peer f l' d end.

(** ** Down *)

Definition stop_timers (p : Z) (d : device) : option device :=
  x ← v_peers d !! p;
  let '(calls, t) := wg_timers_stop (v_timers x) in
  flush_calls p calls (set_v_peer p (set_v_timers t x) d).

Definition stop_peer (now p : Z) (d : device) : option device :=
  d ← with_peer (set_v_staged []) p d;
  d ← stop_timers p d;
  d ← handshake_clear p d;
  d ← clear_keypairs p d;
  with_peer (fun x => set_v_timers (set_last_sent (wg_noise_reset_last_sent_handshake now) (v_timers x)) x) p d.

(** [while ((skb = ptr_ring_consume(ring)) != NULL) kfree_skb(skb);] *)
Fixpoint drain (fuel : nat) (r : ptr_ring) : option (list Z * ptr_ring) :=
  match fuel with
  | O => None
  | S f =>
      match ptr_ring_consume r with
      | (None, r) => Some ([], r)
      | (Some skb, r) => '(l, r) ← drain f r; Some (skb :: l, r)
      end
  end.

(** The freed handshake packets, what became of the sockets, and the device. *)
Definition wg_stop (now : Z) (d : device) : option (list Z * list sock_event * device) :=
  d ← each_peer (stop_peer now) (v_list d) d;
  '(freed, r) ← drain (S (Z.to_nat (pr_size (v_ring d)))) (v_ring d);
  let d := set_v_queue r 0 d in
  let '(s, evs) := wg_socket_reinit (v_socks d) None None in
  Some (freed, evs, set_v_socks s d).

(** ** Up *)

(** Storing back the data path of a peer; a packet that has to wait asks for a
    handshake. *)
Definition put_traffic (te : timer_env) (p : Z) (r : staged_result) (st : tstate) (x : dev_peer) (d : device) : device :=
  let t := match r with StagedWait => wg_packet_send_queued_handshake_initiation te false (v_timers x) | _ => v_timers x end in
  set_v_index (ks_index (t_keys st)) (set_v_peer p (DevPeer (ks_pairs (t_keys st)) (ks_slots (t_keys st)) (t_staged st) (v_handshake x) t (v_sock x)) d).

Definition send_staged (te : timer_env) (p : Z) (d : device) : option (staged_result * device) :=
  x ← v_peers d !! p;
  '(r, st) ← wg_packet_send_staged_packets (te_clock te) (traffic d x);
  Some (r, put_traffic te p r st x d).

Definition send_keepalive (te : timer_env) (alloc : bool) (p : Z) (d : device) : option (staged_result * device) :=
  x ← v_peers d !! p;
  '(r, st) ← wg_packet_send_keepalive (te_clock te) (v_mtu d) alloc (traffic d x);
  Some (r, put_traffic te p r st x d).

(** The loop of [wg_open]: the batches that are sent. *)
Fixpoint open_peers (te : timer_env) (alloc : Z -> bool) (l : list Z) (d : device) : option (list (Z * staged_result) * device) :=
  match l with
  | [] => Some ([], d)
  | p :: l' =>
      '(r, d) ← send_staged te p d;
      x ← v_peers d !! p;
      '(rs, d) ← (if negb (persistent_keepalive_interval (v_timers x) =? 0) then '(r', d) ← send_keepalive te (alloc p) p d; Some ([(p, r); (p, r')], d)
                  else Some ([(p, r)], d));
      '(rs', d) ← open_peers te alloc l' d;
      Some (rs ++ rs', d)
  end.

(** The settings of the network stack for the interface are left out.  [live]: [maybe_get_net] takes a reference to the namespace. *)
Definition wg_open (ipv6 live : bool) (u : udp_creation) (te : timer_env) (alloc : Z -> bool) (d : device) : option (Z * list sock_event * list (Z * staged_result) * device) :=
  '(ret, s, evs) ← wg_socket_init ipv6 u (bool_decide (v_net d <> None) && live) (v_socks d) (incoming_port (v_socks d));
  let d := set_v_socks s d in
  if ret <? 0 then Some (ret, evs, [], d)
  else '(rs, d) ← open_peers te alloc (v_list d) d; Some (ret, evs, rs, d).

(** ** Notifications *)

(** The devices of [device_list]. *)
Fixpoint each_device (f : device -> option device) (l : list device) : option (list device) :=
  match l with [] => Some [] | d :: l' => d ← f d; l' ← each_device f l'; Some (d :: l') end.

(** Keypairs without references whose grace period [rcu_barrier] waits for. *)
Definition dead_pairs (x : dev_peer) : list Z := filter (fun a => (refcount <$> v_pairs x !! a) = Some 0) (elements (dom (v_pairs x))).
Definition free_pairs (p : Z) (d : device) : option device :=
  x ← v_peers d !! p; Some (put_keys p (foldr keypair_free_rcu (keys d x) (dead_pairs x)) x d).

Definition suspend_peer (p : Z) (d : device) : option device :=
  d ← with_peer (fun x => set_v_timers (set_zero_key None (v_timers x)) x) p d;
  d ← handshake_clear p d;
  clear_keypairs p d.

(** [autosleep]: [CONFIG_PM_AUTOSLEEP] or [CONFIG_PM_USERSPACE_AUTOSLEEP];
    [prepare]: the action is [PM_HIBERNATION_PREPARE] or [PM_SUSPEND_PREPARE]. *)
Definition wg_pm_notification (autosleep prepare : bool) (devices : list device) : option (list device) :=
  if autosleep then Some devices
  else if negb prepare then Some devices
  else
    devices ← each_device (fun d => each_peer suspend_peer (v_list d) d) devices;
    each_device (fun d => each_peer free_pairs (v_list d) d) devices.

Definition expire_peer (now p : Z) (d : device) : option device :=
  x ← v_peers d !! p;
  '(hs, last, ks) ← wg_noise_expire_current_peer_keypairs (v_handshake x) (handshake_entry p) now (keys d x);
  Some (put_keys p ks (set_v_timers (set_last_sent last (v_timers x)) (set_v_handshake hs x)) d).

Definition wg_vm_notification (now : Z) (devices : list device) : option (list device) :=
  each_device (fun d => each_peer (expire_peer now) (v_list d) d) devices.

(** [netif_carrier_off] is left out. *)
Definition wg_netns_pre_exit (net : Z) (devices : list device) : option (list device) :=
  each_device (fun d =>
    if bool_decide (v_net d = Some net) then
      let d := set_v_net None d in
      let d := set_v_socks (wg_socket_reinit (v_socks d) None None).1 d in
      each_peer (with_peer (fun x => set_v_sock (wg_socket_clear_peer_endpoint_src (v_sock x)) x)) (v_list d) d
    else Some d) devices.

(** ** Sending a packet *)

(** A packet from the network stack.  [ok_gso] is [None] for a packet that need
    not be divided, otherwise the result of [skb_gso_segment]; [ok_dst_mtu] is the
    MTU of a valid route; [ok_shared] tells for which segments
    [skb_share_check] returns a packet. *)
Record out_skb := OutSkb {
  ok_data : list Z;
  ok_protocol : Z;
  ok_gso : option (Z + list (list Z));
  ok_dst_mtu : option Z;
  ok_shared : nat -> bool
}.

(** What happens to packets besides being queued. *)
Inductive xmit_effect :=
| IcmpUnreachable                 (* [icmp_ndo_send] or [icmpv6_ndo_send] *)
| TxError                         (* [tx_errors], the packet is freed *)
| TxDropped (p : tx_packet)       (* [tx_dropped], a packet that waited is freed *)
| TxResult (r : staged_result).   (* [wg_packet_send_staged_packets] *)

Definition wg_check_packet_protocol (skb : out_skb) : bool :=
  let real_protocol := ip_tunnel_parse_protocol (ok_data skb) in
  negb (real_protocol =? 0) && (ok_protocol skb =? real_protocol).

(** [wg_peer_get_maybe_zero] during the lookup, and [wg_peer_put]. *)
Definition take_ref (n : Z) : Z -> device -> option device := with_peer (fun x => set_v_timers (set_refs (peer_refs (v_timers x) + n) (v_timers x)) x).
Definition referenced (d : device) (p : Z) : bool := match v_peers d !! p with Some x => negb (peer_refs (v_timers x) =? 0) | None => false end.

(** The segments that enter the queue. *)
Definition segments (skb : out_skb) (l : list (list Z)) (mtu : Z) : list tx_packet :=
  map (fun x => TxPacket x.2 mtu 0) (filter (fun x => Is_true (ok_shared skb x.1)) (imap pair l)).

(** The oldest packets, which have to go while the queue is too long, and those that stay. *)
Fixpoint trim_staged (l : list tx_packet) : list tx_packet * list tx_packet :=
  match l with
  | [] => ([], [])
  | p :: l' => if len l >? MAX_STAGED_PACKETS then let '(dropped, kept) := trim_staged l' in (p :: dropped, kept) else ([], l)
  end.

Definition icmp_for (skb : out_skb) : list xmit_effect :=
  if (ok_protocol skb =? ETH_P_IP) || (ok_protocol skb =? ETH_P_IPV6) then [IcmpUnreachable] else [].

(** From the reference to the peer on. *)
Definition xmit_to (te : timer_env) (skb : out_skb) (peer : Z) (d : device) : option (Z * list xmit_effect * device) :=
  x ← v_peers d !! peer;
  let err_peer ret := d ← take_ref (-1) peer d; Some (ret, icmp_for skb ++ [TxError], d) in
  match ps_endpoint (v_sock x) with
  | EpNone => err_peer (- EDESTADDRREQ)
  | _ =>
      let mtu := match ok_dst_mtu skb with Some m => m | None => v_mtu d end in
      match (match ok_gso skb with None => inr [ok_data skb] | Some r => r end) with
      | inl err => err_peer err
      | inr segs =>
          let '(dropped, kept) := trim_staged (v_staged x) in
          let d := set_v_peer peer (set_v_staged (kept ++ segments skb segs mtu) x) d in
          '(r, d) ← send_staged te peer d;
          d ← take_ref (-1) peer d;
          Some (0, map TxDropped dropped ++ [TxResult r], d)
      end
  end.

Definition wg_xmit (te : timer_env) (skb : out_skb) (d : device) : option (Z * list xmit_effect * device) :=
  if negb (wg_check_packet_protocol skb) then Some (- EPROTONOSUPPORT, [TxError], d)
  else
    peer ← wg_allowedips_lookup_dst [(v_ips d, referenced d)] (ip_packet (ok_protocol skb) (ok_data skb));
    match peer with
    | None => Some (- ENOKEY, icmp_for skb ++ [TxError], d)
    | Some p => d ← take_ref 1 p d; xmit_to te skb p d
    end.

End Device.

(** * The invariant and its steps *)

Definition no_slots : noise_keypairs := Keypairs None None None.
Definition no_timers (t : peer_timers) : Prop := forall k, timer_of k t = None.
Definition unlinked (t : index_hashtable) (x : dev_peer) : Prop := forall a, is_Some (v_pairs x !! a) -> ~ linked (ix_heads t) a.

(** Every peer of the list is allocated and its keypairs are consistent with the
    packets that are being processed, [g]. *)
Record dev_inv (d : device) (g : Z -> refs) : Prop := {
  di_nodup : NoDup (v_list d);
  di_index : ix_ok (v_index d);
  di_peers : forall p, p ∈ v_list d -> exists x, v_peers d !! p = Some x /\ kinv (keys d x) (g p)
}.

Definition frame (d d' : device) : Prop :=
  v_list d' = v_list d /\ v_counter d' = v_counter d /\ v_ips d' = v_ips d /\ v_ring d' = v_ring d /\ v_queue_len d' = v_queue_len d /\
  v_socks d' = v_socks d /\ v_net d' = v_net d /\ v_mtu d' = v_mtu d.

(** What a step may do to the rest of the device: it only takes entries out of
    the index table. *)
Record moves (ps : list Z) (d d' : device) : Prop := {
  mv_frame : frame d d';
  mv_others : forall q, q ∉ ps -> v_peers d' !! q = v_peers d !! q;
  mv_index : ix_ok (v_index d) -> ix_ok (v_index d');
  mv_linked : forall e, linked (ix_heads (v_index d')) e -> linked (ix_heads (v_index d)) e
}.

Lemma frame_trans d1 d2 d3 : frame d1 d2 -> frame d2 d3 -> frame d1 d3.
Proof. intros (A1 & A2 & A3 & A4 & A5 & A6 & A7 & A8) (B1 & B2 & B3 & B4 & B5 & B6 & B7 & B8). unfold frame. ands; congruence. Qed.

Lemma moves_refl ps d : moves ps d d.
Proof. by split. Qed.

Lemma moves_trans ps qs d1 d2 d3 : moves ps d1 d2 -> moves qs d2 d3 -> moves (ps ++ qs) d1 d3.
Proof.
  intros [F1 O1 I1 L1] [F2 O2 I2 L2]. split; [by eapply frame_trans| |auto|auto]. intros q [H1 H2]%not_elem_of_app. by rewrite O2, O1.
Qed.

Lemma moves_peer p x d : moves [p] d (set_v_peer p x d).
Proof. split; [done| |done|done]. intros q Hq. cbn. rewrite lookup_insert_ne; [done|]. intros ->. apply Hq. by left. Qed.

(** Keypairs do not notice that entries leave the table. *)
Lemma kinv_shrinks ks g t : kinv ks g -> ix_ok t -> (forall e, linked (ix_heads t) e -> in_index ks e) -> kinv (set_ks_index t ks) g.
Proof. intros [Hix Hc Hout Hdis Hli Hne Hcu] Ht Hl. split; cbn; try done. intros a Ha Hin. apply Hli; [done|]. by apply Hl. Qed.

Lemma dev_inv_moves_at p d d' g g' : dev_inv d g -> moves [p] d d' -> (forall q, q <> p -> g' q = g q) ->
  (p ∈ v_list d -> exists x', v_peers d' !! p = Some x' /\ kinv (keys d' x') (g' p)) -> dev_inv d' g'.
Proof.
  intros [Hn Hi Hp] [(F1 & F2 & _) Ho Hx Hl] Hg Hnew. specialize (Hx Hi). split; rewrite ?F1; try done. intros q Hq. destruct (decide (q = p)) as [->|D]; [by apply Hnew|].
  destruct (Hp q Hq) as (x & Hxq & Hk). exists x. rewrite Ho by (by intros ->%list_elem_of_singleton). split; [done|]. unfold keys. rewrite F2, Hg by done.
  exact (kinv_shrinks _ _ _ Hk Hx Hl).
Qed.

Lemma dev_inv_moves p d d' g : dev_inv d g -> moves [p] d d' ->
  (p ∈ v_list d -> exists x', v_peers d' !! p = Some x' /\ kinv (keys d' x') (g p)) -> dev_inv d' g.
Proof. intros Hd Hm Hn. by apply (dev_inv_moves_at p d d' g g). Qed.

(** A step on a peer: it returns, and its effect is [Q] between the peer before, the
    peer after and the table of indices after.  [Q] must survive that entries
    leave the table. *)
Definition effect_of := Z -> dev_peer -> dev_peer -> index_hashtable -> Prop.
Definition stable (Q : effect_of) : Prop :=
  forall p x x' t t', (forall e, linked (ix_heads t') e -> linked (ix_heads t) e) -> Q p x x' t -> Q p x x' t'.
Definition peer_step (f : Z -> device -> option device) (Q : effect_of) : Prop :=
  forall p d g x, dev_inv d g -> p ∈ v_list d -> v_peers d !! p = Some x ->
  exists d' x', f p d = Some d' /\ moves [p] d d' /\ dev_inv d' g /\ v_peers d' !! p = Some x' /\ Q p x x' (v_index d').

Lemma step_then f1 f2 (Q1 Q2 : effect_of) : peer_step f1 Q1 -> peer_step f2 Q2 -> stable Q1 ->
  peer_step (fun p d => d ← f1 p d; f2 p d) (fun p x x'' t => exists x', Q1 p x x' t /\ Q2 p x' x'' t).
Proof.
  intros H1 H2 Hs p d g x Hd Hp Hx. destruct (H1 p d g x Hd Hp Hx) as (d1 & x1 & -> & M1 & D1 & X1 & P1). cbn [mbind option_bind].
  destruct (H2 p d1 g x1 D1 ltac:(by rewrite (proj1 (mv_frame _ _ _ M1))) X1) as (d2 & x2 & -> & M2 & D2 & X2 & P2). exists d2, x2. split; [done|]. split; [|split; [done|split; [done|]]].
  - destruct (moves_trans _ _ _ _ _ M1 M2) as [F O I L]. split; [done| |done|done]. intros q Hq. apply O. set_solver.
  - exists x1. split; [|done]. eapply Hs; [|exact P1]. apply M2.
Qed.

Lemma step_weaken f (Q Q' : effect_of) : peer_step f Q -> (forall p x x' t, Q p x x' t -> Q' p x x' t) -> peer_step f Q'.
Proof. intros H HQ p d g x Hd Hp Hx. destruct (H p d g x Hd Hp Hx) as (d' & x' & ? & ? & ? & ? & ?). exists d', x'. auto 10. Qed.

(** A loop over distinct peers of the list. *)
Lemma each_peer_ok f Q : peer_step f Q -> stable Q -> forall l d g, dev_inv d g -> NoDup l -> (forall p, p ∈ l -> p ∈ v_list d) ->
  exists d', each_peer f l d = Some d' /\ moves l d d' /\ dev_inv d' g /\
    forall p, p ∈ l -> exists x x', v_peers d !! p = Some x /\ v_peers d' !! p = Some x' /\ Q p x x' (v_index d').
Proof.
  intros Hf Hs. induction l as [|p l IH]; intros d g Hd Hn Hl; cbn [each_peer].
  { exists d. split; [done|]. split; [apply moves_refl|]. split; [done|]. intros p Hp. by apply elem_of_nil in Hp. }
  apply NoDup_cons in Hn as [Hnp Hn]. assert (p ∈ v_list d) as Hp by (apply Hl; left). destruct (di_peers _ _ Hd p Hp) as (x & Hx & _).
  destruct (Hf p d g x Hd Hp Hx) as (d1 & x1 & -> & M1 & D1 & X1 & P1). cbn [mbind option_bind].
  destruct (IH d1 g D1 Hn) as (d2 & -> & M2 & D2 & P2); [intros q Hq; rewrite (proj1 (mv_frame _ _ _ M1)); apply Hl; by right|].
  exists d2. split; [done|]. split; [exact (moves_trans _ _ _ _ _ M1 M2)|]. split; [done|]. intros q [->|Hq]%elem_of_cons.
  - exists x, x1. split; [done|]. split; [by rewrite (mv_others _ _ _ M2 p Hnp)|]. eapply Hs; [|exact P1]. apply M2.
  - destruct (P2 q Hq) as (y & y' & Hy & Hy' & HQ). exists y, y'. split; [|done]. rewrite <- (mv_others _ _ _ M1 q); [done|]. intros ->%list_elem_of_singleton. done.
Qed.

(** ** The parts *)

Lemma with_peer_ok f : (forall x, v_pairs (f x) = v_pairs x) -> (forall x, v_slots (f x) = v_slots x) -> peer_step (with_peer f) (fun _ x x' _ => x' = f x).
Proof.
  intros Hf1 Hf2 p d g x Hd Hp Hx. unfold with_peer. rewrite Hx. cbn [mbind option_bind]. eexists _, (f x). split; [done|]. split; [apply moves_peer|].
  assert (v_peers (set_v_peer p (f x) d) !! p = Some (f x)) as Hx' by (cbn; by rewrite lookup_insert_eq). split; [|done].
  apply (dev_inv_moves p d); [done|apply moves_peer|]. intros _. exists (f x). split; [done|]. destruct (di_peers _ _ Hd p Hp) as (y & Hy & Hk).
  rewrite Hx in Hy. injection Hy as <-. unfold keys in *. cbn [v_index v_counter set_v_peer]. by rewrite Hf1, Hf2.
Qed.

Lemma clear_keypairs_ok : peer_step clear_keypairs (fun _ x x' t =>
  exists ps, same_pairs (v_pairs x) ps /\ x' = DevPeer ps no_slots (v_staged x) (v_handshake x) (v_timers x) (v_sock x) /\ unlinked t x').
Proof.
  intros p d g x Hd Hp Hx. unfold clear_keypairs. rewrite Hx. cbn [mbind option_bind]. destruct (di_peers _ _ Hd p Hp) as (y & Hy & Hk). rewrite Hx in Hy. injection Hy as <-.
  destruct (clear_ok _ _ Hk) as (ks & -> & Hks & Hsl & Hsm & Hl). cbn [mbind option_bind]. eexists _, (set_v_keys ks x). split; [done|].
  assert (moves [p] d (put_keys p ks x d)) as Hm.
  { destruct (moves_peer p (set_v_keys ks x) d) as [F O _ _]. split; [done|done|intros _; apply Hks|]. intros e He. by apply Hl in He as [He _]. }
  assert (v_peers (put_keys p ks x d) !! p = Some (set_v_keys ks x)) as Hx' by (cbn; by rewrite lookup_insert_eq). split; [done|]. split; [|split; [done|]].
  - apply (dev_inv_moves p d); [done|done|]. intros _. exists (set_v_keys ks x). split; [done|].
    destruct Hks as [Hix Hc Hout Hdis Hli Hne Hcu]. by split.
  - exists (ks_pairs ks). split; [done|]. unfold set_v_keys. rewrite Hsl. split; [done|]. intros a Ha Hin. pose proof (kinv_linked _ _ Hks a Ha Hin) as H1. by rewrite Hsl in H1.
Qed.

Lemma stable_const (Q : Z -> dev_peer -> dev_peer -> Prop) : stable (fun p x x' _ => Q p x x').
Proof. by intros p x x' t t' _. Qed.

Lemma unlinked_shrinks t t' x : (forall e, linked (ix_heads t') e -> linked (ix_heads t) e) -> unlinked t x -> unlinked t' x.
Proof. intros Hl Hu a Ha Hin. by apply (Hu a Ha), Hl. Qed.

(** The end of the grace period of all keypairs without references. *)
Lemma free_list_ok l : forall ks g, NoDup l -> (forall a, a ∈ l -> (refcount <$> ks_pairs ks !! a) = Some 0) -> kinv ks g ->
  let ks' := foldr keypair_free_rcu ks l in
  kinv ks' g /\ ks_slots ks' = ks_slots ks /\ ix_heads (ks_index ks') = ix_heads (ks_index ks) /\
  forall a, ks_pairs ks' !! a = if bool_decide (a ∈ l) then None else ks_pairs ks !! a.
Proof.
  induction l as [|b l IH]; intros ks g Hn Hr Hk; cbn zeta; [done|]. cbn [foldr]. apply NoDup_cons in Hn as [Hb Hn].
  destruct (IH ks g Hn ltac:(intros a Ha; apply Hr; by right) Hk) as (K & S & L & P). specialize (Hr b ltac:(left)).
  assert (exists kp, ks_pairs (foldr keypair_free_rcu ks l) !! b = Some kp /\ refcount kp = 0) as (kp & Hkp & H0).
  { rewrite P, bool_decide_false by done. destruct (ks_pairs ks !! b) as [kp|]; [|done]. injection Hr as Hr. eauto. }
  destruct (keypair_free_ok b kp _ g K Hkp H0) as (_ & _ & _ & K'). split; [done|]. split; [done|]. split; [done|]. intros a. cbn [ks_pairs keypair_free_rcu].
  destruct (decide (a = b)) as [->|D]; [by rewrite lookup_delete_eq, bool_decide_true by left|]. rewrite lookup_delete_ne, P by done. apply (f_equal (fun c : bool => if c then _ else _)), bool_decide_ext. set_solver.
Qed.

Lemma free_pairs_ok : peer_step free_pairs (fun _ x x' _ =>
  exists ps, (forall a kp, ps !! a = Some kp -> v_pairs x !! a = Some kp /\ refcount kp <> 0) /\ x' = DevPeer ps (v_slots x) (v_staged x) (v_handshake x) (v_timers x) (v_sock x)).
Proof.
  intros p d g x Hd Hp Hx. unfold free_pairs. rewrite Hx. cbn [mbind option_bind]. destruct (di_peers _ _ Hd p Hp) as (y & Hy & Hk). rewrite Hx in Hy. injection Hy as <-.
  destruct (free_list_ok (dead_pairs x) (keys d x) (g p)) as (K & S & L & P); [apply NoDup_filter, NoDup_elements|by intros a [Ha _]%list_elem_of_filter|done|].
  set (ks := foldr keypair_free_rcu _ _) in *. eexists _, (set_v_keys ks x). split; [done|].
  assert (moves [p] d (put_keys p ks x d)) as Hm.
  { destruct (moves_peer p (set_v_keys ks x) d) as [F O _ _]. split; [done|done|intros _; apply K|]. intros e He. cbn in He. by rewrite L in He. }
  split; [done|]. split; [|split; [cbn; by rewrite lookup_insert_eq|]].
  - apply (dev_inv_moves p d); [done|done|]. intros _. exists (set_v_keys ks x). split; [cbn; by rewrite lookup_insert_eq|]. destruct K as [Hix Hc Hout Hdis Hli Hne Hcu]. by split.
  - exists (ks_pairs ks). split; [|unfold set_v_keys; by rewrite S]. intros a kp Ha. rewrite P in Ha. case_bool_decide as D; [done|]. split; [done|]. intros Hr. apply D.
    apply list_elem_of_filter. cbn in Ha. rewrite Ha. cbn. split; [by rewrite Hr|]. apply elem_of_elements, elem_of_dom. by rewrite Ha.
Qed.

Section Steps.

Context (handshake_entry : Z -> Z).

Lemma handshake_clear_ok : peer_step (handshake_clear handshake_entry) (fun p x x' t =>
  x' = set_v_handshake (handshake_zero (v_handshake x)) x /\ ~ linked (ix_heads t) (handshake_entry p)).
Proof.
  intros p d g x Hd Hp Hx. unfold handshake_clear. rewrite Hx. cbn [mbind option_bind wg_noise_handshake_clear]. eexists _, _. split; [done|].
  set (x' := set_v_handshake _ x). set (t := wg_index_hashtable_remove _ _). destruct (remove_ok _ (handshake_entry p) (di_index _ _ Hd)) as [Ht _].
  assert (forall e, linked (ix_heads t) e <-> linked (ix_heads (v_index d)) e /\ e <> handshake_entry p) as Hl by (intros e; apply linked_del).
  assert (moves [p] d (set_v_index t (set_v_peer p x' d))) as Hm.
  { destruct (moves_peer p x' d) as [F O _ _]. split; [done|done|by intros _|]. intros e He. by apply Hl in He as [He _]. }
  split; [done|]. split; [|split; [cbn; by rewrite lookup_insert_eq|split; [done|]; intros He; by apply Hl in He as [_ He]]].
  apply (dev_inv_moves p d); [done|done|]. intros _. exists x'. split; [cbn; by rewrite lookup_insert_eq|]. destruct (di_peers _ _ Hd p Hp) as (y & Hy & Hk).
  rewrite Hx in Hy. injection Hy as <-. apply (kinv_shrinks _ _ t Hk Ht). intros e He. by apply Hl in He as [He _].
Qed.

(** ** Down *)

(** What is left of a peer after a part of the operation. *)
Definition stopping (x x' : dev_peer) : Prop :=
  v_staged x' = v_staged x /\ v_sock x' = v_sock x /\ same_pairs (v_pairs x) (v_pairs x') /\
  handshake_zero (v_handshake x') = handshake_zero (v_handshake x).

Lemma stop_timers_ok : peer_step (stop_timers handshake_entry) (fun _ x x' _ =>
  stopping x x' /\ no_timers (v_timers x') /\ persistent_keepalive_interval (v_timers x') = persistent_keepalive_interval (v_timers x)).
Proof.
  intros p d g x Hd Hp Hx. unfold stop_timers. rewrite Hx. cbn [mbind option_bind].
  assert (no_timers (wg_timers_stop (v_timers x)).2 /\ persistent_keepalive_interval (wg_timers_stop (v_timers x)).2 = persistent_keepalive_interval (v_timers x)) as [Ht Hi].
  { split; [intros []|]; unfold wg_timers_stop; by destruct (clear_peer_work _). }
  assert ((wg_timers_stop (v_timers x)).1 = [] \/ (wg_timers_stop (v_timers x)).1 = [HandshakeClear; KeypairsClear]) as Hc by (unfold wg_timers_stop; destruct (clear_peer_work _); auto).
  destruct (wg_timers_stop (v_timers x)) as [calls t]. cbn [fst snd] in *.
  pose proof (with_peer_ok (set_v_timers t) ltac:(done) ltac:(done)) as H0.
  destruct Hc as [-> | ->]; cbn [flush_calls flush_call].
  - destruct (H0 p d g x Hd Hp Hx) as (d' & x' & E & M & D & X & ->). unfold with_peer in E. rewrite Hx in E. injection E as <-.
    eexists _, _. split; [done|]. split; [done|]. split; [done|]. split; [done|]. by split.
  - pose proof (step_then _ _ _ _ H0 (step_then _ _ _ _ handshake_clear_ok clear_keypairs_ok ltac:(intros ? ? ? ? ? Hl [-> H]; split; [done|]; auto)) (stable_const _)) as H. cbn beta in H.
    destruct (H p d g x Hd Hp Hx) as (d' & x' & E & M & D & X & x1 & -> & x2 & [-> _] & ps & Hsm & -> & _). unfold with_peer in E. rewrite Hx in E. cbn [mbind option_bind] in E.
    eexists d', _. split; [|split; [exact M|split; [exact D|split; [exact X|done]]]]. rewrite <- E. destruct (handshake_clear _ _ _); [|done]. cbn [mbind option_bind]. by destruct (clear_keypairs _ _).
Qed.

(** A peer of a device that is down. *)
Definition silent : effect_of := fun p x x' t =>
  v_staged x' = [] /\ no_timers (v_timers x') /\ v_slots x' = no_slots /\ v_handshake x' = handshake_zero (v_handshake x) /\
  unlinked t x' /\ ~ linked (ix_heads t) (handshake_entry p) /\ same_pairs (v_pairs x) (v_pairs x') /\ v_sock x' = v_sock x /\
  persistent_keepalive_interval (v_timers x') = persistent_keepalive_interval (v_timers x).

Lemma stop_peer_ok now : peer_step (stop_peer handshake_entry now) silent.
Proof.
  unfold stop_peer. eapply step_weaken.
  { apply step_then; [by apply with_peer_ok| |apply stable_const]. apply step_then; [apply stop_timers_ok| |apply stable_const].
    apply step_then; [apply handshake_clear_ok| |intros ? ? ? ? ? Hl [-> H]; split; [done|]; auto].
    apply step_then; [apply clear_keypairs_ok|by apply with_peer_ok|]. intros ? ? ? ? ? Hl (ps & H1 & -> & H2). exists ps. split; [done|]. split; [done|]. by eapply unlinked_shrinks. }
  cbn beta. intros p x x' t (x0 & -> & x1 & [(S1 & S2 & S3 & S4) [Ht Hi]] & x2 & [-> He] & x3 & (ps & Hsm & -> & Hu) & ->). cbn in *.
  unfold silent. cbn [v_staged v_timers v_slots v_handshake v_pairs v_sock set_v_timers]. split; [done|]. split; [intros k; specialize (Ht k); by destruct k|]. ands; try done. by eapply same_pairs_trans.
Qed.

(** ** Suspending *)

Lemma suspend_peer_ok : peer_step (suspend_peer handshake_entry) (fun p x x' t => exists ps, same_pairs (v_pairs x) ps /\
  x' = DevPeer ps no_slots (v_staged x) (handshake_zero (v_handshake x)) (set_zero_key None (v_timers x)) (v_sock x) /\ unlinked t x' /\ ~ linked (ix_heads t) (handshake_entry p)).
Proof.
  unfold suspend_peer. eapply step_weaken.
  { apply step_then; [by apply with_peer_ok| |apply stable_const]. apply step_then; [apply handshake_clear_ok|apply clear_keypairs_ok|intros ? ? ? ? ? Hl [-> H]; split; [done|]; auto]. }
  cbn beta. intros p x x' t (x0 & -> & x1 & [-> He] & ps & Hsm & -> & Hu). by exists ps.
Qed.

(** ** Duplication of the machine *)

Definition expired (x x' : dev_peer) : Prop :=
  v_slots x' = v_slots x /\ v_handshake x' = handshake_zero (v_handshake x) /\ v_staged x' = v_staged x /\
  forall a, v_pairs x' !! a = if bool_decide (next_keypair (v_slots x) = Some a) || bool_decide (current_keypair (v_slots x) = Some a)
                             then invalidate_sending <$> v_pairs x !! a else v_pairs x !! a.

Lemma expire_peer_ok now : peer_step (expire_peer handshake_entry now) (fun p x x' t => expired x x' /\ ~ linked (ix_heads t) (handshake_entry p)).
Proof.
  intros p d g x Hd Hp Hx. unfold expire_peer. rewrite Hx. cbn [mbind option_bind]. destruct (di_peers _ _ Hd p Hp) as (y & Hy & Hk). rewrite Hx in Hy. injection Hy as <-.
  destruct (expire_ok (v_handshake x) (handshake_entry p) now _ _ Hk) as (ks & -> & Hks & Hsl & Hl & Hps). cbn [mbind option_bind].
  set (x1 := set_v_timers _ _). eexists _, (set_v_keys ks x1). split; [done|].
  assert (moves [p] d (put_keys p ks x1 d)) as Hm.
  { destruct (moves_peer p (set_v_keys ks x1) d) as [F O _ _]. split; [done|done|intros _; apply Hks|]. intros e He. by apply Hl in He as [He _]. }
  split; [done|]. split; [|split; [cbn; by rewrite lookup_insert_eq|split; [by split|]]].
  - apply (dev_inv_moves p d); [done|done|]. intros _. exists (set_v_keys ks x1). split; [cbn; by rewrite lookup_insert_eq|]. destruct Hks as [Hix Hc Hout Hdis Hli Hne Hcu]. by split.
  - intros He. by apply Hl in He as [_ He].
Qed.

End Steps.

(** * Keys that no longer send *)

(** No slot from which packets are or will be sent has a valid sending key. *)
Definition sends_from (ks : kstate) (a : Z) : Prop := current_keypair (ks_slots ks) = Some a \/ next_keypair (ks_slots ks) = Some a.
Definition muted (ks : kstate) : Prop := forall a kp, sends_from ks a -> ks_pairs ks !! a = Some kp -> is_valid (sending kp) = false.

(** What every operation but the beginning of a session does: no keypair, no
    valid key and no slot for sending is gained. *)
Definition calmer (ks ks' : kstate) : Prop :=
  (forall a kp', ks_pairs ks' !! a = Some kp' -> exists kp, ks_pairs ks !! a = Some kp /\ (is_valid (sending kp') = true -> is_valid (sending kp) = true)) /\
  (forall a, sends_from ks' a -> sends_from ks a).

Lemma calmer_refl ks : calmer ks ks.
Proof. split; eauto. Qed.

Lemma calmer_trans ks1 ks2 ks3 : calmer ks1 ks2 -> calmer ks2 ks3 -> calmer ks1 ks3.
Proof.
  intros [P1 S1] [P2 S2]. split; [|auto]. intros a kp3 H3. destruct (P2 a kp3 H3) as (kp2 & H2 & V2). destruct (P1 a kp2 H2) as (kp1 & H1 & V1). eauto.
Qed.

Lemma calmer_muted ks ks' : muted ks -> calmer ks ks' -> muted ks'.
Proof. intros Hm [P S] a kp' Hs Ha. destruct (P a kp' Ha) as (kp & Hkp & V). specialize (Hm a kp (S a Hs) Hkp). destruct (is_valid (sending kp')); [by rewrite V in Hm|done]. Qed.

Lemma calmer_kept ks ks' : kept ks ks' -> (forall a, sends_from ks' a -> sends_from ks a) -> calmer ks ks'.
Proof. intros [_ K] S. split; [|done]. intros a kp' Ha. destruct (K a kp' Ha) as (kp & Hkp & _ & _ & _ & V). eauto. Qed.

Lemma calmer_slots ks ks' : kept ks ks' -> ks_slots ks' = ks_slots ks -> calmer ks ks'.
Proof. intros K E. apply calmer_kept; [done|]. unfold sends_from. by rewrite E. Qed.

Lemma put_keeps_slots o u ks ks' : wg_noise_keypair_put o u ks = Some ks' -> ks_slots ks' = ks_slots ks.
Proof. destruct o as [x|]; [|by intros [= <-]]. cbn [wg_noise_keypair_put]. intros (kp & _ & [= <-])%bind_Some. by destruct u, (_ =? 0). Qed.

Lemma calmer_put o u ks ks' : wg_noise_keypair_put o u ks = Some ks' -> calmer ks ks'.
Proof. intros H. apply calmer_slots; [by eapply kept_put|by eapply put_keeps_slots]. Qed.

Lemma calmer_get o ks r ks' : wg_noise_keypair_get o ks = Some (r, ks') -> calmer ks ks' /\ (forall x, r = Some x -> o = Some x).
Proof.
  intros H. pose proof (kept_get _ _ _ _ H) as K. destruct o as [x|]; cbn in H; [|injection H as <- <-; split; [apply calmer_refl|done]].
  apply bind_Some in H as (kp & Hkp & E). destruct (refcount kp =? 0); injection E as <- <-; (split; [by apply calmer_slots|done]).
Qed.

Lemma calmer_set ks x kp kp' : ks_pairs ks !! x = Some kp -> (is_valid (sending kp') = true -> is_valid (sending kp) = true) -> calmer ks (set_pair x kp' ks).
Proof.
  intros Hx Hv. split; [|done]. intros a kp1 Ha. cbn in Ha. destruct (decide (a = x)) as [->|D]; [rewrite lookup_insert_eq in Ha; injection Ha as <-; eauto|].
  rewrite lookup_insert_ne in Ha by done. eauto.
Qed.

Lemma calmer_clear ks ks' : wg_noise_keypairs_clear ks = Some ks' -> calmer ks ks'.
Proof.
  intros H. pose proof (kept_clear _ _ H) as K. unfold wg_noise_keypairs_clear in H. apply bind_Some in H as (k1 & H1 & H). apply bind_Some in H as (k2 & H2 & H3).
  apply put_keeps_slots in H1, H2, H3. apply calmer_kept; [done|]. unfold sends_from. rewrite H3. cbn [set_current set_slots ks_slots current_keypair next_keypair]. rewrite H2. cbn. rewrite H1. cbn. intros a [|]; done.
Qed.

Lemma calmer_received x ks b ks' : wg_noise_received_with_keypair x ks = Some (b, ks') -> calmer ks ks'.
Proof.
  intros H. pose proof (kept_received _ _ _ _ H) as K. unfold wg_noise_received_with_keypair in H. destruct (bool_decide_reflect (next_keypair (ks_slots ks) = Some x)) as [E|E]; cbn [negb] in H.
  - rewrite bool_decide_false in H by (intros D; by apply D). apply bind_Some in H as (k1 & H1 & [= _ <-]). apply put_keeps_slots in H1. apply calmer_kept; [done|]. unfold sends_from. cbn. intros a [[= <-]|?]; [by right|done].
  - injection H as _ <-. apply calmer_refl.
Qed.

Lemma calmer_expire_all hs entry now ks r ks' : wg_noise_expire_current_peer_keypairs hs entry now ks = Some (r, ks') -> calmer ks ks'.
Proof.
  intros H. pose proof (kept_expire_all _ _ _ _ _ _ H) as K. unfold wg_noise_expire_current_peer_keypairs, wg_noise_handshake_clear in H.
  apply bind_Some in H as (k1 & H1 & H). apply bind_Some in H as (k2 & H2 & [= _ <-]). apply calmer_slots; [done|].
  assert (forall o k k', expire_sending o k = Some k' -> ks_slots k' = ks_slots k) as E by (intros [y|] k k' E; cbn in E; [apply bind_Some in E as (kp & _ & [= <-])|injection E as <-]; done).
  rewrite (E _ _ _ H2), (E _ _ _ H1). done.
Qed.

(** A peer that is muted has nothing it could send with. *)
Lemma send_staged_muted now st r st' : muted (t_keys st) -> wg_packet_send_staged_packets now st = Some (r, st') ->
  calmer (t_keys st) (t_keys st') /\ forall x b, r <> StagedBatch x b.
Proof.
  intros Hm H. unfold wg_packet_send_staged_packets in H. destruct (t_staged st) as [|pk l]; [injection H as <- <-; split; [apply calmer_refl|done]|].
  apply bind_Some in H as ([o ks] & Hg & H). destruct (calmer_get _ _ _ _ Hg) as [Hc Ho]. destruct o as [x|]; [|injection H as <- <-; done].
  apply bind_Some in H as (kp & Hkp & H). specialize (Ho x eq_refl). pose proof (calmer_muted _ _ Hm Hc) as Hm'.
  assert (ks_slots ks = ks_slots (t_keys st)) as Hsl by (rewrite Ho in Hg; cbn in Hg; apply bind_Some in Hg as (k0 & _ & E); destruct (refcount k0 =? 0); [discriminate E|by injection E as <-]).
  rewrite (Hm' x kp) in H; [|left; by rewrite Hsl|done]. cbn [negb] in H. apply bind_Some in H as (ks2 & Hp & [= <- <-]). split; [|done]. eapply calmer_trans; [exact Hc|by eapply calmer_put].
Qed.

Lemma keepalive_muted now mtu alloc st r st' : muted (t_keys st) -> wg_packet_send_keepalive now mtu alloc st = Some (r, st') ->
  calmer (t_keys st) (t_keys st') /\ forall x b, r <> StagedBatch x b.
Proof.
  intros Hm H. unfold wg_packet_send_keepalive in H. destruct (t_staged st); [|by eapply send_staged_muted]. destruct alloc; cbn [negb] in H.
  - by apply (send_staged_muted now (TState (t_keys st) [TxPacket [] mtu 0] (t_lastminute st))).
  - injection H as <- <-. split; [apply calmer_refl|done].
Qed.

Section Muted.

Context `{C : NoiseCrypto}.

(** Every operation of a peer but the beginning of a session. *)
Definition no_session (op : top) : Prop := match op with TKey (KBegin _ _ _ _ _ _) => False | _ => True end.

Lemma kop_calmer op ks g ks' g' : no_session (TKey op) -> run_kop op ks g = Some (ks', g') -> calmer ks ks'.
Proof.
  intros Hn H. destruct op; cbn [run_kop] in H; try done.
  - apply bind_Some in H as ([r k] & H & [= <- _]). by eapply calmer_get.
  - apply bind_Some in H as (k & H & [= <- _]). by eapply calmer_put.
  - apply bind_Some in H as ([r k] & H & [= <- _]). by eapply calmer_received.
  - apply bind_Some in H as (k & H & [= <- _]). by eapply calmer_clear.
  - apply bind_Some in H as ([r k] & H & E). destruct r. injection E as <- _. by eapply calmer_expire_all.
  - injection H as <- _. split; [|done]. intros a kp' Ha. cbn in Ha. apply lookup_delete_Some in Ha as [_ Ha]. eauto.
  - injection H as <- _. apply calmer_slots; [apply kept_index|done].
Qed.

Lemma rx_packet_muted e endpoint p x nonce b st fx r st' : muted (t_keys st) -> rx_packet e endpoint p x nonce b st = Some (fx, r, st') ->
  calmer (t_keys st) (t_keys st') /\ forall y batch, r <> StagedBatch y batch.
Proof.
  intros Hm H. unfold rx_packet in H. apply bind_Some in H as (kp & Hkp & H). destruct (counter_validate _ _) as [ok counter].
  set (ks1 := set_pair x _ (t_keys st)) in H. assert (calmer (t_keys st) ks1) as C1 by (by apply (calmer_set _ x kp)). pose proof (calmer_muted _ _ Hm C1) as M1.
  apply bind_Some in H as ([[fx1 r1] st1] & H & H2). apply bind_Some in H2 as (ks3 & Hput & [= _ <- <-]). cbn [t_keys].
  cut (calmer ks1 (t_keys st1) /\ forall y batch, r1 <> StagedBatch y batch).
  { intros [C2 Hr]. split; [|done]. eapply calmer_trans; [exact C1|]. eapply calmer_trans; [exact C2|by eapply calmer_put]. }
  destruct ok; cbn [negb] in H; [|injection H as _ <- <-; split; [apply calmer_refl|done]].
  destruct endpoint; cbn [negb] in H; [|injection H as _ <- <-; split; [apply calmer_refl|done]].
  unfold wg_packet_consume_data_done in H. apply bind_Some in H as ([cf ks2] & Hrc & H). cbn [t_keys] in Hrc. pose proof (calmer_received _ _ _ _ Hrc) as C2.
  apply bind_Some in H as ([[fx2 r2] st2] & H & H3).
  assert (calmer ks1 (t_keys st2) /\ forall y batch, r2 <> StagedBatch y batch) as [C3 Hr2].
  { destruct cf; [|injection H as _ <- <-; split; [exact C2|done]]. apply bind_Some in H as ([r3 st3] & H & [= _ <- <-]).
    apply send_staged_muted in H as [H Hr]; [|exact (calmer_muted _ _ M1 C2)]. split; [|done]. eapply calmer_trans; [exact C2|exact H]. }
  assert (r1 = r2 /\ t_keys st1 = t_keys st2) as [-> ->]; [|done].
  destruct (keep_key_fresh_rx _ _ _); (destruct (len b =? 0); [by injection H3 as _ <- <-|apply bind_Some in H3 as (o & _ & [= _ <- <-]); done]).
Qed.

Lemma top_muted op r r' : no_session op -> muted (t_keys (tr_peer r)) -> run_top op r = Some r' ->
  muted (t_keys (tr_peer r')) /\ tr_sent r' = tr_sent r.
Proof.
  intros Hn Hm H. assert (forall s ks, (forall x b, s <> StagedBatch x b) -> batch_nonces s ks = []) as Hb by (intros [|x b|] ks Hs; [done|by destruct (Hs x b)|done]).
  destruct op; cbn [run_top] in H.
  - apply bind_Some in H as ([ks g] & H & [= <-]). split; [|done]. eapply calmer_muted; [exact Hm|by eapply kop_calmer].
  - by injection H as <-.
  - apply bind_Some in H as ([s st] & H & [= <-]). apply send_staged_muted in H as [Hc Hs]; [|done]. cbn. rewrite Hb by done. split; [by eapply calmer_muted|done].
  - apply bind_Some in H as ([s st] & H & [= <-]). apply keepalive_muted in H as [Hc Hs]; [|done]. cbn. rewrite Hb by done. split; [by eapply calmer_muted|done].
  - by injection H as <-.
  - apply bind_Some in H as (kp & Hkp & [= <-]). split; [|done]. cbn. eapply calmer_muted; [exact Hm|]. apply (calmer_set _ _ kp); [done|].
    unfold decrypt_packet. by repeat match goal with |- context [if ?c then _ else _] => destruct c | |- context [match ?c with Some _ => _ | None => _ end] => destruct c end.
  - apply bind_Some in H as ([[fx s] st] & H & [= <-]). apply rx_packet_muted in H as [Hc Hs]; [|done]. cbn. rewrite Hb by done. split; [by eapply calmer_muted|done].
  - injection H as <-. done.
Qed.

Lemma tops_muted ops : forall r r', Forall no_session ops -> muted (t_keys (tr_peer r)) -> run_tops ops r = Some r' -> tr_sent r' = tr_sent r.
Proof.
  induction ops as [|op ops IH]; intros r r' Hn Hm H; cbn in H; [by injection H as <-|]. apply Forall_cons in Hn as [Hn1 Hn]. apply bind_Some in H as (r1 & H1 & H).
  destruct (top_muted op r r1 Hn1 Hm H1) as [M1 <-]. by apply (IH r1).
Qed.

End Muted.

Lemma expired_muted d x x' : expired x x' -> muted (keys d x').
Proof.
  intros (Hs & _ & _ & Hp) a kp Ha Hkp. unfold sends_from, keys in *. cbn in *. rewrite Hs in Ha. rewrite Hp in Hkp.
  assert (bool_decide (next_keypair (v_slots x) = Some a) || bool_decide (current_keypair (v_slots x) = Some a) = true) as E.
  { apply orb_true_iff. destruct Ha as [Ha|Ha]; [right|left]; by rewrite bool_decide_true. }
  rewrite E in Hkp. destruct (v_pairs x !! a); [|done]. by injection Hkp as <-.
Qed.

(** * Sending *)

Lemma put_shrinks o u ks ks' e : wg_noise_keypair_put o u ks = Some ks' -> in_index ks' e -> in_index ks e.
Proof.
  destruct o as [x|]; [|by intros [= <-]]. cbn [wg_noise_keypair_put]. intros (kp & _ & [= <-])%bind_Some. unfold in_index, keypair_free_kref.
  destruct u, (_ =? 0); cbn [set_pair set_ks_index ks_index ix_heads wg_index_hashtable_remove]; rewrite ?linked_del; tauto.
Qed.

(** What [wg_packet_send_staged_packets] does with a queue. *)
Definition sent_or_kept (ks : kstate) (queue : list tx_packet) (r : staged_result) (staged : list tx_packet) : Prop :=
  match r with
  | StagedEmpty => queue = [] /\ staged = []
  | StagedWait => queue <> [] /\ staged = queue
  | StagedBatch a batch => staged = [] /\ current_keypair (ks_slots ks) = Some a /\ tp_data <$> batch = tp_data <$> queue /\
      exists kp, ks_pairs ks !! a = Some kp /\ is_valid (sending kp) = true /\ tp_nonce <$> batch = seqZ (sending_counter kp) (len queue)
  end.

Lemma get_current_pair x ks o ks1 kp1 : wg_noise_keypair_get (Some x) ks = Some (o, ks1) -> ks_pairs ks1 !! x = Some kp1 ->
  ks_slots ks1 = ks_slots ks /\ ks_index ks1 = ks_index ks /\ exists kp, ks_pairs ks !! x = Some kp /\ sending kp1 = sending kp /\ sending_counter kp1 = sending_counter kp.
Proof.
  intros H Hx. cbn in H. apply bind_Some in H as (kp & Hkp & E). destruct (refcount kp =? 0); injection E as _ <-; [eauto 8|]. cbn in Hx. rewrite lookup_insert_eq in Hx. injection Hx as <-. eauto 8.
Qed.

Lemma send_staged_shape now st r st' sl rl : nonce_inv (t_keys st) sl rl -> wg_packet_send_staged_packets now st = Some (r, st') ->
  sent_or_kept (t_keys st) (t_staged st) r (t_staged st') /\ keypair_counter (t_keys st') = keypair_counter (t_keys st) /\ t_lastminute st' = t_lastminute st /\
  forall e, in_index (t_keys st') e -> in_index (t_keys st) e.
Proof.
  intros HI H. unfold wg_packet_send_staged_packets in H. destruct (t_staged st) as [|pk l] eqn:Eq; [injection H as <- <-; done|]. set (queue := pk :: l) in *.
  apply bind_Some in H as ([o ks1] & Hg & H). pose proof (kept_get _ _ _ _ Hg) as [Kc _]. destruct o as [x|].
  2:{ destruct (current_keypair _) as [y|]; cbn in Hg; [apply bind_Some in Hg as (kp & Hkp & E); destruct (refcount kp =? 0)|]; simplify_eq; done. }
  destruct (current_keypair (ks_slots (t_keys st))) as [y|] eqn:Ec; [|done]. assert (y = x) as -> by (cbn in Hg; apply bind_Some in Hg as (kp & _ & E); destruct (refcount kp =? 0); congruence).
  apply bind_Some in H as (kp1 & Hkp1 & H). destruct (get_current_pair _ _ _ _ _ Hg Hkp1) as (Hs & Hx & kp & Hkp & Ek & Ecn).
  assert (forall ks2, ks_index ks2 = ks_index ks1 -> keypair_counter ks2 = keypair_counter ks1 ->
    (ks ← wg_noise_keypair_put (Some x) false ks2; Some (StagedWait, TState ks queue (t_lastminute st))) = Some (r, st') ->
    sent_or_kept (t_keys st) queue r (t_staged st') /\ keypair_counter (t_keys st') = keypair_counter (t_keys st) /\ t_lastminute st' = t_lastminute st /\ forall e, in_index (t_keys st') e -> in_index (t_keys st) e) as W.
  { intros ks2 E2 E3 (ks3 & Hp & [= <- <-])%bind_Some. split; [done|]. split; [cbn [t_keys]; rewrite (proj1 (kept_put _ _ _ _ Hp)); congruence|]. split; [done|]. intros e He. apply (put_shrinks _ _ _ _ _ Hp) in He.
    unfold in_index in *. congruence. }
  destruct (is_valid (sending kp1)) eqn:Ev; cbn [negb] in H; [|by apply (W ks1)]. destruct (wg_birthdate_has_expired _ _ _); [by eapply W, H|].
  destruct (ni_pairs _ _ _ HI x kp Hkp) as [P1 P2 _ _]. rewrite Ek in Ev. rewrite Ecn in H. pose proof (assign_nonces_ok queue (sending_counter kp) (conj P1 (P2 Ev))) as A.
  destruct (assign_nonces queue (sending_counter kp)) as [[batch|] c]; [|by eapply W, H]. destruct (proj2 A batch eq_refl) as (B1 & B2 & _). injection H as <- <-.
  split; [|split; [done|split; [done|intros e; cbn; unfold in_index; cbn; by rewrite Hx]]]. cbn. split; [done|]. split; [done|]. split; [done|]. eauto.
Qed.

Lemma trim_staged_ok l : let '(dropped, kept) := trim_staged l in l = dropped ++ kept /\ len kept = Z.min (len l) MAX_STAGED_PACKETS.
Proof.
  induction l as [|p l IH]; cbn [trim_staged]; [done|]. destruct (Z.gtb_spec (len (p :: l)) MAX_STAGED_PACKETS) as [H|H]; [|split; [done|lia]].
  destruct (trim_staged l) as [a b]. destruct IH as [-> Hb]. split; [done|]. unfold len, MAX_STAGED_PACKETS in *. cbn in *. rewrite !length_app in *. lia.
Qed.

(** ** The state in which packets are sent *)

(** The destination of an inner packet. *)
Definition ip_dest (v6 : bool) (b : list Z) : list Z := if v6 then field 24 16 b else field 16 4 b.

(** The addresses lead to peers of the list, whose nonces are in order. *)
Record dev_ready (d : device) (g : Z -> refs) (m : contents) : Prop := {
  dr_inv : dev_inv d g;
  dr_holds : holds (v_ips d) m;
  dr_routes : forall v q p, m v !! q = Some p -> p ∈ v_list d;
  dr_refs : forall p x, p ∈ v_list d -> v_peers d !! p = Some x -> 0 < peer_refs (v_timers x);
  dr_nonces : forall p x, p ∈ v_list d -> v_peers d !! p = Some x -> exists sl rl, nonce_inv (keys d x) sl rl
}.

Lemma lpm_in (m : list bool -> option Z) key n p : lpm m key n = Some p -> exists q, m q = Some p.
Proof. induction n as [|n IH]; cbn [lpm]; intros H; (destruct (m (firstn _ key)) eqn:E; [injection H as <-; eauto|]); [done|by apply IH]. Qed.

Lemma ready_route d g m v ip p : dev_ready d g m -> spec_match m v ip = Some p -> p ∈ v_list d.
Proof. intros Hr [q Hq]%lpm_in. by eapply dr_routes. Qed.

Lemma lookup_dst_ok d g m skb : dev_ready d g m -> all_bytes (ok_data skb) -> wg_check_packet_protocol skb = true ->
  wg_allowedips_lookup_dst [(v_ips d, referenced d)] (ip_packet (ok_protocol skb) (ok_data skb)) =
  Some (spec_match m (is_v6 (ok_data skb)) (ip_dest (is_v6 (ok_data skb)) (ok_data skb))).
Proof.
  intros Hr Hb Hc. unfold wg_check_packet_protocol in Hc. apply andb_true_iff in Hc as [Hz He]. apply Z.eqb_eq in He. rewrite He.
  assert (forall off k, all_bytes (field off k (ok_data skb))) as F by (intros; apply Forall_take, Forall_drop, Hb).
  assert (forall v ip, len ip = wbits v / 8 -> all_bytes ip -> allowedips_lookup [(v_ips d, referenced d)] v ip = Some (spec_match m v ip)) as L.
  { intros v ip Hl Hi. rewrite (lookup_refines _ [(m, referenced d)]); [|constructor; [split; [apply Hr|done]|constructor]|done|done]. cbn. destruct (spec_match m v ip) as [p|] eqn:E; [|done].
    pose proof (ready_route _ _ _ _ _ _ Hr E) as Hp. destruct (di_peers _ _ (dr_inv _ _ _ Hr) p Hp) as (x & Hx & _). unfold referenced. rewrite Hx.
    pose proof (dr_refs _ _ _ Hr p x Hp Hx). destruct (Z.eqb_spec (peer_refs (v_timers x)) 0); [lia|done]. }
  unfold is_v6, ip_tunnel_parse_protocol in *. unfold wg_allowedips_lookup_dst, lookup_by, ip_packet, ip_dest. unfold sizeof_iphdr, sizeof_ipv6hdr in *.
  assert (forall off k, 0 <= off -> 0 <= k -> off + k <= len (ok_data skb) -> len (field off k (ok_data skb)) = k) as N by (intros; unfold field, len in *; rewrite length_take, length_drop; lia).
  destruct (Z.leb_spec 20 (len (ok_data skb))); cbn [andb] in *; [destruct (ip_version (ok_data skb) =? 4); [cbn [Z.eqb Pos.eqb ETH_P_IP ETH_P_IPV6 protocol daddr]; apply L; [by rewrite N by lia|apply F]|]|].
  all: destruct (Z.leb_spec 40 (len (ok_data skb))); cbn [andb] in *; [|done]; (destruct (ip_version (ok_data skb) =? 6); [cbn [Z.eqb Pos.eqb ETH_P_IP ETH_P_IPV6 protocol daddr]; apply L; [by rewrite N by lia|apply F]|done]).
Qed.
(** ** The reference during the call *)

Definition ref_bump (n : Z) (x : dev_peer) : dev_peer := set_v_timers (set_refs (peer_refs (v_timers x) + n) (v_timers x)) x.

Lemma ref_bump_back x : ref_bump (-1) (ref_bump 1 x) = x.
Proof. destruct x as [ps sl st hs t so], t. unfold ref_bump, set_v_timers, set_refs. cbn -[Z.add]. f_equal. f_equal. lia. Qed.

Lemma take_ref_ok n p x d : v_peers d !! p = Some x -> take_ref n p d = Some (set_v_peer p (ref_bump n x) d).
Proof. intros Hx. unfold take_ref, with_peer. by rewrite Hx. Qed.

Lemma set_v_peer_twice p x y d : set_v_peer p x (set_v_peer p y d) = set_v_peer p x d.
Proof. unfold set_v_peer. cbn. by rewrite insert_insert_eq. Qed.

Lemma set_v_peer_same p x d : v_peers d !! p = Some x -> set_v_peer p x d = d.
Proof. intros Hx. unfold set_v_peer. rewrite insert_id by done. by destruct d. Qed.

Lemma give_back p x d : v_peers d !! p = Some x -> take_ref (-1) p (set_v_peer p (ref_bump 1 x) d) = Some d.
Proof.
  intros Hx. rewrite (take_ref_ok _ _ (ref_bump 1 x)) by (cbn; by rewrite lookup_insert_eq). by rewrite ref_bump_back, set_v_peer_twice, set_v_peer_same.
Qed.

(** A waiting packet asks for a handshake; the reference of the caller does not matter for that. *)
Definition asks (te : timer_env) (r : staged_result) (t : peer_timers) : peer_timers :=
  match r with StagedWait => wg_packet_send_queued_handshake_initiation te false t | _ => t end.

Lemma asks_refs te r t : let t' := asks te r (set_refs (peer_refs t + 1) t) in set_refs (peer_refs t' + -1) t' = asks te r t.
Proof.
  destruct t. unfold set_refs. destruct r; cbn -[Z.add]; try (f_equal; lia). unfold wg_packet_send_queued_handshake_initiation, queue_with_ref, set_transmit_work, set_refs, set_attempts. cbn -[Z.add Z.sub].
  destruct (_ || _); cbn -[Z.add Z.sub]; [f_equal; lia|]. destruct transmit_handshake_work; cbn -[Z.add Z.sub]; f_equal; lia.
Qed.

Lemma asks_keeps te r t : peer_refs t <= peer_refs (asks te r t) /\ sent_lastminute_handshake (asks te r t) = sent_lastminute_handshake t.
Proof.
  destruct t. destruct r; cbn; try (split; [lia|done]). unfold wg_packet_send_queued_handshake_initiation, queue_with_ref, set_transmit_work, set_refs, set_attempts. cbn -[Z.add Z.sub].
  destruct (_ || _); cbn -[Z.add Z.sub]; [split; [lia|done]|]. destruct transmit_handshake_work; cbn -[Z.add Z.sub]; split; lia || done.
Qed.

(** What became of the peer after a queue was offered for sending. *)
Definition after_queue (te : timer_env) (d : device) (x : dev_peer) (queue : list tx_packet) (r : staged_result) (x' : dev_peer) : Prop :=
  sent_or_kept (keys d x) queue r (v_staged x') /\ v_timers x' = asks te r (v_timers x) /\ v_handshake x' = v_handshake x /\ v_sock x' = v_sock x.
Definition with_batch (p : Z) (r : staged_result) (g : Z -> refs) : Z -> refs := fun q => if decide (q = p) then batch_refs r (g q) else g q.

Lemma offer_ok te d g m p x queue : dev_ready d g m -> p ∈ v_list d -> v_peers d !! p = Some x ->
  exists r d' x', (d ← Some (set_v_peer p (set_v_staged queue (ref_bump 1 x)) d); '(r, d) ← send_staged te p d; d ← take_ref (-1) p d; Some (r, d)) = Some (r, d') /\
    v_peers d' !! p = Some x' /\ after_queue te d x queue r x' /\ moves [p] d d' /\ dev_ready d' (with_batch p r g) m.
Proof.
  intros Hr Hp Hx. destruct (dr_nonces _ _ _ Hr p x Hp Hx) as (sl & rl & HN). destruct (di_peers _ _ (dr_inv _ _ _ Hr) p Hp) as (y & Hy & Hk). rewrite Hx in Hy. injection Hy as <-.
  set (x1 := set_v_staged queue (ref_bump 1 x)). cbn [mbind option_bind]. unfold send_staged at 1. cbn [v_peers set_v_peer]. rewrite lookup_insert_eq. cbn [mbind option_bind].
  set (st := traffic (set_v_peer p x1 d) x1). assert (t_keys st = keys d x) as Et by done.
  destruct (send_staged_ok (te_clock te) st (g p) sl rl Hk HN) as (r & st' & E & Hk' & HN'). rewrite E. cbn [mbind option_bind].
  destruct (send_staged_shape _ st _ _ sl rl HN E) as (Hsk & Hkc & Hlm & Hix). set (d2 := put_traffic te p r st' x1 (set_v_peer p x1 d)).
  set (x2 := DevPeer (ks_pairs (t_keys st')) (ks_slots (t_keys st')) (t_staged st') (v_handshake x1) (asks te r (v_timers x1)) (v_sock x1)).
  assert (v_peers d2 !! p = Some x2) as Hx2 by (cbn; by rewrite lookup_insert_eq). rewrite (take_ref_ok _ _ x2 d2 Hx2). cbn [mbind option_bind].
  set (x3 := ref_bump (-1) x2). assert (v_timers x3 = asks te r (v_timers x)) as Ht by exact (asks_refs te r (v_timers x)).
  assert (moves [p] d (set_v_peer p x3 d2)) as Hm.
  { split; [done| |intros _; apply Hk'|exact Hix]. intros q Hq. assert (q <> p) by (intros ->; apply Hq; by left). cbn. by rewrite !lookup_insert_ne by done. }
  exists r, (set_v_peer p x3 d2), x3. split; [done|]. split; [cbn; by rewrite lookup_insert_eq|]. split; [by split|]. split; [done|].
  assert (keys (set_v_peer p x3 d2) x3 = t_keys st') as Ek by (unfold keys, x3, x2; cbn; destruct (t_keys st') as [? ? kc ?]; cbn in *; by rewrite Hkc).
  destruct Hr as [Hi Hh Hro Hre Hno]. split; try done.
  - apply (dev_inv_moves_at p d _ g); [done|done|intros q Hq; unfold with_batch; by rewrite decide_False|]. intros _. exists x3. split; [cbn; by rewrite lookup_insert_eq|].
    unfold with_batch. rewrite decide_True by done. by rewrite Ek.
  - intros q y Hq Hy. destruct (decide (q = p)) as [->|D]; [|apply (Hre q y Hq); by rewrite <- (mv_others _ _ _ Hm q) by (by intros ->%list_elem_of_singleton)].
    cbn in Hy. rewrite lookup_insert_eq in Hy. injection Hy as <-. rewrite Ht. pose proof (proj1 (asks_keeps te r (v_timers x))). specialize (Hre p x Hp Hx). lia.
  - intros q y Hq Hy. destruct (decide (q = p)) as [->|D]; [|rewrite (mv_others _ _ _ Hm q) in Hy by (by intros ->%list_elem_of_singleton); destruct (Hno q y Hq Hy) as (sl1 & rl1 & H1); exists sl1, rl1; by eapply nonce_inv_kept, kept_same].
    cbn in Hy. rewrite lookup_insert_eq in Hy. injection Hy as <-. rewrite Ek. eauto.
Qed.

Definition skb_segments (skb : out_skb) : Z + list (list Z) := match ok_gso skb with None => inr [ok_data skb] | Some r => r end.
Definition skb_mtu (skb : out_skb) (d : device) : Z := match ok_dst_mtu skb with Some m => m | None => v_mtu d end.

(** What [wg_xmit] does with a packet when the allowed addresses are [m]. *)
Definition xmit_spec (te : timer_env) (skb : out_skb) (m : contents) (d : device) (ret : Z) (fx : list xmit_effect) (d' : device) : Prop :=
  let b := ok_data skb in
  if negb (wg_check_packet_protocol skb) then ret = - EPROTONOSUPPORT /\ fx = [TxError] /\ d' = d
  else
    match spec_match m (is_v6 b) (ip_dest (is_v6 b) b) with
    | None => ret = - ENOKEY /\ fx = [IcmpUnreachable; TxError] /\ d' = d
    | Some p =>
        exists x, v_peers d !! p = Some x /\
        match ps_endpoint (v_sock x), skb_segments skb with
        | EpNone, _ => ret = - EDESTADDRREQ /\ fx = [IcmpUnreachable; TxError] /\ d' = d
        | _, inl err => ret = err /\ fx = [IcmpUnreachable; TxError] /\ d' = d
        | _, inr segs =>
            ret = 0 /\ moves [p] d d' /\ exists dropped kept r x', v_staged x = dropped ++ kept /\ len kept = Z.min (len (v_staged x)) MAX_STAGED_PACKETS /\
            fx = map TxDropped dropped ++ [TxResult r] /\ v_peers d' !! p = Some x' /\ after_queue te d x (kept ++ segments skb segs (skb_mtu skb d)) r x'
        end
    end.

Lemma icmp_checked skb : wg_check_packet_protocol skb = true -> icmp_for skb = [IcmpUnreachable].
Proof.
  intros [Hz He]%andb_true_iff. apply Z.eqb_eq in He. unfold icmp_for. rewrite He. unfold ip_tunnel_parse_protocol in *.
  destruct (_ && _); [done|]. by destruct (_ && _).
Qed.

Lemma xmit_to_ok te skb d g m p x : dev_ready d g m -> p ∈ v_list d -> v_peers d !! p = Some x -> wg_check_packet_protocol skb = true ->
  exists ret fx d', xmit_to te skb p (set_v_peer p (ref_bump 1 x) d) = Some (ret, fx, d') /\ (exists g', dev_ready d' g' m) /\
    match ps_endpoint (v_sock x), skb_segments skb with
    | EpNone, _ => ret = - EDESTADDRREQ /\ fx = [IcmpUnreachable; TxError] /\ d' = d
    | _, inl err => ret = err /\ fx = [IcmpUnreachable; TxError] /\ d' = d
    | _, inr segs =>
        ret = 0 /\ moves [p] d d' /\ exists dropped kept r x', v_staged x = dropped ++ kept /\ len kept = Z.min (len (v_staged x)) MAX_STAGED_PACKETS /\
        fx = map TxDropped dropped ++ [TxResult r] /\ v_peers d' !! p = Some x' /\ after_queue te d x (kept ++ segments skb segs (skb_mtu skb d)) r x'
    end.
Proof.
  intros Hr Hp Hx Hc. unfold xmit_to. cbn [v_peers set_v_peer]. rewrite lookup_insert_eq. cbn [mbind option_bind]. rewrite (icmp_checked skb Hc).
  assert (forall err : Z, exists (ret : Z) (fx : list xmit_effect) (d' : device), (d0 ← take_ref (-1) p (set_v_peer p (ref_bump 1 x) d); Some (err, [IcmpUnreachable] ++ [TxError], d0)) = Some (ret, fx, d') /\
    (exists g', dev_ready d' g' m) /\ ret = err /\ fx = [IcmpUnreachable; TxError] /\ d' = d) as He.
  { intros err. rewrite (give_back p x d Hx). eexists _, _, _. split; [done|]. split; [by exists g|done]. }
  change (v_sock (ref_bump 1 x)) with (v_sock x). change (v_staged (ref_bump 1 x)) with (v_staged x). fold (skb_segments skb).
  set (mtu := match ok_dst_mtu skb with Some m0 => m0 | None => _ end). change mtu with (skb_mtu skb d).
  destruct (ps_endpoint (v_sock x)) eqn:Ee; [apply He|..]; (destruct (skb_segments skb) as [err|segs]; [apply He|]);
    pose proof (trim_staged_ok (v_staged x)) as Ht; destruct (trim_staged (v_staged x)) as [dropped kept]; destruct Ht as [Ht1 Ht2];
    destruct (offer_ok te d g m p x (kept ++ segments skb segs (skb_mtu skb d)) Hr Hp Hx) as (r & d' & x' & E & Hx' & Ha & Hm & Hr');
    rewrite set_v_peer_twice; cbn [mbind option_bind] in E; destruct (send_staged _ _ _) as [[r0 d0]|]; try done; cbn [mbind option_bind] in E |- *;
    destruct (take_ref _ _ d0) as [d1|]; try done; cbn [mbind option_bind] in E |- *; injection E as -> ->;
    (eexists _, _, _; split; [done|]; split; [by eexists|]; split; [done|]; split; [done|]; by exists dropped, kept, r, x').
Qed.

(** * Theorems *)

Lemma each_device_ok {A} (f : device -> option device) (P : device * A -> Prop) (R : device * A -> device -> Prop) l :
  (forall x, P x -> exists d', f x.1 = Some d' /\ R x d') -> Forall P l -> exists l', each_device f (map fst l) = Some l' /\ Forall2 R l l'.
Proof.
  intros Hf. induction 1 as [|x l Hx Hl IH]; cbn [map each_device]; [by exists []|]. destruct (Hf x Hx) as (d' & -> & HR). destruct IH as (l' & -> & HF). cbn. eauto.
Qed.

(** Two rounds over the devices. *)
Lemma each_device_twice {A} (f h : device -> option device) (P : device * A -> Prop) (R : device * A -> device -> Prop) l :
  (forall x, P x -> exists d1 d2, f x.1 = Some d1 /\ h d1 = Some d2 /\ R x d2) -> Forall P l ->
  exists l1 l2, each_device f (map fst l) = Some l1 /\ each_device h l1 = Some l2 /\ Forall2 R l l2.
Proof.
  intros Hf. induction 1 as [|x l Hx Hl IH]; cbn [map each_device]; [by exists [], []|]. destruct (Hf x Hx) as (d1 & d2 & -> & H2 & HR). destruct IH as (l1 & l2 & -> & H3 & HF).
  cbn [mbind option_bind]. exists (d1 :: l1), (d2 :: l2). split; [done|]. split; [|by constructor]. cbn [each_device]. rewrite H2, H3. done.
Qed.

Lemma each_listed f Q d g : peer_step f Q -> stable Q -> dev_inv d g -> exists d', each_peer f (v_list d) d = Some d' /\ moves (v_list d) d d' /\ dev_inv d' g /\
  forall p, p ∈ v_list d -> exists x x', v_peers d !! p = Some x /\ v_peers d' !! p = Some x' /\ Q p x x' (v_index d').
Proof. intros Hf Hs Hd. apply (each_peer_ok f Q Hf Hs); [done|apply Hd|done]. Qed.

(** C21: a packet from the network stack goes to the peer that holds the longest
    allowed prefix of its destination and to no other.  Behind the packets that
    wait there, of which the oldest are dropped beyond 128, its segments are
    either all sent under the current keypair, with consecutive nonces and in order,
    or all wait and a handshake is asked for.  A packet without a peer, an endpoint
    or memory is answered and freed and changes nothing; the reference to the
    peer is given back on every path. *)
Theorem xmit_routes te skb d g m : dev_ready d g m -> all_bytes (ok_data skb) ->
  exists ret fx d', wg_xmit te skb d = Some (ret, fx, d') /\ (exists g', dev_ready d' g' m) /\ xmit_spec te skb m d ret fx d'.
Proof.
  intros Hr Hb. unfold wg_xmit, xmit_spec. destruct (wg_check_packet_protocol skb) eqn:Ec; cbn [negb]; [|eexists _, _, _; split; [done|]; split; [by exists g|done]].
  rewrite (lookup_dst_ok d g m skb Hr Hb Ec). cbn [mbind option_bind]. rewrite (icmp_checked skb Ec).
  destruct (spec_match _ _ _) as [p|] eqn:Em; [|eexists _, _, _; split; [done|]; split; [by exists g|done]].
  pose proof (ready_route _ _ _ _ _ _ Hr Em) as Hp. destruct (di_peers _ _ (dr_inv _ _ _ Hr) p Hp) as (x & Hx & _).
  rewrite (take_ref_ok 1 p x d Hx). cbn [mbind option_bind]. destruct (xmit_to_ok te skb d g m p x Hr Hp Hx Ec) as (ret & fx & d' & E & Hr' & Hs).
  exists ret, fx, d'. split; [done|]. split; [done|]. by exists x.
Qed.

Lemma drain_ring_ok fuel : forall r l, ring_ok r l -> (length l < fuel)%nat -> exists r', drain fuel r = Some (l, r') /\ ring_ok r' [].
Proof.
  induction fuel as [|fuel IH]; intros r l R Hf; [lia|]. cbn [drain]. destruct (consume_ok _ _ R) as (r1 & -> & R1 & _). destruct l as [|a l]; cbn [head hd_error tail] in *; [eauto|].
  destruct (IH r1 l R1 ltac:(cbn in Hf; lia)) as (r2 & -> & R2). cbn. eauto.
Qed.

Lemma silent_stable e : stable (silent e).
Proof.
  intros p x x' t t' Hl (A & B & D & E & F & G & H & I & J). unfold silent. ands; try done; [by eapply unlinked_shrinks|auto].
Qed.

(** C22: taking the device down leaves nothing behind that could act: no peer has
    a packet that waits, a timer that runs, a handshake or a keypair in a slot; no
    index leads to the peers any more; every handshake packet in the ring is
    freed, once; and both sockets are released. *)
Theorem device_stop_silent handshake_entry now d g queued : dev_inv d g -> ring_ok (v_ring d) queued ->
  exists d', wg_stop handshake_entry now d = Some (queued, sock_free (wg_sock4 (v_socks d)) ++ sock_free (wg_sock6 (v_socks d)), d') /\
    dev_inv d' g /\ ring_ok (v_ring d') [] /\ v_queue_len d' = 0 /\ v_socks d' = WgSocks None None (incoming_port (v_socks d)) /\ v_list d' = v_list d /\
    forall p, p ∈ v_list d -> exists x x', v_peers d !! p = Some x /\ v_peers d' !! p = Some x' /\ silent handshake_entry p x x' (v_index d').
Proof.
  intros Hd Hq. unfold wg_stop. destruct (each_listed _ _ d g (stop_peer_ok handshake_entry now) (silent_stable _) Hd) as (d1 & -> & [(F1 & F2 & F3 & F4 & F5 & F6 & F7 & F8) _ _ _] & D1 & P1).
  cbn [mbind option_bind]. rewrite F4. pose proof (ro_room _ _ Hq) as Hr. pose proof (ro_consumer _ _ Hq) as Hc.
  destruct (drain_ring_ok (S (Z.to_nat (pr_size (v_ring d)))) (v_ring d) queued) as (r' & -> & R'); [done|unfold len in *; lia|]. cbn [mbind option_bind]. eexists. split.
  - cbn [wg_socket_reinit set_v_queue v_socks]. by rewrite F6.
  - split; [by destruct D1|]. split; [done|]. split; [done|]. split; [done|]. split; [done|]. done.
Qed.

(** C29: before the machine suspends, every key is forgotten: the peers of all
    devices have no keypair in a slot, a zeroed handshake, no index and no timer for the
    erasure of keys, and the only keypairs left in memory are those that packets
    being processed still refer to. *)
Theorem suspend_forgets_keys handshake_entry (ds : list (device * (Z -> refs))) : Forall (fun x => dev_inv x.1 x.2) ds ->
  exists ds', wg_pm_notification handshake_entry false true (map fst ds) = Some ds' /\
    Forall2 (fun x d' => dev_inv d' x.2 /\ v_list d' = v_list x.1 /\ forall p, p ∈ v_list d' -> exists y, v_peers d' !! p = Some y /\
      v_slots y = no_slots /\ v_handshake y = handshake_zero (v_handshake y) /\ unlinked (v_index d') y /\ ~ linked (ix_heads (v_index d')) (handshake_entry p) /\
      timer_zero_key_material (v_timers y) = None /\ forall a, is_Some (v_pairs y !! a) -> 0 < outside (x.2 p) a) ds ds'.
Proof.
  intros Hds. unfold wg_pm_notification. cbn [negb].
  destruct (each_device_twice (fun d => each_peer (suspend_peer handshake_entry) (v_list d) d) (fun d => each_peer free_pairs (v_list d) d) (fun x => dev_inv x.1 x.2)
    (fun x d' => dev_inv d' x.2 /\ v_list d' = v_list x.1 /\ forall p, p ∈ v_list d' -> exists y, v_peers d' !! p = Some y /\
      v_slots y = no_slots /\ v_handshake y = handshake_zero (v_handshake y) /\ unlinked (v_index d') y /\ ~ linked (ix_heads (v_index d')) (handshake_entry p) /\
      timer_zero_key_material (v_timers y) = None /\ forall a, is_Some (v_pairs y !! a) -> 0 < outside (x.2 p) a) ds) as (l1 & l2 & E1 & E2 & HF); [|done|].
  - intros [d g] Hd. cbn [fst snd] in *.
    destruct (each_listed _ _ d g (suspend_peer_ok handshake_entry)) as (d1 & E1 & M1 & D1 & P1); [|done|].
    { intros p x x' t t' Hl (ps & H1 & -> & H2 & H3). exists ps. split; [done|]. split; [done|]. split; [by eapply unlinked_shrinks|auto]. }
    destruct (each_listed _ _ d1 g free_pairs_ok ltac:(by intros ? ? ? ? ? _) D1) as (d2 & E2 & M2 & D2 & P2). exists d1, d2. split; [done|]. split; [done|]. split; [done|].
    pose proof (proj1 (mv_frame _ _ _ M1)) as L1. pose proof (proj1 (mv_frame _ _ _ M2)) as L2. split; [congruence|]. rewrite L2. intros p Hp.
    destruct (P2 p Hp) as (x1 & x2 & X1 & X2 & ps2 & Hf & ->). rewrite L1 in Hp. destruct (P1 p Hp) as (x & x1' & _ & X1' & ps & Hsm & E & Hu & He). rewrite X1 in X1'. injection X1' as <-. subst x1.
    cbn [v_pairs v_slots v_staged v_handshake v_timers v_sock] in *. eexists. split; [exact X2|]. split; [done|]. split; [done|]. split; [|split; [intros H; by apply He, (mv_linked _ _ _ M2)|split; [done|]]].
    + intros a [kp Ha] Hin. apply (mv_linked _ _ _ M2) in Hin. destruct (Hf a kp Ha) as [Ha' _]. apply (Hu a); [|done]. cbn. by rewrite Ha'.
    + intros a [kp Ha]. destruct (di_peers _ _ D2 p) as (y & Hy & Hk); [by rewrite L2, L1|]. rewrite X2 in Hy. injection Hy as <-. pose proof (kinv_counted _ _ Hk a) as [_ Hc].
      pose proof (kinv_outside _ _ Hk a). cbn in Hc. destruct (Hf a kp Ha) as [_ Hz]. cbn in Ha. rewrite Ha in Hc. unfold slot_refs in Hc. cbn in Hc. rewrite !held_none in Hc. lia.
  - exists l2. rewrite E1. cbn [mbind option_bind]. done.
Qed.

(** C23: after the virtual machine was duplicated no packet is sent under a key that
    the other copy knows too: the handshakes in progress are gone, and whatever a
    peer does from then on, receiving packets and confirming keypairs included, no
    nonce is used until a new session begins. *)
Theorem vm_fork_no_reuse `{C : NoiseCrypto} handshake_entry now (ds : list (device * (Z -> refs))) : Forall (fun x => dev_inv x.1 x.2) ds ->
  exists ds', wg_vm_notification handshake_entry now (map fst ds) = Some ds' /\
    Forall2 (fun x d' => dev_inv d' x.2 /\ v_list d' = v_list x.1 /\ forall p, p ∈ v_list d' -> exists y, v_peers d' !! p = Some y /\
      hs_state (v_handshake y) = HANDSHAKE_ZEROED /\ ~ linked (ix_heads (v_index d')) (handshake_entry p) /\
      forall ops g r, Forall no_session ops -> run_tops ops (TRun (traffic d' y) g [] []) = Some r -> tr_sent r = []) ds ds'.
Proof.
  intros Hds. unfold wg_vm_notification. apply (each_device_ok _ (fun x => dev_inv x.1 x.2)); [|done]. intros [d g] Hd. cbn [fst snd] in *.
  destruct (each_listed _ _ d g (expire_peer_ok handshake_entry now)) as (d' & E & M & D & P); [intros p x x' t t' Hl [H1 H2]; split; [done|auto]|done|].
  exists d'. split; [done|]. split; [done|]. pose proof (proj1 (mv_frame _ _ _ M)) as L. split; [done|]. rewrite L. intros p Hp.
  destruct (P p Hp) as (x & y & _ & Hy & He & Hl). exists y. split; [done|]. split; [by rewrite (proj1 (proj2 He))|]. split; [done|]. intros ops gs r Hn Hrun.
  exact (tops_muted ops (TRun (traffic d' y) gs [] []) r Hn (expired_muted d' x y He) Hrun).
Qed.

(** When the namespace in which a device was created goes away, the device stays
    but is cut off: its sockets are closed, no peer keeps an address of that namespace
    or a cached route, and it cannot be brought up again.  Devices of other
    namespaces are not touched. *)
Theorem netns_exit_cuts_off net (ds : list (device * (Z -> refs))) : Forall (fun x => dev_inv x.1 x.2) ds ->
  exists ds', wg_netns_pre_exit net (map fst ds) = Some ds' /\
    Forall2 (fun x d' => if bool_decide (v_net x.1 = Some net) then
        dev_inv d' x.2 /\ v_net d' = None /\ v_socks d' = WgSocks None None (incoming_port (v_socks x.1)) /\
        (forall p, p ∈ v_list x.1 -> exists y y', v_peers x.1 !! p = Some y /\ v_peers d' !! p = Some y' /\
          dest (ps_endpoint (v_sock y')) = dest (ps_endpoint (v_sock y)) /\ source (ps_endpoint (v_sock y')) = 0 /\ ps_cache (v_sock y') = None) /\
        forall ipv6 live u te alloc, wg_open ipv6 live u te alloc d' = Some (- ENONET, [], [], d')
      else d' = x.1) ds ds'.
Proof.
  intros Hds. unfold wg_netns_pre_exit. apply (each_device_ok _ (fun x => dev_inv x.1 x.2)); [|done]. intros [d g] Hd. cbn [fst snd] in *. case_bool_decide as E; [|by exists d].
  set (d1 := set_v_socks _ _). assert (dev_inv d1 g) as Hd1 by (by destruct Hd).
  destruct (each_listed _ _ d1 g (with_peer_ok (fun x => set_v_sock (wg_socket_clear_peer_endpoint_src (v_sock x)) x) ltac:(done) ltac:(done)) (stable_const _) Hd1)
    as (d' & Hr & [(F1 & F2 & F3 & F4 & F5 & F6 & F7 & F8) _ _ _] & D & P).
  exists d'. split; [exact Hr|]. split; [done|]. split; [exact F7|]. split; [exact F6|]. split.
  - intros p Hp. destruct (P p Hp) as (y & y' & Hy & Hy' & ->). eexists y, _. split; [exact Hy|]. split; [exact Hy'|]. cbn. by destruct (ps_endpoint (v_sock y)).
  - intros ipv6 live u te alloc. unfold wg_open, wg_socket_init. rewrite F7. cbn [set_v_net v_net]. rewrite bool_decide_false by (intros H; by apply H). cbn [andb negb mbind option_bind].
    replace (- ENONET <? 0) with true by done. by destruct d'.
Qed.

(** ** An example: a device with one peer, a session and a packet that waits *)

Definition dv_entry (p : Z) : Z := p - 6.
Definition dv_ops : list top := [TKey (KBegin (hs_example HANDSHAKE_CONSUMED_RESPONSE) 1 7 (Some 100) 0 false)].
Definition dv_run : trun := default t_example (run_tops (C := toy_crypto) dv_ops t_example).
Definition dv_keys : kstate := t_keys (tr_peer dv_run).
Definition dv_refs (_ : Z) : refs := tr_refs dv_run.
Definition dv_routes : list op := [OpInsert false [10; 0; 0; 0] 8 (Some 7)].
Definition dv_table : table := match run_ops dv_routes (wg_allowedips_init []) with Some (_, st) => st | None => wg_allowedips_init [] end.
Definition dv_contents : contents := spec_ops dv_routes [0] (fun _ => ∅).
Definition dv_ring : ptr_ring := (ptr_ring_produce (PtrRing 0 0 0 4 (batch_for 4) (replicate 4 None)) 55).2.
Definition dv_peer : dev_peer :=
  DevPeer (ks_pairs dv_keys) (ks_slots dv_keys) [TxPacket demo_packet 1420 0] (hs_example HANDSHAKE_ZEROED)
    (PeerTimers None None None (Some 540) None 0 25 false false 0 0 false true 2) (PeerSock (Ep4 51820 1 0 0) None 0).
Definition dv : device :=
  Device {[7 := dv_peer]} [7] (ks_index dv_keys) (keypair_counter dv_keys) dv_table dv_ring 1 (WgSocks (Some (Sock 1 51820)) None 51820) (Some 1) 1420.

Lemma dv_tinv : tinv dv_run.
Proof.
  apply (t_reachable_inv (C := toy_crypto)). eapply (t_reachable_step _ (TKey (KBegin (hs_example HANDSHAKE_CONSUMED_RESPONSE) 1 7 (Some 100) 0 false)));
    [apply (t_reachable_init (ks_index kp_example) 0); [apply ix_example_ok|lia]|split; [split; [apply kp_example_fresh|done]|cbn; lia]|].
  assert (is_Some (run_tops (C := toy_crypto) dv_ops t_example)) as [r Hr] by (apply (fmap_is_Some tr_sent); vm_compute; eauto).
  unfold dv_run. rewrite Hr. cbn [default]. unfold dv_ops in Hr. cbn [run_tops] in Hr. apply bind_Some in Hr as (r1 & Hr & [= ->]). exact Hr.
Qed.

Lemma dv_keys_eq : keys dv dv_peer = dv_keys.
Proof. unfold keys, dv, dv_peer. cbn [v_index v_counter v_pairs v_slots]. by destruct dv_keys. Qed.

Lemma dv_inv : dev_inv dv dv_refs.
Proof.
  destruct dv_tinv as [Hk _]. split; [apply NoDup_singleton|exact (kinv_index _ _ Hk)|]. intros p ->%list_elem_of_singleton. exists dv_peer.
  split; [apply lookup_singleton_eq|]. rewrite dv_keys_eq. exact Hk.
Qed.

Lemma dv_ready : dev_ready dv dv_refs dv_contents.
Proof.
  split; [exact dv_inv| | | |].
  - destruct (ops_refine dv_routes _ _ (init_holds []) ltac:(repeat constructor; cbn; try lia; unfold is_byte; lia)) as (rs & st & E & _ & Hh).
    assert (rs = [0] /\ st = dv_table) as [-> ->]; [|exact Hh]. unfold dv_table. rewrite E. split; [|done].
    assert ((fst <$> run_ops dv_routes (wg_allowedips_init [])) = Some [0]) as E2 by (vm_compute; reflexivity). rewrite E in E2. by injection E2.
  - intros v q p H. apply list_elem_of_singleton. unfold dv_contents, dv_routes in H. cbn [spec_ops spec_op Z.eqb] in H. unfold c_set in H.
    destruct (Bool.eqb v false); [|by rewrite lookup_empty in H]. apply lookup_insert_Some in H as [[_ <-]|[_ H]]; [done|by rewrite lookup_empty in H].
  - intros p x ->%list_elem_of_singleton Hx. assert (x = dv_peer) as -> by (cbn in Hx; rewrite lookup_singleton_eq in Hx; by injection Hx). cbn. lia.
  - intros p x ->%list_elem_of_singleton Hx. assert (x = dv_peer) as -> by (cbn in Hx; rewrite lookup_singleton_eq in Hx; by injection Hx).
    rewrite dv_keys_eq. exists (tr_sent dv_run), (tr_received dv_run). apply dv_tinv.
Qed.

Definition dv_skb : out_skb := OutSkb demo_packet ETH_P_IP None None (fun _ => true).
Definition dv_te : timer_env := TimerEnv 0 1 0 true false (fun _ => 0).

Lemma xmit_routes_witness : (fst <$> wg_xmit dv_te dv_skb dv) = Some (0, [TxResult (StagedBatch 100 [TxPacket demo_packet 1420 0; TxPacket demo_packet 1420 1])]) /\
  exists ret fx d' g', wg_xmit dv_te dv_skb dv = Some (ret, fx, d') /\ dev_ready d' g' dv_contents.
Proof.
  split; [vm_compute; reflexivity|]. destruct (xmit_routes dv_te dv_skb dv dv_refs dv_contents dv_ready) as (ret & fx & d' & E & (g' & H) & _).
  - repeat constructor; unfold is_byte; cbn; lia.
  - exists ret, fx, d', g'. split; [exact E|exact H].
Defined.

Lemma dv_ring_ok : ring_ok (v_ring dv) [55].
Proof.
  destruct (ring_init_ok 4 true _ eq_refl eq_refl) as [R _]. destruct (produce_ok _ [] 55 R eq_refl) as (r' & E & R' & _).
  change (v_ring dv) with (ptr_ring_produce (PtrRing 0 0 0 4 (batch_for 4) (replicate (Z.to_nat 4) None)) 55).2. rewrite E. exact R'.
Qed.

Lemma device_stop_silent_witness : (fst <$> wg_stop dv_entry 9 dv) = Some ([55], [Released (Sock 1 51820)]) /\
  exists d' x', wg_stop dv_entry 9 dv = Some ([55], [Released (Sock 1 51820)], d') /\ v_peers d' !! 7 = Some x' /\ silent dv_entry 7 dv_peer x' (v_index d').
Proof.
  split; [vm_compute; reflexivity|]. destruct (device_stop_silent dv_entry 9 dv dv_refs [55] dv_inv dv_ring_ok) as (d' & E & _ & _ & _ & _ & _ & H).
  destruct (H 7) as (x & x' & Hx & Hx' & Hs); [left|]. assert (x = dv_peer) as -> by (cbn in Hx; rewrite lookup_singleton_eq in Hx; by injection Hx).
  exists d', x'. split; [exact E|]. split; [exact Hx'|exact Hs].
Defined.

Lemma suspend_forgets_keys_witness : exists d', wg_pm_notification dv_entry false true [dv] = Some [d'] /\ exists y, v_peers d' !! 7 = Some y /\ v_slots y = no_slots /\ v_pairs y = ∅.
Proof.
  destruct (suspend_forgets_keys dv_entry [(dv, dv_refs)]) as (ds' & E & F); [apply Forall_singleton; exact dv_inv|].
  apply Forall2_cons_inv_l in F as (d' & l & (_ & L & H) & F & ->). apply Forall2_nil_inv_l in F as ->. exists d'. split; [exact E|].
  destruct (H 7) as (y & Hy & Hs & _ & _ & _ & _ & Ho); [rewrite L; left|]. exists y. split; [exact Hy|]. split; [exact Hs|].
  apply map_empty. intros a. destruct (v_pairs y !! a) eqn:Ea; [|reflexivity]. specialize (Ho a ltac:(by rewrite Ea)). vm_compute in Ho. discriminate Ho.
Defined.

(** The peer has a packet to send and a session, and still sends nothing. *)
Lemma vm_fork_no_reuse_witness : exists d' y, wg_vm_notification dv_entry 9 [dv] = Some [d'] /\ v_peers d' !! 7 = Some y /\
  exists r, run_tops (C := toy_crypto) [TSend 10; TKeepalive 11 1420 true] (TRun (traffic d' y) (dv_refs 7) [] []) = Some r /\ tr_sent r = [].
Proof.
  destruct (vm_fork_no_reuse (C := toy_crypto) dv_entry 9 [(dv, dv_refs)]) as (ds' & E & F); [apply Forall_singleton; exact dv_inv|].
  apply Forall2_cons_inv_l in F as (d' & l & (Hd & L & H) & F & ->). apply Forall2_nil_inv_l in F as ->.
  destruct (H 7) as (y & Hy & _ & _ & Hr); [rewrite L; left|]. exists d', y. split; [exact E|]. split; [exact Hy|].
  specialize (Hr [TSend 10; TKeepalive 11 1420 true] (dv_refs 7)).
  destruct (run_tops _ _) as [r|] eqn:Er; [exists r; split; [reflexivity|]; apply Hr; [repeat constructor|reflexivity]|].
  exfalso. assert (is_Some (ds ← wg_vm_notification dv_entry 9 [dv]; d ← head ds; y ← v_peers d !! 7;
    run_tops (C := toy_crypto) [TSend 10; TKeepalive 11 1420 true] (TRun (traffic d y) (dv_refs 7) [] []))) as [r Hx] by (vm_compute; eauto).
  cbn [map fst] in E. rewrite E in Hx. cbn [mbind option_bind head] in Hx. rewrite Hy in Hx. cbn [mbind option_bind] in Hx. rewrite Er in Hx. discriminate Hx.
Defined.

Lemma netns_exit_cuts_off_witness : exists d', wg_netns_pre_exit 1 [dv] = Some [d'] /\ forall te, wg_open true true (UdpCreation (fun _ _ => inl 0) (fun _ _ => inl 0) true) te (fun _ => true) d' = Some (- ENONET, [], [], d').
Proof.
  destruct (netns_exit_cuts_off 1 [(dv, dv_refs)]) as (ds' & E & F); [apply Forall_singleton; exact dv_inv|].
  apply Forall2_cons_inv_l in F as (d' & l & H & F & ->). apply Forall2_nil_inv_l in F as ->. exists d'. split; [exact E|]. rewrite bool_decide_true in H by done. intros te. apply H.
Defined.
